(* ===== verification/_CoqProject ===== *)
-Q . S2P
Prelude.v
Externals.v
Primitives.v
Canonical.v
Rlp.v
RawTx.v
Pow.v
Consensus.v
State.v
StateRoot.v
Transition.v
Mempool.v
Miner.v
Network.v
Evm.v
Difficulty.v
BlockExec.v
Sled.v
AccountStore.v
Admission.v
Replay.v
BlockStore.v
ChainStore.v
Generation.v
Publish.v
CandidateStore.v
NodeStore.v
NodeState.v
Supply.v
Snapshots.v
Branch.v
Import.v
Reorg.v
Direct.v
Fork.v
Rebuild.v
Cursor.v
Recovery.v
Sync.v
Driver.v
Locator.v
Witness.v
Jobs.v
Spool.v
Resume.v
Wire.v
Serve.v
Ancestor.v
Session.v
Services.v
History.v
Calls.v
Logs.v
Upstream.v
Mining.v
