(* ===== verification/Prelude.v ===== *)
(** * Verification of the BLQ node

    The BLQ node is a proof-of-work chain node with EVM execution.  Its crates
    lie under [src/crates/]; the largest part of the node's own logic is in
    [blq-node/src/main.rs].  This library translates the parts that decide
    what a valid block is, what a block does to the accounts, what is stored,
    and how the node moves between chains, and proves what these parts promise.

    ** Parts of the program, and where they are modelled

    - Data, text forms, canonical encodings, hashes, roots
      ([blq-primitives/src/lib.rs]): [Primitives]; what the hashes commit to:
      [Canonical].
    - RLP and signed wire transactions ([blq-primitives], [main.rs]
      [rlp_*], [decode_*], [verify_transaction_signature]): [Rlp], [RawTx].
    - Proof of work ([blq-pow]): [Pow].  The caches of both native modes are
      explicit state; threads on the shared dataset are sequences of
      lock-to-lock steps.
    - Consensus rules ([blq-consensus]): [Consensus].  Rewards, fee split, base
      fee, retargeting, header and block validation.
    - Plain accounts ([blq-state], [main.rs]
      [simulate_state_transition_from_accounts]): [State], [StateRoot],
      [Transition].
    - Mempool, miner, peers ([blq-mempool], [blq-miner], [blq-network]):
      [Mempool], [Miner], [Network].  Admission of transactions into the pool
      ([main.rs] [rpc_send_raw_transaction] and the checks around it):
      [Admission].
    - EVM ([blq-evm]; [main.rs] [execute_evm_state_transition_in_place]):
      [Evm], [BlockExec].  [BlockExec] also has building and validating a block
      on the current state.
    - Difficulty history and candidate branches ([main.rs]
      [expected_difficulty_target_with_lookup],
      [validate_candidate_branch_shape]): [Difficulty].
    - Replay of a branch ([main.rs] [ExecutionReplayOverlay]): [Replay].
    - Storage ([blq-storage]).  [Sled]: the store, the handle and the monad of
      its methods.  [AccountStore]: account rows, snapshots, counters.
      [BlockStore]: blocks, receipts, log index, pruning, and the memory and
      file storages.  [ChainStore]: the rows a chain leaves.  [Generation]: the
      files beside the database and their recovery.  [Publish]: replacing a
      suffix of the chain.  [CandidateStore]: orphans, candidates, the recovery
      spool.
    - The node's storage ([main.rs] [NodeStorage]): [NodeStore] (operations),
      [NodeState] (state kept beside the chain), [Supply] (issued and burned
      totals).
    - Snapshot files of the execution state, in the directories of all
      generations ([blq-storage], [main.rs] [write_periodic_snapshot]):
      [Snapshots].
    - Forks and imports ([main.rs]).  [Branch]: work, the walk to the common
      ancestor, competing blocks, the orphan drain, the replay of a whole
      chain.  [Import]: the direct extension of the tip, the publication of a
      fork, the import of blocks and headers.  What they promise: [Reorg] (the
      walk), [Direct] (the direct extension), [Fork] (the publication),
      [Rebuild] (the replacement of a chain and the rollback).
    - Recovery of a longer branch from peers ([main.rs] [BranchSyncCursor] and
      the functions on it).  [Cursor]: a job and its normalization.
      [Recovery]: the shared table of jobs and its file.  [Sync]: the locator,
      the repair from the spool, the next request, the publication.  [Driver]:
      the life of a job, from the hello of a peer to its removal.  What they
      promise: [Locator] (the locator), [Witness] (the cross-check by a second
      peer), [Jobs] (the invariant of the jobs), [Spool] (the spool rows),
      [Resume] (the repair after a crash).
    - Peers ([main.rs]).  [Wire]: messages, records, identities.  [Serve]:
      [handle_p2p_message_from].  [Session]: [handle_p2p_connection], with a
      ghost field [se_handled] that lists the messages given to the handler.
      [Services]: discovery and relay.  [Ancestor]: two nodes that look for
      their common block.
    - Queries ([main.rs] [rpc_*]).  [History]: past states and the queries of an
      account.  [Calls]: [eth_estimateGas] and [eth_call].  [Logs]:
      [eth_getLogs] and the filters.
    - Mining ([main.rs]).  [Upstream]: templates and blocks passed on to other
      nodes.  [Mining]: [rpc_block_template] and [rpc_submit_block].

    ** How the parts interact

    A block enters through [Consensus.validate_block_with_genesis_and_activation]
    and [BlockExec.validate_state_root], is executed by
    [Transition.simulate_state_transition_from_accounts] or
    [BlockExec.execute_evm_state_transition_in_place], and is stored by
    [NodeStore.insert_full_block], which composes these with
    [BlockStore.insert_block] and the account rows of [AccountStore].  A branch
    that does not extend the tip is collected in [CandidateStore], replayed in
    [Replay], and published by [Publish.publish_canonical_suffix] under the
    files of [Generation].  The representation predicates [chain_rep] (rows and
    chain), [account_rep] (rows and accounts) and [candidate_rep] (rows and
    pool) are the interfaces between the storage components: each operation has
    a lemma for the predicate it changes and a frame lemma for the others.

    A publication takes the storage lock several times and computes in between.
    The argument [others] of [Import.stage_and_publish_candidate] is what other
    threads do to the storage whenever the lock is free: an arbitrary function
    for each point at which the lock is taken again ([Branch.Moment]).  The
    handler of a message and the submission of a mined block pass it on where
    they publish.

    A message of a peer comes in as a line of [Session.session_run], which
    checks the limits and the handshake and gives it to
    [Serve.handle_p2p_message_from]; this changes the storage through
    [Import], the pool through [Mempool], and the jobs through [Driver].  The
    bodies of a job are staged in the spool of [CandidateStore], above the
    ancestor the job has; a completed job is published by
    [Import.stage_and_publish_candidate].

    ** What the theorems show

    - Validation and execution: block validation accepts exactly the blocks
      that satisfy each rule; a transition conserves the supply and counts
      nonces; what is built validates; the replay check agrees with block
      validation; EVM execution touches what it reports.
    - Encodings: signed bytes decode to the transaction they come from; the
      decoder never panics; hashes commit to every field they cover.
    - Arithmetic: retargeting, base fee, fee shares, work and issuance are
      exact or bounded, saturation and wrap-around included.
    - State machines: the pool, the candidate pool, the orphan pool and the
      peer scores keep their invariants under every sequence of operations.
    - Storage refinement: account calls refine a map, inserted blocks a list,
      candidate calls a pool; publication is atomic and a restart after any
      interruption verifies; an inserted block takes chain and accounts where
      the transition of the block takes them.
    - Moving between chains: the walk to the ancestor terminates with a linked
      suffix; the publication of a fork is all or nothing whatever other threads
      do between its locks, and what it publishes has more work and the accounts
      of its own replay; the direct extension, the rebuild and the rollback have
      their outcomes stated for refused blocks too.
    - Recovery: the locator finds the fork; a job stages above its ancestor and
      into its spool through every sequence of operations and restarts; after a
      crash it resumes from the bodies on disk; the evidence of two peers decides
      it in whatever order it arrives; after a checkpoint every branch from the
      finalized height on has a snapshot to be replayed from.
    - Peers: which hellos are accepted, and the limits on what reaches the
      handler in a session.
    - Queries: a past state is the one the node had, a log query finds what a
      scan finds, a polled filter misses nothing, and the gas search ends with
      the least limit.
    - Mining: the block made of a template passes every check of its submission,
      up to the random value EVM transactions can read.
    - Defects: several theorems exhibit behaviour the code does not mean to
      have, with a concrete input (the race on the shared dataset, the pool's
      drain order, the journal that blocks a restart, the hello that is refused
      and still opens the session, the candidate named as a common block, the
      pooled transaction that stops the templates).  The caches of [Pow] are
      proved invisible only for calls that do not interleave.

    ** Conventions

    A byte is [Byte.byte], a hash or an address a byte list whose length is a
    hypothesis ([wf_hash], [wf_address]); an integer is a [Z] with its range as
    a hypothesis ([in_u64], [in_u128]), and every operation writes out its
    wrap-around ([wrap64], [wrap128]) or saturation ([sat_add], [sat_sub],
    [sat_mul]).  A fallible function returns [res E A]: [Ok], [Err] or [Panic].
    Errors are the enums of the source; an [anyhow] error is its message
    without the values interpolated into it.  A method that writes to the store
    is a [StM E State A]: the result together with the state after the writes
    that were made, on errors too.

    Code outside the repository is a class with the behaviour relied on:
    [Digests], [HexCodec], [Secp], [U256Ops] ([Externals]), [RandomX] ([Pow]),
    [Revm] ([Evm]), [Sled] and [Json] ([Sled]), [FileIo] ([Generation]),
    [SnapshotIo] ([Snapshots]), [CursorIo] ([Recovery]), [PeerKeys] and
    [SocketAddrs] ([Wire]), [PeerStream] ([Serve]).  Every class has an instance
    that computes, so the examples and the witnesses run.

    ** Bounds and fuel

    Loops over integers run over explicit lists.  The remaining fuel is: the
    bytes of a length (8, since lengths are below 2^64), the digits of a number,
    the length of the input for the RLP list decoders (each round consumes a
    byte; totality is proved), the length of the text for trimming and of the
    list for chunks, the number of nonces for sealing, the size of the history
    window for difficulty, the height of the tip and one for the locator
    ([Locator]), the binary logarithm of the range and one for the gas search
    ([Calls.search_fuel_enough]), the number of transactions for the bounded
    block of a template (each round drops one), the number of headers and
    candidates for a heavier branch, and for the walk to an ancestor
    [Branch.branch_fuel], two more than the longest suffix the code accepts
    ([Reorg] proves that it is enough).  The limits of the code (pool sizes,
    block sizes, window lengths) are the constants of the source.

    ** Not modelled

    Sockets, TLS, HTTP and websockets, threads and locks other than those of the
    RandomX dataset and of a publication, the outbound session that drives a
    recovery job over a socket, the cache of routes, the thread that maintains
    the canonical state, the command line, configuration files, metrics, the
    text of JSON, the dispatch of JSON-RPC methods and the renderings of the
    queries not named above, directory scans and staging directories: input and
    output of the process.  The [serde] derives are the class [Json].
    [deploy/ops] and [vendor] are tooling and third-party code. *)

(** ** Shared notation, tactics and lemmas *)

From Stdlib Require Import ZArith Lia ZifyBool Strings.String Strings.Byte.
From stdpp Require Import sorting strings numbers gmap fin_maps list base.

#[global] Open Scope Z_scope.

(** ** Scope, tactics and hint databases *)

Declare Scope blq_scope.
Delimit Scope blq_scope with blq.
#[global] Open Scope blq_scope.

(** [blq_arith] holds the range facts of machine integers and byte strings,
    [blq_len] the rewriting rules that compute the length of an encoding. *)
Create HintDb blq_arith.
Create Rewrite HintDb blq_len.

(** Linear arithmetic with division and modulo by constants. *)
Ltac dlia := Z.div_mod_to_equations; lia.
Ltac dnia := Z.div_mod_to_equations; nia.

(** Length of an encoding: rewrite with the collected length rules. *)
Ltac len := autorewrite with blq_len in *; simpl length in *; try lia.

(** Decide the first boolean test of the goal by arithmetic. *)
Ltac if_false := match goal with |- context [if ?b then _ else _] => replace b with false by lia end.
Ltac if_true := match goal with |- context [if ?b then _ else _] => replace b with true by lia end.

(** Case analysis on every boolean test or match that blocks the goal. *)
Ltac cases :=
  repeat (case_match; simplify_eq/=).

(** ** Updating a field of a record

    [Fields R] rebuilds a record from its fields; it is written once for a
    record type.  A setter is that term with one field replaced, so that a
    field of an updated record computes to the new value or to the old field. *)
Class Fields (R : Type) := fields : R -> R.
Class Setter {R T : Type} (p : R -> T) := setter : T -> R -> R.
Arguments setter {R T} p {_} v r /.

Ltac find_setter R T p :=
  exact (fun (v : T) (r : R) => ltac:(
    let b := eval hnf in (fields r) in
    match eval pattern (p r) in b with ?f _ => let t := eval cbv beta in (f v) in exact t end)).
#[global] Hint Extern 1 (@Setter ?R ?T ?p) => find_setter R T p : typeclass_instances.

Notation "r <| p := v |>" := (setter p v r)
  (at level 1, left associativity, p at level 1, v at level 99, format "r  <| p  :=  v |>") : blq_scope.

(** ** Bytes *)

Abbreviation u8 := (Byte.byte) (only parsing).
Abbreviation bytes := (list Byte.byte) (only parsing).

(** The value of a [u8] and the truncating cast [as u8]. *)
Definition u8_val (b : byte) : Z := Z.of_N (Byte.to_N b).
Definition as_u8 (z : Z) : byte :=
  match Byte.of_N (Z.to_N (z mod 256)) with Some b => b | None => x00 end.

Lemma u8_val_range b : 0 <= u8_val b < 256.
Proof.
  unfold u8_val. pose proof (Byte.to_N_bounded b). lia.
Qed.

Lemma u8_val_as_u8 z : u8_val (as_u8 z) = z mod 256.
Proof.
  pose proof (Z.mod_pos_bound z 256 ltac:(lia)) as Hz.
  unfold u8_val, as_u8.
  destruct (Byte.of_N (Z.to_N (z mod 256))) as [b|] eqn:E.
  - apply Byte.to_of_N in E. rewrite E. lia.
  - apply Byte.of_N_None_iff in E. lia.
Qed.

Lemma u8_val_inj a b : u8_val a = u8_val b -> a = b.
Proof.
  unfold u8_val. intros H. apply N2Z.inj in H.
  pose proof (Byte.of_to_N a) as Ha. rewrite H, Byte.of_to_N in Ha. congruence.
Qed.

Lemma as_u8_val b : as_u8 (u8_val b) = b.
Proof.
  apply u8_val_inj. rewrite u8_val_as_u8.
  apply Z.mod_small, u8_val_range.
Qed.

Lemma u8_val_as_u8_small z : 0 <= z < 256 -> u8_val (as_u8 z) = z.
Proof. intros. rewrite u8_val_as_u8. by apply Z.mod_small. Qed.

#[export] Instance byte_eq_decision : EqDecision byte := Byte.byte_eq_dec.

#[export] Program Instance byte_countable : Countable byte :=
  inj_countable Byte.to_N Byte.of_N _.
Next Obligation. intros b. apply Byte.of_to_N. Qed.

(** A literal of the source: [b"text"], or a string taken as its bytes. *)
Definition B (s : string) : list byte := list_byte_of_string s.

(** ** Big-endian integers ([to_be_bytes], [from_be_bytes]) *)

Fixpoint be_bytes (n : nat) (z : Z) : list byte :=
  match n with
  | O => []
  | S n' => be_bytes n' (z / 256) ++ [as_u8 z]
  end.

Definition be_val (l : list byte) : Z :=
  fold_left (fun acc b => acc * 256 + u8_val b) l 0.

Lemma length_be_bytes n z : length (be_bytes n z) = n.
Proof. revert z; induction n; intros z; simpl; [done|]. rewrite length_app, IHn. simpl. lia. Qed.

Lemma be_val_acc l a :
  fold_left (fun acc b => acc * 256 + u8_val b) l a = a * 256 ^ Z.of_nat (length l) + be_val l.
Proof.
  unfold be_val. revert a. induction l as [|b l IH]; intros a; simpl fold_left.
  - simpl. lia.
  - rewrite IH, (IH (0 * 256 + u8_val b)).
    replace (Z.of_nat (length (b :: l))) with (1 + Z.of_nat (length l)) by (simpl length; lia).
    rewrite Z.pow_add_r by lia. lia.
Qed.

Lemma be_val_nil : be_val [] = 0.
Proof. done. Qed.

Lemma be_val_app l1 l2 :
  be_val (l1 ++ l2) = be_val l1 * 256 ^ Z.of_nat (length l2) + be_val l2.
Proof. unfold be_val at 1. rewrite fold_left_app. apply be_val_acc. Qed.

Lemma be_val_cons b l :
  be_val (b :: l) = u8_val b * 256 ^ Z.of_nat (length l) + be_val l.
Proof. apply (be_val_app [b] l). Qed.

Lemma be_val_snoc l b : be_val (l ++ [b]) = be_val l * 256 + u8_val b.
Proof. rewrite be_val_app. simpl. change (256 ^ 1) with 256. done. Qed.

Lemma be_val_range l : 0 <= be_val l < 256 ^ Z.of_nat (length l).
Proof.
  induction l as [|b l IH] using rev_ind; [rewrite be_val_nil; simpl; lia|].
  rewrite be_val_snoc, length_app. simpl length.
  replace (Z.of_nat (length l + 1)) with (1 + Z.of_nat (length l)) by lia.
  rewrite Z.pow_add_r by lia. change (256 ^ 1) with 256.
  pose proof (u8_val_range b). lia.
Qed.

Lemma be_val_be_bytes n z : be_val (be_bytes n z) = z mod 256 ^ Z.of_nat n.
Proof.
  revert z. induction n as [|n IH]; intros z.
  - simpl. by rewrite Z.mod_1_r.
  - simpl be_bytes. rewrite be_val_snoc, IH, u8_val_as_u8.
    replace (Z.of_nat (S n)) with (1 + Z.of_nat n) by lia.
    rewrite Z.pow_add_r by lia. change (256 ^ 1) with 256.
    rewrite Z.rem_mul_r by lia. lia.
Qed.

Lemma be_val_be_bytes_small n z :
  0 <= z < 256 ^ Z.of_nat n -> be_val (be_bytes n z) = z.
Proof. intros. rewrite be_val_be_bytes. by apply Z.mod_small. Qed.

Lemma be_val_inj l1 l2 : length l1 = length l2 -> be_val l1 = be_val l2 -> l1 = l2.
Proof.
  revert l2. induction l1 as [|b l1 IH] using rev_ind; intros l2 Hl Hv.
  - by destruct l2.
  - destruct l2 as [|c l2 _] using rev_ind; [rewrite length_app in Hl; simpl in Hl; lia|].
    rewrite !length_app in Hl. simpl in Hl. rewrite !be_val_snoc in Hv.
    pose proof (u8_val_range b). pose proof (u8_val_range c).
    assert (u8_val b = u8_val c /\ be_val l1 = be_val l2) as [Hb Hr] by lia.
    apply u8_val_inj in Hb. subst c. f_equal. apply IH; lia.
Qed.

Lemma be_bytes_be_val l : be_bytes (length l) (be_val l) = l.
Proof.
  apply be_val_inj; [apply length_be_bytes|].
  apply be_val_be_bytes_small, be_val_range.
Qed.

Lemma be_bytes_inj n x y :
  0 <= x < 256 ^ Z.of_nat n -> 0 <= y < 256 ^ Z.of_nat n ->
  be_bytes n x = be_bytes n y -> x = y.
Proof.
  intros Hx Hy E. rewrite <- (be_val_be_bytes_small n x), <- (be_val_be_bytes_small n y), E; done.
Qed.

#[global] Arguments be_bytes : simpl never.
#[global] Arguments be_val : simpl never.

(** ** Machine integers

    A [u8], [u64], [u128], [usize] or [i32] is a [Z] kept in its range.  The
    node is built in release mode, where the plain operators wrap; the
    [saturating_*] and [checked_*] methods are those of the Rust integers.
    [usize] has 64 bits. *)

Definition U8_MAX : Z := 255.
Definition U32_MAX : Z := 4294967295.
Definition U64_MAX : Z := 18446744073709551615.
Definition U128_MAX : Z := 340282366920938463463374607431768211455.
Definition I32_MIN : Z := -2147483648.
Definition I32_MAX : Z := 2147483647.

Definition in_u8 (z : Z) : Prop := 0 <= z <= U8_MAX.
Definition in_u32 (z : Z) : Prop := 0 <= z <= U32_MAX.
Definition in_u64 (z : Z) : Prop := 0 <= z <= U64_MAX.
Definition in_u128 (z : Z) : Prop := 0 <= z <= U128_MAX.
Definition in_i32 (z : Z) : Prop := I32_MIN <= z <= I32_MAX.

(** Wrapping operators (release build). *)
Definition wrap64 (z : Z) : Z := z mod (U64_MAX + 1).
Definition wrap128 (z : Z) : Z := z mod (U128_MAX + 1).

Definition sat_add (max a b : Z) : Z := Z.min (a + b) max.
Definition sat_sub (a b : Z) : Z := Z.max (a - b) 0.
Definition sat_mul (max a b : Z) : Z := Z.min (a * b) max.
Definition checked_add (max a b : Z) : option Z :=
  if a + b <=? max then Some (a + b) else None.
Definition checked_mul (max a b : Z) : option Z :=
  if a * b <=? max then Some (a * b) else None.

(** Unfold the ranges and the saturating operators; [ilia] closes what is left. *)
Ltac ints :=
  unfold in_u8, in_u32, in_u64, in_u128, in_i32, wrap64, wrap128,
    sat_add, sat_sub, sat_mul, U8_MAX, U32_MAX, U64_MAX, U128_MAX, I32_MIN, I32_MAX in *.
Ltac ilia := ints; dlia.

Lemma wrap64_small z : in_u64 z -> wrap64 z = z.
Proof. intros. unfold wrap64. apply Z.mod_small. ints. lia. Qed.
Lemma wrap128_small z : in_u128 z -> wrap128 z = z.
Proof. intros. unfold wrap128. apply Z.mod_small. ints. lia. Qed.
Lemma wrap64_range z : in_u64 (wrap64 z).
Proof. unfold wrap64, in_u64. pose proof (Z.mod_pos_bound z (U64_MAX + 1)). unfold U64_MAX in *. lia. Qed.
Lemma wrap128_range z : in_u128 (wrap128 z).
Proof. unfold wrap128, in_u128. pose proof (Z.mod_pos_bound z (U128_MAX + 1)). unfold U128_MAX in *. lia. Qed.

Lemma sat_add_u128 a b : in_u128 a -> in_u128 b -> in_u128 (sat_add U128_MAX a b).
Proof. ints. lia. Qed.
Lemma sat_sub_u128 a b : in_u128 a -> in_u128 b -> in_u128 (sat_sub a b).
Proof. ints. lia. Qed.
Lemma sat_mul_u128 a b : in_u128 a -> in_u128 b -> in_u128 (sat_mul U128_MAX a b).
Proof. ints. nia. Qed.
Lemma sat_add_u64 a b : in_u64 a -> in_u64 b -> in_u64 (sat_add U64_MAX a b).
Proof. ints. lia. Qed.
Lemma sat_sub_u64 a b : in_u64 a -> in_u64 b -> in_u64 (sat_sub a b).
Proof. ints. lia. Qed.

#[export] Hint Resolve wrap64_range wrap128_range sat_add_u128 sat_sub_u128 sat_mul_u128
  sat_add_u64 sat_sub_u64 : blq_arith.

Lemma sat_add_exact M a b : a + b <= M -> sat_add M a b = a + b.
Proof. unfold sat_add. lia. Qed.
Lemma sat_add_below M a b : sat_add M a b < M -> sat_add M a b = a + b.
Proof. unfold sat_add. lia. Qed.

(** [x & 0xff] and [x >> 8] on unsigned integers. *)
Lemma land_255 z : Z.land z 255 = z mod 256.
Proof. change 255 with (Z.ones 8). by rewrite Z.land_ones. Qed.
Lemma shiftr_8 z : Z.shiftr z 8 = z / 256.
Proof. by rewrite Z.shiftr_div_pow2. Qed.
Lemma shiftl_8 z : Z.shiftl z 8 = z * 256.
Proof. by rewrite Z.shiftl_mul_pow2. Qed.

Lemma pow256_8 : 256 ^ Z.of_nat 8 = U64_MAX + 1.
Proof. done. Qed.
Lemma pow256_16 : 256 ^ Z.of_nat 16 = U128_MAX + 1.
Proof. done. Qed.

Lemma be_bytes_u64_inj x y : in_u64 x -> in_u64 y -> be_bytes 8 x = be_bytes 8 y -> x = y.
Proof. intros Hx Hy. apply be_bytes_inj; rewrite pow256_8; ints; lia. Qed.
Lemma be_bytes_u128_inj x y : in_u128 x -> in_u128 y -> be_bytes 16 x = be_bytes 16 y -> x = y.
Proof. intros Hx Hy. apply be_bytes_inj; rewrite pow256_16; ints; lia. Qed.
Lemma be_val_u64 z : in_u64 z -> be_val (be_bytes 8 z) = z.
Proof. intros. apply be_val_be_bytes_small. rewrite pow256_8. ints. lia. Qed.
Lemma be_val_u128 z : in_u128 z -> be_val (be_bytes 16 z) = z.
Proof. intros. apply be_val_be_bytes_small. rewrite pow256_16. ints. lia. Qed.

(** ** Lexicographic order of byte strings (the derived [Ord] of arrays) *)

Fixpoint bytes_compare (a b : list byte) : comparison :=
  match a, b with
  | [], [] => Eq
  | [], _ :: _ => Lt
  | _ :: _, [] => Gt
  | x :: a', y :: b' =>
      match u8_val x ?= u8_val y with Eq => bytes_compare a' b' | c => c end
  end.

Definition bytes_leb (a b : list byte) : bool :=
  match bytes_compare a b with Gt => false | _ => true end.
Definition bytes_ltb (a b : list byte) : bool :=
  match bytes_compare a b with Lt => true | _ => false end.

Lemma bytes_compare_eq a b : bytes_compare a b = Eq <-> a = b.
Proof.
  revert b. induction a as [|x a IH]; intros [|y b]; simpl; try done.
  destruct (Z.compare_spec (u8_val x) (u8_val y)) as [E|E|E].
  - apply u8_val_inj in E. subst y. rewrite IH. split; congruence.
  - split; [done|]. intros [= -> ->]. lia.
  - split; [done|]. intros [= -> ->]. lia.
Qed.

Lemma bytes_compare_antisym a b : bytes_compare b a = CompOpp (bytes_compare a b).
Proof.
  revert b. induction a as [|x a IH]; intros [|y b]; simpl; try done.
  rewrite (Z.compare_antisym (u8_val x)). destruct (u8_val x ?= u8_val y); simpl; auto.
Qed.

(** On strings of one length the byte order is the order of the big-endian
    numbers they spell. *)
Lemma bytes_compare_be_val a b :
  length a = length b -> bytes_compare a b = (be_val a ?= be_val b).
Proof.
  revert b. induction a as [|x a IH]; intros [|y b] Hl; simpl in Hl; try lia; [done|].
  simpl. rewrite !be_val_cons. injection Hl as Hl. rewrite <- Hl, IH by done.
  pose proof (be_val_range a). pose proof (be_val_range b). rewrite <- Hl in *.
  set (M := 256 ^ Z.of_nat (length a)) in *.
  destruct (Z.compare_spec (u8_val x) (u8_val y)) as [E|E|E]; symmetry.
  - rewrite E. destruct (Z.compare_spec (be_val a) (be_val b)).
    + apply Z.compare_eq_iff. lia.
    + apply Z.compare_lt_iff. lia.
    + apply Z.compare_gt_iff. lia.
  - apply Z.compare_lt_iff. nia.
  - apply Z.compare_gt_iff. nia.
Qed.

Lemma bytes_leb_be_val a b : length a = length b -> bytes_leb a b = (be_val a <=? be_val b).
Proof. intros. unfold bytes_leb, Z.leb. by rewrite bytes_compare_be_val. Qed.

Lemma bytes_ltb_be_val a b : length a = length b -> bytes_ltb a b = (be_val a <? be_val b).
Proof. intros. unfold bytes_ltb, Z.ltb. by rewrite bytes_compare_be_val. Qed.

Lemma bytes_compare_trans a b c :
  bytes_compare a b = Lt -> bytes_compare b c = Lt -> bytes_compare a c = Lt.
Proof.
  revert b c. induction a as [|x a IH]; intros [|y b] [|z c]; simpl; try done.
  destruct (Z.compare_spec (u8_val x) (u8_val y)) as [E1|E1|E1],
    (Z.compare_spec (u8_val y) (u8_val z)) as [E2|E2|E2]; try done;
    intros H1 H2; destruct (Z.compare_spec (u8_val x) (u8_val z)); try lia; eauto.
Qed.

(** ** Results

    [Ok] and [Err] are those of [Result]; [Panic] is a Rust panic (an index out
    of range, a division by zero, [expect] on [None]). *)
Inductive res (E A : Type) : Type :=
| Ok (a : A)
| Err (e : E)
| Panic.
Arguments Ok {E A} a.
Arguments Err {E A} e.
Arguments Panic {E A}.

Definition res_bind {E A B} (m : res E A) (f : A -> res E B) : res E B :=
  match m with Ok a => f a | Err e => Err e | Panic => Panic end.
Definition res_map_err {E F A} (f : E -> F) (m : res E A) : res F A :=
  match m with Ok a => Ok a | Err e => Err (f e) | Panic => Panic end.
Definition ok_or {E A} (o : option A) (e : E) : res E A :=
  match o with Some a => Ok a | None => Err e end.
Definition expect {E A} (o : option A) : res E A :=
  match o with Some a => Ok a | None => Panic end.
(** A step that cannot fail inside one that can. *)
Definition lift {E A} (m : res Empty_set A) : res E A := 
  res_map_err (fun e : Empty_set => match e return E with end) m.
Definition is_ok {E A} (m : res E A) : bool := match m with Ok _ => true | _ => false end.
Definition ensure {E} (b : bool) (e : E) : res E unit := if b then Ok tt else Err e.

(** [let? x := m in k] is [let x = m?; k]. *)
Notation "'let?' x ':=' m 'in' k" := (res_bind m (fun x => k))
  (at level 10, x pattern, m at level 100, k at level 200) : blq_scope.
Notation "m ';?' k" := (res_bind m (fun _ => k)) (at level 199, right associativity) : blq_scope.

Lemma res_bind_ok {E A B} (m : res E A) (f : A -> res E B) b :
  res_bind m f = Ok b <-> exists a, m = Ok a /\ f a = Ok b.
Proof.
  destruct m as [a|e|]; simpl; split.
  - eauto.
  - by intros (? & [= ->] & ?).
  - done.
  - by intros (? & [=] & ?).
  - done.
  - by intros (? & [=] & ?).
Qed.

(** A loop whose body can fail: [for a in l { ... ? }]. *)
Lemma fold_res_fail {E S A} (f : S -> A -> res E S) l (m : res E S) r :
  fold_left (fun acc a => let? s := acc in f s a) l m = Ok r -> exists s, m = Ok s.
Proof.
  revert m. induction l as [|a l IH]; intros m; simpl; [eauto|]. intros H.
  apply IH in H as [s' H]. apply res_bind_ok in H as (s & -> & _). eauto.
Qed.

Lemma fold_res_cons_ok {E S A} (f : S -> A -> res E S) a l s r :
  fold_left (fun acc a => let? s := acc in f s a) (a :: l) (Ok s) = Ok r ->
  exists s', f s a = Ok s' /\ fold_left (fun acc a => let? s := acc in f s a) l (Ok s') = Ok r.
Proof.
  cbn [fold_left res_bind]. intros H. pose proof H as H'. apply fold_res_fail in H' as [s' Hs].
  rewrite Hs in H. eauto.
Qed.

Lemma is_ok_true {E A} (m : res E A) : is_ok m = true -> exists a, m = Ok a.
Proof. destruct m; simpl; try done. eauto. Qed.

Lemma res_bind_total {E A B} (m : res E A) (f : A -> res E B) :
  m <> Panic -> (forall a, m = Ok a -> f a <> Panic) -> res_bind m f <> Panic.
Proof. destruct m; simpl; eauto. Qed.

Lemma ok_or_total {E A} (o : option A) (e : E) : ok_or o e <> Panic.
Proof. by destruct o. Qed.

(** [no_panic] holds the totality facts; [total] walks a chain of steps. *)
Create HintDb no_panic.
#[export] Hint Resolve ok_or_total : no_panic.
Ltac total :=
  repeat first
    [ done
    | solve [eauto with no_panic]
    | apply res_bind_total; [|intros ? ?]
    | case_match ].

Lemma ensure_ok {E} b (e : E) u : ensure b e = Ok u <-> b = true.
Proof. destruct b, u; simpl; naive_solver. Qed.

(** Decompose [... = Ok _] hypotheses down to the successful steps. *)
Ltac ok_inv :=
  repeat match goal with
  | H : res_bind _ _ = Ok _ |- _ =>
      let x := fresh "v" in let Hx := fresh "Hv" in
      apply res_bind_ok in H as (x & Hx & H)
  | H : ensure _ _ = Ok _ |- _ => apply ensure_ok in H
  | H : Ok _ = Ok _ |- _ => injection H as H; try subst
  | H : Err _ = Ok _ |- _ => discriminate H
  | H : Panic = Ok _ |- _ => discriminate H
  end.

(** ** Sorting: [slice::sort_by] and [sort_by_key]

    The Rust sort is stable: for a comparator that is a total preorder its
    result is the permutation of the input that is sorted and keeps the order
    of equal elements, which the insertion sort below computes. *)
Section sort_by.
Context {A : Type}.
Variable cmp : A -> A -> comparison.

Fixpoint sort_insert (x : A) (l : list A) : list A :=
  match l with
  | [] => [x]
  | y :: l' => match cmp y x with Lt => y :: sort_insert x l' | _ => x :: y :: l' end
  end.

Definition sort_by (l : list A) : list A := foldr sort_insert [] l.

Lemma sort_insert_perm x l : sort_insert x l ≡ₚ x :: l.
Proof.
  induction l as [|y l IH]; simpl; [done|].
  destruct (cmp y x); try done. rewrite IH. constructor.
Qed.

Lemma sort_by_perm l : sort_by l ≡ₚ l.
Proof. induction l as [|x l IH]; simpl; [done|]. by rewrite sort_insert_perm, IH. Qed.

Lemma length_sort_by l : length (sort_by l) = length l.
Proof. by rewrite sort_by_perm. Qed.

(** [cmp] is a total preorder. *)
Record cmp_preorder : Prop := {
  cmp_flip : forall a b, cmp b a = CompOpp (cmp a b);
  cmp_le_trans : forall a b c, cmp a b <> Gt -> cmp b c <> Gt -> cmp a c <> Gt;
}.

Definition cmp_le (a b : A) : Prop := cmp a b <> Gt.

Hypothesis Hcmp : cmp_preorder.

Lemma sort_insert_sorted x l : StronglySorted cmp_le l -> StronglySorted cmp_le (sort_insert x l).
Proof.
  induction 1 as [|y l Hl IH Hy]; simpl; [repeat constructor|].
  destruct (cmp y x) eqn:E.
  - assert (cmp_le x y) by (unfold cmp_le; rewrite cmp_flip, E by done; done).
    constructor; [by constructor|]. constructor; [done|].
    eapply List.Forall_impl; [|exact Hy]. intros z Hz. by apply (cmp_le_trans Hcmp x y z).
  - constructor; [done|]. rewrite sort_insert_perm. constructor; [|done].
    unfold cmp_le. congruence.
  - assert (cmp_le x y) by (unfold cmp_le; rewrite cmp_flip, E by done; done).
    constructor; [by constructor|]. constructor; [done|].
    eapply List.Forall_impl; [|exact Hy]. intros z Hz. by apply (cmp_le_trans Hcmp x y z).
Qed.

Lemma sort_by_sorted l : StronglySorted cmp_le (sort_by l).
Proof. induction l; simpl; [constructor|]. by apply sort_insert_sorted. Qed.

(** Stability: the elements equal to [k] keep their order. *)
Lemma sort_insert_filter_eq k x l :
  List.filter (fun y => match cmp k y with Eq => true | _ => false end) (sort_insert x l) =
  List.filter (fun y => match cmp k y with Eq => true | _ => false end) (x :: l).
Proof.
  induction l as [|y l IH]; simpl in *; [done|].
  destruct (cmp y x) eqn:E; try done.
  simpl. rewrite IH.
  destruct (cmp k y) eqn:Ey; try (by destruct (cmp k x)).
  destruct (cmp k x) eqn:Ex; try done.
  assert (cmp x y = Gt) as Hgt by (by rewrite (cmp_flip Hcmp y x), E).
  assert (cmp x k = Eq) as Hxk by (by rewrite (cmp_flip Hcmp k x), Ex).
  exfalso. apply (cmp_le_trans Hcmp x k y); congruence.
Qed.

Lemma sort_by_stable k l :
  List.filter (fun y => match cmp k y with Eq => true | _ => false end) (sort_by l) =
  List.filter (fun y => match cmp k y with Eq => true | _ => false end) l.
Proof.
  induction l as [|x l IH]; [done|]. unfold sort_by in *. cbn [foldr].
  rewrite sort_insert_filter_eq. cbn [List.filter]. by rewrite IH.
Qed.

(** Sorting a sorted list changes nothing. *)
Lemma sort_by_id l : StronglySorted cmp_le l -> sort_by l = l.
Proof.
  induction 1 as [|x l Hl IH Hx]; simpl; [done|]. rewrite IH.
  destruct l as [|y l]; simpl; [done|].
  inversion Hx as [|? ? Hxy]; subst. rewrite (cmp_flip Hcmp x y).
  unfold cmp_le in Hxy. destruct (cmp x y); done.
Qed.
End sort_by.

(** [sort_by_key] with an integer key, and the comparators it needs. *)
Definition cmp_key {A} (key : A -> Z) (a b : A) : comparison := key a ?= key b.
Definition sort_by_key {A} (key : A -> Z) (l : list A) : list A := sort_by (cmp_key key) l.

Lemma cmp_key_preorder {A} (key : A -> Z) : cmp_preorder (cmp_key key).
Proof.
  unfold cmp_key. split; intros.
  - apply Z.compare_antisym.
  - rewrite Z.compare_gt_iff in *. lia.
Qed.

(** [Ordering::then_with]. *)
Definition then_with (c d : comparison) : comparison := match c with Eq => d | _ => c end.

Lemma cmp_then_key_preorder {A} (k1 k2 : A -> Z) :
  cmp_preorder (fun a b => then_with (k1 a ?= k1 b) (k2 a ?= k2 b)).
Proof.
  split; intros; unfold then_with in *.
  - rewrite (Z.compare_antisym (k1 a)), (Z.compare_antisym (k2 a)).
    destruct (k1 a ?= k1 b); done.
  - destruct (Z.compare_spec (k1 a) (k1 b)), (Z.compare_spec (k1 b) (k1 c)),
      (Z.compare_spec (k1 a) (k1 c)); try done; try lia.
    rewrite Z.compare_gt_iff in *. lia.
Qed.

(** ** [BTreeMap] with byte-array keys: a [gmap] iterated in key order *)
Definition btree_iter {V} (m : gmap (list byte) V) : list (list byte * V) :=
  sort_by (fun a b => bytes_compare a.1 b.1) (map_to_list m).

Lemma bytes_cmp_preorder {V} : cmp_preorder (fun a b : list byte * V => bytes_compare a.1 b.1).
Proof.
  split; intros; [apply bytes_compare_antisym|].
  destruct (bytes_compare a.1 b.1) eqn:E1, (bytes_compare b.1 c.1) eqn:E2; try done.
  - apply bytes_compare_eq in E1, E2. rewrite E1, E2.
    by rewrite (proj2 (bytes_compare_eq _ _)).
  - apply bytes_compare_eq in E1. rewrite E1, E2. done.
  - apply bytes_compare_eq in E2. rewrite <- E2, E1. done.
  - by rewrite (bytes_compare_trans _ _ _ E1 E2).
Qed.

Lemma btree_iter_perm {V} (m : gmap (list byte) V) : btree_iter m ≡ₚ map_to_list m.
Proof. apply sort_by_perm. Qed.

Lemma elem_of_btree_iter {V} (m : gmap (list byte) V) k v :
  (k, v) ∈ btree_iter m <-> m !! k = Some v.
Proof. by rewrite btree_iter_perm, elem_of_map_to_list. Qed.

Lemma btree_iter_inj {V} (m1 m2 : gmap (list byte) V) : btree_iter m1 = btree_iter m2 -> m1 = m2.
Proof.
  intros E. apply map_eq. intros k. apply option_eq. intros v.
  by rewrite <- !elem_of_btree_iter, E.
Qed.

(** [iter().map(f).collect::<Result<BTreeMap>>()]: the values of a map through
    a function that can fail, the keys kept. *)
Section try_map.
Context {E V W : Type}.
Variable f : V -> res E W.

Definition try_insert (acc : res E (gmap (list byte) W)) (kv : list byte * V)
    : res E (gmap (list byte) W) :=
  let? m := acc in let? w := f kv.2 in Ok (<[kv.1 := w]> m).

Definition try_map (m : gmap (list byte) V) : res E (gmap (list byte) W) :=
  fold_left try_insert (btree_iter m) (Ok ∅).

Lemma try_insert_fold l acc m' :
  NoDup (map fst l) -> fold_left try_insert l (Ok acc) = Ok m' ->
  (forall k v, (k, v) ∈ l -> exists w, f v = Ok w /\ m' !! k = Some w) /\
  (forall k, k ∉ map fst l -> m' !! k = acc !! k).
Proof.
  revert acc. induction l as [|[k v] l IH]; intros acc Hnd Hf.
  - injection Hf as <-. split; [intros k v H; by apply elem_of_nil in H|done].
  - cbn [map fst] in Hnd. apply list.NoDup_cons in Hnd as [Hk Hnd].
    unfold try_insert in Hf. apply (fold_res_cons_ok (fun m kv => let? w := f kv.2 in _)) in Hf
      as (acc1 & H1 & Hf). apply res_bind_ok in H1 as (w & Hw & [= <-]). cbn [fst snd] in *.
    destruct (IH _ Hnd Hf) as [Ha Hb]. split.
    + intros k' v' [[= -> ->]|H]%elem_of_cons; [|by apply Ha]. exists w. split; [done|].
      rewrite Hb by done. by rewrite lookup_insert_eq.
    + intros k' H. cbn [map fst] in H. apply not_elem_of_cons in H as [Hne H].
      rewrite Hb by done. by rewrite lookup_insert_ne.
Qed.

Lemma try_insert_total l acc :
  (forall k v, (k, v) ∈ l -> exists w, f v = Ok w) ->
  exists m', fold_left try_insert l (Ok acc) = Ok m'.
Proof.
  revert acc. induction l as [|[k v] l IH]; intros acc H; [by eexists|].
  destruct (H k v) as [w Hw]; [by left|]. cbn [fold_left try_insert res_bind snd]. rewrite Hw.
  apply IH. intros k' v' Hin. apply (H k' v'). by right.
Qed.

Lemma NoDup_btree_keys (m : gmap (list byte) V) : NoDup (map fst (btree_iter m)).
Proof.
  assert (map fst (btree_iter m) ≡ₚ map fst (map_to_list m)) as -> by by rewrite btree_iter_perm.
  apply NoDup_fst_map_to_list.
Qed.

Lemma try_map_ok m m' :
  try_map m = Ok m' <->
  forall k, match m !! k, m' !! k with
            | None, None => True | Some v, Some w => f v = Ok w | _, _ => False end.
Proof.
  unfold try_map. split.
  - intros Hf. apply try_insert_fold in Hf as [Ha Hb]; [|apply NoDup_btree_keys]. intros k.
    destruct (m !! k) as [v|] eqn:Ek.
    + apply elem_of_btree_iter in Ek. destruct (Ha _ _ Ek) as (w & Hw & ->). done.
    + rewrite Hb; [by rewrite lookup_empty|]. intros Hin.
      apply list_elem_of_fmap in Hin as ([k' v] & -> & Hin). apply elem_of_btree_iter in Hin.
      cbn in Ek. congruence.
  - intros H. destruct (try_insert_total (btree_iter m) ∅) as [m2 H2].
    { intros k v Hin. apply elem_of_btree_iter in Hin. specialize (H k). rewrite Hin in H.
      destruct (m' !! k); [eauto|done]. }
    rewrite H2. f_equal. apply try_insert_fold in H2 as [Ha Hb]; [|apply NoDup_btree_keys].
    apply map_eq. intros k. specialize (H k). destruct (m !! k) as [v|] eqn:Ek.
    + apply elem_of_btree_iter in Ek. destruct (Ha _ _ Ek) as (w & Hw & ->).
      destruct (m' !! k); [congruence|done].
    + rewrite Hb.
      * rewrite lookup_empty. by destruct (m' !! k).
      * intros Hin. apply list_elem_of_fmap in Hin as ([k' v] & -> & Hin).
        apply elem_of_btree_iter in Hin. cbn in Ek. congruence.
Qed.
End try_map.

(** ** Lists *)

(** [iter().position(p)]. *)
Fixpoint position {A} (p : A -> bool) (l : list A) : option nat :=
  match l with
  | [] => None
  | x :: l' => if p x then Some O else S <$> position p l'
  end.

(** Filtering with a boolean test keeps order, distinctness and bounds. *)
Lemma filter_sublist {A} (f : A -> bool) l : List.filter f l `sublist_of` l.
Proof. induction l as [|a l IH]; simpl; [constructor|]. destruct (f a); by constructor. Qed.

Lemma NoDup_map_filter {A B} (g : A -> B) f (l : list A) :
  NoDup (map g l) -> NoDup (map g (List.filter f l)).
Proof. intros H. eapply sublist_NoDup; [exact H|]. apply (fmap_sublist g), filter_sublist. Qed.

Lemma elem_of_filter_b {A} (f : A -> bool) l a : a ∈ List.filter f l <-> a ∈ l /\ f a = true.
Proof. by rewrite !list_elem_of_In, filter_In. Qed.

Lemma Forall_filter_b {A} (P : A -> Prop) f l : Forall P l -> Forall P (List.filter f l).
Proof. induction 1; simpl; [constructor|]. case_match; by try constructor. Qed.

Lemma StronglySorted_filter {A} (R : A -> A -> Prop) f l :
  StronglySorted R l -> StronglySorted R (List.filter f l).
Proof.
  induction 1 as [|x l Hl IH Hx]; simpl; [constructor|].
  destruct (f x); [|done]. constructor; [done|]. by apply Forall_filter_b.
Qed.

Lemma length_filter_b {A} (f : A -> bool) l : (length (List.filter f l) <= length l)%nat.
Proof. apply sublist_length, filter_sublist. Qed.

Definition sumZ (l : list Z) : Z := foldr Z.add 0 l.

Lemma sumZ_cons a l : sumZ (a :: l) = a + sumZ l.
Proof. done. Qed.
Lemma sumZ_app l1 l2 : sumZ (l1 ++ l2) = sumZ l1 + sumZ l2.
Proof. induction l1; simpl; lia. Qed.

#[export] Instance filter_b_perm {A} (f : A -> bool) : Proper (Permutation ==> Permutation) (List.filter f).
Proof.
  intros l k H. induction H as [|x l k _ IH|x y l|]; cbn; [done| | |by etrans].
  - destruct (f x); [by constructor|done].
  - destruct (f x), (f y); [constructor|done..].
Qed.

#[export] Instance sumZ_perm : Proper (Permutation ==> eq) sumZ.
Proof. induction 1; simpl; lia. Qed.

Lemma sumZ_nonneg l : Forall (fun z => 0 <= z) l -> 0 <= sumZ l.
Proof. induction 1; simpl; lia. Qed.

(** ** Injectivity of concatenated encodings

    [pinj P enc]: an encoding in front of any tail determines its value and
    the tail. *)
Definition pinj {A} (P : A -> Prop) (enc : A -> list byte) : Prop :=
  forall a b r s, P a -> P b -> enc a ++ r = enc b ++ s -> a = b /\ r = s.

Lemma app_inj_len {A} (a b r s : list A) :
  length a = length b -> a ++ r = b ++ s -> a = b /\ r = s.
Proof. intros. by apply app_inj_1. Qed.

Lemma cons_inj {A} (x y : A) l k : x :: l = y :: k -> x = y /\ l = k.
Proof. by intros [= -> ->]. Qed.

Lemma pinj_fixed {A} (P : A -> Prop) (enc : A -> list byte) (n : nat) :
  (forall a, P a -> length (enc a) = n) ->
  (forall a b, P a -> P b -> enc a = enc b -> a = b) -> pinj P enc.
Proof.
  intros Hl Hi a b r s Ha Hb E.
  apply app_inj_len in E as [E ->]; [|by rewrite !Hl]. split; [eauto|done].
Qed.

Lemma pinj_u64 : pinj in_u64 (be_bytes 8).
Proof.
  eapply pinj_fixed; [intros; apply length_be_bytes|].
  intros. by apply be_bytes_u64_inj.
Qed.

Lemma pinj_u128 : pinj in_u128 (be_bytes 16).
Proof.
  eapply pinj_fixed; [intros; apply length_be_bytes|].
  intros. by apply be_bytes_u128_inj.
Qed.

Lemma pinj_arr (n : nat) : pinj (fun l : list byte => length l = n) (fun l => l).
Proof. by eapply pinj_fixed. Qed.

(** A list of items written one after the other, of a known length. *)
Lemma pinj_concat {A} (P : A -> Prop) (enc : A -> list byte) (l1 l2 : list A) r s :
  pinj P enc -> Forall P l1 -> Forall P l2 -> length l1 = length l2 ->
  concat (map enc l1) ++ r = concat (map enc l2) ++ s -> l1 = l2 /\ r = s.
Proof.
  intros He H1. revert l2. induction H1 as [|a l1 Ha H1 IH]; intros l2 H2 Hl E.
  - destruct l2; [done|simpl in Hl; lia].
  - destruct l2 as [|b l2]; [simpl in Hl; lia|]. inversion H2; subst.
    simpl in E. rewrite <- !app_assoc in E. apply He in E as [-> E]; [|done..].
    apply IH in E as [-> ->]; [done..|simpl in Hl; lia].
Qed.

#[export] Hint Rewrite @length_app @length_be_bytes @length_map @length_replicate : blq_len.

(** ** Decimal text: [to_string] and [str::parse] of unsigned integers *)

Definition dec_digit (d : Z) : byte := as_u8 (48 + d).

(** Decimal digits of [z]; [fuel] bounds their number. *)
Fixpoint dec_digits (fuel : nat) (z : Z) : list byte :=
  match fuel with
  | O => []
  | S f => if z <? 10 then [dec_digit z] else dec_digits f (z / 10) ++ [dec_digit (z mod 10)]
  end.

(** [u128] values have at most 39 digits. *)
Definition dec_string (z : Z) : list byte := dec_digits 40 z.

(** One step of the digit loop of [from_str_radix(_, 10)], overflow checked. *)
Definition parse_step (max : Z) (acc : option Z) (c : byte) : option Z :=
  a ← acc;
  let d := u8_val c - 48 in
  if (0 <=? d) && (d <=? 9) then m ← checked_mul max a 10; checked_add max m d else None.

Definition parse_uint (max : Z) (s : list byte) : option Z :=
  match s with
  | [] => None
  | c :: s' =>
      let digits := if u8_val c =? 43 then s' else s in
      match digits with [] => None | _ => fold_left (parse_step max) digits (Some 0) end
  end.

Lemma dec_digit_val d : 0 <= d < 10 -> u8_val (dec_digit d) = 48 + d.
Proof. intros. apply u8_val_as_u8_small. lia. Qed.

Lemma dec_digits_nonempty f z : dec_digits (S f) z <> [].
Proof. simpl. destruct (z <? 10); [done|]. intros [_ ?]%app_eq_nil. done. Qed.

Lemma dec_digits_hd f z c l :
  0 <= z -> dec_digits f z = c :: l -> 48 <= u8_val c <= 57.
Proof.
  revert z c l. induction f as [|f IH]; intros z c l Hz; simpl; [done|].
  destruct (Z.ltb_spec z 10).
  - intros [= <- <-]. rewrite dec_digit_val; lia.
  - destruct (dec_digits f (z / 10)) as [|d l'] eqn:E.
    + intros [= <- <-]. rewrite dec_digit_val; dlia.
    + intros [= <- <-]. eapply IH, E. dlia.
Qed.

Lemma parse_step_digit max a d :
  0 <= a -> 0 <= d < 10 -> a * 10 + d <= max ->
  parse_step max (Some a) (dec_digit d) = Some (a * 10 + d).
Proof.
  intros. unfold parse_step, checked_mul, checked_add. simpl.
  rewrite dec_digit_val by lia.
  replace ((0 <=? 48 + d - 48) && (48 + d - 48 <=? 9)) with true by lia.
  replace (a * 10 <=? max) with true by lia. simpl.
  replace (a * 10 + (48 + d - 48) <=? max) with true by lia. f_equal. lia.
Qed.

Lemma fold_parse_digits max f z :
  0 <= z <= max -> z < 10 ^ Z.of_nat f ->
  fold_left (parse_step max) (dec_digits f z) (Some 0) = Some z.
Proof.
  revert z. induction f as [|f IH]; intros z Hz Hf.
  - simpl in *. f_equal. lia.
  - cbn [dec_digits]. destruct (Z.ltb_spec z 10).
    + cbn [fold_left]. rewrite parse_step_digit by lia. done.
    + rewrite fold_left_app, IH; cbn [fold_left].
      * rewrite parse_step_digit by dlia. f_equal. dlia.
      * dlia.
      * replace (Z.of_nat (S f)) with (1 + Z.of_nat f) in Hf by lia.
        rewrite Z.pow_add_r in Hf by lia. change (10 ^ 1) with 10 in Hf. dlia.
Qed.

(** Printing then parsing gives the number back. *)
Lemma parse_dec_string max z :
  0 <= z <= max -> z < 10 ^ 40 -> parse_uint max (dec_string z) = Some z.
Proof.
  intros Hz Hb. unfold parse_uint, dec_string.
  destruct (dec_digits 40 z) as [|c l] eqn:E; [by apply dec_digits_nonempty in E|].
  pose proof (dec_digits_hd 40 z c l ltac:(lia) E).
  replace (u8_val c =? 43) with false by lia.
  rewrite <- E. apply fold_parse_digits; [done|]. exact Hb.
Qed.

(** Splitting at the first separator. *)
Lemma sep_split (x : byte) (a a' b b' : list byte) :
  x ∉ a -> x ∉ a' -> a ++ x :: b = a' ++ x :: b' -> a = a' /\ b = b'.
Proof.
  revert a'. induction a as [|c a IH]; intros [|c' a'] Ha Ha' E; cbn in E.
  - by injection E as ->.
  - injection E as <- _. destruct Ha'. by left.
  - injection E as -> _. destruct Ha. by left.
  - injection E as <- E. rewrite not_elem_of_cons in Ha, Ha'.
    destruct (IH a' (proj2 Ha) (proj2 Ha') E) as [-> ->]. done.
Qed.

Lemma dec_string_inj a b : in_u64 a -> in_u64 b -> dec_string a = dec_string b -> a = b.
Proof.
  unfold in_u64. intros Ha Hb E. assert (U64_MAX < 10 ^ 40) by done.
  pose proof (parse_dec_string U64_MAX a Ha ltac:(lia)) as P. rewrite E, parse_dec_string in P by lia. congruence.
Qed.

Lemma dec_digits_all f z : 0 <= z -> Forall (fun c => 48 <= u8_val c <= 57) (dec_digits f z).
Proof.
  revert z. induction f as [|f IH]; intros z Hz; cbn [dec_digits]; [constructor|]. destruct (Z.ltb_spec z 10).
  - constructor; [|constructor]. rewrite dec_digit_val; lia.
  - apply Forall_app. split; [apply IH; dlia|]. constructor; [|constructor]. rewrite dec_digit_val; dlia.
Qed.

Lemma Forall_not_in (P : byte -> Prop) x l : Forall P l -> ~ P x -> x ∉ l.
Proof. intros H Hn Hin. rewrite List.Forall_forall in H. apply Hn, H. by apply list_elem_of_In. Qed.

(** [{:020}]: twenty digits, which hold every [u64]. *)
Fixpoint pad_digits (n : nat) (z : Z) : list byte :=
  match n with
  | O => []
  | S n => pad_digits n (z / 10) ++ [dec_digit (z mod 10)]
  end.

Definition pad20 (z : Z) : list byte := pad_digits 20 z.

Lemma length_pad_digits n z : length (pad_digits n z) = n.
Proof. revert z. induction n; intros z; simpl; [done|]. rewrite length_app, IHn. simpl. lia. Qed.

Lemma fold_parse_pad max n z :
  0 <= z <= max -> z < 10 ^ Z.of_nat n ->
  fold_left (parse_step max) (pad_digits n z) (Some 0) = Some z.
Proof.
  revert z. induction n as [|n IH]; intros z Hz Hn.
  - simpl in *. f_equal. lia.
  - cbn [pad_digits]. replace (Z.of_nat (S n)) with (1 + Z.of_nat n) in Hn by lia.
    rewrite Z.pow_add_r in Hn by lia. change (10 ^ 1) with 10 in Hn.
    rewrite fold_left_app, IH by dlia. cbn [fold_left].
    rewrite parse_step_digit by dlia. f_equal. dlia.
Qed.

Lemma pad_digits_range n z : 0 <= z -> Forall (fun c => 48 <= u8_val c <= 57) (pad_digits n z).
Proof.
  revert z. induction n as [|n IH]; intros z Hz; simpl; [constructor|].
  apply Forall_app. split; [apply IH; dlia|]. constructor; [|constructor].
  rewrite dec_digit_val; dlia.
Qed.

Lemma parse_pad20 max z : 0 <= z <= max -> in_u64 z -> parse_uint max (pad20 z) = Some z.
Proof.
  intros Hz Hu. unfold parse_uint, pad20.
  pose proof (pad_digits_range 20 z ltac:(lia)) as Hr. pose proof (length_pad_digits 20 z) as Hl.
  destruct (pad_digits 20 z) as [|c l] eqn:E; [done|].
  inversion Hr; subst. replace (u8_val c =? 43) with false by lia.
  rewrite <- E. apply fold_parse_pad; [done|]. change (10 ^ Z.of_nat 20) with 100000000000000000000.
  unfold in_u64, U64_MAX in Hu. lia.
Qed.

Lemma pad20_inj x y : in_u64 x -> in_u64 y -> pad20 x = pad20 y -> x = y.
Proof.
  intros Hx Hy E. pose proof (parse_pad20 U64_MAX x Hx Hx) as P1.
  pose proof (parse_pad20 U64_MAX y Hy Hy) as P2. congruence.
Qed.

(** [str::strip_prefix] and [starts_with]. *)
Fixpoint strip_prefix (p s : list byte) : option (list byte) :=
  match p, s with
  | [], _ => Some s
  | x :: p', y :: s' => if decide (x = y) then strip_prefix p' s' else None
  | _ :: _, [] => None
  end.

Lemma strip_prefix_Some p s t : strip_prefix p s = Some t <-> s = p ++ t.
Proof.
  revert s. induction p as [|x p IH]; intros s; simpl; [split; congruence|].
  destruct s as [|y s]; [split; [done|by intros [=]]|].
  case_decide as H.
  - subst y. rewrite IH. split; [by intros ->|by intros [= ->]].
  - split; [done|]. intros [= -> _]. done.
Qed.

Lemma strip_prefix_app p t : strip_prefix p (p ++ t) = Some t.
Proof. by apply strip_prefix_Some. Qed.

(** ** UTF-8: [std::str::from_utf8] *)

Definition utf8_cont (c : byte) : bool := (128 <=? u8_val c) && (u8_val c <=? 191).

(** The second byte of a three- and of a four-byte sequence. *)
Definition utf8_second3 (a b : Z) : bool :=
  if a =? 224 then (160 <=? b) && (b <=? 191)
  else if a =? 237 then (128 <=? b) && (b <=? 159)
  else (128 <=? b) && (b <=? 191).
Definition utf8_second4 (a b : Z) : bool :=
  if a =? 240 then (144 <=? b) && (b <=? 191)
  else if a =? 244 then (128 <=? b) && (b <=? 143)
  else (128 <=? b) && (b <=? 191).

Fixpoint utf8_valid (s : list byte) : bool :=
  match s with
  | [] => true
  | a :: s1 =>
      let v := u8_val a in
      if v <? 128 then utf8_valid s1
      else match s1 with
      | [] => false
      | b :: s2 =>
          if (194 <=? v) && (v <=? 223) then utf8_cont b && utf8_valid s2
          else match s2 with
          | [] => false
          | c :: s3 =>
              if (224 <=? v) && (v <=? 239)
              then utf8_second3 v (u8_val b) && utf8_cont c && utf8_valid s3
              else match s3 with
              | [] => false
              | d :: s4 =>
                  (240 <=? v) && (v <=? 244) && utf8_second4 v (u8_val b)
                  && utf8_cont c && utf8_cont d && utf8_valid s4
              end
          end
      end
  end.

Lemma utf8_ascii s : Forall (fun c => u8_val c < 128) s -> utf8_valid s = true.
Proof. induction 1 as [|c s Hc Hs IH]; [done|]. simpl. by replace (u8_val c <? 128) with true by lia. Qed.

(** Encodings are handled through their lemmas. *)
#[global] Opaque be_bytes be_val as_u8 u8_val.
