(* ===== verification/Externals.v ===== *)
(** The crates the node calls and whose code is not part of the repository:
    digests ([sha2], [blake3], [keccak256] of [alloy_primitives]), the [hex]
    crate, secp256k1 recovery, and the 256-bit integers of [ruint].  Each is a
    class whose fields are the functions used and the documented behaviour the
    node relies on; the instances at the end show that every class can be
    inhabited and let the definitions run on concrete inputs. *)

From Stdlib Require Import ZArith Lia Strings.Byte Eqdep_dec.
From stdpp Require Import gmap list base.
From S2P Require Import Prelude.
#[local] Open Scope Z_scope.

(** Digest functions return 32 bytes. *)
Class Digests := {
  sha256 : list byte -> list byte;
  blake3 : list byte -> list byte;
  keccak256 : list byte -> list byte;
  length_sha256 : forall m, length (sha256 m) = 32%nat;
  length_blake3 : forall m, length (blake3 m) = 32%nat;
  length_keccak256 : forall m, length (keccak256 m) = 32%nat;
}.

(** The lower-case hexadecimal digits [hex::encode] writes. *)
Definition is_hex_digit (c : byte) : bool :=
  ((48 <=? u8_val c) && (u8_val c <=? 57)) || ((97 <=? u8_val c) && (u8_val c <=? 102)).

(** [hex::encode] writes two lower-case digits per byte; [hex::decode] reads
    them back (and reads upper-case digits, which the class leaves open). *)
Class HexCodec := {
  hex_encode : list byte -> list byte;
  hex_decode : list byte -> option (list byte);
  hex_decode_encode : forall b, hex_decode (hex_encode b) = Some b;
  length_hex_encode : forall b, length (hex_encode b) = (2 * length b)%nat;
  length_hex_decode : forall s b, hex_decode s = Some b -> length s = (2 * length b)%nat;
  hex_encode_digits : forall b, Forall (fun c => is_hex_digit c = true) (hex_encode b);
}.

(** [alloy_primitives::Signature]: [normalize_s] returns [Some] on a high [s]
    (modelled by the test [high_s]), and [recover_address_from_prehash] returns
    the signer of a 32-byte prehash or an error. *)
Class Secp := {
  high_s : list byte -> bool;
  recover : bool -> list byte -> list byte -> list byte -> option (list byte);
  recover_length : forall v r s h a, recover v r s h = Some a -> length a = 20%nat;
}.

(** [ruint::U256]: unsigned 256-bit integers whose [+] wraps and whose [/] and
    [%] are the Euclidean division; [from_be_bytes] and [to::<u128>]. *)
Definition U256_MAX : Z :=
  115792089237316195423570985008687907853269984665640564039457584007913129639935.

Class U256Ops := {
  u256 : Type;
  u256_val : u256 -> Z;
  u256_of : Z -> u256;
  u256_add : u256 -> u256 -> u256;
  u256_sub : u256 -> u256 -> u256;
  u256_div : u256 -> u256 -> u256;
  u256_rem : u256 -> u256 -> u256;
  u256_saturating_add : u256 -> u256 -> u256;
  u256_saturating_sub : u256 -> u256 -> u256;
  u256_from_be : list byte -> u256;
  u256_to_be : u256 -> list byte;
  u256_range : forall x, 0 <= u256_val x <= U256_MAX;
  u256_val_inj : forall x y, u256_val x = u256_val y -> x = y;
  u256_of_val : forall z, 0 <= z <= U256_MAX -> u256_val (u256_of z) = z;
  u256_add_val : forall x y, u256_val (u256_add x y) = (u256_val x + u256_val y) mod (U256_MAX + 1);
  u256_sub_val : forall x y, u256_val (u256_sub x y) = (u256_val x - u256_val y) mod (U256_MAX + 1);
  u256_div_val : forall x y, u256_val y <> 0 -> u256_val (u256_div x y) = u256_val x / u256_val y;
  u256_rem_val : forall x y, u256_val y <> 0 -> u256_val (u256_rem x y) = u256_val x mod u256_val y;
  u256_saturating_add_val : forall x y,
    u256_val (u256_saturating_add x y) = Z.min (u256_val x + u256_val y) U256_MAX;
  u256_saturating_sub_val : forall x y,
    u256_val (u256_saturating_sub x y) = Z.max (u256_val x - u256_val y) 0;
  u256_from_be_val : forall b, length b = 32%nat -> u256_val (u256_from_be b) = be_val b;
  u256_to_be_val : forall x, u256_to_be x = be_bytes 32 (u256_val x);
}.

(** ** Concrete instances, passed explicitly where a witness needs one *)

(** A stand-in digest: the last 31 bytes of the message, padded, after a byte
    that tags the function.  It only serves to run the definitions. *)
Definition toy_digest (tag : Z) (m : list byte) : list byte :=
  as_u8 tag :: be_bytes 31 (be_val m + Z.of_nat (length m)).

Program Definition toy_digests : Digests := {|
  sha256 := toy_digest 1; blake3 := toy_digest 2; keccak256 := toy_digest 3;
|}.
Next Obligation. intros. unfold toy_digest. cbn [length]. by rewrite length_be_bytes. Qed.
Next Obligation. intros. unfold toy_digest. cbn [length]. by rewrite length_be_bytes. Qed.
Next Obligation. intros. unfold toy_digest. cbn [length]. by rewrite length_be_bytes. Qed.

Module Hex.

Definition digit (d : Z) : byte := as_u8 (if d <? 10 then 48 + d else 87 + d).
Definition undigit (c : byte) : option Z :=
  let v := u8_val c in
  if (48 <=? v) && (v <=? 57) then Some (v - 48)
  else if (97 <=? v) && (v <=? 102) then Some (v - 87)
  else if (65 <=? v) && (v <=? 70) then Some (v - 55)
  else None.

Definition encode (b : list byte) : list byte :=
  concat (map (fun c => [digit (u8_val c / 16); digit (u8_val c mod 16)]) b).

Fixpoint decode (s : list byte) : option (list byte) :=
  match s with
  | [] => Some []
  | h :: l :: s' =>
      x ← undigit h; y ← undigit l; r ← decode s'; Some (as_u8 (16 * x + y) :: r)
  | [_] => None
  end.

Lemma digit_val d : 0 <= d < 16 -> u8_val (digit d) = if d <? 10 then 48 + d else 87 + d.
Proof. intros. unfold digit. apply u8_val_as_u8_small. destruct (Z.ltb_spec d 10); lia. Qed.

Lemma undigit_digit d : 0 <= d < 16 -> undigit (digit d) = Some d.
Proof.
  intros Hd. unfold undigit. rewrite digit_val by done.
  destruct (Z.ltb_spec d 10).
  - replace ((48 <=? 48 + d) && (48 + d <=? 57)) with true by lia. f_equal. lia.
  - replace ((48 <=? 87 + d) && (87 + d <=? 57)) with false by lia.
    replace ((97 <=? 87 + d) && (87 + d <=? 102)) with true by lia. f_equal. lia.
Qed.

Lemma digit_is_hex d : 0 <= d < 16 -> is_hex_digit (digit d) = true.
Proof. intros. unfold is_hex_digit. rewrite digit_val by done. destruct (Z.ltb_spec d 10); lia. Qed.

Lemma nibbles b : 0 <= u8_val b / 16 < 16 /\ 0 <= u8_val b mod 16 < 16.
Proof. pose proof (u8_val_range b). dlia. Qed.

Lemma decode_encode b : decode (encode b) = Some b.
Proof.
  induction b as [|c b IH]; [done|]. cbn [encode map concat app decode].
  destruct (nibbles c). rewrite !undigit_digit by done. simpl.
  fold (encode b). rewrite IH. simpl. do 2 f_equal.
  rewrite <- (as_u8_val c) at 3. f_equal. dlia.
Qed.

Lemma length_encode b : length (encode b) = (2 * length b)%nat.
Proof. induction b; [done|]. cbn [encode map concat app length]. fold (encode b). lia. Qed.

Lemma encode_digits b : Forall (fun c => is_hex_digit c = true) (encode b).
Proof.
  induction b as [|c b IH]; [constructor|]. cbn [encode map concat app].
  destruct (nibbles c). repeat constructor; try by apply digit_is_hex. done.
Qed.

Lemma length_decode s b : decode s = Some b -> length s = (2 * length b)%nat.
Proof.
  revert b. induction s as [s IH] using (induction_ltof1 _ (@length byte)).
  intros b. destruct s as [|h [|l s]]; simpl; [by intros [= <-]|done|].
  destruct (undigit h); [|done]. destruct (undigit l); [|done]. simpl.
  destruct (decode s) as [r|] eqn:E; [|done]. simpl. intros [= <-].
  apply IH in E; [simpl; lia|]. unfold ltof. simpl. lia.
Qed.

End Hex.

Definition hex_codec : HexCodec := {|
  hex_encode := Hex.encode; hex_decode := Hex.decode;
  hex_decode_encode := Hex.decode_encode; length_hex_encode := Hex.length_encode;
  length_hex_decode := Hex.length_decode; hex_encode_digits := Hex.encode_digits;
|}.

(** A recovery function that accepts every signature. *)
Program Definition toy_secp : Secp := {|
  high_s := fun s => 2 ^ 255 <=? be_val s;
  recover := fun v r s h => Some (be_bytes 20 (be_val r + be_val s + be_val h + Z.b2z v));
|}.
Next Obligation. intros v r s h a [= <-]. apply length_be_bytes. Qed.

(** 256-bit integers as integers in range. *)
Module U256Z.

Record t := mk { val : Z; val_ok : (0 <=? val) && (val <=? U256_MAX) = true }.

Lemma wrap_ok z : (0 <=? z mod (U256_MAX + 1)) && (z mod (U256_MAX + 1) <=? U256_MAX) = true.
Proof. pose proof (Z.mod_pos_bound z (U256_MAX + 1)). unfold U256_MAX in *. lia. Qed.

Definition of_Z (z : Z) : t := mk (z mod (U256_MAX + 1)) (wrap_ok z).

Lemma range x : 0 <= val x <= U256_MAX.
Proof. pose proof (val_ok x). lia. Qed.

Lemma val_of z : 0 <= z <= U256_MAX -> val (of_Z z) = z.
Proof. intros. simpl. apply Z.mod_small. lia. Qed.

Lemma val_inj x y : val x = val y -> x = y.
Proof.
  destruct x as [x Hx], y as [y Hy]. simpl. intros <-. f_equal.
  apply UIP_dec, bool_dec.
Qed.

End U256Z.

Program Definition u256_z : U256Ops := {|
  u256 := U256Z.t;
  u256_val := U256Z.val;
  u256_of := U256Z.of_Z;
  u256_add := fun x y => U256Z.of_Z (U256Z.val x + U256Z.val y);
  u256_sub := fun x y => U256Z.of_Z (U256Z.val x - U256Z.val y);
  u256_div := fun x y => U256Z.of_Z (U256Z.val x / U256Z.val y);
  u256_rem := fun x y => U256Z.of_Z (U256Z.val x mod U256Z.val y);
  u256_saturating_add := fun x y => U256Z.of_Z (Z.min (U256Z.val x + U256Z.val y) U256_MAX);
  u256_saturating_sub := fun x y => U256Z.of_Z (Z.max (U256Z.val x - U256Z.val y) 0);
  u256_from_be := fun b => U256Z.of_Z (be_val b);
  u256_to_be := fun x => be_bytes 32 (U256Z.val x);
  u256_range := U256Z.range;
  u256_val_inj := U256Z.val_inj;
  u256_of_val := U256Z.val_of;
|}.
Next Obligation. done. Qed.
Next Obligation. done. Qed.
Next Obligation.
  intros x y Hy. apply U256Z.val_of. pose proof (U256Z.range x). pose proof (U256Z.range y).
  split; [apply Z.div_pos; lia|]. apply Z.div_le_upper_bound; nia.
Qed.
Next Obligation.
  intros x y Hy. apply U256Z.val_of. pose proof (U256Z.range x). pose proof (U256Z.range y).
  pose proof (Z.mod_pos_bound (U256Z.val x) (U256Z.val y)). lia.
Qed.
Next Obligation.
  intros x y. apply U256Z.val_of. pose proof (U256Z.range x). pose proof (U256Z.range y). lia.
Qed.
Next Obligation.
  intros x y. apply U256Z.val_of. pose proof (U256Z.range x). pose proof (U256Z.range y). lia.
Qed.
Next Obligation.
  intros b Hb. apply U256Z.val_of. pose proof (be_val_range b) as H. rewrite Hb in H.
  change (256 ^ Z.of_nat 32) with (U256_MAX + 1) in H. lia.
Qed.
Next Obligation. done. Qed.
