(* ===== verification/Primitives.v ===== *)
(** [crates/blq-primitives]: constants, hashes and addresses with their text
    forms, transactions, receipts, headers and blocks with their canonical
    encodings, and the Merkle-like roots.

    [Hash256] and [Address] are byte lists whose well-formedness (32 and 20
    bytes) is part of the [wf_*] predicates; [Bix] and the integer fields are
    [Z] in the range of their Rust type. *)

From Stdlib Require Import ZArith Lia Strings.String Strings.Byte.
From stdpp Require Import gmap list base.
From S2P Require Import Prelude Externals.
#[local] Open Scope Z_scope.

(** ** Constants *)

Definition CHAIN_NAME : list byte := B "Block".
Definition TICKER : list byte := B "BLQ".
Definition NATIVE_DECIMALS : Z := 18.
Definition BIX_PER_BLQ : Z := 1000000000000000000.
Definition TARGET_BLOCK_TIME_SECONDS : Z := 30.
Definition MIN_ACCEPTABLE_BLOCK_TIME_SECONDS : Z := 15.
Definition MAX_ACCEPTABLE_BLOCK_TIME_SECONDS : Z := 45.
Definition MAX_DIFFICULTY_ADJUSTMENT_PERCENT : Z := 25.
Definition BLOCK_TIME_V2_MEDIAN_WINDOW : nat := 16.
Definition BLOCK_TIME_V2_TARGET_SECONDS : Z := 15.
Definition BLOCK_TIME_V2_FAST_MEDIAN_SECONDS : Z := 3.
Definition BLOCK_TIME_V2_SLOW_INTERVAL_SECONDS : Z := 60.
Definition BLOCK_TIME_V2_NORMAL_CAP_NUMERATOR : Z := 17.
Definition BLOCK_TIME_V2_NORMAL_CAP_DENOMINATOR : Z := 16.
Definition BLOCK_TIME_V2_SLOW_CAP_NUMERATOR : Z := 9.
Definition BLOCK_TIME_V2_SLOW_CAP_DENOMINATOR : Z := 8.
Definition DIFFICULTY_ADJUSTMENT_INTERVAL : Z := 60.
Definition BLQ_ISSUANCE_PER_INTERVAL_BIX : Z := BIX_PER_BLQ.
Definition MAX_REWARD_INTERVAL_SECONDS : Z := 120.
Definition MIN_BURN_PERCENT : Z := 5.
Definition MAX_BURN_PERCENT : Z := 40.
Definition MAX_UTILIZATION_BASIS_POINTS : Z := 10000.
Definition MAINNET_CHAIN_ID : Z := 707070.
Definition MAINNET_GENESIS_HASH : list byte :=
  B "79a7f512edc606d2ef444382099b870edc0c4e78b82b8a3d81d758254e49d352".
Definition GENESIS_GAS_LIMIT : Z := 30000000.
Definition GENESIS_TIMESTAMP_SECONDS : Z := 0.
Definition INITIAL_BASE_FEE_PER_GAS_BIX : Z := 1000000000.
Definition EIP1559_ELASTICITY_MULTIPLIER : Z := 2.
Definition EIP1559_BASE_FEE_MAX_CHANGE_DENOMINATOR : Z := 8.
Definition MAX_TRANSACTION_PAYLOAD_BYTES : Z := 128 * 1024.
Definition MAX_BLOCK_BYTES : Z := 2 * 1024 * 1024.
Definition MAX_ACCESS_LIST_ENTRIES : Z := 256.
Definition MAX_ACCESS_LIST_STORAGE_KEYS_PER_ENTRY : Z := 1024.
Definition MAX_ACCESS_LIST_STORAGE_KEYS : Z := 4096.

(** The cargo feature [native-randomx]. *)
Class BuildProfile := { native_randomx : bool }.

Definition DEFAULT_POW_ALGORITHM `{BuildProfile} : list byte :=
  if native_randomx then B "BLQ-RX/2" else B "BLQ-RX/1".

Inductive NodeMode := Full | Partial.

Definition node_mode_as_str (m : NodeMode) : list byte :=
  match m with Full => B "full" | Partial => B "partial" end.

(** ** Hashes and addresses *)

Abbreviation Hash256 := (list byte) (only parsing).
Abbreviation Address := (list byte) (only parsing).
Abbreviation Bix := Z (only parsing).

Definition wf_hash (h : Hash256) : Prop := length h = 32%nat.
Definition wf_address (a : Address) : Prop := length a = 20%nat.

Definition HASH_ZERO : Hash256 := replicate 32 x00.
Definition ADDRESS_ZERO : Address := replicate 20 x00.
Definition EMPTY_TRANSACTIONS_ROOT : Hash256 := replicate 32 x00.
Definition EMPTY_RECEIPTS_ROOT : Hash256 := replicate 32 x00.
Definition GENESIS_DIFFICULTY_TARGET : Hash256 := replicate 32 x0f.

Inductive HexHashError := InvalidHex | InvalidLength (n : Z).

Section hex_text.
Context {HX : HexCodec}.

Definition hash_to_hex (h : Hash256) : list byte := hex_encode h.

(** [Hash256::from_hex] and [Address::from_hex] differ in the length only. *)
Definition fixed_from_hex (n : Z) (value : list byte) : res HexHashError (list byte) :=
  let trimmed := default value (strip_prefix (B "0x") value) in
  let? bs := ok_or (hex_decode trimmed) InvalidHex in
  if negb (Z.of_nat (length bs) =? n) then Err (InvalidLength (Z.of_nat (length bs)))
  else Ok bs.

Definition hash_from_hex (value : list byte) : res HexHashError Hash256 := fixed_from_hex 32 value.

Definition address_to_hex (a : Address) : list byte := B "0x" ++ hex_encode a.
Definition address_from_hex (value : list byte) : res HexHashError Address := fixed_from_hex 20 value.

Definition address_from_word (value : Hash256) : Address := drop 12 value.
Definition address_to_word (a : Address) : Hash256 := replicate 12 x00 ++ a.

(** [Deserialize for Address]: a string, or a sequence of bytes. *)
Inductive AddressError := AddressHex (e : HexHashError) | AddressLength (n : Z).

Definition address_visit_str (value : list byte) : res AddressError Address :=
  res_map_err AddressHex (address_from_hex value).

Definition address_visit_seq (bs : list byte) : res AddressError Address :=
  let len := Z.of_nat (length bs) in
  if len =? 20 then Ok bs
  else if len =? 32 then Ok (address_from_word bs)
  else Err (AddressLength len).

Definition parse_beneficiary (value : list byte) : res HexHashError Hash256 :=
  match address_from_hex value with
  | Ok address => Ok (address_to_word address)
  | Err (InvalidLength 20) => Panic
  | Err _ => hash_from_hex value
  | Panic => Panic
  end.
End hex_text.

(** [Serialize] and [Deserialize] for [Bix]. *)
Definition bix_serialize (b : Bix) : list byte := dec_string b.
Definition bix_visit_str (value : list byte) : option Bix := parse_uint U128_MAX value.

(** ** Transactions *)

Record TransactionAccessListItem := {
  al_address : Address;
  al_storage_keys : list Hash256;
}.

Record TransactionSignature := {
  sig_y_parity : bool;
  sig_r : Hash256;
  sig_s : Hash256;
}.

Record Transaction := {
  tx_chain_id : Z;
  tx_transaction_type : Z;
  tx_nonce : Z;
  tx_from : Address;
  tx_to : option Address;
  tx_value : Bix;
  tx_gas_limit : Z;
  tx_max_fee_per_gas : Bix;
  tx_max_priority_fee_per_gas : Bix;
  tx_payload : list byte;
  tx_access_list : list TransactionAccessListItem;
  tx_signature : option TransactionSignature;
  tx_external_hash : option Hash256;
}.

Definition default_transaction_type : Z := 2.
Definition default_chain_id : Z := MAINNET_CHAIN_ID.
Definition default_base_fee : Bix := INITIAL_BASE_FEE_PER_GAS_BIX.
Definition default_pow_algorithm `{BuildProfile} : list byte := DEFAULT_POW_ALGORITHM.

#[export] Instance access_item_eq_dec : EqDecision TransactionAccessListItem.
Proof. solve_decision. Defined.
#[export] Instance signature_eq_dec : EqDecision TransactionSignature.
Proof. solve_decision. Defined.
#[export] Instance transaction_eq_dec : EqDecision Transaction.
Proof. solve_decision. Defined.

(** [put_*] append to the output buffer. *)
Definition put_hash (out : list byte) (value : Hash256) : list byte := out ++ value.
Definition put_address (out : list byte) (value : Address) : list byte := out ++ value.
Definition put_u64 (out : list byte) (value : Z) : list byte := out ++ be_bytes 8 value.
Definition put_u128 (out : list byte) (value : Z) : list byte := out ++ be_bytes 16 value.
Definition put_bytes (out bs : list byte) : list byte :=
  put_u64 out (Z.of_nat (length bs)) ++ bs.
Definition push (out : list byte) (b : byte) : list byte := out ++ [b].

Definition bool_u8 (b : bool) : byte := if b then x01 else x00.

Definition put_access_item (out : list byte) (item : TransactionAccessListItem) : list byte :=
  let out := put_address out (al_address item) in
  let out := put_u64 out (Z.of_nat (length (al_storage_keys item))) in
  fold_left put_hash (al_storage_keys item) out.

Definition tx_canonical_bytes (t : Transaction) : list byte :=
  let out := [] in
  let out := put_u64 out (tx_chain_id t) in
  let out := put_u64 out (tx_nonce t) in
  let out := put_address out (tx_from t) in
  let out := match tx_to t with
             | Some to => put_address (push out x01) to
             | None => push out x00
             end in
  let out := put_u128 out (tx_value t) in
  let out := put_u64 out (tx_gas_limit t) in
  let out := put_u128 out (tx_max_fee_per_gas t) in
  let out := put_u128 out (tx_max_priority_fee_per_gas t) in
  let out := put_bytes out (tx_payload t) in
  let out :=
    if negb (bool_decide (tx_access_list t = [])) || (tx_transaction_type t =? 1) then
      let out := push out xa5 in
      let out := push out (as_u8 (tx_transaction_type t)) in
      let out := put_u64 out (Z.of_nat (length (tx_access_list t))) in
      fold_left put_access_item (tx_access_list t) out
    else out in
  match tx_signature t with
  | Some signature =>
      let out := push out x01 in
      let out := push out (bool_u8 (sig_y_parity signature)) in
      put_hash (put_hash out (sig_r signature)) (sig_s signature)
  | None => push out x00
  end.

Section hashing.
Context {D : Digests}.

Definition hash_bytes (bs : list byte) : Hash256 := sha256 bs.

(** The bytes [merkle_like_root] feeds to the hasher. *)
Definition merkle_item (item : list byte) : list byte :=
  be_bytes 8 (Z.of_nat (length item)) ++ item.

Definition merkle_like_root (items : list (list byte)) : Hash256 :=
  let '(input, count) :=
    fold_left (fun '(input, count) item => (input ++ merkle_item item, wrap64 (count + 1)))
      items ([], 0) in
  if count =? 0 then HASH_ZERO else sha256 (input ++ be_bytes 8 count).

Definition tx_hash (t : Transaction) : Hash256 := hash_bytes (tx_canonical_bytes t).
Definition tx_rpc_hash (t : Transaction) : Hash256 := default (tx_hash t) (tx_external_hash t).
End hashing.

(** ** Receipts *)

Record LogEntry := {
  log_address : Address;
  log_topics : list Hash256;
  log_data : list byte;
}.

Record Receipt := {
  rc_transaction_hash : Hash256;
  rc_success : bool;
  rc_gas_used : Z;
  rc_logs_root : Hash256;
  rc_logs : list LogEntry;
}.

#[export] Instance log_entry_eq_dec : EqDecision LogEntry.
Proof. solve_decision. Defined.
#[export] Instance receipt_eq_dec : EqDecision Receipt.
Proof. solve_decision. Defined.

Definition log_canonical_bytes (l : LogEntry) : list byte :=
  let out := log_address l in
  let out := put_u64 out (Z.of_nat (length (log_topics l))) in
  let out := fold_left put_hash (log_topics l) out in
  put_bytes out (log_data l).

Definition receipt_canonical_bytes (r : Receipt) : list byte :=
  let out := put_hash [] (rc_transaction_hash r) in
  let out := push out (bool_u8 (rc_success r)) in
  let out := put_u64 out (rc_gas_used r) in
  let out := put_hash out (rc_logs_root r) in
  if negb (bool_decide (rc_logs r = [])) then
    let out := put_u64 out (Z.of_nat (length (rc_logs r))) in
    fold_left (fun out log => put_bytes out (log_canonical_bytes log)) (rc_logs r) out
  else out.

Definition logs_root {D : Digests} (logs : list LogEntry) : Hash256 :=
  if bool_decide (logs = []) then HASH_ZERO
  else merkle_like_root (map log_canonical_bytes logs).

(** ** Headers and blocks *)

Record BlockHeader := {
  hdr_parent_hash : Hash256;
  hdr_number : Z;
  hdr_state_root : Hash256;
  hdr_transactions_root : Hash256;
  hdr_receipts_root : Hash256;
  hdr_beneficiary : Hash256;
  hdr_difficulty_target : Hash256;
  hdr_base_fee_per_gas : Bix;
  hdr_gas_limit : Z;
  hdr_gas_used : Z;
  hdr_timestamp_seconds : Z;
  hdr_pow_algorithm : list byte;
  hdr_pow_epoch : Z;
  hdr_extra_nonce : Z;
  hdr_mix_hash : Hash256;
  hdr_nonce : Z;
}.

#[export] Instance header_eq_dec : EqDecision BlockHeader.
Proof. solve_decision. Defined.

Definition beneficiary_address (h : BlockHeader) : Address :=
  address_from_word (hdr_beneficiary h).

Definition header_canonical_bytes (h : BlockHeader) : list byte :=
  let out := [] in
  let out := put_hash out (hdr_parent_hash h) in
  let out := put_u64 out (hdr_number h) in
  let out := put_hash out (hdr_state_root h) in
  let out := put_hash out (hdr_transactions_root h) in
  let out := put_hash out (hdr_receipts_root h) in
  let out := put_hash out (hdr_beneficiary h) in
  let out := put_hash out (hdr_difficulty_target h) in
  let out := put_u128 out (hdr_base_fee_per_gas h) in
  let out := put_u64 out (hdr_gas_limit h) in
  let out := put_u64 out (hdr_gas_used h) in
  let out := put_u64 out (hdr_timestamp_seconds h) in
  let out := put_bytes out (hdr_pow_algorithm h) in
  let out := put_u64 out (hdr_pow_epoch h) in
  let out := put_u64 out (hdr_extra_nonce h) in
  let out := put_hash out (hdr_mix_hash h) in
  put_u64 out (hdr_nonce h).

Definition pow_preimage_bytes (h : BlockHeader) : list byte :=
  let out := [] in
  let out := put_hash out (hdr_parent_hash h) in
  let out := put_u64 out (hdr_number h) in
  let out := put_hash out (hdr_state_root h) in
  let out := put_hash out (hdr_transactions_root h) in
  let out := put_hash out (hdr_receipts_root h) in
  let out := put_hash out (hdr_beneficiary h) in
  let out := put_hash out (hdr_difficulty_target h) in
  let out := put_u128 out (hdr_base_fee_per_gas h) in
  let out := put_u64 out (hdr_gas_limit h) in
  let out := put_u64 out (hdr_gas_used h) in
  let out := put_u64 out (hdr_timestamp_seconds h) in
  let out := put_bytes out (hdr_pow_algorithm h) in
  let out := put_u64 out (hdr_pow_epoch h) in
  let out := put_u64 out (hdr_extra_nonce h) in
  put_u64 out (hdr_nonce h).

Definition header_hash {D : Digests} (h : BlockHeader) : Hash256 :=
  hash_bytes (header_canonical_bytes h).

Record Block := {
  blk_header : BlockHeader;
  blk_transactions : list Transaction;
  blk_receipts : list Receipt;
}.

#[export] Instance block_eq_dec : EqDecision Block.
Proof. solve_decision. Defined.

Definition block_canonical_bytes (b : Block) : list byte :=
  let out := header_canonical_bytes (blk_header b) in
  let out := put_u64 out (Z.of_nat (length (blk_transactions b))) in
  let out := fold_left (fun out t => put_bytes out (tx_canonical_bytes t)) (blk_transactions b) out in
  let out := put_u64 out (Z.of_nat (length (blk_receipts b))) in
  fold_left (fun out r => put_bytes out (receipt_canonical_bytes r)) (blk_receipts b) out.

Definition genesis_header `{BuildProfile} : BlockHeader := {|
  hdr_parent_hash := HASH_ZERO;
  hdr_number := 0;
  hdr_state_root := HASH_ZERO;
  hdr_transactions_root := EMPTY_TRANSACTIONS_ROOT;
  hdr_receipts_root := EMPTY_RECEIPTS_ROOT;
  hdr_beneficiary := HASH_ZERO;
  hdr_difficulty_target := GENESIS_DIFFICULTY_TARGET;
  hdr_base_fee_per_gas := INITIAL_BASE_FEE_PER_GAS_BIX;
  hdr_gas_limit := GENESIS_GAS_LIMIT;
  hdr_gas_used := 0;
  hdr_timestamp_seconds := GENESIS_TIMESTAMP_SECONDS;
  hdr_pow_algorithm := DEFAULT_POW_ALGORITHM;
  hdr_pow_epoch := 0;
  hdr_extra_nonce := 0;
  hdr_mix_hash := HASH_ZERO;
  hdr_nonce := 0;
|}.

Definition genesis_block `{BuildProfile} : Block := {|
  blk_header := genesis_header; blk_transactions := []; blk_receipts := [];
|}.

Definition transactions_root {D : Digests} (ts : list Transaction) : Hash256 :=
  merkle_like_root (map tx_canonical_bytes ts).

Definition receipts_root {D : Digests} (rs : list Receipt) : Hash256 :=
  merkle_like_root (map receipt_canonical_bytes rs).
