(* ===== verification/Canonical.v ===== *)
(** Injectivity of the canonical encodings of [crates/blq-primitives]: what a
    hash of a transaction, receipt, header or block commits to, and what the
    Merkle-like roots commit to.  Also the text forms of hashes, addresses and
    amounts. *)

From Stdlib Require Import ZArith Lia Strings.String Strings.Byte.
From stdpp Require Import gmap list base.
From S2P Require Import Prelude Externals Primitives.
#[local] Open Scope Z_scope.

(** ** Well-formed values: every field in the range of its Rust type *)

Definition fits {A} (l : list A) : Prop := Z.of_nat (length l) <= U64_MAX.

Definition wf_access_item (i : TransactionAccessListItem) : Prop :=
  wf_address (al_address i) /\ Forall wf_hash (al_storage_keys i) /\ fits (al_storage_keys i).

Definition wf_signature (s : TransactionSignature) : Prop :=
  wf_hash (sig_r s) /\ wf_hash (sig_s s).

Record wf_tx (t : Transaction) : Prop := {
  wf_tx_chain_id : in_u64 (tx_chain_id t);
  wf_tx_type : in_u8 (tx_transaction_type t);
  wf_tx_nonce : in_u64 (tx_nonce t);
  wf_tx_from : wf_address (tx_from t);
  wf_tx_to : forall a, tx_to t = Some a -> wf_address a;
  wf_tx_value : in_u128 (tx_value t);
  wf_tx_gas_limit : in_u64 (tx_gas_limit t);
  wf_tx_max_fee : in_u128 (tx_max_fee_per_gas t);
  wf_tx_priority : in_u128 (tx_max_priority_fee_per_gas t);
  wf_tx_payload : fits (tx_payload t);
  wf_tx_access_list : Forall wf_access_item (tx_access_list t);
  wf_tx_access_len : fits (tx_access_list t);
  wf_tx_signature : forall s, tx_signature t = Some s -> wf_signature s;
}.

Definition wf_log (l : LogEntry) : Prop :=
  wf_address (log_address l) /\ Forall wf_hash (log_topics l) /\ fits (log_topics l) /\
  fits (log_data l).

Definition wf_receipt (r : Receipt) : Prop :=
  wf_hash (rc_transaction_hash r) /\ in_u64 (rc_gas_used r) /\ wf_hash (rc_logs_root r) /\
  Forall wf_log (rc_logs r) /\ fits (rc_logs r) /\
  Forall (fun l => fits (log_canonical_bytes l)) (rc_logs r).

Record wf_header (h : BlockHeader) : Prop := {
  wf_hdr_parent : wf_hash (hdr_parent_hash h);
  wf_hdr_number : in_u64 (hdr_number h);
  wf_hdr_state : wf_hash (hdr_state_root h);
  wf_hdr_txs : wf_hash (hdr_transactions_root h);
  wf_hdr_rcs : wf_hash (hdr_receipts_root h);
  wf_hdr_beneficiary : wf_hash (hdr_beneficiary h);
  wf_hdr_target : wf_hash (hdr_difficulty_target h);
  wf_hdr_base_fee : in_u128 (hdr_base_fee_per_gas h);
  wf_hdr_gas_limit : in_u64 (hdr_gas_limit h);
  wf_hdr_gas_used : in_u64 (hdr_gas_used h);
  wf_hdr_timestamp : in_u64 (hdr_timestamp_seconds h);
  wf_hdr_algorithm : fits (hdr_pow_algorithm h);
  wf_hdr_epoch : in_u64 (hdr_pow_epoch h);
  wf_hdr_extra : in_u64 (hdr_extra_nonce h);
  wf_hdr_mix : wf_hash (hdr_mix_hash h);
  wf_hdr_nonce : in_u64 (hdr_nonce h);
}.

(** ** Encodings as concatenations *)

Definition enc_bytes (bs : list byte) : list byte := be_bytes 8 (Z.of_nat (length bs)) ++ bs.

Lemma put_bytes_eq out bs : put_bytes out bs = out ++ enc_bytes bs.
Proof. unfold put_bytes, put_u64, enc_bytes. by rewrite app_assoc. Qed.

Lemma fold_put_hash l out : fold_left put_hash l out = out ++ concat (map (fun k => k) l).
Proof.
  revert out. induction l as [|h l IH]; intros out; simpl; [by rewrite app_nil_r|].
  rewrite IH. unfold put_hash. by rewrite app_assoc.
Qed.

Lemma fold_put {A} (f : list byte -> A -> list byte) (enc : A -> list byte) l out :
  (forall o a, f o a = o ++ enc a) -> fold_left f l out = out ++ concat (map enc l).
Proof.
  intros Hf. revert out. induction l as [|a l IH]; intros out; simpl; [by rewrite app_nil_r|].
  by rewrite IH, Hf, app_assoc.
Qed.

(** A list with its length in front, each item written by [enc]. *)
Definition enc_list {A} (enc : A -> list byte) (l : list A) : list byte :=
  be_bytes 8 (Z.of_nat (length l)) ++ concat (map enc l).

Definition enc_item (i : TransactionAccessListItem) : list byte :=
  al_address i ++ enc_list (fun k => k) (al_storage_keys i).

Lemma put_access_item_eq out i : put_access_item out i = out ++ enc_item i.
Proof.
  unfold put_access_item, put_address, put_u64, enc_item, enc_list.
  by rewrite fold_put_hash, <- !app_assoc.
Qed.

Definition enc_opt {A} (enc : A -> list byte) (o : option A) : list byte :=
  match o with Some a => x01 :: enc a | None => [x00] end.

Definition enc_sig (s : TransactionSignature) : list byte :=
  bool_u8 (sig_y_parity s) :: sig_r s ++ sig_s s.

Definition has_list (t : Transaction) : bool :=
  negb (bool_decide (tx_access_list t = [])) || (tx_transaction_type t =? 1).

Definition enc_access (t : Transaction) : list byte :=
  if has_list t then xa5 :: as_u8 (tx_transaction_type t) :: enc_list enc_item (tx_access_list t)
  else [].

Lemma tx_canonical_bytes_eq t :
  tx_canonical_bytes t =
  be_bytes 8 (tx_chain_id t) ++ be_bytes 8 (tx_nonce t) ++ tx_from t ++
  enc_opt (fun a => a) (tx_to t) ++ be_bytes 16 (tx_value t) ++ be_bytes 8 (tx_gas_limit t) ++
  be_bytes 16 (tx_max_fee_per_gas t) ++ be_bytes 16 (tx_max_priority_fee_per_gas t) ++
  enc_bytes (tx_payload t) ++ enc_access t ++ enc_opt enc_sig (tx_signature t).
Proof.
  unfold tx_canonical_bytes, enc_access, has_list.
  rewrite (fold_put _ enc_item) by apply put_access_item_eq.
  rewrite put_bytes_eq. unfold put_u64, put_u128, put_hash, put_address, push.
  destruct (tx_to t), (negb _ || _), (tx_signature t); unfold enc_opt, enc_sig, enc_list;
    simpl; rewrite <- ?app_assoc; done.
Qed.

Definition enc_log (l : LogEntry) : list byte :=
  log_address l ++ enc_list (fun k => k) (log_topics l) ++ enc_bytes (log_data l).

Lemma log_canonical_bytes_eq l : log_canonical_bytes l = enc_log l.
Proof.
  unfold log_canonical_bytes, enc_log, enc_list.
  rewrite put_bytes_eq, fold_put_hash. unfold put_u64. by rewrite <- !app_assoc.
Qed.

Lemma receipt_canonical_bytes_eq r :
  receipt_canonical_bytes r =
  rc_transaction_hash r ++ [bool_u8 (rc_success r)] ++ be_bytes 8 (rc_gas_used r) ++
  rc_logs_root r ++
  (if bool_decide (rc_logs r = []) then []
   else enc_list (fun l => enc_bytes (log_canonical_bytes l)) (rc_logs r)).
Proof.
  unfold receipt_canonical_bytes, put_hash, put_u64, push, enc_list.
  rewrite (fold_put _ (fun l => enc_bytes (log_canonical_bytes l))) by (intros; apply put_bytes_eq).
  case_bool_decide; simpl; rewrite <- ?app_assoc, ?app_nil_r; done.
Qed.

Definition enc_header_head (h : BlockHeader) : list byte :=
  hdr_parent_hash h ++ be_bytes 8 (hdr_number h) ++ hdr_state_root h ++
  hdr_transactions_root h ++ hdr_receipts_root h ++ hdr_beneficiary h ++
  hdr_difficulty_target h ++ be_bytes 16 (hdr_base_fee_per_gas h) ++
  be_bytes 8 (hdr_gas_limit h) ++ be_bytes 8 (hdr_gas_used h) ++
  be_bytes 8 (hdr_timestamp_seconds h) ++ enc_bytes (hdr_pow_algorithm h) ++
  be_bytes 8 (hdr_pow_epoch h) ++ be_bytes 8 (hdr_extra_nonce h).

Lemma header_canonical_bytes_eq h :
  header_canonical_bytes h = enc_header_head h ++ hdr_mix_hash h ++ be_bytes 8 (hdr_nonce h).
Proof.
  unfold header_canonical_bytes. rewrite put_bytes_eq.
  unfold put_hash, put_u64, put_u128, enc_header_head. rewrite <- !app_assoc. done.
Qed.

Lemma pow_preimage_bytes_eq h :
  pow_preimage_bytes h = enc_header_head h ++ be_bytes 8 (hdr_nonce h).
Proof.
  unfold pow_preimage_bytes. rewrite put_bytes_eq.
  unfold put_hash, put_u64, put_u128, enc_header_head. rewrite <- !app_assoc. done.
Qed.

Lemma block_canonical_bytes_eq b :
  block_canonical_bytes b =
  header_canonical_bytes (blk_header b) ++
  enc_list (fun t => enc_bytes (tx_canonical_bytes t)) (blk_transactions b) ++
  enc_list (fun r => enc_bytes (receipt_canonical_bytes r)) (blk_receipts b).
Proof.
  unfold block_canonical_bytes, enc_list, put_u64.
  rewrite (fold_put _ (fun t => enc_bytes (tx_canonical_bytes t))) by (intros; apply put_bytes_eq).
  rewrite (fold_put _ (fun r => enc_bytes (receipt_canonical_bytes r))) by (intros; apply put_bytes_eq).
  by rewrite <- !app_assoc.
Qed.

(** ** Prefix injectivity of the parts *)

Lemma fits_u64 {A} (l : list A) : fits l -> in_u64 (Z.of_nat (length l)).
Proof. unfold fits. ints. lia. Qed.
#[export] Hint Resolve fits_u64 : blq_arith.

Lemma pinj_enc_bytes : pinj (fun l : list byte => fits l) enc_bytes.
Proof.
  intros a b r s Ha Hb E. unfold enc_bytes in E. rewrite <- !app_assoc in E.
  apply pinj_u64 in E as [E1 E]; [|auto with blq_arith..].
  apply app_inj_len in E; [done|lia].
Qed.

Lemma pinj_enc_list {A} (P : A -> Prop) (enc : A -> list byte) :
  pinj P enc -> pinj (fun l => Forall P l /\ fits l) (enc_list enc).
Proof.
  intros He a b r s [Ha Hla] [Hb Hlb] E. unfold enc_list in E. rewrite <- !app_assoc in E.
  apply pinj_u64 in E as [E1 E]; [|auto with blq_arith..].
  eapply pinj_concat in E; eauto. lia.
Qed.

#[local] Opaque enc_bytes enc_list.

Lemma pinj_enc_opt {A} (P : A -> Prop) (enc : A -> list byte) :
  pinj P enc -> pinj (fun o => forall a, o = Some a -> P a) (enc_opt enc).
Proof.
  intros He a b r s Ha Hb E.
  destruct a as [a|], b as [b|]; simpl in E; try done.
  - apply cons_inj in E as [_ E]. apply He in E as [-> ->]; auto.
  - injection E as ->. done.
Qed.

Lemma bool_u8_inj a b : bool_u8 a = bool_u8 b -> a = b.
Proof. by destruct a, b. Qed.

Lemma pinj_enc_item : pinj wf_access_item enc_item.
Proof.
  intros [a ka] [b kb] r s (Ha & Hka & Hla) (Hb & Hkb & Hlb) E.
  unfold enc_item in E. simpl in *. rewrite <- !app_assoc in E.
  apply (pinj_arr 20) in E as [-> E]; [|done..].
  apply (pinj_enc_list _ _ (pinj_arr 32)) in E as [-> ->]; done.
Qed.

Lemma pinj_enc_sig : pinj wf_signature enc_sig.
Proof.
  intros [ya ra sa] [yb rb sb] r s [Hra Hsa] [Hrb Hsb] E.
  unfold enc_sig in E. simpl in *. apply cons_inj in E as [Ey E]. apply bool_u8_inj in Ey as ->.
  rewrite <- !app_assoc in E.
  apply (pinj_arr 32) in E as [-> E]; [|done..].
  apply (pinj_arr 32) in E as [-> ->]; done.
Qed.

Lemma pinj_enc_log : pinj wf_log enc_log.
Proof.
  intros [aa ta da] [ab tb db] r s (Ha & Hta & Hla & Hda) (Hb & Htb & Hlb & Hdb) E.
  unfold enc_log in E. simpl in *. rewrite <- !app_assoc in E.
  apply (pinj_arr 20) in E as [-> E]; [|done..].
  apply (pinj_enc_list _ _ (pinj_arr 32)) in E as [-> E]; [|done..].
  apply pinj_enc_bytes in E as [-> ->]; done.
Qed.

Lemma pinj_wrapped {A} (P : A -> Prop) (enc : A -> list byte) :
  (forall a b, P a -> P b -> enc a = enc b -> a = b) ->
  pinj (fun a => P a /\ fits (enc a)) (fun a => enc_bytes (enc a)).
Proof.
  intros Hi a b r s [Ha Hfa] [Hb Hfb] E.
  apply pinj_enc_bytes in E as [E ->]; [|done..]. split; [by apply Hi|done].
Qed.

(** ** Transactions *)

(** What the canonical encoding of a transaction determines: every field but
    the external hash, and the type only when the access list is written. *)
Record tx_canonical_eq (t1 t2 : Transaction) : Prop := {
  ce_chain_id : tx_chain_id t1 = tx_chain_id t2;
  ce_nonce : tx_nonce t1 = tx_nonce t2;
  ce_from : tx_from t1 = tx_from t2;
  ce_to : tx_to t1 = tx_to t2;
  ce_value : tx_value t1 = tx_value t2;
  ce_gas_limit : tx_gas_limit t1 = tx_gas_limit t2;
  ce_max_fee : tx_max_fee_per_gas t1 = tx_max_fee_per_gas t2;
  ce_priority : tx_max_priority_fee_per_gas t1 = tx_max_priority_fee_per_gas t2;
  ce_payload : tx_payload t1 = tx_payload t2;
  ce_access_list : tx_access_list t1 = tx_access_list t2;
  ce_signature : tx_signature t1 = tx_signature t2;
  ce_type : tx_transaction_type t1 = tx_transaction_type t2 \/
    (tx_access_list t1 = [] /\ tx_transaction_type t1 <> 1 /\ tx_transaction_type t2 <> 1);
}.

Lemma has_list_false t :
  has_list t = false <-> tx_access_list t = [] /\ tx_transaction_type t <> 1.
Proof.
  unfold has_list. case_bool_decide; simpl.
  - rewrite Z.eqb_neq. tauto.
  - split; [done|tauto].
Qed.

Lemma enc_opt_sig_hd o b l : enc_opt enc_sig o = b :: l -> b = x00 \/ b = x01.
Proof. destruct o; simpl; intros [= <- _]; auto. Qed.

(** The optional access list is told apart from the signature tag. *)
Lemma enc_access_sig_inj t1 t2 :
  wf_tx t1 -> wf_tx t2 ->
  enc_access t1 ++ enc_opt enc_sig (tx_signature t1) =
  enc_access t2 ++ enc_opt enc_sig (tx_signature t2) ->
  tx_access_list t1 = tx_access_list t2 /\ tx_signature t1 = tx_signature t2 /\
  (tx_transaction_type t1 = tx_transaction_type t2 \/
   (tx_access_list t1 = [] /\ tx_transaction_type t1 <> 1 /\ tx_transaction_type t2 <> 1)).
Proof.
  intros H1 H2 E. unfold enc_access in E.
  destruct (has_list t1) eqn:L1, (has_list t2) eqn:L2; simpl in E.
  - apply cons_inj in E as [_ E]. apply cons_inj in E as [Et E].
    apply (pinj_enc_list _ _ pinj_enc_item) in E as [Ea E];
      [|split; apply H1|split; apply H2].
    rewrite <- (app_nil_r (enc_opt _ _)), <- (app_nil_r (enc_opt _ (tx_signature t2))) in E.
    apply (pinj_enc_opt _ _ pinj_enc_sig) in E as [Es _]; [|apply H1|apply H2].
    apply (f_equal u8_val) in Et.
    pose proof (wf_tx_type _ H1). pose proof (wf_tx_type _ H2). ints.
    rewrite !u8_val_as_u8_small in Et by lia. auto.
  - symmetry in E. apply enc_opt_sig_hd in E as [?|?]; discriminate.
  - apply enc_opt_sig_hd in E as [?|?]; discriminate.
  - apply has_list_false in L1 as [L1 T1], L2 as [L2 T2].
    rewrite <- (app_nil_r (enc_opt _ _)), <- (app_nil_r (enc_opt _ (tx_signature t2))) in E.
    apply (pinj_enc_opt _ _ pinj_enc_sig) in E as [Es _]; [|apply H1|apply H2].
    rewrite L1, L2. tauto.
Qed.

Ltac pinj_step lem E :=
  let Ex := fresh "Ex" in apply lem in E as [Ex E]; [|eauto..].

Lemma tx_canonical_bytes_det t1 t2 :
  wf_tx t1 -> wf_tx t2 -> tx_canonical_bytes t1 = tx_canonical_bytes t2 -> tx_canonical_eq t1 t2.
Proof.
  intros H1 H2 E. rewrite !tx_canonical_bytes_eq in E.
  pose proof H1 as W1. pose proof H2 as W2. destruct W1, W2.
  pinj_step pinj_u64 E. pinj_step pinj_u64 E. pinj_step (pinj_arr 20) E.
  pinj_step (pinj_enc_opt _ _ (pinj_arr 20)) E.
  pinj_step pinj_u128 E. pinj_step pinj_u64 E. pinj_step pinj_u128 E. pinj_step pinj_u128 E.
  pinj_step pinj_enc_bytes E.
  apply enc_access_sig_inj in E as (? & ? & ?); [|done..]. by split.
Qed.

(** Conversely the encoding reads nothing else. *)
Lemma tx_canonical_eq_bytes t1 t2 :
  tx_canonical_eq t1 t2 -> tx_canonical_bytes t1 = tx_canonical_bytes t2.
Proof.
  intros []. rewrite !tx_canonical_bytes_eq. unfold enc_access.
  assert (has_list t1 = has_list t2 /\
    (has_list t1 = true -> tx_transaction_type t1 = tx_transaction_type t2)) as [Hh Ht].
  { destruct ce_type0 as [Ht|(Hn & Hn1 & Hn2)].
    - unfold has_list. rewrite ce_access_list0, Ht. auto.
    - assert (has_list t1 = false) as E1 by (by apply has_list_false).
      assert (has_list t2 = false) as E2 by (apply has_list_false; split; congruence).
      rewrite E1, E2. done. }
  destruct (has_list t1); rewrite <- Hh; [rewrite Ht by done|]; congruence.
Qed.

(** ** Receipts *)

Lemma log_canonical_bytes_inj l1 l2 :
  wf_log l1 -> wf_log l2 -> log_canonical_bytes l1 = log_canonical_bytes l2 -> l1 = l2.
Proof.
  intros H1 H2 E. rewrite !log_canonical_bytes_eq in E.
  apply (pinj_enc_log l1 l2 [] []); [done..|]. by rewrite !app_nil_r.
Qed.

Lemma receipt_canonical_bytes_det r1 r2 :
  wf_receipt r1 -> wf_receipt r2 ->
  receipt_canonical_bytes r1 = receipt_canonical_bytes r2 -> r1 = r2.
Proof.
  destruct r1 as [h1 s1 g1 lr1 ls1], r2 as [h2 s2 g2 lr2 ls2].
  intros (Hh1 & Hg1 & Hr1 & Hl1 & Hf1 & Hc1) (Hh2 & Hg2 & Hr2 & Hl2 & Hf2 & Hc2) E.
  rewrite !receipt_canonical_bytes_eq in E. simpl in *.
  pinj_step (pinj_arr 32) E. apply cons_inj in E as [Eb E]. apply bool_u8_inj in Eb.
  pinj_step pinj_u64 E. pinj_step (pinj_arr 32) E. subst. f_equal.
  set (enc := fun l => enc_bytes (log_canonical_bytes l)) in *.
  assert (forall l, enc_list enc l = [] -> l = []) as Hnil.
  { intros l El. apply (f_equal length) in El. Local Transparent enc_list.
    unfold enc_list in El. rewrite length_app, length_be_bytes in El. simpl in El. lia. }
  case_bool_decide; case_bool_decide; subst; [done|by symmetry in E; apply Hnil in E|by apply Hnil in E|].
  rewrite <- (app_nil_r (enc_list _ _)), <- (app_nil_r (enc_list _ ls2)) in E.
  apply (pinj_enc_list _ _ (pinj_wrapped wf_log _ log_canonical_bytes_inj)) in E as [-> _]; [done| |];
    (split; [|done]); apply Forall_and; done.
Qed.

(** ** Headers *)

Lemma enc_header_head_inj h1 h2 r s :
  wf_header h1 -> wf_header h2 -> enc_header_head h1 ++ r = enc_header_head h2 ++ s ->
  r = s /\
  (hdr_mix_hash h1 = hdr_mix_hash h2 -> hdr_nonce h1 = hdr_nonce h2 -> h1 = h2).
Proof.
  intros [] [] E. unfold enc_header_head in E. rewrite <- !app_assoc in E.
  pinj_step (pinj_arr 32) E. pinj_step pinj_u64 E.
  do 5 pinj_step (pinj_arr 32) E. pinj_step pinj_u128 E.
  do 3 pinj_step pinj_u64 E. pinj_step pinj_enc_bytes E. do 2 pinj_step pinj_u64 E.
  split; [done|]. intros. clear E. destruct h1, h2; simpl in *; subst; reflexivity.
Qed.

Lemma header_canonical_bytes_det h1 h2 :
  wf_header h1 -> wf_header h2 ->
  header_canonical_bytes h1 = header_canonical_bytes h2 -> h1 = h2.
Proof.
  intros H1 H2 E. rewrite !header_canonical_bytes_eq in E.
  apply enc_header_head_inj in E as [E H]; [|done..].
  apply (pinj_arr 32) in E as [Em E]; [|apply H1|apply H2].
  apply H; [done|]. apply be_bytes_u64_inj in E; [done|apply H1|apply H2].
Qed.

(** ** Merkle-like roots *)

(** The message whose digest is the root of a non-empty list. *)
Definition merkle_preimage (items : list (list byte)) : list byte :=
  concat (map merkle_item items) ++ be_bytes 8 (Z.of_nat (length items)).

Lemma merkle_fold items input count :
  0 <= count -> count + Z.of_nat (length items) <= U64_MAX ->
  fold_left (fun '(input, count) item => (input ++ merkle_item item, wrap64 (count + 1)))
    items (input, count) =
  (input ++ concat (map merkle_item items), count + Z.of_nat (length items)).
Proof.
  revert input count. induction items as [|i items IH]; intros input count Hc Hl; simpl.
  - rewrite app_nil_r. f_equal. lia.
  - simpl length in Hl. rewrite wrap64_small by (ints; lia). rewrite IH by lia.
    rewrite <- app_assoc. f_equal. lia.
Qed.

Lemma merkle_like_root_eq {D : Digests} items :
  fits items ->
  merkle_like_root items = if bool_decide (items = []) then HASH_ZERO else sha256 (merkle_preimage items).
Proof.
  intros Hf. unfold merkle_like_root, merkle_preimage. unfold fits in Hf.
  rewrite merkle_fold by (lia || done). simpl.
  case_bool_decide as He.
  - by subst.
  - destruct items as [|i items]; [done|].
    destruct (Z.eqb_spec (Z.of_nat (length (i :: items))) 0) as [E|E]; [simpl in E; lia|done].
Qed.

Lemma merkle_preimage_inj l1 l2 :
  fits l1 -> fits l2 -> Forall fits l1 -> Forall fits l2 ->
  merkle_preimage l1 = merkle_preimage l2 -> l1 = l2.
Proof.
  intros H1 H2 F1 F2 E. unfold merkle_preimage in E.
  apply app_inj_2 in E as [Ec El]; [|by rewrite !length_be_bytes].
  apply be_bytes_u64_inj in El; [|auto with blq_arith..].
  rewrite <- (app_nil_r (concat _)), <- (app_nil_r (concat (map _ l2))) in Ec.
  eapply (pinj_concat (fun l : list byte => fits l) merkle_item) in Ec as [-> _]; auto; [|lia].
  apply pinj_enc_bytes.
Qed.

(** The items of a root, each an encoding [enc] of a value. *)
Lemma merkle_map_inj {A} (P : A -> Prop) (R : A -> A -> Prop) (enc : A -> list byte) l1 l2 :
  (forall a b, P a -> P b -> enc a = enc b -> R a b) ->
  (forall a, P a -> fits (enc a)) ->
  Forall P l1 -> Forall P l2 -> fits l1 -> fits l2 ->
  merkle_preimage (map enc l1) = merkle_preimage (map enc l2) -> Forall2 R l1 l2.
Proof.
  intros He Hf P1 P2 F1 F2 E.
  apply merkle_preimage_inj in E.
  - revert l2 P2 E F1 F2. induction P1 as [|a l1 Ha P1 IH]; intros [|b l2] P2 E F1 F2;
      try done.
    inversion P2; subst. simpl in E. apply cons_inj in E as [E1 E].
    constructor; [by apply He|]. apply IH; [done..| |]; unfold fits in *; simpl in *; lia.
  - unfold fits in *. by rewrite length_map.
  - unfold fits in *. by rewrite length_map.
  - rewrite Forall_map. eapply List.Forall_impl, P1. done.
  - rewrite Forall_map. eapply List.Forall_impl, P2. done.
Qed.

(** ** Properties *)

(** Two well-formed transactions have the same canonical bytes exactly
    when they agree on every field the encoding writes: all of them except the
    external hash, and except the transaction type when neither has an access
    list and neither is of type 1 (so a legacy and a type-2 transaction with
    equal fields share one hash). *)
Theorem tx_canonical_bytes_commit t1 t2 :
  wf_tx t1 -> wf_tx t2 ->
  tx_canonical_bytes t1 = tx_canonical_bytes t2 <-> tx_canonical_eq t1 t2.
Proof.
  intros H1 H2. split; [by apply tx_canonical_bytes_det|apply tx_canonical_eq_bytes].
Qed.

(** The canonical bytes of a header determine the header, and the
    proof-of-work preimage determines every field but the mix hash. *)
Theorem header_bytes_commit h1 h2 :
  wf_header h1 -> wf_header h2 ->
  (header_canonical_bytes h1 = header_canonical_bytes h2 -> h1 = h2) /\
  (pow_preimage_bytes h1 = pow_preimage_bytes h2 ->
   hdr_mix_hash h1 = hdr_mix_hash h2 -> h1 = h2).
Proof.
  intros H1 H2. split; [by apply header_canonical_bytes_det|].
  intros E Em. rewrite !pow_preimage_bytes_eq in E.
  apply enc_header_head_inj in E as [E H]; [|done..].
  apply H; [done|]. by apply be_bytes_u64_inj in E; [|apply H1|apply H2].
Qed.

(** The transactions and receipts roots of two block bodies are digests
    of messages that are equal only when the receipts are equal one by one and
    the transactions agree one by one on what the encoding writes; an empty
    list has the zero root. *)
Theorem roots_commit {D : Digests} ts1 ts2 rs1 rs2 :
  let wt t := wf_tx t /\ fits (tx_canonical_bytes t) in
  let wr r := wf_receipt r /\ fits (receipt_canonical_bytes r) in
  Forall wt ts1 -> Forall wt ts2 -> fits ts1 -> fits ts2 ->
  Forall wr rs1 -> Forall wr rs2 -> fits rs1 -> fits rs2 ->
  transactions_root ts1 =
    (if bool_decide (ts1 = []) then HASH_ZERO
     else sha256 (merkle_preimage (map tx_canonical_bytes ts1))) /\
  receipts_root rs1 =
    (if bool_decide (rs1 = []) then HASH_ZERO
     else sha256 (merkle_preimage (map receipt_canonical_bytes rs1))) /\
  (merkle_preimage (map tx_canonical_bytes ts1) = merkle_preimage (map tx_canonical_bytes ts2) ->
   Forall2 tx_canonical_eq ts1 ts2) /\
  (merkle_preimage (map receipt_canonical_bytes rs1) =
     merkle_preimage (map receipt_canonical_bytes rs2) -> rs1 = rs2).
Proof.
  intros wt wr T1 T2 FT1 FT2 R1 R2 FR1 FR2.
  unfold transactions_root, receipts_root.
  rewrite !merkle_like_root_eq by (unfold fits in *; rewrite length_map; done).
  split; [by destruct ts1|]. split; [by destruct rs1|]. split; intros E.
  - apply (merkle_map_inj wt tx_canonical_eq tx_canonical_bytes); try done.
    + intros a b [] []. by apply tx_canonical_bytes_det.
    + by intros a [].
  - apply list_eq_Forall2. apply (merkle_map_inj wr eq receipt_canonical_bytes); try done.
    + intros a b [] []. by apply receipt_canonical_bytes_det.
    + by intros a [].
Qed.

Section text.
Context {HX : HexCodec}.

(** A hexadecimal text never starts with [0x]. *)
Lemma hex_no_prefix b : strip_prefix (B "0x") (hex_encode b) = None.
Proof.
  destruct (strip_prefix _ _) as [t|] eqn:E; [|done]. apply strip_prefix_Some in E.
  pose proof (hex_encode_digits b) as Hd. rewrite E in Hd. simpl in Hd.
  inversion Hd as [|? ? _ Hd']; subst. inversion Hd' as [|? ? Hx _]; subst.
  vm_compute in Hx. done.
Qed.

Lemma fixed_from_hex_raw (n : Z) (b : list byte) :
  Z.of_nat (length b) = n -> fixed_from_hex n (hex_encode b) = Ok b.
Proof.
  intros <-. unfold fixed_from_hex. rewrite hex_no_prefix. simpl.
  rewrite hex_decode_encode. simpl. by rewrite Z.eqb_refl.
Qed.

Lemma fixed_from_hex_0x (n : Z) (b : list byte) :
  Z.of_nat (length b) = n -> fixed_from_hex n (B "0x" ++ hex_encode b) = Ok b.
Proof.
  intros <-. unfold fixed_from_hex. rewrite strip_prefix_app. simpl.
  rewrite hex_decode_encode. simpl. by rewrite Z.eqb_refl.
Qed.

Lemma fixed_from_hex_not_InvalidLength n s : fixed_from_hex n s <> Err (InvalidLength n).
Proof.
  unfold fixed_from_hex. destruct (hex_decode _) as [b|]; simpl; [|done].
  destruct (Z.eqb_spec (Z.of_nat (length b)) n); simpl; [done|]. congruence.
Qed.

Lemma fixed_from_hex_total n s : fixed_from_hex n s <> Panic.
Proof. unfold fixed_from_hex. destruct (hex_decode _); simpl; [|done]. by case_match. Qed.

(** The text forms read back: a hash from its hexadecimal form, an
    address from its [0x] form and from the 32-byte word it is padded to, an
    amount from its decimal form. *)
Theorem text_roundtrip (h : Hash256) (a : Address) (b : Bix) :
  wf_hash h -> wf_address a -> in_u128 b ->
  hash_from_hex (hash_to_hex h) = Ok h /\
  address_visit_str (address_to_hex a) = Ok a /\
  address_visit_seq a = Ok a /\
  address_visit_seq (address_to_word a) = Ok a /\
  bix_visit_str (bix_serialize b) = Some b.
Proof.
  intros Hh Ha Hb. unfold wf_hash, wf_address in *. split; [|split; [|split; [|split]]].
  - apply fixed_from_hex_raw. by rewrite Hh.
  - unfold address_visit_str, address_from_hex, address_to_hex.
    rewrite fixed_from_hex_0x by (by rewrite Ha). done.
  - unfold address_visit_seq. by rewrite Ha.
  - unfold address_visit_seq, address_to_word. rewrite length_app, length_replicate, Ha. simpl.
    done.
  - apply parse_dec_string; ints; lia.
Qed.

(** Parsing a beneficiary never reaches its [unreachable!]: it yields a
    32-byte word (the padded address, or the 32-byte word itself) or an error
    value. *)
Theorem parse_beneficiary_total (value : list byte) :
  parse_beneficiary value <> Panic /\
  (forall w, parse_beneficiary value = Ok w -> wf_hash w).
Proof.
  unfold parse_beneficiary, address_from_hex, hash_from_hex.
  pose proof (fixed_from_hex_not_InvalidLength 20 value) as H20.
  pose proof (fixed_from_hex_total 20 value) as Ht.
  assert (forall n w, fixed_from_hex n value = Ok w -> Z.of_nat (length w) = n) as Hlen.
  { intros n w. unfold fixed_from_hex. destruct (hex_decode _) as [b|]; simpl; [|done].
    destruct (Z.eqb_spec (Z.of_nat (length b)) n); simpl; [|done]. by intros [= <-]. }
  destruct (fixed_from_hex 20 value) as [a|e|] eqn:E; [| |done].
  - split; [done|]. intros w [= <-]. apply Hlen in E.
    unfold wf_hash, address_to_word. rewrite length_app, length_replicate. lia.
  - assert (forall w, hash_from_hex value = Ok w -> wf_hash w) as Hw.
    { intros w Hw. apply Hlen in Hw. unfold wf_hash. lia. }
    pose proof (fixed_from_hex_total 32 value).
    destruct e as [|n]; [done|]. cases; done.
Qed.
End text.

(** ** Examples *)

(** A plain transfer that is legacy or of another type. *)
Definition sample_plain_tx (ty : Z) : Transaction := {|
  tx_chain_id := MAINNET_CHAIN_ID; tx_transaction_type := ty; tx_nonce := 3;
  tx_from := be_bytes 20 1; tx_to := Some (be_bytes 20 2); tx_value := 5;
  tx_gas_limit := 21000; tx_max_fee_per_gas := 7; tx_max_priority_fee_per_gas := 1;
  tx_payload := []; tx_access_list := []; tx_signature := None; tx_external_hash := None |}.

Lemma sample_plain_tx_wf ty : in_u8 ty -> wf_tx (sample_plain_tx ty).
Proof.
  intros Hty. split; cbn; try done; try (ints; lia); try (unfold fits; cbn; ints; lia).
  intros a [= <-]. apply length_be_bytes.
Qed.

Definition sample_receipt : Receipt := {|
  rc_transaction_hash := be_bytes 32 9; rc_success := true; rc_gas_used := 21000;
  rc_logs_root := HASH_ZERO; rc_logs := [] |}.

Lemma sample_receipt_wf : wf_receipt sample_receipt.
Proof.
  split; [apply length_be_bytes|]. split; [ints; cbn; lia|]. split; [reflexivity|].
  split; [apply List.Forall_nil|]. split; [vm_compute; discriminate|apply List.Forall_nil].
Qed.

Lemma tx_canonical_bytes_commit_witness :
  tx_canonical_bytes (sample_plain_tx 0) = tx_canonical_bytes (sample_plain_tx 2).
Proof.
  apply (tx_canonical_bytes_commit (sample_plain_tx 0) (sample_plain_tx 2)).
  - apply sample_plain_tx_wf. ints. lia.
  - apply sample_plain_tx_wf. ints. lia.
  - split; try reflexivity. right. split; [reflexivity|split; discriminate].
Defined.

Definition sample_nonce_header (nonce : Z) : BlockHeader := {|
  hdr_parent_hash := HASH_ZERO; hdr_number := 1; hdr_state_root := HASH_ZERO;
  hdr_transactions_root := HASH_ZERO; hdr_receipts_root := HASH_ZERO;
  hdr_beneficiary := HASH_ZERO; hdr_difficulty_target := GENESIS_DIFFICULTY_TARGET;
  hdr_base_fee_per_gas := 7; hdr_gas_limit := GENESIS_GAS_LIMIT; hdr_gas_used := 0;
  hdr_timestamp_seconds := 15; hdr_pow_algorithm := B "BLQ-RX/1"; hdr_pow_epoch := 0;
  hdr_extra_nonce := 0; hdr_mix_hash := HASH_ZERO; hdr_nonce := nonce |}.

Lemma sample_nonce_header_wf n : in_u64 n -> wf_header (sample_nonce_header n).
Proof.
  intros Hn. split; try exact Hn; try reflexivity; try (vm_compute; split; discriminate).
  vm_compute. discriminate.
Qed.

Lemma header_bytes_commit_witness :
  ~ pow_preimage_bytes (sample_nonce_header 1) = pow_preimage_bytes (sample_nonce_header 2).
Proof.
  assert (in_u64 1 /\ in_u64 2) as [H1 H2] by (vm_compute; split; split; discriminate).
  intros E.
  pose proof (proj2 (header_bytes_commit (sample_nonce_header 1) (sample_nonce_header 2)
    (sample_nonce_header_wf 1 H1) (sample_nonce_header_wf 2 H2)) E eq_refl) as H.
  discriminate H.
Defined.

Lemma roots_commit_witness :
  @transactions_root toy_digests [sample_plain_tx 2] =
    @sha256 toy_digests (merkle_preimage [tx_canonical_bytes (sample_plain_tx 2)]).
Proof.
  refine (proj1 (@roots_commit toy_digests [sample_plain_tx 2] [sample_plain_tx 2]
    [sample_receipt] [sample_receipt] _ _ _ _ _ _ _ _)).
  1, 2: apply List.Forall_cons; [split; [apply sample_plain_tx_wf; ints; lia|vm_compute; discriminate]
    |apply List.Forall_nil].
  1, 2, 5, 6: vm_compute; discriminate.
  all: apply List.Forall_cons; [split; [apply sample_receipt_wf|vm_compute; discriminate]
    |apply List.Forall_nil].
Defined.

Lemma text_roundtrip_witness :
  @bix_visit_str (bix_serialize 1000) = Some 1000 /\
  @hash_from_hex hex_codec (@hash_to_hex hex_codec HASH_ZERO) = Ok HASH_ZERO.
Proof.
  destruct (@text_roundtrip hex_codec HASH_ZERO (be_bytes 20 1) 1000) as (H1 & _ & _ & _ & H2).
  - reflexivity.
  - apply length_be_bytes.
  - vm_compute. split; discriminate.
  - split; [exact H2|exact H1].
Defined.

Lemma parse_beneficiary_total_witness :
  exists w, @parse_beneficiary hex_codec (B "0x00000000000000000000000000000000000000aa") = Ok w /\
    wf_hash w.
Proof.
  exists (replicate 31 x00 ++ [xaa]). split; [reflexivity|].
  exact (proj2 (@parse_beneficiary_total hex_codec (B "0x00000000000000000000000000000000000000aa"))
    (replicate 31 x00 ++ [xaa]) eq_refl).
Defined.
