(* ===== verification/Rlp.v ===== *)
(** RLP, twice as the repository has it: the EIP-1559 encoders of
    [crates/blq-primitives] (module [Eip1559]) and the encoders and decoders of
    [crates/blq-node] ([rlp_*], [decode_*_field]).

    A slice cursor [&mut &[u8]] is threaded as the input and the rest.  Errors
    carry the message of the source, without the values it interpolates. *)

From Stdlib Require Import ZArith Lia Strings.String Strings.Byte.
From stdpp Require Import gmap list base.
From S2P Require Import Prelude Externals Primitives Canonical.
#[local] Open Scope Z_scope.

(** ** Encoding *)

(** The loop that collects the bytes of a length, least significant first.  A
    [usize] has eight bytes, so eight rounds reach zero. *)
Fixpoint rlp_len_bytes (fuel : nat) (value : Z) : list byte :=
  match fuel with
  | O => []
  | S fuel' =>
      if 0 <? value then as_u8 (Z.land value 255) :: rlp_len_bytes fuel' (Z.shiftr value 8)
      else []
  end.

Definition rlp_encode_header (offset : Z) (len : Z) (out : list byte) : list byte :=
  if len <? 56 then push out (as_u8 (offset + len))
  else
    let len_bytes := reverse (rlp_len_bytes 8 len) in
    let out := push out (as_u8 (offset + 55 + Z.of_nat (length len_bytes))) in
    out ++ len_bytes.

Definition rlp_encode_list_payload (payload out : list byte) : list byte :=
  rlp_encode_header 192 (Z.of_nat (length payload)) out ++ payload.

Definition encode_typed_rlp (transaction_type : Z) (payload : list byte) : list byte :=
  rlp_encode_list_payload payload [as_u8 transaction_type].

Definition encode_rlp_list (fields : list (list byte)) : list byte :=
  rlp_encode_list_payload (concat fields) [].

Definition rlp_encode_bytes (bs : list byte) : list byte :=
  match bs with
  | [b] => if u8_val b <? 128 then [b] else rlp_encode_header 128 1 [] ++ [b]
  | _ => rlp_encode_header 128 (Z.of_nat (length bs)) [] ++ bs
  end.

Definition nonzero (b : byte) : bool := negb (u8_val b =? 0).

Definition rlp_encode_u64 (value : Z) : list byte :=
  if value =? 0 then rlp_encode_bytes []
  else
    let bs := be_bytes 8 value in
    let first := default 7%nat (position nonzero bs) in
    rlp_encode_bytes (drop first bs).

Definition rlp_encode_u128 (value : Z) : list byte :=
  if value =? 0 then rlp_encode_bytes []
  else
    let bs := be_bytes 16 value in
    let first := default 15%nat (position nonzero bs) in
    rlp_encode_bytes (drop first bs).

Definition rlp_encode_word (value : list byte) : list byte :=
  let first := default 31%nat (position nonzero value) in
  if forallb (fun b => u8_val b =? 0) value then rlp_encode_bytes []
  else rlp_encode_bytes (drop first value).

Definition encode_access_list (access_list : list TransactionAccessListItem) : list byte :=
  let entries := map (fun item =>
    let keys := encode_rlp_list (map rlp_encode_bytes (al_storage_keys item)) in
    encode_rlp_list [rlp_encode_bytes (al_address item); keys]) access_list in
  encode_rlp_list entries.

(** The copies in [blq-primitives]. *)
Module Eip1559.

Fixpoint header_len_bytes (fuel : nat) (value : Z) : list byte :=
  match fuel with
  | O => []
  | S fuel' =>
      if 0 <? value then as_u8 (Z.land value 255) :: header_len_bytes fuel' (Z.shiftr value 8)
      else []
  end.

Definition eip1559_rlp_header (offset : Z) (len : Z) (out : list byte) : list byte :=
  if len <? 56 then push out (as_u8 (offset + len))
  else
    let len_bytes := reverse (header_len_bytes 8 len) in
    push out (as_u8 (offset + 55 + Z.of_nat (length len_bytes))) ++ len_bytes.

Definition eip1559_rlp_list_payload (payload out : list byte) : list byte :=
  eip1559_rlp_header 192 (Z.of_nat (length payload)) out ++ payload.

Definition eip1559_rlp_list (fields : list (list byte)) : list byte :=
  eip1559_rlp_list_payload (concat fields) [].

Definition eip1559_typed_rlp (payload : list byte) : list byte :=
  eip1559_rlp_list_payload payload [x02].

Definition eip1559_rlp_bytes (bs : list byte) : list byte :=
  match bs with
  | [b] => if u8_val b <? 128 then [b] else eip1559_rlp_header 128 1 [] ++ [b]
  | _ => eip1559_rlp_header 128 (Z.of_nat (length bs)) [] ++ bs
  end.

Definition eip1559_rlp_u64 (value : Z) : list byte :=
  if value =? 0 then eip1559_rlp_bytes []
  else
    let bs := be_bytes 8 value in
    let first := default 7%nat (position nonzero bs) in
    eip1559_rlp_bytes (drop first bs).

Definition eip1559_rlp_u128 (value : Z) : list byte :=
  if value =? 0 then eip1559_rlp_bytes []
  else
    let bs := be_bytes 16 value in
    let first := default 15%nat (position nonzero bs) in
    eip1559_rlp_bytes (drop first bs).

Definition eip1559_rlp_word (value : list byte) : list byte :=
  if forallb (fun b => u8_val b =? 0) value then eip1559_rlp_bytes []
  else
    let first := default 31%nat (position nonzero value) in
    eip1559_rlp_bytes (drop first value).

Definition eip1559_encode_access_list (access_list : list TransactionAccessListItem) : list byte :=
  let entries := map (fun item =>
    let keys := eip1559_rlp_list (map eip1559_rlp_bytes (al_storage_keys item)) in
    eip1559_rlp_list [eip1559_rlp_bytes (al_address item); keys]) access_list in
  eip1559_rlp_list entries.

Definition signing_fields (t : Transaction) : list (list byte) :=
  let recipient := default [] (tx_to t) in
  [eip1559_rlp_u64 (tx_chain_id t);
   eip1559_rlp_u64 (tx_nonce t);
   eip1559_rlp_u128 (tx_max_priority_fee_per_gas t);
   eip1559_rlp_u128 (tx_max_fee_per_gas t);
   eip1559_rlp_u64 (tx_gas_limit t);
   eip1559_rlp_bytes recipient;
   eip1559_rlp_u128 (tx_value t);
   eip1559_rlp_bytes (tx_payload t);
   eip1559_encode_access_list (tx_access_list t)].

Definition eip1559_signing_payload (t : Transaction) : res string (list byte) :=
  if negb (tx_transaction_type t =? 2) then Err "expected EIP-1559 transaction type 2"%string
  else Ok (eip1559_typed_rlp (concat (signing_fields t))).

Definition eip1559_signed_bytes (t : Transaction) : res string (list byte) :=
  if negb (tx_transaction_type t =? 2) then Err "expected EIP-1559 transaction type 2"%string
  else
    let? signature := ok_or (tx_signature t) "EIP-1559 transaction requires a signature"%string in
    Ok (eip1559_typed_rlp (concat (signing_fields t ++
      [eip1559_rlp_u64 (Z.b2z (sig_y_parity signature));
       eip1559_rlp_word (sig_r signature);
       eip1559_rlp_word (sig_s signature)]))).

End Eip1559.

(** ** Decoding *)

Definition rlp_decode_length (input : list byte) (len_of_len : Z) : res string (Z * list byte) :=
  if (len_of_len =? 0) || (8 <? len_of_len) || (Z.of_nat (length input) <? len_of_len)
  then Err "invalid RLP length"%string
  else
    let n := Z.to_nat len_of_len in
    let len_bytes := take n input in
    let rest := drop n input in
    let? len := fold_left (fun acc b =>
        let? len := acc in
        ok_or (m ← checked_mul U64_MAX len 256; checked_add U64_MAX m (u8_val b))
          "RLP length overflow"%string)
      len_bytes (Ok 0) in
    Ok (len, rest).

(** A payload of [len] bytes at the front of [rest]. *)
Definition rlp_payload (list_item : bool) (short : string) (len : Z) (rest : list byte)
    : res string ((bool * list byte) * list byte) :=
  if Z.of_nat (length rest) <? len then Err short
  else Ok ((list_item, take (Z.to_nat len) rest), drop (Z.to_nat len) rest).

Definition rlp_take_item (input : list byte) : res string ((bool * list byte) * list byte) :=
  match input with
  | [] => Err "unexpected end of RLP input"%string
  | prefix :: rest =>
      let p := u8_val prefix in
      if p <=? 127 then Ok ((false, [prefix]), rest)
      else if p <=? 183 then rlp_payload false "short RLP string" (p - 128) rest
      else if p <=? 191 then
        let? (len, after_len) := rlp_decode_length rest (p - 183) in
        rlp_payload false "short RLP long string" len after_len
      else if p <=? 247 then rlp_payload true "short RLP list" (p - 192) rest
      else
        let? (len, after_len) := rlp_decode_length rest (p - 247) in
        rlp_payload true "short RLP long list" len after_len
  end.

Definition rlp_take_raw (input : list byte) : res string (list byte * list byte) :=
  let? (_, rest) := rlp_take_item input in
  let consumed := (length input - length rest)%nat in
  Ok (take consumed input, rest).

Definition rlp_take_bytes (input : list byte) : res string (list byte * list byte) :=
  let? ((list_item, payload), rest) := rlp_take_item input in
  if list_item then Err "expected RLP bytes"%string else Ok (payload, rest).

Definition rlp_take_u128 (input : list byte) : res string (Z * list byte) :=
  let? (bs, rest) := rlp_take_bytes input in
  if 16 <? Z.of_nat (length bs) then Err "integer does not fit in u128"%string
  else if (1 <? Z.of_nat (length bs)) && bool_decide (head bs = Some x00)
  then Err "non-canonical RLP integer encoding"%string
  else Ok (fold_left (fun value b => Z.lor (wrap128 (Z.shiftl value 8)) (u8_val b)) bs 0, rest).

Definition rlp_take_u64 (input : list byte) : res string (Z * list byte) :=
  let? (value, rest) := rlp_take_u128 input in
  if value <=? U64_MAX then Ok (value, rest)
  else Err "out of range integral type conversion attempted"%string.

Definition rlp_take_word (input : list byte) : res string (list byte * list byte) :=
  let? (bs, rest) := rlp_take_bytes input in
  if 32 <? Z.of_nat (length bs) then Err "signature scalar is longer than 32 bytes"%string
  else Ok (replicate (32 - length bs) x00 ++ bs, rest).

Definition rlp_take_optional_address (input : list byte) : res string (option Address * list byte) :=
  let? (bs, rest) := rlp_take_bytes input in
  match bs with
  | [] => Ok (None, rest)
  | _ =>
      if negb (Z.of_nat (length bs) =? 20)
      then Err "transaction recipient must be empty or 20 bytes"%string
      else Ok (Some bs, rest)
  end.

Definition decode_rlp_list (bs : list byte) : res string (list byte) :=
  let? ((list_item, payload), rest) := rlp_take_item bs in
  if negb (bool_decide (rest = [])) then Err "raw transaction has trailing bytes"%string
  else if negb list_item then Err "raw transaction payload must be an RLP list"%string
  else Ok payload.

(** A field that must be consumed whole. *)
Definition whole {A} (err : string) (m : res string (A * list byte)) : res string A :=
  let? (a, rest) := m in
  if negb (bool_decide (rest = [])) then Err err else Ok a.

Definition decode_bytes_field (field : list byte) : res string (list byte) :=
  whole "RLP field has trailing bytes" (rlp_take_bytes field).
Definition decode_u64_field (field : list byte) : res string Z :=
  whole "RLP integer field has trailing bytes" (rlp_take_u64 field).
Definition decode_u128_field (field : list byte) : res string Z :=
  whole "RLP integer field has trailing bytes" (rlp_take_u128 field).

(** [rlp_decode_access_list].  Each round of the two loops consumes at least one
    byte, so the length of the input bounds the rounds; running out of fuel is
    a [Panic] that [rlp_decode_access_list_no_panic] excludes. *)
Fixpoint rlp_decode_keys (fuel : nat) (total : Z) (storage_keys : list Hash256) (keys : list byte)
    : res string (list Hash256 * Z) :=
  match fuel with
  | O => Panic
  | S fuel' =>
      match keys with
      | [] => Ok (storage_keys, total)
      | _ =>
          if (MAX_ACCESS_LIST_STORAGE_KEYS_PER_ENTRY <=? Z.of_nat (length storage_keys))
             || (MAX_ACCESS_LIST_STORAGE_KEYS <=? total)
          then Err "transaction access list exceeds the maximum size"%string
          else
            let? (key, keys) := rlp_take_bytes keys in
            if negb (Z.of_nat (length key) =? 32)
            then Err "access-list storage key must be 32 bytes"%string
            else rlp_decode_keys fuel' (total + 1) (storage_keys ++ [key]) keys
      end
  end.

Fixpoint rlp_decode_entries (fuel : nat) (total : Z) (access_list : list TransactionAccessListItem)
    (entries : list byte) : res string (list TransactionAccessListItem) :=
  match fuel with
  | O => Panic
  | S fuel' =>
      match entries with
      | [] => Ok access_list
      | _ =>
          if MAX_ACCESS_LIST_ENTRIES <=? Z.of_nat (length access_list)
          then Err "transaction access list exceeds the maximum size"%string
          else
            let? (entry, entries) := rlp_take_raw entries in
            let? entry_payload := decode_rlp_list entry in
            let? (address, entry_payload) := rlp_take_bytes entry_payload in
            if negb (Z.of_nat (length address) =? 20)
            then Err "access-list address must be 20 bytes"%string
            else
              let? ((storage_list, keys), entry_payload) := rlp_take_item entry_payload in
              if negb storage_list || negb (bool_decide (entry_payload = []))
              then Err "invalid access-list storage keys"%string
              else
                let? (storage_keys, total) := rlp_decode_keys (S (length keys)) total [] keys in
                rlp_decode_entries fuel' total
                  (access_list ++ [{| al_address := address; al_storage_keys := storage_keys |}])
                  entries
      end
  end.

Definition rlp_decode_access_list (input : list byte)
    : res string (list TransactionAccessListItem * list byte) :=
  let? ((list_item, entries), rest) := rlp_take_item input in
  if negb list_item then Err "access list must be an RLP list"%string
  else
    let? access_list := rlp_decode_entries (S (length entries)) 0 [] entries in
    Ok (access_list, rest).

(** ** Lengths and headers *)

#[global] Arguments rlp_len_bytes : simpl never.

Lemma rlp_len_bytes_spec fuel v :
  0 <= v < 256 ^ Z.of_nat fuel ->
  be_val (reverse (rlp_len_bytes fuel v)) = v /\ (length (rlp_len_bytes fuel v) <= fuel)%nat /\
  (0 < v -> (1 <= length (rlp_len_bytes fuel v))%nat).
Proof.
  revert v. induction fuel as [|fuel IH]; intros v Hv.
  - change (256 ^ Z.of_nat 0) with 1 in Hv. replace v with 0 by lia.
    split; [done|]. split; [apply Nat.le_0_l|lia].
  - replace (Z.of_nat (S fuel)) with (1 + Z.of_nat fuel) in Hv by lia.
    rewrite Z.pow_add_r in Hv by lia. change (256 ^ 1) with 256 in Hv.
    cbv fix delta [rlp_len_bytes]. cbv match beta. fold rlp_len_bytes. destruct (Z.ltb_spec 0 v).
    + rewrite shiftr_8, land_255. destruct (IH (v / 256)) as (IH1 & IH2 & _); [dlia|].
      rewrite reverse_cons, be_val_snoc, IH1, u8_val_as_u8. simpl length.
      split; [dlia|]. split; [lia|]. lia.
    + assert (v = 0) as -> by lia. split; [done|]. simpl. lia.
Qed.

Lemma checked_fold_be_val l a :
  0 <= a -> a * 256 ^ Z.of_nat (length l) + be_val l <= U64_MAX ->
  fold_left (fun acc b =>
      let? len := acc in
      ok_or (m ← checked_mul U64_MAX len 256; checked_add U64_MAX m (u8_val b))
        "RLP length overflow"%string) l (Ok a) =
  Ok (a * 256 ^ Z.of_nat (length l) + be_val l).
Proof.
  revert a. induction l as [|b l IH]; intros a Ha Hb; cbn [fold_left].
  - rewrite be_val_nil in *. simpl. f_equal. lia.
  - rewrite be_val_cons in *.
    replace (Z.of_nat (length (b :: l))) with (1 + Z.of_nat (length l)) in * by (simpl length; lia).
    rewrite Z.pow_add_r in * by lia. change (256 ^ 1) with 256 in *.
    pose proof (u8_val_range b). pose proof (be_val_range l).
    set (M := 256 ^ Z.of_nat (length l)) in *.
    assert (0 < M) by (unfold M; lia).
    assert (a * 256 + u8_val b <= U64_MAX) by nia.
    unfold checked_mul at 2. simpl. replace (a * 256 <=? U64_MAX) with true by lia.
    simpl. unfold checked_add at 2. replace (a * 256 + u8_val b <=? U64_MAX) with true by lia.
    simpl. rewrite IH; [f_equal; lia|lia|lia].
Qed.

Lemma rlp_decode_length_app (lb rest : list byte) :
  (1 <= length lb <= 8)%nat ->
  rlp_decode_length (lb ++ rest) (Z.of_nat (length lb)) = Ok (be_val lb, rest).
Proof.
  intros Hl. unfold rlp_decode_length. rewrite length_app.
  if_false.
  rewrite Nat2Z.id, take_app_length, drop_app_length.
  pose proof (be_val_range lb) as Hr.
  assert (256 ^ Z.of_nat (length lb) <= 256 ^ 8) by (apply Z.pow_le_mono_r; lia).
  rewrite checked_fold_be_val; simpl; [done|lia|].
  change (256 ^ 8) with (U64_MAX + 1) in *. lia.
Qed.

Lemma rlp_payload_app tag err (payload rest : list byte) :
  rlp_payload tag err (Z.of_nat (length payload)) (payload ++ rest) = Ok ((tag, payload), rest).
Proof.
  unfold rlp_payload. rewrite length_app. if_false.
  by rewrite Nat2Z.id, take_app_length, drop_app_length.
Qed.

Lemma rlp_header_out offset len out :
  rlp_encode_header offset len out = out ++ rlp_encode_header offset len [].
Proof. unfold rlp_encode_header, push. destruct (len <? 56); [done|]. by rewrite <- app_assoc. Qed.

(** A header followed by its payload is read back, for byte strings ([tag]
    false, offset 0x80) and for lists (offset 0xc0). *)
Lemma rlp_take_item_header (tag : bool) (payload rest : list byte) :
  fits payload ->
  rlp_take_item (rlp_encode_header (if tag then 192 else 128) (Z.of_nat (length payload)) [] ++
    payload ++ rest) = Ok ((tag, payload), rest).
Proof.
  intros Hf. unfold fits in Hf. unfold rlp_encode_header, push.
  set (off := if tag then 192 else 128).
  assert (off = 192 \/ off = 128) as Hoff by (destruct tag; auto).
  destruct (Z.ltb_spec (Z.of_nat (length payload)) 56) as [Hs|Hs]; cbn [app].
  - unfold rlp_take_item. rewrite u8_val_as_u8_small by lia.
    destruct tag; unfold off in *.
    + if_false. if_false.
      if_false. if_true.
      replace (192 + Z.of_nat (length payload) - 192) with (Z.of_nat (length payload)) by lia.
      apply rlp_payload_app.
    + if_false. if_true.
      replace (128 + Z.of_nat (length payload) - 128) with (Z.of_nat (length payload)) by lia.
      apply rlp_payload_app.
  - destruct (rlp_len_bytes_spec 8 (Z.of_nat (length payload))) as (Hv & Hl8 & Hl1).
    { change (256 ^ Z.of_nat 8) with (U64_MAX + 1). lia. }
    specialize (Hl1 ltac:(lia)).
    set (lb := reverse (rlp_len_bytes 8 (Z.of_nat (length payload)))) in *.
    assert (1 <= length lb <= 8)%nat as Hlb by (unfold lb; rewrite length_reverse; lia).
    unfold rlp_take_item. rewrite u8_val_as_u8_small by lia.
    destruct tag; unfold off in *.
    + if_false. if_false.
      if_false. if_false.
      replace (192 + 55 + Z.of_nat (length lb) - 247) with (Z.of_nat (length lb)) by lia.
      rewrite rlp_decode_length_app by lia. simpl. rewrite Hv. apply rlp_payload_app.
    + if_false. if_false.
      if_true.
      replace (128 + 55 + Z.of_nat (length lb) - 183) with (Z.of_nat (length lb)) by lia.
      rewrite rlp_decode_length_app by lia. simpl. rewrite Hv. apply rlp_payload_app.
Qed.

Lemma rlp_take_item_bytes (bs rest : list byte) :
  fits bs -> rlp_take_item (rlp_encode_bytes bs ++ rest) = Ok ((false, bs), rest).
Proof.
  intros Hf. destruct bs as [|b [|c bs]].
  - apply (rlp_take_item_header false [] rest Hf).
  - unfold rlp_encode_bytes. destruct (Z.ltb_spec (u8_val b) 128).
    + simpl. replace (u8_val b <=? 127) with true by lia. done.
    + rewrite <- app_assoc. apply (rlp_take_item_header false [b] rest Hf).
  - unfold rlp_encode_bytes. rewrite <- app_assoc.
    apply (rlp_take_item_header false (b :: c :: bs) rest Hf).
Qed.

Lemma rlp_take_item_list (payload rest : list byte) :
  fits payload ->
  rlp_take_item (rlp_encode_list_payload payload [] ++ rest) = Ok ((true, payload), rest).
Proof.
  intros. unfold rlp_encode_list_payload. rewrite <- app_assoc. by apply (rlp_take_item_header true).
Qed.

Lemma rlp_take_bytes_encode (bs rest : list byte) :
  fits bs -> rlp_take_bytes (rlp_encode_bytes bs ++ rest) = Ok (bs, rest).
Proof. intros. unfold rlp_take_bytes. by rewrite rlp_take_item_bytes. Qed.

(** ** Integers and words *)

Lemma lor_shift_add x b : 0 <= b < 256 -> Z.lor (Z.shiftl x 8) b = x * 256 + b.
Proof.
  intros Hb. assert (Z.land (Z.shiftl x 8) b = 0) as Hl.
  { apply Z.bits_inj'. intros n Hn. rewrite Z.land_spec, Z.bits_0.
    destruct (Z.lt_ge_cases n 8).
    - by rewrite Z.shiftl_spec_low.
    - replace b with (b mod 2 ^ 8) by (apply Z.mod_small; lia).
      rewrite Z.mod_pow2_bits_high by lia. apply andb_false_r. }
  rewrite <- Z.lxor_lor, <- Z.add_nocarry_lxor by done. by rewrite shiftl_8.
Qed.

Lemma lor_fold_be_val l a :
  0 <= a -> a * 256 ^ Z.of_nat (length l) + be_val l <= U128_MAX ->
  fold_left (fun value b => Z.lor (wrap128 (Z.shiftl value 8)) (u8_val b)) l a =
  a * 256 ^ Z.of_nat (length l) + be_val l.
Proof.
  revert a. induction l as [|b l IH]; intros a Ha Hb; cbn [fold_left].
  - rewrite be_val_nil in *. simpl. lia.
  - rewrite be_val_cons in *.
    replace (Z.of_nat (length (b :: l))) with (1 + Z.of_nat (length l)) in * by (simpl length; lia).
    rewrite Z.pow_add_r in * by lia. change (256 ^ 1) with 256 in *.
    pose proof (u8_val_range b). pose proof (be_val_range l).
    set (M := 256 ^ Z.of_nat (length l)) in *. assert (0 < M) by (unfold M; lia).
    assert (a * 256 + u8_val b <= U128_MAX) by nia.
    rewrite wrap128_small by (rewrite shiftl_8; ints; lia).
    rewrite lor_shift_add, IH by lia. lia.
Qed.

(** Removing the leading zero bytes. *)
Lemma trim_spec (k : nat) (l : list byte) :
  be_val l <> 0 ->
  let t := drop (default k (position nonzero l)) l in
  be_val t = be_val l /\ head t <> Some x00 /\ t <> [] /\ (length t <= length l)%nat /\
  l = replicate (length l - length t) x00 ++ t.
Proof.
  induction l as [|b l IH]; [done|]. intros Hv.
  cbn [position]. destruct (nonzero b) eqn:Hb.
  - simpl. rewrite Nat.sub_diag. simpl. repeat split; try done; try lia.
    intros [= ->]. vm_compute in Hb. done.
  - unfold nonzero in Hb. apply negb_false_iff, Z.eqb_eq in Hb.
    assert (b = x00) as -> by (apply u8_val_inj; by rewrite Hb).
    rewrite be_val_cons in *. rewrite Hb in *.
    destruct (IH ltac:(lia)) as (IH1 & IH2 & IH3 & IH4 & IH5).
    destruct (position nonzero l) as [p|] eqn:Hp; simpl in *.
    + split; [lia|]. split; [done|]. split; [done|]. split; [lia|].
      replace (S (length l) - length (drop p l))%nat with (S (length l - length (drop p l))) by lia.
      simpl. by f_equal.
    + exfalso. clear -Hp Hv Hb.
      assert (be_val l = 0); [|lia]. clear Hv. induction l as [|c l IHl]; [done|].
      simpl in Hp. destruct (nonzero c) eqn:Hc; [done|].
      unfold nonzero in Hc. apply negb_false_iff, Z.eqb_eq in Hc.
      rewrite be_val_cons, Hc, IHl; [lia|]. by destruct (position nonzero l).
Qed.

Lemma rlp_take_u128_bytes (bs rest : list byte) :
  (length bs <= 16)%nat -> (head bs <> Some x00 \/ length bs = 1%nat) ->
  rlp_take_u128 (rlp_encode_bytes bs ++ rest) = Ok (be_val bs, rest).
Proof.
  intros Hl Hh. unfold rlp_take_u128.
  rewrite rlp_take_bytes_encode by (unfold fits, U64_MAX; lia). simpl.
  replace (16 <? Z.of_nat (length bs)) with false by lia.
  replace ((1 <? Z.of_nat (length bs)) && bool_decide (head bs = Some x00)) with false.
  2: { destruct Hh as [Hh|Hh]; [by rewrite bool_decide_eq_false_2, andb_false_r|].
       replace (1 <? Z.of_nat (length bs)) with false by lia. done. }
  rewrite lor_fold_be_val; [f_equal|lia|].
  pose proof (be_val_range bs).
  assert (256 ^ Z.of_nat (length bs) <= 256 ^ 16) by (apply Z.pow_le_mono_r; lia).
  change (256 ^ 16) with (U128_MAX + 1) in *. lia.
Qed.

Lemma rlp_take_u128_encode v rest :
  in_u128 v -> rlp_take_u128 (rlp_encode_u128 v ++ rest) = Ok (v, rest).
Proof.
  intros Hv. unfold rlp_encode_u128. destruct (Z.eqb_spec v 0) as [->|Hn].
  - rewrite (rlp_take_u128_bytes [] rest) by (simpl; (lia || by left)). done.
  - pose proof (be_val_u128 v Hv) as Hb.
    destruct (trim_spec 15 (be_bytes 16 v) ltac:(by rewrite Hb)) as (T1 & T2 & T3 & T4 & _).
    rewrite length_be_bytes in T4. rewrite rlp_take_u128_bytes by auto. by rewrite T1, Hb.
Qed.

Lemma rlp_take_u64_encode v rest :
  in_u64 v -> rlp_take_u64 (rlp_encode_u64 v ++ rest) = Ok (v, rest).
Proof.
  intros Hv. unfold rlp_take_u64, rlp_encode_u64. destruct (Z.eqb_spec v 0) as [->|Hn].
  - rewrite (rlp_take_u128_bytes [] rest) by (simpl; (lia || by left)). done.
  - pose proof (be_val_u64 v Hv) as Hb.
    destruct (trim_spec 7 (be_bytes 8 v) ltac:(by rewrite Hb)) as (T1 & T2 & T3 & T4 & _).
    rewrite length_be_bytes in T4. rewrite rlp_take_u128_bytes by (lia || auto).
    rewrite T1, Hb. simpl. replace (v <=? U64_MAX) with true by (ints; lia). done.
Qed.

Lemma be_val_zeros n (l : list byte) : be_val (replicate n x00 ++ l) = be_val l.
Proof.
  induction n as [|n IH]; [done|]. cbn [replicate app]. rewrite be_val_cons, IH.
  change (u8_val x00) with 0. lia.
Qed.

Lemma forallb_zero_be_val (l : list byte) : forallb (fun b => u8_val b =? 0) l = true <-> be_val l = 0.
Proof.
  induction l as [|b l IH]; [done|]. cbn [forallb]. rewrite andb_true_iff, IH, be_val_cons.
  pose proof (be_val_range l). pose proof (u8_val_range b). rewrite Z.eqb_eq. nia.
Qed.

Lemma rlp_take_word_encode w rest :
  wf_hash w -> rlp_take_word (rlp_encode_word w ++ rest) = Ok (w, rest).
Proof.
  intros Hw. unfold wf_hash in Hw. unfold rlp_take_word, rlp_encode_word.
  destruct (forallb _ w) eqn:Hz.
  - rewrite rlp_take_bytes_encode by done. cbn [res_bind].
    change (32 <? Z.of_nat (length (@nil byte))) with false. cbn iota.
    f_equal. f_equal. apply forallb_zero_be_val in Hz. symmetry. apply be_val_inj.
    + by rewrite length_app, length_replicate, Hw.
    + by rewrite be_val_zeros, Hz.
  - assert (be_val w <> 0) as Hnz.
    { intros E. apply forallb_zero_be_val in E. congruence. }
    destruct (trim_spec 31 w Hnz) as (_ & _ & _ & Tl & Te).
    set (t := drop _ w) in *.
    rewrite rlp_take_bytes_encode by (unfold fits, U64_MAX; lia).
    cbn [res_bind]. if_false. by rewrite <- Hw, <- Te.
Qed.

Lemma rlp_take_optional_address_encode (to : option Address) rest :
  (forall a, to = Some a -> wf_address a) ->
  rlp_take_optional_address (rlp_encode_bytes (default [] to) ++ rest) = Ok (to, rest).
Proof.
  intros Ht. unfold rlp_take_optional_address. destruct to as [a|]; simpl default.
  - specialize (Ht a eq_refl). unfold wf_address in Ht.
    rewrite rlp_take_bytes_encode by (unfold fits, U64_MAX; lia). simpl.
    destruct a as [|x a]; [done|]. rewrite Ht. done.
  - by rewrite rlp_take_bytes_encode.
Qed.

(** ** Raw items and lists *)

Lemma rlp_take_raw_item (x rest : list byte) i :
  rlp_take_item (x ++ rest) = Ok (i, rest) -> rlp_take_raw (x ++ rest) = Ok (x, rest).
Proof.
  intros E. unfold rlp_take_raw. rewrite E. simpl. rewrite length_app.
  replace (length x + length rest - length rest)%nat with (length x) by lia.
  by rewrite take_app_length.
Qed.

Lemma decode_encode_rlp_list (fields : list (list byte)) :
  fits (concat fields) -> decode_rlp_list (encode_rlp_list fields) = Ok (concat fields).
Proof.
  intros Hf. unfold decode_rlp_list, encode_rlp_list.
  rewrite <- (app_nil_r (rlp_encode_list_payload _ _)), rlp_take_item_list by done. done.
Qed.

Lemma length_rlp_header off len : (length (rlp_encode_header off len []) <= 9)%nat.
Proof.
  unfold rlp_encode_header, push. destruct (len <? 56); [simpl; lia|].
  rewrite length_app, length_reverse. simpl.
  assert (forall f v, (length (rlp_len_bytes f v) <= f)%nat) as H.
  { induction f as [|f IH]; intros v; [done|].
    change (length (rlp_len_bytes (S f) v)) with
      (length (if 0 <? v then as_u8 (Z.land v 255) :: rlp_len_bytes f (Z.shiftr v 8) else [])).
    destruct (0 <? v); simpl; [specialize (IH (Z.shiftr v 8))|]; lia. }
  specialize (H 8%nat len). lia.
Qed.

Lemma length_rlp_encode_bytes bs : (length (rlp_encode_bytes bs) <= 9 + length bs)%nat.
Proof.
  pose proof (length_rlp_header 128 (Z.of_nat (length bs))).
  destruct bs as [|b [|c bs]]; unfold rlp_encode_bytes.
  - rewrite length_app. simpl in *. lia.
  - destruct (u8_val b <? 128); [simpl; lia|]. rewrite length_app.
    change (Z.of_nat (length [b])) with 1 in *. simpl in *. lia.
  - rewrite length_app. lia.
Qed.

Lemma length_rlp_list fields :
  (length (encode_rlp_list fields) <= 9 + length (concat fields))%nat.
Proof.
  unfold encode_rlp_list, rlp_encode_list_payload. rewrite length_app.
  pose proof (length_rlp_header 192 (Z.of_nat (length (concat fields)))). lia.
Qed.

Lemma length_concat_map_bound {A} (f : A -> list byte) (k : Z) l :
  Forall (fun a => Z.of_nat (length (f a)) <= k) l ->
  Z.of_nat (length (concat (map f l))) <= k * Z.of_nat (length l).
Proof.
  induction 1 as [|a l Ha Hl IH]; [simpl; lia|]. simpl. rewrite length_app. lia.
Qed.

(** ** Access lists *)

Definition total_keys (al : list TransactionAccessListItem) : Z :=
  sumZ (map (fun i => Z.of_nat (length (al_storage_keys i))) al).

Record access_item_ok (i : TransactionAccessListItem) : Prop := {
  item_address : wf_address (al_address i);
  item_keys : Forall wf_hash (al_storage_keys i);
  item_key_count : Z.of_nat (length (al_storage_keys i)) <= MAX_ACCESS_LIST_STORAGE_KEYS_PER_ENTRY;
}.

Record access_list_ok (al : list TransactionAccessListItem) : Prop := {
  access_items : Forall access_item_ok al;
  access_entries : Z.of_nat (length al) <= MAX_ACCESS_LIST_ENTRIES;
  access_total : total_keys al <= MAX_ACCESS_LIST_STORAGE_KEYS;
}.

Definition encode_item (item : TransactionAccessListItem) : list byte :=
  encode_rlp_list [rlp_encode_bytes (al_address item);
    encode_rlp_list (map rlp_encode_bytes (al_storage_keys item))].

Lemma encode_access_list_eq al : encode_access_list al = encode_rlp_list (map encode_item al).
Proof. done. Qed.

Lemma length_encode_keys keys :
  Forall wf_hash keys ->
  Z.of_nat (length (concat (map rlp_encode_bytes keys))) <= 41 * Z.of_nat (length keys).
Proof.
  intros H. apply length_concat_map_bound. eapply List.Forall_impl, H.
  intros k Hk. pose proof (length_rlp_encode_bytes k). unfold wf_hash in Hk. lia.
Qed.

Lemma length_item_payload i :
  access_item_ok i ->
  Z.of_nat (length (rlp_encode_bytes (al_address i) ++
     encode_rlp_list (map rlp_encode_bytes (al_storage_keys i)))) <= 42030.
Proof.
  intros [Ha Hk Hn]. rewrite length_app.
  pose proof (length_rlp_encode_bytes (al_address i)). unfold wf_address in Ha.
  pose proof (length_rlp_list (map rlp_encode_bytes (al_storage_keys i))).
  pose proof (length_encode_keys _ Hk). unfold MAX_ACCESS_LIST_STORAGE_KEYS_PER_ENTRY in Hn. lia.
Qed.

Lemma length_encode_item i : access_item_ok i -> Z.of_nat (length (encode_item i)) <= 42039.
Proof.
  intros H. pose proof (length_item_payload i H). unfold encode_item.
  pose proof (length_rlp_list [rlp_encode_bytes (al_address i);
    encode_rlp_list (map rlp_encode_bytes (al_storage_keys i))]) as Hl.
  cbn [concat] in Hl. rewrite app_nil_r in Hl. lia.
Qed.

Lemma rlp_encode_bytes_nonempty bs rest : exists b l, rlp_encode_bytes bs ++ rest = b :: l.
Proof.
  destruct (rlp_encode_bytes bs ++ rest) eqn:E; [exfalso|eauto].
  apply app_eq_nil in E as [E _]. revert E.
  destruct bs as [|b [|c bs]]; unfold rlp_encode_bytes; [| |].
  - by vm_compute.
  - destruct (u8_val b <? 128); [done|]. by intros [_ ?]%app_eq_nil.
  - by intros [_ ?]%app_eq_nil.
Qed.

Lemma encode_item_nonempty i rest : exists b l, encode_item i ++ rest = b :: l.
Proof.
  destruct (encode_item i ++ rest) eqn:E; [exfalso|eauto].
  apply app_eq_nil in E as [E _]. unfold encode_item, encode_rlp_list, rlp_encode_list_payload in E.
  apply app_eq_nil in E as [_ E]. cbn [concat] in E.
  apply app_eq_nil in E as [E _].
  destruct (rlp_encode_bytes_nonempty (al_address i) []) as (b & l & E').
  rewrite E in E'. done.
Qed.

Lemma rlp_decode_keys_encode fuel total done_keys keys :
  Forall wf_hash keys -> (length keys < fuel)%nat ->
  Z.of_nat (length (done_keys ++ keys)) <= MAX_ACCESS_LIST_STORAGE_KEYS_PER_ENTRY ->
  total + Z.of_nat (length keys) <= MAX_ACCESS_LIST_STORAGE_KEYS ->
  rlp_decode_keys fuel total done_keys (concat (map rlp_encode_bytes keys)) =
  Ok (done_keys ++ keys, total + Z.of_nat (length keys)).
Proof.
  intros Hk. revert fuel total done_keys.
  induction Hk as [|k keys Hk Hks IH]; intros fuel total dk Hf Hn Ht.
  - destruct fuel; [simpl in Hf; lia|]. simpl. rewrite app_nil_r. do 2 f_equal. lia.
  - destruct fuel as [|fuel]; [simpl in Hf; lia|]. cbn [map concat rlp_decode_keys].
    destruct (rlp_encode_bytes_nonempty k (concat (map rlp_encode_bytes keys))) as (b & l & E).
    rewrite E. rewrite <- E. rewrite length_app in Hn. simpl length in *.
    if_false. unfold wf_hash in Hk.
    rewrite rlp_take_bytes_encode by (unfold fits, U64_MAX; lia). cbn [res_bind].
    rewrite Hk. change (negb (Z.of_nat 32 =? 32)) with false. cbn iota.
    rewrite IH; rewrite ?length_app; simpl length; try lia.
    rewrite <- app_assoc. simpl. do 2 f_equal. lia.
Qed.

Lemma length_keys_le keys : (length keys <= length (concat (map rlp_encode_bytes keys)))%nat.
Proof.
  induction keys as [|k keys IH]; [done|]. simpl. rewrite length_app.
  destruct (rlp_encode_bytes_nonempty k []) as (b & l & E). rewrite app_nil_r in E.
  rewrite E. simpl. lia.
Qed.

Lemma length_items_le al : (length al <= length (concat (map encode_item al)))%nat.
Proof.
  induction al as [|i al IH]; [done|]. simpl. rewrite length_app.
  destruct (encode_item_nonempty i []) as (b & l & E). rewrite app_nil_r in E.
  rewrite E. simpl. lia.
Qed.

Lemma take_raw_list fields rest :
  fits (concat fields) ->
  rlp_take_raw (encode_rlp_list fields ++ rest) = Ok (encode_rlp_list fields, rest).
Proof. intros. eapply rlp_take_raw_item, rlp_take_item_list. done. Qed.

Lemma rlp_decode_entries_encode fuel total done_items al :
  Forall access_item_ok al -> (length al < fuel)%nat ->
  Z.of_nat (length (done_items ++ al)) <= MAX_ACCESS_LIST_ENTRIES ->
  total + total_keys al <= MAX_ACCESS_LIST_STORAGE_KEYS ->
  rlp_decode_entries fuel total done_items (concat (map encode_item al)) = Ok (done_items ++ al).
Proof.
  intros Hi. revert fuel total done_items.
  induction Hi as [|i al Hi His IH]; intros fuel total dn Hf Hn Ht.
  - destruct fuel; [simpl in Hf; lia|]. simpl. by rewrite app_nil_r.
  - destruct fuel as [|fuel]; [simpl in Hf; lia|]. cbn [map concat rlp_decode_entries].
    destruct (encode_item_nonempty i (concat (map encode_item al))) as (b & l & E).
    rewrite E. rewrite <- E. rewrite length_app in Hn. simpl length in *. if_false.
    pose proof (length_item_payload i Hi) as Hl. pose proof Hi as [Ha Hk Hc].
    unfold total_keys in *. cbn [map] in Ht. rewrite sumZ_cons in Ht.
    pose proof (length_encode_keys _ Hk) as Hkl.
    assert (0 <= sumZ (map (fun i => Z.of_nat (length (al_storage_keys i))) al)) as Hpos.
    { clear. induction al; simpl; lia. }
    unfold encode_item. rewrite take_raw_list; cbn [concat]; rewrite ?app_nil_r;
      [|unfold fits, U64_MAX; lia].
    cbn [res_bind]. rewrite decode_encode_rlp_list; cbn [concat]; rewrite ?app_nil_r;
      [|unfold fits, U64_MAX; lia].
    cbn [res_bind]. unfold wf_address in Ha.
    rewrite rlp_take_bytes_encode by (unfold fits, U64_MAX; lia). cbn [res_bind].
    rewrite Ha. change (negb (Z.of_nat 20 =? 20)) with false. cbn iota.
    rewrite <- (app_nil_r (encode_rlp_list (map rlp_encode_bytes _))).
    unfold encode_rlp_list at 1. rewrite rlp_take_item_list.
    2: { unfold fits, U64_MAX. unfold MAX_ACCESS_LIST_STORAGE_KEYS_PER_ENTRY in *. lia. }
    cbn [res_bind negb]. rewrite bool_decide_eq_true_2 by done. cbn [negb orb].
    pose proof (length_keys_le (al_storage_keys i)).
    rewrite rlp_decode_keys_encode; [|done|lia|simpl; lia|lia]. cbn [res_bind].
    rewrite IH; rewrite ?length_app; simpl length; try lia.
    rewrite <- app_assoc. simpl. destruct i; done.
Qed.

Lemma rlp_decode_access_list_encode al rest :
  access_list_ok al ->
  rlp_decode_access_list (encode_access_list al ++ rest) = Ok (al, rest).
Proof.
  intros [Hi Hn Ht]. rewrite encode_access_list_eq. unfold rlp_decode_access_list, encode_rlp_list.
  assert (Z.of_nat (length (concat (map encode_item al))) <= 42039 * Z.of_nat (length al)) as Hlen.
  { apply length_concat_map_bound. eapply List.Forall_impl, Hi. apply length_encode_item. }
  rewrite rlp_take_item_list by (unfold fits, U64_MAX, MAX_ACCESS_LIST_ENTRIES in *; lia).
  cbn [res_bind negb]. pose proof (length_items_le al).
  rewrite rlp_decode_entries_encode; [done..|lia|done|lia].
Qed.

(** ** The decoders terminate *)

Lemma fold_res_not_panic {E A B} (f : A -> B -> res E A) l (acc : res E A) :
  acc <> Panic -> (forall a b, f a b <> Panic) ->
  fold_left (fun acc b => let? a := acc in f a b) l acc <> Panic.
Proof.
  intros Ha Hf. revert acc Ha. induction l as [|b l IH]; intros acc Ha; [done|].
  simpl. apply IH. destruct acc; simpl; done.
Qed.

Lemma rlp_decode_length_total input n : rlp_decode_length input n <> Panic.
Proof.
  unfold rlp_decode_length. case_match; [done|].
  match goal with |- res_bind ?m _ <> _ => assert (m <> Panic) as Hm end.
  { apply (fold_res_not_panic (fun len b => ok_or _ _)); [done|]. intros. apply ok_or_total. }
  destruct (fold_left _ _ _); done.
Qed.

(** What is left after an item is shorter than the input. *)
Lemma rlp_payload_shrinks tag err len input i rest :
  rlp_payload tag err len input = Ok (i, rest) -> (length rest <= length input)%nat.
Proof. unfold rlp_payload. case_match; [done|]. intros [= _ <-]. rewrite length_drop. lia. Qed.

Lemma rlp_decode_length_shrinks input n len rest :
  rlp_decode_length input n = Ok (len, rest) -> (length rest <= length input)%nat.
Proof.
  unfold rlp_decode_length. case_match; [done|]. intros E.
  apply res_bind_ok in E as (a & _ & E). injection E as _ <-. rewrite length_drop. lia.
Qed.

Lemma rlp_take_item_shrinks input i rest :
  rlp_take_item input = Ok (i, rest) -> (length rest < length input)%nat.
Proof.
  unfold rlp_take_item. destruct input as [|p input]; [done|]. cbn [length].
  destruct (_ <=? 127); [intros [= _ <-]; lia|].
  destruct (_ <=? 183); [intros ?%rlp_payload_shrinks; lia|].
  destruct (_ <=? 191).
  { intros E. apply res_bind_ok in E as ([? ?] & ?%rlp_decode_length_shrinks & ?%rlp_payload_shrinks). lia. }
  destruct (_ <=? 247); [intros ?%rlp_payload_shrinks; lia|].
  intros E. apply res_bind_ok in E as ([? ?] & ?%rlp_decode_length_shrinks & ?%rlp_payload_shrinks). lia.
Qed.

(** A reader is local: what it read is at the front of the input, and reading
    it does not depend on what follows. *)
Definition local {A} (read : list byte -> res string (A * list byte)) : Prop :=
  forall input a rest, read input = Ok (a, rest) ->
  exists p, input = p ++ rest /\ forall rest', read (p ++ rest') = Ok (a, rest').

Lemma rlp_payload_local tag err len : local (rlp_payload tag err len).
Proof.
  intros input i rest. unfold rlp_payload. destruct (Z.ltb_spec (Z.of_nat (length input)) len); [done|].
  intros [= <- <-]. exists (take (Z.to_nat len) input). split; [by rewrite take_drop|]. intros rest'.
  assert (length (take (Z.to_nat len) input) = Z.to_nat len) as Hl by (rewrite length_take; lia).
  rewrite length_app, Hl, take_app_length', drop_app_length' by done. by if_false.
Qed.

Lemma rlp_decode_length_local n : local (fun input => rlp_decode_length input n).
Proof.
  intros input len rest. unfold rlp_decode_length.
  destruct (_ || _) eqn:Hn; [done|]. intros E. apply res_bind_ok in E as (a & Ha & E). injection E as -> <-.
  exists (take (Z.to_nat n) input). split; [by rewrite take_drop|]. intros rest'.
  assert (length (take (Z.to_nat n) input) = Z.to_nat n) as Hl by (rewrite length_take; lia).
  replace ((n =? 0) || (8 <? n) || (Z.of_nat (length (take (Z.to_nat n) input ++ rest')) <? n)) with false
    by (rewrite length_app, Hl; lia).
  rewrite take_app_length', drop_app_length' by done. by rewrite Ha.
Qed.

Lemma rlp_long_local tag err n :
  local (fun input => let? (len, after_len) := rlp_decode_length input n in rlp_payload tag err len after_len).
Proof.
  intros input i rest E. apply res_bind_ok in E as ([l r] & H1 & H2).
  apply rlp_decode_length_local in H1 as (p1 & -> & H1). apply rlp_payload_local in H2 as (p2 & -> & H2).
  exists (p1 ++ p2). split; [by rewrite app_assoc|]. intros rest'. rewrite <- app_assoc, H1. apply H2.
Qed.

Lemma rlp_take_item_local : local rlp_take_item.
Proof.
  intros input i rest. unfold rlp_take_item. destruct input as [|p input]; [done|].
  assert (forall f, local f -> f input = Ok (i, rest) ->
    exists q, p :: input = q ++ rest /\ forall rest', match q ++ rest' with
      | [] => False | b :: l => b = p /\ f l = Ok (i, rest') end) as Hc.
  { intros f Hf (q & -> & Hq)%Hf. exists (p :: q). split; [done|]. intros rest'. cbn. by split. }
  assert (forall f (g : byte -> list byte -> res string (bool * list byte * list byte)), local f ->
    f input = Ok (i, rest) -> (forall l r, f l = Ok (i, r) -> g p l = Ok (i, r)) ->
    exists q, p :: input = q ++ rest /\ forall rest', match q ++ rest' with
      | [] => Err "unexpected end of RLP input"%string | b :: l => g b l end = Ok (i, rest')) as Hd.
  { intros f g Hf E Hg. destruct (Hc f Hf E) as (q & Eq & Hq). exists q. split; [done|]. intros rest'.
    specialize (Hq rest'). destruct (q ++ rest') as [|b l]; [done|]. destruct Hq as [-> Hq]. by apply Hg. }
  destruct (u8_val p <=? 127) eqn:E1.
  { intros [= <- <-]. exists [p]. split; [done|]. intros rest'. cbn [app]. by rewrite E1. }
  destruct (u8_val p <=? 183) eqn:E2.
  { intros E. eapply (Hd _ _ (rlp_payload_local _ _ _) E). intros l r. by rewrite E1, E2. }
  destruct (u8_val p <=? 191) eqn:E3.
  { intros E. eapply (Hd _ _ (rlp_long_local _ _ _) E). intros l r. by rewrite E1, E2, E3. }
  destruct (u8_val p <=? 247) eqn:E4; intros E.
  - eapply (Hd _ _ (rlp_payload_local _ _ _) E). intros l r. by rewrite E1, E2, E3, E4.
  - eapply (Hd _ _ (rlp_long_local _ _ _) E). intros l r. by rewrite E1, E2, E3, E4.
Qed.

(** An item and what is left make up the input. *)
Lemma rlp_take_item_suffix input i rest :
  rlp_take_item input = Ok (i, rest) -> exists p, input = p ++ rest.
Proof. intros (p & -> & _)%rlp_take_item_local. by exists p. Qed.

(** A reader that takes one item and interprets it. *)
Definition by_item {A} (read : list byte -> res string (A * list byte)) : Prop :=
  exists interpret : bool * list byte -> res string A, forall input,
  read input = (let? (item, rest) := rlp_take_item input in let? a := interpret item in Ok (a, rest)).

(** Such a reader reads, from the raw field at the front, the value it reads
    from the whole input. *)
Lemma by_item_field {A} (read : list byte -> res string (A * list byte)) input field rest a rest' :
  by_item read -> rlp_take_raw input = Ok (field, rest) -> read input = Ok (a, rest') ->
  rest' = rest /\ read field = Ok (a, []).
Proof.
  intros [f Hf] Hr Ha. rewrite Hf in *. unfold rlp_take_raw in Hr.
  apply res_bind_ok in Hr as ([i r] & Hi & [= <- <-]). rewrite Hi in Ha. cbn [res_bind] in Ha.
  apply res_bind_ok in Ha as (b & Hb & [= -> ->]). split; [done|].
  apply rlp_take_item_local in Hi as (p & -> & Hp). rewrite length_app.
  replace (length p + length rest' - length rest')%nat with (length p) by lia. rewrite take_app_length.
  rewrite <- (app_nil_r p), Hp. cbn [res_bind]. by rewrite Hb.
Qed.

Lemma by_item_bytes : by_item rlp_take_bytes.
Proof.
  exists (fun '(list_item, payload) => if (list_item : bool) then Err "expected RLP bytes"%string else Ok payload).
  intros input. unfold rlp_take_bytes. destruct (rlp_take_item input) as [[[[] ?] ?]|?|]; done.
Qed.

(** What is read from the bytes of an item is read by item. *)
Lemma by_item_bind {A C} (read : list byte -> res string (A * list byte)) (f : A -> res string C) :
  by_item read -> by_item (fun input => let? (a, rest) := read input in let? c := f a in Ok (c, rest)).
Proof.
  intros [g Hg]. exists (fun item => let? a := g item in f a). intros input. rewrite Hg.
  destruct (rlp_take_item input) as [[item rest]|?|]; [|done..]. cbn [res_bind]. by destruct (g item).
Qed.

Lemma by_item_ext {A} (r1 r2 : list byte -> res string (A * list byte)) :
  (forall input, r1 input = r2 input) -> by_item r1 -> by_item r2.
Proof. intros H [f Hf]. exists f. intros input. by rewrite <- H, Hf. Qed.

Lemma by_item_u128 : by_item rlp_take_u128.
Proof.
  eapply by_item_ext; [|exact (by_item_bind _ (fun bs =>
    if 16 <? Z.of_nat (length bs) then Err "integer does not fit in u128"%string
    else if (1 <? Z.of_nat (length bs)) && bool_decide (head bs = Some x00)
    then Err "non-canonical RLP integer encoding"%string
    else Ok (fold_left (fun value b => Z.lor (wrap128 (Z.shiftl value 8)) (u8_val b)) bs 0)) by_item_bytes)].
  intros input. unfold rlp_take_u128. destruct (rlp_take_bytes input) as [[bs rest]|?|]; [|done..].
  cbn [res_bind]. by repeat case_match.
Qed.

Lemma by_item_u64 : by_item rlp_take_u64.
Proof.
  eapply by_item_ext; [|exact (by_item_bind _ (fun v => if v <=? U64_MAX then Ok v
    else Err "out of range integral type conversion attempted"%string) by_item_u128)].
  intros input. unfold rlp_take_u64. destruct (rlp_take_u128 input) as [[v rest]|?|]; [|done..].
  cbn [res_bind]. by case_match.
Qed.

Lemma by_item_word : by_item rlp_take_word.
Proof.
  eapply by_item_ext; [|exact (by_item_bind _ (fun bs => if 32 <? Z.of_nat (length bs)
    then Err "signature scalar is longer than 32 bytes"%string
    else Ok (replicate (32 - length bs) x00 ++ bs)) by_item_bytes)].
  intros input. unfold rlp_take_word. destruct (rlp_take_bytes input) as [[v rest]|?|]; [|done..].
  cbn [res_bind]. by case_match.
Qed.

Lemma by_item_optional_address : by_item rlp_take_optional_address.
Proof.
  eapply by_item_ext; [|exact (by_item_bind _ (fun bs => match bs with [] => Ok None
    | _ => if negb (Z.of_nat (length bs) =? 20)
           then Err "transaction recipient must be empty or 20 bytes"%string else Ok (Some bs) end) by_item_bytes)].
  intros input. unfold rlp_take_optional_address. destruct (rlp_take_bytes input) as [[[|b v] rest]|?|]; [done| |done..].
  cbn [res_bind]. by case_match.
Qed.

Lemma by_item_access_list : by_item rlp_decode_access_list.
Proof.
  exists (fun '(list_item, entries) => if negb list_item then Err "access list must be an RLP list"%string
    else rlp_decode_entries (S (length entries)) 0 [] entries).
  intros input. unfold rlp_decode_access_list. by destruct (rlp_take_item input) as [[[[] ?] ?]|?|].
Qed.

Lemma rlp_take_raw_app input x rest : rlp_take_raw input = Ok (x, rest) -> input = x ++ rest.
Proof.
  unfold rlp_take_raw. intros E. apply res_bind_ok in E as ([i r] & E & [= <- <-]).
  apply rlp_take_item_suffix in E as [q ->]. rewrite length_app.
  replace (length q + length r - length r)%nat with (length q) by lia. by rewrite take_app_length.
Qed.

Lemma rlp_payload_total tag err len input : rlp_payload tag err len input <> Panic.
Proof. unfold rlp_payload. by case_match. Qed.

Lemma rlp_take_item_total input : rlp_take_item input <> Panic.
Proof.
  unfold rlp_take_item. destruct input as [|p input]; [done|].
  repeat (destruct (_ <=? _); try done; try apply rlp_payload_total);
    match goal with |- res_bind ?m _ <> _ =>
      pose proof (rlp_decode_length_total input) as Ht; destruct m as [[? ?]|?|] eqn:E end;
    try done; try (apply rlp_payload_total); by apply Ht in E.
Qed.

Lemma rlp_take_raw_shrinks input x rest :
  rlp_take_raw input = Ok (x, rest) -> (length rest < length input)%nat.
Proof.
  unfold rlp_take_raw. intros E. apply res_bind_ok in E as ([? ?] & E & [= _ <-]).
  by eapply rlp_take_item_shrinks.
Qed.

Lemma rlp_take_bytes_shrinks input x rest :
  rlp_take_bytes input = Ok (x, rest) -> (length rest < length input)%nat.
Proof.
  unfold rlp_take_bytes. intros E. apply res_bind_ok in E as ([[? ?] ?] & E & E2).
  cases. by eapply rlp_take_item_shrinks.
Qed.

Lemma rlp_take_raw_total input : rlp_take_raw input <> Panic.
Proof.
  unfold rlp_take_raw. pose proof (rlp_take_item_total input).
  destruct (rlp_take_item input) as [[? ?]|?|]; done.
Qed.

Lemma rlp_take_bytes_total input : rlp_take_bytes input <> Panic.
Proof.
  unfold rlp_take_bytes. pose proof (rlp_take_item_total input).
  destruct (rlp_take_item input) as [[[[] ?] ?]|?|]; done.
Qed.

Lemma decode_rlp_list_total input : decode_rlp_list input <> Panic.
Proof.
  unfold decode_rlp_list. pose proof (rlp_take_item_total input).
  destruct (rlp_take_item input) as [[[l ?] ?]|?|]; try done. simpl. cases; done.
Qed.

Lemma rlp_decode_keys_total fuel total dk keys :
  (length keys < fuel)%nat -> rlp_decode_keys fuel total dk keys <> Panic.
Proof.
  revert total dk keys. induction fuel as [|fuel IH]; intros total dk keys Hf; [lia|].
  cbn [rlp_decode_keys]. destruct keys as [|b keys]; [done|].
  destruct (_ || _); [done|]. pose proof (rlp_take_bytes_total (b :: keys)) as Ht.
  destruct (rlp_take_bytes (b :: keys)) as [[k rest]|?|] eqn:E; try done.
  apply rlp_take_bytes_shrinks in E. cbn [res_bind]. case_match; [done|]. apply IH. lia.
Qed.

Lemma rlp_decode_entries_total fuel total acc entries :
  (length entries < fuel)%nat -> rlp_decode_entries fuel total acc entries <> Panic.
Proof.
  revert total acc entries. induction fuel as [|fuel IH]; intros total acc entries Hf; [lia|].
  cbn [rlp_decode_entries]. destruct entries as [|b entries]; [done|].
  destruct (_ <=? _); [done|]. pose proof (rlp_take_raw_total (b :: entries)) as Ht.
  destruct (rlp_take_raw (b :: entries)) as [[entry rest]|?|] eqn:E; try done.
  apply rlp_take_raw_shrinks in E. cbn [res_bind].
  pose proof (decode_rlp_list_total entry) as H1.
  destruct (decode_rlp_list entry) as [payload|?|]; try done. cbn [res_bind].
  pose proof (rlp_take_bytes_total payload) as H2.
  destruct (rlp_take_bytes payload) as [[address payload2]|?|]; try done. cbn [res_bind].
  case_match; [done|]. pose proof (rlp_take_item_total payload2) as H3.
  destruct (rlp_take_item payload2) as [[[sl keys] payload3]|?|]; try done. cbn [res_bind].
  case_match; [done|]. pose proof (rlp_decode_keys_total (S (length keys)) total [] keys) as H4.
  destruct (rlp_decode_keys (S (length keys)) total [] keys) as [[sk total']|?|]; try done.
  - cbn [res_bind]. apply IH. lia.
  - intros _. apply H4; [lia|done].
Qed.

Lemma rlp_decode_access_list_no_panic input : rlp_decode_access_list input <> Panic.
Proof.
  unfold rlp_decode_access_list. pose proof (rlp_take_item_total input).
  destruct (rlp_take_item input) as [[[l entries] rest]|?|]; try done. cbn [res_bind].
  case_match; [done|].
  pose proof (rlp_decode_entries_total (S (length entries)) 0 [] entries) as Ht.
  destruct (rlp_decode_entries _ _ _ _); try done. intros _. apply Ht; [lia|done].
Qed.

Lemma rlp_take_u128_total input : rlp_take_u128 input <> Panic.
Proof. unfold rlp_take_u128. pose proof rlp_take_bytes_total. total. Qed.
Lemma rlp_take_u64_total input : rlp_take_u64 input <> Panic.
Proof. unfold rlp_take_u64. pose proof rlp_take_u128_total. total. Qed.
Lemma rlp_take_word_total input : rlp_take_word input <> Panic.
Proof. unfold rlp_take_word. pose proof rlp_take_bytes_total. total. Qed.
Lemma rlp_take_optional_address_total input : rlp_take_optional_address input <> Panic.
Proof. unfold rlp_take_optional_address. pose proof rlp_take_bytes_total. total. Qed.
Lemma whole_total {A} err (m : res string (A * list byte)) : m <> Panic -> whole err m <> Panic.
Proof. intros. unfold whole. total. Qed.

#[export] Hint Resolve rlp_take_item_total rlp_take_raw_total rlp_take_bytes_total
  decode_rlp_list_total rlp_decode_access_list_no_panic rlp_take_u128_total rlp_take_u64_total
  rlp_take_word_total rlp_take_optional_address_total whole_total : no_panic.

(** ** What the decoders return *)

Lemma rlp_take_u128_range input v rest : rlp_take_u128 input = Ok (v, rest) -> in_u128 v.
Proof.
  unfold rlp_take_u128. intros E. apply res_bind_ok in E as ([bs r] & _ & E).
  destruct (Z.ltb_spec 16 (Z.of_nat (length bs))); [done|]. destruct (_ && _); [done|].
  injection E as <- _. pose proof (be_val_range bs) as Hb.
  assert (256 ^ Z.of_nat (length bs) <= 256 ^ 16) by (apply Z.pow_le_mono_r; lia).
  change (256 ^ 16) with (U128_MAX + 1) in *.
  rewrite lor_fold_be_val; unfold in_u128; lia.
Qed.

Lemma rlp_take_u64_range input v rest : rlp_take_u64 input = Ok (v, rest) -> in_u64 v.
Proof.
  unfold rlp_take_u64. intros E. apply res_bind_ok in E as ([z r] & Hz & E).
  apply rlp_take_u128_range in Hz. destruct (Z.leb_spec z U64_MAX); [|done].
  injection E as <- _. ints. lia.
Qed.

Lemma rlp_take_word_wf input w rest : rlp_take_word input = Ok (w, rest) -> wf_hash w.
Proof.
  unfold rlp_take_word. intros E. apply res_bind_ok in E as ([bs r] & _ & E).
  destruct (Z.ltb_spec 32 (Z.of_nat (length bs))); [done|]. apply (f_equal (fun x =>
    match x with Ok (w, _) => length w | _ => 0%nat end)) in E.
  rewrite length_app, length_replicate in E. unfold wf_hash. lia.
Qed.

Lemma rlp_take_optional_address_wf input to rest a :
  rlp_take_optional_address input = Ok (to, rest) -> to = Some a -> wf_address a.
Proof.
  unfold rlp_take_optional_address. intros E. apply res_bind_ok in E as ([bs r] & _ & E).
  destruct bs as [|b bs]; [by injection E as <- _|].
  destruct (Z.eqb_spec (Z.of_nat (length (b :: bs))) 20) as [Hl|]; [|done].
  cbn [negb] in E. injection E as <- _. intros [= <-]. unfold wf_address. lia.
Qed.

Lemma rlp_decode_keys_ok fuel total dk keys out total' :
  Forall wf_hash dk ->
  Z.of_nat (length dk) <= MAX_ACCESS_LIST_STORAGE_KEYS_PER_ENTRY -> total <= MAX_ACCESS_LIST_STORAGE_KEYS ->
  rlp_decode_keys fuel total dk keys = Ok (out, total') ->
  Forall wf_hash out /\ Z.of_nat (length out) <= MAX_ACCESS_LIST_STORAGE_KEYS_PER_ENTRY /\
  total' = total + Z.of_nat (length out) - Z.of_nat (length dk) /\ total' <= MAX_ACCESS_LIST_STORAGE_KEYS.
Proof.
  revert total dk keys. induction fuel as [|fuel IH]; intros total dk keys Hdk Hl Ht E; [done|].
  cbn [rlp_decode_keys] in E. destruct keys as [|b keys].
  { injection E as <- <-. repeat split; try done. lia. }
  destruct (_ || _) eqn:Hb; [done|]. apply res_bind_ok in E as ([k rest] & _ & E).
  destruct (Z.eqb_spec (Z.of_nat (length k)) 32) as [Hk|]; [|done]. cbn [negb] in E.
  apply IH in E.
  - rewrite length_app in E. simpl length in E. destruct E as (? & ? & ? & ?).
    repeat split; try done. lia.
  - apply Forall_app. split; [done|]. constructor; [unfold wf_hash; lia|done].
  - rewrite length_app. simpl. lia.
  - lia.
Qed.

Lemma total_keys_snoc al i :
  total_keys (al ++ [i]) = total_keys al + Z.of_nat (length (al_storage_keys i)).
Proof. unfold total_keys. rewrite map_app, sumZ_app. simpl. lia. Qed.

Lemma rlp_decode_entries_ok fuel acc entries out :
  access_list_ok acc -> rlp_decode_entries fuel (total_keys acc) acc entries = Ok out ->
  access_list_ok out.
Proof.
  revert acc entries. induction fuel as [|fuel IH]; intros acc entries Hacc E; [done|].
  cbn [rlp_decode_entries] in E. destruct entries as [|b entries]; [by injection E as <-|].
  destruct (Z.leb_spec MAX_ACCESS_LIST_ENTRIES (Z.of_nat (length acc))); [done|].
  apply res_bind_ok in E as ([entry rest] & _ & E).
  apply res_bind_ok in E as (payload & _ & E).
  apply res_bind_ok in E as ([address payload2] & _ & E).
  destruct (Z.eqb_spec (Z.of_nat (length address)) 20) as [Ha|]; [|done]. cbn [negb] in E.
  apply res_bind_ok in E as ([[sl keys] payload3] & _ & E).
  destruct (_ || _); [done|]. apply res_bind_ok in E as ([sk total'] & Hk & E).
  apply rlp_decode_keys_ok in Hk as (Hk1 & Hk2 & Hk3 & Hk4);
    [|constructor|by vm_compute|apply Hacc].
  simpl length in Hk3.
  assert (total' = total_keys (acc ++ [{| al_address := address; al_storage_keys := sk |}])) as Htk.
  { rewrite total_keys_snoc. simpl. lia. }
  subst total'. rewrite Htk in E. apply IH in E; [done|]. split.
  - apply Forall_app. split; [apply Hacc|]. constructor; [|done].
    split; simpl; [unfold wf_address; lia|done|done].
  - rewrite length_app. simpl. lia.
  - lia.
Qed.

Lemma rlp_decode_access_list_ok input al rest :
  rlp_decode_access_list input = Ok (al, rest) -> access_list_ok al.
Proof.
  unfold rlp_decode_access_list. intros E. apply res_bind_ok in E as ([[l entries] r] & _ & E).
  destruct l; [|done]. cbn [negb] in E. apply res_bind_ok in E as (al' & Ha & E).
  injection E as <- _. apply (rlp_decode_entries_ok _ [] _ _) in Ha; [done|]. split; [constructor|done|done].
Qed.

(** ** The two encoders agree *)

Lemma eip1559_list_eq fields : Eip1559.eip1559_rlp_list fields = encode_rlp_list fields.
Proof. reflexivity. Qed.

Lemma eip1559_encoders_eq v w bs al payload :
  Eip1559.eip1559_rlp_u64 v = rlp_encode_u64 v /\
  Eip1559.eip1559_rlp_u128 v = rlp_encode_u128 v /\
  Eip1559.eip1559_rlp_word w = rlp_encode_word w /\
  Eip1559.eip1559_rlp_bytes bs = rlp_encode_bytes bs /\
  Eip1559.eip1559_encode_access_list al = encode_access_list al /\
  Eip1559.eip1559_typed_rlp payload = encode_typed_rlp 2 payload.
Proof.
  split; [reflexivity|]. split; [reflexivity|]. split.
  { unfold Eip1559.eip1559_rlp_word, rlp_encode_word. by destruct (forallb _ w). }
  split; [reflexivity|]. split.
  { unfold Eip1559.eip1559_encode_access_list, encode_access_list.
    rewrite eip1559_list_eq. apply (f_equal encode_rlp_list). apply map_ext. intros i.
    rewrite !eip1559_list_eq. reflexivity. }
  unfold Eip1559.eip1559_typed_rlp, encode_typed_rlp.
  replace (as_u8 2) with x02 by (by vm_compute). reflexivity.
Qed.
