(* ===== verification/RawTx.v ===== *)
(** Signed wire transactions ([crates/blq-node/src/main.rs]): decoding of the
    raw transactions of [eth_sendRawTransaction], the signing payload and the
    signed bytes of a transaction, and the signature check applied to gossiped
    and block transactions.

    Keccak and the secp256k1 recovery are the parameters [Digests] and
    [Secp]. *)

From Stdlib Require Import ZArith Lia Strings.String Strings.Byte.
From stdpp Require Import gmap list base.
From S2P Require Import Prelude Externals Primitives Canonical Rlp.
#[local] Open Scope Z_scope.

Section raw.
Context {D : Digests} {HX : HexCodec} {SG : Secp}.

Definition decode_hex (value : list byte) : res string (list byte) :=
  let trimmed := default value (strip_prefix (B "0x") value) in
  ok_or (hex_decode trimmed) "invalid hex"%string.

Lemma decode_hex_encode bs : decode_hex (B "0x" ++ hex_encode bs) = Ok bs.
Proof. unfold decode_hex. rewrite strip_prefix_app. simpl. by rewrite hex_decode_encode. Qed.

(** ** Encoding *)

Definition transaction_signing_payload (t : Transaction) : res string (list byte) :=
  let recipient := default [] (tx_to t) in
  let access_list := encode_access_list (tx_access_list t) in
  if tx_transaction_type t =? 1 then
    Ok (encode_typed_rlp 1 (concat
      [rlp_encode_u64 (tx_chain_id t);
       rlp_encode_u64 (tx_nonce t);
       rlp_encode_u128 (tx_max_fee_per_gas t);
       rlp_encode_u64 (tx_gas_limit t);
       rlp_encode_bytes recipient;
       rlp_encode_u128 (tx_value t);
       rlp_encode_bytes (tx_payload t);
       access_list]))
  else if tx_transaction_type t =? 2 then Eip1559.eip1559_signing_payload t
  else if tx_transaction_type t =? 0 then
    Ok (encode_rlp_list
      [rlp_encode_u64 (tx_nonce t);
       rlp_encode_u128 (tx_max_fee_per_gas t);
       rlp_encode_u64 (tx_gas_limit t);
       rlp_encode_bytes recipient;
       rlp_encode_u128 (tx_value t);
       rlp_encode_bytes (tx_payload t);
       rlp_encode_u64 (tx_chain_id t);
       rlp_encode_bytes [];
       rlp_encode_bytes []])
  else Err "unsupported transaction type"%string.

Definition legacy_v (chain_id : Z) (y_parity : bool) : Z :=
  sat_add U64_MAX (sat_add U64_MAX (sat_mul U64_MAX chain_id 2) 35) (Z.b2z y_parity).

Definition transaction_signed_bytes (t : Transaction) : res string (list byte) :=
  let recipient := default [] (tx_to t) in
  let access_list := encode_access_list (tx_access_list t) in
  let? signature := ok_or (tx_signature t) "transaction gossip requires a signature"%string in
  let r := rlp_encode_word (sig_r signature) in
  let s := rlp_encode_word (sig_s signature) in
  if tx_transaction_type t =? 1 then
    Ok (encode_typed_rlp 1 (concat
      [rlp_encode_u64 (tx_chain_id t);
       rlp_encode_u64 (tx_nonce t);
       rlp_encode_u128 (tx_max_fee_per_gas t);
       rlp_encode_u64 (tx_gas_limit t);
       rlp_encode_bytes recipient;
       rlp_encode_u128 (tx_value t);
       rlp_encode_bytes (tx_payload t);
       access_list;
       rlp_encode_u64 (Z.b2z (sig_y_parity signature));
       r;
       s]))
  else if tx_transaction_type t =? 2 then Eip1559.eip1559_signed_bytes t
  else if tx_transaction_type t =? 0 then
    Ok (encode_rlp_list
      [rlp_encode_u64 (tx_nonce t);
       rlp_encode_u128 (tx_max_fee_per_gas t);
       rlp_encode_u64 (tx_gas_limit t);
       rlp_encode_bytes recipient;
       rlp_encode_u128 (tx_value t);
       rlp_encode_bytes (tx_payload t);
       rlp_encode_u64 (legacy_v (tx_chain_id t) (sig_y_parity signature));
       r;
       s])
  else Err "unsupported transaction type"%string.

(** ** Checks *)

Definition validate_raw_chain_id (chain_id : Z) : res string unit :=
  if negb (chain_id =? MAINNET_CHAIN_ID)
  then Err "transaction chain ID does not match network"%string else Ok tt.

Definition reject_high_s_signature (s : Hash256) : res string unit :=
  if high_s s then Err "high-s transaction signatures are not accepted"%string else Ok tt.

Definition recover_signer (y_parity : bool) (r s : Hash256) (signing_payload : list byte)
    : res string Address :=
  ok_or (recover y_parity r s (keccak256 signing_payload))
    "could not recover transaction signer"%string.

Definition verify_transaction_signature (t : Transaction) : res string unit :=
  let? signature := ok_or (tx_signature t) "transaction gossip requires a signature"%string in
  reject_high_s_signature (sig_s signature) ;?
  let? payload := transaction_signing_payload t in
  let? recovered := recover_signer (sig_y_parity signature) (sig_r signature) (sig_s signature) payload in
  if negb (bool_decide (recovered = tx_from t))
  then Err "transaction signature does not match sender"%string
  else
    match tx_external_hash t with
    | Some external_hash =>
        let? signed := transaction_signed_bytes t in
        if negb (bool_decide (external_hash = keccak256 signed))
        then Err "transaction external hash does not match signed payload"%string
        else Ok tt
    | None => Ok tt
    end.

(** ** Decoding *)

(** [for _ in 0..n { fields.push(rlp_take_raw(&mut rest)?) }] *)
Fixpoint take_raw_fields (n : nat) (rest : list byte) : res string (list (list byte) * list byte) :=
  match n with
  | O => Ok ([], rest)
  | S n' =>
      let? (field, rest) := rlp_take_raw rest in
      let? (fields, rest) := take_raw_fields n' rest in
      Ok (field :: fields, rest)
  end.

Definition encode_typed_signing_payload (payload : list byte) (field_count : nat)
    (transaction_type : Z) : res string (list byte) :=
  let? (fields, rest) := take_raw_fields field_count payload in
  if bool_decide (rest = []) then Err "raw transaction is missing signature fields"%string
  else Ok (encode_typed_rlp transaction_type (concat fields)).

Definition decode_eip1559_transaction (raw_bytes : list byte) : res string Transaction :=
  let raw_hash := keccak256 raw_bytes in
  let? payload := decode_rlp_list (drop 1 raw_bytes) in
  let? signing_payload := encode_typed_signing_payload payload 9 2 in
  let? (chain_id, payload) := rlp_take_u64 payload in
  validate_raw_chain_id chain_id ;?
  let? (nonce, payload) := rlp_take_u64 payload in
  let? (max_priority_fee_per_gas, payload) := rlp_take_u128 payload in
  let? (max_fee_per_gas, payload) := rlp_take_u128 payload in
  let? (gas_limit, payload) := rlp_take_u64 payload in
  let? (to, payload) := rlp_take_optional_address payload in
  let? (value, payload) := rlp_take_u128 payload in
  let? (input, payload) := rlp_take_bytes payload in
  if MAX_TRANSACTION_PAYLOAD_BYTES <? Z.of_nat (length input)
  then Err "transaction payload exceeds the maximum size"%string
  else
  let? (access_list, payload) := rlp_decode_access_list payload in
  let? (y_parity, payload) := rlp_take_u64 payload in
  if 1 <? y_parity then Err "invalid EIP-1559 signature parity"%string
  else
  let? (r, payload) := rlp_take_word payload in
  let? (s, payload) := rlp_take_word payload in
  if negb (bool_decide (payload = []))
  then Err "raw transaction has trailing RLP fields"%string
  else
  reject_high_s_signature s ;?
  let? signer := recover_signer (y_parity =? 1) r s signing_payload in
  Ok {| tx_chain_id := chain_id;
        tx_transaction_type := 2;
        tx_nonce := nonce;
        tx_from := signer;
        tx_to := to;
        tx_value := value;
        tx_gas_limit := gas_limit;
        tx_max_fee_per_gas := max_fee_per_gas;
        tx_max_priority_fee_per_gas := max_priority_fee_per_gas;
        tx_payload := input;
        tx_access_list := access_list;
        tx_signature := Some {| sig_y_parity := y_parity =? 1; sig_r := r; sig_s := s |};
        tx_external_hash := Some raw_hash |}.

Definition decode_eip2930_transaction (raw_bytes : list byte) : res string Transaction :=
  let raw_hash := keccak256 raw_bytes in
  let? payload := decode_rlp_list (drop 1 raw_bytes) in
  let? signing_payload := encode_typed_signing_payload payload 8 1 in
  let? (chain_id, payload) := rlp_take_u64 payload in
  validate_raw_chain_id chain_id ;?
  let? (nonce, payload) := rlp_take_u64 payload in
  let? (gas_price, payload) := rlp_take_u128 payload in
  let? (gas_limit, payload) := rlp_take_u64 payload in
  let? (to, payload) := rlp_take_optional_address payload in
  let? (value, payload) := rlp_take_u128 payload in
  let? (input, payload) := rlp_take_bytes payload in
  if MAX_TRANSACTION_PAYLOAD_BYTES <? Z.of_nat (length input)
  then Err "transaction payload exceeds the maximum size"%string
  else
  let? (access_list, payload) := rlp_decode_access_list payload in
  let? (y_parity, payload) := rlp_take_u64 payload in
  if 1 <? y_parity then Err "invalid EIP-2930 signature parity"%string
  else
  let? (r, payload) := rlp_take_word payload in
  let? (s, payload) := rlp_take_word payload in
  if negb (bool_decide (payload = []))
  then Err "raw transaction has trailing RLP fields"%string
  else
  reject_high_s_signature s ;?
  let? signer := recover_signer (y_parity =? 1) r s signing_payload in
  Ok {| tx_chain_id := chain_id;
        tx_transaction_type := 1;
        tx_nonce := nonce;
        tx_from := signer;
        tx_to := to;
        tx_value := value;
        tx_gas_limit := gas_limit;
        tx_max_fee_per_gas := gas_price;
        tx_max_priority_fee_per_gas := 0;
        tx_payload := input;
        tx_access_list := access_list;
        tx_signature := Some {| sig_y_parity := y_parity =? 1; sig_r := r; sig_s := s |};
        tx_external_hash := Some raw_hash |}.

(** The match on the legacy [v]: chain id, parity and signing payload. *)
Definition legacy_split_v (v : Z) (signing_fields : list (list byte))
    : res string (Z * bool * list byte) :=
  if (v =? 27) || (v =? 28)
  then Err "unprotected legacy transactions are disabled"%string
  else if 35 <=? v then
    let adjusted := v - 35 in
    let chain_id := adjusted / 2 in
    let parity := adjusted mod 2 in
    let signing_fields :=
      signing_fields ++ [rlp_encode_u64 chain_id; rlp_encode_bytes []; rlp_encode_bytes []] in
    Ok (chain_id, parity =? 1, encode_rlp_list signing_fields)
  else Err "invalid legacy signature v value"%string.

Definition decode_legacy_transaction (raw_bytes : list byte) : res string Transaction :=
  let raw_hash := keccak256 raw_bytes in
  let? payload := decode_rlp_list raw_bytes in
  let? (signing_fields, payload) := take_raw_fields 6 payload in
  let field i := expect (signing_fields !! i) in
  let? f0 := field 0%nat in let? nonce := decode_u64_field f0 in
  let? f1 := field 1%nat in let? gas_price := decode_u128_field f1 in
  let? f2 := field 2%nat in let? gas_limit := decode_u64_field f2 in
  let? to_input := field 3%nat in
  let? (to, to_input) := rlp_take_optional_address to_input in
  if negb (bool_decide (to_input = [])) then Err "invalid legacy recipient field"%string
  else
  let? f4 := field 4%nat in let? value := decode_u128_field f4 in
  let? f5 := field 5%nat in let? input := decode_bytes_field f5 in
  if MAX_TRANSACTION_PAYLOAD_BYTES <? Z.of_nat (length input)
  then Err "transaction payload exceeds the maximum size"%string
  else
  let? (v, payload) := rlp_take_u64 payload in
  let? (r, payload) := rlp_take_word payload in
  let? (s, payload) := rlp_take_word payload in
  if negb (bool_decide (payload = []))
  then Err "raw transaction has trailing RLP fields"%string
  else
  let? (chain_id, y_parity, signing_payload) := legacy_split_v v signing_fields in
  validate_raw_chain_id chain_id ;?
  reject_high_s_signature s ;?
  let? signer := recover_signer y_parity r s signing_payload in
  Ok {| tx_chain_id := chain_id;
        tx_transaction_type := 0;
        tx_nonce := nonce;
        tx_from := signer;
        tx_to := to;
        tx_value := value;
        tx_gas_limit := gas_limit;
        tx_max_fee_per_gas := gas_price;
        tx_max_priority_fee_per_gas := 0;
        tx_payload := input;
        tx_access_list := [];
        tx_signature := Some {| sig_y_parity := y_parity; sig_r := r; sig_s := s |};
        tx_external_hash := Some raw_hash |}.

Definition decode_raw_transaction (raw : list byte) : res string Transaction :=
  let? raw_bytes := decode_hex raw in
  match head raw_bytes with
  | Some value =>
      if u8_val value =? 1 then decode_eip2930_transaction raw_bytes
      else if u8_val value =? 2 then decode_eip1559_transaction raw_bytes
      else if 192 <=? u8_val value then decode_legacy_transaction raw_bytes
      else Err "unsupported raw transaction type"%string
  | None => Err "unsupported raw transaction type"%string
  end.

(** ** Encodings as sequences of items *)

Definition is_item (x : list byte) : Prop :=
  forall rest, exists i, rlp_take_item (x ++ rest) = Ok (i, rest).

(** An encoding of a byte string of at most [n] bytes. *)
Definition short_item (n : Z) (x : list byte) : Prop :=
  exists bs, x = rlp_encode_bytes bs /\ Z.of_nat (length bs) <= n.

Lemma short_item_is_item n x : n <= U64_MAX -> short_item n x -> is_item x.
Proof.
  intros Hn (bs & -> & Hl) rest. eexists. apply rlp_take_item_bytes. unfold fits. lia.
Qed.

Lemma short_item_length n x : short_item n x -> Z.of_nat (length x) <= 9 + n.
Proof. intros (bs & -> & Hl). pose proof (length_rlp_encode_bytes bs). lia. Qed.

Lemma short_u64 v : short_item 32 (rlp_encode_u64 v).
Proof.
  unfold rlp_encode_u64. destruct (v =? 0); eexists; (split; [done|]); [simpl; lia|].
  rewrite length_drop, length_be_bytes. lia.
Qed.

Lemma short_u128 v : short_item 32 (rlp_encode_u128 v).
Proof.
  unfold rlp_encode_u128. destruct (v =? 0); eexists; (split; [done|]); [simpl; lia|].
  rewrite length_drop, length_be_bytes. lia.
Qed.

Lemma short_word w : wf_hash w -> short_item 32 (rlp_encode_word w).
Proof.
  intros Hw. unfold wf_hash in Hw. unfold rlp_encode_word.
  destruct (forallb _ w); eexists; (split; [done|]); [simpl; lia|].
  rewrite length_drop, Hw. lia.
Qed.

Lemma short_recipient (to : option Address) :
  (forall a, to = Some a -> wf_address a) -> short_item 32 (rlp_encode_bytes (default [] to)).
Proof.
  intros H. eexists. split; [done|]. destruct to as [a|]; simpl; [|lia].
  rewrite (H a eq_refl). lia.
Qed.

Lemma is_item_access_list al :
  access_list_ok al ->
  is_item (encode_access_list al) /\ Z.of_nat (length (encode_access_list al)) <= 10762000.
Proof.
  intros [Hi Hn _].
  assert (Z.of_nat (length (concat (map encode_item al))) <= 42039 * Z.of_nat (length al)) as Hlen.
  { apply length_concat_map_bound. eapply List.Forall_impl, Hi. apply length_encode_item. }
  unfold MAX_ACCESS_LIST_ENTRIES in Hn. split.
  - intros rest. eexists. apply rlp_take_item_list. unfold fits, U64_MAX.
    change (length (concat _)) with (length (concat (map encode_item al))). lia.
  - rewrite encode_access_list_eq. pose proof (length_rlp_list (map encode_item al)). lia.
Qed.

Lemma take_raw_fields_concat fields rest :
  Forall is_item fields ->
  take_raw_fields (length fields) (concat fields ++ rest) = Ok (fields, rest).
Proof.
  induction 1 as [|f fields Hf Hfs IH]; [done|].
  cbn [length take_raw_fields concat]. rewrite <- app_assoc.
  destruct (Hf (concat fields ++ rest)) as [i Hi].
  rewrite (rlp_take_raw_item _ _ _ Hi). cbn [res_bind]. rewrite IH. done.
Qed.

(** ** Transactions of the wire *)

(** What the types and the limits of the decoder allow. *)
Record wire_ok (t : Transaction) : Prop := {
  wire_wf : wf_tx t;
  wire_chain : tx_chain_id t = MAINNET_CHAIN_ID;
  wire_type : tx_transaction_type t = 0 \/ tx_transaction_type t = 1 \/ tx_transaction_type t = 2;
  wire_priority : tx_transaction_type t <> 2 -> tx_max_priority_fee_per_gas t = 0;
  wire_payload : Z.of_nat (length (tx_payload t)) <= MAX_TRANSACTION_PAYLOAD_BYTES;
  wire_access : access_list_ok (tx_access_list t);
  wire_legacy_access : tx_transaction_type t = 0 -> tx_access_list t = [];
}.

Definition with_external_hash (t : Transaction) (h : Hash256) : Transaction := {|
  tx_chain_id := tx_chain_id t;
  tx_transaction_type := tx_transaction_type t;
  tx_nonce := tx_nonce t;
  tx_from := tx_from t;
  tx_to := tx_to t;
  tx_value := tx_value t;
  tx_gas_limit := tx_gas_limit t;
  tx_max_fee_per_gas := tx_max_fee_per_gas t;
  tx_max_priority_fee_per_gas := tx_max_priority_fee_per_gas t;
  tx_payload := tx_payload t;
  tx_access_list := tx_access_list t;
  tx_signature := tx_signature t;
  tx_external_hash := Some h |}.

(** The fields covered by the signature, by type. *)
Definition typed_fields (t : Transaction) : list (list byte) :=
  [rlp_encode_u64 (tx_chain_id t); rlp_encode_u64 (tx_nonce t)] ++
  (if tx_transaction_type t =? 2 then [rlp_encode_u128 (tx_max_priority_fee_per_gas t)] else []) ++
  [rlp_encode_u128 (tx_max_fee_per_gas t); rlp_encode_u64 (tx_gas_limit t);
   rlp_encode_bytes (default [] (tx_to t)); rlp_encode_u128 (tx_value t);
   rlp_encode_bytes (tx_payload t); encode_access_list (tx_access_list t)].

Definition legacy_fields (t : Transaction) : list (list byte) :=
  [rlp_encode_u64 (tx_nonce t); rlp_encode_u128 (tx_max_fee_per_gas t);
   rlp_encode_u64 (tx_gas_limit t); rlp_encode_bytes (default [] (tx_to t));
   rlp_encode_u128 (tx_value t); rlp_encode_bytes (tx_payload t)].

Definition small_item (x : list byte) : Prop :=
  is_item x /\ Z.of_nat (length x) <= 10762000.

Lemma small_of_short x : short_item 32 x -> small_item x.
Proof.
  intros H. split; [eapply short_item_is_item, H; unfold U64_MAX; lia|].
  apply short_item_length in H. lia.
Qed.

Lemma small_payload t : wire_ok t -> small_item (rlp_encode_bytes (tx_payload t)).
Proof.
  intros [_ _ _ _ Hp _ _]. unfold MAX_TRANSACTION_PAYLOAD_BYTES in Hp.
  assert (short_item (128 * 1024) (rlp_encode_bytes (tx_payload t))) as H by (eexists; done).
  split; [eapply short_item_is_item, H; unfold U64_MAX; lia|].
  apply short_item_length in H. lia.
Qed.

Create HintDb wire.
#[local] Hint Resolve short_u64 short_u128 short_word short_recipient small_of_short
  small_payload is_item_access_list wf_tx_to wire_wf wire_access : wire.

Lemma typed_fields_small t : wire_ok t -> Forall small_item (typed_fields t).
Proof.
  intros H. pose proof (wire_wf _ H) as []. pose proof (is_item_access_list _ (wire_access _ H)).
  unfold typed_fields. destruct (tx_transaction_type t =? 2); cbn [app];
    repeat (constructor; auto with wire).
Qed.

Lemma legacy_fields_small t : wire_ok t -> Forall small_item (legacy_fields t).
Proof.
  intros H. pose proof (wire_wf _ H) as [].
  unfold legacy_fields. repeat (constructor; auto with wire).
Qed.

Lemma small_items_fit fields :
  Forall small_item fields -> (length fields <= 20)%nat -> fits (concat fields).
Proof.
  intros H Hl. unfold fits, U64_MAX. rewrite <- (map_id fields).
  pose proof (length_concat_map_bound (fun x => x) 10762000 fields) as Hb.
  assert (Z.of_nat (length (concat (map (fun x => x) fields))) <= 10762000 * Z.of_nat (length fields)).
  { apply Hb. eapply List.Forall_impl, H. by intros ? []. }
  lia.
Qed.

Lemma small_items fields : Forall small_item fields -> Forall is_item fields.
Proof. apply List.Forall_impl. by intros ? []. Qed.

(** The tail of a signed transaction. *)
Definition sig_fields (sg : TransactionSignature) : list (list byte) :=
  [rlp_encode_u64 (Z.b2z (sig_y_parity sg)); rlp_encode_word (sig_r sg); rlp_encode_word (sig_s sg)].

Definition legacy_sig_fields (chain_id : Z) (sg : TransactionSignature) : list (list byte) :=
  [rlp_encode_u64 (legacy_v chain_id (sig_y_parity sg)); rlp_encode_word (sig_r sg);
   rlp_encode_word (sig_s sg)].

Lemma sig_fields_small v sg :
  wf_signature sg ->
  Forall small_item [rlp_encode_u64 v; rlp_encode_word (sig_r sg); rlp_encode_word (sig_s sg)].
Proof. intros []. repeat (constructor; auto with wire). Qed.

Lemma concat_nonempty_item (x : list byte) l : x <> [] -> concat (x :: l) <> [].
Proof. intros Hx E. simpl in E. by apply app_eq_nil in E as [? _]. Qed.

Lemma rlp_encode_u64_nonempty v : rlp_encode_u64 v <> [].
Proof.
  destruct (short_u64 v) as (bs & -> & _).
  destruct (rlp_encode_bytes_nonempty bs []) as (b & l & E). rewrite app_nil_r in E. by rewrite E.
Qed.

Lemma encode_typed_signing_payload_ok ty fields sg :
  Forall small_item fields -> wf_signature sg ->
  encode_typed_signing_payload (concat (fields ++ sig_fields sg)) (length fields) ty =
  Ok (encode_typed_rlp ty (concat fields)).
Proof.
  intros Hf Hs. unfold encode_typed_signing_payload.
  rewrite concat_app, take_raw_fields_concat by (by apply small_items). cbn [res_bind].
  rewrite bool_decide_eq_false_2; [done|].
  apply concat_nonempty_item, rlp_encode_u64_nonempty.
Qed.

Lemma decode_typed_list ty fields :
  fits (concat fields) ->
  decode_rlp_list (drop 1 (encode_typed_rlp ty (concat fields))) = Ok (concat fields).
Proof.
  intros Hf. unfold encode_typed_rlp, rlp_encode_list_payload.
  rewrite rlp_header_out, <- app_assoc. by apply decode_encode_rlp_list.
Qed.

(** One decoding step: the field in front of the cursor is read back. *)
Ltac wire_step :=
  first [ rewrite rlp_take_u64_encode by eauto with wire
        | rewrite rlp_take_u128_encode by eauto with wire
        | rewrite rlp_take_word_encode by eauto with wire
        | rewrite rlp_take_optional_address_encode by eauto with wire
        | rewrite rlp_decode_access_list_encode by eauto with wire
        | rewrite rlp_take_bytes_encode by eauto with wire ];
  cbn [res_bind].

Lemma in_u64_b2z b : in_u64 (Z.b2z b).
Proof. destruct b; ints; simpl; lia. Qed.
Lemma b2z_eqb b : (Z.b2z b =? 1) = b.
Proof. by destruct b. Qed.
Lemma b2z_ltb b : (1 <? Z.b2z b) = false.
Proof. by destruct b. Qed.
#[local] Hint Resolve in_u64_b2z : wire.
#[local] Hint Resolve wf_tx_chain_id wf_tx_nonce wf_tx_max_fee wf_tx_priority wf_tx_gas_limit
  wf_tx_value wf_tx_payload : wire.

Lemma rlp_tail_word w : wf_hash w -> rlp_take_word (rlp_encode_word w) = Ok (w, []).
Proof. intros. rewrite <- (app_nil_r (rlp_encode_word w)). by apply rlp_take_word_encode. Qed.

(** The decoders of the typed transactions read the signed bytes back up to
    the signature check. *)
Lemma decode_eip1559_signed t sg :
  wire_ok t -> tx_transaction_type t = 2 -> wf_signature sg ->
  let raw := encode_typed_rlp 2 (concat (typed_fields t ++ sig_fields sg)) in
  decode_eip1559_transaction raw =
  (reject_high_s_signature (sig_s sg) ;?
   let? signer := recover_signer (sig_y_parity sg) (sig_r sg) (sig_s sg)
                    (encode_typed_rlp 2 (concat (typed_fields t))) in
   Ok {| tx_chain_id := tx_chain_id t; tx_transaction_type := 2; tx_nonce := tx_nonce t;
         tx_from := signer; tx_to := tx_to t; tx_value := tx_value t;
         tx_gas_limit := tx_gas_limit t; tx_max_fee_per_gas := tx_max_fee_per_gas t;
         tx_max_priority_fee_per_gas := tx_max_priority_fee_per_gas t;
         tx_payload := tx_payload t; tx_access_list := tx_access_list t;
         tx_signature := Some sg; tx_external_hash := Some (keccak256 raw) |}).
Proof.
  intros H Ht Hs raw. pose proof (wire_wf _ H) as W. pose proof Hs as [Hr1 Hs1].
  pose proof (typed_fields_small t H) as Hf.
  unfold decode_eip1559_transaction. fold raw. set (rh := keccak256 raw). clearbody rh.
  unfold raw. clear raw. rewrite decode_typed_list.
  2: { apply small_items_fit; [apply Forall_app; split; [done|by apply sig_fields_small]|].
       unfold typed_fields. rewrite Ht. simpl. lia. }
  cbn [res_bind].
  assert (9%nat = length (typed_fields t)) as Hlen by (unfold typed_fields; rewrite Ht; done).
  rewrite Hlen, encode_typed_signing_payload_ok by done. cbn [res_bind].
  set (sp := encode_typed_rlp 2 (concat (typed_fields t))). clearbody sp. clear Hlen Hf.
  unfold typed_fields, sig_fields. rewrite Ht. change (2 =? 2) with true.
  cbn [app concat]. rewrite app_nil_r. wire_step.
  unfold validate_raw_chain_id. rewrite (wire_chain t H), Z.eqb_refl. cbn [negb res_bind].
  do 7 wire_step.
  replace (MAX_TRANSACTION_PAYLOAD_BYTES <? Z.of_nat (length (tx_payload t))) with false
    by (pose proof (wire_payload t H); lia).
  do 2 wire_step. rewrite b2z_ltb, b2z_eqb. wire_step. rewrite rlp_tail_word by done. cbn [res_bind].
  rewrite bool_decide_eq_true_2 by done. cbn [negb]. destruct sg; done.
Qed.

Lemma decode_eip2930_signed t sg :
  wire_ok t -> tx_transaction_type t = 1 -> wf_signature sg ->
  let raw := encode_typed_rlp 1 (concat (typed_fields t ++ sig_fields sg)) in
  decode_eip2930_transaction raw =
  (reject_high_s_signature (sig_s sg) ;?
   let? signer := recover_signer (sig_y_parity sg) (sig_r sg) (sig_s sg)
                    (encode_typed_rlp 1 (concat (typed_fields t))) in
   Ok {| tx_chain_id := tx_chain_id t; tx_transaction_type := 1; tx_nonce := tx_nonce t;
         tx_from := signer; tx_to := tx_to t; tx_value := tx_value t;
         tx_gas_limit := tx_gas_limit t; tx_max_fee_per_gas := tx_max_fee_per_gas t;
         tx_max_priority_fee_per_gas := 0;
         tx_payload := tx_payload t; tx_access_list := tx_access_list t;
         tx_signature := Some sg; tx_external_hash := Some (keccak256 raw) |}).
Proof.
  intros H Ht Hs raw. pose proof (wire_wf _ H) as W. pose proof Hs as [Hr1 Hs1].
  pose proof (typed_fields_small t H) as Hf.
  unfold decode_eip2930_transaction. fold raw. set (rh := keccak256 raw). clearbody rh.
  unfold raw. clear raw. rewrite decode_typed_list.
  2: { apply small_items_fit; [apply Forall_app; split; [done|by apply sig_fields_small]|].
       unfold typed_fields. rewrite Ht. simpl. lia. }
  cbn [res_bind].
  assert (8%nat = length (typed_fields t)) as Hlen by (unfold typed_fields; rewrite Ht; done).
  rewrite Hlen, encode_typed_signing_payload_ok by done. cbn [res_bind].
  set (sp := encode_typed_rlp 1 (concat (typed_fields t))). clearbody sp. clear Hlen Hf.
  unfold typed_fields, sig_fields. rewrite Ht. change (1 =? 2) with false.
  cbn [app concat]. rewrite app_nil_r. wire_step.
  unfold validate_raw_chain_id. rewrite (wire_chain t H), Z.eqb_refl. cbn [negb res_bind].
  do 6 wire_step.
  replace (MAX_TRANSACTION_PAYLOAD_BYTES <? Z.of_nat (length (tx_payload t))) with false
    by (pose proof (wire_payload t H); lia).
  do 2 wire_step. rewrite b2z_ltb, b2z_eqb. wire_step. rewrite rlp_tail_word by done. cbn [res_bind].
  rewrite bool_decide_eq_true_2 by done. cbn [negb]. destruct sg; done.
Qed.

Lemma legacy_split_v_ok c y fields :
  c = MAINNET_CHAIN_ID ->
  legacy_split_v (legacy_v c y) fields =
  Ok (c, y, encode_rlp_list (fields ++ [rlp_encode_u64 c; rlp_encode_bytes []; rlp_encode_bytes []])).
Proof.
  intros ->. unfold legacy_v, legacy_split_v, MAINNET_CHAIN_ID, sat_add, sat_mul, U64_MAX.
  by destruct y.
Qed.

Lemma in_u64_legacy_v c y : 0 <= c -> in_u64 (legacy_v c y).
Proof. intros. unfold legacy_v. destruct y; ints; simpl; lia. Qed.
#[local] Hint Resolve in_u64_legacy_v : wire.

Lemma whole_field {A} err (take : list byte -> res string (A * list byte)) x a :
  (forall rest, take (x ++ rest) = Ok (a, rest)) -> whole err (take x) = Ok a.
Proof. intros H. rewrite <- (app_nil_r x), H. done. Qed.

Lemma decode_legacy_signed t sg :
  wire_ok t -> tx_transaction_type t = 0 -> wf_signature sg ->
  let raw := encode_rlp_list (legacy_fields t ++ legacy_sig_fields (tx_chain_id t) sg) in
  decode_legacy_transaction raw =
  (reject_high_s_signature (sig_s sg) ;?
   let? signer := recover_signer (sig_y_parity sg) (sig_r sg) (sig_s sg)
                    (encode_rlp_list (legacy_fields t ++
                       [rlp_encode_u64 (tx_chain_id t); rlp_encode_bytes []; rlp_encode_bytes []])) in
   Ok {| tx_chain_id := tx_chain_id t; tx_transaction_type := 0; tx_nonce := tx_nonce t;
         tx_from := signer; tx_to := tx_to t; tx_value := tx_value t;
         tx_gas_limit := tx_gas_limit t; tx_max_fee_per_gas := tx_max_fee_per_gas t;
         tx_max_priority_fee_per_gas := 0;
         tx_payload := tx_payload t; tx_access_list := [];
         tx_signature := Some sg; tx_external_hash := Some (keccak256 raw) |}).
Proof.
  intros H Ht Hs raw. pose proof (wire_wf _ H) as W. pose proof Hs as [Hr1 Hs1].
  pose proof (legacy_fields_small t H) as Hf.
  unfold decode_legacy_transaction. fold raw. set (rh := keccak256 raw). clearbody rh.
  unfold raw. clear raw. rewrite decode_encode_rlp_list.
  2: { apply small_items_fit; [apply Forall_app; split; [done|by apply sig_fields_small]|].
       simpl. lia. }
  cbn [res_bind]. rewrite concat_app. change 6%nat with (length (legacy_fields t)).
  rewrite take_raw_fields_concat by (by apply small_items). cbn [res_bind].
  unfold legacy_fields at 1 2 3 4 5 6. cbn [lookup list_lookup expect res_bind].
  unfold decode_u64_field, decode_u128_field, decode_bytes_field.
  rewrite !(whole_field _ rlp_take_u64 _ (tx_nonce t)) by (intros; apply rlp_take_u64_encode; auto with wire).
  cbn [res_bind].
  rewrite !(whole_field _ rlp_take_u128 _ (tx_max_fee_per_gas t))
    by (intros; apply rlp_take_u128_encode; auto with wire).
  cbn [res_bind].
  rewrite !(whole_field _ rlp_take_u64 _ (tx_gas_limit t)) by (intros; apply rlp_take_u64_encode; auto with wire).
  cbn [res_bind].
  rewrite <- (app_nil_r (rlp_encode_bytes (default [] (tx_to t)))).
  rewrite rlp_take_optional_address_encode by eauto with wire. cbn [res_bind].
  rewrite bool_decide_eq_true_2 by done. cbn [negb].
  rewrite !(whole_field _ rlp_take_u128 _ (tx_value t))
    by (intros; apply rlp_take_u128_encode; auto with wire).
  cbn [res_bind].
  rewrite !(whole_field _ rlp_take_bytes _ (tx_payload t))
    by (intros; apply rlp_take_bytes_encode; auto with wire).
  cbn [res_bind].
  replace (MAX_TRANSACTION_PAYLOAD_BYTES <? Z.of_nat (length (tx_payload t))) with false
    by (pose proof (wire_payload t H); lia).
  unfold legacy_sig_fields. cbn [concat]. rewrite app_nil_r.
  rewrite rlp_take_u64_encode by (apply in_u64_legacy_v; rewrite (wire_chain t H); done).
  cbn [res_bind]. wire_step. rewrite rlp_tail_word by done. cbn [res_bind].
  rewrite bool_decide_eq_true_2 by done. cbn [negb].
  rewrite legacy_split_v_ok by (apply H). cbn [res_bind].
  unfold validate_raw_chain_id. rewrite (wire_chain t H), Z.eqb_refl. cbn [negb res_bind].
  destruct sg; done.
Qed.

(** ** Signing payload and signed bytes, by type *)

Definition signing_payload_of (t : Transaction) : list byte :=
  if tx_transaction_type t =? 0 then
    encode_rlp_list (legacy_fields t ++
      [rlp_encode_u64 (tx_chain_id t); rlp_encode_bytes []; rlp_encode_bytes []])
  else encode_typed_rlp (tx_transaction_type t) (concat (typed_fields t)).

Definition signed_bytes_of (t : Transaction) (sg : TransactionSignature) : list byte :=
  if tx_transaction_type t =? 0 then
    encode_rlp_list (legacy_fields t ++ legacy_sig_fields (tx_chain_id t) sg)
  else encode_typed_rlp (tx_transaction_type t) (concat (typed_fields t ++ sig_fields sg)).

Lemma eip1559_signing_fields t :
  tx_transaction_type t = 2 -> Eip1559.signing_fields t = typed_fields t.
Proof.
  intros Ht. unfold Eip1559.signing_fields, typed_fields. rewrite Ht.
  change (2 =? 2) with true. cbn [app].
  destruct (eip1559_encoders_eq 0 [] [] (tx_access_list t) []) as (_ & _ & _ & _ & -> & _).
  reflexivity.
Qed.

Lemma transaction_signing_payload_eq t :
  wire_ok t -> transaction_signing_payload t = Ok (signing_payload_of t).
Proof.
  intros H. unfold transaction_signing_payload, signing_payload_of.
  destruct (wire_type t H) as [Ht|[Ht|Ht]]; rewrite Ht; simpl Z.eqb; cbn iota.
  - reflexivity.
  - unfold typed_fields. rewrite Ht. reflexivity.
  - unfold Eip1559.eip1559_signing_payload. rewrite Ht, eip1559_signing_fields by done. simpl Z.eqb.
    cbn [negb]. destruct (eip1559_encoders_eq 0 [] [] [] (concat (typed_fields t)))
      as (_ & _ & _ & _ & _ & ->). done.
Qed.

Lemma transaction_signed_bytes_eq t sg :
  wire_ok t -> tx_signature t = Some sg -> transaction_signed_bytes t = Ok (signed_bytes_of t sg).
Proof.
  intros H Hs. unfold transaction_signed_bytes, signed_bytes_of. rewrite Hs. cbn [ok_or res_bind].
  destruct (wire_type t H) as [Ht|[Ht|Ht]]; rewrite Ht; simpl Z.eqb; cbn iota.
  - reflexivity.
  - unfold typed_fields. rewrite Ht. reflexivity.
  - unfold Eip1559.eip1559_signed_bytes. rewrite Ht, Hs, eip1559_signing_fields by done. simpl Z.eqb.
    cbn [negb ok_or res_bind].
    destruct (eip1559_encoders_eq 0 (sig_r sg) [] [] (concat (typed_fields t ++ sig_fields sg)))
      as (_ & _ & Hr & _ & _ & Hp).
    destruct (eip1559_encoders_eq 0 (sig_s sg) [] [] []) as (_ & _ & Hw & _ & _ & _).
    rewrite <- Hp. unfold sig_fields. rewrite Hr, Hw. reflexivity.
Qed.

Lemma signed_bytes_head t sg :
  wire_ok t -> wf_signature sg -> exists b,
  head (signed_bytes_of t sg) = Some b /\
  (tx_transaction_type t = 0 -> 192 <= u8_val b) /\
  (tx_transaction_type t <> 0 -> u8_val b = tx_transaction_type t).
Proof.
  intros H Hs. unfold signed_bytes_of.
  destruct (Z.eqb_spec (tx_transaction_type t) 0) as [Ht|Ht].
  - unfold encode_rlp_list, rlp_encode_list_payload.
    assert (fits (concat (legacy_fields t ++ legacy_sig_fields (tx_chain_id t) sg))) as Hf.
    { apply small_items_fit; [|simpl; lia]. apply Forall_app. split;
        [by apply legacy_fields_small|by apply sig_fields_small]. }
    set (len := Z.of_nat _). assert (0 <= len <= U64_MAX) as Hlen by (unfold len, fits in *; lia).
    unfold rlp_encode_header, push. destruct (Z.ltb_spec len 56); cbn [app head]; eexists;
      (split; [done|]); (split; [|done]); intros _.
    + rewrite u8_val_as_u8_small; lia.
    + destruct (rlp_len_bytes_spec 8 len) as (_ & Hl & _).
      { change (256 ^ Z.of_nat 8) with (U64_MAX + 1). lia. }
      rewrite length_reverse, u8_val_as_u8_small; lia.
  - unfold encode_typed_rlp, rlp_encode_list_payload. rewrite rlp_header_out. cbn [app head].
    eexists. split; [done|]. split; [done|]. intros _. apply u8_val_as_u8_small.
    destruct (wire_type t H) as [?|[?|?]]; lia.
Qed.

(** Decoding the signed bytes is the signature check on the fields. *)
Lemma decode_raw_signed t sg raw :
  wire_ok t -> wf_signature sg -> tx_signature t = Some sg ->
  decode_hex raw = Ok (signed_bytes_of t sg) ->
  high_s (sig_s sg) = false ->
  recover (sig_y_parity sg) (sig_r sg) (sig_s sg) (keccak256 (signing_payload_of t)) = Some (tx_from t) ->
  decode_raw_transaction raw = Ok (with_external_hash t (keccak256 (signed_bytes_of t sg))).
Proof.
  intros H Hs Hsig Hraw Hh Hrec. unfold decode_raw_transaction. rewrite Hraw. cbn [res_bind].
  destruct (signed_bytes_head t sg H Hs) as (b & -> & Hb0 & Hb).
  pose proof (wire_priority t H) as Hp. pose proof (wire_legacy_access t H) as Hl.
  unfold signing_payload_of, signed_bytes_of, with_external_hash in *. rewrite Hsig.
  destruct (wire_type t H) as [Ht|[Ht|Ht]]; rewrite Ht in *; simpl Z.eqb in *; cbn iota in *.
  - specialize (Hb0 eq_refl).
    replace (u8_val b =? 1) with false by lia. replace (u8_val b =? 2) with false by lia.
    replace (192 <=? u8_val b) with true by lia.
    rewrite decode_legacy_signed by done. unfold reject_high_s_signature, recover_signer.
    rewrite Hh. cbn [res_bind]. rewrite Hrec. cbn [ok_or res_bind].
    rewrite Hp, Hl by done. done.
  - rewrite Hb by done. simpl Z.eqb. cbn iota.
    rewrite decode_eip2930_signed by done. unfold reject_high_s_signature, recover_signer.
    rewrite Hh. cbn [res_bind]. rewrite Hrec. cbn [ok_or res_bind]. rewrite Hp by done. done.
  - rewrite Hb by done. simpl Z.eqb. cbn iota.
    rewrite decode_eip1559_signed by done. unfold reject_high_s_signature, recover_signer.
    rewrite Hh. cbn [res_bind]. rewrite Hrec. cbn [ok_or res_bind]. done.
Qed.

(** What the signature check accepts. *)
Lemma verify_transaction_signature_ok t :
  wire_ok t ->
  verify_transaction_signature t = Ok tt <->
  exists sg, tx_signature t = Some sg /\ high_s (sig_s sg) = false /\
    recover (sig_y_parity sg) (sig_r sg) (sig_s sg) (keccak256 (signing_payload_of t)) = Some (tx_from t) /\
    (tx_external_hash t = None \/ tx_external_hash t = Some (keccak256 (signed_bytes_of t sg))).
Proof.
  intros H. unfold verify_transaction_signature, reject_high_s_signature, recover_signer.
  destruct (tx_signature t) as [sg|] eqn:Hs; cbn [ok_or res_bind].
  2: { split; [done|]. by intros (? & [=] & _). }
  rewrite transaction_signing_payload_eq, (transaction_signed_bytes_eq t sg) by done.
  destruct (high_s (sig_s sg)) eqn:Hh; cbn [res_bind].
  { split; [done|]. intros (? & [= <-] & ? & _). congruence. }
  destruct (recover _ _ _ _) as [a|] eqn:Hr; cbn [ok_or res_bind].
  2: { split; [done|]. intros (? & [= <-] & _ & ? & _). congruence. }
  case_bool_decide as Ha; cbn [negb].
  2: { split; [done|]. intros (? & [= <-] & _ & ? & _). congruence. }
  subst a. destruct (tx_external_hash t) as [e|]; [|split; eauto 10].
  case_bool_decide; cbn [negb]; split; try done.
  - intros _. exists sg. subst. auto.
  - intros (? & [= <-] & _ & _ & [?|?]); congruence.
Qed.

(** ** Decoded transactions *)

Lemma take_raw_fields_total n input : take_raw_fields n input <> Panic.
Proof. revert input. induction n as [|n IH]; intros input; simpl; total. Qed.

Lemma take_raw_fields_length n input fields rest :
  take_raw_fields n input = Ok (fields, rest) -> length fields = n.
Proof.
  revert input fields rest. induction n as [|n IH]; intros input fields rest E; simpl in E.
  - by injection E as <- _.
  - apply res_bind_ok in E as ([f r] & _ & E). apply res_bind_ok in E as ([fs r'] & Hfs & E).
    injection E as <- _. simpl. f_equal. by eapply IH.
Qed.

Lemma take_raw_fields_app n input fields rest :
  take_raw_fields n input = Ok (fields, rest) -> input = concat fields ++ rest.
Proof.
  revert input fields rest. induction n as [|n IH]; intros input fields rest E; simpl in E.
  - by injection E as <- <-.
  - apply res_bind_ok in E as ([f r] & Hr & E). apply res_bind_ok in E as ([fs r'] & Hfs & E).
    injection E as <- <-. apply rlp_take_raw_app in Hr as ->. apply IH in Hfs as ->.
    simpl. by rewrite app_assoc.
Qed.

Lemma expect_total {A} (l : list A) i : (i < length l)%nat -> expect (E := string) (l !! i) <> Panic.
Proof. intros H. destruct (lookup_lt_is_Some_2 l i H) as [x ->]. done. Qed.

#[local] Hint Resolve take_raw_fields_total : no_panic.

Lemma checks_total :
  (forall c, validate_raw_chain_id c <> Panic) /\ (forall w, reject_high_s_signature w <> Panic) /\
  (forall y r s p, recover_signer y r s p <> Panic) /\
  (forall p n ty, encode_typed_signing_payload p n ty <> Panic) /\
  (forall v f, legacy_split_v v f <> Panic).
Proof.
  unfold validate_raw_chain_id, reject_high_s_signature, recover_signer,
    encode_typed_signing_payload, legacy_split_v.
  repeat split; intros; total.
Qed.

Lemma decode_legacy_total bs : decode_legacy_transaction bs <> Panic.
Proof.
  destruct checks_total as (? & ? & ? & ? & ?).
  unfold decode_legacy_transaction, decode_u64_field, decode_u128_field, decode_bytes_field.
  apply res_bind_total; [total|]. intros payload _.
  apply res_bind_total; [total|]. intros [fields rest] Hf. apply take_raw_fields_length in Hf.
  pose proof (expect_total fields) as Hx. rewrite Hf in Hx.
  repeat first [ done | solve [eauto with no_panic] | apply Hx; lia
               | apply res_bind_total; [|intros ? ?] | case_match ].
Qed.

Lemma decode_raw_total raw : decode_raw_transaction raw <> Panic.
Proof.
  destruct checks_total as (? & ? & ? & ? & ?). pose proof decode_legacy_total.
  unfold decode_raw_transaction, decode_hex. apply res_bind_total; [total|]. intros bs _.
  destruct (head bs); [|done].
  unfold decode_eip2930_transaction, decode_eip1559_transaction. total.
Qed.

(** Invert one successful decoding step after the other. *)
Ltac dec_inv :=
  repeat match goal with
  | H : res_bind _ _ = Ok _ |- _ =>
      apply res_bind_ok in H; destruct H as (? & ? & H)
  | H : (if ?b then _ else _) = Ok _ |- _ => destruct b eqn:?; try discriminate H
  | H : (let '(_, _) := ?p in _) = Ok _ |- _ => destruct p
  | H : Ok _ = Ok _ |- _ => injection H as H
  end.

Lemma validate_raw_chain_id_ok c u : validate_raw_chain_id c = Ok u -> c = MAINNET_CHAIN_ID.
Proof. unfold validate_raw_chain_id. destruct (Z.eqb_spec c MAINNET_CHAIN_ID); done. Qed.

Lemma reject_high_s_ok s u : reject_high_s_signature s = Ok u -> high_s s = false.
Proof. unfold reject_high_s_signature. by destruct (high_s s). Qed.

Lemma recover_signer_ok y r s p a :
  recover_signer y r s p = Ok a ->
  recover y r s (keccak256 p) = Some a /\ wf_address a.
Proof.
  unfold recover_signer. destruct (recover _ _ _ _) as [a'|] eqn:E; [|done].
  intros [= <-]. split; [done|]. eapply recover_length, E.
Qed.

(** A field that is read whole. *)
Definition reads {A} (read : list byte -> res string (A * list byte)) (field : list byte) (a : A) : Prop :=
  read field = Ok (a, []).

(** The raw fields of a transaction that its signature covers, in their order:
    each one is read as the value the transaction has. *)
Inductive fields_read (t : Transaction) : list (list byte) -> Prop :=
| fields_legacy n p g to v i :
    tx_transaction_type t = 0 -> tx_access_list t = [] -> tx_max_priority_fee_per_gas t = 0 ->
    reads rlp_take_u64 n (tx_nonce t) -> reads rlp_take_u128 p (tx_max_fee_per_gas t) ->
    reads rlp_take_u64 g (tx_gas_limit t) -> reads rlp_take_optional_address to (tx_to t) ->
    reads rlp_take_u128 v (tx_value t) -> reads rlp_take_bytes i (tx_payload t) ->
    fields_read t [n; p; g; to; v; i]
| fields_2930 c n p g to v i al :
    tx_transaction_type t = 1 -> tx_max_priority_fee_per_gas t = 0 ->
    reads rlp_take_u64 c (tx_chain_id t) ->
    reads rlp_take_u64 n (tx_nonce t) -> reads rlp_take_u128 p (tx_max_fee_per_gas t) ->
    reads rlp_take_u64 g (tx_gas_limit t) -> reads rlp_take_optional_address to (tx_to t) ->
    reads rlp_take_u128 v (tx_value t) -> reads rlp_take_bytes i (tx_payload t) ->
    reads rlp_decode_access_list al (tx_access_list t) ->
    fields_read t [c; n; p; g; to; v; i; al]
| fields_1559 c n tip cap g to v i al :
    tx_transaction_type t = 2 ->
    reads rlp_take_u64 c (tx_chain_id t) -> reads rlp_take_u64 n (tx_nonce t) ->
    reads rlp_take_u128 tip (tx_max_priority_fee_per_gas t) -> reads rlp_take_u128 cap (tx_max_fee_per_gas t) ->
    reads rlp_take_u64 g (tx_gas_limit t) -> reads rlp_take_optional_address to (tx_to t) ->
    reads rlp_take_u128 v (tx_value t) -> reads rlp_take_bytes i (tx_payload t) ->
    reads rlp_decode_access_list al (tx_access_list t) ->
    fields_read t [c; n; tip; cap; g; to; v; i; al].

(** The three fields after them: the parity, which on a legacy transaction
    also carries the chain id, and the two scalars. *)
Definition signature_read (t : Transaction) (sg : TransactionSignature) (tail : list byte) : Prop :=
  exists v r s, tail = v ++ r ++ s /\
    reads rlp_take_u64 v (if tx_transaction_type t =? 0
      then 35 + 2 * tx_chain_id t + Z.b2z (sig_y_parity sg) else Z.b2z (sig_y_parity sg)) /\
    reads rlp_take_word r (sig_r sg) /\ reads rlp_take_word s (sig_s sg).

(** What is hashed and signed: the typed envelope of the fields, or the
    EIP-155 list of the legacy fields with the chain id. *)
Definition signed_payload (t : Transaction) (fields : list (list byte)) : list byte :=
  if tx_transaction_type t =? 0
  then encode_rlp_list (fields ++ [rlp_encode_u64 (tx_chain_id t); rlp_encode_bytes []; rlp_encode_bytes []])
  else encode_typed_rlp (tx_transaction_type t) (concat fields).

(** The outcome of a decoder: the raw bytes are the list of the fields of the
    transaction, each read as its value, and of its low signature, which over
    exactly these fields recovers to the sender. *)
Definition decoded (raw_bytes : list byte) (t : Transaction) : Prop :=
  wire_ok t /\ tx_external_hash t = Some (keccak256 raw_bytes) /\
  exists sg fields tail, tx_signature t = Some sg /\ high_s (sig_s sg) = false /\
    fields_read t fields /\ signature_read t sg tail /\
    decode_rlp_list (if tx_transaction_type t =? 0 then raw_bytes else drop 1 raw_bytes) =
      Ok (concat fields ++ tail) /\
    recover (sig_y_parity sg) (sig_r sg) (sig_s sg) (keccak256 (signed_payload t fields)) = Some (tx_from t).

(** The next field of the signed ones is read as what the decoder reads. *)
Lemma next_field {A} (read : list byte -> res string (A * list byte)) n input fields rest a rest' :
  by_item read -> take_raw_fields (S n) input = Ok (fields, rest) -> read input = Ok (a, rest') ->
  exists f fields', fields = f :: fields' /\ reads read f a /\ take_raw_fields n rest' = Ok (fields', rest).
Proof.
  intros Hi E Ha. cbn [take_raw_fields] in E. apply res_bind_ok in E as ([f mid] & Hf & E).
  apply res_bind_ok in E as ([fs r] & Hfs & [= <- <-]).
  destruct (by_item_field _ _ _ _ _ _ Hi Hf Ha) as [-> Hr]. by exists f, fs.
Qed.

Lemma read_front {A} (read : list byte -> res string (A * list byte)) input a rest :
  by_item read -> read input = Ok (a, rest) -> exists f, input = f ++ rest /\ reads read f a.
Proof.
  intros Hi Ha. pose proof Hi as [g Hg]. pose proof Ha as Hb. rewrite Hg in Hb.
  apply res_bind_ok in Hb as ([i r] & Hit & Hb). apply res_bind_ok in Hb as (b & _ & [= _ ->]).
  apply rlp_take_item_suffix in Hit as Hs. destruct Hs as [f ->].
  assert (rlp_take_raw (f ++ rest) = Ok (f, rest)) as Hr by (by eapply rlp_take_raw_item).
  exists f. split; [done|]. by destruct (by_item_field _ _ _ _ _ _ Hi Hr Ha).
Qed.

Lemma signature_read_intro t sg v p1 p2 input :
  rlp_take_u64 input = Ok (v, p1) -> rlp_take_word p1 = Ok (sig_r sg, p2) -> rlp_take_word p2 = Ok (sig_s sg, []) ->
  v = (if tx_transaction_type t =? 0 then 35 + 2 * tx_chain_id t + Z.b2z (sig_y_parity sg)
       else Z.b2z (sig_y_parity sg)) ->
  signature_read t sg input.
Proof.
  intros (f1 & -> & H1)%(read_front _ _ _ _ by_item_u64) (f2 & -> & H2)%(read_front _ _ _ _ by_item_word)
    (f3 & -> & H3)%(read_front _ _ _ _ by_item_word) ->.
  exists f1, f2, f3. by rewrite app_nil_r.
Qed.

Lemma access_list_ok_wf al :
  access_list_ok al -> Forall wf_access_item al /\ fits al.
Proof.
  intros [Hi Hn _]. split.
  - eapply List.Forall_impl, Hi. intros i [Ha Hk Hc]. split; [done|]. split; [done|].
    unfold fits, U64_MAX, MAX_ACCESS_LIST_STORAGE_KEYS_PER_ENTRY in *. lia.
  - unfold fits, U64_MAX, MAX_ACCESS_LIST_ENTRIES in *. lia.
Qed.

(** Assemble [decoded] from the facts of the steps. *)
Lemma decoded_intro raw c ty n a to v g mf mp p al y r s fields tail :
  let t := {| tx_chain_id := c; tx_transaction_type := ty; tx_nonce := n; tx_from := a;
    tx_to := to; tx_value := v; tx_gas_limit := g; tx_max_fee_per_gas := mf;
    tx_max_priority_fee_per_gas := mp; tx_payload := p; tx_access_list := al;
    tx_signature := Some {| sig_y_parity := y; sig_r := r; sig_s := s |};
    tx_external_hash := Some (keccak256 raw) |} in
  c = MAINNET_CHAIN_ID -> in_u64 n ->
  (forall x, to = Some x -> wf_address x) -> in_u128 v -> in_u64 g -> in_u128 mf -> in_u128 mp ->
  (MAX_TRANSACTION_PAYLOAD_BYTES <? Z.of_nat (length p)) = false ->
  access_list_ok al -> wf_hash r -> wf_hash s -> high_s s = false ->
  recover_signer y r s (signed_payload t fields) = Ok a ->
  fields_read t fields -> signature_read t {| sig_y_parity := y; sig_r := r; sig_s := s |} tail ->
  decode_rlp_list (if ty =? 0 then raw else drop 1 raw) = Ok (concat fields ++ tail) ->
  decoded raw t.
Proof.
  intros t -> Hn Hto Hv Hg Hmf Hmp Hp Hal Hr Hs Hh (Hrec & Ha)%recover_signer_ok Hf Ht Hraw.
  apply Z.ltb_ge in Hp. destruct (access_list_ok_wf _ Hal).
  assert ((ty = 0 /\ al = [] \/ ty = 1 \/ ty = 2) /\ (ty <> 2 -> mp = 0)) as [Hty Hp0].
  { subst t. inversion Hf; simpl in *; subst; (split; [auto|done]). }
  split; [|split; [done|]].
  - assert (ty = 0 \/ ty = 1 \/ ty = 2) as Hty' by (destruct Hty as [[? _]|[?|?]]; auto).
    split; simpl; try done; [|by destruct Hty as [[? ?]|[?|?]]; subst].
    split; simpl; try done.
    + ints. destruct Hty' as [?|[?|?]]; subst ty; lia.
    + unfold fits, U64_MAX, MAX_TRANSACTION_PAYLOAD_BYTES in *. lia.
    + by intros ? [= <-].
  - eexists _, fields, tail. done.
Qed.

Lemma encode_typed_signing_payload_inv payload n ty out :
  encode_typed_signing_payload payload n ty = Ok out ->
  exists fields tail, take_raw_fields n payload = Ok (fields, tail) /\
    out = encode_typed_rlp ty (concat fields).
Proof.
  unfold encode_typed_signing_payload. intros E. apply res_bind_ok in E as ([fields rest] & Hf & E).
  case_bool_decide; [done|]. injection E as <-. by exists fields, rest.
Qed.

Lemma legacy_split_v_inv v fields c y out :
  legacy_split_v v fields = Ok (c, y, out) ->
  v = 35 + 2 * c + Z.b2z y /\
  out = encode_rlp_list (fields ++ [rlp_encode_u64 c; rlp_encode_bytes []; rlp_encode_bytes []]).
Proof.
  unfold legacy_split_v. destruct (_ || _); [done|]. destruct (Z.leb_spec 35 v); [|done].
  intros [= <- <- <-]. split; [|done]. destruct (Z.eqb_spec ((v - 35) mod 2) 1); cbn [Z.b2z]; dlia.
Qed.

Lemma whole_ok {A} err (m : res string (A * list byte)) a : whole err m = Ok a -> m = Ok (a, []).
Proof.
  unfold whole. intros E. apply res_bind_ok in E as ([x r] & -> & E). case_bool_decide; cases. by subst.
Qed.

Lemma in_u128_0 : in_u128 0.
Proof. ints. lia. Qed.

Lemma access_nil_ok : access_list_ok [].
Proof. split; [constructor|done|done]. Qed.

Lemma parity_b2z y : in_u64 y -> (1 <? y) = false -> y = Z.b2z (y =? 1).
Proof. intros Hy H. ints. destruct (Z.eqb_spec y 1); cbn [Z.b2z]; lia. Qed.

#[local] Hint Resolve rlp_take_u64_range rlp_take_u128_range rlp_take_word_wf
  rlp_take_optional_address_wf rlp_decode_access_list_ok validate_raw_chain_id_ok
  reject_high_s_ok recover_signer_ok in_u128_0 access_nil_ok : wire.
#[local] Hint Resolve by_item_bytes by_item_u64 by_item_u128 by_item_word by_item_optional_address
  by_item_access_list : wire.

(** Follow the decoder along the signed fields. *)
Ltac follow_fields :=
  repeat match goal with
  | Hf : take_raw_fields (S ?n) ?input = Ok (?fields, ?rest), Hr : ?read ?input = Ok (?a, ?mid) |- _ =>
      let Hi := fresh in assert (by_item read) as Hi by eauto with wire;
      let f := fresh "f" in let fs := fresh "fs" in let H := fresh in
      destruct (next_field read n input fields rest a mid Hi Hf Hr) as (f & fs & -> & ? & H); clear Hf Hi
  | Hf : take_raw_fields 0 _ = Ok _ |- _ => injection Hf as <- <-
  end.

(** The facts of a typed transaction. *)
Ltac typed_fields_read :=
  match goal with H : encode_typed_signing_payload _ _ _ = _ |- _ =>
    apply encode_typed_signing_payload_inv in H as (? & ? & H & ->);
    pose proof (take_raw_fields_app _ _ _ _ H); follow_fields end;
  match goal with H : negb (bool_decide (_ = [])) = false |- _ =>
    apply negb_false_iff, bool_decide_eq_true in H; subst end.

Lemma decode_eip1559_ok raw t : decode_eip1559_transaction raw = Ok t -> decoded raw t.
Proof.
  unfold decode_eip1559_transaction. intros E. dec_inv. subst t. typed_fields_read.
  eapply decoded_intro; eauto with wire; try done; [by apply fields_1559|].
  eapply signature_read_intro; eauto. apply parity_b2z; eauto with wire.
Qed.

Lemma decode_eip2930_ok raw t : decode_eip2930_transaction raw = Ok t -> decoded raw t.
Proof.
  unfold decode_eip2930_transaction. intros E. dec_inv. subst t. typed_fields_read.
  eapply decoded_intro; eauto with wire; try done; [by apply fields_2930|].
  eapply signature_read_intro; eauto. apply parity_b2z; eauto with wire.
Qed.

Lemma decode_u64_field_ok f v : decode_u64_field f = Ok v -> reads rlp_take_u64 f v /\ in_u64 v.
Proof. intros H%whole_ok. split; [done|]. by eapply rlp_take_u64_range. Qed.
Lemma decode_u128_field_ok f v : decode_u128_field f = Ok v -> reads rlp_take_u128 f v /\ in_u128 v.
Proof. intros H%whole_ok. split; [done|]. by eapply rlp_take_u128_range. Qed.
Lemma decode_bytes_field_ok f v : decode_bytes_field f = Ok v -> reads rlp_take_bytes f v.
Proof. by intros H%whole_ok. Qed.

Lemma expect_ok {A} (o : option A) (a : A) : expect (E := string) o = Ok a -> o = Some a.
Proof. destruct o; simpl; [by intros [= ->]|done]. Qed.

Lemma decode_legacy_ok raw t : decode_legacy_transaction raw = Ok t -> decoded raw t.
Proof.
  unfold decode_legacy_transaction. intros E. dec_inv. subst t.
  repeat match goal with
  | H : expect _ = Ok _ |- _ => apply expect_ok in H
  | H : decode_u64_field _ = Ok _ |- _ => apply decode_u64_field_ok in H as [? ?]
  | H : decode_u128_field _ = Ok _ |- _ => apply decode_u128_field_ok in H as [? ?]
  | H : decode_bytes_field _ = Ok _ |- _ => apply decode_bytes_field_ok in H
  | H : legacy_split_v _ _ = _ |- _ => apply legacy_split_v_inv in H as [? ->]
  | H : negb (bool_decide (_ = [])) = false |- _ =>
      apply negb_false_iff, bool_decide_eq_true in H; subst
  end.
  match goal with H : take_raw_fields 6 _ = Ok (?fs, _) |- _ =>
    pose proof (take_raw_fields_length _ _ _ _ H); apply take_raw_fields_app in H; subst;
    destruct fs as [|? [|? [|? [|? [|? [|? [|]]]]]]]; try discriminate end.
  simplify_eq/=.
  match goal with H : recover_signer _ _ _ (encode_rlp_list [?a; ?b; ?c; ?d; ?e; ?f; _; _; _]) = _ |- _ =>
    eapply decoded_intro with (fields := [a; b; c; d; e; f]); eauto with wire; try done; [by apply fields_legacy|] end.
  eapply signature_read_intro; eauto.
Qed.

Lemma decode_raw_ok raw t :
  decode_raw_transaction raw = Ok t ->
  exists raw_bytes, decode_hex raw = Ok raw_bytes /\ decoded raw_bytes t.
Proof.
  intros E. unfold decode_raw_transaction in E.
  apply res_bind_ok in E as (bs & Hb & E). exists bs. split; [done|].
  destruct (head bs); [|done]. dec_inv;
    [by apply decode_eip2930_ok|by apply decode_eip1559_ok|by apply decode_legacy_ok].
Qed.

(** ** Properties *)

(** C24: decoding a raw transaction never panics, and whatever it accepts is
    within the limits of the wire (mainnet chain id, integer ranges, payload
    and access-list sizes), carries the Keccak hash of the raw bytes, and is
    signed as a whole: the raw bytes are the list of the fields of its type,
    each read as the value the transaction has, followed by the parity (with
    the chain id on a legacy transaction) and the two scalars; the scalar [s] is
    low, and the signature recovers to the sender over exactly these fields, all
    of them, in the envelope of the type or in the EIP-155 list. *)
Theorem decode_raw_transaction_sound raw :
  decode_raw_transaction raw <> Panic /\
  forall t, decode_raw_transaction raw = Ok t ->
    exists raw_bytes, decode_hex raw = Ok raw_bytes /\ decoded raw_bytes t.
Proof. split; [apply decode_raw_total|]. intros t. apply decode_raw_ok. Qed.

(** C25: a transaction of the wire (legacy, EIP-2930 or EIP-1559) whose
    signature verifies has signed bytes, and decoding their [0x] text gives the
    transaction back with the hash of these bytes, which verifies again. *)
Theorem signed_bytes_roundtrip t :
  wire_ok t -> verify_transaction_signature t = Ok tt ->
  exists bs, transaction_signed_bytes t = Ok bs /\
    let t' := with_external_hash t (keccak256 bs) in
    decode_raw_transaction (B "0x" ++ hex_encode bs) = Ok t' /\
    verify_transaction_signature t' = Ok tt.
Proof.
  intros H V. apply verify_transaction_signature_ok in V as (sg & Hs & Hh & Hr & _); [|done].
  exists (signed_bytes_of t sg). split; [by apply transaction_signed_bytes_eq|]. intros t'.
  assert (wf_signature sg) as Hw by (by apply (wf_tx_signature _ (wire_wf _ H))).
  split.
  - apply decode_raw_signed; try done. apply decode_hex_encode.
  - assert (wire_ok t') as H'.
    { destruct H as [[] ? ? ? ? ? ?]. split; try done. }
    apply verify_transaction_signature_ok; [done|]. exists sg. repeat split; try done. by right.
Qed.

End raw.

(** A transfer signed for the stand-in recovery, of each wire type. *)
Definition sample_signature : TransactionSignature :=
  {| sig_y_parity := true; sig_r := be_bytes 32 77; sig_s := be_bytes 32 99 |}.

Definition sample_access (ty : Z) : list TransactionAccessListItem :=
  if ty =? 0 then [] else
  [{| al_address := be_bytes 20 9; al_storage_keys := [be_bytes 32 1; be_bytes 32 2] |}].

Definition sample_tx (ty : Z) (from : Address) : Transaction := {|
  tx_chain_id := MAINNET_CHAIN_ID; tx_transaction_type := ty; tx_nonce := 3;
  tx_from := from; tx_to := Some (be_bytes 20 5); tx_value := 1000;
  tx_gas_limit := 21000; tx_max_fee_per_gas := 2000000000;
  tx_max_priority_fee_per_gas := if ty =? 2 then 7 else 0;
  tx_payload := B "memo"; tx_access_list := sample_access ty;
  tx_signature := Some sample_signature; tx_external_hash := None |}.

Definition sample_signed (ty : Z) : Transaction :=
  match transaction_signing_payload (sample_tx ty ADDRESS_ZERO) with
  | Ok p => sample_tx ty (default ADDRESS_ZERO
      (@recover toy_secp true (be_bytes 32 77) (be_bytes 32 99) (@keccak256 toy_digests p)))
  | _ => sample_tx ty ADDRESS_ZERO
  end.

Lemma sample_access_ok ty : access_list_ok (sample_access ty).
Proof.
  unfold sample_access. destruct (ty =? 0); [apply access_nil_ok|].
  split; [|done|done]. apply Forall_singleton. split; [apply length_be_bytes| |done].
  apply List.Forall_cons; [apply length_be_bytes|]. apply Forall_singleton, length_be_bytes.
Qed.

Lemma sample_tx_wire ty from :
  wf_address from -> ty = 0 \/ ty = 1 \/ ty = 2 -> wire_ok (sample_tx ty from).
Proof.
  intros Hf Hty. pose proof (sample_access_ok ty) as Ha. pose proof (access_list_ok_wf _ Ha) as [].
  split; [split| | | | | |]; cbn; try done; try (ints; lia);
    try (intros ? [= <-]); try apply length_be_bytes; try (split; apply length_be_bytes).
  - destruct (ty =? 2); ints; lia.
  - intros Hn. by replace (ty =? 2) with false by lia.
  - by intros ->.
Qed.

Lemma sample_signed_wire ty : ty = 0 \/ ty = 1 \/ ty = 2 -> wire_ok (sample_signed ty).
Proof.
  intros Hty. unfold sample_signed. case_match; apply sample_tx_wire; done.
Qed.

Lemma signed_bytes_roundtrip_witness :
  Forall (fun ty => exists bs, transaction_signed_bytes (sample_signed ty) = Ok bs /\
    let t' := with_external_hash (sample_signed ty) (@keccak256 toy_digests bs) in
    @decode_raw_transaction toy_digests hex_codec toy_secp
      (B "0x" ++ @hex_encode hex_codec bs) = Ok t' /\
    @verify_transaction_signature toy_digests toy_secp t' = Ok tt) [0; 1; 2].
Proof.
  repeat (apply List.Forall_cons); [| | |apply List.Forall_nil].
  - apply (@signed_bytes_roundtrip toy_digests hex_codec toy_secp); [apply sample_signed_wire; auto|]. by vm_compute.
  - apply (@signed_bytes_roundtrip toy_digests hex_codec toy_secp); [apply sample_signed_wire; auto|]. by vm_compute.
  - apply (@signed_bytes_roundtrip toy_digests hex_codec toy_secp); [apply sample_signed_wire; auto|]. by vm_compute.
Defined.

Definition sample_raw (ty : Z) : list byte :=
  B "0x" ++ @hex_encode hex_codec (signed_bytes_of (sample_signed ty) sample_signature).

Lemma decode_sample_raw :
  @decode_raw_transaction toy_digests hex_codec toy_secp (sample_raw 2) =
  Ok (with_external_hash (sample_signed 2)
        (@keccak256 toy_digests (signed_bytes_of (sample_signed 2) sample_signature))).
Proof.
  apply decode_raw_signed; [apply sample_signed_wire; auto|split; apply length_be_bytes|done| |done|
    by vm_compute].
  apply decode_hex_encode.
Qed.

Lemma decode_raw_transaction_sound_witness :
  exists t raw_bytes, @decode_raw_transaction toy_digests hex_codec toy_secp (sample_raw 2) = Ok t /\
    @decode_hex hex_codec (sample_raw 2) = Ok raw_bytes /\ @decoded toy_digests toy_secp raw_bytes t.
Proof.
  destruct (@decode_raw_transaction_sound toy_digests hex_codec toy_secp (sample_raw 2)) as [_ H].
  pose proof decode_sample_raw as E. destruct (H _ E) as (rb & H1 & H2). eexists _, rb.
  split; [exact E|]. split; [exact H1|exact H2].
Defined.
