(* ===== verification/Pow.v ===== *)
(** [crates/blq-pow]: the proof-of-work hash BLQ-RX.

    Without the feature [native-randomx] the hash is the scratchpad loop below
    over Blake3.  With it, the hash is RandomX, called through a per-thread
    cached virtual machine ([LightState]) or, with [native-randomx-fast],
    through a shared cached dataset ([FastState]).  The C library is the class
    [RandomX]; the caches, and the order in which two threads reach the shared
    one, are modelled as state. *)

From Stdlib Require Import ZArith Lia Strings.String Strings.Byte.
From stdpp Require Import gmap list base.
From S2P Require Import Prelude Externals Primitives.
#[local] Open Scope Z_scope.

(** The RandomX library: a cache initialised with a key, an optional dataset
    computed from a cache, a virtual machine over both, and its hash.  In light
    mode (no dataset) and in fast mode the hashes are the same. *)
Class RandomX := {
  rx_cache : Type;
  rx_dataset : Type;
  rx_vm : Type;
  rx_init_cache : list byte -> rx_cache;
  rx_init_dataset : rx_cache -> rx_dataset;
  rx_create_vm : rx_cache -> option rx_dataset -> rx_vm;
  rx_calculate_hash : rx_vm -> list byte -> list byte;
  length_rx_hash : forall vm input, length (rx_calculate_hash vm input) = 32%nat;
  rx_fast_light : forall key input,
    let cache := rx_init_cache key in
    rx_calculate_hash (rx_create_vm cache (Some (rx_init_dataset cache))) input =
    rx_calculate_hash (rx_create_vm cache None) input;
}.

Definition POW_EPOCH_LENGTH : Z := 2048.
Definition TEST_SCRATCHPAD_BYTES : Z := 256 * 1024.
Definition POW_ALGORITHM `{BuildProfile} : list byte := DEFAULT_POW_ALGORITHM.

Inductive PowError := UnsupportedAlgorithm | InvalidEpoch | InvalidMixHash.

Record PowResult := { mix_hash : Hash256; final_hash : Hash256 }.

Definition epoch_for_height (height : Z) : Z := height / POW_EPOCH_LENGTH.

Section pow.
Context {BP : BuildProfile} {D : Digests} {RX : RandomX}.

Definition epoch_seed (epoch : Z) (genesis_hash : Hash256) : Hash256 :=
  blake3 (POW_ALGORITHM ++ B "-EPOCH-SEED" ++ be_bytes 8 MAINNET_CHAIN_ID ++
          be_bytes 8 epoch ++ genesis_hash).

Definition pow_preimage (header : BlockHeader) : list byte := pow_preimage_bytes header.

(** ** RandomX with the per-thread virtual machine *)

Record LightState := { light_key : list byte; light_vm : rx_vm }.

(** [hash_keyed] without [native-randomx-fast].  [alloc] tells whether the
    allocations of this call succeed; they are asserted. *)
Definition hash_keyed (alloc : bool) (light_state : option LightState) (key input : list byte)
    : res Empty_set (list byte * option LightState) :=
  let? light_state :=
    if match light_state with Some state => negb (bool_decide (light_key state = key)) | None => true end
    then
      if alloc then
        let cache := rx_init_cache key in
        Ok (Some {| light_key := key; light_vm := rx_create_vm cache None |})
      else Panic
    else Ok light_state in
  let? state := expect light_state in
  Ok (rx_calculate_hash (light_vm state) input, light_state).

(** ** RandomX with the shared dataset *)

Record FastState := { fast_key : list byte; fast_cache : rx_cache; fast_dataset : rx_dataset }.

(** The block under the write lock. *)
Definition fast_prepare (alloc : bool) (state : option FastState) (key : list byte)
    : res Empty_set (option FastState) :=
  if match state with Some item => negb (bool_decide (fast_key item = key)) | None => true end
  then
    if alloc then
      let cache := rx_init_cache key in
      Ok (Some {| fast_key := key; fast_cache := cache; fast_dataset := rx_init_dataset cache |})
    else Panic
  else Ok state.

(** The block under the read lock. *)
Definition fast_compute (alloc : bool) (state : option FastState) (input : list byte)
    : res Empty_set (list byte) :=
  let? state := expect state in
  if alloc then
    Ok (rx_calculate_hash (rx_create_vm (fast_cache state) (Some (fast_dataset state))) input)
  else Panic.

(** [hash_keyed] with [native-randomx-fast], not interleaved with another call. *)
Definition hash_keyed_fast (alloc : bool) (state : option FastState) (key input : list byte)
    : res Empty_set (list byte * option FastState) :=
  let? state := fast_prepare alloc state key in
  let? out := fast_compute alloc state input in
  Ok (out, state).

(** [native_randomx::hash] on the machine of a thread. *)
Definition native_hash (light_state : option LightState) (header : BlockHeader) (genesis_hash : Hash256)
    : res Empty_set (PowResult * option LightState) :=
  let key := epoch_seed (epoch_for_height (hdr_number header)) genesis_hash in
  let input := pow_preimage header in
  let? (output, light_state) := hash_keyed true light_state key input in
  Ok ({| mix_hash := output; final_hash := output |}, light_state).

(** ** The scratchpad loop *)

(** [usize::next_power_of_two]. *)
Definition next_power_of_two (n : Z) : Z := wrap64 (2 ^ Z.log2_up n).

Definition scratch_lane (seed input : list byte) (index : nat) : list byte :=
  blake3 (POW_ALGORITHM ++ B "-SCRATCHPAD" ++ seed ++ input ++ be_bytes 8 (Z.of_nat index)).

Definition mix_round (input : list byte) (lanes : Z) (st : list byte * list (list byte)) (round : nat)
    : res Empty_set (list byte * list (list byte)) :=
  let '(acc, memory) := st in
  let pick := Z.to_nat (Z.land (be_val (take 8 acc)) (lanes - 1)) in
  let? lane := expect (memory !! pick) in
  let acc := blake3 (POW_ALGORITHM ++ B "-MIX" ++ acc ++ lane ++ input ++ be_bytes 8 (Z.of_nat round)) in
  Ok (acc, <[pick := acc]> memory).

Definition blq_rx_hash_with_scratchpad (header : BlockHeader) (genesis_hash : Hash256)
    (scratchpad_bytes : Z) : res Empty_set PowResult :=
  let epoch := epoch_for_height (hdr_number header) in
  let seed := epoch_seed epoch genesis_hash in
  let input := pow_preimage header in
  let scratchpad := next_power_of_two (Z.max scratchpad_bytes 32) in
  let lanes := scratchpad / 32 in
  let memory := map (scratch_lane seed input) (seq 0 (Z.to_nat lanes)) in
  let rounds := Z.max (lanes * 2) 1024 in
  let? (acc, _) := fold_left (fun acc round => let? st := acc in mix_round input lanes st round)
                     (seq 0 (Z.to_nat rounds)) (Ok (seed, memory)) in
  let mix := acc in
  Ok {| mix_hash := mix; final_hash := blake3 (B "BLQ-POW-FINAL" ++ mix ++ input) |}.

Definition blq_rx_hash (header : BlockHeader) (genesis_hash : Hash256) : res Empty_set PowResult :=
  if native_randomx
  then let? (result, _) := native_hash None header genesis_hash in Ok result
  else blq_rx_hash_with_scratchpad header genesis_hash TEST_SCRATCHPAD_BYTES.

Definition validate_pow_fields (header : BlockHeader) (genesis_hash : Hash256) : res PowError unit :=
  if negb (bool_decide (hdr_pow_algorithm header = POW_ALGORITHM)) then Err UnsupportedAlgorithm
  else if negb (hdr_pow_epoch header =? epoch_for_height (hdr_number header)) then Err InvalidEpoch
  else
    let? result := lift (blq_rx_hash header genesis_hash) in
    if negb (bool_decide (hdr_mix_hash header = mix_hash result)) then Err InvalidMixHash
    else Ok tt.

(** ** The caches are transparent *)

(** The RandomX hash of an input under a key. *)
Definition randomx (key input : list byte) : list byte :=
  rx_calculate_hash (rx_create_vm (rx_init_cache key) None) input.

(** The cached machine is the one of the cached key. *)
Definition light_inv (s : option LightState) : Prop :=
  forall st, s = Some st -> light_vm st = rx_create_vm (rx_init_cache (light_key st)) None.
Definition fast_inv (s : option FastState) : Prop :=
  forall st, s = Some st ->
    fast_cache st = rx_init_cache (fast_key st) /\ fast_dataset st = rx_init_dataset (fast_cache st).

Lemma hash_keyed_ok s key input :
  light_inv s -> exists s', hash_keyed true s key input = Ok (randomx key input, s') /\ light_inv s'.
Proof.
  intros Hs. unfold hash_keyed. destruct s as [st|].
  - case_bool_decide as Hk; cbn [negb res_bind expect].
    + exists (Some st). split; [|done]. rewrite (Hs st eq_refl), Hk. done.
    + eexists. split; [done|]. by intros ? [= <-].
  - eexists. split; [done|]. by intros ? [= <-].
Qed.

Lemma fast_prepare_ok s key :
  fast_inv s -> exists st, fast_prepare true s key = Ok (Some st) /\ fast_key st = key /\
    fast_inv (Some st).
Proof.
  intros Hs. unfold fast_prepare. destruct s as [st|].
  - case_bool_decide as Hk; cbn [negb]; eexists; (split; [done|]); split; try done.
    by intros ? [= <-].
  - eexists. split; [done|]. split; [done|]. by intros ? [= <-].
Qed.

Lemma fast_compute_ok st input :
  fast_inv (Some st) -> fast_compute true (Some st) input = Ok (randomx (fast_key st) input).
Proof.
  intros H. destruct (H st eq_refl) as [Hc Hd]. unfold fast_compute. cbn [expect res_bind].
  rewrite Hd, Hc. f_equal. apply rx_fast_light.
Qed.

(** A thread of the miner or of the validator: keys and inputs hashed one
    after the other on its own machine. *)
Fixpoint hash_calls (s : option LightState) (calls : list (list byte * list byte))
    : res Empty_set (list (list byte)) :=
  match calls with
  | [] => Ok []
  | (key, input) :: calls =>
      let? (out, s) := hash_keyed true s key input in
      let? outs := hash_calls s calls in
      Ok (out :: outs)
  end.

Fixpoint hash_calls_fast (s : option FastState) (calls : list (list byte * list byte))
    : res Empty_set (list (list byte)) :=
  match calls with
  | [] => Ok []
  | (key, input) :: calls =>
      let? (out, s) := hash_keyed_fast true s key input in
      let? outs := hash_calls_fast s calls in
      Ok (out :: outs)
  end.

Lemma hash_calls_ok s calls :
  light_inv s -> hash_calls s calls = Ok (map (fun '(k, i) => randomx k i) calls).
Proof.
  revert s. induction calls as [|[k i] calls IH]; intros s Hs; [done|]. simpl.
  destruct (hash_keyed_ok s k i Hs) as (s' & -> & Hs'). cbn [res_bind]. by rewrite IH.
Qed.

Lemma hash_calls_fast_ok s calls :
  fast_inv s -> hash_calls_fast s calls = Ok (map (fun '(k, i) => randomx k i) calls).
Proof.
  revert s. induction calls as [|[k i] calls IH]; intros s Hs; [done|]. simpl.
  unfold hash_keyed_fast. destruct (fast_prepare_ok s k Hs) as (st & -> & Hk & Hs').
  cbn [res_bind]. rewrite fast_compute_ok by done. cbn [res_bind]. by rewrite IH, Hk.
Qed.

(** Any sequence of hash calls made one after the other, whatever keys it
    switches between, returns the RandomX hash of each input under the key of
    its call, on the machine of one thread and on the shared dataset.  Calls of
    several threads on the dataset are not covered: see [fast_two_keys_race]. *)
Lemma sequential_hash_calls calls :
  hash_calls None calls = Ok (map (fun '(k, i) => randomx k i) calls) /\
  hash_calls_fast None calls = hash_calls None calls.
Proof.
  rewrite hash_calls_ok, hash_calls_fast_ok by done. done.
Qed.

(** ** Two threads on the shared dataset *)

(** What is left of one [hash_keyed] call, and the steps of two of them on the
    shared [FAST_STATE]. *)
Inductive call_state :=
| Preparing (key input : list byte)
| Computing (key input : list byte)
| Done (key input out : list byte).

Inductive fast_step : option FastState * list call_state -> option FastState * list call_state -> Prop :=
| step_prepare s s' l1 l2 key input :
    fast_prepare true s key = Ok s' ->
    fast_step (s, l1 ++ Preparing key input :: l2) (s', l1 ++ Computing key input :: l2)
| step_compute s l1 l2 key input out :
    fast_compute true s input = Ok out ->
    fast_step (s, l1 ++ Computing key input :: l2) (s, l1 ++ Done key input out :: l2).

Inductive fast_steps : option FastState * list call_state -> option FastState * list call_state -> Prop :=
| fast_refl c : fast_steps c c
| fast_trans c1 c2 c3 : fast_step c1 c2 -> fast_steps c2 c3 -> fast_steps c1 c3.

(** Calls that all use one key. *)
Definition call_key (c : call_state) : list byte :=
  match c with Preparing k _ | Computing k _ | Done k _ _ => k end.

Definition call_ok (s : option FastState) (k : list byte) (c : call_state) : Prop :=
  call_key c = k /\
  match c with
  | Preparing _ _ => True
  | Computing _ _ => exists st, s = Some st /\ fast_key st = k
  | Done _ input out => out = randomx k input
  end.

Lemma call_ok_mono s s' k c :
  (forall st, s = Some st -> fast_key st = k -> exists st', s' = Some st' /\ fast_key st' = k) ->
  call_ok s k c -> call_ok s' k c.
Proof. intros H [Hk Hc]. split; [done|]. destruct c; try done. destruct Hc as (st & -> & E). eauto. Qed.

Lemma fast_step_inv k s cs s' cs' :
  fast_step (s, cs) (s', cs') -> fast_inv s -> Forall (call_ok s k) cs ->
  fast_inv s' /\ Forall (call_ok s' k) cs'.
Proof.
  inversion 1 as [? ? l1 l2 key input E|? l1 l2 key input out E]; subst; intros Hs Hc.
  - apply Forall_app in Hc as [H1 H2]. apply Forall_cons_1 in H2 as [[Hk _] H2]. simpl in Hk. subst key.
    destruct (fast_prepare_ok s k Hs) as (st & Hst & Hk & Hs'). rewrite Hst in E. injection E as <-.
    split; [done|].
    assert (forall l, Forall (call_ok s k) l -> Forall (call_ok (Some st) k) l) as Hm.
    { intros l. apply List.Forall_impl. intros c. apply call_ok_mono. eauto. }
    apply Forall_app. split; [by apply Hm|]. apply List.Forall_cons; [|by apply Hm]. split; [done|]. eauto.
  - split; [done|]. apply Forall_app in Hc as [H1 H2]. apply Forall_cons_1 in H2 as [[Hk (st & Hst & Hsk)] H2].
    simpl in Hk. subst key. subst s'. apply Forall_app. split; [done|]. apply List.Forall_cons; [|done].
    split; [done|]. rewrite fast_compute_ok in E by done. injection E as <-. by rewrite Hsk.
Qed.

(** On the shared dataset, calls of any number of threads that use one
    epoch key return the RandomX hash of their input under that key, in every
    interleaving of the write-locked and the read-locked blocks. *)
Theorem fast_one_key_safe k inputs s' cs' :
  fast_steps (None, map (Preparing k) inputs) (s', cs') ->
  Forall (fun c => forall key input out, c = Done key input out ->
    key = k /\ out = randomx k input) cs'.
Proof.
  intros H. assert (fast_inv s' /\ Forall (call_ok s' k) cs') as [_ Hc].
  - remember (None, map (Preparing k) inputs) as c eqn:E. remember (s', cs') as c' eqn:E'.
    assert (fast_inv (fst c) /\ Forall (call_ok (fst c) k) (snd c)) as Hi.
    { subst c. split; [done|]. simpl. clear. induction inputs; simpl; constructor; auto. by split. }
    clear E. revert E'. induction H as [c|[s1 l1] [s2 l2] c3 Hst _ IH]; intros E'.
    + by subst c.
    + apply IH; [|done]. destruct Hi. by eapply fast_step_inv.
  - eapply List.Forall_impl, Hc. intros c [Hk Hc'] key input out ->. by simpl in *.
Qed.

(** The write lock is released before the read lock is taken, so a call
    for another epoch key in between replaces the dataset: there is an
    interleaving in which a call under [k1] returns the hash under [k2]. *)
Theorem fast_two_keys_race k1 k2 i1 i2 :
  k1 <> k2 ->
  exists s, fast_steps (None, [Preparing k1 i1; Preparing k2 i2])
    (s, [Done k1 i1 (randomx k2 i1); Done k2 i2 (randomx k2 i2)]).
Proof.
  intros Hk.
  set (st k := {| fast_key := k; fast_cache := rx_init_cache k;
                  fast_dataset := rx_init_dataset (rx_init_cache k) |}).
  assert (forall k, fast_inv (Some (st k))) as Hi by (intros k ? [= <-]; done).
  exists (Some (st k2)).
  eapply fast_trans; [apply (step_prepare _ (Some (st k1)) [] _ k1 i1); done|]. cbn [app].
  eapply fast_trans; [apply (step_prepare _ (Some (st k2)) [Computing k1 i1] [] k2 i2)|]; cbn [app].
  { unfold fast_prepare. cbn [fast_key st]. rewrite bool_decide_eq_false_2 by done. done. }
  eapply fast_trans; [apply (step_compute _ [] _ k1 i1 (randomx k2 i1)); by apply fast_compute_ok|].
  cbn [app].
  eapply fast_trans; [apply (step_compute _ [_] [] k2 i2 (randomx k2 i2)); by apply fast_compute_ok|].
  apply fast_refl.
Qed.

(** ** The scratchpad loop is total *)

Lemma mix_round_ok input lanes k acc memory round :
  lanes = 2 ^ k -> 0 <= k -> Z.of_nat (length memory) = lanes ->
  exists acc' memory', mix_round input lanes (acc, memory) round = Ok (acc', memory') /\
    length acc' = 32%nat /\ Z.of_nat (length memory') = lanes.
Proof.
  intros Hl Hk Hm. unfold mix_round.
  assert (0 <= Z.land (be_val (take 8 acc)) (lanes - 1) < lanes) as Hp.
  { rewrite Hl. replace (2 ^ k - 1) with (Z.ones k) by (rewrite Z.ones_equiv; lia).
    rewrite Z.land_ones by done. apply Z.mod_pos_bound. lia. }
  destruct (lookup_lt_is_Some_2 memory (Z.to_nat (Z.land (be_val (take 8 acc)) (lanes - 1))))
    as [lane ->]; [lia|].
  cbn [expect res_bind]. eexists _, _. split; [done|].
  split; [apply length_blake3|]. by rewrite length_insert.
Qed.

Lemma mix_rounds_ok input lanes k rounds acc memory :
  lanes = 2 ^ k -> 0 <= k -> length acc = 32%nat -> Z.of_nat (length memory) = lanes ->
  exists acc' memory',
    fold_left (fun acc round => let? st := acc in mix_round input lanes st round) rounds
      (Ok (acc, memory)) = Ok (acc', memory') /\ length acc' = 32%nat.
Proof.
  intros Hl Hk. revert acc memory. induction rounds as [|r rounds IH]; intros acc memory Ha Hm.
  - simpl. eauto.
  - cbn [fold_left res_bind].
    destruct (mix_round_ok input lanes k acc memory r Hl Hk Hm) as (a' & m' & -> & Ha' & Hm').
    by apply IH.
Qed.

Lemma scratchpad_hash_ok header genesis n :
  n <= 2 ^ 63 -> exists r, blq_rx_hash_with_scratchpad header genesis n = Ok r /\
    wf_hash (mix_hash r) /\ wf_hash (final_hash r).
Proof.
  intros Hn. unfold blq_rx_hash_with_scratchpad, next_power_of_two.
  set (m := Z.max n 32). assert (32 <= m <= 2 ^ 63) as Hm by lia.
  assert (5 <= Z.log2_up m <= 63) as Hlog.
  { split; [change 5 with (Z.log2_up 32)|change 63 with (Z.log2_up (2 ^ 63))]; apply Z.log2_up_le_mono; lia. }
  assert (2 ^ Z.log2_up m <= 2 ^ 63) by (apply Z.pow_le_mono_r; lia).
  rewrite wrap64_small by (ints; split; [apply Z.pow_nonneg; lia|lia]).
  assert (2 ^ Z.log2_up m / 32 = 2 ^ (Z.log2_up m - 5)) as ->.
  { change 32 with (2 ^ 5). rewrite <- Z.pow_sub_r; lia. }
  edestruct mix_rounds_ok as (a & mem & -> & Ha).
  5: { cbn [res_bind]. eexists. split; [done|]. split; [exact Ha|]. apply length_blake3. }
  - reflexivity.
  - lia.
  - apply length_blake3.
  - rewrite length_map, length_seq. pose proof (Z.pow_nonneg 2 (Z.log2_up m - 5)). lia.
Qed.

(** The proof-of-work hash never panics and gives two 32-byte words. *)
Lemma blq_rx_hash_ok header genesis :
  exists r, blq_rx_hash header genesis = Ok r /\ wf_hash (mix_hash r) /\ wf_hash (final_hash r).
Proof.
  unfold blq_rx_hash. destruct native_randomx.
  - unfold native_hash. edestruct (hash_keyed_ok None) as (s' & -> & _); [done|]. cbn [res_bind].
    eexists. split; [done|]. split; apply length_rx_hash.
  - by apply scratchpad_hash_ok.
Qed.

(** In the native build the work is the RandomX hash of the preimage under the
    seed of the epoch. *)
Lemma blq_rx_hash_native header genesis :
  native_randomx = true ->
  let w := randomx (epoch_seed (hdr_number header / 2048) genesis) (pow_preimage_bytes header) in
  blq_rx_hash header genesis = Ok {| mix_hash := w; final_hash := w |}.
Proof. intros E. unfold blq_rx_hash. by rewrite E. Qed.

(** The accepting case of [validate_pow_fields]. *)
Lemma validate_pow_fields_ok header genesis :
  validate_pow_fields header genesis = Ok tt <->
  hdr_pow_algorithm header = POW_ALGORITHM /\
  hdr_pow_epoch header = epoch_for_height (hdr_number header) /\
  exists r, blq_rx_hash header genesis = Ok r /\ hdr_mix_hash header = mix_hash r.
Proof.
  unfold validate_pow_fields. destruct (blq_rx_hash_ok header genesis) as (r & Hr & _).
  rewrite Hr. cbn [lift res_map_err res_bind].
  case_bool_decide; cbn [negb]; [|split; [done|tauto]].
  destruct (Z.eqb_spec (hdr_pow_epoch header) (epoch_for_height (hdr_number header)));
    cbn [negb]; [|split; [done|tauto]].
  case_bool_decide; cbn [negb]; split; try done.
  - eauto.
  - intros (_ & _ & ? & [= <-] & ?). done.
Qed.

(** The mix hash is not part of what is hashed. *)
Definition with_mix_hash (h : BlockHeader) (m : Hash256) : BlockHeader := {|
  hdr_parent_hash := hdr_parent_hash h; hdr_number := hdr_number h;
  hdr_state_root := hdr_state_root h; hdr_transactions_root := hdr_transactions_root h;
  hdr_receipts_root := hdr_receipts_root h; hdr_beneficiary := hdr_beneficiary h;
  hdr_difficulty_target := hdr_difficulty_target h; hdr_base_fee_per_gas := hdr_base_fee_per_gas h;
  hdr_gas_limit := hdr_gas_limit h; hdr_gas_used := hdr_gas_used h;
  hdr_timestamp_seconds := hdr_timestamp_seconds h; hdr_pow_algorithm := hdr_pow_algorithm h;
  hdr_pow_epoch := hdr_pow_epoch h; hdr_extra_nonce := hdr_extra_nonce h;
  hdr_mix_hash := m; hdr_nonce := hdr_nonce h |}.

Lemma blq_rx_hash_mix h m genesis : blq_rx_hash (with_mix_hash h m) genesis = blq_rx_hash h genesis.
Proof.
  assert (pow_preimage (with_mix_hash h m) = pow_preimage h) as E by reflexivity.
  unfold blq_rx_hash, native_hash, blq_rx_hash_with_scratchpad. rewrite E.
  cbn [hdr_number with_mix_hash]. reflexivity.
Qed.

#[global] Opaque blq_rx_hash.

(** The scratchpad hash terminates without an index out of range for
    every header and every scratchpad size up to 2^63 bytes, its results are
    32-byte words, and a header's mix hash can always be filled in so that its
    proof-of-work fields are valid. *)
Theorem pow_hash_total header genesis n :
  n <= 2 ^ 63 ->
  (exists r, blq_rx_hash_with_scratchpad header genesis n = Ok r /\
    wf_hash (mix_hash r) /\ wf_hash (final_hash r)) /\
  (hdr_pow_algorithm header = POW_ALGORITHM ->
   hdr_pow_epoch header = epoch_for_height (hdr_number header) ->
   exists r, blq_rx_hash header genesis = Ok r /\
     validate_pow_fields (with_mix_hash header (mix_hash r)) genesis = Ok tt).
Proof.
  intros Hn. split; [by apply scratchpad_hash_ok|]. intros Ha He.
  destruct (blq_rx_hash_ok header genesis) as (r & Hr & _). exists r. split; [done|].
  apply validate_pow_fields_ok. split; [done|]. split; [done|]. exists r. by rewrite blq_rx_hash_mix.
Qed.

End pow.

(** A stand-in for RandomX: the key is the cache, the dataset and the machine. *)
Program Definition toy_randomx : RandomX := {|
  rx_cache := list byte; rx_dataset := list byte; rx_vm := list byte;
  rx_init_cache := fun k => k; rx_init_dataset := fun c => c; rx_create_vm := fun c _ => c;
  rx_calculate_hash := fun k i => toy_digest (be_val k) i;
|}.
Next Obligation. intros. unfold toy_digest. cbn [length]. by rewrite length_be_bytes. Qed.
Next Obligation. done. Qed.

Definition test_profile : BuildProfile := {| native_randomx := false |}.

Lemma fast_one_key_safe_witness :
  Forall (fun c => forall key input out, c = Done key input out ->
    key = B "k" /\ out = @randomx toy_randomx (B "k") input)
    [Done (B "k") (B "a") (@randomx toy_randomx (B "k") (B "a"))].
Proof.
  set (st := @Build_FastState toy_randomx (B "k") (B "k") (B "k")).
  apply (@fast_one_key_safe toy_randomx (B "k") [B "a"] (Some st)).
  eapply fast_trans; [apply (step_prepare _ (Some st) [] [] (B "k") (B "a")); done|].
  eapply fast_trans; [apply (step_compute _ [] [] (B "k") (B "a")); done|]. apply fast_refl.
Defined.

Lemma fast_two_keys_race_witness :
  exists s, @fast_steps toy_randomx (None, [Preparing (B "a") (B "x"); Preparing (B "b") (B "y")])
    (s, [Done (B "a") (B "x") (@randomx toy_randomx (B "b") (B "x"));
         Done (B "b") (B "y") (@randomx toy_randomx (B "b") (B "y"))]).
Proof. apply (@fast_two_keys_race toy_randomx). done. Defined.

Lemma pow_hash_total_witness :
  exists r, @blq_rx_hash_with_scratchpad test_profile toy_digests (@genesis_header test_profile)
    HASH_ZERO 64 = Ok r /\ wf_hash (mix_hash r) /\ wf_hash (final_hash r).
Proof.
  destruct (@pow_hash_total test_profile toy_digests toy_randomx
    (@genesis_header test_profile) HASH_ZERO 64) as [H _]; [lia|exact H].
Defined.
