(* ===== verification/Consensus.v ===== *)
(** [crates/blq-consensus]: rewards, fee split, base fee, difficulty
    retargeting and the validation of headers, blocks and transaction fees.

    The 256-bit targets are byte arrays worked on byte by byte, as in the
    source; the lemmas read them as big-endian numbers ([be_val]). *)

From Stdlib Require Import ZArith Lia Strings.String Strings.Byte.
From stdpp Require Import gmap list base.
From S2P Require Import Prelude Externals Primitives Canonical Rlp RawTx Pow.
#[local] Open Scope Z_scope.

Inductive ConsensusError :=
| GasUsedExceedsLimit | InvalidProofOfWork | InvalidProofOfWorkFields | InvalidBlockNumber
| InvalidTimestamp | InvalidParentHash | BlockTooLarge | InvalidTransactionsRoot
| InvalidReceiptsRoot | ReceiptTransactionMismatch | InvalidTransactionChainId
| MaxFeeBelowBaseFee | PriorityFeeExceedsMaxFee | UnsupportedTransactionType
| TransactionPayloadTooLarge | AccessListTooLarge | InvalidBaseFee.

#[export] Instance consensus_error_eq_dec : EqDecision ConsensusError.
Proof. solve_decision. Defined.

(** ** Fees and rewards *)

Record FeeSplit := { burn_percent : Z; miner_percent : Z }.

Definition split_fee (s : FeeSplit) (fee : Bix) : Bix * Bix :=
  let burn := sat_mul U128_MAX fee (burn_percent s) / 100 in
  (burn, sat_sub fee burn).

Definition block_subsidy_bix : Bix := BLQ_ISSUANCE_PER_INTERVAL_BIX / DIFFICULTY_ADJUSTMENT_INTERVAL.
Definition issuance_interval_remainder_bix : Bix :=
  BLQ_ISSUANCE_PER_INTERVAL_BIX mod DIFFICULTY_ADJUSTMENT_INTERVAL.

Definition block_reward_bix (block_number : Z) : Bix :=
  if block_number =? 0 then 0
  else
    let reward := block_subsidy_bix in
    if block_number mod DIFFICULTY_ADJUSTMENT_INTERVAL =? 0
    then sat_add U128_MAX reward issuance_interval_remainder_bix
    else reward.

Definition block_reward_for_interval_bix (parent_timestamp child_timestamp : Z) : Bix :=
  let elapsed := Z.min (sat_sub child_timestamp parent_timestamp) MAX_REWARD_INTERVAL_SECONDS in
  sat_mul U128_MAX BLQ_ISSUANCE_PER_INTERVAL_BIX elapsed / (10 * 60).

Definition fee_split_for_utilization (utilization_basis_points : Z) : FeeSplit :=
  let bounded := Z.min utilization_basis_points MAX_UTILIZATION_BASIS_POINTS in
  let burn_range := MAX_BURN_PERCENT - MIN_BURN_PERCENT in
  let burn := MIN_BURN_PERCENT + burn_range * bounded / MAX_UTILIZATION_BASIS_POINTS in
  {| burn_percent := burn mod 256; miner_percent := 100 - burn mod 256 |}.

Definition utilization_basis_points (gas_used gas_limit : Z) : Z :=
  if gas_limit =? 0 then 0
  else sat_mul U64_MAX gas_used MAX_UTILIZATION_BASIS_POINTS / gas_limit.

(** ** Difficulty *)

Definition satisfies_pow (hash target : Hash256) : bool := bytes_leb hash target.

(** [for byte in out.iter_mut().rev()] with a carry. *)
Fixpoint rev_iter (f : byte -> Z -> byte * Z) (l : list byte) (carry : Z) : list byte * Z :=
  match l with
  | [] => ([], carry)
  | b :: l' =>
      let '(out, carry) := rev_iter f l' carry in
      let '(b, carry) := f b carry in
      (b :: out, carry)
  end.

Definition divide_step (divisor : Z) (st : list byte * Z) (b : byte) : list byte * Z :=
  let '(out, remainder) := st in
  let value := wrap128 (wrap128 (Z.shiftl remainder 8) + u8_val b) in
  (out ++ [as_u8 (value / divisor)], value mod divisor).

(** A division by zero panics. *)
Definition divide_hash_with_remainder (hash : Hash256) (divisor : Z)
    : res Empty_set (Hash256 * Z) :=
  if divisor =? 0 then Panic
  else
    let '(out, remainder) := fold_left (divide_step divisor) hash ([], 0) in
    Ok (out, wrap64 remainder).

Definition multiply_step (multiplier : Z) (b : byte) (carry : Z) : byte * Z :=
  let value := wrap128 (wrap128 (u8_val b * multiplier) + carry) in
  (as_u8 (Z.land value 255), Z.shiftr value 8).

Definition HASH_MAX : Hash256 := replicate 32 xff.

Definition multiply_hash_u64 (hash : Hash256) (multiplier : Z) : Hash256 :=
  let '(out, carry) := rev_iter (multiply_step multiplier) hash 0 in
  if 0 <? carry then HASH_MAX else out.

Definition add_step (b : byte) (carry : Z) : byte * Z :=
  let value := u8_val b + Z.land carry 255 in
  (as_u8 (Z.land value 255), Z.shiftr carry 8 + Z.shiftr value 8).

Definition scale_target_fraction (target : Hash256) (numerator denominator : Z)
    : res Empty_set Hash256 :=
  let? (quotient, remainder) := divide_hash_with_remainder target denominator in
  let out := multiply_hash_u64 quotient numerator in
  let carry := wrap128 (remainder * numerator) / denominator in
  let '(out, carry) := rev_iter add_step out carry in
  Ok (if 0 <? carry then HASH_MAX else out).

Definition scale_target (target : Hash256) (numerator denominator : Z) : res Empty_set Hash256 :=
  if denominator =? 0 then Ok HASH_MAX
  else
    let? (quotient, remainder) := divide_hash_with_remainder target denominator in
    let out := multiply_hash_u64 quotient numerator in
    let remainder := wrap64 (wrap128 (remainder * numerator) / denominator) in
    let carry := remainder in
    let '(out, carry) := rev_iter add_step out carry in
    Ok (if 0 <? carry then HASH_MAX else out).

(** [Ord::clamp]. *)
Definition clamp (x lo hi : Z) : Z := if x <? lo then lo else if hi <? x then hi else x.

Definition next_difficulty_target (current_target : Hash256) (actual_window_seconds : Z)
    : res Empty_set Hash256 :=
  let expected := TARGET_BLOCK_TIME_SECONDS * DIFFICULTY_ADJUSTMENT_INTERVAL in
  let bounded_actual := clamp actual_window_seconds (expected / 4) (expected * 4) in
  scale_target current_target bounded_actual expected.

Definition next_block_difficulty_target (current_target : Hash256) (actual_seconds : Z)
    : res Empty_set Hash256 :=
  if (MIN_ACCEPTABLE_BLOCK_TIME_SECONDS <=? actual_seconds)
     && (actual_seconds <=? MAX_ACCEPTABLE_BLOCK_TIME_SECONDS)
  then Ok current_target
  else
    let '(numerator, denominator) :=
      if MAX_ACCEPTABLE_BLOCK_TIME_SECONDS <? actual_seconds
      then (100 + MAX_DIFFICULTY_ADJUSTMENT_PERCENT, 100)
      else (100 - MAX_DIFFICULTY_ADJUSTMENT_PERCENT, 100) in
    scale_target_fraction current_target numerator denominator.

Definition next_block_difficulty_target_v2 (current_target : Hash256)
    (median_interval_seconds latest_interval_seconds : Z) : res Empty_set Hash256 :=
  if median_interval_seconds <? BLOCK_TIME_V2_FAST_MEDIAN_SECONDS
  then scale_target_fraction current_target 75 100
  else if BLOCK_TIME_V2_SLOW_INTERVAL_SECONDS <=? latest_interval_seconds
  then scale_target_fraction current_target
         BLOCK_TIME_V2_SLOW_CAP_NUMERATOR BLOCK_TIME_V2_SLOW_CAP_DENOMINATOR
  else
    let numerator := sat_mul U64_MAX median_interval_seconds BLOCK_TIME_V2_NORMAL_CAP_DENOMINATOR in
    let denominator :=
      sat_mul U64_MAX BLOCK_TIME_V2_TARGET_SECONDS BLOCK_TIME_V2_NORMAL_CAP_DENOMINATOR in
    if sat_mul U64_MAX numerator BLOCK_TIME_V2_NORMAL_CAP_DENOMINATOR
       <? sat_mul U64_MAX denominator (BLOCK_TIME_V2_NORMAL_CAP_DENOMINATOR - 1)
    then scale_target_fraction current_target
           (BLOCK_TIME_V2_NORMAL_CAP_DENOMINATOR - 1) BLOCK_TIME_V2_NORMAL_CAP_DENOMINATOR
    else if sat_mul U64_MAX denominator BLOCK_TIME_V2_NORMAL_CAP_NUMERATOR
            <? sat_mul U64_MAX numerator BLOCK_TIME_V2_NORMAL_CAP_DENOMINATOR
    then scale_target_fraction current_target
           BLOCK_TIME_V2_NORMAL_CAP_NUMERATOR BLOCK_TIME_V2_NORMAL_CAP_DENOMINATOR
    else scale_target current_target numerator denominator.

(** ** Base fee *)

Definition next_base_fee_per_gas (parent : BlockHeader) : Bix :=
  let target_gas := Z.max (hdr_gas_limit parent / EIP1559_ELASTICITY_MULTIPLIER) 1 in
  let parent_base_fee := hdr_base_fee_per_gas parent in
  if hdr_gas_used parent =? target_gas then hdr_base_fee_per_gas parent
  else if target_gas <? hdr_gas_used parent then
    let gas_delta := hdr_gas_used parent - target_gas in
    let change := Z.max (wrap128 (parent_base_fee * gas_delta) / target_gas
                          / EIP1559_BASE_FEE_MAX_CHANGE_DENOMINATOR) 1 in
    sat_add U128_MAX parent_base_fee change
  else
    let gas_delta := target_gas - hdr_gas_used parent in
    let change := wrap128 (parent_base_fee * gas_delta) / target_gas
                    / EIP1559_BASE_FEE_MAX_CHANGE_DENOMINATOR in
    sat_sub parent_base_fee change.

(** ** Validation *)

Definition map_pow_error (error : PowError) : ConsensusError :=
  match error with
  | UnsupportedAlgorithm | InvalidEpoch | InvalidMixHash => InvalidProofOfWorkFields
  end.

Definition block_size_rule_active (height : Z) (activation_height : option Z) : bool :=
  match activation_height with Some activation => activation <=? height | None => false end.

Definition validate_block_size (block : Block) : res ConsensusError unit :=
  if MAX_BLOCK_BYTES <? Z.of_nat (length (block_canonical_bytes block))
  then Err BlockTooLarge else Ok tt.

Definition validate_transaction_fee (t : Transaction) (base_fee_per_gas : Bix)
    : res ConsensusError unit :=
  if negb (tx_chain_id t =? MAINNET_CHAIN_ID) then Err InvalidTransactionChainId
  else if (2 <? tx_transaction_type t)
          || ((tx_transaction_type t =? 0) && negb (bool_decide (tx_access_list t = [])))
  then Err UnsupportedTransactionType
  else if MAX_TRANSACTION_PAYLOAD_BYTES <? Z.of_nat (length (tx_payload t))
  then Err TransactionPayloadTooLarge
  else if (MAX_ACCESS_LIST_ENTRIES <? Z.of_nat (length (tx_access_list t)))
          || existsb (fun item => MAX_ACCESS_LIST_STORAGE_KEYS_PER_ENTRY
                                  <? Z.of_nat (length (al_storage_keys item))) (tx_access_list t)
          || (MAX_ACCESS_LIST_STORAGE_KEYS <? wrap64 (total_keys (tx_access_list t)))
  then Err AccessListTooLarge
  else if tx_max_fee_per_gas t <? base_fee_per_gas then Err MaxFeeBelowBaseFee
  else if tx_max_fee_per_gas t <? tx_max_priority_fee_per_gas t then Err PriorityFeeExceedsMaxFee
  else Ok tt.

(** [for x in xs { f(x)?; }] *)
Fixpoint for_each {E A} (f : A -> res E unit) (l : list A) : res E unit :=
  match l with [] => Ok tt | a :: l' => f a ;? for_each f l' end.

Section validation.
Context {BP : BuildProfile} {D : Digests} {RX : RandomX}.

Definition validate_header_with_genesis (parent child : BlockHeader) (genesis_hash : Hash256)
    : res ConsensusError unit :=
  if negb (hdr_number child =? wrap64 (hdr_number parent + 1)) then Err InvalidBlockNumber
  else if hdr_timestamp_seconds child <=? hdr_timestamp_seconds parent then Err InvalidTimestamp
  else if hdr_gas_limit child <? hdr_gas_used child then Err GasUsedExceedsLimit
  else
    res_map_err map_pow_error (validate_pow_fields child genesis_hash) ;?
    let? result := lift (blq_rx_hash child genesis_hash) in
    if negb (satisfies_pow (final_hash result) (hdr_difficulty_target child))
    then Err InvalidProofOfWork else Ok tt.

Definition validate_header (parent child : BlockHeader) : res ConsensusError unit :=
  validate_header_with_genesis parent child (header_hash genesis_header).

Definition validate_block_with_genesis_and_activation (parent : BlockHeader) (block : Block)
    (genesis_hash : Hash256) (activation_height : option Z) : res ConsensusError unit :=
  let header := blk_header block in
  validate_header_with_genesis parent header genesis_hash ;?
  if negb (bool_decide (hdr_parent_hash header = header_hash parent)) then Err InvalidParentHash
  else
    (if block_size_rule_active (hdr_number header) activation_height
     then validate_block_size block else Ok tt) ;?
    if negb (Z.of_nat (length (blk_transactions block)) =? Z.of_nat (length (blk_receipts block)))
    then Err ReceiptTransactionMismatch
    else if negb (bool_decide (hdr_transactions_root header = transactions_root (blk_transactions block)))
    then Err InvalidTransactionsRoot
    else if negb (bool_decide (hdr_receipts_root header = receipts_root (blk_receipts block)))
    then Err InvalidReceiptsRoot
    else if negb (hdr_base_fee_per_gas header =? next_base_fee_per_gas parent)
    then Err InvalidBaseFee
    else for_each (fun t => validate_transaction_fee t (hdr_base_fee_per_gas header))
           (blk_transactions block).

Definition validate_block_with_genesis (parent : BlockHeader) (block : Block) (genesis_hash : Hash256)
    : res ConsensusError unit :=
  validate_block_with_genesis_and_activation parent block genesis_hash (Some 0).

Definition validate_block (parent : BlockHeader) (block : Block) : res ConsensusError unit :=
  validate_block_with_genesis parent block (header_hash genesis_header).

End validation.

(** ** Byte loops as arithmetic *)

Lemma rev_iter_spec (f : byte -> Z -> byte * Z) (k : Z) (C : Z -> Prop) l c :
  (forall b c, C c -> let '(b', c') := f b c in u8_val b' + 256 * c' = u8_val b * k + c /\ C c') ->
  C c ->
  let '(out, c') := rev_iter f l c in
  length out = length l /\ be_val out + c' * 256 ^ Z.of_nat (length l) = be_val l * k + c /\ C c'.
Proof.
  intros Hf. induction l as [|b l IH]; intros Hc.
  - simpl. rewrite be_val_nil. change (256 ^ 0) with 1. repeat split; [lia|done].
  - cbn [rev_iter]. specialize (IH Hc). destruct (rev_iter f l c) as [out c1].
    destruct IH as (IHl & IHv & IHc). specialize (Hf b c1 IHc). destruct (f b c1) as [b' c2].
    destruct Hf as [Hf Hc2]. cbn [length]. split; [by f_equal|]. split; [|done].
    rewrite !be_val_cons, IHl. replace (Z.of_nat (S (length l))) with (1 + Z.of_nat (length l)) by lia.
    rewrite Z.pow_add_r by lia. change (256 ^ 1) with 256.
    set (M := 256 ^ Z.of_nat (length l)) in *. clearbody M. nia.
Qed.

Lemma add_step_spec b c :
  0 <= c -> let '(b', c') := add_step b c in u8_val b' + 256 * c' = u8_val b * 1 + c /\ 0 <= c'.
Proof.
  intros Hc. unfold add_step. rewrite !land_255, !shiftr_8, u8_val_as_u8.
  pose proof (u8_val_range b). dlia.
Qed.

Lemma multiply_step_spec m b c :
  in_u64 m -> 0 <= c <= U64_MAX ->
  let '(b', c') := multiply_step m b c in u8_val b' + 256 * c' = u8_val b * m + c /\ 0 <= c' <= U64_MAX.
Proof.
  intros Hm Hc. unfold multiply_step. pose proof (u8_val_range b).
  assert (0 <= u8_val b * m <= 255 * U64_MAX) by (ints; nia).
  rewrite (wrap128_small (u8_val b * m)) by (ints; lia).
  rewrite wrap128_small by (ints; lia). rewrite land_255, shiftr_8, u8_val_as_u8.
  set (v := u8_val b * m + c). assert (0 <= v <= 256 * U64_MAX) by (unfold v; ints; lia).
  clearbody v. ints. dlia.
Qed.

Lemma divide_fold_spec d l out r :
  0 < d <= U64_MAX -> 0 <= r < d ->
  let '(out', r') := fold_left (divide_step d) l (out, r) in
  length out' = (length out + length l)%nat /\ 0 <= r' < d /\
  be_val out' * d + r' = (be_val out * d + r) * 256 ^ Z.of_nat (length l) + be_val l.
Proof.
  intros Hd. revert out r. induction l as [|b l IH]; intros out r Hr; cbn [fold_left].
  - simpl. change (256 ^ 0) with 1. rewrite be_val_nil. repeat split; lia.
  - unfold divide_step at 2. pose proof (u8_val_range b). rewrite shiftl_8.
    rewrite (wrap128_small (r * 256)) by (ints; lia). rewrite wrap128_small by (ints; lia).
    set (v := r * 256 + u8_val b). assert (0 <= v < 256 * d) by (unfold v; lia).
    assert (0 <= v mod d < d) as Hm by (apply Z.mod_pos_bound; lia).
    assert (0 <= v / d < 256) as Hq by (split; [apply Z.div_pos; lia|apply Z.div_lt_upper_bound; lia]).
    specialize (IH (out ++ [as_u8 (v / d)]) (v mod d) Hm).
    destruct (fold_left _ l _) as [out' r']. destruct IH as (IHl & IHr & IHv).
    rewrite length_app in IHl. simpl length in *. split; [lia|]. split; [done|].
    rewrite IHv, be_val_snoc, u8_val_as_u8_small, be_val_cons by lia.
    replace (Z.of_nat (S (length l))) with (1 + Z.of_nat (length l)) by lia.
    rewrite Z.pow_add_r by lia. change (256 ^ 1) with 256.
    pose proof (Z.div_mod v d ltac:(lia)) as Hdm. unfold v in Hdm at 1.
    set (M := 256 ^ Z.of_nat (length l)) in *. clearbody M.
    replace ((be_val out * 256 + v / d) * d + v mod d) with (be_val out * d * 256 + v) by lia.
    unfold v. lia.
Qed.

Lemma divide_hash_spec h d :
  0 < d <= U64_MAX ->
  exists q, divide_hash_with_remainder h d = Ok (q, be_val h mod d) /\
    length q = length h /\ be_val q = be_val h / d.
Proof.
  intros Hd. unfold divide_hash_with_remainder. replace (d =? 0) with false by lia.
  pose proof (divide_fold_spec d h [] 0 Hd ltac:(lia)) as H.
  destruct (fold_left _ h _) as [q r]. destruct H as (Hl & Hr & Hv).
  rewrite be_val_nil in Hv.
  assert (be_val q = be_val h / d /\ r = be_val h mod d) as [Hq Hm].
  { split; [apply (Z.div_unique_pos _ _ _ r)|apply (Z.mod_unique_pos _ _ (be_val q))]; lia. }
  exists q. rewrite wrap64_small by (ints; lia). rewrite Hm. done.
Qed.

(** Saturation at the largest target. *)
Definition sat256 (z : Z) : Z := Z.min z U256_MAX.

Lemma be_val_HASH_MAX : be_val HASH_MAX = U256_MAX.
Proof. by vm_compute. Qed.
Lemma length_HASH_MAX : length HASH_MAX = 32%nat.
Proof. done. Qed.
Lemma be_val_hash_range h : wf_hash h -> 0 <= be_val h <= U256_MAX.
Proof.
  intros Hh. pose proof (be_val_range h) as H. rewrite Hh in H.
  change (256 ^ Z.of_nat 32) with (U256_MAX + 1) in H. lia.
Qed.

Lemma multiply_hash_spec h m :
  wf_hash h -> in_u64 m ->
  wf_hash (multiply_hash_u64 h m) /\ be_val (multiply_hash_u64 h m) = sat256 (be_val h * m).
Proof.
  intros Hh Hm. unfold multiply_hash_u64.
  pose proof (rev_iter_spec (multiply_step m) m (fun c => 0 <= c <= U64_MAX) h 0) as H.
  destruct (rev_iter _ h 0) as [out c]. destruct H as (Hl & Hv & Hc).
  { intros b c0 Hc0. by apply multiply_step_spec. } { unfold U64_MAX. lia. }
  rewrite Hh in *. change (256 ^ Z.of_nat 32) with (U256_MAX + 1) in *.
  pose proof (be_val_range out) as Ho. rewrite Hl in Ho.
  change (256 ^ Z.of_nat 32) with (U256_MAX + 1) in Ho. unfold sat256.
  destruct (Z.ltb_spec 0 c).
  - rewrite be_val_HASH_MAX. split; [apply length_HASH_MAX|]. nia.
  - assert (c = 0) as -> by lia. split; [done|]. lia.
Qed.

Lemma add_carry_spec h c :
  wf_hash h -> 0 <= c ->
  let '(out, c') := rev_iter add_step h c in
  let r := if 0 <? c' then HASH_MAX else out in
  wf_hash r /\ be_val r = sat256 (be_val h + c).
Proof.
  intros Hh Hc.
  pose proof (rev_iter_spec add_step 1 (fun c => 0 <= c) h c) as H.
  destruct (rev_iter _ h c) as [out c']. destruct H as (Hl & Hv & Hc').
  { intros b c0 Hc0. by apply add_step_spec. } { done. }
  rewrite Hh in *. change (256 ^ Z.of_nat 32) with (U256_MAX + 1) in *.
  pose proof (be_val_range out) as Ho. rewrite Hl in Ho.
  change (256 ^ Z.of_nat 32) with (U256_MAX + 1) in Ho. unfold sat256. simpl.
  destruct (Z.ltb_spec 0 c').
  - rewrite be_val_HASH_MAX. split; [apply length_HASH_MAX|]. nia.
  - assert (c' = 0) as -> by lia. split; [done|]. lia.
Qed.

(** Quotient and remainder recombine to the exact fraction. *)
Lemma scale_exact t n d :
  0 <= t -> 0 <= n -> 0 < d -> t / d * n + (t mod d * n) / d = t * n / d.
Proof.
  intros Ht Hn Hd. rewrite (Z.div_mod t d) at 3 by lia.
  replace ((d * (t / d) + t mod d) * n) with (t mod d * n + t / d * n * d) by lia.
  rewrite Z.div_add by lia. lia.
Qed.

Lemma sat256_add a b : 0 <= b -> sat256 (sat256 a + b) = sat256 (a + b).
Proof. unfold sat256. lia. Qed.

(** A target scaled by [n / d]: the exact floor, saturated at 256 bits. *)
Definition scaled (t : Hash256) (n d : Z) (r : Hash256) : Prop :=
  wf_hash r /\ be_val r = sat256 (be_val t * n / d).

Lemma scale_body t n d :
  wf_hash t -> in_u64 n -> 0 < d <= U64_MAX ->
  exists q, divide_hash_with_remainder t d = Ok (q, be_val t mod d) /\
    let carry := be_val t mod d * n / d in
    in_u64 carry /\ wrap128 (be_val t mod d * n) = be_val t mod d * n /\
    let '(out, c) := rev_iter add_step (multiply_hash_u64 q n) carry in
    scaled t n d (if 0 <? c then HASH_MAX else out).
Proof.
  intros Ht Hn Hd. destruct (divide_hash_spec t d Hd) as (q & Hq & Hl & Hv). exists q.
  split; [done|]. intros carry. pose proof (be_val_hash_range t Ht) as Htr.
  assert (0 <= be_val t mod d < d) as Hm by (apply Z.mod_pos_bound; lia).
  assert (0 <= carry <= n) as Hc.
  { unfold carry. split; [apply Z.div_pos; ints; nia|]. apply Z.div_le_upper_bound; ints; nia. }
  split; [ints; lia|]. split; [apply wrap128_small; ints; nia|].
  destruct (multiply_hash_spec q n) as [Hw Hmv]; [unfold wf_hash; congruence|done|].
  pose proof (add_carry_spec _ carry Hw ltac:(lia)) as H.
  destruct (rev_iter add_step _ carry) as [out c]. destruct H as [H1 H2].
  split; [done|]. rewrite H2, Hmv, Hv. rewrite sat256_add by lia. f_equal.
  unfold carry. apply scale_exact; ints; lia.
Qed.

Lemma scale_target_fraction_spec t n d :
  wf_hash t -> in_u64 n -> 0 < d <= U64_MAX ->
  exists r, scale_target_fraction t n d = Ok r /\ scaled t n d r.
Proof.
  intros Ht Hn Hd. destruct (scale_body t n d Ht Hn Hd) as (q & Hq & Hc & Hw & H).
  unfold scale_target_fraction. rewrite Hq. cbn [res_bind]. rewrite Hw.
  destruct (rev_iter add_step _ _) as [out c]. eauto.
Qed.

Lemma scale_target_spec t n d :
  wf_hash t -> in_u64 n -> 0 < d <= U64_MAX -> exists r, scale_target t n d = Ok r /\ scaled t n d r.
Proof.
  intros Ht Hn Hd. destruct (scale_body t n d Ht Hn Hd) as (q & Hq & Hc & Hw & H).
  unfold scale_target. replace (d =? 0) with false by lia. rewrite Hq. cbn [res_bind].
  rewrite Hw, wrap64_small by done. destruct (rev_iter add_step _ _) as [out c]. eauto.
Qed.

(** ** Properties: difficulty *)

Definition retarget (t : Hash256) (n d : Z) (m : res Empty_set Hash256) : Prop :=
  exists r, m = Ok r /\ scaled t n d r.

Lemma retarget_id t d : wf_hash t -> 0 < d -> retarget t d d (Ok t).
Proof.
  intros Ht Hd. exists t. split; [done|]. split; [done|]. rewrite Z.div_mul by lia.
  pose proof (be_val_hash_range t Ht). unfold sat256. lia.
Qed.

Lemma scale_target_one t d r : wf_hash t -> 0 < d -> scaled t d d r -> r = t.
Proof.
  intros Ht Hd [Hr Hv]. rewrite Z.div_mul in Hv by lia. pose proof (be_val_hash_range t Ht).
  unfold sat256 in Hv. rewrite Z.min_l in Hv by lia. apply be_val_inj; [|done].
  unfold wf_hash in *. congruence.
Qed.

(** C35: the retargeting functions never panic and are exact: the new target
    is the old one times the documented fraction, rounded down and saturated at
    2^256-1.  The window rule scales by the window clamped to a quarter and
    four times of the expected 1800 seconds; the per-block rule keeps the
    target between 15 and 45 seconds and moves it by 25% otherwise. *)
Theorem retarget_exact t s :
  wf_hash t -> in_u64 s ->
  retarget t (Z.max 450 (Z.min s 7200)) 1800 (next_difficulty_target t s) /\
  (s < 15 -> retarget t 75 100 (next_block_difficulty_target t s)) /\
  (15 <= s <= 45 -> next_block_difficulty_target t s = Ok t) /\
  (45 < s -> retarget t 125 100 (next_block_difficulty_target t s)).
Proof.
  intros Ht Hs. unfold next_difficulty_target, next_block_difficulty_target, clamp.
  change (TARGET_BLOCK_TIME_SECONDS * DIFFICULTY_ADJUSTMENT_INTERVAL) with 1800.
  change (1800 / 4) with 450. change (1800 * 4) with 7200.
  unfold MIN_ACCEPTABLE_BLOCK_TIME_SECONDS, MAX_ACCEPTABLE_BLOCK_TIME_SECONDS,
    MAX_DIFFICULTY_ADJUSTMENT_PERCENT.
  split; [|split; [|split]].
  - assert ((if s <? 450 then 450 else if 7200 <? s then 7200 else s) = Z.max 450 (Z.min s 7200)) as ->.
    { destruct (Z.ltb_spec s 450); [lia|]. destruct (Z.ltb_spec 7200 s); lia. }
    apply scale_target_spec; [done| |]; ints; lia.
  - intros H. if_false. if_false. apply scale_target_fraction_spec; [done| |]; ints; lia.
  - intros H. by if_true.
  - intros H. if_false. if_true. apply scale_target_fraction_spec; [done| |]; ints; lia.
Qed.

Lemma retarget_exact_witness :
  retarget GENESIS_DIFFICULTY_TARGET 450 1800 (next_difficulty_target GENESIS_DIFFICULTY_TARGET 20) /\
  next_block_difficulty_target GENESIS_DIFFICULTY_TARGET 20 = Ok GENESIS_DIFFICULTY_TARGET.
Proof.
  destruct (retarget_exact GENESIS_DIFFICULTY_TARGET 20) as (H1 & _ & H2 & _);
    [done|ints; lia|]. split; [exact H1|apply H2; lia].
Defined.

(** The V2 controller is exact on every branch: three quarters below a
    median of 3 seconds, nine eighths after a latest interval of 60 seconds or
    more, and otherwise 15/16 up to a median of 14 seconds, the unchanged
    target at exactly 15, and 17/16 from 16 on (the proportional branch is
    reached at 15 only). *)
Theorem retarget_v2_exact t median latest :
  wf_hash t -> in_u64 median -> in_u64 latest ->
  let m := next_block_difficulty_target_v2 t median latest in
  (median < 3 -> retarget t 75 100 m) /\
  (3 <= median -> 60 <= latest -> retarget t 9 8 m) /\
  (3 <= median < 15 -> latest < 60 -> retarget t 15 16 m) /\
  (median = 15 -> latest < 60 -> m = Ok t) /\
  (15 < median -> latest < 60 -> retarget t 17 16 m).
Proof.
  intros Ht Hm Hl m. subst m. unfold next_block_difficulty_target_v2,
    BLOCK_TIME_V2_FAST_MEDIAN_SECONDS, BLOCK_TIME_V2_SLOW_INTERVAL_SECONDS,
    BLOCK_TIME_V2_SLOW_CAP_NUMERATOR, BLOCK_TIME_V2_SLOW_CAP_DENOMINATOR,
    BLOCK_TIME_V2_NORMAL_CAP_DENOMINATOR, BLOCK_TIME_V2_NORMAL_CAP_NUMERATOR,
    BLOCK_TIME_V2_TARGET_SECONDS.
  split; [|split; [|split; [|split]]].
  - intros H. if_true. apply scale_target_fraction_spec; [done| |]; ints; lia.
  - intros H1 H2. if_false. if_true. apply scale_target_fraction_spec; [done| |]; ints; lia.
  - intros H1 H2. if_false. if_false. cbv zeta. ints. if_true.
    apply scale_target_fraction_spec; [done| |]; ints; lia.
  - intros -> H2. change (15 <? 3) with false. replace (60 <=? latest) with false by lia. cbv zeta.
    change (sat_mul U64_MAX 15 16) with 240.
    change (sat_mul U64_MAX 240 16 <? sat_mul U64_MAX 240 (16 - 1)) with false.
    change (sat_mul U64_MAX 240 17 <? sat_mul U64_MAX 240 16) with false. cbn iota.
    destruct (scale_target_spec t 240 240) as (r & -> & Hr); [done|ints; lia|ints; lia|].
    by rewrite (scale_target_one t 240 r) by (lia || done).
  - intros H1 H2. if_false. if_false. cbv zeta. ints. if_false. if_true.
    apply scale_target_fraction_spec; [done| |]; ints; lia.
Qed.

Lemma retarget_v2_exact_witness :
  retarget GENESIS_DIFFICULTY_TARGET 15 16
    (next_block_difficulty_target_v2 GENESIS_DIFFICULTY_TARGET 10 20).
Proof.
  destruct (retarget_v2_exact GENESIS_DIFFICULTY_TARGET 10 20) as (_ & _ & H & _);
    [done|ints; lia|ints; lia|]. apply H; lia.
Defined.

(** ** Properties: rewards and fees *)

Lemma split_fee_ok s fee :
  0 <= burn_percent s <= 100 -> in_u128 fee ->
  exists burn, split_fee s fee = (burn, fee - burn) /\ 0 <= burn <= fee /\
    (fee * burn_percent s <= U128_MAX -> burn = fee * burn_percent s / 100).
Proof.
  intros Hp Hf. unfold split_fee. set (burn := sat_mul U128_MAX fee (burn_percent s) / 100).
  assert (0 <= burn <= fee) as Hb.
  { unfold burn, sat_mul. split; [apply Z.div_pos; ints; nia|].
    apply Z.div_le_upper_bound; ints; nia. }
  exists burn. unfold sat_sub. split; [f_equal; lia|]. split; [done|].
  intros H. unfold burn, sat_mul. by rewrite Z.min_l by lia.
Qed.

Lemma fee_split_percent u :
  0 <= u ->
  burn_percent (fee_split_for_utilization u) = 5 + 35 * Z.min u 10000 / 10000 /\
  5 <= burn_percent (fee_split_for_utilization u) <= 40 /\
  miner_percent (fee_split_for_utilization u) = 100 - burn_percent (fee_split_for_utilization u).
Proof.
  intros Hu. unfold fee_split_for_utilization, MIN_BURN_PERCENT, MAX_BURN_PERCENT,
    MAX_UTILIZATION_BASIS_POINTS. cbn [burn_percent miner_percent].
  change (40 - 5) with 35. set (b := 5 + 35 * Z.min u 10000 / 10000).
  assert (5 <= b <= 40) as Hb by (unfold b; dlia). rewrite Z.mod_small; lia.
Qed.

(** For every utilisation the burned share lies between 5% and 40%,
    grows with the utilisation, and the two shares make 100%; the split of any
    fee loses nothing, and burns the exact floor of its share when the product
    does not saturate. *)
Theorem fee_split_sound u u' fee :
  0 <= u -> in_u128 fee ->
  let s := fee_split_for_utilization u in
  MIN_BURN_PERCENT <= burn_percent s <= MAX_BURN_PERCENT /\
  burn_percent s + miner_percent s = 100 /\
  (u <= u' -> burn_percent s <= burn_percent (fee_split_for_utilization u')) /\
  exists burn, split_fee s fee = (burn, fee - burn) /\ 0 <= burn <= fee /\
    (fee * burn_percent s <= U128_MAX -> burn = fee * burn_percent s / 100).
Proof.
  intros Hu Hf s. destruct (fee_split_percent u Hu) as (Hb & Hr & Hm). fold s in Hb, Hr, Hm.
  split; [done|]. split; [lia|]. split.
  - intros H. destruct (fee_split_percent u' ltac:(lia)) as (Hb' & _ & _). rewrite Hb, Hb'.
    apply Z.add_le_mono_l, Z.div_le_mono; lia.
  - apply split_fee_ok; [lia|done].
Qed.

Lemma fee_split_sound_witness :
  exists burn, split_fee (fee_split_for_utilization 5000) 1001 = (burn, 1001 - burn) /\ burn = 220.
Proof.
  destruct (fee_split_sound 5000 5000 1001) as (_ & _ & _ & burn & H1 & _ & H2); [lia|ints; lia|].
  exists burn. split; [exact H1|]. rewrite H2; [by vm_compute|]. vm_compute. discriminate.
Defined.

(** Rewards of the blocks that follow a timestamp. *)
Fixpoint interval_rewards (t0 : Z) (ts : list Z) : Z :=
  match ts with
  | [] => 0
  | t :: ts => block_reward_for_interval_bix t0 t + interval_rewards t ts
  end.

Fixpoint increasing (t0 : Z) (ts : list Z) : Prop :=
  match ts with [] => True | t :: ts => t0 < t /\ increasing t ts end.

Lemma interval_reward_le t0 t :
  0 <= t0 < t ->
  0 <= block_reward_for_interval_bix t0 t <= BIX_PER_BLQ / 5 /\
  600 * block_reward_for_interval_bix t0 t <= BIX_PER_BLQ * (t - t0).
Proof.
  intros H. unfold block_reward_for_interval_bix, BLQ_ISSUANCE_PER_INTERVAL_BIX, BIX_PER_BLQ,
    MAX_REWARD_INTERVAL_SECONDS. ints. dlia.
Qed.

Lemma interval_rewards_le t0 ts :
  0 <= t0 -> increasing t0 ts -> 600 * interval_rewards t0 ts <= BIX_PER_BLQ * (List.last ts t0 - t0).
Proof.
  revert t0. induction ts as [|t ts IH]; intros t0 H0; [simpl; lia|]. intros [Ht Hi].
  cbn [interval_rewards]. pose proof (interval_reward_le t0 t ltac:(lia)).
  specialize (IH t ltac:(lia) Hi). replace (List.last (t :: ts) t0) with (List.last ts t); [lia|].
  destruct ts as [|u ts]; [done|]. clear. revert u. induction ts; intros; [done|]. simpl in *. auto.
Qed.

Lemma block_reward_mod k j :
  0 <= k -> 1 <= j <= 60 ->
  block_reward_bix (60 * k + j) =
  if j =? 60 then block_subsidy_bix + issuance_interval_remainder_bix else block_subsidy_bix.
Proof.
  intros Hk Hj. unfold block_reward_bix, DIFFICULTY_ADJUSTMENT_INTERVAL.
  replace (60 * k + j =? 0) with false by lia.
  replace ((60 * k + j) mod 60) with (j mod 60)
    by (rewrite Z.add_comm, Z.mul_comm, Z.mod_add; lia).
  destruct (Z.eqb_spec j 60) as [->|].
  - by vm_compute.
  - rewrite Z.mod_small by lia. by replace (j =? 0) with false by lia.
Qed.

(** Issuance is bounded by time.  Over any chain of increasing
    timestamps the interval rewards sum to at most one BLQ per ten minutes
    elapsed, and no block earns more than a fifth of a BLQ; under the fixed
    schedule every aligned window of sixty blocks issues exactly one BLQ. *)
Theorem issuance_bounded t0 ts k :
  0 <= t0 -> increasing t0 ts -> 0 <= k ->
  600 * interval_rewards t0 ts <= BIX_PER_BLQ * (List.last ts t0 - t0) /\
  (forall t t', 0 <= t < t' -> block_reward_for_interval_bix t t' <= BIX_PER_BLQ / 5) /\
  sumZ (map (fun j => block_reward_bix (60 * k + Z.of_nat j)) (seq 1 60)) = BIX_PER_BLQ.
Proof.
  intros H0 Hi Hk. split; [by apply interval_rewards_le|]. split.
  - intros t t' H. by apply interval_reward_le.
  - rewrite (map_ext_in _ (fun j => if Z.of_nat j =? 60
      then block_subsidy_bix + issuance_interval_remainder_bix else block_subsidy_bix)).
    + by vm_compute.
    + intros j Hj%in_seq. apply block_reward_mod; lia.
Qed.

Lemma issuance_bounded_witness :
  600 * interval_rewards 100 [115; 130; 400] <= BIX_PER_BLQ * 300.
Proof.
  destruct (issuance_bounded 100 [115; 130; 400] 0) as [H _]; [lia|simpl; lia|lia|exact H].
Defined.

(** The base fee moves toward its target.  It is unchanged at the
    target, rises by at least one unit and by at most max(1, 1/8) when a block
    of up to twice the target is fuller, falls by at most 1/8 when it is
    emptier, and never reaches zero; this holds while the product of fee and
    gas distance fits 128 bits. *)
Theorem base_fee_step parent :
  let base := hdr_base_fee_per_gas parent in
  let used := hdr_gas_used parent in
  let target := Z.max (hdr_gas_limit parent / 2) 1 in
  let next := next_base_fee_per_gas parent in
  0 <= base -> in_u64 used -> in_u64 (hdr_gas_limit parent) ->
  base * Z.abs (used - target) <= U128_MAX -> base + Z.max (base / 8) 1 <= U128_MAX ->
  (used = target -> next = base) /\
  (target < used <= 2 * target -> base + 1 <= next <= base + Z.max (base / 8) 1) /\
  (used < target -> base - base / 8 <= next <= base) /\
  (0 < base -> 0 < next).
Proof.
  intros base used target next Hb Hu Hl Hp Hs. unfold next, next_base_fee_per_gas.
  change (EIP1559_ELASTICITY_MULTIPLIER) with 2. change EIP1559_BASE_FEE_MAX_CHANGE_DENOMINATOR with 8.
  fold base used target. assert (1 <= target) as Ht by (unfold target; lia). clearbody base used target.
  assert (forall d, 0 <= d <= target -> 0 <= base * d / target / 8 <= base / 8) as Hd.
  { intros d Hd. split; [apply Z.div_pos; [apply Z.div_pos; nia|lia]|].
    apply Z.div_le_mono; [lia|]. apply Z.div_le_upper_bound; nia. }
  destruct (Z.eqb_spec used target); [repeat split; lia|].
  destruct (Z.ltb_spec target used).
  - rewrite Z.abs_eq in Hp by lia.
    rewrite wrap128_small by (split; [apply Z.mul_nonneg_nonneg|]; lia).
    assert (0 <= base * (used - target) / target / 8)
      by (apply Z.div_pos; [apply Z.div_pos; [apply Z.mul_nonneg_nonneg|]|]; lia).
    unfold sat_add. split; [lia|]. split; [|split; [lia|]].
    + intros. pose proof (Hd (used - target)). lia.
    + intros. unfold U128_MAX in *. lia.
  - rewrite Z.abs_neq in Hp by lia.
    rewrite wrap128_small by (split; [apply Z.mul_nonneg_nonneg|]; lia).
    pose proof (Hd (target - used) ltac:(ints; lia)).
    unfold sat_sub. split; [lia|]. split; [lia|]. split; [lia|]. intros. dlia.
Qed.

Lemma base_fee_step_witness :
  next_base_fee_per_gas (@genesis_header test_profile) = 875000000 /\
  0 < next_base_fee_per_gas (@genesis_header test_profile).
Proof.
  split; [done|]. apply (base_fee_step (@genesis_header test_profile)); vm_compute; try split; done.
Defined.

(** ** Properties: validation *)

Lemma for_each_ok {E A} (f : A -> res E unit) l :
  for_each f l = Ok tt <-> Forall (fun a => f a = Ok tt) l.
Proof.
  induction l as [|a l IH]; cbn [for_each]; [done|]. rewrite List.Forall_cons_iff, <- IH.
  destruct (f a) as [[]|er|]; cbn [res_bind]; [tauto|split; [done|by intros []]..].
Qed.

(** The limits of a transaction that do not depend on fees. *)
Record tx_limits (t : Transaction) : Prop := {
  lim_chain : tx_chain_id t = MAINNET_CHAIN_ID;
  lim_type : tx_transaction_type t <= 2;
  lim_legacy : tx_transaction_type t = 0 -> tx_access_list t = [];
  lim_payload : Z.of_nat (length (tx_payload t)) <= MAX_TRANSACTION_PAYLOAD_BYTES;
  lim_entries : Z.of_nat (length (tx_access_list t)) <= MAX_ACCESS_LIST_ENTRIES;
  lim_item_keys : Forall (fun i => Z.of_nat (length (al_storage_keys i))
                                   <= MAX_ACCESS_LIST_STORAGE_KEYS_PER_ENTRY) (tx_access_list t);
  lim_keys : total_keys (tx_access_list t) <= MAX_ACCESS_LIST_STORAGE_KEYS;
}.

Lemma total_keys_bound k al :
  Forall (fun i => Z.of_nat (length (al_storage_keys i)) <= k) al ->
  0 <= total_keys al <= k * Z.of_nat (length al).
Proof.
  unfold total_keys. induction 1; [simpl; lia|]. cbn [map length]. rewrite sumZ_cons. lia.
Qed.

Lemma existsb_ltb_false {A} (f : A -> Z) k l :
  existsb (fun a => k <? f a) l = false <-> Forall (fun a => f a <= k) l.
Proof.
  rewrite <- not_true_iff_false, existsb_exists, List.Forall_forall. split.
  - intros H a Ha. destruct (Z.le_gt_cases (f a) k); [done|]. exfalso. apply H. exists a.
    split; [done|lia].
  - intros H (a & Ha & Hk). apply H in Ha. lia.
Qed.

Lemma validate_transaction_fee_ok t base :
  validate_transaction_fee t base = Ok tt <->
  tx_limits t /\ base <= tx_max_fee_per_gas t /\ tx_max_priority_fee_per_gas t <= tx_max_fee_per_gas t.
Proof.
  unfold validate_transaction_fee. split.
  - intros E.
    destruct (Z.eqb_spec (tx_chain_id t) MAINNET_CHAIN_ID); [|done]. cbn [negb] in E.
    destruct (Z.ltb_spec 2 (tx_transaction_type t)); [done|]. cbn [orb] in E.
    destruct ((tx_transaction_type t =? 0) && _) eqn:Hl; [done|].
    destruct (Z.ltb_spec MAX_TRANSACTION_PAYLOAD_BYTES (Z.of_nat (length (tx_payload t)))); [done|].
    destruct (Z.ltb_spec MAX_ACCESS_LIST_ENTRIES (Z.of_nat (length (tx_access_list t)))); [done|].
    cbn [orb] in E. destruct (existsb _ _) eqn:Hx; [done|]. cbn [orb] in E.
    apply existsb_ltb_false in Hx. pose proof (total_keys_bound _ _ Hx).
    unfold MAX_ACCESS_LIST_ENTRIES, MAX_ACCESS_LIST_STORAGE_KEYS_PER_ENTRY in *.
    rewrite wrap64_small in E by (ints; lia).
    destruct (Z.ltb_spec MAX_ACCESS_LIST_STORAGE_KEYS (total_keys (tx_access_list t))); [done|].
    destruct (Z.ltb_spec (tx_max_fee_per_gas t) base); [done|].
    destruct (Z.ltb_spec (tx_max_fee_per_gas t) (tx_max_priority_fee_per_gas t)); [done|].
    split; [|lia]. split; try done. intros Ht. rewrite Ht in Hl. simpl in Hl.
    by case_bool_decide.
  - intros ([Hc Ht Hl Hp He Hi Hk] & Hb & Hpr).
    rewrite Hc, Z.eqb_refl. cbn [negb].
    replace (2 <? tx_transaction_type t) with false by lia. cbn [orb].
    replace ((tx_transaction_type t =? 0) && negb (bool_decide (tx_access_list t = []))) with false.
    2: { destruct (Z.eqb_spec (tx_transaction_type t) 0); [|done].
         rewrite bool_decide_eq_true_2 by auto. done. }
    if_false. pose proof (total_keys_bound _ _ Hi).
    apply existsb_ltb_false in Hi. rewrite Hi.
    unfold MAX_ACCESS_LIST_ENTRIES, MAX_ACCESS_LIST_STORAGE_KEYS_PER_ENTRY in *.
    rewrite wrap64_small by (ints; lia). if_false. if_false. if_false. done.
Qed.

(** The fee check accepts a transaction exactly when it is within the
    limits (mainnet, a known type, no access list on a legacy transaction,
    payload and access-list sizes) and its fee cap covers both the base fee and
    its own priority fee; a transaction accepted by the raw decoder can only
    fail the two fee comparisons. *)
Theorem fee_check_exact {D : Digests} {HX : HexCodec} {SG : Secp} t base :
  (validate_transaction_fee t base = Ok tt <->
   tx_limits t /\ base <= tx_max_fee_per_gas t /\
   tx_max_priority_fee_per_gas t <= tx_max_fee_per_gas t) /\
  (forall raw, decode_raw_transaction raw = Ok t -> base <= tx_max_fee_per_gas t ->
   tx_max_priority_fee_per_gas t <= tx_max_fee_per_gas t -> validate_transaction_fee t base = Ok tt).
Proof.
  split; [apply validate_transaction_fee_ok|]. intros raw Hd H1 H2.
  apply validate_transaction_fee_ok. split; [|done].
  apply decode_raw_ok in Hd as (bs & _ & [Hw _]).
  destruct Hw as [Hwf Hc Ht _ Hp [Hi He Hk] Hl]. split; try done.
  - destruct Ht as [?|[?|?]]; lia.
  - eapply List.Forall_impl, Hi. by intros i [].
Qed.

Section block_validation.
Context {BP : BuildProfile} {D : Digests} {RX : RandomX}.

(** The conditions on a header after its parent. *)
Record valid_header (parent child : BlockHeader) (genesis_hash : Hash256) : Prop := {
  vh_number : hdr_number child = wrap64 (hdr_number parent + 1);
  vh_timestamp : hdr_timestamp_seconds parent < hdr_timestamp_seconds child;
  vh_gas : hdr_gas_used child <= hdr_gas_limit child;
  vh_algorithm : hdr_pow_algorithm child = POW_ALGORITHM;
  vh_epoch : hdr_pow_epoch child = epoch_for_height (hdr_number child);
  vh_work : exists r, blq_rx_hash child genesis_hash = Ok r /\ hdr_mix_hash child = mix_hash r /\
              bytes_leb (final_hash r) (hdr_difficulty_target child) = true;
}.

Lemma res_map_err_ok {E F A} (f : E -> F) (m : res E A) a : res_map_err f m = Ok a <-> m = Ok a.
Proof. destruct m; simpl; split; congruence. Qed.

Lemma validate_header_ok parent child genesis_hash :
  validate_header_with_genesis parent child genesis_hash = Ok tt <->
  valid_header parent child genesis_hash.
Proof.
  unfold validate_header_with_genesis, satisfies_pow.
  destruct (blq_rx_hash_ok child genesis_hash) as (r & Hr & _). rewrite Hr. cbn [lift res_map_err].
  destruct (Z.eqb_spec (hdr_number child) (wrap64 (hdr_number parent + 1))); cbn [negb];
    [|split; [done|intros []; done]].
  destruct (Z.leb_spec (hdr_timestamp_seconds child) (hdr_timestamp_seconds parent));
    [split; [done|intros []; lia]|].
  destruct (Z.ltb_spec (hdr_gas_limit child) (hdr_gas_used child)); [split; [done|intros []; lia]|].
  destruct (validate_pow_fields child genesis_hash) as [[]|er|] eqn:Hp; cbn [res_map_err res_bind].
  - apply validate_pow_fields_ok in Hp as (Ha & He & r' & Hr' & Hm). rewrite Hr in Hr'.
    injection Hr' as <-. destruct (bytes_leb _ _) eqn:Hb; cbn [negb].
    + split; [|done]. intros _. split; try done. eauto.
    + split; [done|]. intros [_ _ _ _ _ (? & ? & _ & ?)]. congruence.
  - split; [done|]. intros [_ _ _ Ha He (r' & Hr' & Hm & _)].
    assert (validate_pow_fields child genesis_hash = Ok tt); [|congruence].
    apply validate_pow_fields_ok. eauto.
  - split; [done|]. intros [_ _ _ Ha He (r' & Hr' & Hm & _)].
    assert (validate_pow_fields child genesis_hash = Ok tt); [|congruence].
    apply validate_pow_fields_ok. eauto.
Qed.

(** The conditions on a block after its parent. *)
Record valid_block (parent : BlockHeader) (block : Block) (genesis_hash : Hash256)
    (activation_height : option Z) : Prop := {
  vb_header : valid_header parent (blk_header block) genesis_hash;
  vb_parent : hdr_parent_hash (blk_header block) = header_hash parent;
  vb_size : forall a, activation_height = Some a -> a <= hdr_number (blk_header block) ->
    Z.of_nat (length (block_canonical_bytes block)) <= MAX_BLOCK_BYTES;
  vb_receipts : length (blk_transactions block) = length (blk_receipts block);
  vb_transactions_root :
    hdr_transactions_root (blk_header block) = transactions_root (blk_transactions block);
  vb_receipts_root : hdr_receipts_root (blk_header block) = receipts_root (blk_receipts block);
  vb_base_fee : hdr_base_fee_per_gas (blk_header block) = next_base_fee_per_gas parent;
  vb_fees : Forall (fun t => validate_transaction_fee t (hdr_base_fee_per_gas (blk_header block)) = Ok tt)
              (blk_transactions block);
}.

Lemma block_size_ok block height activation :
  (if block_size_rule_active height activation then validate_block_size block else Ok tt) = Ok tt <->
  (forall a, activation = Some a -> a <= height ->
   Z.of_nat (length (block_canonical_bytes block)) <= MAX_BLOCK_BYTES).
Proof.
  unfold block_size_rule_active, validate_block_size. destruct activation as [a|]; [|done].
  destruct (Z.leb_spec a height).
  - destruct (Z.ltb_spec MAX_BLOCK_BYTES (Z.of_nat (length (block_canonical_bytes block)))).
    + split; [done|]. intros H'. specialize (H' a eq_refl). lia.
    + split; [|done]. intros _ ? [= <-] _. done.
  - split; [|done]. intros _ ? [= <-] ?. lia.
Qed.

Lemma validate_block_ok parent block genesis_hash activation_height :
  validate_block_with_genesis_and_activation parent block genesis_hash activation_height = Ok tt <->
  valid_block parent block genesis_hash activation_height.
Proof.
  unfold validate_block_with_genesis_and_activation.
  destruct (validate_header_with_genesis parent (blk_header block) genesis_hash) as [[]|er|] eqn:Hh;
    cbn [res_bind].
  2,3: split; [done|]; intros [Hv%validate_header_ok _ _ _ _ _ _ _]; congruence.
  apply validate_header_ok in Hh.
  case_bool_decide; cbn [negb]; [|split; [done|by intros []]].
  pose proof (block_size_ok block (hdr_number (blk_header block)) activation_height) as Hs.
  destruct (if block_size_rule_active _ _ then _ else _) as [[]|er|]; cbn [res_bind].
  2,3: split; [done|]; intros [_ _ Hz _ _ _ _ _]; apply Hs in Hz; discriminate.
  destruct (Z.eqb_spec (Z.of_nat (length (blk_transactions block)))
    (Z.of_nat (length (blk_receipts block)))) as [Hl|Hl]; cbn [negb];
    [|split; [done|intros []; congruence]].
  case_bool_decide; cbn [negb]; [|split; [done|by intros []]].
  case_bool_decide; cbn [negb]; [|split; [done|by intros []]].
  destruct (Z.eqb_spec (hdr_base_fee_per_gas (blk_header block)) (next_base_fee_per_gas parent));
    cbn [negb]; [|split; [done|by intros []]].
  rewrite for_each_ok. split; [|by intros []]. intros Hf. split; try done; [by apply Hs|lia].
Qed.

(** The rules of a block once more, without the functions of the validator: the
    base fee, the roots, the epoch, the work of the native build and what a
    transaction must keep are written out. *)
Definition base_fee_after (base used limit : Z) : Z :=
  let target := Z.max (limit / 2) 1 in
  let change := wrap128 (base * Z.abs (used - target)) / target / 8 in
  match used ?= target with
  | Eq => base
  | Gt => Z.min U128_MAX (base + Z.max change 1)
  | Lt => Z.max 0 (base - change)
  end.

Definition root_of (items : list (list byte)) : Hash256 :=
  let count := wrap64 (Z.of_nat (length items)) in
  if count =? 0 then HASH_ZERO
  else sha256 (mjoin ((fun i => be_bytes 8 (Z.of_nat (length i)) ++ i) <$> items) ++ be_bytes 8 count).

Record follows (parent child : BlockHeader) (genesis_hash : Hash256) : Prop := {
  fo_parent : hdr_parent_hash child = sha256 (header_canonical_bytes parent);
  fo_number : hdr_number child = wrap64 (hdr_number parent + 1);
  fo_timestamp : hdr_timestamp_seconds parent < hdr_timestamp_seconds child;
  fo_gas : hdr_gas_used child <= hdr_gas_limit child;
  fo_algorithm : hdr_pow_algorithm child = if native_randomx then B "BLQ-RX/2" else B "BLQ-RX/1";
  fo_epoch : hdr_pow_epoch child = hdr_number child / 2048;
  fo_work : exists r, blq_rx_hash child genesis_hash = Ok r /\ hdr_mix_hash child = mix_hash r /\
    bytes_leb (final_hash r) (hdr_difficulty_target child) = true;
  fo_native_work : native_randomx = true ->
    let w := randomx (epoch_seed (hdr_number child / 2048) genesis_hash) (pow_preimage_bytes child) in
    hdr_mix_hash child = w /\ bytes_leb w (hdr_difficulty_target child) = true;
  fo_base_fee : hdr_base_fee_per_gas child =
    base_fee_after (hdr_base_fee_per_gas parent) (hdr_gas_used parent) (hdr_gas_limit parent);
}.

Record body_rules (block : Block) (activation_height : option Z) : Prop := {
  bo_size : forall a, activation_height = Some a -> a <= hdr_number (blk_header block) ->
    Z.of_nat (length (block_canonical_bytes block)) <= MAX_BLOCK_BYTES;
  bo_receipts : length (blk_transactions block) = length (blk_receipts block);
  bo_transactions_root :
    hdr_transactions_root (blk_header block) = root_of (map tx_canonical_bytes (blk_transactions block));
  bo_receipts_root :
    hdr_receipts_root (blk_header block) = root_of (map receipt_canonical_bytes (blk_receipts block));
  bo_fees : Forall (fun t => tx_limits t /\
      hdr_base_fee_per_gas (blk_header block) <= tx_max_fee_per_gas t /\
      tx_max_priority_fee_per_gas t <= tx_max_fee_per_gas t) (blk_transactions block);
}.

Lemma base_fee_after_eq parent :
  next_base_fee_per_gas parent =
  base_fee_after (hdr_base_fee_per_gas parent) (hdr_gas_used parent) (hdr_gas_limit parent).
Proof.
  unfold next_base_fee_per_gas, base_fee_after.
  change EIP1559_ELASTICITY_MULTIPLIER with 2. change EIP1559_BASE_FEE_MAX_CHANGE_DENOMINATOR with 8.
  set (target := Z.max _ 1). destruct (Z.compare_spec (hdr_gas_used parent) target) as [E|E|E].
  - by rewrite E, Z.eqb_refl.
  - replace (hdr_gas_used parent =? target) with false by lia.
    replace (target <? hdr_gas_used parent) with false by lia. unfold sat_sub.
    replace (Z.abs (hdr_gas_used parent - target)) with (target - hdr_gas_used parent) by lia.
    apply Z.max_comm.
  - replace (hdr_gas_used parent =? target) with false by lia.
    replace (target <? hdr_gas_used parent) with true by lia. unfold sat_add.
    rewrite Z.abs_eq by lia. apply Z.min_comm.
Qed.

Lemma root_of_eq items : merkle_like_root items = root_of items.
Proof.
  unfold merkle_like_root, root_of.
  enough (forall input n, fold_left (fun '(input, count) item => (input ++ merkle_item item, wrap64 (count + 1)))
    items (input, wrap64 n) = (input ++ mjoin (merkle_item <$> items), wrap64 (n + Z.of_nat (length items)))) as H.
  { specialize (H [] 0). change (wrap64 0) with 0 in H. by rewrite H. }
  induction items as [|i items IH]; intros input n; cbn [fold_left length].
  - by rewrite app_nil_r, Z.add_0_r.
  - replace (wrap64 (wrap64 n + 1)) with (wrap64 (n + 1)) by (unfold wrap64; by rewrite Zplus_mod_idemp_l).
    rewrite IH, <- (assoc_L (++)). f_equal. f_equal. lia.
Qed.

Lemma valid_block_rules parent block genesis_hash activation_height :
  valid_block parent block genesis_hash activation_height <->
  follows parent (blk_header block) genesis_hash /\ body_rules block activation_height.
Proof.
  assert (forall n g, native_randomx = true -> let w := randomx (epoch_seed (hdr_number n / 2048) g) (pow_preimage_bytes n) in
    forall r, blq_rx_hash n g = Ok r -> r = {| mix_hash := w; final_hash := w |}) as Hn.
  { intros n g E w r Hr. rewrite blq_rx_hash_native in Hr by done. by injection Hr. }
  split.
  - intros [[H1 H2 H3 H4 H5 (r & Hr & H6)] H7 H8 H9 H10 H11 H12 H13]. split; split; try done.
    + eauto.
    + intros E. rewrite (Hn _ _ E _ Hr) in H6. exact H6.
    + by rewrite <- base_fee_after_eq.
    + rewrite <- root_of_eq. exact H10.
    + rewrite <- root_of_eq. exact H11.
    + eapply List.Forall_impl, H13. intros t. apply validate_transaction_fee_ok.
  - intros [[H1 H2 H3 H4 H5 H6 H7 _ H8] [H9 H10 H11 H12 H13]]. split; try done.
    + by rewrite H11, <- root_of_eq.
    + by rewrite H12, <- root_of_eq.
    + by rewrite base_fee_after_eq.
    + eapply List.Forall_impl, H13. intros t. apply validate_transaction_fee_ok.
Qed.

(** C1: a block validates exactly when its header follows the parent
    (hash of the parent, number, timestamp, gas, algorithm, epoch, mix hash and
    hash at or below its target, which in the native build is the RandomX hash
    of its preimage, and the base fee computed from the parent's gas) and its
    body keeps the rules (size where that is active, one receipt per
    transaction, both roots, and each transaction within its limits, paying the
    base fee and a tip within its cap).  The rules are written out, not taken
    from the validator's own functions. *)
Theorem validate_block_exact parent block genesis_hash activation_height :
  validate_block_with_genesis_and_activation parent block genesis_hash activation_height = Ok tt <->
  follows parent (blk_header block) genesis_hash /\ body_rules block activation_height.
Proof. rewrite validate_block_ok. apply valid_block_rules. Qed.

End block_validation.

Lemma fee_check_exact_witness :
  validate_transaction_fee (with_external_hash (sample_signed 2)
    (@keccak256 toy_digests (signed_bytes_of (sample_signed 2) sample_signature)))
    INITIAL_BASE_FEE_PER_GAS_BIX = Ok tt.
Proof.
  destruct (@fee_check_exact toy_digests hex_codec toy_secp (with_external_hash (sample_signed 2)
    (@keccak256 toy_digests (signed_bytes_of (sample_signed 2) sample_signature)))
    INITIAL_BASE_FEE_PER_GAS_BIX) as [_ H].
  apply (H (sample_raw 2)); [exact decode_sample_raw|by vm_compute|by vm_compute].
Defined.
