(* ===== verification/State.v ===== *)
(** Accounts: [crates/blq-state] (the in-memory state and its [transfer]) and
    the sums over account maps that the conservation properties use. *)

From Stdlib Require Import ZArith Lia Strings.String Strings.Byte.
From stdpp Require Import gmap list base fin_maps.
From S2P Require Import Prelude Externals Primitives.
#[local] Open Scope Z_scope.

(** ** Sums over maps *)

Definition map_sum {V} (f : V -> Z) (m : gmap (list byte) V) : Z :=
  sumZ (map (fun kv => f kv.2) (map_to_list m)).

Section map_sum.
Context {V : Type} (f : V -> Z).

Lemma map_sum_empty : map_sum f ∅ = 0.
Proof. unfold map_sum. by rewrite map_to_list_empty. Qed.

Lemma map_sum_insert_fresh m k v : m !! k = None -> map_sum f (<[k := v]> m) = f v + map_sum f m.
Proof. intros H. unfold map_sum. by rewrite map_to_list_insert. Qed.

Lemma map_sum_insert m k v :
  map_sum f (<[k := v]> m) = map_sum f m - from_option f 0 (m !! k) + f v.
Proof.
  destruct (m !! k) as [old|] eqn:E; simpl.
  - rewrite <- insert_delete_eq. rewrite <- (insert_delete_id m k old E) at 2.
    rewrite !map_sum_insert_fresh by apply lookup_delete_eq. lia.
  - rewrite map_sum_insert_fresh by done. lia.
Qed.

Lemma map_sum_lookup m k v :
  map_Forall (fun _ v => 0 <= f v) m -> m !! k = Some v -> 0 <= f v <= map_sum f m.
Proof.
  intros Hm E. split; [by eapply Hm|].
  rewrite <- (insert_delete_id m k v E), map_sum_insert_fresh by apply lookup_delete_eq.
  assert (0 <= map_sum f (delete k m)); [|lia].
  apply sumZ_nonneg, Forall_map, Forall_forall. intros [k' v'] Hin. simpl.
  apply elem_of_map_to_list in Hin. apply lookup_delete_Some in Hin as [_ ?]. by eapply Hm.
Qed.

Lemma map_sum_nonneg m : map_Forall (fun _ v => 0 <= f v) m -> 0 <= map_sum f m.
Proof.
  intros Hm. apply sumZ_nonneg, Forall_map, Forall_forall. intros [k v] Hin.
  apply elem_of_map_to_list in Hin. by eapply Hm.
Qed.

End map_sum.

(** ** [blq-state] *)

Record Account := {
  acc_nonce : Z;
  acc_balance : Bix;
  acc_code_hash : Hash256;
  acc_storage_root : Hash256;
  acc_code : list byte;
  acc_storage : gmap (list byte) Hash256;
}.

Definition account_empty : Account := {|
  acc_nonce := 0; acc_balance := 0; acc_code_hash := HASH_ZERO; acc_storage_root := HASH_ZERO;
  acc_code := []; acc_storage := ∅ |}.

Inductive StateError := InsufficientBalance | InvalidNonce.

Record InMemoryState := { accounts : gmap (list byte) Account }.

Record StateTransitionSummary := {
  sts_state_root : Hash256;
  sts_receipts_root : Hash256;
  sts_gas_used : Z;
  sts_burned_fees : Bix;
  sts_miner_fees : Bix;
}.

Definition account (s : InMemoryState) (address : Address) : Account :=
  default account_empty (accounts s !! address).

Definition put_account (s : InMemoryState) (address : Address) (a : Account) : InMemoryState :=
  {| accounts := <[address := a]> (accounts s) |}.

Definition set_balance (a : Account) (b : Bix) : Account := {|
  acc_nonce := acc_nonce a; acc_balance := b; acc_code_hash := acc_code_hash a;
  acc_storage_root := acc_storage_root a; acc_code := acc_code a; acc_storage := acc_storage a |}.
Definition set_nonce (a : Account) (n : Z) : Account := {|
  acc_nonce := n; acc_balance := acc_balance a; acc_code_hash := acc_code_hash a;
  acc_storage_root := acc_storage_root a; acc_code := acc_code a; acc_storage := acc_storage a |}.

(** The new state is the one the mutable reference holds when [Ok] returns; on
    an error nothing has been written. *)
Definition transfer (s : InMemoryState) (from to : Address) (nonce : Z) (value fee : Bix)
    : res StateError InMemoryState :=
  let sender := account s from in
  if negb (acc_nonce sender =? nonce) then Err InvalidNonce
  else
    let total := sat_add U128_MAX value fee in
    if acc_balance sender <? total then Err InsufficientBalance
    else
      let sender := set_balance sender (acc_balance sender - total) in
      let sender := set_nonce sender (wrap64 (acc_nonce sender + 1)) in
      let receiver := account s to in
      let receiver := set_balance receiver (sat_add U128_MAX (acc_balance receiver) value) in
      let s := put_account s from sender in
      Ok (put_account s to receiver).

Definition state_supply (s : InMemoryState) : Z := map_sum acc_balance (accounts s).

Lemma state_supply_put s a acc :
  state_supply (put_account s a acc) = state_supply s - acc_balance (account s a) + acc_balance acc.
Proof.
  unfold state_supply, put_account, account. cbn [accounts]. rewrite map_sum_insert.
  by destruct (accounts s !! a).
Qed.

Lemma account_put_eq s a acc : account (put_account s a acc) a = acc.
Proof. unfold account, put_account. cbn [accounts]. by rewrite lookup_insert_eq. Qed.
Lemma account_put_ne s a b acc : a <> b -> account (put_account s a acc) b = account s b.
Proof. intros. unfold account, put_account. cbn [accounts]. by rewrite lookup_insert_ne. Qed.

(** Balances are amounts and their sum fits the type with room to spare. *)
Definition state_ok (s : InMemoryState) : Prop :=
  map_Forall (fun _ a => 0 <= acc_balance a) (accounts s) /\ state_supply s < U128_MAX.

Lemma account_balance_range s a :
  state_ok s -> 0 <= acc_balance (account s a) <= state_supply s.
Proof.
  intros [H _]. unfold account. destruct (accounts s !! a) as [acc|] eqn:E; simpl.
  - by eapply (map_sum_lookup acc_balance) in E.
  - split; [done|]. by apply map_sum_nonneg.
Qed.

(** A transfer between two different accounts either fails, and then
    exactly because of the nonce or the balance, or moves the value, takes the
    fee from the sender, advances the sender's nonce by one and touches no
    other account; the total supply falls by exactly the fee. *)
Theorem transfer_sound s from to nonce value fee :
  state_ok s -> from <> to -> 0 <= value -> 0 <= fee ->
  match transfer s from to nonce value fee with
  | Err InvalidNonce => acc_nonce (account s from) <> nonce
  | Err InsufficientBalance =>
      acc_nonce (account s from) = nonce /\ acc_balance (account s from) < value + fee
  | Panic => False
  | Ok s' =>
      acc_nonce (account s from) = nonce /\
      acc_balance (account s' from) = acc_balance (account s from) - value - fee /\
      acc_balance (account s' to) = acc_balance (account s to) + value /\
      acc_nonce (account s' from) = wrap64 (nonce + 1) /\
      acc_nonce (account s' to) = acc_nonce (account s to) /\
      (forall a, a <> from -> a <> to -> account s' a = account s a) /\
      state_supply s' = state_supply s - fee /\ state_ok s'
  end.
Proof.
  intros Hs Hne Hv Hf. unfold transfer.
  pose proof (account_balance_range s from Hs) as Hb1. pose proof (account_balance_range s to Hs) as Hb2.
  destruct (Z.eqb_spec (acc_nonce (account s from)) nonce) as [Hn|Hn]; cbn [negb]; [|done].
  assert (acc_balance (account s from) + acc_balance (account s to) <= state_supply s) as Hsum.
  { pose proof (state_supply_put s from account_empty) as E.
    assert (state_ok (put_account s from account_empty)) as Hs'.
    { split; [|destruct Hs as [_ ?]; simpl in E; lia]. apply map_Forall_insert_2; [done|apply Hs]. }
    pose proof (account_balance_range _ to Hs') as Hb. rewrite account_put_ne in Hb by done.
    simpl in E. lia. }
  pose proof Hs as [Hpos Hsup]. unfold sat_add.
  destruct (Z.ltb_spec (acc_balance (account s from)) (Z.min (value + fee) U128_MAX)); [lia|].
  set (sender' := set_nonce _ _). set (receiver' := set_balance (account s to) _).
  assert (acc_balance sender' = acc_balance (account s from) - value - fee) as Hbs.
  { simpl. lia. }
  assert (acc_balance receiver' = acc_balance (account s to) + value) as Hbr.
  { simpl. unfold sat_add. lia. }
  rewrite !account_put_eq. rewrite (account_put_ne _ to from) by done. rewrite account_put_eq.
  assert (state_supply (put_account (put_account s from sender') to receiver') = state_supply s - fee) as Hsup'.
  { rewrite !state_supply_put, account_put_ne by done. lia. }
  split; [done|]. split; [done|]. split; [done|]. split; [simpl; by rewrite Hn|].
  split; [done|]. split; [intros a Ha1 Ha2; by rewrite !account_put_ne|]. split; [done|].
  split; [|lia]. apply map_Forall_insert_2; [lia|]. apply map_Forall_insert_2; [lia|done].
Qed.

(** A transfer to oneself is not neutral: the receiver is read before the
    sender is written back and overwrites it, so the value is added, neither
    value nor fee is taken and the nonce does not advance. *)
Theorem transfer_self_mints s a nonce value fee s' :
  transfer s a a nonce value fee = Ok s' ->
  acc_nonce (account s' a) = acc_nonce (account s a) /\
  acc_balance (account s' a) = sat_add U128_MAX (acc_balance (account s a)) value.
Proof.
  unfold transfer. case_match; [done|]. case_match; [done|]. intros [= <-].
  by rewrite account_put_eq.
Qed.

(** Two accounts, the first funded. *)
Definition sample_state : InMemoryState :=
  put_account {| accounts := ∅ |} (be_bytes 20 1) (set_balance account_empty 100).

Lemma sample_state_ok : state_ok sample_state.
Proof.
  split; [|by vm_compute]. apply map_Forall_insert_2; [done|]. apply map_Forall_empty.
Qed.

Lemma transfer_sound_witness :
  match transfer sample_state (be_bytes 20 1) (be_bytes 20 2) 0 30 5 with
  | Ok s' => acc_balance (account s' (be_bytes 20 2)) = 30 /\ state_supply s' = 95
  | _ => False
  end.
Proof.
  pose proof (transfer_sound sample_state (be_bytes 20 1) (be_bytes 20 2) 0 30 5 sample_state_ok) as H.
  destruct (is_ok_true (transfer sample_state (be_bytes 20 1) (be_bytes 20 2) 0 30 5)) as [s' E];
    [by vm_compute|]. rewrite E in *.
  destruct H as (_ & _ & H1 & _ & _ & _ & H2 & _); [by vm_compute|lia|lia|].
  split; [rewrite H1; by vm_compute|rewrite H2; by vm_compute].
Defined.

Lemma transfer_self_mints_witness :
  exists s', transfer sample_state (be_bytes 20 1) (be_bytes 20 1) 0 30 5 = Ok s' /\
    acc_balance (account s' (be_bytes 20 1)) = 130 /\ acc_nonce (account s' (be_bytes 20 1)) = 0.
Proof.
  destruct (is_ok_true (transfer sample_state (be_bytes 20 1) (be_bytes 20 1) 0 30 5)) as [s' E];
    [by vm_compute|].
  exists s'. split; [done|]. destruct (transfer_self_mints _ _ _ _ _ _ E) as [H1 H2].
  rewrite H1, H2. by vm_compute.
Defined.
