(* ===== verification/StateRoot.v ===== *)
(** The state roots of [crates/blq-storage]: what [state_root_from_accounts]
    hashes, and that it determines the accounts that are not empty. *)

From Stdlib Require Import ZArith Lia Strings.String Strings.Byte.
From stdpp Require Import sorting gmap list base fin_maps.
From S2P Require Import Prelude Externals Primitives Canonical State.
#[local] Open Scope Z_scope.

(** [BTreeMap<Address, (Bix, u64)>] and [BTreeMap<Address, EvmAccountSnapshot>]. *)
Abbreviation Accounts := (gmap (list byte) (Z * Z)) (only parsing).
Abbreviation EvmAccountSnapshot := (Z * Z * list byte * gmap (list byte) (list byte))%type (only parsing).

Definition nonempty_account (a : Z * Z) : bool := (0 <? a.1) || (0 <? a.2).

Definition state_entries (m : Accounts) : list (list byte * (Z * Z)) :=
  List.filter (fun kv => nonempty_account kv.2) (btree_iter m).

Definition state_entry_bytes (kv : list byte * (Z * Z)) : list byte :=
  kv.1 ++ be_bytes 16 kv.2.1 ++ be_bytes 8 kv.2.2.

Definition state_preimage (m : Accounts) : list byte :=
  let entries := state_entries m in
  B "BLQ-STATE-v1" ++ be_bytes 8 (Z.of_nat (length entries)) ++
  concat (map state_entry_bytes entries).

Section roots.
Context {D : Digests}.

Definition state_root_from_accounts (m : Accounts) : Hash256 := hash_bytes (state_preimage m).

Definition evm_entry_bytes (kv : list byte * EvmAccountSnapshot) : list byte :=
  let '(address, (balance, nonce, code, storage)) := kv in
  if (balance =? 0) && (nonce =? 0) && bool_decide (code = []) && bool_decide (storage = ∅) then []
  else
    address ++ be_bytes 16 balance ++ be_bytes 8 nonce ++ hash_bytes code ++
    concat (map (fun sv => sv.1 ++ sv.2) (btree_iter storage)).

Definition evm_state_root_from_accounts (m : gmap (list byte) EvmAccountSnapshot) : Hash256 :=
  hash_bytes (B "BLQ-EVM-STATE-v1" ++ concat (map evm_entry_bytes (btree_iter m))).
End roots.

(** ** Injectivity *)

(** Keys are addresses, balances and nonces are in range. *)
Definition accounts_wf (m : Accounts) : Prop :=
  map_Forall (fun k a => wf_address k /\ in_u128 a.1 /\ in_u64 a.2) m.

Definition wf_entry (kv : list byte * (Z * Z)) : Prop :=
  wf_address kv.1 /\ in_u128 kv.2.1 /\ in_u64 kv.2.2.

Lemma pinj_state_entry : pinj wf_entry state_entry_bytes.
Proof.
  intros [k1 [b1 n1]] [k2 [b2 n2]] r s (H1 & H2 & H3) (H4 & H5 & H6) E.
  unfold state_entry_bytes in E. simpl in *. rewrite <- !app_assoc in E.
  apply (pinj_arr 20) in E as [-> E]; [|done..].
  apply pinj_u128 in E as [-> E]; [|done..]. apply pinj_u64 in E as [-> E]; done.
Qed.

(** The accounts the root looks at. *)
Definition live (m : Accounts) : Accounts :=
  filter (fun kv => nonempty_account kv.2 = true) m.

Lemma elem_of_state_entries m k a :
  (k, a) ∈ state_entries m <-> m !! k = Some a /\ nonempty_account a = true.
Proof.
  unfold state_entries. rewrite list_elem_of_In, filter_In, <- list_elem_of_In. simpl.
  by rewrite elem_of_btree_iter.
Qed.

Lemma state_entries_live m1 m2 : state_entries m1 = state_entries m2 -> live m1 = live m2.
Proof.
  intros E. apply map_eq. intros k. apply option_eq. intros a. unfold live.
  rewrite !map_lookup_filter_Some. simpl. by rewrite <- !elem_of_state_entries, E.
Qed.

Abbreviation key_le := (cmp_le (fun a b : list byte * (Z * Z) => bytes_compare a.1 b.1)) (only parsing).

Lemma state_entries_sorted m : StronglySorted key_le (state_entries m).
Proof. apply StronglySorted_filter, sort_by_sorted, bytes_cmp_preorder. Qed.

Lemma NoDup_state_entries m : NoDup (state_entries m).
Proof.
  unfold state_entries. apply NoDup_ListNoDup, List.NoDup_filter, NoDup_ListNoDup.
  rewrite btree_iter_perm. apply NoDup_map_to_list.
Qed.

Lemma state_entries_of_live m : state_entries m = state_entries (live m).
Proof.
  apply (StronglySorted_unique_strong key_le); try apply state_entries_sorted.
  - intros [k1 v1] [k2 v2] H1 H2 H12 H21. unfold cmp_le in *. simpl in *.
    rewrite bytes_compare_antisym in H21.
    assert (bytes_compare k1 k2 = Eq) as Heq by (destruct (bytes_compare k1 k2); done).
    apply bytes_compare_eq in Heq. subst k2.
    apply elem_of_state_entries in H1 as [H1 _], H2 as [H2 _].
    apply map_lookup_filter_Some in H2 as [H2 _]. congruence.
  - apply NoDup_Permutation; [apply NoDup_state_entries..|]. intros [k a].
    rewrite !elem_of_state_entries. unfold live. rewrite map_lookup_filter_Some. simpl. tauto.
Qed.

Lemma state_entries_wf m : accounts_wf m -> Forall wf_entry (state_entries m).
Proof.
  intros H. apply Forall_forall. intros [k a] [Hin _]%elem_of_state_entries. exact (H k a Hin).
Qed.

Lemma state_preimage_inj m1 m2 :
  accounts_wf m1 -> accounts_wf m2 ->
  fits (state_entries m1) -> fits (state_entries m2) ->
  state_preimage m1 = state_preimage m2 -> state_entries m1 = state_entries m2.
Proof.
  intros W1 W2 F1 F2 E. unfold state_preimage in E. apply app_inv_head in E.
  apply app_inj_len in E as [El E]; [|by rewrite !length_be_bytes].
  apply be_bytes_u64_inj in El; [|unfold fits in *; ints; lia..].
  rewrite <- (app_nil_r (concat _)), <- (app_nil_r (concat (map _ (state_entries m2)))) in E.
  apply (pinj_concat wf_entry state_entry_bytes) in E as [E _];
    [done|apply pinj_state_entry|by apply state_entries_wf..|lia].
Qed.

(** The state root is the digest of a message that determines exactly
    the accounts with a positive balance or nonce: two account maps have the
    same message if and only if these accounts agree, whatever empty accounts
    they hold besides. *)
Theorem state_root_commits {D : Digests} m1 m2 :
  accounts_wf m1 -> accounts_wf m2 ->
  fits (state_entries m1) -> fits (state_entries m2) ->
  state_root_from_accounts m1 = sha256 (state_preimage m1) /\
  (state_preimage m1 = state_preimage m2 <-> live m1 = live m2).
Proof.
  intros W1 W2 F1 F2. split; [done|]. split.
  - intros E. by apply state_entries_live, state_preimage_inj.
  - intros E. unfold state_preimage. by rewrite (state_entries_of_live m1), (state_entries_of_live m2), E.
Qed.

Lemma state_root_commits_witness :
  let m1 : Accounts := <[be_bytes 20 1 := (5, 0)]> ∅ in
  let m2 : Accounts := <[be_bytes 20 2 := (0, 0)]> m1 in
  live m1 = live m2.
Proof.
  cbv zeta.
  assert (accounts_wf (<[be_bytes 20 1 := (5, 0)]> ∅)) as W1.
  { apply map_Forall_insert_2; [split; [apply length_be_bytes|ints; simpl; lia]|apply map_Forall_empty]. }
  destruct (@state_root_commits toy_digests (<[be_bytes 20 1 := (5, 0)]> ∅)
    (<[be_bytes 20 2 := (0, 0)]> (<[be_bytes 20 1 := (5, 0)]> ∅))) as [_ H].
  - exact W1.
  - apply map_Forall_insert_2; [split; [apply length_be_bytes|ints; simpl; lia]|exact W1].
  - vm_compute. discriminate.
  - vm_compute. discriminate.
  - apply H. by vm_compute.
Defined.
