(* ===== verification/Transition.v ===== *)
(** The plain state transition of [crates/blq-node/src/main.rs]: applying the
    transfers of a block to the account map, rewarding the beneficiary, and the
    supply accounting. *)

From Stdlib Require Import ZArith Lia Strings.String Strings.Byte.
From stdpp Require Import gmap list base fin_maps.
From S2P Require Import Prelude Externals Primitives Canonical Rlp Pow Consensus State StateRoot.
#[local] Open Scope Z_scope.

Definition TRANSFER_GAS : Z := 21000.

Definition consensus_message (e : ConsensusError) : string :=
  match e with
  | GasUsedExceedsLimit => "block gas used exceeds gas limit"
  | InvalidProofOfWork => "proof of work hash is above target"
  | InvalidProofOfWorkFields => "proof of work fields are invalid"
  | InvalidBlockNumber => "child block number does not follow parent"
  | InvalidTimestamp => "child timestamp is not greater than parent timestamp"
  | InvalidParentHash => "block parent hash does not match parent header hash"
  | BlockTooLarge => "block exceeds the maximum canonical size"
  | InvalidTransactionsRoot => "transactions root does not match block transactions"
  | InvalidReceiptsRoot => "receipts root does not match block receipts"
  | ReceiptTransactionMismatch => "receipts length does not match transactions length"
  | InvalidTransactionChainId => "transaction chain id is not the Block mainnet chain id"
  | MaxFeeBelowBaseFee => "transaction max fee per gas is below block base fee"
  | PriorityFeeExceedsMaxFee => "transaction priority fee exceeds max fee"
  | UnsupportedTransactionType => "transaction type is unsupported"
  | TransactionPayloadTooLarge => "transaction payload exceeds the maximum size"
  | AccessListTooLarge => "transaction access list exceeds the maximum size"
  | InvalidBaseFee => "block base fee does not match parent utilization"
  end%string.

(** The price per unit of gas a transaction pays under a base fee. *)
Definition effective_gas_price (t : Transaction) (base_fee : Bix) : Z :=
  Z.min (tx_max_fee_per_gas t) (sat_add U128_MAX base_fee (tx_max_priority_fee_per_gas t)).

Definition gas_fee (gas price : Z) : Bix := sat_mul U128_MAX gas price.

Definition validate_transfer_transaction_shape (t : Transaction) : res string unit :=
  match tx_to t with
  | None => Ok tt
  | Some _ =>
      if negb (bool_decide (tx_payload t = [])) then Ok tt
      else if tx_gas_limit t <? TRANSFER_GAS
      then Err "plain BLQ transfer gas_limit must be at least 21000"%string
      else Ok tt
  end.

Definition block_gas (ts : list Transaction) : res string Z :=
  fold_left (fun acc t =>
      let? total := acc in
      ok_or (checked_add U64_MAX total (tx_gas_limit t)) "block gas overflow"%string)
    ts (Ok 0).

Section transition.
Context {D : Digests}.

Definition transfer_receipt (t : Transaction) : Receipt := {|
  rc_transaction_hash := tx_rpc_hash t; rc_success := true; rc_gas_used := tx_gas_limit t;
  rc_logs_root := HASH_ZERO; rc_logs := [] |}.

(** One round of the loop over the transactions. *)
Definition apply_transaction (split : FeeSplit) (base_fee : Bix)
    (st : Accounts * Bix * list Receipt) (t : Transaction)
    : res string (Accounts * Bix * list Receipt) :=
  let '(accounts, miner_fees, receipts) := st in
  validate_transfer_transaction_shape t ;?
  res_map_err consensus_message (validate_transaction_fee t base_fee) ;?
  let? to := ok_or (tx_to t) "contract creation is not implemented yet"%string in
  let sender := default (0, 0) (accounts !! tx_from t) in
  if negb (sender.2 =? tx_nonce t) then Err "invalid nonce"%string
  else
    let fee := gas_fee (tx_gas_limit t) (effective_gas_price t base_fee) in
    let total_cost := sat_add U128_MAX (tx_value t) fee in
    if sender.1 <? total_cost then Err "account has insufficient balance"%string
    else
      let sender := (sender.1 - total_cost, sat_add U64_MAX sender.2 1) in
      let accounts := <[tx_from t := sender]> accounts in
      let balance := sat_add U128_MAX (default 0 (fst <$> accounts !! to)) (tx_value t) in
      let entry := default (0, 0) (accounts !! to) in
      let accounts := <[to := (balance, entry.2)]> accounts in
      let '(_, miner_fee) := split_fee split fee in
      Ok (accounts, sat_add U128_MAX miner_fees miner_fee, receipts ++ [transfer_receipt t]).

Definition simulate_state_transition_from_accounts (accounts : Accounts) (block : Block)
    (parent_timestamp : Z) : res string (Accounts * list Receipt * Z) :=
  let header := blk_header block in
  let? gas_used := block_gas (blk_transactions block) in
  if hdr_gas_limit header <? gas_used then Err "block gas used exceeds gas limit"%string
  else
    let split := fee_split_for_utilization
                   (utilization_basis_points gas_used (hdr_gas_limit header)) in
    let? (accounts, miner_fees, receipts) :=
      fold_left (fun acc t => let? st := acc in apply_transaction split (hdr_base_fee_per_gas header) st t)
        (blk_transactions block) (Ok (accounts, 0, [])) in
    let beneficiary := beneficiary_address header in
    let beneficiary_credit := sat_add U128_MAX
      (block_reward_for_interval_bix parent_timestamp (hdr_timestamp_seconds header)) miner_fees in
    let accounts :=
      if 0 <? beneficiary_credit then
        let entry := default (0, 0) (accounts !! beneficiary) in
        <[beneficiary := (sat_add U128_MAX entry.1 beneficiary_credit, entry.2)]> accounts
      else accounts in
    Ok (accounts, receipts, gas_used).

(** [block_supply_delta]: the issued and the burned amount recorded for a block. *)
Definition block_supply_delta (block : Block) (parent_timestamp : Z) : Bix * Bix :=
  let header := blk_header block in
  let subsidy := block_reward_for_interval_bix parent_timestamp (hdr_timestamp_seconds header) in
  let gas_used := fold_left (fun total r => wrap64 (total + rc_gas_used r)) (blk_receipts block) 0 in
  let split := fee_split_for_utilization
                 (utilization_basis_points gas_used (hdr_gas_limit header)) in
  let gross_fees := fold_left (sat_add U128_MAX)
    (map (fun tr => gas_fee (rc_gas_used tr.2) (effective_gas_price tr.1 (hdr_base_fee_per_gas header)))
       (zip (blk_transactions block) (blk_receipts block))) 0 in
  let '(burned, _) := split_fee split gross_fees in
  (subsidy, burned).

(** ** Supply *)

Definition supply (m : Accounts) : Z := map_sum fst m.
Definition balance_of (m : Accounts) (a : Address) : Z := default 0 (fst <$> m !! a).
Definition nonce_of (m : Accounts) (a : Address) : Z := default 0 (snd <$> m !! a).

Definition balances_ok (m : Accounts) : Prop := map_Forall (fun _ a => 0 <= a.1) m.

Lemma supply_insert m a b n : supply (<[a := (b, n)]> m) = supply m - balance_of m a + b.
Proof. unfold supply, balance_of. rewrite map_sum_insert. by destruct (m !! a). Qed.

Lemma balance_of_insert m a b n c :
  balance_of (<[a := (b, n)]> m) c = if decide (c = a) then b else balance_of m c.
Proof.
  unfold balance_of. destruct (decide (c = a)) as [->|]; [by rewrite lookup_insert_eq|].
  by rewrite lookup_insert_ne.
Qed.

Lemma nonce_of_insert m a b n c :
  nonce_of (<[a := (b, n)]> m) c = if decide (c = a) then n else nonce_of m c.
Proof.
  unfold nonce_of. destruct (decide (c = a)) as [->|]; [by rewrite lookup_insert_eq|].
  by rewrite lookup_insert_ne.
Qed.

Lemma default_entry m a : default (0, 0) (m !! a) = (balance_of m a, nonce_of m a).
Proof. unfold balance_of, nonce_of. destruct (m !! a) as [[b n]|]; done. Qed.

Lemma balance_of_range m a : balances_ok m -> 0 <= balance_of m a <= supply m.
Proof.
  intros H. unfold balance_of. destruct (m !! a) as [v|] eqn:E; simpl.
  - by eapply (map_sum_lookup fst) in E.
  - split; [done|]. by apply (map_sum_nonneg fst).
Qed.

Lemma balance_pair m a b :
  balances_ok m -> a <> b -> balance_of m a + balance_of m b <= supply m.
Proof.
  intros H Hne. pose proof (supply_insert m a 0 0) as E.
  assert (balances_ok (<[a := (0, 0)]> m)) as H' by (apply map_Forall_insert_2; [done|exact H]).
  pose proof (balance_of_range _ b H') as Hb. rewrite balance_of_insert in Hb.
  destruct (decide (b = a)); [congruence|]. lia.
Qed.

(** The fee of a transaction and the part of it that is burned. *)
Definition tx_fee (base_fee : Bix) (t : Transaction) : Z :=
  gas_fee (tx_gas_limit t) (effective_gas_price t base_fee).
Definition tx_burn (split : FeeSplit) (base_fee : Bix) (t : Transaction) : Z :=
  fst (split_fee split (tx_fee base_fee t)).

Definition total_burn (split : FeeSplit) (base_fee : Bix) (ts : list Transaction) : Z :=
  sumZ (map (tx_burn split base_fee) ts).
Definition total_fees (base_fee : Bix) (ts : list Transaction) : Z :=
  sumZ (map (tx_fee base_fee) ts).

(** Amounts of the types. *)
Definition tx_amounts_ok (t : Transaction) : Prop :=
  in_u128 (tx_value t) /\ in_u64 (tx_gas_limit t) /\ in_u128 (tx_max_fee_per_gas t) /\
  in_u128 (tx_max_priority_fee_per_gas t) /\ in_u64 (tx_nonce t).

Lemma tx_fee_range base t : 0 <= base -> tx_amounts_ok t -> in_u128 (tx_fee base t).
Proof.
  intros Hb (_ & Hg & Hm & Hp & _). unfold tx_fee, gas_fee, effective_gas_price, sat_mul, sat_add.
  assert (0 <= Z.min (tx_max_fee_per_gas t) (Z.min (base + tx_max_priority_fee_per_gas t) U128_MAX))
    by (ints; lia).
  ints. nia.
Qed.

(** The facts of one successful round. *)
Record round_ok (split : FeeSplit) (base : Bix) (m : Accounts) (fees : Bix) (rs : list Receipt)
    (t : Transaction) (m' : Accounts) (fees' : Bix) (rs' : list Receipt) (to : Address) : Prop := {
  ro_to : tx_to t = Some to;
  ro_nonce : nonce_of m (tx_from t) = tx_nonce t;
  ro_balance : sat_add U128_MAX (tx_value t) (tx_fee base t) <= balance_of m (tx_from t);
  ro_shape : validate_transfer_transaction_shape t = Ok tt;
  ro_fee_check : validate_transaction_fee t base = Ok tt;
  ro_accounts :
    let m1 := <[tx_from t := (balance_of m (tx_from t) - sat_add U128_MAX (tx_value t) (tx_fee base t),
                              sat_add U64_MAX (nonce_of m (tx_from t)) 1)]> m in
    m' = <[to := (sat_add U128_MAX (balance_of m1 to) (tx_value t), nonce_of m1 to)]> m1;
  ro_fees : fees' = sat_add U128_MAX fees (snd (split_fee split (tx_fee base t)));
  ro_receipts : rs' = rs ++ [transfer_receipt t];
}.

Lemma apply_transaction_inv split base m fees rs t m' fees' rs' :
  apply_transaction split base (m, fees, rs) t = Ok (m', fees', rs') ->
  exists to, round_ok split base m fees rs t m' fees' rs' to.
Proof.
  unfold apply_transaction. intros E. apply res_bind_ok in E as ([] & Hs & E).
  apply res_bind_ok in E as ([] & Hf & E). apply res_map_err_ok in Hf.
  apply res_bind_ok in E as (to & Ht & E).
  destruct (tx_to t) as [to'|] eqn:Hto; [|done]. injection Ht as <-.
  rewrite default_entry in E. cbn [fst snd] in E.
  destruct (Z.eqb_spec (nonce_of m (tx_from t)) (tx_nonce t)); [|done]. cbn [negb] in E.
  fold (tx_fee base t) in E.
  destruct (Z.ltb_spec (balance_of m (tx_from t)) (sat_add U128_MAX (tx_value t) (tx_fee base t))); [done|].
  rewrite default_entry in E. cbn [snd] in E.
  destruct (split_fee split (tx_fee base t)) as [burn miner] eqn:Hsp.
  injection E as E1 E2 E3. exists to'.
  split; [assumption|assumption|assumption|assumption|assumption|symmetry; exact E1| |by symmetry].
  rewrite Hsp. symmetry. exact E2.
Qed.

(** A round under no saturation: the supply falls by the fee. *)
Lemma round_supply split base m fees rs t m' fees' rs' to :
  0 <= base -> tx_amounts_ok t -> balances_ok m -> supply m < U128_MAX ->
  round_ok split base m fees rs t m' fees' rs' to ->
  balances_ok m' /\ supply m' = supply m - tx_fee base t.
Proof.
  intros Hb Ht Hm Hs []. cbv zeta in *.
  pose proof (tx_fee_range base t Hb Ht) as [Hfee _]. destruct Ht as ([Hv _] & _).
  pose proof (balance_of_range m (tx_from t) Hm) as Hr.
  rewrite (sat_add_below U128_MAX (tx_value t)) in * by lia.
  set (m1 := <[tx_from t := _]> m) in *. clear ro_fee_check0 ro_shape0 ro_receipts0 ro_fees0.
  assert (balances_ok m1) as Hm1 by (apply map_Forall_insert_2; [cbn [fst]; lia|exact Hm]).
  assert (supply m1 = supply m - (tx_value t + tx_fee base t)) as Hs1
    by (unfold m1; rewrite supply_insert; lia).
  clearbody m1. pose proof (balance_of_range m1 to Hm1) as Hr1.
  rewrite sat_add_exact in ro_accounts0 by lia. rewrite ro_accounts0. split.
  - apply map_Forall_insert_2; [cbn [fst]; lia|exact Hm1].
  - rewrite supply_insert. lia.
Qed.

(** ** A whole block *)

Lemma tx_split split base t :
  0 <= burn_percent split <= 100 -> 0 <= base -> tx_amounts_ok t ->
  0 <= tx_burn split base t <= tx_fee base t /\
  snd (split_fee split (tx_fee base t)) = tx_fee base t - tx_burn split base t.
Proof.
  intros Hp Hb Ht. unfold tx_burn.
  destruct (split_fee_ok split (tx_fee base t) Hp (tx_fee_range base t Hb Ht)) as (burn & -> & Hr & _).
  done.
Qed.

Lemma total_burn_range split base ts :
  0 <= burn_percent split <= 100 -> 0 <= base -> Forall tx_amounts_ok ts ->
  0 <= total_burn split base ts <= total_fees base ts.
Proof.
  intros Hp Hb. unfold total_burn, total_fees. induction 1 as [|t ts Ht Hts IH]; [done|].
  cbn [map]. rewrite !sumZ_cons. destruct (tx_split split base t Hp Hb Ht) as [? _]. lia.
Qed.

Definition run_transactions (split : FeeSplit) (base : Bix) (ts : list Transaction)
    (st : Accounts * Bix * list Receipt) : res string (Accounts * Bix * list Receipt) :=
  fold_left (fun acc t => let? st := acc in apply_transaction split base st t) ts (Ok st).

Lemma run_transactions_cons split base t ts m fees rs r :
  run_transactions split base (t :: ts) (m, fees, rs) = Ok r ->
  exists m1 fees1 rs1 to, round_ok split base m fees rs t m1 fees1 rs1 to /\
    run_transactions split base ts (m1, fees1, rs1) = Ok r.
Proof.
  intros E. apply (fold_res_cons_ok (apply_transaction split base)) in E as ([[m1 fees1] rs1] & Hr & E).
  apply apply_transaction_inv in Hr as [to Hr]. eauto 10.
Qed.

Lemma run_transactions_supply split base ts m fees rs m' fees' rs' :
  0 <= burn_percent split <= 100 -> 0 <= base -> Forall tx_amounts_ok ts ->
  balances_ok m -> 0 <= fees -> supply m + fees < U128_MAX ->
  run_transactions split base ts (m, fees, rs) = Ok (m', fees', rs') ->
  balances_ok m' /\ supply m' = supply m - total_fees base ts /\
  fees' = fees + total_fees base ts - total_burn split base ts /\
  rs' = rs ++ map transfer_receipt ts.
Proof.
  intros Hp Hb Hts. revert m fees rs. induction Hts as [|t ts Ht Hts IH]; intros m fees rs Hm Hf Hs E.
  - injection E as <- <- <-. unfold total_fees, total_burn. simpl. rewrite app_nil_r.
    repeat split; try done; lia.
  - apply run_transactions_cons in E as (m1 & fees1 & rs1 & to & Hr & E).
    pose proof (tx_split split base t Hp Hb Ht) as [Hsp Hsnd].
    pose proof (round_supply _ _ _ _ _ _ _ _ _ _ Hb Ht Hm ltac:(lia) Hr) as [Hm1 Hs1].
    pose proof (map_sum_nonneg fst m1 Hm1) as Hpos. fold (supply m1) in Hpos.
    pose proof (ro_fees _ _ _ _ _ _ _ _ _ _ Hr) as Hf1. rewrite Hsnd in Hf1.
    rewrite sat_add_exact in Hf1 by lia.
    pose proof (ro_receipts _ _ _ _ _ _ _ _ _ _ Hr) as Hrs.
    apply IH in E as (H1 & H2 & H3 & H4); [|done|lia|lia].
    unfold total_fees, total_burn in *. cbn [map]. rewrite !sumZ_cons.
    split; [done|]. split; [lia|]. split; [lia|]. rewrite H4, Hrs, <- app_assoc. done.
Qed.

Lemma block_gas_acc ts a g :
  0 <= a -> Forall tx_amounts_ok ts ->
  fold_left (fun acc t =>
      let? total := acc in
      ok_or (checked_add U64_MAX total (tx_gas_limit t)) "block gas overflow"%string) ts (Ok a) = Ok g ->
  g = a + sumZ (map tx_gas_limit ts) /\ (ts <> [] -> g <= U64_MAX).
Proof.
  intros Ha Hts. revert a Ha. induction Hts as [|t ts Ht Hts IH]; intros a Ha E.
  - injection E as <-. simpl. split; [lia|done].
  - apply (fold_res_cons_ok (fun total t => ok_or (checked_add U64_MAX total (tx_gas_limit t)) _))
      in E as (b & Hb & E).
    unfold checked_add in Hb. destruct (Z.leb_spec (a + tx_gas_limit t) U64_MAX); [|done].
    injection Hb as <-. destruct Ht as (_ & [Hg _] & _).
    apply IH in E as [-> Hle]; [|lia]. cbn [map]. rewrite sumZ_cons. split; [lia|].
    intros _. destruct ts as [|u ts]; [simpl; lia|]. by apply Hle.
Qed.

(** Inversion of a successful transition. *)
Lemma simulate_inv m block pt m' rs g :
  simulate_state_transition_from_accounts m block pt = Ok (m', rs, g) ->
  let header := blk_header block in
  let split := fee_split_for_utilization (utilization_basis_points g (hdr_gas_limit header)) in
  block_gas (blk_transactions block) = Ok g /\ g <= hdr_gas_limit header /\
  exists m1 fees,
    run_transactions split (hdr_base_fee_per_gas header) (blk_transactions block) (m, 0, []) =
      Ok (m1, fees, rs) /\
    let credit := sat_add U128_MAX
      (block_reward_for_interval_bix pt (hdr_timestamp_seconds header)) fees in
    let b := beneficiary_address header in
    m' = if 0 <? credit
         then <[b := (sat_add U128_MAX (balance_of m1 b) credit, nonce_of m1 b)]> m1 else m1.
Proof.
  intros E header split. unfold simulate_state_transition_from_accounts in E.
  apply res_bind_ok in E as (g' & Hg & E).
  destruct (Z.ltb_spec (hdr_gas_limit (blk_header block)) g'); [done|].
  apply res_bind_ok in E as ([[m1 fees] rs'] & Hr & E). rewrite default_entry in E.
  injection E as E1 E2 E3. subst g' rs'. split; [done|]. split; [done|]. exists m1, fees.
  split; [exact Hr|]. symmetry. exact E1.
Qed.

Lemma utilization_nonneg g l : 0 <= g -> 0 <= l -> 0 <= utilization_basis_points g l.
Proof.
  intros Hg Hl. unfold utilization_basis_points. destruct (Z.eqb_spec l 0); [done|].
  apply Z.div_pos; [|lia]. unfold sat_mul, U64_MAX, MAX_UTILIZATION_BASIS_POINTS. lia.
Qed.

Lemma reward_bound pt ts : 0 <= block_reward_for_interval_bix pt ts <= BIX_PER_BLQ / 5.
Proof.
  unfold block_reward_for_interval_bix, BLQ_ISSUANCE_PER_INTERVAL_BIX, BIX_PER_BLQ,
    MAX_REWARD_INTERVAL_SECONDS, sat_sub, sat_mul, U128_MAX. dlia.
Qed.

(** What a block must satisfy for the arithmetic to be exact: fields of their
    types, and a supply that one more reward keeps below 2^128 - 1. *)
Record transition_pre (m : Accounts) (block : Block) : Prop := {
  pre_balances : balances_ok m;
  pre_supply : supply m + BIX_PER_BLQ < U128_MAX;
  pre_base : 0 <= hdr_base_fee_per_gas (blk_header block);
  pre_gas_limit : in_u64 (hdr_gas_limit (blk_header block));
  pre_txs : Forall tx_amounts_ok (blk_transactions block);
}.

Definition block_split (block : Block) (g : Z) : FeeSplit :=
  fee_split_for_utilization (utilization_basis_points g (hdr_gas_limit (blk_header block))).

Lemma block_gas_eq ts g :
  Forall tx_amounts_ok ts -> block_gas ts = Ok g ->
  g = sumZ (map tx_gas_limit ts) /\ 0 <= g <= U64_MAX.
Proof.
  intros Hts E. pose proof (block_gas_acc ts 0 g ltac:(lia) Hts E) as [Hg Hle].
  rewrite Z.add_0_l in Hg. split; [done|].
  assert (0 <= sumZ (map tx_gas_limit ts)).
  { apply sumZ_nonneg, Forall_map. eapply List.Forall_impl, Hts. intros t (_ & [? _] & _). done. }
  destruct ts as [|t ts]; [simpl in *; unfold U64_MAX; lia|]. specialize (Hle ltac:(done)). lia.
Qed.

Lemma block_split_percent block g :
  0 <= g -> in_u64 (hdr_gas_limit (blk_header block)) ->
  5 <= burn_percent (block_split block g) <= 40.
Proof.
  intros Hg [Hl _]. unfold block_split.
  pose proof (utilization_nonneg g (hdr_gas_limit (blk_header block)) Hg Hl) as Hu.
  destruct (fee_split_percent _ Hu) as (_ & H & _). exact H.
Qed.

(** The whole transition in the exact range. *)
Lemma simulate_supply m block pt m' rs g :
  transition_pre m block ->
  simulate_state_transition_from_accounts m block pt = Ok (m', rs, g) ->
  let base := hdr_base_fee_per_gas (blk_header block) in
  let burned := total_burn (block_split block g) base (blk_transactions block) in
  balances_ok m' /\
  supply m' = supply m + block_reward_for_interval_bix pt (hdr_timestamp_seconds (blk_header block)) - burned /\
  0 <= burned <= total_fees base (blk_transactions block) /\
  total_fees base (blk_transactions block) <= supply m /\
  rs = map transfer_receipt (blk_transactions block) /\
  g = sumZ (map tx_gas_limit (blk_transactions block)) /\ 0 <= g <= U64_MAX /\
  g <= hdr_gas_limit (blk_header block).
Proof.
  intros [Hm Hs Hb Hl Ht] E base burned. apply simulate_inv in E as (Hg & Hgl & m1 & fees & Hr & Hm').
  cbv zeta in *. apply block_gas_eq in Hg as [Hg Hgr]; [|done].
  pose proof (block_split_percent block g ltac:(lia) Hl) as Hp.
  pose proof (reward_bound pt (hdr_timestamp_seconds (blk_header block))) as Hrw.
  assert (BIX_PER_BLQ / 5 < BIX_PER_BLQ) as Hq by (by vm_compute).
  change (fee_split_for_utilization _) with (block_split block g) in Hr.
  pose proof (total_burn_range (block_split block g) base _ ltac:(lia) Hb Ht) as Hburn.
  destruct (run_transactions_supply (block_split block g) base (blk_transactions block) m 0 [] m1 fees rs)
    as (Hm1 & Hs1 & Hf & Hrs); [lia|exact Hb|exact Ht|exact Hm|lia|lia|exact Hr|].
  fold burned in Hburn, Hf.
  pose proof (map_sum_nonneg fst m1 Hm1) as Hpos. fold (supply m1) in Hpos.
  rewrite sat_add_exact in Hm' by lia.
  set (credit := _ + fees) in *. set (b := beneficiary_address _) in *.
  pose proof (balance_of_range m1 b Hm1) as Hbal.
  assert (balances_ok m' /\ supply m' = supply m1 + credit) as [Hok Hsup].
  { rewrite Hm'. destruct (Z.ltb_spec 0 credit).
    - rewrite (sat_add_exact U128_MAX (balance_of m1 b)) by lia. split.
      + apply map_Forall_insert_2; [cbn [fst]; lia|exact Hm1].
      + rewrite supply_insert. lia.
    - split; [done|]. lia. }
  split; [done|]. split; [lia|]. split; [done|]. split; [lia|]. split; [done|].
  split; [done|]. split; done.
Qed.

(** ** Nonces *)

Definition from_a (a : Address) (t : Transaction) : bool := bool_decide (tx_from t = a).

Lemma round_nonce split base m fees rs t m' fees' rs' to a :
  round_ok split base m fees rs t m' fees' rs' to ->
  nonce_of m' a = if from_a a t then sat_add U64_MAX (nonce_of m a) 1 else nonce_of m a.
Proof.
  intros []. cbv zeta in ro_accounts0. rewrite ro_accounts0, nonce_of_insert.
  unfold from_a. destruct (decide (a = to)) as [->|]; rewrite nonce_of_insert;
    destruct (decide (_ = tx_from t)) as [->|]; case_bool_decide; congruence.
Qed.

Lemma run_transactions_nonces split base ts m fees rs m' fees' rs' a :
  run_transactions split base ts (m, fees, rs) = Ok (m', fees', rs') ->
  let mine := List.filter (from_a a) ts in
  nonce_of m a + Z.of_nat (length mine) <= U64_MAX ->
  map tx_nonce mine = map (fun i => nonce_of m a + Z.of_nat i) (seq 0 (length mine)) /\
  nonce_of m' a = nonce_of m a + Z.of_nat (length mine).
Proof.
  revert m fees rs. induction ts as [|t ts IH]; intros m fees rs E mine Hn.
  - injection E as <- _ _. simpl. split; [done|lia].
  - apply run_transactions_cons in E as (m1 & fees1 & rs1 & to & Hr & E).
    pose proof (round_nonce _ _ _ _ _ _ _ _ _ _ a Hr) as H1.
    unfold mine in *. cbn [List.filter] in *. destruct (from_a a t) eqn:Ha.
    + cbn [length] in *. rewrite sat_add_exact in H1 by lia.
      apply IH in E as [IH1 IH2]; [|lia]. rewrite IH2, H1. split; [|lia].
      cbn [map seq]. f_equal.
      * unfold from_a in Ha. apply bool_decide_eq_true in Ha. subst a.
        rewrite (ro_nonce _ _ _ _ _ _ _ _ _ _ Hr). lia.
      * rewrite IH1, H1, <- seq_shift, map_map. apply map_ext. intros i. lia.
    + rewrite <- H1 in *. by apply IH in E.
Qed.

(** ** The recorded supply *)

Lemma floor_sum {A} (f : A -> Z) p l :
  0 <= p ->
  sumZ (map (fun a => f a * p / 100) l) <= sumZ (map f l) * p / 100
  <= sumZ (map (fun a => f a * p / 100) l) + Z.of_nat (length l).
Proof.
  intros Hp. induction l as [|a l IH]; [by simpl|]. cbn [map length]. rewrite !sumZ_cons.
  set (x := f a). set (y := sumZ (map f l)) in *.
  set (z := sumZ (map (fun a => f a * p / 100) l)) in *.
  rewrite Z.mul_add_distr_r, Nat2Z.inj_succ. generalize dependent (y * p). intros yp IH.
  generalize (x * p). intros xp. clearbody z. dlia.
Qed.

Lemma fold_sat_add l a :
  0 <= a -> Forall (fun z => 0 <= z) l -> a + sumZ l <= U128_MAX ->
  fold_left (sat_add U128_MAX) l a = a + sumZ l.
Proof.
  intros Ha Hl. revert a Ha. induction Hl as [|z l Hz Hl IH]; intros a Ha Hs; [simpl; lia|].
  cbn [fold_left]. rewrite sumZ_cons in *. pose proof (sumZ_nonneg l Hl).
  rewrite sat_add_exact, IH by lia. lia.
Qed.

Lemma fold_wrap_gas ts a :
  0 <= a -> Forall tx_amounts_ok ts -> a + sumZ (map tx_gas_limit ts) <= U64_MAX ->
  fold_left (fun total r => wrap64 (total + rc_gas_used r)) (map transfer_receipt ts) a =
  a + sumZ (map tx_gas_limit ts).
Proof.
  intros Ha Hts. revert a Ha. induction Hts as [|t ts Ht Hts IH]; intros a Ha Hs; [simpl; lia|].
  cbn [map fold_left] in *. rewrite sumZ_cons in *. destruct Ht as (_ & [Hg _] & _).
  assert (0 <= sumZ (map tx_gas_limit ts)).
  { apply sumZ_nonneg, Forall_map. eapply List.Forall_impl, Hts. intros t' (_ & [? _] & _). done. }
  cbn [rc_gas_used transfer_receipt]. rewrite wrap64_small by (unfold in_u64; lia).
  rewrite IH by lia. lia.
Qed.

Lemma zip_transfer_fees base ts :
  map (fun tr => gas_fee (rc_gas_used tr.2) (effective_gas_price tr.1 base))
    (zip ts (map transfer_receipt ts)) = map (tx_fee base) ts.
Proof. induction ts as [|t ts IH]; [done|]. cbn [map zip_with]. by rewrite IH. Qed.

Lemma total_burn_floor split base ts :
  0 <= burn_percent split <= 40 -> 0 <= base -> Forall tx_amounts_ok ts ->
  total_fees base ts * 40 <= U128_MAX ->
  total_burn split base ts = sumZ (map (fun t => tx_fee base t * burn_percent split / 100) ts).
Proof.
  intros Hp Hb. unfold total_burn, total_fees. induction 1 as [|t ts Ht Hts IH]; [done|].
  cbn [map]. rewrite !sumZ_cons. intros Hs.
  assert (0 <= sumZ (map (tx_fee base) ts)).
  { apply sumZ_nonneg, Forall_map. eapply List.Forall_impl, Hts. intros t' Ht'.
    by apply tx_fee_range. }
  pose proof (tx_fee_range base t Hb Ht) as Hf. pose proof Hf as [Hf0 _]. rewrite IH by lia. f_equal.
  unfold tx_burn. destruct (split_fee_ok split (tx_fee base t) ltac:(lia) Hf) as (burn & -> & _ & H1).
  apply H1. destruct Hf. nia.
Qed.

(** ** Properties *)

(** C2: a successful transition conserves the supply.  The sum of all
    balances changes by exactly the block reward minus the burned share of each
    transaction's fee; no balance becomes negative; there is one receipt per
    transaction, in order, charging its gas limit; and the gas used is their
    sum, within the block limit. *)
Theorem transition_conserves_supply m block pt m' rs g :
  transition_pre m block ->
  simulate_state_transition_from_accounts m block pt = Ok (m', rs, g) ->
  let header := blk_header block in
  let burned := total_burn (block_split block g) (hdr_base_fee_per_gas header) (blk_transactions block) in
  supply m' = supply m + block_reward_for_interval_bix pt (hdr_timestamp_seconds header) - burned /\
  0 <= burned <= total_fees (hdr_base_fee_per_gas header) (blk_transactions block) /\
  balances_ok m' /\
  rs = map transfer_receipt (blk_transactions block) /\
  g = sumZ (map tx_gas_limit (blk_transactions block)) /\ g <= hdr_gas_limit header.
Proof.
  intros Hpre E. destruct (simulate_supply _ _ _ _ _ _ Hpre E) as (H1 & H2 & H3 & _ & H4 & H5 & _ & H6).
  done.
Qed.

(** In a block that executes, the transactions of each sender carry the
    consecutive nonces that start at the account's nonce, and the account ends
    with the next one; in particular no transaction can be replayed. *)
Theorem transition_nonces m block pt m' rs g a :
  simulate_state_transition_from_accounts m block pt = Ok (m', rs, g) ->
  let mine := List.filter (from_a a) (blk_transactions block) in
  nonce_of m a + Z.of_nat (length mine) <= U64_MAX ->
  map tx_nonce mine = map (fun i => nonce_of m a + Z.of_nat i) (seq 0 (length mine)) /\
  nonce_of m' a = nonce_of m a + Z.of_nat (length mine).
Proof.
  intros E mine Hn. apply simulate_inv in E as (_ & _ & m1 & fees & Hr & Hm').
  apply (run_transactions_nonces _ _ _ _ _ _ _ _ _ a) in Hr as [H1 H2]; [|done].
  split; [done|]. fold mine in H2. rewrite <- H2. cbv zeta in Hm'. rewrite Hm'.
  case_match; [|done]. rewrite nonce_of_insert. by destruct (decide _) as [->|].
Qed.

(** The supply delta recorded for an executed block counts the reward
    exactly, but splits the gross fees once where the execution splits each
    fee: the recorded burn is never below the burned amount, and above it by at
    most one unit per transaction. *)
Theorem supply_delta_vs_execution m block pt m' rs g subsidy burned :
  transition_pre m block -> supply m * 40 <= U128_MAX ->
  simulate_state_transition_from_accounts m block pt = Ok (m', rs, g) ->
  blk_receipts block = rs ->
  block_supply_delta block pt = (subsidy, burned) ->
  supply m + subsidy - burned <= supply m' <=
  supply m + subsidy - burned + Z.of_nat (length (blk_transactions block)).
Proof.
  intros Hpre Hs E Hrs Hd.
  destruct (simulate_supply _ _ _ _ _ _ Hpre E) as (_ & H2 & H3 & H4 & H5 & H6 & H7 & _).
  destruct Hpre as [_ _ Hb Hl Ht]. unfold block_supply_delta in Hd.
  rewrite Hrs, H5, zip_transfer_fees, fold_wrap_gas in Hd by (lia || done).
  rewrite Z.add_0_l, <- H6 in Hd. fold (block_split block g) in Hd.
  rewrite fold_sat_add in Hd; [|lia| |].
  2: { apply Forall_map. eapply List.Forall_impl, Ht. intros t Ht'. by apply tx_fee_range. }
  2: { unfold total_fees in *. lia. }
  rewrite Z.add_0_l in Hd. pose proof (block_split_percent block g ltac:(lia) Hl) as Hp.
  set (split := block_split block g) in *. set (base := hdr_base_fee_per_gas (blk_header block)) in *.
  rewrite (total_burn_floor split base) in * by (lia || done).
  pose proof (floor_sum (tx_fee base) (burn_percent split) (blk_transactions block) ltac:(lia)) as Hfl.
  fold (total_fees base (blk_transactions block)) in Hd, Hfl.
  destruct (split_fee_ok split (total_fees base (blk_transactions block))) as (b & Hsp & _ & Hbv);
    [lia|unfold in_u128; lia|]. rewrite Hsp in Hd. injection Hd as <- <-.
  rewrite Hbv by nia. lia.
Qed.

End transition.

(** ** Examples: a funded sender and a block with two of its transfers *)

Definition sample_transfer (nonce : Z) (to : Address) : Transaction := {|
  tx_chain_id := MAINNET_CHAIN_ID; tx_transaction_type := 2; tx_nonce := nonce;
  tx_from := be_bytes 20 1; tx_to := Some to; tx_value := 1000;
  tx_gas_limit := 21000; tx_max_fee_per_gas := 2000000001;
  tx_max_priority_fee_per_gas := 33; tx_payload := []; tx_access_list := [];
  tx_signature := None; tx_external_hash := None |}.

Definition sample_accounts : Accounts := <[be_bytes 20 1 := (1000000000000000000000000, 7)]> ∅.

Definition sample_header : BlockHeader := {|
  hdr_parent_hash := HASH_ZERO; hdr_number := 1; hdr_state_root := HASH_ZERO;
  hdr_transactions_root := HASH_ZERO; hdr_receipts_root := HASH_ZERO;
  hdr_beneficiary := be_bytes 32 3; hdr_difficulty_target := GENESIS_DIFFICULTY_TARGET;
  hdr_base_fee_per_gas := INITIAL_BASE_FEE_PER_GAS_BIX; hdr_gas_limit := GENESIS_GAS_LIMIT;
  hdr_gas_used := 42000; hdr_timestamp_seconds := 15; hdr_pow_algorithm := [];
  hdr_pow_epoch := 0; hdr_extra_nonce := 0; hdr_mix_hash := HASH_ZERO; hdr_nonce := 0 |}.

Definition sample_block : Block := {|
  blk_header := sample_header;
  blk_transactions := [sample_transfer 7 (be_bytes 20 2); sample_transfer 8 (be_bytes 20 1)];
  blk_receipts := map (@transfer_receipt toy_digests)
    [sample_transfer 7 (be_bytes 20 2); sample_transfer 8 (be_bytes 20 1)] |}.

Lemma sample_transition_ok :
  exists r, @simulate_state_transition_from_accounts toy_digests sample_accounts sample_block 0 = Ok r.
Proof. apply is_ok_true. by vm_compute. Qed.

Lemma sample_transition_pre : transition_pre sample_accounts sample_block.
Proof.
  split; [apply map_Forall_insert_2; [done|apply map_Forall_empty]|by vm_compute|done|by vm_compute|].
  repeat constructor; by vm_compute.
Qed.

Lemma transition_conserves_supply_witness :
  exists m' rs g,
    @simulate_state_transition_from_accounts toy_digests sample_accounts sample_block 0 = Ok (m', rs, g) /\
    supply m' = supply sample_accounts + block_reward_for_interval_bix 0 15 -
      total_burn (block_split sample_block g) INITIAL_BASE_FEE_PER_GAS_BIX
        (blk_transactions sample_block) /\ g = 42000.
Proof.
  destruct sample_transition_ok as ([[m' rs] g] & E). exists m', rs, g. split; [exact E|].
  destruct (@transition_conserves_supply toy_digests _ _ _ _ _ _ sample_transition_pre E)
    as (H & _ & _ & _ & Hg & _). split; [exact H|]. rewrite Hg. reflexivity.
Defined.

Lemma transition_nonces_witness :
  exists m' rs g,
    @simulate_state_transition_from_accounts toy_digests sample_accounts sample_block 0 = Ok (m', rs, g) /\
    nonce_of m' (be_bytes 20 1) = 9.
Proof.
  destruct sample_transition_ok as ([[m' rs] g] & E). exists m', rs, g. split; [exact E|].
  destruct (@transition_nonces toy_digests _ _ _ _ _ _ (be_bytes 20 1) E) as [_ H].
  - vm_compute. discriminate.
  - rewrite H. by vm_compute.
Defined.

Lemma supply_delta_vs_execution_witness :
  exists m' rs g,
    @simulate_state_transition_from_accounts toy_digests sample_accounts sample_block 0 = Ok (m', rs, g) /\
    let '(subsidy, burned) := block_supply_delta sample_block 0 in
    supply sample_accounts + subsidy - burned <= supply m'.
Proof.
  destruct sample_transition_ok as ([[m' rs] g] & E). exists m', rs, g. split; [exact E|].
  destruct (block_supply_delta sample_block 0) as [subsidy burned] eqn:Ed.
  refine (proj1 (@supply_delta_vs_execution toy_digests sample_accounts sample_block 0 m' rs g
    subsidy burned sample_transition_pre _ E _ Ed)).
  - vm_compute. discriminate.
  - destruct (simulate_supply _ _ _ _ _ _ sample_transition_pre E) as (_ & _ & _ & _ & -> & _). done.
Defined.
