(* ===== verification/Mempool.v ===== *)
(** [crates/blq-mempool]: the pool of pending transactions.

    The pool is a list ordered by fee and a map from transaction hashes to the
    second they were first seen.  The clock ([now_seconds]) is an argument.
    Files and JSON are left out: [save] and [load] are modelled between the
    list of entries that is written and read. *)

From Stdlib Require Import ZArith Lia Strings.String Strings.Byte.
From stdpp Require Import sorting gmap list base fin_maps.
From S2P Require Import Prelude Externals Primitives Canonical Rlp RawTx Pow Consensus.
#[local] Open Scope Z_scope.

Definition MAX_MEMPOOL_TRANSACTIONS : Z := 5000.
Definition MIN_GAS_PRICE_BIX : Z := 1000000000.

Inductive MempoolError :=
| MempoolConsensus (e : ConsensusError) | ReplacementFeeTooLow | MempoolFull | FeeTooLow.

Record Mempool := {
  transactions : list Transaction;
  first_seen : gmap (list byte) Z;
}.

Definition mempool_default : Mempool := {| transactions := []; first_seen := ∅ |}.

Record PersistedEntry := { pe_transaction : Transaction; pe_first_seen : Z }.

(** [iter_mut().find(p)] and the assignment through the reference. *)
Fixpoint replace_first {A} (p : A -> bool) (x : A) (l : list A) : list A :=
  match l with
  | [] => []
  | y :: l' => if p y then x :: l' else y :: replace_first p x l'
  end.

Definition fee_cmp (a b : Transaction) : comparison :=
  then_with (tx_max_priority_fee_per_gas b ?= tx_max_priority_fee_per_gas a)
    (tx_max_fee_per_gas b ?= tx_max_fee_per_gas a).

Definition sort_by_fee (ts : list Transaction) : list Transaction := sort_by fee_cmp ts.

(** [<=] on the pair (priority fee, fee cap). *)
Definition priority_le (a b : Transaction) : bool :=
  match then_with (tx_max_priority_fee_per_gas a ?= tx_max_priority_fee_per_gas b)
          (tx_max_fee_per_gas a ?= tx_max_fee_per_gas b) with Gt => false | _ => true end.

Definition same_slot (a b : Transaction) : bool :=
  bool_decide (tx_from a = tx_from b) && (tx_nonce a =? tx_nonce b).

Section mempool.
Context {D : Digests}.

(** The result is the pool with the outcome: a failed [add] leaves it as it
    was. *)
Definition add (p : Mempool) (now : Z) (t : Transaction) (base_fee_per_gas : Bix)
    : res MempoolError Mempool :=
  if tx_max_fee_per_gas t <? MIN_GAS_PRICE_BIX then Err FeeTooLow
  else
    res_map_err MempoolConsensus (validate_transaction_fee t base_fee_per_gas) ;?
    if existsb (fun e => bool_decide (tx_rpc_hash e = tx_rpc_hash t)) (transactions p) then Ok p
    else
      match List.find (fun e => same_slot e t) (transactions p) with
      | Some existing =>
          if tx_max_fee_per_gas t <=? tx_max_fee_per_gas existing then Err ReplacementFeeTooLow
          else
            Ok {| transactions :=
                    sort_by_fee (replace_first (fun e => same_slot e t) t (transactions p));
                  first_seen := <[tx_rpc_hash t := now]> (first_seen p) |}
      | None =>
          let? p :=
            if MAX_MEMPOOL_TRANSACTIONS <=? Z.of_nat (length (transactions p)) then
              let? lowest := expect (last (transactions p)) in
              if priority_le t lowest then Err MempoolFull
              else Ok {| transactions := take (length (transactions p) - 1) (transactions p);
                         first_seen := delete (tx_rpc_hash lowest) (first_seen p) |}
            else Ok p in
          Ok {| transactions := sort_by_fee (transactions p ++ [t]);
                first_seen := <[tx_rpc_hash t := now]> (first_seen p) |}
      end.

Definition seen (p : Mempool) (now : Z) (t : Transaction) : Z :=
  default now (first_seen p !! tx_rpc_hash t).

Definition pending (p : Mempool) : list Transaction := transactions p.

Definition pending_with_age (p : Mempool) (now : Z) : list (Transaction * Z) :=
  map (fun t => (t, sat_sub now (seen p now t))) (transactions p).

(** [for hash in removed { first_seen.remove(hash) }] *)
Definition forget (hashes : list Hash256) (m : gmap (list byte) Z) : gmap (list byte) Z :=
  fold_left (fun m h => delete h m) hashes m.

Definition remove_expired (p : Mempool) (now max_age_seconds : Z) : Z * Mempool :=
  let removed := map tx_rpc_hash
    (List.filter (fun t => max_age_seconds <=? sat_sub now (seen p now t)) (transactions p)) in
  (Z.of_nat (length removed),
   {| transactions := List.filter (fun t => negb (bool_decide (tx_rpc_hash t ∈ removed))) (transactions p);
      first_seen := forget removed (first_seen p) |}).

(** [(start..target).all(..)] *)
Definition has_nonce_chain (p : Mempool) (from : Address) (start target : Z) : bool :=
  forallb (fun i => let nonce := start + Z.of_nat i in
             existsb (fun t => bool_decide (tx_from t = from) && (tx_nonce t =? nonce)) (transactions p))
    (seq 0 (Z.to_nat (target - start))).

Definition remove_stale_nonces (p : Mempool) (expected_nonce : Address -> Z) : Mempool :=
  let removed := map tx_rpc_hash
    (List.filter (fun t => tx_nonce t <? expected_nonce (tx_from t)) (transactions p)) in
  {| transactions := List.filter (fun t => expected_nonce (tx_from t) <=? tx_nonce t) (transactions p);
     first_seen := forget removed (first_seen p) |}.

Definition is_included (hashes : list Hash256) (t : Transaction) : bool :=
  bool_decide (tx_hash t ∈ hashes) || bool_decide (tx_rpc_hash t ∈ hashes).

Definition remove_included (p : Mempool) (hashes : list Hash256) : Mempool :=
  let removed := map tx_rpc_hash (List.filter (is_included hashes) (transactions p)) in
  {| transactions := List.filter (fun t => negb (bool_decide (tx_hash t ∈ hashes))
                                          && negb (bool_decide (tx_rpc_hash t ∈ hashes))) (transactions p);
     first_seen := forget removed (first_seen p) |}.

(** The entries [save] writes, and [load] replaying them. *)
Definition save_entries (p : Mempool) (now : Z) : list PersistedEntry :=
  map (fun t => {| pe_transaction := t; pe_first_seen := seen p now t |}) (transactions p).

Definition load_entry (now : Z) (base_fee_per_gas : Bix) (p : Mempool) (e : PersistedEntry) : Mempool :=
  match add p now (pe_transaction e) base_fee_per_gas with
  | Ok p' => {| transactions := transactions p';
                first_seen := <[tx_rpc_hash (pe_transaction e) := pe_first_seen e]> (first_seen p') |}
  | _ => p
  end.

Definition load_entries (now : Z) (base_fee_per_gas : Bix) (entries : list PersistedEntry) : Mempool :=
  fold_left (load_entry now base_fee_per_gas) entries mempool_default.

(** The older format: transactions only. *)
Definition load_transactions (now : Z) (base_fee_per_gas : Bix) (ts : list Transaction) : Mempool :=
  fold_left (fun p t => match add p now t base_fee_per_gas with Ok p' => p' | _ => p end) ts mempool_default.

(** ** Block selection *)

Definition drain_cmp (a b : Transaction) : comparison :=
  if bool_decide (tx_from a = tx_from b) then tx_nonce a ?= tx_nonce b
  else then_with (tx_max_priority_fee_per_gas b ?= tx_max_priority_fee_per_gas a)
         (tx_max_fee_per_gas b ?= tx_max_fee_per_gas a).

Fixpoint drain_loop (gas_limit gas : Z) (candidates : list Transaction) : list Transaction :=
  match candidates with
  | [] => []
  | t :: rest =>
      if gas_limit <? sat_add U64_MAX gas (tx_gas_limit t) then drain_loop gas_limit gas rest
      else t :: drain_loop gas_limit (sat_add U64_MAX gas (tx_gas_limit t)) rest
  end.

(** [slice::sort_by] with a comparator that is not a total order returns some
    permutation, so the sort is an argument here. *)
Definition drain_for_block (sort : (Transaction -> Transaction -> comparison) -> list Transaction -> list Transaction)
    (p : Mempool) (gas_limit : Z) : list Transaction :=
  drain_loop gas_limit 0 (sort drain_cmp (transactions p)).

(** ** The invariant *)

Lemma fee_cmp_preorder : cmp_preorder fee_cmp.
Proof.
  pose proof (cmp_then_key_preorder (fun t => - tx_max_priority_fee_per_gas t)
    (fun t => - tx_max_fee_per_gas t)) as [H1 H2].
  assert (forall a b, fee_cmp a b = then_with
    (- tx_max_priority_fee_per_gas a ?= - tx_max_priority_fee_per_gas b)
    (- tx_max_fee_per_gas a ?= - tx_max_fee_per_gas b)) as E.
  { intros. by rewrite !Z.compare_opp. }
  split; intros; rewrite !E in *; eauto.
Qed.

Abbreviation fee_le := (cmp_le fee_cmp) (only parsing).

Record pool_ok (p : Mempool) : Prop := {
  pool_sorted : StronglySorted fee_le (transactions p);
  pool_hashes : NoDup (map tx_rpc_hash (transactions p));
  pool_slots : NoDup (map (fun t => (tx_from t, tx_nonce t)) (transactions p));
  pool_size : Z.of_nat (length (transactions p)) <= MAX_MEMPOOL_TRANSACTIONS;
  pool_valid : Forall (fun t => MIN_GAS_PRICE_BIX <= tx_max_fee_per_gas t /\ tx_limits t /\
                 tx_max_priority_fee_per_gas t <= tx_max_fee_per_gas t) (transactions p);
  pool_seen : Forall (fun t => is_Some (first_seen p !! tx_rpc_hash t)) (transactions p);
}.

Lemma same_slot_true a b : same_slot a b = true <-> (tx_from a, tx_nonce a) = (tx_from b, tx_nonce b).
Proof.
  unfold same_slot. rewrite andb_true_iff, bool_decide_eq_true, Z.eqb_eq.
  split; [intros [-> ->]; done|by intros [= -> ->]].
Qed.

(** Filtering keeps the invariant, when the seconds of the kept transactions
    are kept. *)
Lemma pool_ok_filter p f fs :
  pool_ok p ->
  (forall t, t ∈ transactions p -> f t = true -> is_Some (first_seen p !! tx_rpc_hash t) ->
   is_Some (fs !! tx_rpc_hash t)) ->
  pool_ok {| transactions := List.filter f (transactions p); first_seen := fs |}.
Proof.
  intros [] Hfs. split; simpl.
  - by apply StronglySorted_filter.
  - by apply NoDup_map_filter.
  - by apply NoDup_map_filter.
  - pose proof (length_filter_b f (transactions p)). lia.
  - by apply Forall_filter_b.
  - rewrite Forall_forall in *. intros t [Ht Hf]%elem_of_filter_b. auto.
Qed.

Lemma lookup_forget hashes m h : h ∉ hashes -> forget hashes m !! h = m !! h.
Proof.
  revert m. unfold forget. induction hashes as [|x hashes IH]; intros m Hh; [done|].
  cbn [fold_left]. rewrite not_elem_of_cons in Hh. destruct Hh as [Hx Hh].
  rewrite IH by done. by apply lookup_delete_ne.
Qed.

(** The hash of a kept transaction is not among the forgotten ones. *)
Lemma kept_hash p (f : Transaction -> bool) t :
  NoDup (map tx_rpc_hash (transactions p)) -> t ∈ transactions p -> f t = false ->
  tx_rpc_hash t ∉ map tx_rpc_hash (List.filter f (transactions p)).
Proof.
  intros Hnd Ht Hf Hin. apply list_elem_of_fmap in Hin as (u & Hu & Hin).
  apply elem_of_filter_b in Hin as [Hin Hfu].
  assert (t = u); [|congruence].
  clear Hf Hfu. revert Hnd Ht Hin. generalize (transactions p). intros l Hnd Ht Hin.
  apply list_elem_of_lookup in Ht as [i Hi], Hin as [j Hj].
  assert (i = j) as ->; [|congruence].
  apply (NoDup_lookup _ i j (tx_rpc_hash t) Hnd); rewrite list_lookup_fmap;
    [rewrite Hi|rewrite Hj]; simpl; congruence.
Qed.

Lemma filter_keeps p f (g : Transaction -> bool) :
  pool_ok p -> (forall t, t ∈ transactions p -> g t = negb (f t)) ->
  pool_ok {| transactions := List.filter g (transactions p);
             first_seen := forget (map tx_rpc_hash (List.filter f (transactions p))) (first_seen p) |}.
Proof.
  intros H Hg. apply pool_ok_filter; [done|]. intros t Ht Hgt Hs.
  rewrite lookup_forget; [done|]. apply kept_hash; [apply H|done|].
  rewrite Hg in Hgt by done. by destruct (f t).
Qed.

Lemma map_replace_first {A B} (g : A -> B) (p : A -> bool) x l y :
  List.find p l = Some y -> g y = g x -> map g (replace_first p x l) = map g l.
Proof.
  induction l as [|z l IH]; simpl; [done|]. destruct (p z).
  - intros [= ->] E. simpl. by rewrite E.
  - intros Hf E. simpl. by rewrite IH.
Qed.

Lemma Forall_replace_first {A} (P : A -> Prop) (p : A -> bool) x l :
  P x -> Forall P l -> Forall P (replace_first p x l).
Proof. intros Hx. induction 1; simpl; [constructor|]. case_match; by constructor. Qed.

Lemma length_replace_first {A} (p : A -> bool) (x : A) l : length (replace_first p x l) = length l.
Proof. induction l; simpl; [done|]. case_match; simpl; lia. Qed.

Lemma replace_first_hashes (p : Transaction -> bool) x l :
  NoDup (map tx_rpc_hash l) -> tx_rpc_hash x ∉ map tx_rpc_hash l ->
  NoDup (map tx_rpc_hash (replace_first p x l)) /\
  (forall h, h ∈ map tx_rpc_hash (replace_first p x l) -> h = tx_rpc_hash x \/ h ∈ map tx_rpc_hash l).
Proof.
  induction l as [|y l IH]; cbn [map replace_first]; [split; [done|by right]|]. intros [Hy Hl]%NoDup_cons Hx.
  rewrite not_elem_of_cons in Hx. destruct Hx as [Hxy Hx]. destruct (p y); cbn [map].
  - split; [by apply NoDup_cons|]. intros h. rewrite !elem_of_cons. tauto.
  - destruct (IH Hl Hx) as [IH1 IH2]. split.
    + apply NoDup_cons. split; [|done]. intros Hin. apply IH2 in Hin as [?|?]; congruence.
    + intros h. rewrite !elem_of_cons. intros [?|Hh]; [auto|]. apply IH2 in Hh. tauto.
Qed.

(** Sorting and the facts of the invariant that do not depend on the order. *)
Lemma pool_ok_sort ts fs :
  NoDup (map tx_rpc_hash ts) -> NoDup (map (fun t => (tx_from t, tx_nonce t)) ts) ->
  Z.of_nat (length ts) <= MAX_MEMPOOL_TRANSACTIONS ->
  Forall (fun t => MIN_GAS_PRICE_BIX <= tx_max_fee_per_gas t /\ tx_limits t /\
            tx_max_priority_fee_per_gas t <= tx_max_fee_per_gas t) ts ->
  Forall (fun t => is_Some (fs !! tx_rpc_hash t)) ts ->
  pool_ok {| transactions := sort_by_fee ts; first_seen := fs |}.
Proof.
  intros H1 H2 H3 H4 H5. pose proof (sort_by_perm fee_cmp ts) as Hp. unfold sort_by_fee.
  split; cbn [transactions first_seen].
  - apply sort_by_sorted, fee_cmp_preorder.
  - by rewrite Hp.
  - by rewrite Hp.
  - by rewrite Hp.
  - by rewrite Hp.
  - by rewrite Hp.
Qed.

Lemma seen_insert (fs : gmap (list byte) Z) h now ts :
  Forall (fun t => is_Some (fs !! tx_rpc_hash t)) ts ->
  Forall (fun t => is_Some (<[h := now]> fs !! tx_rpc_hash t)) ts.
Proof.
  apply List.Forall_impl. intros t Ht. destruct (decide (h = tx_rpc_hash t)) as [->|].
  - rewrite lookup_insert_eq. eauto.
  - by rewrite lookup_insert_ne.
Qed.

Lemma existsb_hash_false (h : list byte) ts :
  existsb (fun e => bool_decide (tx_rpc_hash e = h)) ts = false -> h ∉ map tx_rpc_hash ts.
Proof.
  intros E Hin. apply list_elem_of_fmap in Hin as (u & -> & Hin). apply list_elem_of_In in Hin.
  apply not_true_iff_false in E. apply E, existsb_exists. exists u. split; [done|].
  by apply bool_decide_eq_true.
Qed.

Lemma find_none_slot t ts :
  List.find (fun e => same_slot e t) ts = None ->
  (tx_from t, tx_nonce t) ∉ map (fun t => (tx_from t, tx_nonce t)) ts.
Proof.
  intros E Hin. apply list_elem_of_fmap in Hin as (u & Hu & Hin). apply list_elem_of_In in Hin.
  pose proof (find_none _ _ E u Hin) as Hn. cbn beta in Hn.
  assert (same_slot u t = true); [by apply same_slot_true|congruence].
Qed.

(** The pool after the lowest transaction has made room. *)
Lemma pool_ok_evict p t :
  pool_ok p -> last (transactions p) = Some t ->
  let p' := {| transactions := take (length (transactions p) - 1) (transactions p);
               first_seen := delete (tx_rpc_hash t) (first_seen p) |} in
  pool_ok p' /\ transactions p = transactions p' ++ [t].
Proof.
  intros [] Hl p'. assert (transactions p = transactions p' ++ [t]) as E.
  { apply last_Some in Hl as [l Hl]. unfold p'. cbn [transactions]. rewrite Hl, length_app. simpl length.
    replace (length l + 1 - 1)%nat with (length l) by lia. by rewrite take_app_length. }
  split; [|done]. rewrite E in *. set (ts := transactions p') in *. clearbody ts.
  rewrite map_app in *. apply NoDup_app in pool_hashes0 as (N1 & N2 & _).
  apply NoDup_app in pool_slots0 as (S1 & _ & _). apply Forall_app in pool_valid0 as [V1 _].
  apply Forall_app in pool_seen0 as [F1 _]. rewrite length_app in *. simpl length in *.
  assert (transactions p' = ts) as Ht.
  { unfold p'. cbn [transactions]. rewrite E, length_app. simpl length.
    replace (length ts + 1 - 1)%nat with (length ts) by lia. by rewrite take_app_length. }
  split; rewrite ?Ht; try done; [|lia|].
  - clear -pool_sorted0. induction ts as [|a ts IH]; [constructor|]. inversion pool_sorted0 as [|? ? H1 H2]; subst.
    apply Forall_app in H2 as [H2 _]. constructor; auto.
  - apply Forall_forall. intros u Hu. rewrite Forall_forall in F1. unfold p'. cbn [first_seen].
    rewrite lookup_delete_ne; [by apply F1|]. intros Eh. apply (N2 (tx_rpc_hash u)).
    + apply list_elem_of_fmap. eauto.
    + rewrite <- Eh. by apply list_elem_of_singleton.
Qed.

Definition tx_pool_valid (t : Transaction) : Prop :=
  MIN_GAS_PRICE_BIX <= tx_max_fee_per_gas t /\ tx_limits t /\
  tx_max_priority_fee_per_gas t <= tx_max_fee_per_gas t.

Lemma pool_ok_push p now t :
  pool_ok p -> tx_pool_valid t -> tx_rpc_hash t ∉ map tx_rpc_hash (transactions p) ->
  (tx_from t, tx_nonce t) ∉ map (fun t => (tx_from t, tx_nonce t)) (transactions p) ->
  Z.of_nat (length (transactions p)) < MAX_MEMPOOL_TRANSACTIONS ->
  pool_ok {| transactions := sort_by_fee (transactions p ++ [t]);
             first_seen := <[tx_rpc_hash t := now]> (first_seen p) |}.
Proof.
  intros [] Hv Hh Hs Hl.
  assert (forall A B (g : A -> B) l a, NoDup (map g l) -> g a ∉ map g l -> NoDup (map g (l ++ [a]))) as Hnd.
  { intros A B g l a Hnd Ha. rewrite map_app. apply NoDup_app. split; [done|]. split; [|apply NoDup_singleton].
    intros x Hx ->%list_elem_of_singleton. done. }
  apply pool_ok_sort.
  - by apply Hnd.
  - by apply (Hnd _ _ (fun t => (tx_from t, tx_nonce t))).
  - rewrite length_app. simpl length. lia.
  - apply Forall_app. split; [done|]. by apply Forall_singleton.
  - apply Forall_app. split; [by apply seen_insert|]. apply Forall_singleton.
    rewrite lookup_insert_eq. eauto.
Qed.

Lemma pool_ok_replace p now t e :
  pool_ok p -> tx_pool_valid t -> tx_rpc_hash t ∉ map tx_rpc_hash (transactions p) ->
  List.find (fun e => same_slot e t) (transactions p) = Some e ->
  pool_ok {| transactions := sort_by_fee (replace_first (fun e => same_slot e t) t (transactions p));
             first_seen := <[tx_rpc_hash t := now]> (first_seen p) |}.
Proof.
  intros [] Hv Hh Hf. pose proof (find_some _ _ Hf) as [_ Hslot]. apply same_slot_true in Hslot.
  apply pool_ok_sort.
  - by apply replace_first_hashes.
  - by rewrite (map_replace_first _ _ _ _ _ Hf).
  - by rewrite length_replace_first.
  - by apply Forall_replace_first.
  - apply Forall_replace_first; [rewrite lookup_insert_eq; eauto|by apply seen_insert].
Qed.

(** The cases of a successful [add]. *)
Inductive add_case (p : Mempool) (now : Z) (t : Transaction) : Mempool -> Prop :=
| case_duplicate :
    tx_rpc_hash t ∈ map tx_rpc_hash (transactions p) -> add_case p now t p
| case_replace e :
    List.find (fun e => same_slot e t) (transactions p) = Some e ->
    tx_max_fee_per_gas e < tx_max_fee_per_gas t ->
    add_case p now t
      {| transactions := sort_by_fee (replace_first (fun e => same_slot e t) t (transactions p));
         first_seen := <[tx_rpc_hash t := now]> (first_seen p) |}
| case_push :
    Z.of_nat (length (transactions p)) < MAX_MEMPOOL_TRANSACTIONS ->
    add_case p now t {| transactions := sort_by_fee (transactions p ++ [t]);
                        first_seen := <[tx_rpc_hash t := now]> (first_seen p) |}
| case_evict u :
    MAX_MEMPOOL_TRANSACTIONS <= Z.of_nat (length (transactions p)) ->
    last (transactions p) = Some u -> priority_le t u = false ->
    add_case p now t
      {| transactions := sort_by_fee (take (length (transactions p) - 1) (transactions p) ++ [t]);
         first_seen := <[tx_rpc_hash t := now]> (delete (tx_rpc_hash u) (first_seen p)) |}.

Lemma existsb_hash_true (h : list byte) ts :
  existsb (fun e => bool_decide (tx_rpc_hash e = h)) ts = true -> h ∈ map tx_rpc_hash ts.
Proof.
  intros (u & Hin & Hu)%existsb_exists. apply bool_decide_eq_true in Hu. subst h.
  apply list_elem_of_fmap. exists u. by rewrite list_elem_of_In.
Qed.

Lemma add_ok p now t base p' :
  pool_ok p -> add p now t base = Ok p' ->
  tx_pool_valid t /\ base <= tx_max_fee_per_gas t /\ add_case p now t p' /\ pool_ok p'.
Proof.
  intros Hp E. unfold add in E.
  destruct (Z.ltb_spec (tx_max_fee_per_gas t) MIN_GAS_PRICE_BIX) as [|Hmin]; [done|].
  apply res_bind_ok in E as ([] & Hv & E). apply res_map_err_ok, validate_transaction_fee_ok in Hv as (Hl & Hb & Hpr).
  assert (tx_pool_valid t) as Ht by done. split; [done|]. split; [done|].
  destruct (existsb _ (transactions p)) eqn:Hx.
  { injection E as <-. split; [|done]. constructor. by apply existsb_hash_true. }
  apply existsb_hash_false in Hx.
  destruct (List.find _ (transactions p)) as [e|] eqn:Hf.
  { destruct (Z.leb_spec (tx_max_fee_per_gas t) (tx_max_fee_per_gas e)); [done|].
    injection E as <-. split; [by eapply case_replace|by eapply pool_ok_replace]. }
  pose proof (find_none_slot _ _ Hf) as Hslot. apply res_bind_ok in E as (p1 & H1 & E). injection E as <-.
  destruct (Z.leb_spec MAX_MEMPOOL_TRANSACTIONS (Z.of_nat (length (transactions p)))).
  - destruct (last (transactions p)) as [u|] eqn:Hlast; [|done]. cbn [expect res_bind] in H1.
    destruct (priority_le t u) eqn:Hple; [done|]. injection H1 as <-.
    split; [by eapply case_evict|].
    destruct (pool_ok_evict p u Hp Hlast) as [Hp1 Heq]. pose proof (pool_size _ Hp) as Hsz.
    set (p1 := Build_Mempool _ _) in *. clearbody p1.
    rewrite Heq, length_app in Hsz. simpl length in Hsz.
    assert (forall A (g : Transaction -> A) x, x ∉ map g (transactions p) -> x ∉ map g (transactions p1)) as Hsub.
    { intros A g x Hn Hi. apply Hn. rewrite Heq, map_app. apply elem_of_app. by left. }
    apply (pool_ok_push p1 now t Hp1); [done|by apply Hsub|by apply Hsub|lia].
  - injection H1 as <-. split; [by apply case_push|]. by apply pool_ok_push.
Qed.

(** What a transaction already pooled can lose its place to. *)
Definition displaced (p : Mempool) (t u : Transaction) : Prop :=
  (same_slot u t = true /\ tx_max_fee_per_gas u < tx_max_fee_per_gas t) \/
  (MAX_MEMPOOL_TRANSACTIONS <= Z.of_nat (length (transactions p)) /\
   last (transactions p) = Some u /\ priority_le t u = false).

Lemma replace_first_elem (f : Transaction -> bool) x l e u :
  List.find f l = Some e -> (u ∈ l -> u ∈ replace_first f x l \/ u = e) /\
  (u ∈ replace_first f x l -> u = x \/ u ∈ l) /\ x ∈ replace_first f x l.
Proof.
  induction l as [|y l IH]; [done|]. simpl. destruct (f y) eqn:Hy.
  - intros [= ->]. rewrite !elem_of_cons. tauto.
  - intros Hf. destruct (IH Hf) as (I1 & I2 & I3). rewrite !elem_of_cons. tauto.
Qed.

Lemma add_case_members p now t p' :
  pool_ok p -> add_case p now t p' ->
  tx_rpc_hash t ∈ map tx_rpc_hash (transactions p') /\
  (forall u, u ∈ transactions p' -> u = t \/ u ∈ transactions p) /\
  (forall u, u ∈ transactions p -> u ∈ transactions p' \/ displaced p t u).
Proof.
  intros Hp [Hd|e Hf Hfee|Hsz|u Hfull Hl Hple]; cbn [transactions].
  - split; [done|]. split; auto.
  - pose proof (fun u => replace_first_elem (fun e => same_slot e t) t (transactions p) e u Hf) as Hr.
    pose proof (find_some _ _ Hf) as [_ Hslot].
    split; [|split].
    + apply list_elem_of_fmap. exists t. split; [done|]. unfold sort_by_fee. rewrite sort_by_perm.
      by destruct (Hr t) as (_ & _ & ?).
    + intros u Hu. unfold sort_by_fee in Hu. rewrite sort_by_perm in Hu. by destruct (Hr u) as (_ & H & _); apply H.
    + intros u Hu. unfold sort_by_fee. rewrite sort_by_perm. destruct (Hr u) as (H & _ & _).
      destruct (H Hu) as [?| ->]; [by left|]. right. left. done.
  - split; [|split].
    + apply list_elem_of_fmap. exists t. split; [done|]. unfold sort_by_fee. rewrite sort_by_perm.
      apply elem_of_app. right. by apply list_elem_of_singleton.
    + intros u Hu. unfold sort_by_fee in Hu. rewrite sort_by_perm, elem_of_app, list_elem_of_singleton in Hu. tauto.
    + intros u Hu. unfold sort_by_fee. rewrite sort_by_perm, elem_of_app. auto.
  - destruct (pool_ok_evict p u Hp Hl) as [_ Heq]. cbn [transactions] in Heq.
    set (ts := take _ _) in *. split; [|split].
    + apply list_elem_of_fmap. exists t. split; [done|]. unfold sort_by_fee. rewrite sort_by_perm.
      apply elem_of_app. right. by apply list_elem_of_singleton.
    + intros v Hv. unfold sort_by_fee in Hv. rewrite sort_by_perm, elem_of_app, list_elem_of_singleton in Hv.
      rewrite Heq, elem_of_app. tauto.
    + intros v Hv. rewrite Heq, elem_of_app, list_elem_of_singleton in Hv. unfold sort_by_fee.
      rewrite sort_by_perm, elem_of_app. destruct Hv as [?| ->]; [auto|]. right. right. done.
Qed.

Lemma replace_first_perm {A} (f : A -> bool) x l e :
  List.find f l = Some e -> exists kept, l ≡ₚ e :: kept /\ replace_first f x l ≡ₚ x :: kept.
Proof.
  induction l as [|y l IH]; [done|]. simpl. destruct (f y).
  - intros [= ->]. by exists l.
  - intros Hf. destruct (IH Hf) as (kept & H1 & H2). exists (y :: kept). split; [rewrite H1|rewrite H2]; constructor.
Qed.

(** What adding a transaction leaves of a pool: the pool itself, or the
    transaction and all the others with their seconds, except at most one that
    is displaced. *)
Definition pool_change (p : Mempool) (now : Z) (t : Transaction) (p' : Mempool) : Prop :=
  (tx_rpc_hash t ∈ map tx_rpc_hash (transactions p) /\ p' = p) \/
  exists gone kept,
    transactions p ≡ₚ gone ++ kept /\ transactions p' ≡ₚ t :: kept /\
    (gone = [] \/ exists u, gone = [u] /\ displaced p t u) /\
    first_seen p' !! tx_rpc_hash t = Some now /\
    forall u, u ∈ kept -> first_seen p' !! tx_rpc_hash u = first_seen p !! tx_rpc_hash u.

Lemma add_case_change p now t p' : pool_ok p -> add_case p now t p' -> pool_ok p' -> pool_change p now t p'.
Proof.
  intros Hp Hc Hp'. pose proof (pool_hashes _ Hp) as Hn. pose proof (pool_hashes _ Hp') as Hn'.
  assert (forall ts kept u, ts ≡ₚ t :: kept -> NoDup (map tx_rpc_hash ts) -> u ∈ kept -> tx_rpc_hash t <> tx_rpc_hash u) as Hne.
  { intros ts kept u E Hd Hu Et. rewrite E in Hd. apply NoDup_cons in Hd as [Hd _]. apply Hd. rewrite Et.
    by apply list_elem_of_fmap_2. }
  destruct Hc as [Hd|e Hf Hfee|Hsz|u Hfull Hl Hple]; cbn [transactions first_seen] in *; [by left|right..].
  - destruct (replace_first_perm _ t _ _ Hf) as (kept & H1 & H2). exists [e], kept.
    assert (sort_by_fee (replace_first (fun e => same_slot e t) t (transactions p)) ≡ₚ t :: kept) as E
      by (unfold sort_by_fee; by rewrite sort_by_perm).
    split; [done|]. split; [done|]. split.
    { right. exists e. split; [done|]. left. split; [|done]. by apply (find_some _ _ Hf). }
    split; [apply lookup_insert_eq|]. intros u Hu. apply lookup_insert_ne. by apply (Hne _ _ _ E).
  - exists [], (transactions p).
    assert (sort_by_fee (transactions p ++ [t]) ≡ₚ t :: transactions p) as E
      by (unfold sort_by_fee; by rewrite sort_by_perm, Permutation_app_comm).
    split; [done|]. split; [done|]. split; [by left|]. split; [apply lookup_insert_eq|].
    intros u Hu. apply lookup_insert_ne. by apply (Hne _ _ _ E).
  - destruct (pool_ok_evict p u Hp Hl) as [_ Heq]. cbn [transactions] in Heq. set (ts := take _ _) in *.
    assert (sort_by_fee (ts ++ [t]) ≡ₚ t :: ts) as E
      by (unfold sort_by_fee; by rewrite sort_by_perm, Permutation_app_comm).
    exists [u], ts. split; [by rewrite Heq, Permutation_app_comm|]. split; [done|]. split.
    { right. exists u. split; [done|]. by right. }
    split; [apply lookup_insert_eq|]. intros v Hv. cbn [first_seen]. rewrite lookup_insert_ne by (by apply (Hne _ _ _ E)).
    apply lookup_delete_ne. intros Eu. rewrite Heq, map_app in Hn. apply NoDup_app in Hn as (_ & Hn & _).
    apply (Hn (tx_rpc_hash v)); [by apply list_elem_of_fmap_2|]. rewrite <- Eu. by left.
Qed.

(** ** Properties *)

(** The operations of the node on its pool. *)
Inductive pool_step (p : Mempool) : Mempool -> Prop :=
| step_add now t base p' : add p now t base = Ok p' -> pool_step p p'
| step_expired now max_age : pool_step p (snd (remove_expired p now max_age))
| step_stale expected_nonce : pool_step p (remove_stale_nonces p expected_nonce)
| step_included hashes : pool_step p (remove_included p hashes).

Lemma pool_step_ok p p' : pool_ok p -> pool_step p p' -> pool_ok p'.
Proof.
  intros Hp [now t base q E|now max_age|expected_nonce|hashes].
  - by apply (add_ok p now t base).
  - unfold remove_expired. cbn [snd].
    set (f t := max_age <=? sat_sub now (seen p now t)).
    apply (filter_keeps p f); [done|]. intros t Ht. f_equal.
    destruct (f t) eqn:Hf.
    + apply bool_decide_eq_true, list_elem_of_fmap. exists t. split; [done|]. by apply elem_of_filter_b.
    + apply bool_decide_eq_false. apply kept_hash; [apply Hp|done..].
  - apply (filter_keeps p (fun t => tx_nonce t <? expected_nonce (tx_from t))); [done|].
    intros t _. lia.
  - apply (filter_keeps p (is_included hashes)); [done|]. intros t _. unfold is_included.
    by rewrite negb_orb.
Qed.

(** C28: every pool reachable from the empty one by adding transactions,
    expiring them, dropping stale nonces and dropping included ones is sorted
    by fee, holds at most 5000 transactions, no two with one hash or one sender
    and nonce, each within the consensus limits and above the minimum price,
    and each with a recorded first-seen time. *)
Theorem mempool_invariant p : rtc pool_step mempool_default p -> pool_ok p.
Proof.
  intros H. remember mempool_default as q eqn:E.
  assert (pool_ok q) as Hq by (subst q; split; simpl; try constructor; done). clear E.
  induction H as [|p1 p2 p3 H1 _ IH]; [done|]. apply IH. by eapply pool_step_ok.
Qed.

(** C30: the outcome of adding a transaction.  Each error has its cause
    (price below the minimum, the consensus check, a replacement that does not
    raise the fee, a full pool whose every member is at least as good), and on
    success the hash is pooled, nothing else enters, and what leaves is either
    the same slot at a lower fee or the last transaction of a full pool with a
    lower priority. *)
Theorem add_outcome p now t base :
  pool_ok p ->
  match add p now t base with
  | Err FeeTooLow => tx_max_fee_per_gas t < MIN_GAS_PRICE_BIX
  | Err (MempoolConsensus e) => validate_transaction_fee t base = Err e
  | Err ReplacementFeeTooLow => exists e, e ∈ transactions p /\ same_slot e t = true /\
      tx_max_fee_per_gas t <= tx_max_fee_per_gas e
  | Err MempoolFull => Z.of_nat (length (transactions p)) = MAX_MEMPOOL_TRANSACTIONS /\
      Forall (fun u => priority_le t u = true) (transactions p)
  | Panic => False
  | Ok p' => tx_rpc_hash t ∈ map tx_rpc_hash (transactions p') /\
      (forall u, u ∈ transactions p' -> u = t \/ u ∈ transactions p) /\
      (forall u, u ∈ transactions p -> u ∈ transactions p' \/ displaced p t u)
  end.
Proof.
  intros Hp. destruct (add p now t base) as [p'|err|] eqn:E.
  - destruct (add_ok p now t base p' Hp E) as (_ & _ & Hc & _). by eapply add_case_members.
  - unfold add in E. destruct (Z.ltb_spec (tx_max_fee_per_gas t) MIN_GAS_PRICE_BIX); [by injection E as <-|].
    destruct (validate_transaction_fee t base) as [[]|ce|] eqn:Hv; cbn [res_map_err res_bind] in E;
      [|by injection E as <-|done].
    destruct (existsb _ _); [done|]. destruct (List.find _ _) as [e|] eqn:Hf.
    { destruct (Z.leb_spec (tx_max_fee_per_gas t) (tx_max_fee_per_gas e)); [|done]. injection E as <-.
      apply find_some in Hf as [Hin Hs]. exists e. by rewrite list_elem_of_In. }
    destruct (Z.leb_spec MAX_MEMPOOL_TRANSACTIONS (Z.of_nat (length (transactions p)))); [|done].
    destruct (last (transactions p)) as [u|] eqn:Hl; [|done]. cbn [expect res_bind] in E.
    destruct (priority_le t u) eqn:Hple; [|done]. injection E as <-.
    destruct Hp as [Hsort _ _ Hsize _ _]. split; [lia|].
    apply last_Some in Hl as [l Hl]. rewrite Hl in *. clear -Hsort Hple.
    assert (forall x, fee_le x u -> priority_le t x = true) as Hle.
    { intros x Hx. unfold priority_le, cmp_le, fee_cmp, then_with in *.
      destruct (Z.compare_spec (tx_max_priority_fee_per_gas t) (tx_max_priority_fee_per_gas u)),
        (Z.compare_spec (tx_max_priority_fee_per_gas u) (tx_max_priority_fee_per_gas x)),
        (Z.compare_spec (tx_max_priority_fee_per_gas t) (tx_max_priority_fee_per_gas x)); try lia; try done;
      destruct (Z.compare_spec (tx_max_fee_per_gas t) (tx_max_fee_per_gas u)),
        (Z.compare_spec (tx_max_fee_per_gas u) (tx_max_fee_per_gas x)),
        (Z.compare_spec (tx_max_fee_per_gas t) (tx_max_fee_per_gas x)); try lia; done. }
    induction l as [|x l IH]; simpl in *; [by constructor|]. inversion Hsort as [|? ? H1 H2]; subst.
    constructor; [|auto]. apply Forall_app in H2 as [_ H2]. inversion H2; subst. by apply Hle.
  - unfold add in E. destruct (_ <? _); [done|].
    destruct (validate_transaction_fee t base) as [[]|ce|] eqn:Hv; cbn [res_map_err res_bind] in E; try done.
    + destruct (existsb _ _); [done|]. destruct (List.find _ _) as [e|]; [by destruct (_ <=? _)|].
      destruct (Z.leb_spec MAX_MEMPOOL_TRANSACTIONS (Z.of_nat (length (transactions p)))); [|done].
      destruct (last (transactions p)) as [u|] eqn:Hl; cbn [expect res_bind] in E; [by destruct (priority_le t u)|].
      apply last_None in Hl. rewrite Hl in *. by vm_compute in H.
    + unfold validate_transaction_fee in Hv. by repeat case_match.
Qed.

(** ** Persistence *)

Lemma add_next q now t base rest :
  StronglySorted fee_le (transactions q ++ t :: rest) ->
  NoDup (map tx_rpc_hash (transactions q ++ t :: rest)) ->
  NoDup (map (fun t => (tx_from t, tx_nonce t)) (transactions q ++ t :: rest)) ->
  Z.of_nat (length (transactions q ++ t :: rest)) <= MAX_MEMPOOL_TRANSACTIONS ->
  tx_pool_valid t -> base <= tx_max_fee_per_gas t ->
  add q now t base = Ok {| transactions := transactions q ++ [t];
                           first_seen := <[tx_rpc_hash t := now]> (first_seen q) |}.
Proof.
  intros Hs Hh Hn Hl (Hmin & Hlim & Hpr) Hb. unfold add. replace (tx_max_fee_per_gas t <? MIN_GAS_PRICE_BIX) with false by lia.
  assert (validate_transaction_fee t base = Ok tt) as -> by (by apply validate_transaction_fee_ok).
  cbn [res_map_err res_bind]. rewrite map_app in Hh, Hn. cbn [map] in Hh, Hn.
  apply NoDup_app in Hh as (_ & Hh & _), Hn as (_ & Hn & _).
  destruct (existsb _ (transactions q)) eqn:Hx.
  { exfalso. apply existsb_hash_true in Hx. eapply Hh; [exact Hx|]. by left. }
  destruct (List.find _ (transactions q)) as [e|] eqn:Hf.
  { exfalso. apply find_some in Hf as [Hin Hslot]. apply same_slot_true in Hslot.
    apply (Hn (tx_from e, tx_nonce e)); [|rewrite Hslot; by left].
    apply list_elem_of_fmap. exists e. by rewrite list_elem_of_In. }
  rewrite length_app in Hl. simpl length in Hl. if_false. cbn [res_bind].
  unfold sort_by_fee. rewrite (sort_by_id _ fee_cmp_preorder); [done|].
  clear -Hs. induction (transactions q) as [|x l IH]; simpl in *.
  - inversion Hs; subst. constructor; constructor.
  - inversion Hs as [|? ? H1 H2]; subst. constructor; [auto|].
    apply Forall_app in H2 as [H2 H3]. inversion H3; subst. apply Forall_app. split; [done|].
    by apply Forall_singleton.
Qed.

Lemma load_save_aux p now now' base l q :
  pool_ok p -> Forall (fun t => base <= tx_max_fee_per_gas t) (transactions p) ->
  transactions p = transactions q ++ l ->
  (forall h, first_seen q !! h = if bool_decide (h ∈ map tx_rpc_hash (transactions q))
                                 then Some (default now (first_seen p !! h)) else None) ->
  let r := fold_left (load_entry now' base)
    (map (fun t => {| pe_transaction := t; pe_first_seen := seen p now t |}) l) q in
  transactions r = transactions p /\
  (forall h, first_seen r !! h = if bool_decide (h ∈ map tx_rpc_hash (transactions p))
                                 then Some (default now (first_seen p !! h)) else None).
Proof.
  intros Hp Hb. revert q. induction l as [|t l IH]; intros q Hq Hfs; cbn [map fold_left].
  - rewrite app_nil_r in Hq. rewrite Hq. done.
  - cbv zeta in *. unfold load_entry at 2 4. cbn [pe_transaction pe_first_seen].
    pose proof Hp as [Hsrt Hhs Hsl Hsz Hvl _]. rewrite Hq in Hsrt, Hhs, Hsl, Hsz, Hvl.
    pose proof Hb as Hb'. rewrite Hq in Hb'.
    apply Forall_app in Hvl as [_ Hvl]. apply Forall_cons_1 in Hvl as [Hvl _].
    apply Forall_app in Hb' as [_ Hb']. apply Forall_cons_1 in Hb' as [Hb' _].
    rewrite (add_next q now' t base l) by auto.
    apply IH; cbn [transactions first_seen].
    + by rewrite Hq, <- app_assoc.
    + intros h. rewrite map_app. cbn [map]. destruct (decide (tx_rpc_hash t = h)) as [<-|Hne].
      * rewrite lookup_insert_eq, bool_decide_eq_true_2; [done|].
        apply elem_of_app. right. by left.
      * rewrite !lookup_insert_ne, Hfs by done.
        rewrite (bool_decide_ext (h ∈ map tx_rpc_hash (transactions q) ++ [tx_rpc_hash t])
          (h ∈ map tx_rpc_hash (transactions q))); [done|].
        rewrite elem_of_app, list_elem_of_singleton. split; [intros [?|?]; [done|congruence]|auto].
Qed.

(** Saving and loading a pool gives it back: the same transactions in
    the same order, each with its first-seen time, and no other hash, provided
    the base fee at loading does not price a transaction out. *)
Theorem save_load_roundtrip p now now' base :
  pool_ok p -> Forall (fun t => base <= tx_max_fee_per_gas t) (transactions p) ->
  let r := load_entries now' base (save_entries p now) in
  transactions r = transactions p /\
  (forall t, t ∈ transactions p -> first_seen r !! tx_rpc_hash t = first_seen p !! tx_rpc_hash t) /\
  (forall h, h ∉ map tx_rpc_hash (transactions p) -> first_seen r !! h = None).
Proof.
  intros Hp Hb. destruct (load_save_aux p now now' base (transactions p) mempool_default Hp Hb) as [H1 H2].
  - done.
  - intros h. by rewrite bool_decide_eq_false_2 by apply not_elem_of_nil.
  - split; [exact H1|]. split.
    + intros t Ht. unfold load_entries, save_entries. rewrite H2.
      rewrite bool_decide_eq_true_2 by (apply list_elem_of_fmap; eauto).
      pose proof (pool_seen _ Hp) as Hs. rewrite Forall_forall in Hs. destruct (Hs t Ht) as [s ->]. done.
    + intros h Hh. unfold load_entries, save_entries. rewrite H2. by rewrite bool_decide_eq_false_2.
Qed.

(** ** Draining *)

Lemma drain_loop_spec limit gas l :
  0 <= gas <= limit -> limit < U64_MAX -> Forall (fun t => 0 <= tx_gas_limit t) l ->
  let out := drain_loop limit gas l in
  out `sublist_of` l /\ gas + sumZ (map tx_gas_limit out) <= limit /\
  (forall u, u ∈ l -> u ∈ out \/ limit < gas + sumZ (map tx_gas_limit out) + tx_gas_limit u).
Proof.
  intros Hg Hl Hall. revert gas Hg. induction Hall as [|t l Ht Hall IH]; intros gas Hg; cbv zeta.
  - split; [done|]. split; [simpl; lia|]. intros u Hu. by apply elem_of_nil in Hu.
  - cbn [drain_loop]. destruct (Z.ltb_spec limit (sat_add U64_MAX gas (tx_gas_limit t))) as [H|H].
    + destruct (IH gas Hg) as (I1 & I2 & I3). split; [by constructor|]. split; [done|].
      intros u [->|Hu]%elem_of_cons; [|auto]. right.
      assert (0 <= sumZ (map tx_gas_limit (drain_loop limit gas l))).
      { apply sumZ_nonneg, Forall_map. rewrite Forall_forall in Hall |- *. intros v Hv. apply Hall.
        by apply (sublist_subseteq _ _ I1). }
      unfold sat_add in H. lia.
    + rewrite sat_add_below in * by lia. destruct (IH (gas + tx_gas_limit t) ltac:(lia)) as (I1 & I2 & I3).
      cbn [map]. rewrite sumZ_cons. split; [by constructor|]. split; [lia|].
      intros u [->|Hu]%elem_of_cons; [left; by left|]. destruct (I3 u Hu); [left; by right|right; lia].
Qed.

(** Whatever permutation the sort returns, the transactions drained for a
    block are distinct members of the pool, their gas limits sum to at most the
    block's, and every transaction left out would not have fitted beside them. *)
Theorem drain_for_block_greedy sort p gas_limit :
  (forall cmp l, sort cmp l ≡ₚ l) -> 0 <= gas_limit < U64_MAX ->
  Forall (fun t => 0 <= tx_gas_limit t) (transactions p) ->
  let out := drain_for_block sort p gas_limit in
  out ⊆+ transactions p /\ sumZ (map tx_gas_limit out) <= gas_limit /\
  (forall u, u ∈ transactions p -> u ∈ out \/ gas_limit < sumZ (map tx_gas_limit out) + tx_gas_limit u).
Proof.
  intros Hsort Hg Hall out.
  destruct (drain_loop_spec gas_limit 0 (sort drain_cmp (transactions p))) as (H1 & H2 & H3);
    [lia|lia|by rewrite Hsort|]. split.
  - rewrite <- (Hsort drain_cmp (transactions p)). by apply sublist_submseteq.
  - split; [exact H2|]. intros u Hu. apply H3. by rewrite Hsort.
Qed.

End mempool.

(** Three transactions: two of one sender and one of another. *)
Definition sample_pool_tx (from nonce priority : Z) : Transaction := {|
  tx_chain_id := MAINNET_CHAIN_ID; tx_transaction_type := 2; tx_nonce := nonce;
  tx_from := be_bytes 20 from; tx_to := Some (be_bytes 20 9); tx_value := 1;
  tx_gas_limit := 21000; tx_max_fee_per_gas := 2000000000;
  tx_max_priority_fee_per_gas := priority; tx_payload := []; tx_access_list := [];
  tx_signature := None; tx_external_hash := Some (be_bytes 32 (100 * from + nonce)) |}.

Definition tx_a := sample_pool_tx 1 0 1.
Definition tx_b := sample_pool_tx 1 1 10.
Definition tx_c := sample_pool_tx 2 0 5.

Definition add_all (ts : list Transaction) : res MempoolError Mempool :=
  fold_left (fun acc t => let? p := acc in @add toy_digests p 50 t INITIAL_BASE_FEE_PER_GAS_BIX)
    ts (Ok mempool_default).

Definition sample_pool : Mempool :=
  match add_all [tx_a; tx_b; tx_c] with Ok p => p | _ => mempool_default end.

Lemma add_all_reached ts q p :
  fold_left (fun acc t => let? p := acc in @add toy_digests p 50 t INITIAL_BASE_FEE_PER_GAS_BIX) ts (Ok q) = Ok p ->
  rtc (@pool_step toy_digests) q p.
Proof.
  revert q. induction ts as [|t ts IH]; intros q E.
  - injection E as <-. apply rtc_refl.
  - apply (fold_res_cons_ok (fun p t => @add toy_digests p 50 t INITIAL_BASE_FEE_PER_GAS_BIX))
      in E as (q' & E1 & E). eapply rtc_l; [by eapply step_add|]. by apply IH.
Qed.

Lemma sample_pool_reached : rtc (@pool_step toy_digests) mempool_default sample_pool.
Proof.
  destruct (is_ok_true (add_all [tx_a; tx_b; tx_c])) as [p E]; [by vm_compute|].
  unfold sample_pool. rewrite E. by eapply add_all_reached.
Qed.

Lemma sample_pool_ok : @pool_ok toy_digests sample_pool.
Proof.
  pose proof sample_pool_reached as H. remember mempool_default as q eqn:E.
  assert (@pool_ok toy_digests q) as Hq by (subst q; split; simpl; try constructor; done). clear E.
  induction H as [|p1 p2 p3 H1 _ IH]; [done|]. apply IH. by eapply pool_step_ok.
Qed.

(** The drain comparator is not an order.  In a pool reached by three
    additions it goes round in a circle (nonce order inside a sender, fee order
    across senders), and the stable insertion order it yields places the second
    transaction of a sender before the first. *)
Theorem drain_breaks_nonce_order :
  rtc (@pool_step toy_digests) mempool_default sample_pool /\
  drain_cmp tx_a tx_b = Lt /\ drain_cmp tx_b tx_c = Lt /\ drain_cmp tx_c tx_a = Lt /\
  drain_for_block (@sort_by Transaction) sample_pool GENESIS_GAS_LIMIT = [tx_b; tx_c; tx_a].
Proof.
  split; [apply sample_pool_reached|]. split; [by vm_compute|]. split; [by vm_compute|].
  split; [by vm_compute|]. by vm_compute.
Qed.

Lemma mempool_invariant_witness : @pool_ok toy_digests sample_pool /\ length (transactions sample_pool) = 3%nat.
Proof.
  split; [|by vm_compute]. apply (@mempool_invariant toy_digests). exact sample_pool_reached.
Defined.

Lemma add_outcome_witness :
  exists e, e ∈ transactions sample_pool /\ same_slot e (sample_pool_tx 1 1 99) = true.
Proof.
  pose proof (@add_outcome toy_digests sample_pool 60
    {| tx_chain_id := MAINNET_CHAIN_ID; tx_transaction_type := 2; tx_nonce := 1;
       tx_from := be_bytes 20 1; tx_to := None; tx_value := 1;
       tx_gas_limit := 21000; tx_max_fee_per_gas := 1500000000;
       tx_max_priority_fee_per_gas := 99; tx_payload := []; tx_access_list := [];
       tx_signature := None; tx_external_hash := Some (be_bytes 32 7) |}
    INITIAL_BASE_FEE_PER_GAS_BIX sample_pool_ok) as H.
  match type of H with match ?m with _ => _ end =>
    assert (m = Err ReplacementFeeTooLow) as E by (by vm_compute); rewrite E in H end.
  destruct H as (e & H1 & H2 & _). exists e. split; [exact H1|exact H2].
Defined.

Lemma save_load_roundtrip_witness :
  transactions (@load_entries toy_digests 90 INITIAL_BASE_FEE_PER_GAS_BIX
    (@save_entries toy_digests sample_pool 80)) = transactions sample_pool.
Proof.
  refine (proj1 (@save_load_roundtrip toy_digests sample_pool 80 90 INITIAL_BASE_FEE_PER_GAS_BIX
    sample_pool_ok _)).
  assert (transactions sample_pool = [tx_b; tx_c; tx_a]) as -> by (by vm_compute).
  repeat constructor; by vm_compute.
Defined.

Lemma drain_for_block_greedy_witness :
  drain_for_block (@sort_by Transaction) sample_pool 50000 ⊆+ transactions sample_pool /\
  sumZ (map tx_gas_limit (drain_for_block (@sort_by Transaction) sample_pool 50000)) <= 50000.
Proof.
  destruct (drain_for_block_greedy (@sort_by Transaction) sample_pool 50000) as (H1 & H2 & _).
  - intros. apply sort_by_perm.
  - by vm_compute.
  - assert (transactions sample_pool = [tx_b; tx_c; tx_a]) as -> by (by vm_compute).
    repeat constructor; by vm_compute.
  - split; [exact H1|exact H2].
Defined.
