(* ===== verification/Miner.v ===== *)
(** [crates/blq-miner]: block templates and the sealing loop. *)

From Stdlib Require Import ZArith Lia Strings.String Strings.Byte.
From stdpp Require Import gmap list base.
From S2P Require Import Prelude Externals Primitives Canonical Rlp RawTx Pow Consensus.
#[local] Open Scope Z_scope.

Inductive MinerError := MinerDisabled.

Record BlockTemplate := {
  tpl_header : BlockHeader;
  tpl_transactions : list Transaction;
  tpl_target : Hash256;
  tpl_pow_algorithm : list byte;
  tpl_pow_epoch : Z;
  tpl_epoch_seed : Hash256;
}.

Definition into_unsealed_block (t : BlockTemplate) : Block := {|
  blk_header := tpl_header t; blk_transactions := tpl_transactions t; blk_receipts := [] |}.

Definition start_miner : res MinerError unit := Err MinerDisabled.

(** The two fields the sealing loop writes. *)
Definition with_nonce (h : BlockHeader) (n : Z) : BlockHeader := {|
  hdr_parent_hash := hdr_parent_hash h; hdr_number := hdr_number h;
  hdr_state_root := hdr_state_root h; hdr_transactions_root := hdr_transactions_root h;
  hdr_receipts_root := hdr_receipts_root h; hdr_beneficiary := hdr_beneficiary h;
  hdr_difficulty_target := hdr_difficulty_target h; hdr_base_fee_per_gas := hdr_base_fee_per_gas h;
  hdr_gas_limit := hdr_gas_limit h; hdr_gas_used := hdr_gas_used h;
  hdr_timestamp_seconds := hdr_timestamp_seconds h; hdr_pow_algorithm := hdr_pow_algorithm h;
  hdr_pow_epoch := hdr_pow_epoch h; hdr_extra_nonce := hdr_extra_nonce h;
  hdr_mix_hash := hdr_mix_hash h; hdr_nonce := n |}.

Definition with_header (t : BlockTemplate) (h : BlockHeader) : BlockTemplate := {|
  tpl_header := h; tpl_transactions := tpl_transactions t; tpl_target := tpl_target t;
  tpl_pow_algorithm := tpl_pow_algorithm t; tpl_pow_epoch := tpl_pow_epoch t;
  tpl_epoch_seed := tpl_epoch_seed t |}.

Section miner.
Context {BP : BuildProfile} {D : Digests} {RX : RandomX}.

Definition build_empty_template_with_genesis (parent : BlockHeader) (beneficiary : Hash256)
    (timestamp_seconds : Z) (genesis_hash : Hash256) : BlockTemplate :=
  let header := {|
    hdr_parent_hash := header_hash parent;
    hdr_number := wrap64 (hdr_number parent + 1);
    hdr_state_root := hdr_state_root parent;
    hdr_transactions_root := transactions_root [];
    hdr_receipts_root := receipts_root [];
    hdr_beneficiary := beneficiary;
    hdr_difficulty_target := hdr_difficulty_target parent;
    hdr_base_fee_per_gas := next_base_fee_per_gas parent;
    hdr_gas_limit := hdr_gas_limit parent;
    hdr_gas_used := 0;
    hdr_timestamp_seconds := timestamp_seconds;
    hdr_pow_algorithm := POW_ALGORITHM;
    hdr_pow_epoch := epoch_for_height (wrap64 (hdr_number parent + 1));
    hdr_extra_nonce := 0;
    hdr_mix_hash := HASH_ZERO;
    hdr_nonce := 0 |} in
  let seed := epoch_seed (hdr_pow_epoch header) genesis_hash in
  {| tpl_target := hdr_difficulty_target header;
     tpl_pow_algorithm := POW_ALGORITHM;
     tpl_pow_epoch := hdr_pow_epoch header;
     tpl_epoch_seed := seed;
     tpl_header := header;
     tpl_transactions := [] |}.

Definition build_empty_template (parent : BlockHeader) (beneficiary : Hash256) (timestamp_seconds : Z)
    : BlockTemplate :=
  build_empty_template_with_genesis parent beneficiary timestamp_seconds (header_hash genesis_header).

(** [for nonce in nonce..nonce + n]. *)
Fixpoint seal_loop (n : nat) (nonce : Z) (template : BlockTemplate) (genesis_hash : Hash256)
    : res Empty_set (option BlockTemplate) :=
  match n with
  | O => Ok None
  | S n' =>
      let header := with_nonce (tpl_header template) nonce in
      let? result := blq_rx_hash header genesis_hash in
      let template := with_header template (with_mix_hash header (mix_hash result)) in
      if satisfies_pow (final_hash result) (tpl_target template) then Ok (Some template)
      else seal_loop n' (nonce + 1) template genesis_hash
  end.

Definition seal_empty_template_with_genesis (template : BlockTemplate) (nonce_start nonce_limit : Z)
    (genesis_hash : Hash256) : res Empty_set (option BlockTemplate) :=
  let end_ := sat_add U64_MAX nonce_start nonce_limit in
  seal_loop (Z.to_nat (end_ - nonce_start)) nonce_start template genesis_hash.

Definition seal_empty_template (template : BlockTemplate) (nonce_start nonce_limit : Z)
    : res Empty_set (option BlockTemplate) :=
  seal_empty_template_with_genesis template nonce_start nonce_limit (header_hash genesis_header).

(** ** The loop *)

(** A header seals under a nonce. *)
Definition seals (h : BlockHeader) (target : Hash256) (nonce : Z) (genesis_hash : Hash256) : Prop :=
  exists r, blq_rx_hash (with_nonce h nonce) genesis_hash = Ok r /\
    satisfies_pow (final_hash r) target = true.

Lemma pow_nonce_mix h m n genesis_hash :
  blq_rx_hash (with_nonce (with_mix_hash h m) n) genesis_hash = blq_rx_hash (with_nonce h n) genesis_hash.
Proof. apply (blq_rx_hash_mix (with_nonce h n) m). Qed.

(** [t'] is [t] with nonce [n] and the matching mix hash. *)
Definition sealed_from (t t' : BlockTemplate) (n : Z) (genesis_hash : Hash256) : Prop :=
  exists r, blq_rx_hash (tpl_header t') genesis_hash = Ok r /\
    tpl_header t' = with_mix_hash (with_nonce (tpl_header t) n) (mix_hash r) /\
    satisfies_pow (final_hash r) (tpl_target t) = true /\
    tpl_target t' = tpl_target t /\ tpl_transactions t' = tpl_transactions t.

Lemma seals_mix h m nonce0 target n genesis_hash :
  seals (with_mix_hash (with_nonce h nonce0) m) target n genesis_hash <-> seals h target n genesis_hash.
Proof.
  unfold seals.
  replace (blq_rx_hash (with_nonce (with_mix_hash (with_nonce h nonce0) m) n) genesis_hash)
    with (blq_rx_hash (with_nonce h n) genesis_hash); [done|].
  symmetry. rewrite pow_nonce_mix. reflexivity.
Qed.

Lemma seal_loop_spec n nonce t genesis_hash :
  match seal_loop n nonce t genesis_hash with
  | Ok (Some t') => exists k, (k < n)%nat /\ sealed_from t t' (nonce + Z.of_nat k) genesis_hash /\
      forall j, (j < k)%nat -> ~ seals (tpl_header t) (tpl_target t) (nonce + Z.of_nat j) genesis_hash
  | Ok None => forall j, (j < n)%nat ->
      ~ seals (tpl_header t) (tpl_target t) (nonce + Z.of_nat j) genesis_hash
  | _ => False
  end.
Proof.
  revert nonce t. induction n as [|n IH]; intros nonce t; cbn [seal_loop].
  - intros j Hj. lia.
  - destruct (blq_rx_hash_ok (with_nonce (tpl_header t) nonce) genesis_hash) as (r & Hr & _).
    rewrite Hr. cbn [res_bind]. cbv zeta. cbn [tpl_target with_header].
    destruct (satisfies_pow (final_hash r) (tpl_target t)) eqn:Hs.
    + exists 0%nat. split; [lia|]. split; [|intros; lia]. rewrite Z.add_0_r.
      exists r. cbn [tpl_header with_header]. rewrite blq_rx_hash_mix. done.
    + set (t1 := with_header t _). specialize (IH (nonce + 1) t1).
      assert (~ seals (tpl_header t) (tpl_target t) nonce genesis_hash) as H0.
      { intros (r' & Hr' & Hs'). rewrite Hr in Hr'. injection Hr' as <-. congruence. }
      assert (forall m, seals (tpl_header t1) (tpl_target t1) m genesis_hash <->
        seals (tpl_header t) (tpl_target t) m genesis_hash) as Heq by (intros; apply seals_mix).
      assert (forall j, nonce + 1 + Z.of_nat j = nonce + Z.of_nat (S j)) as Hn by lia.
      destruct (seal_loop n (nonce + 1) t1 genesis_hash) as [[t'|]|e|]; [| |exact IH|exact IH].
      * destruct IH as (k & Hk & Hsf & Hmin). exists (S k). split; [lia|]. split.
        -- destruct Hsf as (r' & H1 & H2 & H3 & H4 & H5). exists r'. rewrite <- Hn. done.
        -- intros [|j] Hj; [by rewrite Z.add_0_r|]. rewrite <- Hn, <- Heq. apply Hmin. lia.
      * intros [|j] Hj; [by rewrite Z.add_0_r|]. rewrite <- Hn, <- Heq. apply IH. lia.
Qed.

(** ** Properties *)

(** Sealing terminates without a panic.  It finds the least nonce of the
    window whose hash meets the target, writes that nonce and the matching mix
    hash and changes nothing else; it answers [None] only if no nonce of the
    window works. *)
Theorem seal_least_nonce t start limit genesis_hash :
  in_u64 start -> 0 <= limit ->
  match seal_empty_template_with_genesis t start limit genesis_hash with
  | Ok (Some t') => exists n, start <= n < Z.min (start + limit) U64_MAX /\
      sealed_from t t' n genesis_hash /\
      forall m, start <= m < n -> ~ seals (tpl_header t) (tpl_target t) m genesis_hash
  | Ok None => forall m, start <= m < Z.min (start + limit) U64_MAX ->
      ~ seals (tpl_header t) (tpl_target t) m genesis_hash
  | _ => False
  end.
Proof.
  intros Hs Hl. unfold seal_empty_template_with_genesis. unfold sat_add.
  pose proof (seal_loop_spec (Z.to_nat (Z.min (start + limit) U64_MAX - start)) start t genesis_hash) as H.
  destruct (seal_loop _ start t genesis_hash) as [[t'|]| |]; try done.
  - destruct H as (k & Hk & Hsf & Hmin). exists (start + Z.of_nat k). split; [lia|]. split; [done|].
    intros m Hm. replace m with (start + Z.of_nat (Z.to_nat (m - start))) by lia. apply Hmin. lia.
  - intros m Hm. replace m with (start + Z.of_nat (Z.to_nat (m - start))) by lia. apply H. lia.
Qed.

Lemma length_algorithm : length POW_ALGORITHM = 8%nat.
Proof. unfold POW_ALGORITHM, DEFAULT_POW_ALGORITHM. by destruct native_randomx. Qed.

Lemma length_header_bytes h :
  wf_hash (hdr_parent_hash h) -> wf_hash (hdr_state_root h) -> wf_hash (hdr_transactions_root h) ->
  wf_hash (hdr_receipts_root h) -> wf_hash (hdr_beneficiary h) -> wf_hash (hdr_difficulty_target h) ->
  wf_hash (hdr_mix_hash h) ->
  Z.of_nat (length (header_canonical_bytes h)) = 304 + Z.of_nat (length (hdr_pow_algorithm h)).
Proof.
  unfold wf_hash. intros. rewrite header_canonical_bytes_eq. unfold enc_header_head, enc_bytes.
  autorewrite with blq_len. lia.
Qed.

(** C36: a template built on a well-formed parent and sealed gives a block
    that validates after this parent, for every genesis hash and activation
    height, as long as its timestamp is later. *)
Theorem sealed_template_valid parent beneficiary timestamp genesis_hash start limit t activation :
  wf_header parent -> wf_hash beneficiary -> hdr_timestamp_seconds parent < timestamp ->
  in_u64 start -> 0 <= limit ->
  seal_empty_template_with_genesis
    (build_empty_template_with_genesis parent beneficiary timestamp genesis_hash)
    start limit genesis_hash = Ok (Some t) ->
  validate_block_with_genesis_and_activation parent (into_unsealed_block t) genesis_hash activation = Ok tt.
Proof.
  intros Hw Hben Hts Hs Hl E. unfold seal_empty_template_with_genesis in E.
  match type of E with seal_loop ?n ?m ?t ?g = _ => pose proof (seal_loop_spec n m t g) as H end.
  rewrite E in H. destruct H as (k & _ & (r & Hr & Hh & Hsat & _ & Htx) & _).
  apply validate_block_ok. unfold into_unsealed_block. rewrite Htx.
  destruct (blq_rx_hash_ok (tpl_header t) genesis_hash) as (r' & Hr' & Hwm & _).
  rewrite Hr in Hr'. injection Hr' as <-.
  split; cbn [blk_header blk_transactions blk_receipts]; try (rewrite Hh; done); try done.
  - split; try (rewrite Hh; done).
    + rewrite Hh. cbn. destruct (wf_hdr_gas_limit _ Hw). done.
    + exists r. split; [done|]. rewrite Hh. split; [done|]. exact Hsat.
  - intros _ _ _. unfold block_canonical_bytes, put_u64.
    cbn [blk_header blk_transactions blk_receipts fold_left build_empty_template_with_genesis tpl_transactions].
    rewrite !length_app, !length_be_bytes, !Nat2Z.inj_add, length_header_bytes;
      try (rewrite Hh; first [apply length_sha256|apply Hw|done]).
    assert (hdr_pow_algorithm (tpl_header t) = POW_ALGORITHM) as -> by (by rewrite Hh).
    rewrite length_algorithm. by vm_compute.
Qed.

End miner.

(** A parent whose target every hash meets. *)
Definition easy_parent : BlockHeader := {|
  hdr_parent_hash := HASH_ZERO; hdr_number := 6; hdr_state_root := HASH_ZERO;
  hdr_transactions_root := HASH_ZERO; hdr_receipts_root := HASH_ZERO; hdr_beneficiary := HASH_ZERO;
  hdr_difficulty_target := HASH_MAX; hdr_base_fee_per_gas := INITIAL_BASE_FEE_PER_GAS_BIX;
  hdr_gas_limit := GENESIS_GAS_LIMIT; hdr_gas_used := 0; hdr_timestamp_seconds := 100;
  hdr_pow_algorithm := B "BLQ-RX/2"; hdr_pow_epoch := 0; hdr_extra_nonce := 0;
  hdr_mix_hash := HASH_ZERO; hdr_nonce := 0 |}.

Definition native_profile : BuildProfile := {| native_randomx := true |}.

Definition sample_template : BlockTemplate :=
  @build_empty_template_with_genesis native_profile toy_digests easy_parent HASH_ZERO 120 HASH_ZERO.

Lemma easy_parent_wf : wf_header easy_parent.
Proof. split; by vm_compute. Qed.

Lemma sample_seal_ok :
  exists t, @seal_empty_template_with_genesis native_profile toy_digests toy_randomx
    sample_template 5 10 HASH_ZERO = Ok (Some t).
Proof.
  assert (match @seal_empty_template_with_genesis native_profile toy_digests toy_randomx
    sample_template 5 10 HASH_ZERO with Ok (Some _) => true | _ => false end = true) as H by (by vm_compute).
  destruct (seal_empty_template_with_genesis _ _ _ _) as [[t|]| |]; try discriminate H. by exists t.
Qed.

Lemma seal_least_nonce_witness :
  exists t n, @seal_empty_template_with_genesis native_profile toy_digests toy_randomx
    sample_template 5 10 HASH_ZERO = Ok (Some t) /\ 5 <= n < 15 /\
    @sealed_from native_profile toy_digests toy_randomx sample_template t n HASH_ZERO.
Proof.
  destruct sample_seal_ok as [t E].
  pose proof (@seal_least_nonce native_profile toy_digests toy_randomx sample_template 5 10 HASH_ZERO) as H.
  rewrite E in H. specialize (H ltac:(split; vm_compute; discriminate) ltac:(discriminate)).
  destruct H as (n & Hn & Hs & _).
  exists t, n. split; [exact E|]. split; [|exact Hs].
  replace (Z.min (5 + 10) U64_MAX) with 15 in Hn by (by vm_compute). exact Hn.
Defined.

Lemma sealed_template_valid_witness :
  exists t, @seal_empty_template_with_genesis native_profile toy_digests toy_randomx
    sample_template 5 10 HASH_ZERO = Ok (Some t) /\
    @validate_block_with_genesis_and_activation native_profile toy_digests toy_randomx
      easy_parent (into_unsealed_block t) HASH_ZERO (Some 0) = Ok tt.
Proof.
  destruct sample_seal_ok as [t E]. exists t. split; [exact E|].
  apply (@sealed_template_valid native_profile toy_digests toy_randomx easy_parent HASH_ZERO 120
    HASH_ZERO 5 10 t (Some 0)); [exact easy_parent_wf|reflexivity|reflexivity| |discriminate|exact E].
  split; vm_compute; discriminate.
Defined.
