(* ===== verification/Network.v ===== *)
(** [crates/blq-network]: peer scores and the choice between branches.

    [current_epoch] is an argument.  Files are left out: [load] and [save] are
    modelled between the entries that are written and read. *)

From Stdlib Require Import ZArith Lia Strings.String Strings.Byte.
From stdpp Require Import sorting gmap list base fin_maps.
From S2P Require Import Prelude Externals Primitives.
#[local] Open Scope Z_scope.

Definition PEER_BAN_THRESHOLD : Z := -100.
Definition PEER_MAX_SCORE : Z := 100.
Definition PEER_BAN_COOLDOWN_SECS : Z := 30.

(** ** Peer identities *)

Definition to_ascii_lowercase (s : list byte) : list byte :=
  map (fun c => if (65 <=? u8_val c) && (u8_val c <=? 90) then as_u8 (u8_val c + 32) else c) s.

Definition from_advertised_address {D : Digests} (address : list byte) : Hash256 := blake3 address.

Definition from_identity_public_key {D : Digests} (public_key : list byte) : Hash256 :=
  blake3 (B "BLQ-PEER-IDENTITY-v1" ++ [x00] ++ to_ascii_lowercase public_key).

(** ** Scores *)

Record PeerScore := {
  ps_score : Z;
  ps_consecutive_failures : Z;
  ps_banned : bool;
  ps_ban_until_epoch : option Z;
  ps_last_failure_epoch : option Z;
}.

Definition peer_score_default : PeerScore := {|
  ps_score := 0; ps_consecutive_failures := 0; ps_banned := false;
  ps_ban_until_epoch := None; ps_last_failure_epoch := None |}.

(** [PeerScoreBook]: the peers by id. *)
Abbreviation PeerScoreBook := (gmap (list byte) PeerScore) (only parsing).

Definition book_get (b : PeerScoreBook) (peer : Hash256) : PeerScore :=
  default peer_score_default (b !! peer).

(** [i32::abs] (which wraps on the least value in release mode) and
    [i32::saturating_sub]. *)
Definition i32_abs (x : Z) : Z := if x =? I32_MIN then I32_MIN else Z.abs x.
Definition i32_sat_sub (a b : Z) : Z := Z.max I32_MIN (Z.min (a - b) I32_MAX).

Definition observe_score (entry : PeerScore) : PeerScore :=
  if ps_banned entry then entry
  else {| ps_score := Z.min (ps_score entry + 1) PEER_MAX_SCORE; ps_consecutive_failures := 0;
          ps_banned := ps_banned entry; ps_ban_until_epoch := ps_ban_until_epoch entry;
          ps_last_failure_epoch := ps_last_failure_epoch entry |}.

Definition observe_valid (b : PeerScoreBook) (peer : Hash256) : PeerScoreBook :=
  <[peer := observe_score (book_get b peer)]> b.

Definition clear_score (entry : PeerScore) : PeerScore := {|
  ps_score := 0; ps_consecutive_failures := 0; ps_banned := false;
  ps_ban_until_epoch := None; ps_last_failure_epoch := ps_last_failure_epoch entry |}.

Definition clear_ban (b : PeerScoreBook) (peer : Hash256) : PeerScoreBook :=
  <[peer := clear_score (book_get b peer)]> b.

(** The clock is read twice. *)
Definition penalize_score (entry : PeerScore) (penalty now now' : Z) : PeerScore :=
  let score := i32_sat_sub (ps_score entry) (i32_abs penalty) in
  let entry := {| ps_score := score;
    ps_consecutive_failures := sat_add U32_MAX (ps_consecutive_failures entry) 1;
    ps_banned := ps_banned entry; ps_ban_until_epoch := ps_ban_until_epoch entry;
    ps_last_failure_epoch := Some now |} in
  if score <=? PEER_BAN_THRESHOLD then
    {| ps_score := ps_score entry; ps_consecutive_failures := ps_consecutive_failures entry;
       ps_banned := true;
       ps_ban_until_epoch := Some (sat_add U64_MAX now' PEER_BAN_COOLDOWN_SECS);
       ps_last_failure_epoch := ps_last_failure_epoch entry |}
  else entry.

Definition penalize (b : PeerScoreBook) (peer : Hash256) (penalty now now' : Z) : PeerScoreBook :=
  <[peer := penalize_score (book_get b peer) penalty now now']> b.

Definition is_banned (b : PeerScoreBook) (peer : Hash256) (now : Z) : bool :=
  match b !! peer with
  | Some score =>
      ps_banned score &&
      match ps_ban_until_epoch score with Some until => now <? until | None => true end
  | None => false
  end.

Definition has_history (s : PeerScore) : bool :=
  ps_banned s || negb (ps_score s =? 0) || negb (ps_consecutive_failures s =? 0).

Definition clear_all_bans (b : PeerScoreBook) : Z * PeerScoreBook :=
  (Z.of_nat (length (List.filter (fun kv => has_history kv.2) (btree_iter b))), clear_score <$> b).

(** What [save] writes, and the [collect] of [load]: a later entry of one peer
    replaces an earlier one. *)
Definition save_book (b : PeerScoreBook) : list (Hash256 * PeerScore) := btree_iter b.
Definition load_book (entries : list (Hash256 * PeerScore)) : PeerScoreBook :=
  fold_left (fun b kv => <[kv.1 := kv.2]> b) entries ∅.

(** ** Branches *)

Record BranchTip := {
  bt_height : Z;
  bt_hash : Hash256;
  bt_difficulty_target : Hash256;
  bt_cumulative_work : Z;
}.

Inductive NetworkError := BannedPeer | InvalidExtension.

Section work.
Context {U : U256Ops}.

Definition u256_eqb (a b : u256) : bool := u256_val a =? u256_val b.

Definition work_for_target (target : Hash256) : Z :=
  if bool_decide (target = replicate 32 xff) then 1
  else
    let one := u256_of 1 in
    let denominator := u256_add (u256_from_be target) one in
    let max := u256_of U256_MAX in
    let quotient := u256_div max denominator in
    let quotient :=
      if u256_eqb (u256_rem max denominator) (u256_sub denominator one) && negb (u256_eqb quotient max)
      then u256_add quotient one else quotient in
    let max_work := u256_of U128_MAX in
    if u256_val max_work <? u256_val quotient then U128_MAX
    else Z.max (u256_val quotient) 1.

Definition branch_tip_new (height : Z) (hash difficulty_target : Hash256) : BranchTip := {|
  bt_height := height; bt_hash := hash; bt_difficulty_target := difficulty_target;
  bt_cumulative_work := work_for_target difficulty_target |}.

Definition branch_extend (t : BranchTip) (hash difficulty_target : Hash256) : BranchTip := {|
  bt_height := sat_add U64_MAX (bt_height t) 1;
  bt_hash := hash;
  bt_difficulty_target := difficulty_target;
  bt_cumulative_work := sat_add U128_MAX (bt_cumulative_work t) (work_for_target difficulty_target) |}.
End work.

(** The order of the triples: work, then height, then the smaller hash. *)
Definition branch_cmp (a b : BranchTip) : comparison :=
  then_with (bt_cumulative_work a ?= bt_cumulative_work b)
    (then_with (bt_height a ?= bt_height b) (bytes_compare (bt_hash b) (bt_hash a))).

Definition better_branch (candidate current : BranchTip) : bool :=
  match branch_cmp candidate current with Gt => true | _ => false end.

(** ** Score lemmas *)

(** A penalty as the callers pass it, above the least [i32]. *)
Definition penalty_ok (p : Z) : Prop := I32_MIN < p <= I32_MAX.

(** The threshold and the ban agree, and a ban always has an end. *)
Record score_ok (s : PeerScore) : Prop := {
  so_range : I32_MIN <= ps_score s <= PEER_MAX_SCORE;
  so_threshold : ps_score s <= PEER_BAN_THRESHOLD -> ps_banned s = true;
  so_until : ps_banned s = true -> is_Some (ps_ban_until_epoch s);
}.

Lemma score_ok_default : score_ok peer_score_default.
Proof. split; simpl; [by vm_compute|by vm_compute|done]. Qed.

Lemma score_ok_observe s : score_ok s -> score_ok (observe_score s).
Proof.
  intros Hs. pose proof Hs as [Hr Ht Hu]. unfold observe_score.
  destruct (ps_banned s) eqn:Hb; [done|].
  assert (PEER_BAN_THRESHOLD < ps_score s) as Hgt.
  { destruct (Z.le_gt_cases (ps_score s) PEER_BAN_THRESHOLD) as [H|H]; [specialize (Ht H); done|lia]. }
  unfold PEER_MAX_SCORE, PEER_BAN_THRESHOLD, I32_MIN in *.
  split; cbn; [unfold PEER_MAX_SCORE, I32_MIN; lia|unfold PEER_MAX_SCORE, PEER_BAN_THRESHOLD; lia|done].
Qed.

Lemma score_ok_clear s : score_ok (clear_score s).
Proof. split; simpl; [by vm_compute|by vm_compute|done]. Qed.

Lemma score_ok_penalize s p now now' :
  score_ok s -> penalty_ok p -> score_ok (penalize_score s p now now').
Proof.
  intros [] Hp. unfold penalize_score, i32_abs. unfold penalty_ok in Hp.
  destruct (Z.eqb_spec p I32_MIN); [lia|].
  assert (I32_MIN <= i32_sat_sub (ps_score s) (Z.abs p) <= PEER_MAX_SCORE) as Hr.
  { unfold i32_sat_sub, PEER_MAX_SCORE, I32_MIN, I32_MAX in *. lia. }
  destruct (Z.leb_spec (i32_sat_sub (ps_score s) (Z.abs p)) PEER_BAN_THRESHOLD).
  - split; cbn; [done|done|]. intros _. eexists. reflexivity.
  - split; cbn; [done|lia|done].
Qed.

(** The operations on a book. *)
Inductive book_step (b : PeerScoreBook) : PeerScoreBook -> Prop :=
| bstep_observe peer : book_step b (observe_valid b peer)
| bstep_clear peer : book_step b (clear_ban b peer)
| bstep_penalize peer p now now' : penalty_ok p -> book_step b (penalize b peer p now now')
| bstep_clear_all : book_step b (snd (clear_all_bans b)).

Definition book_ok (b : PeerScoreBook) : Prop := map_Forall (fun _ s => score_ok s) b.

Lemma book_get_ok b peer : book_ok b -> score_ok (book_get b peer).
Proof.
  intros H. unfold book_get. destruct (b !! peer) eqn:E; [by eapply H|apply score_ok_default].
Qed.

Lemma book_step_ok b b' : book_ok b -> book_step b b' -> book_ok b'.
Proof.
  intros H [peer|peer|peer p now now' Hp|].
  - apply map_Forall_insert_2; [by apply score_ok_observe, book_get_ok|done].
  - apply map_Forall_insert_2; [apply score_ok_clear|done].
  - apply map_Forall_insert_2; [apply score_ok_penalize; [by apply book_get_ok|done]|done].
  - intros k s. cbn [snd clear_all_bans]. rewrite lookup_fmap. destruct (b !! k); [|done].
    intros [= <-]. apply score_ok_clear.
Qed.

(** A peer that only sends valid messages and commits further offences. *)
Inductive peer_event := ValidMessage | Offence (penalty now now' : Z).

Definition peer_run (b : PeerScoreBook) (peer : Hash256) (events : list peer_event) : PeerScoreBook :=
  fold_left (fun b e => match e with
    | ValidMessage => observe_valid b peer
    | Offence p now now' => penalize b peer p now now'
    end) events b.

Lemma book_get_insert b peer s : book_get (<[peer := s]> b) peer = s.
Proof. unfold book_get. by rewrite lookup_insert_eq. Qed.

Lemma is_banned_get b peer now :
  is_banned b peer now =
  ps_banned (book_get b peer) &&
  match ps_ban_until_epoch (book_get b peer) with Some until => now <? until | None => true end.
Proof. unfold is_banned, book_get. by destruct (b !! peer). Qed.

(** Banned at least until a given second. *)
Definition banned_until (s : PeerScore) (until : Z) : Prop :=
  ps_banned s = true /\ exists u, ps_ban_until_epoch s = Some u /\ until <= u.

(** The clock does not run backwards past the start of the ban. *)
Definition event_after (until : Z) (e : peer_event) : Prop :=
  match e with
  | ValidMessage => True
  | Offence _ _ now' => until <= sat_add U64_MAX now' PEER_BAN_COOLDOWN_SECS
  end.

Lemma peer_run_banned b peer events until :
  banned_until (book_get b peer) until -> Forall (event_after until) events ->
  banned_until (book_get (peer_run b peer events) peer) until.
Proof.
  intros Hb He. revert b Hb. induction He as [|e events He Hes IH]; intros b Hb; [done|].
  cbn [peer_run fold_left]. apply IH. destruct Hb as (Hb & u & Hu & Hle). destruct e as [|p now now'].
  - unfold observe_valid. rewrite book_get_insert. unfold observe_score. rewrite Hb. split; eauto.
  - unfold penalize. rewrite book_get_insert. unfold penalize_score.
    destruct (_ <=? PEER_BAN_THRESHOLD); split; cbn; eauto.
Qed.

(** ** Work *)

Section work_lemmas.
Context {U : U256Ops}.

Lemma u256_small z : 0 <= z <= U256_MAX -> u256_val (u256_of z) = z.
Proof. apply u256_of_val. Qed.

(** [floor(M+1 / d)] from the quotient and remainder of [M]. *)
Lemma div_succ_max M d :
  0 < d -> 0 <= M ->
  (M + 1) / d = if M mod d =? d - 1 then M / d + 1 else M / d.
Proof.
  intros Hd HM. pose proof (Z.div_mod M d ltac:(lia)). pose proof (Z.mod_pos_bound M d Hd).
  destruct (Z.eqb_spec (M mod d) (d - 1)); symmetry.
  - apply (Z.div_unique_pos _ _ _ 0); nia.
  - apply (Z.div_unique_pos _ _ _ (M mod d + 1)); nia.
Qed.

Lemma work_for_target_eq target :
  wf_hash target ->
  work_for_target target = Z.min ((U256_MAX + 1) / (be_val target + 1)) U128_MAX.
Proof.
  intros Hw. unfold work_for_target.
  assert (0 <= be_val target <= U256_MAX) as Hr.
  { pose proof (be_val_range target) as H. unfold wf_hash in Hw. rewrite Hw in H.
    change (256 ^ Z.of_nat 32) with (U256_MAX + 1) in H. lia. }
  case_bool_decide as Hm.
  { subst target. assert (be_val (replicate 32 xff) = U256_MAX) as -> by (by vm_compute). by vm_compute. }
  assert (be_val target <> U256_MAX) as Hne.
  { intros E. apply Hm, be_val_inj; [by rewrite Hw|]. rewrite E. by vm_compute. }
  set (t := be_val target) in *.
  set (den := u256_add (u256_from_be target) (u256_of 1)). set (mx := u256_of U256_MAX).
  assert (u256_val den = t + 1) as Hden.
  { unfold den. rewrite u256_add_val, u256_from_be_val, u256_small by (done || (unfold U256_MAX; lia)).
    apply Z.mod_small. fold t. lia. }
  assert (u256_val mx = U256_MAX) as Hmx by (apply u256_small; unfold U256_MAX; lia).
  assert (u256_val (u256_sub den (u256_of 1)) = t) as Hsub.
  { rewrite u256_sub_val, Hden, u256_small by (unfold U256_MAX; lia).
    replace (t + 1 - 1) with t by lia. apply Z.mod_small. lia. }
  pose proof (u256_div_val mx den ltac:(lia)) as Hq. pose proof (u256_rem_val mx den ltac:(lia)) as Hrem.
  rewrite Hden, Hmx in Hq, Hrem.
  pose proof (div_succ_max U256_MAX (t + 1) ltac:(lia) ltac:(by vm_compute)) as Hdiv.
  replace (t + 1 - 1) with t in Hdiv by lia.
  unfold u256_eqb. rewrite Hrem, Hsub, Hq, Hmx.
  set (q := U256_MAX / (t + 1)) in *.
  assert (0 <= q <= U256_MAX) as Hqr.
  { unfold q. split; [apply Z.div_pos; [by vm_compute|lia]|]. apply Z.div_le_upper_bound; [lia|].
    assert (0 <= U256_MAX) by (by vm_compute). nia. }
  assert (1 <= (U256_MAX + 1) / (t + 1)) as Hge.
  { apply Z.div_le_lower_bound; lia. }
  set (q' := if (U256_MAX mod (t + 1) =? t) && negb (q =? U256_MAX) then _ else _).
  assert (u256_val q' = Z.min ((U256_MAX + 1) / (t + 1)) U256_MAX) as Hq'.
  { rewrite Hdiv in *. unfold q'. destruct (Z.eqb_spec (U256_MAX mod (t + 1)) t); cbn [andb].
    - destruct (Z.eqb_spec q U256_MAX); cbn [negb].
      + rewrite Hq. lia.
      + rewrite u256_add_val, Hq, u256_small by (unfold U256_MAX; lia).
        rewrite Z.mod_small by lia. lia.
    - rewrite Hq. lia. }
  rewrite u256_small by (unfold U128_MAX, U256_MAX; lia). rewrite Hq'.
  assert (U128_MAX < U256_MAX) by (by vm_compute). assert (1 <= U256_MAX) by (by vm_compute).
  destruct (Z.ltb_spec U128_MAX (Z.min ((U256_MAX + 1) / (t + 1)) U256_MAX)); lia.
Qed.

Lemma work_positive target : wf_hash target -> 1 <= work_for_target target <= U128_MAX.
Proof.
  intros Hw. rewrite work_for_target_eq by done.
  assert (1 <= (U256_MAX + 1) / (be_val target + 1)); [|unfold U128_MAX; lia].
  pose proof (be_val_range target) as H. rewrite Hw in H.
  change (256 ^ Z.of_nat 32) with (U256_MAX + 1) in H. apply Z.div_le_lower_bound; lia.
Qed.

(** The work of a target is exactly floor(2^256 / (target + 1)), capped
    at 2^128 - 1 and never zero, although it is computed in 256 bits; a harder
    target never counts for less. *)
Theorem work_for_target_exact target target' :
  wf_hash target -> wf_hash target' ->
  work_for_target target = Z.min (2 ^ 256 / (be_val target + 1)) U128_MAX /\
  1 <= work_for_target target /\
  (be_val target <= be_val target' -> work_for_target target' <= work_for_target target).
Proof.
  intros Hw Hw'. rewrite !work_for_target_eq by done. change (2 ^ 256) with (U256_MAX + 1).
  pose proof (work_positive target Hw) as Hpos. rewrite work_for_target_eq in Hpos by done.
  split; [done|]. split; [lia|].
  intros H. apply Z.min_le_compat_r, Z.div_le_compat_l.
  - by vm_compute.
  - pose proof (be_val_range target). lia.
Qed.

(** ** Branch choice *)

Lemma then_with_gt c d : then_with c d = Gt <-> c = Gt \/ (c = Eq /\ d = Gt).
Proof. destruct c, d; simpl; intuition congruence. Qed.

Lemma branch_cmp_antisym a b : branch_cmp b a = CompOpp (branch_cmp a b).
Proof.
  unfold branch_cmp. rewrite (Z.compare_antisym (bt_cumulative_work a)), (Z.compare_antisym (bt_height a)).
  rewrite (bytes_compare_antisym (bt_hash b) (bt_hash a)).
  destruct (bt_cumulative_work a ?= bt_cumulative_work b); simpl; try done.
  by destruct (bt_height a ?= bt_height b).
Qed.

Lemma branch_cmp_eq a b :
  branch_cmp a b = Eq <->
  bt_cumulative_work a = bt_cumulative_work b /\ bt_height a = bt_height b /\ bt_hash a = bt_hash b.
Proof.
  unfold branch_cmp.
  destruct (Z.compare_spec (bt_cumulative_work a) (bt_cumulative_work b)); simpl;
    [|split; [done|lia]..].
  destruct (Z.compare_spec (bt_height a) (bt_height b)); simpl; [|split; [done|lia]..].
  rewrite bytes_compare_eq. split; [intros ->; done|by intros (_ & _ & ->)].
Qed.

Lemma bytes_compare_gt_trans a b c :
  bytes_compare a b = Gt -> bytes_compare b c = Gt -> bytes_compare a c = Gt.
Proof.
  rewrite (bytes_compare_antisym b a), (bytes_compare_antisym c b), (bytes_compare_antisym c a).
  intros H1 H2. rewrite (bytes_compare_trans c b a); [done| |];
    [by destruct (bytes_compare c b)|by destruct (bytes_compare b a)].
Qed.

Lemma branch_gt_trans a b c : branch_cmp a b = Gt -> branch_cmp b c = Gt -> branch_cmp a c = Gt.
Proof.
  unfold branch_cmp. rewrite !then_with_gt, !Z.compare_gt_iff, !Z.compare_eq_iff.
  intros [H1|(H1 & [H2|(H2 & H3)])] [H4|(H4 & [H5|(H5 & H6)])]; try (left; lia); right;
    (split; [lia|]); try (left; lia). right. split; [lia|].
  by apply (bytes_compare_gt_trans _ (bt_hash b)).
Qed.

(** Preferring a branch is a strict total order on (work, height, hash):
    never a tip over itself, transitive, and of two tips that differ in one of
    the three exactly one is better, so that nodes that see the same tips
    choose the same branch; extending a tip below the height limit always gives
    a better one. *)
Theorem better_branch_order a b c hash target :
  better_branch a a = false /\
  (better_branch a b = true -> better_branch b c = true -> better_branch a c = true) /\
  (better_branch a b = true -> better_branch b a = false) /\
  (better_branch a b = false -> better_branch b a = false ->
   bt_cumulative_work a = bt_cumulative_work b /\ bt_height a = bt_height b /\ bt_hash a = bt_hash b) /\
  (wf_hash target -> bt_cumulative_work a <= U128_MAX -> bt_height a < U64_MAX ->
   better_branch (branch_extend a hash target) a = true).
Proof.
  unfold better_branch. split; [|split; [|split; [|split]]].
  - by rewrite (proj2 (branch_cmp_eq a a)).
  - destruct (branch_cmp a b) eqn:E1; try done. destruct (branch_cmp b c) eqn:E2; try done.
    by rewrite (branch_gt_trans a b c).
  - rewrite (branch_cmp_antisym a b). by destruct (branch_cmp a b).
  - rewrite (branch_cmp_antisym a b), <- branch_cmp_eq. by destruct (branch_cmp a b).
  - intros Hw Hc Hh. pose proof (work_positive target Hw) as Hwk.
    replace (branch_cmp (branch_extend a hash target) a) with Gt; [done|]. symmetry.
    unfold branch_cmp. rewrite !then_with_gt, !Z.compare_gt_iff, !Z.compare_eq_iff.
    cbn [bt_cumulative_work bt_height branch_extend]. unfold sat_add.
    destruct (Z.eq_dec (bt_cumulative_work a) U128_MAX); [right|left; lia].
    split; [lia|]. left. lia.
Qed.

End work_lemmas.

(** ** Properties of scores *)

(** Every score book reachable from an empty one by valid messages,
    penalties and operator resets has scores between -2^31 and 100, has every
    peer at or below -100 banned, and gives every ban an end. *)
Theorem score_book_invariant b peer :
  rtc book_step ∅ b -> score_ok (book_get b peer).
Proof.
  intros H. apply book_get_ok. remember (∅ : PeerScoreBook) as q eqn:E.
  assert (book_ok q) as Hq by (subst q; apply map_Forall_empty). clear E.
  induction H as [|b1 b2 b3 H1 _ IH]; [done|]. apply IH. by eapply book_step_ok.
Qed.

(** The life of a ban.  A penalty that takes the score to -100 or below
    bans the peer for 30 seconds from the clock; whatever valid messages and
    further offences follow, the ban stays at least until then; without
    further offences it is over after 30 seconds; and an operator's reset
    lifts it at once. *)
Theorem ban_lifecycle b peer penalty now now' events t :
  let b1 := penalize b peer penalty now now' in
  ps_score (book_get b1 peer) <= PEER_BAN_THRESHOLD ->
  0 <= now' -> now' + PEER_BAN_COOLDOWN_SECS <= U64_MAX ->
  Forall (event_after (now' + PEER_BAN_COOLDOWN_SECS)) events ->
  (t < now' + 30 -> is_banned (peer_run b1 peer events) peer t = true) /\
  (now' + 30 <= t -> is_banned b1 peer t = false /\
                     is_banned (observe_valid b1 peer) peer t = false) /\
  is_banned (clear_ban b1 peer) peer t = false /\
  is_banned (snd (clear_all_bans b1)) peer t = false.
Proof.
  intros b1 Hs Hn Hmax He.
  assert (ps_banned (book_get b1 peer) = true /\
          ps_ban_until_epoch (book_get b1 peer) = Some (now' + 30)) as [Hb Hu].
  { unfold b1, penalize in *. rewrite book_get_insert in *. unfold penalize_score in *.
    destruct (Z.leb_spec (i32_sat_sub (ps_score (book_get b peer)) (i32_abs penalty)) PEER_BAN_THRESHOLD)
      as [H|H]; cbn in *; [|lia]. split; [done|]. by rewrite sat_add_exact. }
  split; [|split; [|split]].
  - intros Ht. destruct (peer_run_banned b1 peer events (now' + PEER_BAN_COOLDOWN_SECS)) as (H1 & u & H2 & H3).
    { split; [done|]. exists (now' + 30). split; [done|]. unfold PEER_BAN_COOLDOWN_SECS. lia. } { done. }
    rewrite is_banned_get, H1, H2. unfold PEER_BAN_COOLDOWN_SECS in H3. cbn [andb]. lia.
  - intros Ht. split.
    + rewrite is_banned_get, Hb, Hu. cbn [andb]. lia.
    + rewrite is_banned_get. unfold observe_valid. rewrite book_get_insert. unfold observe_score.
      rewrite Hb, Hb, Hu. cbn [andb]. lia.
  - rewrite is_banned_get. unfold clear_ban. by rewrite book_get_insert.
  - unfold is_banned. cbn [snd clear_all_bans]. rewrite lookup_fmap. by destruct (b1 !! peer).
Qed.

(** The abs of the least 32-bit integer wraps: such a penalty raises the score. *)
Lemma penalize_min_raises : ps_score (penalize_score peer_score_default I32_MIN 5 5) = I32_MAX.
Proof. by vm_compute. Qed.

(** Saving and loading a book gives it back. *)
Lemma load_save_book b : load_book (save_book b) = b.
Proof.
  unfold load_book, save_book.
  assert (forall l (b0 : PeerScoreBook), NoDup l.*1 ->
    forall k, (fold_left (fun b (kv : list byte * PeerScore) => <[kv.1 := kv.2]> b) l b0) !! k =
      match list_find (fun kv => kv.1 = k) l with Some (_, kv) => Some kv.2 | None => b0 !! k end) as H.
  { intros l. induction l as [|[k0 v0] l IH]; intros b0 Hnd k; [done|]. cbn [fold_left fst snd].
    cbn in Hnd. apply NoDup_cons in Hnd as [Hk0 Hnd]. rewrite IH by done. cbn [list_find fst snd].
    destruct (decide (k0 = k)) as [->|Hne].
    - destruct (list_find _ l) as [[i [k' v']]|] eqn:El; [exfalso|by rewrite lookup_insert_eq].
      apply list_find_Some in El as (Hi & Hk & _). simpl in Hk. subst k'. apply Hk0.
      apply list_elem_of_fmap. exists (k, v'). split; [done|]. by eapply list_elem_of_lookup_2.
    - destruct (list_find _ l) as [[i [k' v']]|]; [done|]. by rewrite lookup_insert_ne. }
  apply map_eq. intros k. rewrite H.
  - destruct (list_find _ (btree_iter b)) as [[i [k' v']]|] eqn:El.
    + apply list_find_Some in El as (Hi & Hk & _). simpl in Hk. subst k'.
      apply list_elem_of_lookup_2, elem_of_btree_iter in Hi. done.
    + rewrite lookup_empty. symmetry. apply eq_None_not_Some. intros [v Hv].
      apply elem_of_btree_iter in Hv. apply list_find_None in El. rewrite Forall_forall in El.
      by apply (El (k, v) Hv).
  - rewrite btree_iter_perm. apply NoDup_fst_map_to_list.
Qed.

(** ** Examples *)

Definition sample_peer : Hash256 := be_bytes 32 7.

Lemma work_for_target_exact_witness :
  @work_for_target u256_z GENESIS_DIFFICULTY_TARGET =
  Z.min (2 ^ 256 / (be_val GENESIS_DIFFICULTY_TARGET + 1)) U128_MAX.
Proof.
  destruct (@work_for_target_exact u256_z GENESIS_DIFFICULTY_TARGET GENESIS_DIFFICULTY_TARGET) as [H _];
    [done|done|exact H].
Defined.

Lemma better_branch_order_witness :
  better_branch (@branch_extend u256_z (@branch_tip_new u256_z 5 HASH_ZERO GENESIS_DIFFICULTY_TARGET)
    sample_peer GENESIS_DIFFICULTY_TARGET)
    (@branch_tip_new u256_z 5 HASH_ZERO GENESIS_DIFFICULTY_TARGET) = true.
Proof.
  set (a := @branch_tip_new u256_z 5 HASH_ZERO GENESIS_DIFFICULTY_TARGET).
  destruct (@better_branch_order u256_z a a a sample_peer GENESIS_DIFFICULTY_TARGET)
    as (_ & _ & _ & _ & H). apply H; vm_compute; done.
Defined.

Lemma score_book_invariant_witness :
  score_ok (book_get (penalize (observe_valid ∅ sample_peer) sample_peer 150 10 10) sample_peer).
Proof.
  apply score_book_invariant. eapply rtc_l; [apply (bstep_observe _ sample_peer)|].
  eapply rtc_l; [apply (bstep_penalize _ sample_peer 150 10 10); split; by vm_compute|]. apply rtc_refl.
Defined.

Lemma ban_lifecycle_witness :
  is_banned (peer_run (penalize ∅ sample_peer 150 10 10) sample_peer [ValidMessage; ValidMessage])
    sample_peer 39 = true /\
  is_banned (penalize ∅ sample_peer 150 10 10) sample_peer 40 = false.
Proof.
  assert (ps_score (book_get (penalize ∅ sample_peer 150 10 10) sample_peer) <= PEER_BAN_THRESHOLD) as Hs
    by (by vm_compute).
  split.
  - destruct (ban_lifecycle ∅ sample_peer 150 10 10 [ValidMessage; ValidMessage] 39 Hs) as (H & _);
      [lia|vm_compute; discriminate|repeat constructor|apply H; lia].
  - destruct (ban_lifecycle ∅ sample_peer 150 10 10 [] 40 Hs) as (_ & H & _);
      [lia|vm_compute; discriminate|constructor|apply H; lia].
Defined.
