(* ===== verification/Evm.v ===== *)
(** [crates/blq-evm]: the account database given to revm, the commit of its
    changes, and the executor.

    The interpreter is the class [Revm]: a function from the database, the
    block and the transaction to an error or a result with the changed
    accounts.  Everything the repository wraps around it is translated. *)

From Stdlib Require Import ZArith Lia Strings.String Strings.Byte.
From stdpp Require Import gmap list base fin_maps.
From S2P Require Import Prelude Externals Primitives State.
#[local] Open Scope Z_scope.

(** ** 256-bit integers as map keys *)

#[export] Instance u256_eq_dec {U : U256Ops} : EqDecision u256.
Proof.
  intros x y. destruct (decide (u256_val x = u256_val y)) as [E|E].
  - left. by apply u256_val_inj.
  - right. congruence.
Defined.

#[export] Program Instance u256_countable {U : U256Ops} : Countable u256 :=
  inj_countable' u256_val u256_of _.
Next Obligation. intros U x. apply u256_val_inj, u256_of_val, u256_range. Qed.

(** [Bytecode]: the default code, or the legacy code of some bytes. *)
Inductive Bytecode := DefaultCode | LegacyCode (code : list byte).

Record AccountInfo {U : U256Ops} := {
  ai_balance : u256;
  ai_nonce : Z;
  ai_code_hash : Hash256;
  ai_code : option Bytecode;
}.

(** The [Database] trait, as the interpreter sees it. *)
Record Database {U : U256Ops} := {
  db_basic : Address -> option AccountInfo;
  db_code_by_hash : Hash256 -> Bytecode;
  db_storage : Address -> u256 -> u256;
  db_block_hash : Z -> Hash256;
}.

Record BlockEnv := {
  be_number : Z;
  be_beneficiary : Address;
  be_timestamp : Z;
  be_gas_limit : Z;
  be_basefee : Z;
  be_prevrandao : Hash256;
  be_slot_num : Z;
}.

Inductive TxKind := TxCall (to : Address) | TxCreate.

Record TxEnv := {
  te_caller : Address;
  te_gas_limit : Z;
  te_max_fee_per_gas : Z;
  te_gas_priority_fee : option Z;
  te_kind : TxKind;
  te_value : Z;
  te_data : list byte;
  te_access_list : list (Address * list Hash256);
  te_nonce : Z;
  te_chain_id : option Z;
}.

(** One entry of the changed accounts: revm's account status, info and slots. *)
Record ChangedAccount {U : U256Ops} := {
  ch_selfdestructed : bool;
  ch_nonce : Z;
  ch_balance : u256;
  ch_code : option (list byte);
  ch_storage : list (u256 * u256);
}.

Record ExecutionResult := {
  er_success : bool;
  er_tx_gas_used : Z;
  er_output : option (list byte);
  er_logs : list LogEntry;
}.

(** revm: building the transaction environment, and executing it.  A
    transaction never uses more gas than its limit. *)
Class Revm {U : U256Ops} := {
  revm_build : TxEnv -> option string;
  revm_transact : Database -> Z -> BlockEnv -> TxEnv ->
    res string (ExecutionResult * list (Address * ChangedAccount));
  revm_gas : forall db c b t r ch, revm_transact db c b t = Ok (r, ch) ->
    0 <= er_tx_gas_used r <= te_gas_limit t;
  revm_total : forall db c b t, revm_transact db c b t <> Panic;
}.

Inductive EvmError := Execution (m : string) | InvalidAddress.

(** ** The state *)

Record RevmAccount {U : U256Ops} := {
  ra_nonce : Z;
  ra_balance : u256;
  ra_code : list byte;
  ra_storage : gmap u256 u256;
}.

(** [RevmState]: the accounts by address. *)
Abbreviation RevmState := (gmap (list byte) RevmAccount) (only parsing).

Section evm.
Context {U : U256Ops} {D : Digests}.

Definition revm_account_default : RevmAccount := {|
  ra_nonce := 0; ra_balance := u256_of 0; ra_code := []; ra_storage := ∅ |}.

Definition revm_account (s : RevmState) (a : Address) : RevmAccount :=
  default revm_account_default (s !! a).
Definition revm_put_account (s : RevmState) (a : Address) (acc : RevmAccount) : RevmState :=
  <[a := acc]> s.

Definition revm_basic (s : RevmState) (a : Address) : option AccountInfo :=
  match s !! a with
  | None => None
  | Some acc =>
      let code := if bool_decide (ra_code acc = []) then DefaultCode else LegacyCode (ra_code acc) in
      Some {| ai_balance := ra_balance acc; ai_nonce := ra_nonce acc;
              ai_code_hash := keccak256 (ra_code acc); ai_code := Some code |}
  end.

(** The accounts in address order; the first whose code has the hash. *)
Definition revm_code_by_hash (s : RevmState) (code_hash : Hash256) : Bytecode :=
  match List.find (fun kv => bool_decide (keccak256 (ra_code kv.2) = code_hash)) (btree_iter s) with
  | Some kv => LegacyCode (ra_code kv.2)
  | None => DefaultCode
  end.

Definition revm_storage (s : RevmState) (a : Address) (index : u256) : u256 :=
  default (u256_of 0) (ra_storage (revm_account s a) !! index).

Definition revm_block_hash (number : Z) : Hash256 := HASH_ZERO.

Definition revm_database (s : RevmState) : Database := {|
  db_basic := revm_basic s; db_code_by_hash := revm_code_by_hash s;
  db_storage := revm_storage s; db_block_hash := revm_block_hash |}.

Definition commit_slot (st : gmap u256 u256) (kv : u256 * u256) : gmap u256 u256 :=
  if u256_val kv.2 =? 0 then delete kv.1 st else <[kv.1 := kv.2]> st.

Definition commit_account (s : RevmState) (change : Address * ChangedAccount) : RevmState :=
  let '(address, account) := change in
  if ch_selfdestructed account then delete address s
  else
    let next := revm_account s address in
    revm_put_account s address {|
      ra_nonce := ch_nonce account;
      ra_balance := ch_balance account;
      ra_code := default (ra_code next) (ch_code account);
      ra_storage := fold_left commit_slot (ch_storage account) (ra_storage next) |}.

Definition revm_commit (s : RevmState) (changes : list (Address * ChangedAccount)) : RevmState :=
  fold_left commit_account changes s.

(** ** Execution *)

Record ExecutionOutput := {
  eo_success : bool;
  eo_gas_used : Z;
  eo_output : list byte;
  eo_logs : list LogEntry;
}.

Context {R : Revm}.

Definition block_env (header : BlockHeader) : BlockEnv := {|
  be_number := hdr_number header;
  be_beneficiary := beneficiary_address header;
  be_timestamp := hdr_timestamp_seconds header;
  be_gas_limit := hdr_gas_limit header;
  be_basefee := hdr_base_fee_per_gas header;
  be_prevrandao := hdr_mix_hash header;
  be_slot_num := hdr_number header |}.

Definition tx_env (t : Transaction) : TxEnv := {|
  te_caller := tx_from t;
  te_gas_limit := tx_gas_limit t;
  te_max_fee_per_gas := tx_max_fee_per_gas t;
  te_gas_priority_fee := Some (tx_max_priority_fee_per_gas t);
  te_kind := match tx_to t with Some to => TxCall to | None => TxCreate end;
  te_value := tx_value t;
  te_data := tx_payload t;
  te_access_list := map (fun item => (al_address item, al_storage_keys item)) (tx_access_list t);
  te_nonce := tx_nonce t;
  te_chain_id := Some (tx_chain_id t) |}.

(** The executor's state is changed only by the commit of a successful run. *)
Definition execute_transaction (s : RevmState) (header : BlockHeader) (t : Transaction)
    : res EvmError (ExecutionOutput * RevmState) :=
  if U64_MAX <? hdr_base_fee_per_gas header then Err (Execution "base fee exceeds EVM range")
  else
    match revm_build (tx_env t) with
    | Some err => Err (Execution err)
    | None =>
        let? (result, changes) := res_map_err Execution
          (revm_transact (revm_database s) (tx_chain_id t) (block_env header) (tx_env t)) in
        Ok ({| eo_success := er_success result;
               eo_gas_used := er_tx_gas_used result;
               eo_output := default [] (er_output result);
               eo_logs := map (fun log => {| log_address := log_address log;
                                             log_topics := log_topics log;
                                             log_data := log_data log |}) (er_logs result) |},
            revm_commit s changes)
    end.

(** [execute_block] of the trait: the transactions in order, and the gas
    summed.  The executor's state keeps what the transactions before an error
    have committed, so it is returned in every case. *)
Fixpoint execute_block_loop (header : BlockHeader) (ts : list Transaction) (gas_used : Z)
    (s : RevmState) : RevmState * res EvmError Z :=
  match ts with
  | [] => (s, Ok gas_used)
  | t :: rest =>
      match execute_transaction s header t with
      | Err e => (s, Err e)
      | Panic => (s, Panic)
      | Ok (result, s) =>
          match checked_add U64_MAX gas_used (eo_gas_used result) with
          | None => (s, Err (Execution "block gas overflow"))
          | Some gas_used => execute_block_loop header rest gas_used s
          end
      end
  end.

Definition execute_block (s : RevmState) (header : BlockHeader) (ts : list Transaction)
    : RevmState * res EvmError StateTransitionSummary :=
  let '(s, r) := execute_block_loop header ts 0 s in
  (s, let? gas_used := r in
      Ok {| sts_state_root := HASH_ZERO; sts_receipts_root := HASH_ZERO; sts_gas_used := gas_used;
            sts_burned_fees := 0; sts_miner_fees := 0 |}).

Definition hash_to_address (hash : Hash256) : Address := drop 12 hash.

(** ** Properties of the database *)

(** No slot is stored with the value zero. *)
Definition no_zero_slots (s : RevmState) : Prop :=
  map_Forall (fun _ a => map_Forall (fun _ v => u256_val v <> 0) (ra_storage a)) s.

Lemma commit_slots_no_zero slots st :
  map_Forall (fun _ v => u256_val v <> 0) st ->
  map_Forall (fun _ v => u256_val v <> 0) (fold_left commit_slot slots st).
Proof.
  revert st. induction slots as [|[k v] slots IH]; intros st H; [done|]. cbn [fold_left].
  apply IH. unfold commit_slot. cbn [fst snd]. destruct (Z.eqb_spec (u256_val v) 0).
  - by apply map_Forall_delete.
  - by apply map_Forall_insert_2.
Qed.

Lemma account_no_zero s a :
  no_zero_slots s -> map_Forall (fun _ v => u256_val v <> 0) (ra_storage (revm_account s a)).
Proof.
  intros H. unfold revm_account. destruct (s !! a) eqn:E; [by eapply H|apply map_Forall_empty].
Qed.

Lemma commit_no_zero s changes : no_zero_slots s -> no_zero_slots (revm_commit s changes).
Proof.
  revert s. induction changes as [|[a c] changes IH]; intros s H; [done|].
  cbn [revm_commit fold_left]. apply IH. unfold commit_account. destruct (ch_selfdestructed c).
  - by apply map_Forall_delete.
  - apply map_Forall_insert_2; [|done]. by apply commit_slots_no_zero, account_no_zero.
Qed.

(** The value a list of written slots leaves at an index: the last write. *)
Definition written (slots : list (u256 * u256)) (old : u256) (index : u256) : u256 :=
  fold_left (fun v kv => if decide (kv.1 = index) then kv.2 else v) slots old.

Lemma slot_read st kv index :
  default (u256_of 0) (commit_slot st kv !! index) =
  if decide (kv.1 = index) then kv.2 else default (u256_of 0) (st !! index).
Proof.
  unfold commit_slot. destruct kv as [k v]. cbn [fst snd].
  destruct (decide (k = index)) as [->|Hne]; destruct (Z.eqb_spec (u256_val v) 0) as [Hz|Hz].
  - rewrite lookup_delete_eq. simpl. apply u256_val_inj. rewrite Hz. apply u256_of_val. by vm_compute.
  - by rewrite lookup_insert_eq.
  - by rewrite lookup_delete_ne.
  - by rewrite lookup_insert_ne.
Qed.

Lemma slots_read slots st index :
  default (u256_of 0) (fold_left commit_slot slots st !! index) =
  written slots (default (u256_of 0) (st !! index)) index.
Proof.
  unfold written. revert st. induction slots as [|kv slots IH]; intros st; [done|].
  cbn [fold_left]. by rewrite IH, slot_read.
Qed.

Lemma commit_other s changes a :
  a ∉ map fst changes -> revm_commit s changes !! a = s !! a.
Proof.
  revert s. induction changes as [|[b c] changes IH]; intros s Ha; [done|].
  cbn [map fst] in Ha. rewrite not_elem_of_cons in Ha. destruct Ha as [Hb Ha].
  cbn [revm_commit fold_left]. unfold revm_commit in IH. rewrite IH by done.
  unfold commit_account. destruct (ch_selfdestructed c); [by apply lookup_delete_ne|].
  unfold revm_put_account. by rewrite lookup_insert_ne.
Qed.

Lemma revm_account_put s a b acc :
  revm_account (revm_put_account s a acc) b = if decide (b = a) then acc else revm_account s b.
Proof.
  unfold revm_account, revm_put_account. destruct (decide (b = a)) as [->|].
  - by rewrite lookup_insert_eq.
  - by rewrite lookup_insert_ne.
Qed.

(** The account a change leaves behind. *)
Definition committed (old : RevmAccount) (c : ChangedAccount) : option RevmAccount :=
  if ch_selfdestructed c then None
  else Some {| ra_nonce := ch_nonce c; ra_balance := ch_balance c;
               ra_code := default (ra_code old) (ch_code c);
               ra_storage := fold_left commit_slot (ch_storage c) (ra_storage old) |}.

Lemma commit_changed s changes a c :
  NoDup (map fst changes) -> (a, c) ∈ changes ->
  revm_commit s changes !! a = committed (revm_account s a) c.
Proof.
  revert s. induction changes as [|[b d] changes IH]; intros s Hnd Hin; [by apply elem_of_nil in Hin|].
  cbn [map fst] in Hnd. apply NoDup_cons in Hnd as [Hb Hnd].
  cbn [revm_commit fold_left]. fold (revm_commit (commit_account s (b, d)) changes).
  apply elem_of_cons in Hin as [[= <- <-]|Hin].
  - rewrite commit_other by done. unfold commit_account, committed.
    destruct (ch_selfdestructed c); [by rewrite lookup_delete_eq|].
    unfold revm_put_account. by rewrite lookup_insert_eq.
  - rewrite IH by done. f_equal.
    assert (a <> b) as Hne.
    { intros ->. apply Hb, list_elem_of_fmap. by exists (b, c). }
    unfold revm_account, commit_account. destruct (ch_selfdestructed d);
      [by rewrite lookup_delete_ne|]. unfold revm_put_account. by rewrite lookup_insert_ne.
Qed.

(** Committing the changes of an execution updates exactly the changed
    accounts: a self-destructed one disappears, any other gets the new nonce
    and balance, keeps its code unless new code is given, and reads at every
    slot the last value written or else the old one; accounts that are not
    listed are untouched, and a state without zero-valued slots stays one. *)
Theorem commit_exact s changes a c index :
  NoDup (map fst changes) -> (a, c) ∈ changes -> no_zero_slots s ->
  let s' := revm_commit s changes in
  no_zero_slots s' /\
  (forall b, b ∉ map fst changes -> s' !! b = s !! b) /\
  (ch_selfdestructed c = true -> s' !! a = None) /\
  (ch_selfdestructed c = false ->
     ra_nonce (revm_account s' a) = ch_nonce c /\
     ra_balance (revm_account s' a) = ch_balance c /\
     ra_code (revm_account s' a) = default (ra_code (revm_account s a)) (ch_code c) /\
     revm_storage s' a index = written (ch_storage c) (revm_storage s a index) index).
Proof.
  intros Hnd Hin Hz s'. pose proof (commit_changed s changes a c Hnd Hin) as E. fold s' in E.
  split; [by apply commit_no_zero|]. split; [intros; by apply commit_other|].
  unfold committed in E. split; intros Hs; rewrite Hs in E; [done|].
  unfold revm_storage. unfold revm_account at 1 2 3 5. rewrite E. cbn.
  split; [done|]. split; [done|]. split; [done|]. apply slots_read.
Qed.

(** Looking code up by hash returns the code of some account with that
    hash whenever an account has it: in particular the code hash that
    [basic] reports for an account resolves to code with this hash. *)
Theorem code_by_hash_resolves s a info :
  revm_basic s a = Some info ->
  exists code, revm_code_by_hash s (ai_code_hash info) = LegacyCode code /\
    keccak256 code = ai_code_hash info /\ (exists b acc, s !! b = Some acc /\ ra_code acc = code).
Proof.
  unfold revm_basic. destruct (s !! a) as [acc|] eqn:E; [|done]. intros [= <-]. cbn [ai_code_hash].
  unfold revm_code_by_hash.
  destruct (List.find _ (btree_iter s)) as [[b acc']|] eqn:Hf.
  - apply find_some in Hf as [Hin Hh]. cbn [snd] in Hh. apply bool_decide_eq_true in Hh.
    apply list_elem_of_In, elem_of_btree_iter in Hin. eauto 10.
  - exfalso. pose proof (find_none _ _ Hf (a, acc)) as Hn. cbn [snd] in Hn.
    rewrite bool_decide_eq_true_2 in Hn by done. discriminate Hn.
    apply list_elem_of_In. by apply elem_of_btree_iter.
Qed.

Lemma execute_transaction_gas s header t out s' :
  execute_transaction s header t = Ok (out, s') -> 0 <= eo_gas_used out <= tx_gas_limit t.
Proof.
  unfold execute_transaction. case_match; [done|]. destruct (revm_build _); [done|].
  destruct (revm_transact _ _ _ _) as [[r ch]|e|] eqn:E; cbn [res_map_err res_bind]; try done.
  intros [= <- _]. cbn [eo_gas_used]. by apply revm_gas in E.
Qed.

Lemma execute_transaction_total s header t : execute_transaction s header t <> Panic.
Proof.
  unfold execute_transaction. case_match; [done|]. destruct (revm_build _); [done|].
  pose proof (revm_total (revm_database s) (tx_chain_id t) (block_env header) (tx_env t)).
  by destruct (revm_transact _ _ _ _) as [[r ch]|e|].
Qed.

End evm.

(** A stand-in interpreter: it charges the intrinsic gas, moves the value and
    bumps the nonce of the caller. *)
Definition toy_transact (U : U256Ops) (db : Database) (c : Z) (b : BlockEnv) (t : TxEnv)
    : res string (ExecutionResult * list (Address * ChangedAccount)) :=
  if te_gas_limit t <? 21000 then Err "intrinsic gas too low"%string
  else
    match db_basic db (te_caller t) with
    | None => Err "lack of funds"%string
    | Some info =>
        Ok ({| er_success := true; er_tx_gas_used := 21000; er_output := None; er_logs := [] |},
            [(te_caller t, {| ch_selfdestructed := false; ch_nonce := te_nonce t + 1;
                              ch_balance := u256_saturating_sub (ai_balance info) (u256_of (te_value t));
                              ch_code := None; ch_storage := [(u256_of 1, u256_of (te_nonce t))] |})])
    end.

Program Definition toy_revm (U : U256Ops) : Revm := {|
  revm_build := fun _ => None; revm_transact := toy_transact U |}.
Next Obligation.
  intros U db c b t r ch. unfold toy_transact. destruct (Z.ltb_spec (te_gas_limit t) 21000); [done|].
  destruct (db_basic db (te_caller t)); [|done]. intros [= <- _]. cbn. lia.
Qed.
Next Obligation.
  intros U db c b t. unfold toy_transact. by destruct (_ <? _); [|destruct (db_basic db (te_caller t))].
Qed.

Definition sample_revm_state : gmap (list byte) (@RevmAccount u256_z) :=
  <[be_bytes 20 1 := {| ra_nonce := 4; ra_balance := @u256_of u256_z 100000; ra_code := B "code";
                        ra_storage := ∅ |}]> ∅.

Lemma commit_exact_witness :
  let c : @ChangedAccount u256_z := {| ch_selfdestructed := false; ch_nonce := 5;
    ch_balance := @u256_of u256_z 9; ch_code := None; ch_storage := [(@u256_of u256_z 1, @u256_of u256_z 0)] |} in
  ra_code (@revm_account u256_z (@revm_commit u256_z sample_revm_state [(be_bytes 20 1, c)]) (be_bytes 20 1))
    = B "code".
Proof.
  intros c.
  destruct (@commit_exact u256_z sample_revm_state [(be_bytes 20 1, c)] (be_bytes 20 1) c (@u256_of u256_z 1))
    as (_ & _ & _ & H).
  - apply NoDup_singleton.
  - by apply list_elem_of_singleton.
  - apply map_Forall_insert_2; [apply map_Forall_empty|apply map_Forall_empty].
  - destruct (H eq_refl) as (_ & _ & Hc & _). rewrite Hc. reflexivity.
Defined.

Lemma code_by_hash_resolves_witness :
  exists code, @revm_code_by_hash u256_z toy_digests sample_revm_state (@keccak256 toy_digests (B "code"))
    = LegacyCode code.
Proof.
  destruct (@code_by_hash_resolves u256_z toy_digests sample_revm_state (be_bytes 20 1)
    {| ai_balance := @u256_of u256_z 100000; ai_nonce := 4;
       ai_code_hash := @keccak256 toy_digests (B "code"); ai_code := Some (LegacyCode (B "code")) |})
    as (code & H & _); [reflexivity|]. exists code. exact H.
Defined.
