(* ===== verification/Difficulty.v ===== *)
(** The difficulty rule of [crates/blq-node/src/main.rs]: the header history
    behind a parent, the intervals and their median, the expected target of a
    child, and the checks of a candidate branch and of live timestamps. *)

From Stdlib Require Import ZArith Lia Sorting.Sorted Strings.String Strings.Byte.
From stdpp Require Import sorting gmap base list.
From S2P Require Import Prelude Externals Primitives Pow Consensus.
#[local] Open Scope Z_scope.

Definition MAX_LIVE_TIMESTAMP_FUTURE_DRIFT_SECONDS : Z := 30.

Record CandidateBranch := {
  cb_common_height : Z;
  cb_common_hash : Hash256;
  cb_suffix : list Block;
}.

(** [previous_header]: the lookup of a header by hash the caller passes. *)
Definition HeaderLookup : Type := Hash256 -> res string BlockHeader.

(** The loop that walks back from [cursor]: at most [n] lookups, none past
    the genesis. *)
Fixpoint history_loop (previous_header : HeaderLookup) (n : nat) (cursor : BlockHeader)
    (newest_to_oldest : list BlockHeader) : res string (list BlockHeader) :=
  match n with
  | O => Ok newest_to_oldest
  | S n =>
      if hdr_number cursor =? 0 then Ok newest_to_oldest
      else
        let? cursor := previous_header (hdr_parent_hash cursor) in
        history_loop previous_header n cursor (newest_to_oldest ++ [cursor])
  end.

Definition difficulty_history_headers_with_lookup (parent : BlockHeader)
    (previous_header : HeaderLookup) : res string (list BlockHeader) :=
  let? newest_to_oldest := history_loop previous_header BLOCK_TIME_V2_MEDIAN_WINDOW parent [parent] in
  Ok (rev newest_to_oldest).

(** The seconds between two headers, at least one. *)
Definition interval (a b : BlockHeader) : Z :=
  Z.max (sat_sub (hdr_timestamp_seconds b) (hdr_timestamp_seconds a)) 1.

(** [windows(2)] mapped to intervals. *)
Definition header_intervals (hs : list BlockHeader) : list Z :=
  map (fun pair => interval pair.1 pair.2) (zip hs (tail hs)).

(** The median interval of a history, oldest header first, and its latest. *)
Definition intervals_of_headers (headers : list BlockHeader) : res string (Z * Z) :=
  let intervals := header_intervals headers in
  let latest := default 1 (last intervals) in
  let intervals := sort_by Z.compare intervals in
  let? median := expect (intervals !! (length intervals / 2)%nat) in
  Ok (median, latest).

Definition difficulty_history_intervals_with_lookup (parent : BlockHeader)
    (previous_header : HeaderLookup) : res string (Z * Z) :=
  let? headers := difficulty_history_headers_with_lookup parent previous_header in
  intervals_of_headers headers.

Definition v2_active (child : BlockHeader) (block_time_v2_activation_height : option Z) : bool :=
  match block_time_v2_activation_height with
  | Some activation => activation <=? hdr_number child
  | None => false
  end.

Definition expected_difficulty_target_with_lookup (parent child : BlockHeader)
    (block_time_v2_activation_height : option Z) (previous_header : HeaderLookup)
    : res string Hash256 :=
  if hdr_number child =? 0 then Ok (hdr_difficulty_target parent)
  else
    let actual_seconds := interval parent child in
    if v2_active child block_time_v2_activation_height then
      let? (median_interval, latest_interval) :=
        difficulty_history_intervals_with_lookup parent previous_header in
      lift (next_block_difficulty_target_v2 (hdr_difficulty_target parent)
              median_interval latest_interval)
    else lift (next_block_difficulty_target (hdr_difficulty_target parent) actual_seconds).

(** The lookup of [expected_difficulty_target] is the storage's
    [difficulty_header_by_hash]. *)
Definition validate_difficulty_target (difficulty_header_by_hash : HeaderLookup)
    (parent child : BlockHeader) (block_time_v2_activation_height : option Z) : res string unit :=
  let? expected := expected_difficulty_target_with_lookup parent child
                     block_time_v2_activation_height difficulty_header_by_hash in
  if bool_decide (hdr_difficulty_target child = expected) then Ok tt
  else Err "block difficulty target does not match retarget rule"%string.

(** [now] is the clock, or [None] when it stands before the epoch. *)
Definition validate_live_timestamp_admission (now : option Z) (header : BlockHeader)
    : res string unit :=
  let now := default (hdr_timestamp_seconds header) now in
  if sat_add U64_MAX now MAX_LIVE_TIMESTAMP_FUTURE_DRIFT_SECONDS <? hdr_timestamp_seconds header
  then Err "block timestamp exceeds the live admission future-drift limit"%string
  else Ok tt.

Section branch.
Context {D : Digests}.

Fixpoint suffix_contiguous (parent : BlockHeader) (suffix : list Block) : res string unit :=
  match suffix with
  | [] => Ok tt
  | block :: rest =>
      if negb (hdr_number (blk_header block) =? sat_add U64_MAX (hdr_number parent) 1)
         || negb (bool_decide (hdr_parent_hash (blk_header block) = header_hash parent))
      then Err "candidate rejected: suffix parent linkage is not contiguous"%string
      else suffix_contiguous (blk_header block) rest
  end.

Definition validate_candidate_branch_shape (canonical : list Block) (branch : CandidateBranch)
    : res string unit :=
  if bool_decide (cb_suffix branch = []) then Err "candidate branch is empty"%string
  else
    let? ancestor := ok_or (canonical !! Z.to_nat (cb_common_height branch))
      "candidate common ancestor is absent from canonical storage"%string in
    if negb (bool_decide (header_hash (blk_header ancestor) = cb_common_hash branch))
    then Err "candidate common ancestor does not match canonical storage"%string
    else suffix_contiguous (blk_header ancestor) (cb_suffix branch).
End branch.

(** ** The history *)

(** [anc] are ancestors of [h], the nearest first, as [lookup] finds them. *)
Fixpoint linked (lookup : HeaderLookup) (h : BlockHeader) (anc : list BlockHeader) : Prop :=
  match anc with
  | [] => True
  | p :: anc => hdr_number h <> 0 /\ lookup (hdr_parent_hash h) = Ok p /\ linked lookup p anc
  end.

(** The ancestors fill the window of [n] headers, or reach the genesis. *)
Definition window_complete (n : nat) (h : BlockHeader) (anc : list BlockHeader) : Prop :=
  length anc = n \/ ((length anc <= n)%nat /\ hdr_number (default h (last anc)) = 0).

Lemma history_loop_exact lookup n h anc acc :
  linked lookup h anc -> window_complete n h anc ->
  history_loop lookup n h acc = Ok (acc ++ anc).
Proof.
  revert h n acc. induction anc as [|p anc IH]; intros h n acc Hl Hw.
  - rewrite app_nil_r. destruct n as [|n]; [done|]. cbn [history_loop].
    destruct Hw as [Hw|[_ Hw]]; [done|]. cbn in Hw. by rewrite Hw.
  - destruct Hl as (Hn & Hp & Hl). destruct n as [|n].
    { exfalso. destruct Hw as [Hw|[Hw _]]; cbn in Hw; lia. }
    cbn [history_loop]. rewrite (proj2 (Z.eqb_neq _ _) Hn), Hp. cbn [res_bind].
    rewrite (IH p n (acc ++ [p])); [by rewrite <- app_assoc|done|].
    destruct Hw as [Hw|[Hw Hz]]; [left; cbn in Hw; lia|right]. split; [cbn in Hw; lia|].
    destruct anc as [|q anc]; [exact Hz|]. change (p :: q :: anc) with ([p] ++ q :: anc) in Hz.
    rewrite last_app in Hz. by destruct (last (q :: anc)).
Qed.

Lemma history_headers_exact lookup parent anc :
  linked lookup parent anc -> window_complete BLOCK_TIME_V2_MEDIAN_WINDOW parent anc ->
  difficulty_history_headers_with_lookup parent lookup = Ok (rev anc ++ [parent]).
Proof.
  intros Hl Hw. unfold difficulty_history_headers_with_lookup.
  by rewrite (history_loop_exact lookup _ parent anc).
Qed.

Lemma header_intervals_cons x y hs :
  header_intervals (x :: y :: hs) = interval x y :: header_intervals (y :: hs).
Proof. done. Qed.

Lemma header_intervals_snoc hs a b :
  header_intervals ((hs ++ [a]) ++ [b]) = header_intervals (hs ++ [a]) ++ [interval a b].
Proof.
  induction hs as [|x hs IH]; [done|]. destruct hs as [|y hs]; [done|].
  cbn [app] in *. rewrite !header_intervals_cons, IH. done.
Qed.

Lemma length_header_intervals hs : length (header_intervals hs) = (length hs - 1)%nat.
Proof.
  unfold header_intervals. rewrite length_map, length_zip_with. destruct hs as [|x hs]; [done|]. cbn [tail length]. lia.
Qed.

(** ** The median *)

Definition count (P : Z -> bool) (l : list Z) : nat := length (List.filter P l).

(** [m] has rank [length l / 2] in [l]. *)
Definition median_of (l : list Z) (m : Z) : Prop :=
  m ∈ l /\ (count (fun x => (x <? m)%Z) l <= length l / 2)%nat /\
  (length l / 2 < count (fun x => (x <=? m)%Z) l)%nat.

Lemma count_perm P l1 l2 : l1 ≡ₚ l2 -> count P l1 = count P l2.
Proof.
  unfold count. induction 1 as [|x l1 l2 _ IH|x y l|l1 l2 l3 _ IH1 _ IH2]; cbn; [done| |..|congruence].
  - by destruct (P x); cbn; rewrite IH.
  - by destruct (P x), (P y).
Qed.

Lemma count_app P l1 l2 : count P (l1 ++ l2) = (count P l1 + count P l2)%nat.
Proof. unfold count. by rewrite List.filter_app, length_app. Qed.

Lemma count_all P l : Forall (fun x => P x = true) l -> count P l = length l.
Proof. unfold count. induction 1 as [|x l Hx _ IH]; cbn; [done|]. by rewrite Hx; cbn; rewrite IH. Qed.

Lemma count_none P l : Forall (fun x => P x = false) l -> count P l = 0%nat.
Proof. unfold count. induction 1 as [|x l Hx _ IH]; cbn; [done|]. by rewrite Hx. Qed.

Lemma count_le P l : (count P l <= length l)%nat.
Proof. apply List.filter_length_le. Qed.

(** Splitting a sorted list at an element. *)
Lemma sorted_split (l1 l2 : list Z) m :
  StronglySorted (cmp_le Z.compare) (l1 ++ m :: l2) ->
  Forall (fun x => x <= m) l1 /\ Forall (fun x => m <= x) l2.
Proof.
  intros H. split.
  - induction l1 as [|x l1 IH]; [constructor|]. cbn in H. inversion H as [|? ? Hs Hx]; subst.
    constructor; [|by apply IH]. rewrite Forall_forall in Hx.
    apply (Hx m). apply elem_of_app. right. by left.
  - induction l1 as [|x l1 IH]; cbn in H; inversion H as [|? ? Hs Hx]; subst; [exact Hx|by apply IH].
Qed.

Lemma sorted_median l m :
  sort_by Z.compare l !! (length l / 2)%nat = Some m -> median_of l m.
Proof.
  intros Hm. pose proof (sort_by_perm Z.compare l) as Hp.
  pose proof (sort_by_sorted Z.compare (cmp_key_preorder (fun x => x)) l) as Hs.
  unfold median_of. split.
  { rewrite <- Hp. by apply list_elem_of_lookup_2 in Hm. }
  rewrite <- !(count_perm _ _ _ Hp).
  pose proof (take_drop_middle _ _ _ Hm) as E. set (k := (length l / 2)%nat) in *.
  assert (length (take k (sort_by Z.compare l)) = k) as Hk.
  { rewrite length_take. apply lookup_lt_Some in Hm. lia. }
  rewrite <- E in Hs. apply sorted_split in Hs as [H1 H2]. rewrite <- E, !count_app.
  pose proof (count_le (fun x => x <? m) (take k (sort_by Z.compare l))).
  split.
  - rewrite (count_none _ (m :: _)); [lia|]. constructor; [lia|].
    eapply List.Forall_impl; [|exact H2]. cbn. lia.
  - rewrite (count_all (fun x => x <=? m) (take k _)).
    + unfold count. cbn [List.filter]. replace (m <=? m) with true by lia. cbn [length]. lia.
    + eapply List.Forall_impl; [|exact H1]. cbn. lia.
Qed.

Lemma history_intervals_exact lookup parent g anc :
  linked lookup parent (g :: anc) ->
  window_complete BLOCK_TIME_V2_MEDIAN_WINDOW parent (g :: anc) ->
  exists median, median_of (header_intervals (rev (g :: anc) ++ [parent])) median /\
    difficulty_history_intervals_with_lookup parent lookup = Ok (median, interval g parent).
Proof.
  intros Hl Hw. unfold difficulty_history_intervals_with_lookup.
  rewrite (history_headers_exact lookup parent (g :: anc)) by done. cbn [res_bind]. unfold intervals_of_headers.
  set (l := header_intervals _).
  assert (last l = Some (interval g parent)) as Hlast.
  { unfold l. cbn [rev]. rewrite header_intervals_snoc, last_app. done. }
  rewrite Hlast. cbn [default id]. rewrite length_sort_by.
  destruct (sort_by Z.compare l !! (length l / 2)%nat) as [m|] eqn:Em.
  - exists m. split; [by apply sorted_median|done].
  - exfalso. apply lookup_ge_None in Em. rewrite length_sort_by in Em.
    destruct l as [|x l']; [done|]. cbn [length] in Em.
    pose proof (Nat.div_lt (S (length l')) 2 ltac:(lia) ltac:(lia)). lia.
Qed.

(** C27: the expected target of a child.  With the ancestors of the parent as
    the lookup finds them, at most sixteen or back to the genesis: a genesis
    child keeps the target; before activation the per-block rule is applied to
    the child's own interval (at least one second); from the activation height
    on the V2 controller gets the interval of rank [length / 2] of the window
    and the interval of the parent itself; and a V2 child of the genesis, whose
    window holds no interval, panics. *)
Theorem expected_target_exact lookup parent child activation anc :
  linked lookup parent anc -> window_complete BLOCK_TIME_V2_MEDIAN_WINDOW parent anc ->
  let m := expected_difficulty_target_with_lookup parent child activation lookup in
  let target := hdr_difficulty_target parent in
  (hdr_number child = 0 -> m = Ok target) /\
  (hdr_number child <> 0 -> v2_active child activation = false ->
     m = lift (next_block_difficulty_target target (interval parent child))) /\
  (hdr_number child <> 0 -> v2_active child activation = true ->
     match anc with
     | [] => m = Panic
     | g :: _ => exists median, median_of (header_intervals (rev anc ++ [parent])) median /\
         m = lift (next_block_difficulty_target_v2 target median (interval g parent))
     end).
Proof.
  intros Hl Hw m target. subst m. unfold expected_difficulty_target_with_lookup.
  split; [by intros ->|]. split; intros Hn Hv; rewrite (proj2 (Z.eqb_neq _ _) Hn), Hv; [done|].
  destruct anc as [|g anc].
  - unfold difficulty_history_intervals_with_lookup.
    by rewrite (history_headers_exact lookup parent []).
  - destruct (history_intervals_exact lookup parent g anc Hl Hw) as (median & Hm & ->). eauto.
Qed.

Lemma branch_contiguous_ok {D : Digests} parent suffix :
  suffix_contiguous parent suffix = Ok tt <->
  forall i b, suffix !! i = Some b ->
    let prev := match i with O => parent | S j => default parent (blk_header <$> suffix !! j) end in
    hdr_number (blk_header b) = sat_add U64_MAX (hdr_number prev) 1 /\
    hdr_parent_hash (blk_header b) = header_hash prev.
Proof.
  revert parent. induction suffix as [|c suffix IH]; intros parent; cbn [suffix_contiguous].
  { split; [intros _ i b Hb; by rewrite lookup_nil in Hb|done]. }
  destruct (Z.eqb_spec (hdr_number (blk_header c)) (sat_add U64_MAX (hdr_number parent) 1)) as [En|En];
    case_bool_decide as Eh; cbn [negb orb].
  - rewrite IH. split.
    + intros H [|i] b Hb; [injection Hb as <-; done|]. cbn [lookup list_lookup] in Hb.
      specialize (H i b Hb). destruct i as [|i]; [exact H|]. cbv zeta in *.
      change ((c :: suffix) !! S i) with (suffix !! i).
      assert (is_Some (suffix !! i)) as [x Hx].
      { apply lookup_lt_is_Some. apply lookup_lt_Some in Hb. lia. }
      rewrite Hx in *. exact H.
    + intros H i b Hb. specialize (H (S i) b Hb). destruct i as [|i]; [exact H|]. cbv zeta in *.
      change ((c :: suffix) !! S i) with (suffix !! i) in H.
      assert (is_Some (suffix !! i)) as [x Hx].
      { apply lookup_lt_is_Some. apply lookup_lt_Some in Hb. lia. }
      rewrite Hx in *. exact H.
  - split; [done|]. intros H. specialize (H 0%nat c eq_refl). cbv zeta in H. by destruct H.
  - split; [done|]. intros H. specialize (H 0%nat c eq_refl). cbv zeta in H. by destruct H.
  - split; [done|]. intros H. specialize (H 0%nat c eq_refl). cbv zeta in H. by destruct H.
Qed.

(** The shape check of a candidate branch accepts exactly the nonempty
    suffixes that hang on the canonical block of the common height with the
    common hash, each block naming the hash of its predecessor and following
    its height. *)
Theorem branch_shape_exact {D : Digests} canonical branch :
  validate_candidate_branch_shape canonical branch = Ok tt <->
  cb_suffix branch <> [] /\
  exists ancestor, canonical !! Z.to_nat (cb_common_height branch) = Some ancestor /\
    header_hash (blk_header ancestor) = cb_common_hash branch /\
    forall i b, cb_suffix branch !! i = Some b ->
      let prev := match i with
                  | O => blk_header ancestor
                  | S j => default (blk_header ancestor) (blk_header <$> cb_suffix branch !! j)
                  end in
      hdr_number (blk_header b) = sat_add U64_MAX (hdr_number prev) 1 /\
      hdr_parent_hash (blk_header b) = header_hash prev.
Proof.
  unfold validate_candidate_branch_shape. case_bool_decide as Hs; [naive_solver|].
  destruct (canonical !! _) as [a|]; cbn [ok_or res_bind]; [|naive_solver].
  case_bool_decide as Hh; cbn [negb]; [|naive_solver].
  rewrite branch_contiguous_ok. split.
  - intros H. split; [done|]. exists a. done.
  - intros (_ & a' & [= <-] & _ & H). exact H.
Qed.

Lemma live_timestamp_ok now header :
  in_u64 (hdr_timestamp_seconds header) ->
  validate_live_timestamp_admission now header = Ok tt <->
  match now with Some now => hdr_timestamp_seconds header <= now + 30 | None => True end.
Proof.
  intros [_ Ht]. unfold validate_live_timestamp_admission, sat_add, MAX_LIVE_TIMESTAMP_FUTURE_DRIFT_SECONDS.
  destruct now as [now|]; cbn [default id].
  - destruct (Z.ltb_spec (Z.min (now + 30) U64_MAX) (hdr_timestamp_seconds header)) as [H|H].
    + split; [discriminate|intros; exfalso; lia].
    + split; [intros _; lia|reflexivity].
  - destruct (Z.ltb_spec (Z.min (hdr_timestamp_seconds header + 30) U64_MAX)
      (hdr_timestamp_seconds header)) as [H|H]; [exfalso; lia|]. split; reflexivity.
Qed.

(** ** Examples *)

Definition numbered_header (n timestamp : Z) : BlockHeader := {|
  hdr_parent_hash := be_bytes 32 n; hdr_number := n; hdr_state_root := HASH_ZERO;
  hdr_transactions_root := HASH_ZERO; hdr_receipts_root := HASH_ZERO;
  hdr_beneficiary := HASH_ZERO; hdr_difficulty_target := GENESIS_DIFFICULTY_TARGET;
  hdr_base_fee_per_gas := INITIAL_BASE_FEE_PER_GAS_BIX; hdr_gas_limit := GENESIS_GAS_LIMIT;
  hdr_gas_used := 0; hdr_timestamp_seconds := timestamp; hdr_pow_algorithm := [];
  hdr_pow_epoch := 0; hdr_extra_nonce := 0; hdr_mix_hash := HASH_ZERO; hdr_nonce := 0 |}.

Lemma expected_target_exact_witness :
  (exists median,
    expected_difficulty_target_with_lookup (numbered_header 1 15) (numbered_header 2 40) (Some 0)
      (fun _ => Ok (numbered_header 0 0)) =
    lift (next_block_difficulty_target_v2 GENESIS_DIFFICULTY_TARGET median 15)) /\
  expected_difficulty_target_with_lookup (numbered_header 0 0) (numbered_header 1 40) (Some 0)
    (fun _ => Ok (numbered_header 0 0)) = Panic.
Proof.
  split.
  - destruct (expected_target_exact (fun _ => Ok (numbered_header 0 0)) (numbered_header 1 15)
      (numbered_header 2 40) (Some 0) [numbered_header 0 0]) as (_ & _ & H).
    + split; [discriminate|split; [reflexivity|exact I]].
    + right. split; [cbn; unfold BLOCK_TIME_V2_MEDIAN_WINDOW; lia|reflexivity].
    + destruct H as (median & _ & H); [discriminate|reflexivity|]. exists median. exact H.
  - destruct (expected_target_exact (fun _ => Ok (numbered_header 0 0)) (numbered_header 0 0)
      (numbered_header 1 40) (Some 0) []) as (_ & _ & H).
    + exact I.
    + right. split; [cbn; unfold BLOCK_TIME_V2_MEDIAN_WINDOW; lia|reflexivity].
    + apply H; [discriminate|reflexivity].
Defined.
