(* ===== verification/BlockExec.v ===== *)
(** Block execution in [crates/blq-node/src/main.rs]: the EVM transition with
    its receipts and rewards, the roots of the resulting states, building a
    block on the current state and validating the state root of a block. *)

From Stdlib Require Import ZArith Lia Strings.String Strings.Byte.
From stdpp Require Import gmap list base fin_maps.
From S2P Require Import Prelude Externals Primitives Canonical Rlp RawTx Pow Consensus State.
From S2P Require Import StateRoot Transition Evm.
#[local] Open Scope Z_scope.

(** What execution reads from the node's storage. *)
Record ChainView {U : U256Ops} := {
  cv_header_by_number : Z -> res string BlockHeader;
  cv_account_snapshot : res string Accounts;
  cv_evm_state : res string RevmState;
}.

Record EvmSimulation {U : U256Ops} := {
  sim_state : RevmState;
  sim_receipts : list Receipt;
  sim_gas_used : Z;
}.

(** The locals of the transaction loop. *)
Record EvmRun {U : U256Ops} := {
  run_state : RevmState;
  run_gas_used : Z;
  run_receipts : list Receipt;
  run_gross_fees : Z;
  run_revm_tips : Z;
}.

Definition evm_error_message (e : EvmError) : string :=
  match e with
  | Execution m => ("transaction execution failed: " ++ m)%string
  | InvalidAddress => "invalid EVM address"%string
  end.

Definition is_evm_transaction (t : Transaction) : bool :=
  bool_decide (tx_to t = None) || negb (bool_decide (tx_payload t = [])).

Definition set_block_transactions (b : Block) (ts : list Transaction) : Block :=
  {| blk_header := blk_header b; blk_transactions := ts; blk_receipts := blk_receipts b |}.

(** The block with its receipts and the four derived header fields replaced. *)
Definition set_block_results (b : Block) (rs : list Receipt) (gas_used : Z)
    (transactions_root receipts_root state_root : Hash256) : Block :=
  let h := blk_header b in
  {| blk_header := {|
       hdr_parent_hash := hdr_parent_hash h; hdr_number := hdr_number h;
       hdr_state_root := state_root; hdr_transactions_root := transactions_root;
       hdr_receipts_root := receipts_root; hdr_beneficiary := hdr_beneficiary h;
       hdr_difficulty_target := hdr_difficulty_target h;
       hdr_base_fee_per_gas := hdr_base_fee_per_gas h; hdr_gas_limit := hdr_gas_limit h;
       hdr_gas_used := gas_used; hdr_timestamp_seconds := hdr_timestamp_seconds h;
       hdr_pow_algorithm := hdr_pow_algorithm h; hdr_pow_epoch := hdr_pow_epoch h;
       hdr_extra_nonce := hdr_extra_nonce h; hdr_mix_hash := hdr_mix_hash h;
       hdr_nonce := hdr_nonce h |};
     blk_transactions := blk_transactions b; blk_receipts := rs |}.

Section block_exec.
Context {D : Digests} {U : U256Ops} {R : Revm}.

(** One transaction of the loop. *)
Definition evm_round (header : BlockHeader) (run : EvmRun) (t : Transaction) : res string EvmRun :=
  res_map_err consensus_message (validate_transaction_fee t (hdr_base_fee_per_gas header)) ;?
  let? (output, state) :=
    res_map_err evm_error_message (execute_transaction (run_state run) header t) in
  let? gas_used := ok_or (checked_add U64_MAX (run_gas_used run) (eo_gas_used output))
                     "block gas overflow"%string in
  let receipt := {|
    rc_transaction_hash := tx_rpc_hash t; rc_success := eo_success output;
    rc_gas_used := eo_gas_used output; rc_logs_root := logs_root (eo_logs output);
    rc_logs := eo_logs output |} in
  let price := effective_gas_price t (hdr_base_fee_per_gas header) in
  Ok {| run_state := state;
        run_gas_used := gas_used;
        run_receipts := run_receipts run ++ [receipt];
        run_gross_fees := sat_add U128_MAX (run_gross_fees run)
                            (gas_fee (eo_gas_used output) price);
        run_revm_tips := sat_add U128_MAX (run_revm_tips run)
                           (gas_fee (eo_gas_used output)
                              (sat_sub price (hdr_base_fee_per_gas header))) |}.

(** The reward of the beneficiary, whose revm tips are taken back first. *)
Definition evm_reward (header : BlockHeader) (parent_timestamp : Z) (run : EvmRun) : RevmState :=
  let '(_, miner_fee) :=
    split_fee (fee_split_for_utilization
                 (utilization_basis_points (run_gas_used run) (hdr_gas_limit header)))
              (run_gross_fees run) in
  let beneficiary := beneficiary_address header in
  let account := revm_account (run_state run) beneficiary in
  let reward := sat_add U128_MAX
    (block_reward_for_interval_bix parent_timestamp (hdr_timestamp_seconds header)) miner_fee in
  revm_put_account (run_state run) beneficiary {|
    ra_nonce := ra_nonce account;
    ra_balance := u256_saturating_add
      (u256_saturating_sub (ra_balance account) (u256_of (run_revm_tips run))) (u256_of reward);
    ra_code := ra_code account; ra_storage := ra_storage account |}.

Definition evm_transition_run (state : RevmState) (block : Block) (parent_timestamp : Z)
    : res string (RevmState * (list Receipt * Z)) :=
  let header := blk_header block in
  let? run := fold_left (fun acc t => let? run := acc in evm_round header run t)
    (blk_transactions block)
    (Ok {| run_state := state; run_gas_used := 0; run_receipts := [];
           run_gross_fees := 0; run_revm_tips := 0 |}) in
  if hdr_gas_limit header <? run_gas_used run then Err "block gas used exceeds gas limit"%string
  else Ok (evm_reward header parent_timestamp run, (run_receipts run, run_gas_used run)).

(** The state is moved into the executor and back: after an error the
    caller's state is the default one. *)
Definition execute_evm_state_transition_in_place (state : RevmState) (block : Block)
    (parent_timestamp : Z) : RevmState * res string (list Receipt * Z) :=
  match evm_transition_run state block parent_timestamp with
  | Ok (state, r) => (state, Ok r)
  | Err e => (∅, Err e)
  | Panic => (∅, Panic)
  end.

Definition simulate_evm_state_transition_from_state (state : RevmState) (block : Block)
    (parent_timestamp : Z) : res string EvmSimulation :=
  let '(state, r) := execute_evm_state_transition_in_place state block parent_timestamp in
  let? (receipts, gas_used) := r in
  Ok {| sim_state := state; sim_receipts := receipts; sim_gas_used := gas_used |}.

(** The timestamp of the block below, zero for the genesis. *)
Definition parent_timestamp_of (view : ChainView) (block : Block) : res string Z :=
  let number := hdr_number (blk_header block) in
  if number =? 0 then Ok 0
  else let? header := cv_header_by_number view (number - 1) in Ok (hdr_timestamp_seconds header).

Definition simulate_evm_state_transition (view : ChainView) (block : Block)
    : res string EvmSimulation :=
  let? parent_timestamp := parent_timestamp_of view block in
  let? state := cv_evm_state view in
  simulate_evm_state_transition_from_state state block parent_timestamp.

Definition simulate_state_transition (view : ChainView) (block : Block)
    : res string (Accounts * list Receipt * Z) :=
  let? parent_timestamp := parent_timestamp_of view block in
  let? accounts := cv_account_snapshot view in
  simulate_state_transition_from_accounts accounts block parent_timestamp.

(** ** Roots of the EVM state *)

(** The slots, keyed and valued by their 32 big-endian bytes. *)
Definition snapshot_slots (storage : gmap u256 u256) : gmap (list byte) Hash256 :=
  list_to_map (map (fun kv => (u256_to_be kv.1, u256_to_be kv.2)) (map_to_list storage)).

Definition snapshot_account (account : RevmAccount) : res string EvmAccountSnapshot :=
  if U128_MAX <? u256_val (ra_balance account)
  then Err "EVM balance exceeds BLQ account range"%string
  else Ok (u256_val (ra_balance account), ra_nonce account, ra_code account,
           snapshot_slots (ra_storage account)).

Definition evm_accounts_from_revm_state (state : RevmState)
    : res string (gmap (list byte) EvmAccountSnapshot) := try_map snapshot_account state.

Definition evm_state_root_from_revm_state (state : RevmState) : res string Hash256 :=
  let? accounts := evm_accounts_from_revm_state state in
  Ok (evm_state_root_from_accounts accounts).

(** ** Building and validating a block *)

Definition validate_state_root (view : ChainView) (block : Block) : res string unit :=
  let h := blk_header block in
  if existsb is_evm_transaction (blk_transactions block) then
    let? simulation := simulate_evm_state_transition view block in
    let? expected := evm_state_root_from_revm_state (sim_state simulation) in
    if negb (hdr_gas_used h =? sim_gas_used simulation)
    then Err "block gas used does not match EVM execution"%string
    else if negb (bool_decide (blk_receipts block = sim_receipts simulation))
    then Err "block receipts do not match EVM transaction execution"%string
    else if negb (bool_decide (hdr_transactions_root h = transactions_root (blk_transactions block)))
    then Err "block transactions root does not match transactions"%string
    else if negb (bool_decide (hdr_receipts_root h = receipts_root (blk_receipts block)))
    then Err "block receipts root does not match receipts"%string
    else if negb (bool_decide (hdr_state_root h = expected))
    then Err "block EVM state root does not match execution"%string
    else Ok tt
  else
    let? (accounts, receipts, gas_used) := simulate_state_transition view block in
    let expected := state_root_from_accounts accounts in
    if negb (hdr_gas_used h =? gas_used)
    then Err "block gas used does not match execution"%string
    else if negb (bool_decide (blk_receipts block = receipts))
    then Err "block receipts do not match transaction execution"%string
    else if negb (bool_decide (hdr_transactions_root h = transactions_root (blk_transactions block)))
    then Err "block transactions root does not match transactions"%string
    else if negb (bool_decide (hdr_receipts_root h = receipts_root (blk_receipts block)))
    then Err "block receipts root does not match receipts"%string
    else if negb (bool_decide (hdr_state_root h = expected))
    then Err "block state root does not match execution state"%string
    else Ok tt.

Definition build_stateful_block (view : ChainView) (block : Block) (ts : list Transaction)
    : res string Block :=
  let block := set_block_transactions block ts in
  if existsb is_evm_transaction (blk_transactions block) then
    let? simulation := simulate_evm_state_transition view block in
    let? state_root := evm_state_root_from_revm_state (sim_state simulation) in
    Ok (set_block_results block (sim_receipts simulation) (sim_gas_used simulation)
          (transactions_root (blk_transactions block)) (receipts_root (sim_receipts simulation))
          state_root)
  else
    let? (accounts, receipts, gas_used) := simulate_state_transition view block in
    Ok (set_block_results block receipts gas_used
          (transactions_root (blk_transactions block)) (receipts_root receipts)
          (state_root_from_accounts accounts)).

Definition build_stateful_block_from_accounts (accounts : Accounts) (block : Block)
    (ts : list Transaction) (parent_timestamp : Z) : res string Block :=
  let block := set_block_transactions block ts in
  let? (next_accounts, receipts, gas_used) :=
    simulate_state_transition_from_accounts accounts block parent_timestamp in
  Ok (set_block_results block receipts gas_used
        (transactions_root (blk_transactions block)) (receipts_root receipts)
        (state_root_from_accounts next_accounts)).

End block_exec.

(** ** The EVM transition *)

Section evm_transition.
Context {D : Digests} {U : U256Ops} {R : Revm}.

Definition evm_fee (header : BlockHeader) (tr : Transaction * Receipt) : Z :=
  gas_fee (rc_gas_used tr.2) (effective_gas_price tr.1 (hdr_base_fee_per_gas header)).
Definition evm_tip (header : BlockHeader) (tr : Transaction * Receipt) : Z :=
  gas_fee (rc_gas_used tr.2)
    (sat_sub (effective_gas_price tr.1 (hdr_base_fee_per_gas header)) (hdr_base_fee_per_gas header)).

(** A receipt is the one of its transaction. *)
Record receipt_of (header : BlockHeader) (t : Transaction) (r : Receipt) : Prop := {
  ro_hash : rc_transaction_hash r = tx_rpc_hash t;
  ro_gas : 0 <= rc_gas_used r <= tx_gas_limit t;
  ro_logs : rc_logs_root r = logs_root (rc_logs r);
  ro_fee : validate_transaction_fee t (hdr_base_fee_per_gas header) = Ok tt;
}.

(** What a loop over [ts] from [run0] to [run] did. *)
Record run_spec (header : BlockHeader) (ts : list Transaction) (run0 run : EvmRun)
    (rs : list Receipt) : Prop := {
  rs_receipts : run_receipts run = run_receipts run0 ++ rs;
  rs_each : Forall2 (receipt_of header) ts rs;
  rs_gas : run_gas_used run = run_gas_used run0 + sumZ (map rc_gas_used rs);
  rs_gas_max : run_gas_used run0 <= U64_MAX -> run_gas_used run <= U64_MAX;
  rs_gross : run_gross_fees run =
    fold_left (sat_add U128_MAX) (map (evm_fee header) (zip ts rs)) (run_gross_fees run0);
  rs_tips : run_revm_tips run =
    fold_left (sat_add U128_MAX) (map (evm_tip header) (zip ts rs)) (run_revm_tips run0);
  rs_exec : execute_block_loop header ts (run_gas_used run0) (run_state run0) =
    (run_state run, Ok (run_gas_used run));
}.

Lemma evm_round_spec header run0 run t :
  evm_round header run0 t = Ok run -> exists r, run_spec header [t] run0 run [r].
Proof.
  unfold evm_round. intros E. apply res_bind_ok in E as ([] & Hfee & E).
  apply res_map_err_ok in Hfee. apply res_bind_ok in E as ([out s] & Hx & E).
  apply res_map_err_ok in Hx. apply res_bind_ok in E as (g & Hg & E).
  destruct (checked_add _ _ _) as [g'|] eqn:Hc; [|discriminate Hg]. injection Hg as ->.
  injection E as <-. eexists. split; cbn [run_receipts run_gas_used run_gross_fees run_revm_tips run_state].
  - reflexivity.
  - constructor; [|constructor].
    split; [done|by apply execute_transaction_gas in Hx|done|exact Hfee].
  - unfold checked_add in Hc. destruct (Z.leb_spec (run_gas_used run0 + eo_gas_used out) U64_MAX); [|done].
    injection Hc as <-. cbn. lia.
  - unfold checked_add in Hc. destruct (Z.leb_spec (run_gas_used run0 + eo_gas_used out) U64_MAX); [|done].
    injection Hc as <-. done.
  - reflexivity.
  - reflexivity.
  - cbn [execute_block_loop]. by rewrite Hx, Hc.
Qed.

Lemma run_spec_cons header t ts run0 run1 run r rs :
  run_spec header [t] run0 run1 [r] -> run_spec header ts run1 run rs ->
  run_spec header (t :: ts) run0 run (r :: rs).
Proof.
  intros [H1 H2 H3 H4 H5 H6 H7] [G1 G2 G3 G4 G5 G6 G7]. split.
  - by rewrite G1, H1, <- app_assoc.
  - constructor; [by inversion H2|done].
  - rewrite G3, H3. cbn [map]. rewrite !sumZ_cons. change (sumZ []) with 0. lia.
  - intros H. apply G4, H4, H.
  - rewrite G5, H5. done.
  - rewrite G6, H6. done.
  - cbn [execute_block_loop] in *. destruct (execute_transaction (run_state run0) header t) as [[o s]| |];
      try discriminate H7.
    destruct (checked_add U64_MAX (run_gas_used run0) (eo_gas_used o)); try discriminate H7.
    injection H7 as -> ->. exact G7.
Qed.

Lemma evm_rounds_spec header ts run0 run :
  fold_left (fun acc t => let? run := acc in evm_round header run t) ts (Ok run0) = Ok run ->
  exists rs, run_spec header ts run0 run rs.
Proof.
  revert run0. induction ts as [|t ts IH]; intros run0 E.
  - injection E as <-. exists []. split; try done; cbn; try lia. by rewrite app_nil_r.
  - apply (fold_res_cons_ok (evm_round header)) in E as (run1 & H1 & E).
    apply evm_round_spec in H1 as [r H1]. apply IH in E as [rs E]. exists (r :: rs).
    by eapply run_spec_cons.
Qed.

Lemma fold_wrap_sum rs a :
  0 <= a -> Forall (fun r => 0 <= rc_gas_used r) rs -> a + sumZ (map rc_gas_used rs) <= U64_MAX ->
  fold_left (fun total r => wrap64 (total + rc_gas_used r)) rs a = a + sumZ (map rc_gas_used rs).
Proof.
  intros Ha Hr. revert a Ha. induction Hr as [|r rs Hr Hrs IH]; intros a Ha Hs; [cbn; lia|].
  cbn [map fold_left] in *. rewrite sumZ_cons in *.
  assert (0 <= sumZ (map rc_gas_used rs)) by (apply sumZ_nonneg, Forall_map; done).
  rewrite wrap64_small by (unfold in_u64; lia). rewrite IH by lia. lia.
Qed.

Lemma receipts_gas_nonneg header ts rs :
  Forall2 (receipt_of header) ts rs -> Forall (fun r => 0 <= rc_gas_used r) rs.
Proof. induction 1 as [|t r ts rs H _ IH]; constructor; [apply (ro_gas _ _ _ H)|done]. Qed.

(** The balance the beneficiary ends with. *)
Definition rewarded (before tips reward : Z) : Z :=
  Z.min (Z.max (before - tips) 0 + reward) U256_MAX.

Lemma fold_sat_range (l : list Z) a : in_u128 a -> Forall (fun z => 0 <= z) l -> 
  in_u128 (fold_left (sat_add U128_MAX) l a).
Proof.
  intros Ha Hl. revert a Ha. induction Hl as [|z l Hz _ IH]; intros a Ha; [done|].
  cbn [fold_left]. apply IH. ints. lia.
Qed.

Lemma gas_fee_range g p : 0 <= g -> 0 <= p -> in_u128 (gas_fee g p).
Proof. unfold gas_fee. ints. nia. Qed.

Lemma execute_in_place_inv state block pt state' rs g :
  execute_evm_state_transition_in_place state block pt = (state', Ok (rs, g)) ->
  exists run,
    run_spec (blk_header block) (blk_transactions block)
      {| run_state := state; run_gas_used := 0; run_receipts := [];
         run_gross_fees := 0; run_revm_tips := 0 |} run rs /\
    g = run_gas_used run /\ g <= hdr_gas_limit (blk_header block) /\
    state' = evm_reward (blk_header block) pt run.
Proof.
  unfold execute_evm_state_transition_in_place.
  destruct (evm_transition_run state block pt) as [[s r]| |] eqn:E; try discriminate.
  intros [= -> ->]. unfold evm_transition_run in E. apply res_bind_ok in E as (run & Hf & E).
  destruct (Z.ltb_spec (hdr_gas_limit (blk_header block)) (run_gas_used run)); [discriminate E|].
  injection E as <- <- <-. apply evm_rounds_spec in Hf as [rs Hf]. exists run.
  rewrite (rs_receipts _ _ _ _ _ Hf) in *. done.
Qed.

Lemma reward_range pt t : in_u128 (block_reward_for_interval_bix pt t).
Proof.
  unfold block_reward_for_interval_bix, BLQ_ISSUANCE_PER_INTERVAL_BIX, BIX_PER_BLQ,
    MAX_REWARD_INTERVAL_SECONDS. ints. dlia.
Qed.

(** Amounts that are never negative. *)
Definition amounts_nonneg (block : Block) : Prop :=
  0 <= hdr_base_fee_per_gas (blk_header block) /\
  Forall (fun t => 0 <= tx_max_fee_per_gas t /\ 0 <= tx_max_priority_fee_per_gas t)
    (blk_transactions block).

Lemma fees_nonneg block rs :
  amounts_nonneg block -> Forall2 (receipt_of (blk_header block)) (blk_transactions block) rs ->
  Forall (fun z => 0 <= z)
    (map (evm_fee (blk_header block)) (zip (blk_transactions block) rs)) /\
  Forall (fun z => 0 <= z)
    (map (evm_tip (blk_header block)) (zip (blk_transactions block) rs)).
Proof.
  intros [Hb Ht] H. induction H as [|t r ts rs Hr _ IH]; [split; constructor|].
  inversion Ht as [|? ? [H1 H2] Ht']; subst. destruct (IH Ht') as [IH1 IH2].
  pose proof (ro_gas _ _ _ Hr) as [Hg _]. cbn [zip_with map].
  split; (constructor; [|assumption]); unfold evm_fee, evm_tip; cbn [fst snd]; apply gas_fee_range;
    try done; unfold effective_gas_price, sat_add, sat_sub, U128_MAX; lia.
Qed.

(** C26: the EVM transition.  A success yields one receipt per transaction in
    order, with its hash, the root of its logs and a gas use within its limit;
    the gas of the block is the sum of the receipts' and within the block's
    limit; the state is the one the block executor reaches, changed at the
    beneficiary only, whose nonce, code and slots stay and whose balance loses
    revm's tips and gains the issuance and the miner share recorded by
    [block_supply_delta].  After an error the caller's state is the empty one. *)
Theorem evm_transition_sound state block pt state' r :
  amounts_nonneg block ->
  execute_evm_state_transition_in_place state block pt = (state', r) ->
  match r with
  | Ok (rs, g) =>
      let header := blk_header block in
      let ts := blk_transactions block in
      let beneficiary := beneficiary_address header in
      Forall2 (receipt_of header) ts rs /\
      g = sumZ (map rc_gas_used rs) /\ g <= hdr_gas_limit header /\
      exists s1, execute_block_loop header ts 0 state = (s1, Ok g) /\
        (forall a, a <> beneficiary -> state' !! a = s1 !! a) /\
        let before := revm_account s1 beneficiary in
        let after := revm_account state' beneficiary in
        let '(subsidy, burned) :=
          block_supply_delta {| blk_header := header; blk_transactions := ts; blk_receipts := rs |} pt in
        let gross := fold_left (sat_add U128_MAX) (map (evm_fee header) (zip ts rs)) 0 in
        let tips := fold_left (sat_add U128_MAX) (map (evm_tip header) (zip ts rs)) 0 in
        ra_nonce after = ra_nonce before /\ ra_code after = ra_code before /\
        ra_storage after = ra_storage before /\
        u256_val (ra_balance after) =
          rewarded (u256_val (ra_balance before)) tips
            (sat_add U128_MAX subsidy (sat_sub gross burned))
  | _ => state' = ∅
  end.
Proof.
  intros Hpos E. destruct r as [[rs g]| |].
  2, 3: unfold execute_evm_state_transition_in_place in E;
    destruct (evm_transition_run state block pt) as [[s r]| |]; congruence.
  apply execute_in_place_inv in E as (run & [_ He Hg Hmax Hgross Htips Hx] & -> & Hlim & ->).
  cbn [run_gas_used run_state run_gross_fees run_revm_tips] in *. rewrite Z.add_0_l in Hg.
  specialize (Hmax ltac:(by vm_compute)). cbv zeta. split; [exact He|]. split; [exact Hg|].
  split; [exact Hlim|]. exists (run_state run). split; [exact Hx|].
  set (header := blk_header block) in *. set (b := beneficiary_address header).
  destruct (fees_nonneg block rs Hpos He) as [Hf1 Hf2]. fold header in Hf1, Hf2.
  pose proof (fold_sat_range _ 0 ltac:(by vm_compute) Hf1) as R1. rewrite <- Hgross in R1.
  pose proof (fold_sat_range _ 0 ltac:(by vm_compute) Hf2) as R2. rewrite <- Htips in R2.
  unfold block_supply_delta. cbn [blk_header blk_transactions blk_receipts].
  rewrite fold_wrap_sum, Z.add_0_l, <- Hg; [|done|by eapply receipts_gas_nonneg|lia].
  fold (evm_fee header). rewrite <- Hgross, <- Htips. unfold evm_reward. fold b.
  set (split := fee_split_for_utilization _). unfold split_fee. cbv zeta.
  set (burn := sat_mul _ _ _ / 100). set (subsidy := block_reward_for_interval_bix _ _).
  assert (in_u128 (sat_add U128_MAX subsidy (sat_sub (run_gross_fees run) burn))) as Hr.
  { pose proof (reward_range pt (hdr_timestamp_seconds header)). fold subsidy in H.
    clearbody subsidy burn. ints. lia. }
  split; [intros a Ha; unfold revm_put_account; by rewrite lookup_insert_ne|].
  rewrite !revm_account_put, !decide_True by done.
  cbn [ra_nonce ra_code ra_storage ra_balance]. split; [done|]. split; [done|]. split; [done|].
  assert (U128_MAX < U256_MAX) as HU by (by vm_compute).
  rewrite u256_saturating_add_val, u256_saturating_sub_val, !u256_of_val by (unfold in_u128 in *; lia).
  done.
Qed.

End evm_transition.

(** ** Building and validating *)

Section build.
Context {D : Digests} {U : U256Ops} {R : Revm}.

(** Neither the receipts nor the derived header fields influence execution. *)
Lemma simulate_evm_set_results view b rs g tr rr sr :
  simulate_evm_state_transition view (set_block_results b rs g tr rr sr) =
  simulate_evm_state_transition view b.
Proof. reflexivity. Qed.

Lemma simulate_set_results view b rs g tr rr sr :
  simulate_state_transition view (set_block_results b rs g tr rr sr) =
  simulate_state_transition view b.
Proof. reflexivity. Qed.

(** C3: a block built on the current state is accepted by the state
    validation on the same state, whatever its transactions are; building
    changes nothing but the transactions, the receipts and the four derived
    header fields; and for plain blocks the builder that is handed the accounts
    agrees with the one that reads them from storage. *)
Theorem build_then_validate view block ts block' :
  build_stateful_block view block ts = Ok block' ->
  validate_state_root view block' = Ok tt /\
  (exists rs g tr rr sr, block' = set_block_results (set_block_transactions block ts) rs g tr rr sr) /\
  (existsb is_evm_transaction ts = false ->
   exists accounts pt,
     cv_account_snapshot view = Ok accounts /\ parent_timestamp_of view block = Ok pt /\
     build_stateful_block_from_accounts accounts block ts pt = Ok block').
Proof.
  unfold build_stateful_block. cbn [blk_transactions set_block_transactions]. intros E.
  destruct (existsb is_evm_transaction ts) eqn:Hev.
  - apply res_bind_ok in E as (sim & Hsim & E). apply res_bind_ok in E as (root & Hroot & [= <-]).
    split; [|split; [by eauto 10|done]].
    unfold validate_state_root. cbn [blk_transactions set_block_results set_block_transactions].
    rewrite Hev, simulate_evm_set_results, Hsim. cbn [res_bind]. rewrite Hroot. cbn [res_bind].
    cbn [blk_header blk_receipts hdr_gas_used hdr_transactions_root hdr_receipts_root hdr_state_root].
    rewrite Z.eqb_refl, !bool_decide_eq_true_2 by done. reflexivity.
  - apply res_bind_ok in E as ([[m rs] g] & Hsim & [= <-]). split; [|split; [by eauto 10|intros _]].
    + unfold validate_state_root. cbn [blk_transactions set_block_results set_block_transactions].
      rewrite Hev, simulate_set_results, Hsim. cbn [res_bind].
      cbn [blk_header blk_receipts hdr_gas_used hdr_transactions_root hdr_receipts_root hdr_state_root].
      rewrite Z.eqb_refl, !bool_decide_eq_true_2 by done. reflexivity.
    + unfold simulate_state_transition in Hsim. apply res_bind_ok in Hsim as (pt & Hpt & Hsim).
      apply res_bind_ok in Hsim as (accounts & Ha & Hsim). exists accounts, pt.
      split; [exact Ha|]. split; [exact Hpt|].
      unfold build_stateful_block_from_accounts. rewrite Hsim. reflexivity.
Qed.

(** The verdict of [validate_state_root], for the callers that replay. *)
Record commits_to (block : Block) (rs : list Receipt) (g : Z) (root : Hash256) : Prop := {
  ct_gas : hdr_gas_used (blk_header block) = g;
  ct_receipts : blk_receipts block = rs;
  ct_tx_root : hdr_transactions_root (blk_header block) = transactions_root (blk_transactions block);
  ct_receipts_root : hdr_receipts_root (blk_header block) = receipts_root (blk_receipts block);
  ct_state_root : hdr_state_root (blk_header block) = root;
}.

Lemma validate_state_root_ok view block :
  validate_state_root view block = Ok tt <->
  (if existsb is_evm_transaction (blk_transactions block) then
     exists sim root, simulate_evm_state_transition view block = Ok sim /\
       evm_state_root_from_revm_state (sim_state sim) = Ok root /\
       commits_to block (sim_receipts sim) (sim_gas_used sim) root
   else
     exists m rs g, simulate_state_transition view block = Ok (m, rs, g) /\
       commits_to block rs g (state_root_from_accounts m)).
Proof.
  unfold validate_state_root. destruct (existsb _ _).
  - split.
    + intros E. apply res_bind_ok in E as (sim & Hsim & E). apply res_bind_ok in E as (root & Hroot & E).
      exists sim, root. split; [done|]. split; [done|].
      destruct (Z.eqb_spec (hdr_gas_used (blk_header block)) (sim_gas_used sim)); [|discriminate E].
      repeat (case_bool_decide; cbn [negb] in E; [|discriminate E]). done.
    + intros (sim & root & -> & Hroot & [H1 H2 H3 H4 H5]). cbn [res_bind]. rewrite Hroot. cbn [res_bind].
      by rewrite H1, Z.eqb_refl, !bool_decide_eq_true_2.
  - split.
    + intros E. apply res_bind_ok in E as ([[m rs] g] & Hsim & E). exists m, rs, g. split; [done|].
      destruct (Z.eqb_spec (hdr_gas_used (blk_header block)) g); [|discriminate E].
      repeat (case_bool_decide; cbn [negb] in E; [|discriminate E]). done.
    + intros (m & rs & g & -> & [H1 H2 H3 H4 H5]). cbn [res_bind].
      by rewrite H1, Z.eqb_refl, !bool_decide_eq_true_2.
Qed.

End build.

(** ** Examples *)

Definition sample_call : Transaction := {|
  tx_chain_id := MAINNET_CHAIN_ID; tx_transaction_type := 2; tx_nonce := 4;
  tx_from := be_bytes 20 1; tx_to := Some (be_bytes 20 2); tx_value := 10;
  tx_gas_limit := 30000; tx_max_fee_per_gas := 2000000001;
  tx_max_priority_fee_per_gas := 33; tx_payload := [x01]; tx_access_list := [];
  tx_signature := None; tx_external_hash := None |}.

Definition sample_call_block : Block := {|
  blk_header := sample_header; blk_transactions := [sample_call]; blk_receipts := [] |}.

Definition sample_view : @ChainView u256_z := {|
  cv_header_by_number := fun _ => Ok sample_header;
  cv_account_snapshot := Ok sample_accounts;
  cv_evm_state := Ok sample_revm_state |}.

Lemma evm_transition_sound_witness :
  exists s' rs g,
    @execute_evm_state_transition_in_place toy_digests u256_z (toy_revm u256_z) sample_revm_state
      sample_call_block 0 = (s', Ok (rs, g)) /\ g <= 30000000.
Proof.
  destruct (@execute_evm_state_transition_in_place toy_digests u256_z (toy_revm u256_z)
    sample_revm_state sample_call_block 0) as [s' [[rs g]|e|]] eqn:E.
  - exists s', rs, g. split; [reflexivity|].
    refine (proj1 (proj2 (proj2 (@evm_transition_sound toy_digests u256_z (toy_revm u256_z)
      sample_revm_state sample_call_block 0 s' (Ok (rs, g)) _ E)))).
    split; [vm_compute; discriminate|]. repeat constructor; vm_compute; discriminate.
  - exfalso. apply (f_equal (fun x => is_ok x.2)) in E. vm_compute in E. discriminate E.
  - exfalso. apply (f_equal (fun x => is_ok x.2)) in E. vm_compute in E. discriminate E.
Defined.

Lemma build_then_validate_witness :
  exists block', @build_stateful_block toy_digests u256_z (toy_revm u256_z) sample_view
      sample_call_block [sample_call] = Ok block' /\
    @validate_state_root toy_digests u256_z (toy_revm u256_z) sample_view block' = Ok tt.
Proof.
  assert (exists block', @build_stateful_block toy_digests u256_z (toy_revm u256_z) sample_view
      sample_call_block [sample_call] = Ok block') as [block' E] by (apply is_ok_true; vm_compute; reflexivity).
  exists block'. split; [exact E|].
  exact (proj1 (@build_then_validate toy_digests u256_z (toy_revm u256_z) _ _ _ _ E)).
Defined.
