(* ===== verification/Sled.v ===== *)
(** The key-value store under [crates/blq-storage]: the [sled] crate and
    [serde_json] as classes, the storage handle with its deferred flush, and
    the monad the storage methods run in.

    A method that writes is a [St A]: it takes the handle and returns the
    result with the handle after the writes made so far, also on an error.  A
    method that only reads is a function of the handle. *)

From Stdlib Require Import ZArith Lia Strings.String Strings.Byte.
From stdpp Require Import sorting gmap fin_maps list base.
From S2P Require Import Prelude Externals.
#[local] Open Scope Z_scope.

Inductive StorageError := NotFound | Io (m : string) | Serialization (m : string).

(** ** Contents *)

Abbreviation Contents := (gmap (list byte) (list byte)) (only parsing).

Definition has_prefix (p k : list byte) : bool :=
  match strip_prefix p k with Some _ => true | None => false end.

(** The entries below a prefix, in key order. *)
Definition prefix_entries (p : list byte) (m : Contents) : list (list byte * list byte) :=
  List.filter (fun kv => has_prefix p kv.1) (btree_iter m).

(** The writes of a [sled::Batch], in the order they were added. *)
Inductive BatchOp := BatchInsert (k v : list byte) | BatchRemove (k : list byte).

Definition batch_key (op : BatchOp) : list byte :=
  match op with BatchInsert k _ => k | BatchRemove k => k end.

Definition apply_op (m : Contents) (op : BatchOp) : Contents :=
  match op with BatchInsert k v => <[k := v]> m | BatchRemove k => delete k m end.

Definition apply_ops (m : Contents) (ops : list BatchOp) : Contents := fold_left apply_op ops m.

(** [sled::Db].  Reads see the contents, [scan_prefix] yields the entries in
    key order unless one of its rows is an error, a write that succeeds is
    visible, and a batch is applied as a whole or not at all. *)
Class Sled := {
  sled_db : Type;
  sled_contents : sled_db -> Contents;
  sled_get : sled_db -> list byte -> res string (option (list byte));
  sled_contains_key : sled_db -> list byte -> res string bool;
  sled_scan_prefix : sled_db -> list byte -> list (res string (list byte * list byte));
  sled_insert : sled_db -> list byte -> list byte -> res string unit * sled_db;
  sled_remove : sled_db -> list byte -> res string unit * sled_db;
  sled_apply_batch : sled_db -> list BatchOp -> res string unit * sled_db;
  sled_flush : sled_db -> res string unit * sled_db;
  sled_get_ok : forall d k o, sled_get d k = Ok o -> o = sled_contents d !! k;
  sled_contains_ok : forall d k b,
    sled_contains_key d k = Ok b -> b = bool_decide (is_Some (sled_contents d !! k));
  sled_scan_ok : forall d p l,
    sled_scan_prefix d p = map Ok l -> l = prefix_entries p (sled_contents d);
  sled_insert_ok : forall d k v u d',
    sled_insert d k v = (Ok u, d') -> sled_contents d' = <[k := v]> (sled_contents d);
  sled_remove_ok : forall d k u d',
    sled_remove d k = (Ok u, d') -> sled_contents d' = delete k (sled_contents d);
  sled_batch_ok : forall d ops u d',
    sled_apply_batch d ops = (Ok u, d') -> sled_contents d' = apply_ops (sled_contents d) ops;
  sled_batch_err : forall d ops e d',
    sled_apply_batch d ops = (Err e, d') -> sled_contents d' = sled_contents d;
  sled_flush_contents : forall d r d',
    sled_flush d = (r, d') -> sled_contents d' = sled_contents d;
  sled_batch_total : forall d ops d', sled_apply_batch d ops <> (Panic, d');
}.

(** A store whose reads do not fail. *)
Class SledReadable {S : Sled} : Prop := {
  reliable_get : forall d k, sled_get d k = Ok (sled_contents d !! k);
  reliable_contains : forall d k,
    sled_contains_key d k = Ok (bool_decide (is_Some (sled_contents d !! k)));
  reliable_scan : forall d p, sled_scan_prefix d p = map Ok (prefix_entries p (sled_contents d));
}.

(** A store whose operations do not fail. *)
Class SledReliable {S : Sled} : Prop := {
  reliable_reads :: SledReadable;
  reliable_insert : forall d k v, exists d', sled_insert d k v = (Ok tt, d');
  reliable_remove : forall d k, exists d', sled_remove d k = (Ok tt, d');
  reliable_batch : forall d ops, exists d', sled_apply_batch d ops = (Ok tt, d');
  reliable_flush : forall d, exists d', sled_flush d = (Ok tt, d');
}.

(** [serde_json::to_vec] and [from_slice] at one type: reading back what was
    written gives the value. *)
Class Json (A : Type) := {
  to_vec : A -> res string (list byte);
  from_slice : list byte -> res string A;
  json_roundtrip : forall a b, to_vec a = Ok b -> from_slice b = Ok a;
}.

Definition json_vec {A} {J : Json A} (a : A) : res StorageError (list byte) :=
  res_map_err Serialization (to_vec a).
Definition json_slice {A} {J : Json A} (b : list byte) : res StorageError A :=
  res_map_err Serialization (from_slice b).

(** ** The monad: a state and an error *)

Section state_monad.
Context {E State : Type}.

Definition StM (A : Type) : Type := State -> res E A * State.

Definition st_ret {A} (a : A) : StM A := fun s => (Ok a, s).
Definition st_res {A} (r : res E A) : StM A := fun s => (r, s).
Definition st_read {A} (f : State -> res E A) : StM A := fun s => (f s, s).

Definition st_bind {A B} (m : StM A) (f : A -> StM B) : StM B := fun s =>
  match m s with
  | (Ok a, s') => f a s'
  | (Err e, s') => (Err e, s')
  | (Panic, s') => (Panic, s')
  end.

(** [for x in l { f(x)?; }]. *)
Fixpoint st_for {A} (l : list A) (f : A -> StM unit) : StM unit :=
  match l with
  | [] => st_ret tt
  | x :: l => st_bind (f x) (fun _ => st_for l f)
  end.

Lemma st_bind_ok {A B} (m : StM A) (f : A -> StM B) s b s' :
  st_bind m f s = (Ok b, s') <-> exists a s1, m s = (Ok a, s1) /\ f a s1 = (Ok b, s').
Proof.
  unfold st_bind. destruct (m s) as [[a|e|] s1]; split; try done; try (by intros (? & ? & [= ] & ?)).
  - by exists a, s1.
  - by intros (? & ? & [= <- <-] & ?).
Qed.

(** A run stops at its first failing step, or goes through it. *)
Lemma st_bind_run {A B} (m : StM A) (f : A -> StM B) s r s' :
  st_bind m f s = (r, s') ->
  (exists a s1, m s = (Ok a, s1) /\ f a s1 = (r, s')) \/
  (is_ok r = false /\ exists r0, m s = (r0, s') /\ is_ok r0 = false).
Proof.
  unfold st_bind. destruct (m s) as [[a|e|] s1]; [eauto|intros [= <- <-]; right; split; [done|eauto]..].
Qed.

Lemma st_ret_ok {A} (a b : A) s s' : st_ret a s = (Ok b, s') <-> b = a /\ s' = s.
Proof. unfold st_ret. split; [by intros [= <- <-]|by intros [-> ->]]. Qed.
Lemma st_res_ok {A} (r : res E A) b s s' :
  st_res r s = (Ok b, s') <-> r = Ok b /\ s' = s.
Proof. unfold st_res. split; [by intros [= -> <-]|by intros [-> ->]]. Qed.
Lemma st_read_ok {A} (f : State -> res E A) b s s' :
  st_read f s = (Ok b, s') <-> f s = Ok b /\ s' = s.
Proof. unfold st_read. split; [by intros [= -> <-]|by intros [-> ->]]. Qed.

(** Steps that only look at the state. *)
Lemma st_bind_read {A B} (f : State -> res E A) (g : A -> StM B) s a :
  f s = Ok a -> st_bind (st_read f) g s = g a s.
Proof. intros H. unfold st_bind, st_read. by rewrite H. Qed.
Lemma st_bind_res {A B} (r : res E A) (g : A -> StM B) s a :
  r = Ok a -> st_bind (st_res r) g s = g a s.
Proof. by intros ->. Qed.

Lemma st_for_cons {A} x l (f : A -> StM unit) s s' u :
  st_for (x :: l) f s = (Ok u, s') <->
  exists s1, f x s = (Ok tt, s1) /\ st_for l f s1 = (Ok u, s').
Proof. simpl. rewrite st_bind_ok. split; [intros ([] & s1 & ?); eauto|intros (s1 & ?); by exists tt, s1]. Qed.

(** *** Runs that succeed *)

Definition succeeds {A} (m : StM A) (s : State) : Prop := exists a s', m s = (Ok a, s').

Lemma succeeds_ret {A} (a : A) s : succeeds (st_ret a) s.
Proof. by exists a, s. Qed.
Lemma succeeds_read {A} f s (a : A) : f s = Ok a -> succeeds (st_read f) s.
Proof. intros H. exists a, s. unfold st_read. by rewrite H. Qed.
Lemma succeeds_res {A} r s (a : A) : r = Ok a -> succeeds (st_res r) s.
Proof. intros ->. by exists a, s. Qed.

Lemma succeeds_bind {A B} (m : StM A) (f : A -> StM B) s :
  succeeds m s -> (forall a s1, m s = (Ok a, s1) -> succeeds (f a) s1) -> succeeds (st_bind m f) s.
Proof.
  intros (a & s1 & H1) H. destruct (H a s1 H1) as (b & s2 & H2). exists b, s2.
  apply st_bind_ok. eauto.
Qed.

Lemma succeeds_for {A} (l : list A) (f : A -> StM unit) s :
  (forall x s, x ∈ l -> succeeds (f x) s) -> succeeds (st_for l f) s.
Proof.
  revert s. induction l as [|x l IH]; intros s H; [apply succeeds_ret|]. simpl.
  apply succeeds_bind; [apply H; by left|]. intros. apply IH. intros. apply H. by right.
Qed.
End state_monad.
Arguments StM E State A : clear implicits.

(** ** The handle *)

Record SledStorage {S : Sled} := { ss_db : sled_db; ss_defer_flush : bool }.

Section storage_monad.
Context {S : Sled}.

Definition contents (s : SledStorage) : Contents := sled_contents (ss_db s).

Definition St (A : Type) : Type := StM StorageError SledStorage A.

Definition db_get (s : SledStorage) (k : list byte) : res StorageError (option (list byte)) :=
  res_map_err Io (sled_get (ss_db s) k).
Definition db_contains_key (s : SledStorage) (k : list byte) : res StorageError bool :=
  res_map_err Io (sled_contains_key (ss_db s) k).

Definition db_write (op : sled_db -> res string unit * sled_db) : St unit := fun s =>
  let '(r, d) := op (ss_db s) in
  (res_map_err Io r, {| ss_db := d; ss_defer_flush := ss_defer_flush s |}).

Definition db_insert (k v : list byte) : St unit := db_write (fun d => sled_insert d k v).
Definition db_remove (k : list byte) : St unit := db_write (fun d => sled_remove d k).
Definition db_apply_batch (ops : list BatchOp) : St unit :=
  db_write (fun d => sled_apply_batch d ops).
Definition db_flush : St unit := db_write sled_flush.

(** [for item in db.scan_prefix(p) { let (key, value) = item?; ... }]. *)
Definition read_rows {A} (s : SledStorage) (p : list byte)
    (f : A -> list byte * list byte -> res StorageError A) (a : A) : res StorageError A :=
  fold_left (fun acc row => let? a := acc in let? kv := res_map_err Io row in f a kv)
    (sled_scan_prefix (ss_db s) p) (Ok a).

(** A scan that returns at the first row the body accepts. *)
Fixpoint find_in_rows {A} (f : list byte * list byte -> res StorageError (option A))
    (rows : list (res string (list byte * list byte))) : res StorageError (option A) :=
  match rows with
  | [] => Ok None
  | row :: rows =>
      let? kv := res_map_err Io row in
      let? found := f kv in
      match found with Some a => Ok (Some a) | None => find_in_rows f rows end
  end.

Definition find_row {A} (s : SledStorage) (p : list byte)
    (f : list byte * list byte -> res StorageError (option A)) : res StorageError (option A) :=
  find_in_rows f (sled_scan_prefix (ss_db s) p).

(** [scan_prefix(p).map(|(key, _)| key).collect::<Result<Vec<_>, _>>()]. *)
Definition scan_all (s : SledStorage) (p : list byte) : res StorageError (list (list byte * list byte)) :=
  read_rows s p (fun l kv => Ok (l ++ [kv])) [].

(** ** Flushing *)

Definition flush_db : St unit := fun s =>
  if ss_defer_flush s then (Ok tt, s) else db_flush s.

Definition set_defer_flush (b : bool) : St unit := fun s =>
  (Ok tt, {| ss_db := ss_db s; ss_defer_flush := b |}).

Definition begin_batch : St unit := set_defer_flush true.
Definition flush_batch : St unit := db_flush.
Definition end_batch : St unit := st_bind flush_batch (fun _ => set_defer_flush false).

(** ** Reasoning *)

Lemma map_err_ok {E F A} (g : E -> F) (m : res E A) a : res_map_err g m = Ok a <-> m = Ok a.
Proof. destruct m; simpl; split; congruence. Qed.

Lemma db_get_ok s k o : db_get s k = Ok o -> o = contents s !! k.
Proof. intros H%map_err_ok. by apply sled_get_ok in H. Qed.
Lemma db_contains_ok s k b : db_contains_key s k = Ok b -> b = bool_decide (is_Some (contents s !! k)).
Proof. intros H%map_err_ok. by apply sled_contains_ok in H. Qed.

Lemma db_write_ok op s u s' :
  db_write op s = (Ok u, s') ->
  exists d, op (ss_db s) = (Ok u, d) /\ s' = {| ss_db := d; ss_defer_flush := ss_defer_flush s |}.
Proof.
  unfold db_write. destruct (op (ss_db s)) as [r d]. intros [= Hr <-]. apply map_err_ok in Hr as ->. eauto.
Qed.

Lemma db_insert_ok k v s u s' : db_insert k v s = (Ok u, s') -> contents s' = <[k := v]> (contents s).
Proof. unfold db_insert. intros (d & H & ->)%db_write_ok. by apply sled_insert_ok in H. Qed.
Lemma db_remove_ok k s u s' : db_remove k s = (Ok u, s') -> contents s' = delete k (contents s).
Proof. unfold db_remove. intros (d & H & ->)%db_write_ok. by apply sled_remove_ok in H. Qed.
Lemma db_apply_batch_ok ops s u s' :
  db_apply_batch ops s = (Ok u, s') -> contents s' = apply_ops (contents s) ops.
Proof. unfold db_apply_batch. intros (d & H & ->)%db_write_ok. by apply sled_batch_ok in H. Qed.

(** A batch leaves either the old contents or the new ones, whatever it returns. *)
Lemma db_apply_batch_atomic ops s r s' :
  db_apply_batch ops s = (r, s') ->
  (exists u, r = Ok u /\ contents s' = apply_ops (contents s) ops) \/
  (exists e, r = Err e /\ contents s' = contents s).
Proof.
  unfold db_apply_batch, db_write. destruct (sled_apply_batch (ss_db s) ops) as [q d] eqn:E.
  intros [= <- <-]. destruct q as [u|e|]; simpl.
  - left. exists u. split; [done|]. by apply sled_batch_ok in E.
  - right. exists (Io e). split; [done|]. by apply sled_batch_err in E.
  - by apply sled_batch_total in E.
Qed.

Lemma db_flush_contents s r s' : db_flush s = (r, s') -> contents s' = contents s.
Proof.
  unfold db_flush, db_write. destruct (sled_flush (ss_db s)) as [q d] eqn:E. intros [= <- <-].
  by apply sled_flush_contents in E.
Qed.
Lemma flush_db_contents s r s' : flush_db s = (r, s') -> contents s' = contents s.
Proof. unfold flush_db. case_match; [by intros [= <- <-]|]. apply db_flush_contents. Qed.

(** The rows of a scan that ends well are the entries below the prefix. *)
Lemma read_rows_ok {A} s p f (a r : A) :
  read_rows s p f a = Ok r ->
  fold_left (fun acc kv => let? a := acc in f a kv) (prefix_entries p (contents s)) (Ok a) = Ok r.
Proof.
  unfold read_rows. intros H.
  enough (exists l, sled_scan_prefix (ss_db s) p = map Ok l /\
    fold_left (fun acc kv => let? a := acc in f a kv) l (Ok a) = Ok r) as (l & Hl & Hf).
  { apply sled_scan_ok in Hl. by subst l. }
  revert a H. induction (sled_scan_prefix (ss_db s) p) as [|row rows IH]; intros a H.
  - by exists [].
  - apply fold_res_cons_ok in H as (a1 & H1 & H). apply res_bind_ok in H1 as (kv & Hk & H1).
    apply map_err_ok in Hk. subst row. apply IH in H as (l & -> & Hl). exists (kv :: l).
    split; [done|]. simpl. by rewrite H1.
Qed.

Lemma read_rows_reliable {HR : SledReadable} {A} s p f (a : A) :
  read_rows s p f a =
  fold_left (fun acc kv => let? a := acc in f a kv) (prefix_entries p (contents s)) (Ok a).
Proof.
  unfold read_rows. rewrite reliable_scan. fold (contents s).
  generalize (Ok (E:=StorageError) a). induction (prefix_entries p (contents s)) as [|kv l IH]; [done|].
  intros acc. simpl. apply IH.
Qed.

(** A loop whose body only decodes the row and updates the accumulator. *)
Lemma fold_decode {E A X R} (dec : R -> res E X) (upd : A -> X -> A) rows a r :
  fold_left (fun acc kv => let? a := acc in let? x := dec kv in Ok (upd a x)) rows (Ok a) = Ok r <->
  exists xs, Forall2 (fun kv x => dec kv = Ok x) rows xs /\ r = fold_left upd xs a.
Proof.
  revert a. induction rows as [|kv rows IH]; intros a.
  - simpl. split; [intros [= <-]; by exists []|]. intros (xs & H & ->). by inversion H.
  - split.
    + intros (a1 & H1 & H)%fold_res_cons_ok. apply res_bind_ok in H1 as (x & Hx & [= <-]).
      apply IH in H as (xs & Hxs & ->). exists (x :: xs). split; [by constructor|done].
    + intros (xs & Hxs & ->). inversion Hxs as [|? x ? xs' Hx Hxs']; subst.
      simpl. rewrite Hx. simpl. apply IH. by exists xs'.
Qed.

Lemma scan_all_ok s p l : scan_all s p = Ok l -> l = prefix_entries p (contents s).
Proof.
  unfold scan_all. intros H%read_rows_ok.
  enough (forall rows (a : list (list byte * list byte)),
    fold_left (fun acc kv => let? a := acc in Ok (a ++ [kv])) rows
      (Ok (E:=StorageError) a) = Ok (a ++ rows)) as Hl.
  { rewrite (Hl _ []) in H. by inversion H. }
  clear H. induction rows as [|kv rows IH]; intros a; simpl; [by rewrite app_nil_r|].
  by rewrite IH, <- app_assoc.
Qed.

Lemma st_for_insert_ok rows s u s' :
  st_for rows (fun kv : list byte * list byte => db_insert kv.1 kv.2) s = (Ok u, s') ->
  contents s' = fold_left (fun m kv => <[kv.1 := kv.2]> m) rows (contents s).
Proof.
  revert s. induction rows as [|kv rows IH]; intros s H.
  - by apply st_ret_ok in H as [_ ->].
  - apply st_for_cons in H as (s1 & H1 & H). apply db_insert_ok in H1. rewrite (IH _ H), H1. done.
Qed.

Section readable.
Context {HR : SledReadable}.

Lemma db_get_reliable s k : db_get s k = Ok (contents s !! k).
Proof. unfold db_get. by rewrite reliable_get. Qed.
Lemma db_contains_reliable s k : db_contains_key s k = Ok (bool_decide (is_Some (contents s !! k))).
Proof. unfold db_contains_key. by rewrite reliable_contains. Qed.
End readable.

Section reliable.
Context {HR : SledReliable}.

Lemma succeeds_write op s : (exists d', op (ss_db s) = (Ok tt, d')) -> succeeds (db_write op) s.
Proof. intros [d' H]. unfold db_write, succeeds. rewrite H. simpl. eauto. Qed.
Lemma succeeds_insert k v s : succeeds (db_insert k v) s.
Proof. apply succeeds_write, reliable_insert. Qed.
Lemma succeeds_remove k s : succeeds (db_remove k) s.
Proof. apply succeeds_write, reliable_remove. Qed.
Lemma succeeds_batch ops s : succeeds (db_apply_batch ops) s.
Proof. apply succeeds_write, reliable_batch. Qed.
Lemma succeeds_flush s : succeeds db_flush s.
Proof. apply succeeds_write, reliable_flush. Qed.
Lemma succeeds_flush_db s : succeeds flush_db s.
Proof. unfold flush_db, succeeds. destruct (ss_defer_flush s); [eauto|apply succeeds_flush]. Qed.

End reliable.
End storage_monad.

Create HintDb storage.
#[export] Hint Resolve succeeds_ret succeeds_insert succeeds_remove succeeds_batch succeeds_flush
  succeeds_flush_db : storage.

(** Walk a run step by step; the steps that need a reason are left over. *)
Ltac run_steps :=
  repeat (first [solve [eauto with storage] | apply succeeds_bind; [|intros ? ? ?] | case_match]).

Notation "'do?' x ':=' m 'in' k" := (st_bind m (fun x => k))
  (at level 10, x pattern, m at level 100, k at level 200) : blq_scope.
Notation "m ';!' k" := (st_bind m (fun _ => k)) (at level 199, right associativity) : blq_scope.

(** Decompose a successful run into the runs of its steps, and what each did
    to the contents. *)
Ltac st_inv :=
  repeat match goal with
  | H : st_bind _ _ _ = (Ok _, _) |- _ =>
      let a := fresh "a" in let s := fresh "s" in let H1 := fresh "H" in
      apply st_bind_ok in H as (a & s & H1 & H)
  | H : st_ret _ _ = (Ok _, _) |- _ => apply st_ret_ok in H as [? ?]; subst
  | H : st_res _ _ = (Ok _, _) |- _ => apply st_res_ok in H as [? ?]; subst
  | H : st_read _ _ = (Ok _, _) |- _ => apply st_read_ok in H as [? ?]; subst
  | H : db_insert _ _ _ = (Ok _, _) |- _ => apply db_insert_ok in H
  | H : db_remove _ _ = (Ok _, _) |- _ => apply db_remove_ok in H
  | H : flush_db _ = (_, _) |- _ => apply flush_db_contents in H
  | H : db_flush _ = (_, _) |- _ => apply db_flush_contents in H
  | H : db_get _ _ = Ok _ |- _ => apply db_get_ok in H
  | H : json_vec _ = Ok _ |- _ => apply map_err_ok in H
  | H : json_slice _ = Ok _ |- _ => apply map_err_ok in H
  end.

(** On a reliable store a run is determined by what it does to the contents. *)
Section runs.
Context {S : Sled}.

Definition runs {A} (m : St A) (s : SledStorage) (r : res StorageError A) (c : Contents) : Prop :=
  exists s', m s = (r, s') /\ contents s' = c.

Lemma runs_ret {A} (a : A) s : runs (st_ret a) s (Ok a) (contents s).
Proof. by exists s. Qed.
Lemma runs_res {A} (r : res StorageError A) s : runs (st_res r) s r (contents s).
Proof. by exists s. Qed.
Lemma runs_read {A} f s (r : res StorageError A) : f s = r -> runs (st_read f) s r (contents s).
Proof. intros <-. by exists s. Qed.

Lemma runs_bind {A B} (m : St A) (f : A -> St B) s a c r c' :
  runs m s (Ok a) c -> (forall s1, contents s1 = c -> runs (f a) s1 r c') -> runs (st_bind m f) s r c'.
Proof.
  intros (s1 & H1 & Hc) H. destruct (H s1 Hc) as (s2 & H2 & Hc2). exists s2. split; [|done].
  unfold st_bind. by rewrite H1.
Qed.

Lemma runs_succeeds {A} (m : St A) s c :
  succeeds m s -> (forall a s', m s = (Ok a, s') -> contents s' = c) -> exists a, runs m s (Ok a) c.
Proof. intros (a & s' & H) Hc. exists a, s'. split; [done|]. by eapply Hc. Qed.

Context {HR : SledReliable}.

Lemma runs_insert k v s : runs (db_insert k v) s (Ok tt) (<[k := v]> (contents s)).
Proof.
  destruct (runs_succeeds (db_insert k v) s _ (succeeds_insert k v s) (fun u s' H => db_insert_ok k v s u s' H))
    as [[] H]. exact H.
Qed.
Lemma runs_remove k s : runs (db_remove k) s (Ok tt) (delete k (contents s)).
Proof.
  destruct (runs_succeeds (db_remove k) s _ (succeeds_remove k s) (fun u s' H => db_remove_ok k s u s' H))
    as [[] H]. exact H.
Qed.
Lemma runs_flush s : runs db_flush s (Ok tt) (contents s).
Proof.
  destruct (runs_succeeds db_flush s _ (succeeds_flush s) (fun u s' H => db_flush_contents s (Ok u) s' H)) as [[] H].
  exact H.
Qed.

(** A loop of writes. *)
Lemma runs_for {A} (l : list A) (f : A -> St unit) (g : Contents -> A -> Contents) s :
  (forall x s1, x ∈ l -> runs (f x) s1 (Ok tt) (g (contents s1) x)) ->
  runs (st_for l f) s (Ok tt) (fold_left g l (contents s)).
Proof.
  revert s. induction l as [|x l IH]; intros s H; [apply runs_ret|]. simpl.
  eapply runs_bind; [apply H; by left|]. intros s1 Hc. rewrite <- Hc. apply IH. intros. apply H. by right.
Qed.
End runs.
#[export] Hint Resolve runs_ret runs_res runs_insert runs_remove runs_flush : storage.

(** ** Entries below a prefix *)

Lemma has_prefix_true p k : has_prefix p k = true <-> exists r, k = p ++ r.
Proof.
  unfold has_prefix. destruct (strip_prefix p k) as [r|] eqn:E.
  - apply strip_prefix_Some in E. naive_solver.
  - split; [done|]. intros [r ->]. by rewrite strip_prefix_app in E.
Qed.

Lemma elem_of_prefix_entries p m k v :
  (k, v) ∈ prefix_entries p m <-> m !! k = Some v /\ has_prefix p k = true.
Proof. unfold prefix_entries. by rewrite elem_of_filter_b, elem_of_btree_iter. Qed.

Lemma NoDup_prefix_keys p m : NoDup (map fst (prefix_entries p m)).
Proof. apply NoDup_map_filter, NoDup_btree_keys. Qed.

(** Keys of different families. *)
Lemma prefix_ne p k k' : has_prefix p k = true -> has_prefix p k' = false -> k <> k'.
Proof. intros H1 H2 ->. congruence. Qed.

(** Rows written one after the other: the last one with a key stays. *)
Lemma fold_insert_lookup {V} (rows : list (list byte * V)) (m : gmap (list byte) V) k :
  (forall v v', (k, v) ∈ rows -> (k, v') ∈ rows -> v = v') ->
  (forall v, (k, v) ∈ rows -> fold_left (fun m kv => <[kv.1 := kv.2]> m) rows m !! k = Some v) /\
  ((forall v, (k, v) ∉ rows) -> fold_left (fun m kv => <[kv.1 := kv.2]> m) rows m !! k = m !! k).
Proof.
  revert m. induction rows as [|[k' v'] rows IH]; intros m Hf.
  - split; [by intros v ?%not_elem_of_nil|done].
  - destruct (IH (<[k' := v']> m)) as [H1 H2].
    { intros v w Hv Hw. apply Hf; by right. }
    cbn [fold_left fst snd]. split.
    + intros v [[= <- <-]|Hin]%elem_of_cons; [|by apply H1].
      destruct (decide (Exists (fun kv => kv.1 = k) rows)) as [Hex|Hno].
      * apply Exists_exists in Hex as ([k2 w] & Hin & E). cbn in E. subst k2. apply list_elem_of_In in Hin.
        rewrite (H1 w) by done. f_equal. apply Hf; [by right|by left].
      * rewrite H2; [by rewrite lookup_insert_eq|]. intros w Hin. apply Hno. apply Exists_exists.
        exists (k, w). split; [by apply list_elem_of_In|done].
    + intros Hno. rewrite H2.
      * apply lookup_insert_ne. intros ->. apply (Hno v'). by left.
      * intros v Hin. apply (Hno v). by right.
Qed.

(** A loop that alters one entry of a map per row with its own key. *)
Lemma fold_alter_other {K V W} `{Countable K} (g : V -> option W -> option W) xs (m : gmap K W) k :
  k ∉ map fst xs -> fold_left (fun m (x : K * V) => partial_alter (g x.2) x.1 m) xs m !! k = m !! k.
Proof.
  revert m. induction xs as [|[k' v] xs IH]; intros m Hk; [done|]. simpl in *.
  rewrite not_elem_of_cons in Hk. destruct Hk as [Hne Hk].
  rewrite IH by done. by rewrite lookup_partial_alter_ne.
Qed.

Lemma fold_alter_lookup {K V W} `{Countable K} (g : V -> option W -> option W) xs (m : gmap K W) k v :
  NoDup (map fst xs) -> (k, v) ∈ xs ->
  fold_left (fun m (x : K * V) => partial_alter (g x.2) x.1 m) xs m !! k = g v (m !! k).
Proof.
  revert m. induction xs as [|[k' v'] xs IH]; intros m Hnd Hin; [by apply not_elem_of_nil in Hin|].
  simpl in *. apply list.NoDup_cons in Hnd as [Hn Hnd]. apply elem_of_cons in Hin as [[= -> ->]|Hin].
  - rewrite fold_alter_other by done. by rewrite lookup_partial_alter_eq.
  - assert (k <> k').
    { intros ->. apply Hn. apply list_elem_of_fmap. by exists (k', v). }
    rewrite IH by done. by rewrite lookup_partial_alter_ne.
Qed.

(** The rows below a prefix, decoded: if the contents hold exactly the rows
    [key a ↦ value x] of a functional relation, the decoded list is the
    relation. *)
Section decode_rows.
Context {E A X : Type} (p : list byte) (m : Contents).
Context (dec : list byte * list byte -> res E (A * X)).
Context (key : A -> list byte) (value : X -> list byte) (R : A -> X -> Prop).
Hypothesis Hrows : forall k v,
  m !! k = Some v /\ has_prefix p k = true <-> exists a x, R a x /\ k = key a /\ v = value x.
Hypothesis Hdec : forall a x, R a x -> dec (key a, value x) = Ok (a, x).

Lemma decode_rows_total : exists xs, Forall2 (fun kv x => dec kv = Ok x) (prefix_entries p m) xs.
Proof.
  assert (Forall (fun kv => exists x, dec kv = Ok x) (prefix_entries p m)) as H.
  { apply Forall_forall. intros [k v] Hin%list_elem_of_In. apply elem_of_prefix_entries, Hrows in Hin as (a & x & HR & -> & ->).
    exists (a, x). by apply Hdec. }
  clear Hrows Hdec.
  induction H as [|kv l [x Hx] _ [xs IH]]; [by exists []|]. exists (x :: xs). by constructor.
Qed.

Lemma decode_rows xs :
  Forall2 (fun kv x => dec kv = Ok x) (prefix_entries p m) xs ->
  NoDup (map fst xs) /\ forall a x, (a, x) ∈ xs <-> R a x.
Proof.
  intros H. assert (Forall2 (fun kv ax => kv.1 = key ax.1 /\ R ax.1 ax.2) (prefix_entries p m) xs) as HR.
  { apply Forall2_same_length_lookup. apply Forall2_same_length_lookup in H as [Hl H]. split; [done|].
    intros i [k v] [a x] Hi Hx. assert ((k, v) ∈ prefix_entries p m) as Hin by (by eapply list_elem_of_lookup_2).
    apply elem_of_prefix_entries, Hrows in Hin as (a' & x' & HR & -> & ->).
    specialize (H i _ _ Hi Hx). rewrite Hdec in H by done. by inversion H; subst. }
  split.
  - pose proof (NoDup_prefix_keys p m) as Hnd. clear H. induction HR as [|kv ax l xs [Hk Hr] HR IH]; [constructor|].
    simpl in *. apply list.NoDup_cons in Hnd as [Hn Hnd]. apply list.NoDup_cons. split; [|by apply IH].
    intros Hin. apply Hn. rewrite Hk. clear -HR Hin. induction HR as [|kv' ax' l xs [Hk' _] HR IH].
    + by apply not_elem_of_nil in Hin.
    + simpl in *. apply elem_of_cons in Hin as [->|Hin]; apply elem_of_cons; [by left|right; by apply IH].
  - intros a x. split.
    + intros Hin. apply list_elem_of_lookup in Hin as [i Hi].
      destruct (Forall2_lookup_r _ _ _ _ _ HR Hi) as (kv & _ & _ & Hr). done.
    + intros Hr. assert ((key a, value x) ∈ prefix_entries p m) as Hin.
      { apply elem_of_prefix_entries, Hrows. eauto. }
      apply list_elem_of_lookup in Hin as [i Hi].
      destruct (Forall2_lookup_l _ _ _ _ _ H Hi) as (ax & Hx & Hd).
      rewrite Hdec in Hd by done. inversion Hd; subst. by eapply list_elem_of_lookup_2.
Qed.

Lemma decode_rows_all : exists xs,
  Forall2 (fun kv x => dec kv = Ok x) (prefix_entries p m) xs /\
  NoDup (map fst xs) /\ forall a x, (a, x) ∈ xs <-> R a x.
Proof. destruct decode_rows_total as [xs H]. exists xs. split; [done|]. by apply decode_rows. Qed.

(** A loop that alters the entry of each row's key. *)
Lemma alter_rows {W} `{Countable A} (g : X -> option W -> option W) (m0 : gmap A W) :
  exists r,
    fold_left (fun acc kv => let? m := acc in let? x := dec kv in Ok (partial_alter (g x.2) x.1 m))
      (prefix_entries p m) (Ok m0) = Ok r /\
    (forall a x, R a x -> r !! a = g x (m0 !! a)) /\
    (forall a, (forall x, ~ R a x) -> r !! a = m0 !! a).
Proof.
  destruct decode_rows_all as (xs & Hxs & Hnd & Hin).
  exists (fold_left (fun m x => partial_alter (g x.2) x.1 m) xs m0). split; [|split].
  - apply (fold_decode dec (fun m x => partial_alter (g x.2) x.1 m)). by exists xs.
  - intros a x HR. apply fold_alter_lookup; [done|by apply Hin].
  - intros a HR. apply fold_alter_other. intros Ha. apply list_elem_of_fmap in Ha as ([a' x] & -> & Hx).
    apply Hin in Hx. by eapply HR.
Qed.
End decode_rows.

(** ** A store in memory *)

Lemma map_Ok_inj {E A} (l k : list A) : map (@Ok E A) l = map Ok k -> l = k.
Proof.
  revert k. induction l as [|x l IH]; intros [|y k]; simpl; try done.
  intros [= -> H]. f_equal. by apply IH.
Qed.

Program Definition mem_sled : Sled := {|
  sled_db := gmap (list byte) (list byte);
  sled_contents := fun d => d;
  sled_get := fun d k => Ok (d !! k);
  sled_contains_key := fun d k => Ok (bool_decide (is_Some (d !! k)));
  sled_scan_prefix := fun d p => map Ok (prefix_entries p d);
  sled_insert := fun d k v => (Ok tt, <[k := v]> d);
  sled_remove := fun d k => (Ok tt, delete k d);
  sled_apply_batch := fun d ops => (Ok tt, apply_ops d ops);
  sled_flush := fun d => (Ok tt, d);
|}.
Next Obligation. by intros d k o [= <-]. Qed.
Next Obligation. by intros d k o [= <-]. Qed.
Next Obligation. intros d p l H. apply map_Ok_inj in H. by symmetry. Qed.
Next Obligation. by intros ? ? ? ? ? [= <-]. Qed.
Next Obligation. by intros ? ? ? ? [= <-]. Qed.
Next Obligation. by intros ? ? ? ? [= <-]. Qed.
Next Obligation. done. Qed.
Next Obligation. by intros ? ? ? [= _ <-]. Qed.
Next Obligation. done. Qed.

Lemma mem_sled_reliable : @SledReliable mem_sled.
Proof. split; [split|..]; intros; simpl; eauto. Qed.

(** A codec for the values of a list: a value is written as its position. *)
Fixpoint index_of {A} `{EqDecision A} (x : A) (l : list A) : option nat :=
  match l with
  | [] => None
  | y :: l => if decide (x = y) then Some 0%nat else S <$> index_of x l
  end.

Program Definition table_json {A} `{EqDecision A} (table : list A) : Json A := {|
  to_vec := fun a =>
    match index_of a table with
    | Some i => Ok (replicate i x00)
    | None => Err "not in the table"%string
    end;
  from_slice := fun b => ok_or (table !! length b) "no such entry"%string;
|}.
Next Obligation.
  intros A HA table a b. cbv beta. destruct (index_of a table) as [i|] eqn:E; [|by intros H]. intros [= <-].
  rewrite length_replicate. assert (table !! i = Some a) as Hl; [|by rewrite Hl].
  revert i E. induction table as [|y l IH]; intros i; simpl; [done|]. case_decide.
  - by intros [= <-]; subst.
  - destruct (index_of a l) as [j|] eqn:E; [|done]. intros [= <-]. simpl. by apply IH.
Qed.
