(* ===== verification/AccountStore.v ===== *)
(** Accounts in the store ([crates/blq-storage]): the keys, the account
    methods of [SledStorage], the progress markers and supply totals, and the
    EVM state snapshots.

    [account_rep] relates the rows of the store to a map of accounts; every
    method refines an operation on the map. *)

From Stdlib Require Import ZArith Lia Strings.String Strings.Byte.
From stdpp Require Import sorting gmap fin_maps list base.
From S2P Require Import Prelude Externals Primitives State StateRoot Sled.
#[local] Open Scope Z_scope.

Definition EVM_SNAPSHOT_PREFIX : list byte := B "state:evm:snapshot:".

Abbreviation EvmStateSnapshot := (gmap (list byte) EvmAccountSnapshot) (only parsing).
Definition SerializedEvmSnapshotEntry : Type :=
  Address * (Bix * Z * list byte * list (Hash256 * Hash256)).

Definition entry_default : EvmAccountSnapshot := (0, 0, [], ∅).

Section keys.
Context {HX : HexCodec}.

Definition balance_key (a : Address) : list byte := B "account:balance:" ++ hex_encode a.
Definition nonce_key (a : Address) : list byte := B "account:nonce:" ++ hex_encode a.
Definition code_key (a : Address) : list byte := B "account:code:" ++ hex_encode a.
Definition storage_key (a : Address) (slot : Hash256) : list byte :=
  B "account:storage:" ++ hex_encode a ++ B ":" ++ hash_to_hex slot.

(** [std::str::from_utf8] followed by [from_hex]. *)
Definition fixed_from_text {A} (from_hex : list byte -> res HexHashError A) (s : list byte)
    : res StorageError A :=
  if negb (utf8_valid s) then Err (Serialization "invalid utf-8 sequence")
  else res_map_err (fun e => Serialization
    (match e with InvalidHex => "InvalidHex" | InvalidLength _ => "InvalidLength" end)) (from_hex s).

Definition address_from_balance_key (key : list byte) : res StorageError Address :=
  let? suffix := ok_or (strip_prefix (B "account:balance:") key) (Serialization "invalid account key") in
  fixed_from_text address_from_hex suffix.
Definition address_from_nonce_key (key : list byte) : res StorageError Address :=
  let? suffix := ok_or (strip_prefix (B "account:nonce:") key) (Serialization "invalid nonce key") in
  fixed_from_text address_from_hex suffix.
Definition address_from_code_key (key : list byte) : res StorageError Address :=
  let? suffix := ok_or (strip_prefix (B "account:code:") key) (Serialization "invalid code key") in
  fixed_from_text address_from_hex suffix.
Definition address_from_storage_key (key : list byte) : res StorageError (Address * Hash256) :=
  let? suffix := ok_or (strip_prefix (B "account:storage:") key) (Serialization "invalid storage key") in
  let? separator := ok_or (position (fun c => u8_val c =? 58) suffix)
    (Serialization "invalid storage key separator") in
  let address := take separator suffix in
  let slot := drop 1 (drop separator suffix) in
  let? address := fixed_from_text address_from_hex address in
  let? slot := fixed_from_text hash_from_hex slot in
  Ok (address, slot).
End keys.

Definition u64_from_slice (message : string) (value : list byte) : res StorageError Z :=
  if Z.of_nat (length value) =? 8 then Ok (be_val value) else Err (Serialization message).
Definition u128_from_slice (value : list byte) : res StorageError Z :=
  if Z.of_nat (length value) =? 16 then Ok (be_val value) else Err (Serialization "invalid u128 value").
Definition hash_from_bytes (value : list byte) : res StorageError Hash256 :=
  if Z.of_nat (length value) =? 32 then Ok value else Err (Serialization "invalid hash value").

(** [collect::<BTreeMap<_, _>>()] from a list: the last of equal keys stays. *)
Definition collect_map {V} (l : list (list byte * V)) : gmap (list byte) V :=
  fold_left (fun m kv => <[kv.1 := kv.2]> m) l ∅.

Section account_store.
Context {S : Sled} {HX : HexCodec} {D : Digests}.

(** ** Balances and nonces *)

Definition balance (s : SledStorage) (a : Address) : res StorageError Bix :=
  let? value := db_get s (balance_key a) in
  match value with Some value => u128_from_slice value | None => Ok 0 end.

Definition nonce (s : SledStorage) (a : Address) : res StorageError Z :=
  let? value := db_get s (nonce_key a) in
  match value with Some value => u64_from_slice "invalid nonce value" value | None => Ok 0 end.

Definition put_stored_account (a : Address) (balance : Bix) (nonce : Z) : St unit :=
  db_insert (balance_key a) (be_bytes 16 balance) ;!
  db_insert (nonce_key a) (be_bytes 8 nonce) ;!
  flush_db.

Definition credit_balance (a : Address) (amount : Bix) : St unit :=
  if amount =? 0 then st_ret tt
  else
    do? old := st_read (fun s => balance s a) in
    let balance := sat_add U128_MAX old amount in
    do? nonce := st_read (fun s => nonce s a) in
    put_stored_account a balance nonce.

Definition has_persisted_native_accounts (s : SledStorage) : res StorageError bool :=
  match sled_scan_prefix (ss_db s) (B "account:") with
  | [] => Ok false
  | row :: _ => res_map_err Io (let? _ := row in Ok true)
  end.

(** ** Progress markers and supply totals *)

Definition reward_indexed_to (s : SledStorage) : res StorageError Z :=
  let? value := db_get s (B "state:rewards:indexed_to") in
  match value with Some value => u64_from_slice "invalid reward index" value | None => Ok 0 end.

Definition set_reward_indexed_to (number : Z) : St unit :=
  db_insert (B "state:rewards:indexed_to") (be_bytes 8 number) ;!
  flush_db.

Definition supply_totals (s : SledStorage) : res StorageError (Z * Z * Z) :=
  let? value := db_get s (B "state:supply:indexed_to") in
  let? indexed_to :=
    match value with Some value => u64_from_slice "invalid supply index" value | None => Ok 0 end in
  let? value := db_get s (B "state:supply:total") in
  let? total := match value with Some value => u128_from_slice value | None => Ok 0 end in
  let? value := db_get s (B "state:supply:burned") in
  let? burned := match value with Some value => u128_from_slice value | None => Ok 0 end in
  Ok (indexed_to, total, burned).

Definition set_supply_totals (indexed_to total burned : Z) : St unit :=
  db_insert (B "state:supply:indexed_to") (be_bytes 8 indexed_to) ;!
  db_insert (B "state:supply:total") (be_bytes 16 total) ;!
  db_insert (B "state:supply:burned") (be_bytes 16 burned) ;!
  db_flush.

(** ** Snapshots of the accounts *)

Definition balance_row (kv : list byte * list byte) : res StorageError (Address * Z) :=
  let? address := address_from_balance_key kv.1 in
  let? balance := u128_from_slice kv.2 in
  Ok (address, balance).
Definition nonce_row (kv : list byte * list byte) : res StorageError (Address * Z) :=
  let? address := address_from_nonce_key kv.1 in
  let? nonce := u64_from_slice "invalid nonce value" kv.2 in
  Ok (address, nonce).
Definition code_row (kv : list byte * list byte) : res StorageError (Address * list byte) :=
  let? address := address_from_code_key kv.1 in
  Ok (address, kv.2).
Definition storage_row (kv : list byte * list byte) : res StorageError (Address * Hash256 * Hash256) :=
  let? (address, slot) := address_from_storage_key kv.1 in
  let? value := hash_from_bytes kv.2 in
  Ok (address, slot, value).

(** [accounts.entry(address).or_insert(...)] with one component assigned. *)
Definition entry_balance (b : Z) (o : option (Z * Z)) : option (Z * Z) :=
  Some (b, (default (0, 0) o).2).
Definition entry_nonce (n : Z) (o : option (Z * Z)) : option (Z * Z) :=
  Some ((default (0, 0) o).1, n).
Definition entry_code (code : list byte) (o : option EvmAccountSnapshot) : option EvmAccountSnapshot :=
  let '(b, n, _, st) := default entry_default o in Some (b, n, code, st).
Definition entry_slot (slot value : Hash256) (o : option EvmAccountSnapshot) : option EvmAccountSnapshot :=
  let '(b, n, c, st) := default entry_default o in Some (b, n, c, <[slot := value]> st).

Definition account_snapshot (s : SledStorage) : res StorageError Accounts :=
  let? accounts :=
    read_rows s (B "account:balance:") (fun m kv =>
      let? x := balance_row kv in Ok (partial_alter (entry_balance x.2) x.1 m)) ∅ in
  read_rows s (B "account:nonce:") (fun m kv =>
    let? x := nonce_row kv in Ok (partial_alter (entry_nonce x.2) x.1 m)) accounts.

Definition evm_account_snapshot (s : SledStorage) : res StorageError EvmStateSnapshot :=
  let? native := account_snapshot s in
  let accounts := (fun bn => (bn.1, bn.2, [], ∅) : EvmAccountSnapshot) <$> native in
  let? accounts :=
    read_rows s (B "account:code:") (fun m kv =>
      let? x := code_row kv in Ok (partial_alter (entry_code x.2) x.1 m)) accounts in
  read_rows s (B "account:storage:") (fun m kv =>
    let? x := storage_row kv in Ok (partial_alter (entry_slot x.1.2 x.2) x.1.1 m)) accounts.

Definition state_root (s : SledStorage) : res StorageError Hash256 :=
  let? accounts := account_snapshot s in
  Ok (state_root_from_accounts accounts).

Definition projected_credit_state_root (s : SledStorage) (credit_address : Address)
    (credit_amount : Bix) : res StorageError Hash256 :=
  let? accounts := account_snapshot s in
  let accounts :=
    if 0 <? credit_amount then
      let entry := default (0, 0) (accounts !! credit_address) in
      <[credit_address := (sat_add U128_MAX entry.1 credit_amount, entry.2)]> accounts
    else accounts in
  Ok (state_root_from_accounts accounts).

Definition evm_code (s : SledStorage) (a : Address) : res StorageError (list byte) :=
  let? value := db_get s (code_key a) in
  Ok (default [] value).

Definition evm_storage_at (s : SledStorage) (a : Address) (slot : Hash256) : res StorageError Hash256 :=
  let? value := db_get s (storage_key a slot) in
  match value with Some value => hash_from_bytes value | None => Ok HASH_ZERO end.

(** ** Writing an EVM account *)

(** The stored slots of the address, with their keys. *)
Definition existing_slots (s : SledStorage) (a : Address)
    : res StorageError (list (list byte * Hash256)) :=
  read_rows s (B "account:storage:") (fun keys kv =>
    let? x := address_from_storage_key kv.1 in
    Ok (if bool_decide (x.1 = a) then keys ++ [(kv.1, x.2)] else keys)) [].

Definition put_code (a : Address) (code : list byte) : St unit :=
  if bool_decide (code = []) then db_remove (code_key a) else db_insert (code_key a) code.

Definition remove_stale_slots (existing : list (list byte * Hash256)) (storage : gmap (list byte) Hash256)
    : St unit :=
  st_for existing (fun ks =>
    if bool_decide (is_Some (storage !! ks.2)) then st_ret tt else db_remove ks.1).

Definition put_slots (a : Address) (storage : list (Hash256 * Hash256)) : St unit :=
  st_for storage (fun sv =>
    if bool_decide (sv.2 = HASH_ZERO) then db_remove (storage_key a sv.1)
    else db_insert (storage_key a sv.1) sv.2).

Definition put_evm_account (a : Address) (balance : Bix) (nonce : Z) (code : list byte)
    (storage : gmap (list byte) Hash256) : St unit :=
  put_stored_account a balance nonce ;!
  put_code a code ;!
  do? existing := st_read (fun s => existing_slots s a) in
  remove_stale_slots existing storage ;!
  put_slots a (btree_iter storage) ;!
  db_flush.

(** ** EVM state snapshots by height *)
Context {J : Json (list SerializedEvmSnapshotEntry)}.

Definition snapshot_entries (m : EvmStateSnapshot) : list SerializedEvmSnapshotEntry :=
  map (fun kv => let '(address, (b, n, c, slots)) := kv in (address, (b, n, c, btree_iter slots)))
    (btree_iter m).

Definition snapshot_of_entries (l : list SerializedEvmSnapshotEntry) : EvmStateSnapshot :=
  collect_map (map (fun kv => let '(address, (b, n, c, slots)) := kv in
    (address, ((b, n, c, collect_map slots) : EvmAccountSnapshot))) l).

Definition evm_snapshot_key (number : Z) : list byte := EVM_SNAPSHOT_PREFIX ++ pad20 number.

Definition put_evm_state_snapshot (number : Z) (snapshot : EvmStateSnapshot) : St unit :=
  do? value := st_res (json_vec (snapshot_entries snapshot)) in
  db_insert (evm_snapshot_key number) value ;!
  db_flush.

Definition evm_state_snapshot (s : SledStorage) (number : Z)
    : res StorageError (option EvmStateSnapshot) :=
  let? value := db_get s (evm_snapshot_key number) in
  match value with
  | None => Ok None
  | Some value =>
      let? entries := json_slice value in
      Ok (Some (snapshot_of_entries entries))
  end.

Definition snapshot_number (key : list byte) : res StorageError Z :=
  if negb (utf8_valid key) then Err (Serialization "invalid utf-8 sequence")
  else
    let? digits := ok_or (strip_prefix EVM_SNAPSHOT_PREFIX key) (Serialization "invalid EVM snapshot key") in
    ok_or (parse_uint U64_MAX digits) (Serialization "invalid digit found in string").

Definition snapshot_step (number : Z) (best : option (Z * EvmStateSnapshot))
    (kv : list byte * list byte) : res StorageError (option (Z * EvmStateSnapshot)) :=
  let? n := snapshot_number kv.1 in
  if number <? n then Ok best
  else
    let? entries := json_slice kv.2 in
    let snapshot := snapshot_of_entries entries in
    Ok (match best with
        | Some (best_number, _) => if best_number <? n then Some (n, snapshot) else best
        | None => Some (n, snapshot)
        end).

Definition evm_state_snapshot_at_or_before (s : SledStorage) (number : Z)
    : res StorageError (option (Z * EvmStateSnapshot)) :=
  read_rows s EVM_SNAPSHOT_PREFIX (snapshot_step number) None.
End account_store.

(** ** The rows of a map of accounts *)

Inductive AcctKey :=
| KBalance (a : Address) | KNonce (a : Address) | KCode (a : Address) | KSlot (a : Address) (slot : Hash256).

#[export] Instance acct_key_eq_dec : EqDecision AcctKey.
Proof. solve_decision. Defined.

Definition wf_acct_key (q : AcctKey) : Prop :=
  match q with
  | KBalance a | KNonce a | KCode a => wf_address a
  | KSlot a slot => wf_address a /\ wf_hash slot
  end.

Definition acct_value (accts : EvmStateSnapshot) (q : AcctKey) : option (list byte) :=
  match q with
  | KBalance a => (fun x : EvmAccountSnapshot => be_bytes 16 x.1.1.1) <$> accts !! a
  | KNonce a => (fun x : EvmAccountSnapshot => be_bytes 8 x.1.1.2) <$> accts !! a
  | KCode a => x ← accts !! a; let c := x.1.2 in if bool_decide (c = []) then None else Some c
  | KSlot a slot => x ← accts !! a; x.2 !! slot
  end.

Definition wf_evm_account (x : EvmAccountSnapshot) : Prop :=
  in_u128 x.1.1.1 /\ in_u64 x.1.1.2 /\ map_Forall (fun k v => wf_hash k /\ wf_hash v) x.2.
Definition wf_evm_accounts (accts : EvmStateSnapshot) : Prop :=
  map_Forall (fun a x => wf_address a /\ wf_evm_account x) accts.

(** The accounts without code and storage. *)
Definition native_of (accts : EvmStateSnapshot) : Accounts :=
  (fun x : EvmAccountSnapshot => (x.1.1.1, x.1.1.2)) <$> accts.

Section rows.
Context {HX : HexCodec}.

Definition acct_key (q : AcctKey) : list byte :=
  match q with
  | KBalance a => balance_key a | KNonce a => nonce_key a | KCode a => code_key a
  | KSlot a slot => storage_key a slot
  end.

(** The [account:] rows of the store are those of [accts]. *)
Record account_rep (m : Contents) (accts : EvmStateSnapshot) : Prop := {
  rep_value : forall q, wf_acct_key q -> m !! acct_key q = acct_value accts q;
  rep_keys : forall k, has_prefix (B "account:") k = true -> is_Some (m !! k) ->
    exists q, wf_acct_key q /\ k = acct_key q;
  rep_wf : wf_evm_accounts accts;
}.

(** *** Keys *)

Lemma utf8_hex b : utf8_valid (hex_encode b) = true.
Proof.
  apply utf8_ascii. eapply List.Forall_impl; [|apply hex_encode_digits].
  intros c Hc. unfold is_hex_digit in Hc. lia.
Qed.

Lemma strip_0x_hex b : strip_prefix (B "0x") (hex_encode b) = None.
Proof.
  pose proof (hex_encode_digits b) as H. destruct (hex_encode b) as [|c [|d l]]; [done|by simpl; case_decide|].
  inversion H as [|? ? Hc Hl]; subst. inversion Hl as [|? ? Hd Hl']; subst.
  simpl. case_decide as E1; [|done]. case_decide as E2; [|done]. subst d. by vm_compute in Hd.
Qed.

Lemma fixed_from_hex_encode n b :
  Z.of_nat (length b) = n -> fixed_from_hex n (hex_encode b) = Ok b.
Proof.
  intros Hn. unfold fixed_from_hex. rewrite strip_0x_hex. simpl. rewrite hex_decode_encode. simpl.
  by rewrite Hn, Z.eqb_refl.
Qed.

Lemma address_text a : wf_address a -> fixed_from_text address_from_hex (hex_encode a) = Ok a.
Proof.
  intros Ha. unfold fixed_from_text. rewrite utf8_hex. cbn [negb]. unfold address_from_hex.
  by rewrite fixed_from_hex_encode by (rewrite Ha; done).
Qed.
Lemma hash_text h : wf_hash h -> fixed_from_text hash_from_hex (hash_to_hex h) = Ok h.
Proof.
  intros Hh. unfold fixed_from_text, hash_to_hex. rewrite utf8_hex. cbn [negb]. unfold hash_from_hex.
  by rewrite fixed_from_hex_encode by (rewrite Hh; done).
Qed.

(** The first colon after hexadecimal digits. *)
Lemma position_colon l r :
  Forall (fun c => is_hex_digit c = true) l ->
  position (fun c => u8_val c =? 58) (l ++ B ":" ++ r) = Some (length l).
Proof.
  induction 1 as [|c l Hc Hl IH]; [done|]. cbn [app position length]. rewrite IH.
  replace (u8_val c =? 58) with false; [done|]. unfold is_hex_digit in Hc. lia.
Qed.

Lemma parse_balance_key a : wf_address a -> address_from_balance_key (balance_key a) = Ok a.
Proof. intros. unfold address_from_balance_key, balance_key. rewrite strip_prefix_app. by apply address_text. Qed.
Lemma parse_nonce_key a : wf_address a -> address_from_nonce_key (nonce_key a) = Ok a.
Proof. intros. unfold address_from_nonce_key, nonce_key. rewrite strip_prefix_app. by apply address_text. Qed.
Lemma parse_code_key a : wf_address a -> address_from_code_key (code_key a) = Ok a.
Proof. intros. unfold address_from_code_key, code_key. rewrite strip_prefix_app. by apply address_text. Qed.

Lemma parse_storage_key a slot :
  wf_address a -> wf_hash slot -> address_from_storage_key (storage_key a slot) = Ok (a, slot).
Proof.
  intros Ha Hs. unfold address_from_storage_key, storage_key. rewrite strip_prefix_app. cbn [ok_or res_bind].
  rewrite position_colon by apply hex_encode_digits. cbn [ok_or res_bind].
  rewrite take_app_length, drop_app_length. change (drop 1 (B ":" ++ hash_to_hex slot)) with (hash_to_hex slot).
  rewrite address_text by done. cbn [res_bind]. by rewrite hash_text.
Qed.

Lemma acct_key_inj q1 q2 : wf_acct_key q1 -> wf_acct_key q2 -> acct_key q1 = acct_key q2 -> q1 = q2.
Proof.
  intros H1 H2 E. destruct q1, q2; simpl in *; try (by discriminate E).
  - pose proof (parse_balance_key a H1) as P. rewrite E, parse_balance_key in P by done. congruence.
  - pose proof (parse_nonce_key a H1) as P. rewrite E, parse_nonce_key in P by done. congruence.
  - pose proof (parse_code_key a H1) as P. rewrite E, parse_code_key in P by done. congruence.
  - destruct H1, H2. pose proof (parse_storage_key a slot) as P.
    rewrite E, parse_storage_key in P by done. specialize (P ltac:(done) ltac:(done)). congruence.
Qed.

Lemma acct_key_prefix q : has_prefix (B "account:") (acct_key q) = true.
Proof. by destruct q. Qed.

(** The rows below each of the four prefixes. *)
Definition kind_prefix (q : AcctKey) : list byte :=
  match q with
  | KBalance _ => B "account:balance:" | KNonce _ => B "account:nonce:"
  | KCode _ => B "account:code:" | KSlot _ _ => B "account:storage:"
  end.

Lemma acct_rows m accts p k v :
  account_rep m accts -> has_prefix (B "account:") p = true ->
  m !! k = Some v /\ has_prefix p k = true <->
  exists q, wf_acct_key q /\ k = acct_key q /\ acct_value accts q = Some v /\ has_prefix p (acct_key q) = true.
Proof.
  intros Hrep Hp. split.
  - intros [Hk Hpk]. apply has_prefix_true in Hp as [r1 ->]. pose proof Hpk as Hpk'.
    apply has_prefix_true in Hpk as [r2 E].
    destruct (rep_keys _ _ Hrep k) as (q & Hq & ->); [|done|].
    + apply has_prefix_true. exists (r1 ++ r2). by rewrite app_assoc.
    + exists q. split; [done|]. split; [done|]. split; [|done]. by rewrite <- (rep_value _ _ Hrep).
  - intros (q & Hq & -> & Hv & Hpk). split; [|done]. by rewrite (rep_value _ _ Hrep).
Qed.

(** *** Reading the rows back *)

Lemma u128_slice b : in_u128 b -> u128_from_slice (be_bytes 16 b) = Ok b.
Proof. intros. unfold u128_from_slice. rewrite length_be_bytes. simpl. by rewrite be_val_u128. Qed.
Lemma u64_slice msg n : in_u64 n -> u64_from_slice msg (be_bytes 8 n) = Ok n.
Proof. intros. unfold u64_from_slice. rewrite length_be_bytes. simpl. by rewrite be_val_u64. Qed.
Lemma hash_slice h : wf_hash h -> hash_from_bytes h = Ok h.
Proof. intros Hh. unfold hash_from_bytes. by rewrite Hh. Qed.

Section read_back.
Context (m : Contents) (accts : EvmStateSnapshot) (Hrep : account_rep m accts).

Lemma native_loops :
  exists r1 r2,
    fold_left (fun acc kv => let? m := acc in
        let? x := balance_row kv in Ok (partial_alter (entry_balance x.2) x.1 m))
      (prefix_entries (B "account:balance:") m) (Ok ∅) = Ok r1 /\
    fold_left (fun acc kv => let? m := acc in
        let? x := nonce_row kv in Ok (partial_alter (entry_nonce x.2) x.1 m))
      (prefix_entries (B "account:nonce:") m) (Ok r1) = Ok r2 /\
    r2 = native_of accts.
Proof.
  pose proof (rep_wf _ _ Hrep) as Hwf.
  destruct (alter_rows (B "account:balance:") m balance_row balance_key (be_bytes 16)
    (fun a b => exists x : EvmAccountSnapshot, accts !! a = Some x /\ b = x.1.1.1)) with (g := entry_balance) (m0 := (∅ : Accounts))
    as (r1 & E1 & Hr1 & Hn1).
  { intros k v. rewrite acct_rows by done. split.
    - intros ([a|a|a|a s] & Hq & -> & Hv & Hp); try (by discriminate Hp). simpl in Hv.
      destruct (accts !! a) as [x|] eqn:E; [|done]. injection Hv as <-. eauto 8.
    - intros (a & b & (x & Hx & ->) & -> & ->). exists (KBalance a). simpl. rewrite Hx.
      split; [|done]. by eapply Hwf. }
  { intros a b (x & Hx & ->). destruct (Hwf _ _ Hx) as [Ha [Hb _]]. unfold balance_row. cbn [fst snd].
    rewrite parse_balance_key by done. cbn [res_bind]. by rewrite u128_slice. }
  destruct (alter_rows (B "account:nonce:") m nonce_row nonce_key (be_bytes 8)
    (fun a n => exists x : EvmAccountSnapshot, accts !! a = Some x /\ n = x.1.1.2)) with (g := entry_nonce) (m0 := r1)
    as (r2 & E2 & Hr2 & Hn2).
  { intros k v. rewrite acct_rows by done. split.
    - intros ([a|a|a|a s] & Hq & -> & Hv & Hp); try (by discriminate Hp). simpl in Hv.
      destruct (accts !! a) as [x|] eqn:E; [|done]. injection Hv as <-. eauto 8.
    - intros (a & b & (x & Hx & ->) & -> & ->). exists (KNonce a). simpl. rewrite Hx.
      split; [|done]. by eapply Hwf. }
  { intros a b (x & Hx & ->). destruct (Hwf _ _ Hx) as [Ha [_ [Hb _]]]. unfold nonce_row. cbn [fst snd].
    rewrite parse_nonce_key by done. cbn [res_bind]. by rewrite u64_slice. }
  exists r1, r2. split; [done|]. split; [done|]. apply map_eq. intros a. unfold native_of.
  rewrite lookup_fmap. destruct (accts !! a) as [x|] eqn:E; simpl.
  - rewrite (Hr2 a x.1.1.2) by eauto. rewrite (Hr1 a x.1.1.1) by eauto. by rewrite lookup_empty.
  - rewrite Hn2 by (intros ? (? & ? & _); congruence). rewrite Hn1 by (intros ? (? & ? & _); congruence).
    by rewrite lookup_empty.
Qed.

(** The storage loop on accounts that are already there. *)
Lemma slot_fold (xs : list (list byte * list byte * list byte)) (m0 : EvmStateSnapshot) :
  NoDup (map fst xs) ->
  (forall a slot v, (a, slot, v) ∈ xs -> is_Some (m0 !! a)) ->
  let r := fold_left (fun m x => partial_alter (entry_slot x.1.2 x.2) x.1.1 m) xs m0 in
  (forall a, m0 !! a = None -> r !! a = None) /\
  (forall a b n c st, m0 !! a = Some (b, n, c, st) -> exists st',
    r !! a = Some (b, n, c, st') /\
    forall slot, (forall v, (a, slot, v) ∈ xs -> st' !! slot = Some v) /\
      ((forall v, (a, slot, v) ∉ xs) -> st' !! slot = st !! slot)).
Proof.
  revert m0. induction xs as [|[[a0 s0] v0] xs IH]; intros m0 Hnd Hin; cbv zeta.
  - split; [done|]. intros a b n c st Ha. exists st. split; [done|]. intros slot.
    split; [by intros v ?%not_elem_of_nil|done].
  - cbn [map fst fold_left snd] in *. apply list.NoDup_cons in Hnd as [Hn Hnd].
    destruct (Hin a0 s0 v0) as [[[[b0 n0] c0] st0] H0]; [by left|].
    destruct (IH (partial_alter (entry_slot s0 v0) a0 m0)) as [IH1 IH2]; [done| |].
    { intros a slot v Hx. destruct (decide (a = a0)) as [->|Hne].
      - rewrite lookup_partial_alter_eq, H0. by eexists.
      - rewrite lookup_partial_alter_ne by done. eapply Hin. by right. }
    split.
    + intros a Ha. apply IH1. rewrite lookup_partial_alter_ne; [done|]. congruence.
    + intros a b n c st Ha. destruct (decide (a = a0)) as [->|Hne].
      * assert (Some (b, n, c, st) = Some (b0, n0, c0, st0)) as [= -> -> -> ->] by (etransitivity; [symmetry; exact Ha|exact H0]).
        destruct (IH2 a0 b0 n0 c0 (<[s0 := v0]> st0)) as (st' & Hst' & Hs).
        { by rewrite lookup_partial_alter_eq, H0. }
        exists st'. split; [done|]. intros slot. destruct (Hs slot) as [Hs1 Hs2]. split.
        -- intros v [[= -> ->]|Hx]%elem_of_cons; [|by apply Hs1].
           rewrite Hs2; [by rewrite lookup_insert_eq|]. intros v Hx. apply Hn.
           apply list_elem_of_fmap. by exists (a0, s0, v).
        -- intros Hno. assert (slot <> s0) by (intros ->; apply (Hno v0); by left).
           rewrite Hs2; [by rewrite lookup_insert_ne|]. intros v Hx. apply (Hno v). by right.
      * destruct (IH2 a b n c st) as (st' & Hst' & Hs); [by rewrite lookup_partial_alter_ne|].
        exists st'. split; [done|]. intros slot. destruct (Hs slot) as [Hs1 Hs2]. split.
        -- intros v [[= -> -> ->]|Hx]%elem_of_cons; [done|by apply Hs1].
        -- intros Hno. apply Hs2. intros v Hx. apply (Hno v). by right.
Qed.

(** The decoded rows of the storage slots. *)
Lemma storage_rows : exists xs,
  Forall2 (fun kv x => storage_row kv = Ok x) (prefix_entries (B "account:storage:") m) xs /\
  NoDup (map fst xs) /\
  forall x v, (x, v) ∈ xs <-> exists acc, accts !! x.1 = Some acc /\ acc.2 !! x.2 = Some v.
Proof.
  pose proof (rep_wf _ _ Hrep) as Hwf.
  apply (decode_rows_all (B "account:storage:") m storage_row
    (fun x => storage_key x.1 x.2) (fun v => v)).
  - intros k v. rewrite acct_rows by done. split.
    + intros ([a|a|a|a s] & Hq & -> & Hv & Hp); try (by discriminate Hp). simpl in Hv.
      destruct (accts !! a) as [x|] eqn:E; [|done]. exists (a, s), v. eauto.
    + intros ([a s] & b & (x & Hx & Hs) & -> & ->). exists (KSlot a s). simpl in *. rewrite Hx. simpl.
      split; [|done]. destruct (Hwf _ _ Hx) as [Ha (_ & _ & Hst)]. by destruct (Hst _ _ Hs).
  - intros [a s] v (x & Hx & Hs). simpl in *. destruct (Hwf _ _ Hx) as [Ha (_ & _ & Hst)].
    destruct (Hst _ _ Hs). unfold storage_row. cbn [fst snd]. rewrite parse_storage_key by done.
    cbn [res_bind]. rewrite hash_slice by done. done.
Qed.

(** The code and storage loops on the accounts without code and storage. *)
Lemma evm_loops :
  exists r1 r2,
    fold_left (fun acc kv => let? m := acc in
        let? x := code_row kv in Ok (partial_alter (entry_code x.2) x.1 m))
      (prefix_entries (B "account:code:") m)
      (Ok ((fun bn => (bn.1, bn.2, [], ∅) : EvmAccountSnapshot) <$> native_of accts)) = Ok r1 /\
    fold_left (fun acc kv => let? m := acc in
        let? x := storage_row kv in Ok (partial_alter (entry_slot x.1.2 x.2) x.1.1 m))
      (prefix_entries (B "account:storage:") m) (Ok r1) = Ok r2 /\
    r2 = accts.
Proof.
  pose proof (rep_wf _ _ Hrep) as Hwf.
  destruct (alter_rows (B "account:code:") m code_row code_key (fun c => c)
    (fun a c => exists x, accts !! a = Some x /\ c = x.1.2 /\ c <> [])) with (g := entry_code)
    (m0 := (fun bn => (bn.1, bn.2, [], ∅) : EvmAccountSnapshot) <$> native_of accts)
    as (r1 & E1 & Hr1 & Hn1).
  { intros k v. rewrite acct_rows by done. split.
    - intros ([a|a|a|a s] & Hq & -> & Hv & Hp); try (by discriminate Hp). simpl in Hv.
      destruct (accts !! a) as [x|] eqn:E; [|done]. simpl in Hv. case_bool_decide; [done|].
      injection Hv as <-. eauto 10.
    - intros (a & b & (x & Hx & -> & Hne) & -> & ->). exists (KCode a). simpl. rewrite Hx. simpl.
      rewrite bool_decide_eq_false_2 by done. split; [|done]. by eapply Hwf. }
  { intros a c (x & Hx & -> & _). destruct (Hwf _ _ Hx) as [Ha _]. unfold code_row. cbn [fst snd].
    by rewrite parse_code_key. }
  assert (forall a, r1 !! a = (fun x : EvmAccountSnapshot => (x.1, ∅)) <$> accts !! a) as Hr.
  { intros a. destruct (accts !! a) as [[[[b n] c] st]|] eqn:E; simpl.
    - assert (((fun bn => (bn.1, bn.2, [], ∅) : EvmAccountSnapshot) <$> native_of accts) !! a
        = Some (b, n, [], ∅)) as E0 by (unfold native_of; by rewrite !lookup_fmap, E).
      destruct (decide (c = [])) as [->|Hne].
      + rewrite Hn1; [done|]. intros y (x & Hx & -> & Hne). rewrite E in Hx. by injection Hx as <-.
      + rewrite (Hr1 a c); [by rewrite E0|]. exists (b, n, c, st). done.
    - rewrite Hn1 by (intros ? (? & ? & _); congruence). unfold native_of. by rewrite !lookup_fmap, E. }
  destruct storage_rows as (xs & Hxs & Hnd & Hin).
  destruct (slot_fold xs r1 Hnd) as [Hf1 Hf2].
  { intros a slot v Hx. apply (Hin (a, slot)) in Hx as (acc & Ha & _). simpl in Ha.
    rewrite Hr, Ha. by eexists. }
  eexists r1, _. split; [done|]. split.
  { apply (fold_decode storage_row (fun m x => partial_alter (entry_slot x.1.2 x.2) x.1.1 m)).
    by exists xs. }
  apply map_eq. intros a. destruct (accts !! a) as [[[[b n] c] st]|] eqn:E.
  - destruct (Hf2 a b n c ∅) as (st' & -> & Hs); [by rewrite Hr, E|]. do 2 f_equal.
    apply map_eq. intros slot. destruct (Hs slot) as [Hs1 Hs2]. destruct (st !! slot) as [v|] eqn:Ev.
    + apply Hs1. apply (Hin (a, slot)). simpl. rewrite E. eauto.
    + rewrite Hs2; [by rewrite lookup_empty|]. intros v Hx. apply (Hin (a, slot)) in Hx as (acc & Ha & Hv).
      simpl in *. rewrite E in Ha. injection Ha as <-. simpl in Hv. congruence.
  - apply Hf1. by rewrite Hr, E.
Qed.
End read_back.

(** *** Writing rows *)

(** Set or remove one entry: [insert] and [delete] are the two instances. *)
Definition set_key {V} (k : list byte) (o : option V) (m : gmap (list byte) V) : gmap (list byte) V :=
  partial_alter (fun _ => o) k m.

Lemma lookup_set_key {V} (k : list byte) (o : option V) (m : gmap (list byte) V) (k' : list byte) :
  set_key k o m !! k' = if decide (k' = k) then o else m !! k'.
Proof.
  unfold set_key. case_decide as E; [subst; apply lookup_partial_alter_eq|].
  by apply lookup_partial_alter_ne.
Qed.

(** One row changes: the rows of [accts'] are those of [accts] but for [q]. *)
Lemma rep_write (m : Contents) (f : AcctKey -> option (list byte)) q o :
  (forall q', wf_acct_key q' -> m !! acct_key q' = f q') -> wf_acct_key q ->
  forall q', wf_acct_key q' ->
    set_key (acct_key q) o m !! acct_key q' = if decide (q' = q) then o else f q'.
Proof.
  intros Hm Hq q' Hq'. rewrite lookup_set_key. case_decide as E.
  - apply acct_key_inj in E; [|done..]. by rewrite decide_True.
  - rewrite decide_False by congruence. by apply Hm.
Qed.

Lemma rep_keys_write (m : Contents) q o :
  (forall k, has_prefix (B "account:") k = true -> is_Some (m !! k) ->
    exists q, wf_acct_key q /\ k = acct_key q) -> wf_acct_key q ->
  forall k, has_prefix (B "account:") k = true -> is_Some (set_key (acct_key q) o m !! k) ->
    exists q, wf_acct_key q /\ k = acct_key q.
Proof.
  intros Hm Hq k Hk Hs. rewrite lookup_set_key in Hs. case_decide; [eauto|]. by apply Hm.
Qed.

(** The code and storage an account has, none when it is new. *)
Definition stored_rest (accts : EvmStateSnapshot) (a : Address) : list byte * gmap (list byte) (list byte) :=
  let x := default entry_default (accts !! a) in (x.1.2, x.2).

Lemma rep_put_account (m : Contents) (accts : EvmStateSnapshot) a b n :
  account_rep m accts -> wf_address a -> in_u128 b -> in_u64 n ->
  account_rep (<[nonce_key a := be_bytes 8 n]> (<[balance_key a := be_bytes 16 b]> m))
    (<[a := (b, n, (stored_rest accts a).1, (stored_rest accts a).2)]> accts).
Proof.
  intros Hrep Ha Hb Hn. pose proof (rep_wf _ _ Hrep) as Hwf. constructor.
  - intros q Hq.
    change (set_key (acct_key (KNonce a)) (Some (be_bytes 8 n))
      (set_key (acct_key (KBalance a)) (Some (be_bytes 16 b)) m) !! acct_key q =
      acct_value (<[a := (b, n, (stored_rest accts a).1, (stored_rest accts a).2)]> accts) q).
    rewrite (rep_write _ (fun q' => if decide (q' = KBalance a) then Some (be_bytes 16 b)
      else acct_value accts q')); [|by apply rep_write; [apply Hrep|]|done|done].
    destruct q as [a'|a'|a'|a' s]; simpl; destruct (decide (a' = a)) as [->|Hne].
    1,3: rewrite lookup_insert_eq; repeat case_decide; done.
    1,2: rewrite lookup_insert_ne by done; repeat case_decide; try congruence; done.
    all: repeat case_decide; try congruence.
    all: try (rewrite lookup_insert_ne by done; done).
    all: rewrite lookup_insert_eq; unfold stored_rest; simpl; by destruct (accts !! a).
  - apply (rep_keys_write _ (KNonce a) (Some _)); [|done].
    apply (rep_keys_write _ (KBalance a) (Some _)); [|done]. apply Hrep.
  - apply map_Forall_insert_2; [|done]. split; [done|]. split; [done|]. split; [done|].
    unfold stored_rest. destruct (accts !! a) as [x|] eqn:E; simpl; [by eapply Hwf|apply map_Forall_empty].
Qed.

Lemma rep_put_code (m : Contents) (accts : EvmStateSnapshot) a b n c0 c st :
  account_rep m accts -> accts !! a = Some (b, n, c0, st) ->
  account_rep (set_key (code_key a) (if bool_decide (c = []) then None else Some c) m)
    (<[a := (b, n, c, st)]> accts).
Proof.
  intros Hrep E. pose proof (rep_wf _ _ Hrep) as Hwf. destruct (Hwf _ _ E) as [Ha Hx]. constructor.
  - intros q Hq.
    change (code_key a) with (acct_key (KCode a)). rewrite (rep_write _ (acct_value accts)); [|apply Hrep|done|done].
    destruct q as [a'|a'|a'|a' s]; simpl; destruct (decide (a' = a)) as [->|Hne].
    all: repeat case_decide; try congruence.
    all: try (rewrite lookup_insert_ne by done; done).
    all: rewrite lookup_insert_eq; simpl; try done; by rewrite E.
  - by apply (rep_keys_write _ (KCode a)); [apply Hrep|].
  - apply map_Forall_insert_2; [|done]. by split.
Qed.

Lemma rep_put_slot (m : Contents) (accts : EvmStateSnapshot) a b n c st slot o :
  account_rep m accts -> accts !! a = Some (b, n, c, st) -> wf_hash slot ->
  (forall v, o = Some v -> wf_hash v) ->
  account_rep (set_key (storage_key a slot) o m) (<[a := (b, n, c, set_key slot o st)]> accts).
Proof.
  intros Hrep E Hslot Ho. pose proof (rep_wf _ _ Hrep) as Hwf. destruct (Hwf _ _ E) as [Ha (Hb & Hn & Hst)].
  constructor.
  - intros q Hq.
    change (storage_key a slot) with (acct_key (KSlot a slot)).
    rewrite (rep_write _ (acct_value accts)); [|apply Hrep|done|done].
    destruct q as [a'|a'|a'|a' s]; simpl; destruct (decide (a' = a)) as [->|Hne].
    all: repeat case_decide; try congruence.
    all: try (rewrite lookup_insert_ne by done; done).
    all: rewrite lookup_insert_eq; simpl; try (by rewrite E).
    + rewrite lookup_set_key. by rewrite decide_True by congruence.
    + rewrite lookup_set_key. rewrite decide_False by congruence. by rewrite E.
  - by apply (rep_keys_write _ (KSlot a slot)); [apply Hrep|].
  - apply map_Forall_insert_2; [|done]. split; [done|]. split; [done|]. split; [done|].
    intros s v. simpl. rewrite lookup_set_key. case_decide; [subst; intros ->; eauto|apply Hst].
Qed.
End rows.

(** ** The methods refine operations on the map of accounts *)

Section refinement.
Context {S : Sled} {HX : HexCodec}.

Lemma put_stored_account_ok a b n s u s' :
  put_stored_account a b n s = (Ok u, s') ->
  contents s' = <[nonce_key a := be_bytes 8 n]> (<[balance_key a := be_bytes 16 b]> (contents s)).
Proof. unfold put_stored_account. intros H. st_inv. congruence. Qed.

Lemma put_code_ok a c s u s' :
  put_code a c s = (Ok u, s') ->
  contents s' = set_key (code_key a) (if bool_decide (c = []) then None else Some c) (contents s).
Proof. unfold put_code. intros H. case_bool_decide; st_inv; done. Qed.

(** Reading the accounts of a store that represents them. *)
Lemma account_snapshot_rep s accts :
  account_rep (contents s) accts ->
  (forall r, account_snapshot s = Ok r -> r = native_of accts) /\
  (forall r, evm_account_snapshot s = Ok r -> r = accts) /\
  (SledReliable -> account_snapshot s = Ok (native_of accts) /\ evm_account_snapshot s = Ok accts).
Proof.
  intros Hrep. destruct (native_loops _ _ Hrep) as (r1 & r2 & E1 & E2 & ->).
  destruct (evm_loops _ _ Hrep) as (r3 & r4 & E3 & E4 & ->).
  assert (forall r, account_snapshot s = Ok r -> r = native_of accts) as Hn.
  { unfold account_snapshot. intros r H. apply res_bind_ok in H as (q & H1 & H2).
    apply read_rows_ok in H1, H2. congruence. }
  split; [done|]. split.
  - unfold evm_account_snapshot. intros r H. apply res_bind_ok in H as (q & H1 & H).
    apply Hn in H1 as ->. apply res_bind_ok in H as (q' & H2 & H3).
    apply read_rows_ok in H2, H3. congruence.
  - intros Hrel. assert (account_snapshot s = Ok (native_of accts)) as E.
    { unfold account_snapshot. rewrite !read_rows_reliable, E1. cbn [res_bind].
      by rewrite read_rows_reliable. }
    split; [done|]. unfold evm_account_snapshot. rewrite E. cbn [res_bind].
    rewrite read_rows_reliable, E3. cbn [res_bind]. by rewrite read_rows_reliable.
Qed.

(** The stored slots of one address. *)
Lemma existing_slots_rep s accts a b n c st keys :
  account_rep (contents s) accts -> accts !! a = Some (b, n, c, st) ->
  existing_slots s a = Ok keys ->
  forall k slot, (k, slot) ∈ keys <-> k = storage_key a slot /\ is_Some (st !! slot).
Proof.
  intros Hrep E Hk k slot. unfold existing_slots in Hk. apply read_rows_ok in Hk.
  pose proof (rep_wf _ _ Hrep) as Hwf.
  assert (forall rows acc, fold_left (fun acc kv => let? keys := acc in
      let? x := address_from_storage_key kv.1 in
      Ok (if bool_decide (x.1 = a) then keys ++ [(kv.1, x.2)] else keys)) rows (Ok acc) = Ok keys ->
    ((k, slot) ∈ keys <-> (k, slot) ∈ acc \/ exists v : list byte, (k, v) ∈ rows /\
      address_from_storage_key k = Ok (a, slot))) as Hfold.
  { clear. induction rows as [|[k' v'] rows IH]; intros acc H.
    - injection H as <-. split; [by left|]. intros [?|(v & ?%not_elem_of_nil & _)]; done.
    - apply fold_res_cons_ok in H as (acc' & H1 & H). apply res_bind_ok in H1 as ([a' s'] & Hp & [= <-]).
      apply IH in H. rewrite H. clear IH H. cbn [fst snd] in *. split.
      + intros [Hin|(v & Hv & Hd)]; [|right; exists v; split; [by right|done]].
        case_bool_decide as Ea; [|by left]. apply elem_of_app in Hin as [Hin|Hin]; [by left|].
        apply list_elem_of_singleton in Hin as [= -> ->]. right. exists v'. split; [by left|]. by subst.
      + intros [Hin|(v & Hv & Hd)].
        * left. case_bool_decide; [|done]. apply elem_of_app. by left.
        * apply elem_of_cons in Hv as [[= -> ->]|Hv]; [|right; eauto].
          left. rewrite Hp in Hd. injection Hd as -> ->. rewrite bool_decide_eq_true_2 by done.
          apply elem_of_app. right. by apply list_elem_of_singleton. }
  rewrite (Hfold _ _ Hk). clear Hk Hfold. split.
  - intros [?%not_elem_of_nil|(v & Hv & Hd)]; [done|]. apply elem_of_prefix_entries in Hv.
    apply (acct_rows _ accts) in Hv; [|done|done]. destruct Hv as ([a'|a'|a'|a' s'] & Hq & -> & Hv & Hp);
      try (by discriminate Hp). simpl in *. destruct Hq. rewrite parse_storage_key in Hd by done.
    injection Hd as -> ->. rewrite E in Hv. simpl in Hv. by rewrite Hv.
  - intros [-> [v Hv]]. right. exists v. destruct (Hwf _ _ E) as (Ha & _ & _ & Hst).
    destruct (Hst _ _ Hv) as [Hs _]. rewrite parse_storage_key by done. split; [|done].
    apply elem_of_prefix_entries, (acct_rows _ accts); [done|done|]. exists (KSlot a slot). simpl.
    by rewrite E.
Qed.

Lemma remove_stale_slots_rep storage a b n c keys st s u s' accts :
  account_rep (contents s) accts -> accts !! a = Some (b, n, c, st) ->
  (forall k slot, (k, slot) ∈ keys -> k = storage_key a slot /\ wf_hash slot) ->
  remove_stale_slots keys storage s = (Ok u, s') ->
  exists st', account_rep (contents s') (<[a := (b, n, c, st')]> accts) /\
    forall slot, st' !! slot =
      if decide (slot ∈ map snd keys /\ storage !! slot = None) then None else st !! slot.
Proof.
  revert st s accts. unfold remove_stale_slots.
  induction keys as [|[k slot] keys IH]; intros st s accts Hrep E Hk H.
  - simpl in H. st_inv. exists st. split; [by rewrite insert_id|]. intros slot.
    rewrite decide_False; [done|]. intros [?%not_elem_of_nil _]. done.
  - apply st_for_cons in H as (s1 & H1 & H). destruct (Hk k slot) as [-> Hs]; [by left|].
    assert (exists st1, account_rep (contents s1) (<[a := (b, n, c, st1)]> accts) /\
      forall sl, st1 !! sl = if decide (sl = slot /\ storage !! slot = None) then None else st !! sl)
      as (st1 & Hrep1 & Hst1).
    { cbn [fst snd] in H1. case_bool_decide as Hsl.
      - st_inv. exists st. split; [by rewrite insert_id|]. intros sl. rewrite decide_False; [done|].
        intros [_ Hnone]. rewrite Hnone in Hsl. by destruct Hsl.
      - st_inv. exists (set_key slot None st). rewrite H1. split.
        + by apply (rep_put_slot _ _ _ _ _ _ _ _ None).
        + intros sl. rewrite lookup_set_key. assert (storage !! slot = None) by (by apply eq_None_not_Some).
          repeat case_decide; naive_solver. }
    destruct (IH st1 s1 _ Hrep1) as (st' & Hrep' & Hst').
    { by rewrite lookup_insert_eq. }
    { intros k' slot' Hin. apply Hk. by right. }
    { done. }
    rewrite insert_insert_eq in Hrep'. exists st'. split; [done|]. intros sl. rewrite Hst', Hst1.
    cbn [map snd]. pose proof (elem_of_cons (map snd keys) sl slot) as Hc.
    repeat case_decide; try done; exfalso; naive_solver.
Qed.

Lemma put_slots_rep a b n c l st s u s' accts :
  account_rep (contents s) accts -> accts !! a = Some (b, n, c, st) ->
  Forall (fun sv => wf_hash sv.1 /\ wf_hash sv.2) l -> NoDup (map fst l) ->
  put_slots a l s = (Ok u, s') ->
  exists st', account_rep (contents s') (<[a := (b, n, c, st')]> accts) /\
    forall slot, (forall v, (slot, v) ∈ l -> st' !! slot = if bool_decide (v = HASH_ZERO) then None else Some v) /\
      (slot ∉ map fst l -> st' !! slot = st !! slot).
Proof.
  revert st s accts. unfold put_slots.
  induction l as [|[slot v] l IH]; intros st s accts Hrep E Hl Hnd H.
  - simpl in H. st_inv. exists st. split; [by rewrite insert_id|]. intros slot.
    split; [by intros v ?%not_elem_of_nil|done].
  - apply st_for_cons in H as (s1 & H1 & H). inversion Hl as [|? ? [Hs Hv] Hl']; subst.
    cbn [map fst snd] in *. apply list.NoDup_cons in Hnd as [Hn Hnd].
    set (o := if bool_decide (v = HASH_ZERO) then None else Some v).
    assert (account_rep (contents s1) (<[a := (b, n, c, set_key slot o st)]> accts)) as Hrep1.
    { assert (contents s1 = set_key (storage_key a slot) o (contents s)) as ->.
      { subst o. case_bool_decide; st_inv; done. }
      apply rep_put_slot; [done..|]. subst o. intros w. case_bool_decide; [done|]. by intros [= <-]. }
    destruct (IH (set_key slot o st) s1 _ Hrep1) as (st' & Hrep' & Hst'); [by rewrite lookup_insert_eq|done..|].
    rewrite insert_insert_eq in Hrep'. exists st'. split; [done|]. intros sl. destruct (Hst' sl) as [H2 H3].
    split.
    + intros w [[= -> ->]|Hin]%elem_of_cons; [|by apply H2]. rewrite H3 by done. rewrite lookup_set_key.
      by rewrite decide_True.
    + rewrite not_elem_of_cons. intros [Hne Hno]. rewrite H3 by done. rewrite lookup_set_key.
      by rewrite decide_False.
Qed.

Definition nonzero_slots (st : gmap (list byte) (list byte)) : gmap (list byte) (list byte) :=
  filter (fun kv => kv.2 <> HASH_ZERO) st.

Lemma put_evm_account_rep s accts a b n c st u s' :
  account_rep (contents s) accts -> wf_address a -> wf_evm_account (b, n, c, st) ->
  put_evm_account a b n c st s = (Ok u, s') ->
  account_rep (contents s') (<[a := (b, n, c, nonzero_slots st)]> accts).
Proof.
  intros Hrep Ha (Hb & Hn & Hst) H. simpl in Hb, Hn, Hst. unfold put_evm_account in H.
  apply st_bind_ok in H as (u1 & s1 & H1 & H). apply put_stored_account_ok in H1.
  apply st_bind_ok in H as (u2 & s2 & H2 & H). apply put_code_ok in H2.
  apply st_bind_ok in H as (keys & s3 & H3 & H). apply st_read_ok in H3 as [H3 ->].
  apply st_bind_ok in H as (u4 & s4 & H4 & H).
  apply st_bind_ok in H as (u5 & s5 & H5 & H). apply db_flush_contents in H.
  pose proof (rep_put_account _ _ a b n Hrep Ha Hb Hn) as Hrep1. rewrite <- H1 in Hrep1.
  set (c0 := (stored_rest accts a).1) in *. set (st0 := (stored_rest accts a).2) in *.
  apply (rep_put_code _ _ a b n c0 c st0) in Hrep1; [|by rewrite lookup_insert_eq].
  rewrite <- H2, insert_insert_eq in Hrep1.
  assert (<[a := (b, n, c, st0)]> accts !! a = Some (b, n, c, st0)) as E by (by rewrite lookup_insert_eq).
  pose proof (existing_slots_rep _ _ _ _ _ _ _ _ Hrep1 E H3) as Hkeys.
  destruct (rep_wf _ _ Hrep1 _ _ E) as (_ & _ & _ & Hst0). simpl in Hst0.
  destruct (remove_stale_slots_rep st a b n c keys st0 _ u4 s4 _ Hrep1 E) as (st1 & Hrep2 & Hst1); [|exact H4|].
  { intros k slot Hin. apply Hkeys in Hin as [-> [v Hv]]. by destruct (Hst0 _ _ Hv). }
  rewrite insert_insert_eq in Hrep2.
  destruct (put_slots_rep a b n c (btree_iter st) st1 s4 u5 s5 _ Hrep2) as (st2 & Hrep3 & Hst2);
    [by rewrite lookup_insert_eq| |apply NoDup_btree_keys|done|].
  { apply Forall_forall. intros [k v] Hin%list_elem_of_In. apply elem_of_btree_iter in Hin. by apply Hst. }
  rewrite insert_insert_eq in Hrep3. rewrite H.
  replace (nonzero_slots st) with st2; [done|]. apply map_eq. intros slot. apply option_eq. intros v.
  unfold nonzero_slots. rewrite map_lookup_filter_Some. simpl. destruct (Hst2 slot) as [Ha2 Hb2].
  destruct (st !! slot) as [w|] eqn:Es.
  - rewrite (Ha2 w) by (by apply elem_of_btree_iter). destruct (bool_decide_reflect (w = HASH_ZERO)) as [Hw|Hw].
    + split; [done|]. by intros [[= <-] Hne].
    + split; [intros [= <-]; done|]. by intros [[= <-] _].
  - rewrite Hb2.
    + rewrite Hst1. case_decide as Hd; [by split; [|intros [? _]]|]. split; [|by intros [? _]].
      intros Hv. exfalso. apply Hd. split; [|done]. apply list_elem_of_fmap.
      exists (storage_key a slot, slot). split; [done|]. apply Hkeys. split; [done|]. by eexists.
    + intros Hin. apply list_elem_of_fmap in Hin as ([k w] & -> & Hin).
      apply elem_of_btree_iter in Hin. simpl in Es. congruence.
Qed.

(** Rows outside the accounts. *)
Lemma rep_other m accts k v :
  account_rep m accts -> has_prefix (B "account:") k = false -> account_rep (<[k := v]> m) accts.
Proof.
  intros Hrep Hk. constructor; [| |apply Hrep].
  - intros q Hq. rewrite lookup_insert_ne; [by apply Hrep|]. intros ->. by rewrite acct_key_prefix in Hk.
  - intros k' Hk' Hs. apply (rep_keys _ _ Hrep); [done|]. rewrite lookup_insert_ne in Hs; [done|]. congruence.
Qed.

Lemma rep_empty : account_rep ∅ ∅.
Proof.
  constructor; [|by intros k _ [v ?]|apply map_Forall_empty].
  intros [a|a|a|a slot] _; simpl; by rewrite !lookup_empty.
Qed.
End refinement.

(** ** The account methods as calls, and what they do to the map *)

Inductive AccountCall :=
| CallPut (a : Address) (b : Bix) (n : Z)
| CallCredit (a : Address) (amount : Bix)
| CallPutEvm (a : Address) (b : Bix) (n : Z) (c : list byte) (st : gmap (list byte) (list byte))
| CallSetRewards (number : Z)
| CallSetSupply (indexed_to total burned : Z).

Definition wf_call (call : AccountCall) : Prop :=
  match call with
  | CallPut a b n => wf_address a /\ in_u128 b /\ in_u64 n
  | CallCredit a amount => wf_address a /\ in_u128 amount
  | CallPutEvm a b n c st => wf_address a /\ wf_evm_account (b, n, c, st)
  | CallSetRewards _ | CallSetSupply _ _ _ => True
  end.

Definition spec_call (accts : EvmStateSnapshot) (call : AccountCall) : EvmStateSnapshot :=
  let put a b n := <[a := (b, n, (stored_rest accts a).1, (stored_rest accts a).2)]> accts in
  match call with
  | CallPut a b n => put a b n
  | CallCredit a amount =>
      if amount =? 0 then accts
      else let x := default entry_default (accts !! a) in
           put a (sat_add U128_MAX x.1.1.1 amount) x.1.1.2
  | CallPutEvm a b n c st => <[a := (b, n, c, nonzero_slots st)]> accts
  | CallSetRewards _ | CallSetSupply _ _ _ => accts
  end.

Section calls.
Context {S : Sled} {HX : HexCodec}.

Definition run_call (call : AccountCall) : St unit :=
  match call with
  | CallPut a b n => put_stored_account a b n
  | CallCredit a amount => credit_balance a amount
  | CallPutEvm a b n c st => put_evm_account a b n c st
  | CallSetRewards number => set_reward_indexed_to number
  | CallSetSupply indexed_to total burned => set_supply_totals indexed_to total burned
  end.

(** Point reads of a represented store. *)
Lemma balance_rep s accts a :
  account_rep (contents s) accts -> wf_address a ->
  let x := default entry_default (accts !! a) in
  (forall b, balance s a = Ok b -> b = x.1.1.1) /\ (forall n, nonce s a = Ok n -> n = x.1.1.2) /\
  (SledReliable -> balance s a = Ok x.1.1.1 /\ nonce s a = Ok x.1.1.2).
Proof.
  intros Hrep Ha x. subst x. pose proof (rep_wf _ _ Hrep) as Hwf.
  assert (Eb : contents s !! balance_key a = (fun x : EvmAccountSnapshot => be_bytes 16 x.1.1.1) <$> accts !! a)
    by apply (rep_value _ _ Hrep (KBalance a) Ha).
  assert (En : contents s !! nonce_key a = (fun x : EvmAccountSnapshot => be_bytes 8 x.1.1.2) <$> accts !! a)
    by apply (rep_value _ _ Hrep (KNonce a) Ha).
  unfold balance, nonce. destruct (accts !! a) as [[[[b n] c] st]|] eqn:E; simpl in *.
  1: destruct (Hwf _ _ E) as (_ & Hb & Hn & _); simpl in *.
  all: split; [intros r (o & H & H')%res_bind_ok; apply db_get_ok in H; rewrite Eb in H; subst o|].
  2,4: split; [intros r (o & H & H')%res_bind_ok; apply db_get_ok in H; rewrite En in H; subst o|].
  3,5: intros Hrel; rewrite !db_get_reliable, Eb, En; cbn [res_bind].
  all: rewrite ?u128_slice, ?u64_slice in * by done; try done; by inversion H'.
Qed.

Lemma stored_rest_default accts a :
  stored_rest accts a = ((default entry_default (accts !! a)).1.2, (default entry_default (accts !! a)).2).
Proof. done. Qed.

Lemma run_call_rep s accts call s' :
  account_rep (contents s) accts -> wf_call call -> run_call call s = (Ok tt, s') ->
  account_rep (contents s') (spec_call accts call).
Proof.
  intros Hrep Hwf H. destruct call as [a b n|a amount|a b n c st|number|i t b]; simpl in *.
  - apply put_stored_account_ok in H as ->. destruct Hwf as (Ha & Hb & Hn). by apply rep_put_account.
  - destruct Hwf as [Ha Hamount]. unfold credit_balance in H. destruct (amount =? 0); st_inv; [done|].
    destruct (balance_rep _ _ a Hrep Ha) as (Hb & Hn & _).
    apply Hb in H0. apply Hn in H1. subst.
    apply put_stored_account_ok in H as ->.
    assert (in_u128 (default entry_default (accts !! a)).1.1.1 /\
      in_u64 (default entry_default (accts !! a)).1.1.2) as [Hb' Hn'].
    { destruct (accts !! a) as [x|] eqn:E; simpl; [|by vm_compute].
      destruct (rep_wf _ _ Hrep _ _ E) as (_ & ? & ? & _). done. }
    apply rep_put_account; auto with blq_arith.
  - destruct Hwf as [Ha Hx]. by eapply put_evm_account_rep.
  - unfold set_reward_indexed_to in H. st_inv. rewrite H, H0. by apply rep_other.
  - unfold set_supply_totals in H. st_inv. rewrite H, H2, H1, H0. do 3 (apply rep_other; [|done]). done.
Qed.

Lemma succeeds_existing s accts a :
  SledReliable -> account_rep (contents s) accts -> exists keys, existing_slots s a = Ok keys.
Proof.
  intros HR Hrep. unfold existing_slots. rewrite read_rows_reliable.
  assert (Forall (fun kv => exists x, address_from_storage_key kv.1 = Ok x)
    (prefix_entries (B "account:storage:") (contents s))) as Hall.
  { apply Forall_forall. intros [k v] Hin%list_elem_of_In. apply elem_of_prefix_entries in Hin.
    apply (acct_rows _ accts) in Hin; [|done|done].
    destruct Hin as ([a'|a'|a'|a' s'] & Hq & -> & _ & Hp); try (by discriminate Hp).
    destruct Hq. exists (a', s'). by apply parse_storage_key. }
  match goal with |- exists keys, fold_left ?f ?l _ = _ =>
    enough (forall acc, exists keys, fold_left f l (Ok acc) = Ok keys) as He by apply He end.
  induction Hall as [|kv l [x Hx] Hl IH]; intros acc; [simpl; eauto|].
  cbn [fold_left res_bind]. rewrite Hx. cbn [res_bind]. apply IH.
Qed.

Lemma run_call_succeeds s accts call :
  SledReliable -> account_rep (contents s) accts -> wf_call call -> succeeds (run_call call) s.
Proof.
  intros HR Hrep Hwf. destruct call as [a b n|a amount|a b n c st|number|i t b]; simpl in *.
  - unfold put_stored_account. run_steps.
  - unfold credit_balance. destruct (amount =? 0); [run_steps|]. destruct Hwf as [Ha _].
    destruct (balance_rep _ _ a Hrep Ha) as (_ & _ & Hr). destruct (Hr HR) as [Hb Hn].
    apply succeeds_bind; [by eapply succeeds_read|]. intros b s1 [_ ->]%st_read_ok.
    apply succeeds_bind; [by eapply succeeds_read|]. intros n s1 [_ ->]%st_read_ok.
    unfold put_stored_account. run_steps.
  - destruct Hwf as [Ha (Hb & Hn & Hst)]. unfold put_evm_account.
    apply succeeds_bind; [unfold put_stored_account; run_steps|]. intros u1 s1 H1%put_stored_account_ok.
    apply succeeds_bind; [unfold put_code; run_steps|]. intros u2 s2 H2%put_code_ok.
    pose proof (rep_put_account _ _ a b n Hrep Ha Hb Hn) as Hrep1. rewrite <- H1 in Hrep1.
    eapply (rep_put_code _ _ a b n _ c) in Hrep1; [|by rewrite lookup_insert_eq]. rewrite <- H2 in Hrep1.
    destruct (succeeds_existing s2 _ a HR Hrep1) as [keys Hkeys].
    apply succeeds_bind; [by eapply succeeds_read|]. intros keys' s3 [_ ->]%st_read_ok.
    unfold remove_stale_slots, put_slots.
    apply succeeds_bind; [apply succeeds_for; intros; run_steps|]. intros u3 s3 _.
    apply succeeds_bind; [apply succeeds_for; intros; run_steps|]. intros u4 s4 _. run_steps.
  - unfold set_reward_indexed_to. run_steps.
  - unfold set_supply_totals. run_steps.
Qed.

(** C4: the account methods of the store refine operations on a map of
    accounts.  From a store that represents such a map, any sequence of
    writes, credits, EVM account writes and marker updates that succeeds
    leaves a store that represents the map the specification computes, so
    that the snapshots and the point reads return its accounts: an EVM account
    replaces code and storage as a whole and keeps no zero slot, a plain write
    keeps code and storage.  On a store without I/O failures the sequence and
    the reads do succeed. *)
Theorem account_calls_refine calls s accts :
  account_rep (contents s) accts -> Forall wf_call calls ->
  let accts' := fold_left spec_call calls accts in
  (forall s', st_for calls run_call s = (Ok tt, s') ->
    account_rep (contents s') accts' /\
    (forall r, account_snapshot s' = Ok r -> r = native_of accts') /\
    (forall r, evm_account_snapshot s' = Ok r -> r = accts') /\
    (forall a b, wf_address a -> balance s' a = Ok b -> b = (default entry_default (accts' !! a)).1.1.1) /\
    (SledReliable -> evm_account_snapshot s' = Ok accts')) /\
  (SledReliable -> succeeds (st_for calls run_call) s).
Proof.
  intros Hrep Hwf accts'. split.
  - intros s' H. enough (account_rep (contents s') accts') as Hrep'.
    { destruct (account_snapshot_rep _ _ Hrep') as (H1 & H2 & H3). split; [done|]. split; [done|].
      split; [done|]. split; [|intros HR; by apply H3].
      intros a b Ha Hb. destruct (balance_rep _ _ a Hrep' Ha) as [H4 _]. by apply H4. }
    subst accts'. revert s accts Hrep H. induction Hwf as [|call calls Hc _ IH]; intros s accts Hrep H.
    + apply st_ret_ok in H as [_ ->]. done.
    + apply st_for_cons in H as (s1 & H1 & H). simpl. eapply IH; [|done]. by eapply run_call_rep.
  - intros HR. clear accts'. revert s accts Hrep. induction Hwf as [|call calls Hc _ IH]; intros s accts Hrep.
    + apply succeeds_ret.
    + simpl. apply succeeds_bind; [by eapply run_call_succeeds|]. intros [] s1 H1. eapply IH.
      by eapply run_call_rep.
Qed.
End calls.

(** ** Snapshots by height *)

Lemma collect_map_btree {V} (m : gmap (list byte) V) : collect_map (btree_iter m) = m.
Proof.
  assert (forall l (m0 : gmap (list byte) V), NoDup (map fst l) ->
    forall k, fold_left (fun m kv => <[kv.1 := kv.2]> m) l m0 !! k =
      match List.find (fun kv => bool_decide (kv.1 = k)) l with Some kv => Some kv.2 | None => m0 !! k end) as H.
  { induction l as [|[k v] l IH]; intros m0 Hnd k'; [done|]. simpl in *.
    apply list.NoDup_cons in Hnd as [Hn Hnd]. rewrite IH by done. case_bool_decide as E.
    - subst k'. destruct (List.find _ l) as [[k2 v2]|] eqn:Ef; [|apply lookup_insert_eq].
      apply find_some in Ef as [Hin Hk]. apply bool_decide_eq_true in Hk. simpl in Hk. subst k2.
      exfalso. apply Hn. apply list_elem_of_fmap. exists (k, v2). split; [done|]. by apply list_elem_of_In.
    - destruct (List.find _ l); [done|]. by rewrite lookup_insert_ne. }
  apply map_eq. intros k. unfold collect_map. rewrite H by apply NoDup_btree_keys. rewrite lookup_empty.
  destruct (List.find _ (btree_iter m)) as [[k' v]|] eqn:E.
  - apply find_some in E as [Hin Hk]. apply bool_decide_eq_true in Hk. simpl in Hk. subst k'.
    symmetry. by apply elem_of_btree_iter, list_elem_of_In.
  - destruct (m !! k) as [v|] eqn:Ev; [|done]. apply elem_of_btree_iter, list_elem_of_In in Ev.
    apply (find_none _ _ E) in Ev. simpl in Ev. by rewrite bool_decide_eq_false in Ev.
Qed.

Lemma snapshot_entries_inv m : snapshot_of_entries (snapshot_entries m) = m.
Proof.
  unfold snapshot_of_entries, snapshot_entries. rewrite map_map. rewrite <- (collect_map_btree m) at 2.
  f_equal. rewrite <- (map_id (btree_iter m)) at 2. apply map_ext. intros [a [[[b n] c] st]]. simpl.
  by rewrite collect_map_btree.
Qed.

Section snapshots.
Context {S : Sled} {J : Json (list SerializedEvmSnapshotEntry)}.

(** The snapshot rows are the ones the code writes. *)
Definition snapshot_keys_ok (m : Contents) : Prop :=
  forall k, has_prefix EVM_SNAPSHOT_PREFIX k = true -> is_Some (m !! k) ->
    exists n, in_u64 n /\ k = evm_snapshot_key n.

Lemma snapshot_number_key n : in_u64 n -> snapshot_number (evm_snapshot_key n) = Ok n.
Proof.
  intros Hn. unfold snapshot_number, evm_snapshot_key.
  rewrite utf8_ascii.
  - cbn [negb]. rewrite strip_prefix_app. cbn [ok_or res_bind]. by rewrite parse_pad20.
  - apply Forall_app. split; [by repeat apply List.Forall_cons; try apply List.Forall_nil; vm_compute|].
    eapply List.Forall_impl; [|apply (pad_digits_range 20 n)]; [|unfold in_u64 in Hn; lia].
    intros c Hc. cbv beta in Hc. lia.
Qed.

(** The scan finds the newest snapshot that is not newer than the height. *)
Lemma at_or_before_fold number rows best r :
  fold_left (fun acc kv => let? b := acc in snapshot_step number b kv) rows (Ok best) = Ok r ->
  (forall kv, kv ∈ rows -> exists n, snapshot_number kv.1 = Ok n /\
     (n <= number -> exists n' m', r = Some (n', m') /\ n <= n')) /\
  (forall b, best = Some b -> exists n' m', r = Some (n', m') /\ b.1 <= n') /\
  (forall n m, r = Some (n, m) -> best = Some (n, m) \/ n <= number /\
    exists kv es, kv ∈ rows /\ snapshot_number kv.1 = Ok n /\ json_slice kv.2 = Ok es /\
      m = snapshot_of_entries es).
Proof.
  revert best. induction rows as [|kv rows IH]; intros best H.
  - injection H as <-. split; [by intros kv ?%not_elem_of_nil|]. split; [|by left].
    intros [n m] ->. exists n, m. split; [done|]. simpl. lia.
  - apply fold_res_cons_ok in H as (b1 & Hstep & H). apply IH in H as (H1 & H2 & H3). clear IH.
    unfold snapshot_step in Hstep. apply res_bind_ok in Hstep as (n & Hn & Hstep).
    destruct (Z.ltb_spec number n) as [Hlt|Hle].
    + injection Hstep as <-. split; [|split; [done|]].
      * intros kv' [->|Hin]%elem_of_cons; [exists n; split; [done|lia]|by apply H1].
      * intros n' m' Hr. destruct (H3 _ _ Hr) as [?|(? & kv' & es & Hin & ?)]; [by left|].
        right. split; [done|]. exists kv', es. split; [by right|done].
    + apply res_bind_ok in Hstep as (es & Hes & [= Hb1]). split; [|split].
      * intros kv' [->|Hin]%elem_of_cons; [|by apply H1]. exists n. split; [done|]. intros _.
        destruct best as [[bn bm]|]; [destruct (Z.ltb_spec bn n)|];
          destruct (H2 _ (eq_sym Hb1)) as (n' & m' & -> & Hle'); exists n', m'; simpl in Hle'; (split; [done|lia]).
      * intros [bn bm] ->. destruct (Z.ltb_spec bn n);
          destruct (H2 _ (eq_sym Hb1)) as (n' & m' & -> & Hle'); exists n', m'; simpl in *; (split; [done|lia]).
      * intros n' m' Hr. destruct (H3 _ _ Hr) as [Hb|(? & kv' & es' & Hin & ?)].
        -- rewrite Hb in Hb1. destruct best as [[bn bm]|]; [destruct (Z.ltb_spec bn n)|].
           2: by left.
           all: injection Hb1 as <- <-; right; split; [done|]; exists kv, es; (split; [by left|done]).
        -- right. split; [done|]. exists kv', es'. split; [by right|done].
Qed.

(** The snapshot stored for a height comes back for that height and for
    every later height up to the next stored snapshot: the scan picks the
    newest snapshot that is not newer than the height asked for, whatever the
    order of the rows. *)
Theorem snapshot_at_or_before_newest s s' h snap number r :
  snapshot_keys_ok (contents s) -> in_u64 h -> h <= number ->
  (forall n, in_u64 n -> h < n <= number -> contents s !! evm_snapshot_key n = None) ->
  put_evm_state_snapshot h snap s = (Ok tt, s') ->
  evm_state_snapshot_at_or_before s' number = Ok r ->
  r = Some (h, snap) /\ (forall o, evm_state_snapshot s' h = Ok o -> o = Some snap).
Proof.
  intros Hkeys Hh Hle Hnone Hput Hr. unfold put_evm_state_snapshot in Hput. st_inv.
  rename H into Hvec, a into value. rewrite H0 in Hput. clear H0.
  assert (json_slice value = Ok (snapshot_entries snap)) as Hval.
  { apply map_err_ok. by apply json_roundtrip. }
  assert (contents s' !! evm_snapshot_key h = Some value) as Hrow by (rewrite Hput; apply lookup_insert_eq).
  split.
  - unfold evm_state_snapshot_at_or_before in Hr. apply read_rows_ok in Hr.
    apply at_or_before_fold in Hr as (H1 & _ & H3).
    destruct (H1 (evm_snapshot_key h, value)) as (n & Hn & Hex).
    { apply elem_of_prefix_entries. split; [done|]. by apply has_prefix_true; exists (pad20 h). }
    cbn [fst] in Hn. rewrite snapshot_number_key in Hn by done. injection Hn as <-.
    destruct (Hex Hle) as (n' & m' & -> & Hge). destruct (H3 n' m' eq_refl) as [?|(Hle' & [k v] & es & Hin & Hn & Hes & ->)]; [done|].
    cbn [fst snd] in *. apply elem_of_prefix_entries in Hin as [Hk Hp]. rewrite Hput in Hk.
    assert (k = evm_snapshot_key n' /\ in_u64 n') as [-> Hn'].
    { destruct (decide (k = evm_snapshot_key h)) as [->|Hne].
      - rewrite snapshot_number_key in Hn by done. by injection Hn as <-.
      - rewrite lookup_insert_ne in Hk by done. destruct (Hkeys k Hp) as (n & Hn' & ->); [by eexists|].
        rewrite snapshot_number_key in Hn by done. by injection Hn as <-. }
    destruct (decide (n' = h)) as [->|Hne].
    + rewrite lookup_insert_eq in Hk. injection Hk as <-. rewrite Hval in Hes. injection Hes as <-.
      by rewrite snapshot_entries_inv.
    + rewrite lookup_insert_ne in Hk; [rewrite Hnone in Hk; [done|done|lia]|].
      intros E. apply app_inv_head in E. apply pad20_inj in E; [congruence|done|done].
  - unfold evm_state_snapshot. intros o (v & Hv & Ho)%res_bind_ok. apply db_get_ok in Hv. rewrite Hrow in Hv.
    subst v. rewrite Hval in Ho. simpl in Ho. injection Ho as <-. by rewrite snapshot_entries_inv.
Qed.
End snapshots.

(** ** Witnesses *)

Definition sample_account_calls : list AccountCall :=
  [CallPutEvm (be_bytes 20 7) 5 1 [x60] (<[be_bytes 32 1 := be_bytes 32 9]> (<[be_bytes 32 2 := HASH_ZERO]> ∅));
   CallSetRewards 4; CallCredit (be_bytes 20 7) 3].

Lemma sample_calls_wf : Forall wf_call sample_account_calls.
Proof.
  repeat apply List.Forall_cons; try apply List.Forall_nil.
  - split; [apply length_be_bytes|]. split; [by vm_compute|]. split; [by vm_compute|].
    apply map_Forall_insert_2; [by split; apply length_be_bytes|].
    apply map_Forall_insert_2; [split; [apply length_be_bytes|done]|apply map_Forall_empty].
  - done.
  - split; [apply length_be_bytes|by vm_compute].
Qed.

Lemma account_calls_refine_witness :
  exists s', @st_for StorageError (@SledStorage mem_sled) _ sample_account_calls (@run_call mem_sled hex_codec)
      (@Build_SledStorage mem_sled ∅ false) = (Ok tt, s') /\
    @evm_account_snapshot mem_sled hex_codec s' =
      Ok (<[be_bytes 20 7 := (8, 1, [x60], <[be_bytes 32 1 := be_bytes 32 9]> ∅)]> ∅).
Proof.
  destruct (@account_calls_refine mem_sled hex_codec sample_account_calls
    (@Build_SledStorage mem_sled ∅ false) ∅) as [H Hs]; [apply rep_empty|apply sample_calls_wf|].
  destruct (Hs mem_sled_reliable) as ([] & s' & Hrun). exists s'. split; [done|].
  destruct (H s' Hrun) as (_ & _ & _ & _ & Hsnap). rewrite (Hsnap mem_sled_reliable). reflexivity.
Defined.

Definition sample_snapshot : EvmStateSnapshot := <[be_bytes 20 7 := (8, 1, [x60], ∅)]> ∅.

Lemma snapshot_at_or_before_newest_witness :
  let J := table_json [snapshot_entries sample_snapshot] in
  let s := @Build_SledStorage mem_sled ∅ false in
  exists s', @put_evm_state_snapshot mem_sled J 100 sample_snapshot s = (Ok tt, s') /\
    exists r, @evm_state_snapshot_at_or_before mem_sled J s' 150 = Ok r /\ r = Some (100, sample_snapshot).
Proof.
  intros J s. set (run := @put_evm_state_snapshot mem_sled J 100 sample_snapshot s).
  assert (run.1 = Ok tt) as E1 by (vm_compute; reflexivity).
  assert (is_ok (@evm_state_snapshot_at_or_before mem_sled J run.2 150) = true) as E2 by (vm_compute; reflexivity).
  exists run.2. split; [rewrite <- E1; apply surjective_pairing|].
  destruct (is_ok_true _ E2) as [r Hr]. exists r. split; [done|].
  apply (@snapshot_at_or_before_newest mem_sled J s run.2 100 sample_snapshot 150 r).
  - intros k _ [v Hv]. done.
  - split; vm_compute; discriminate.
  - lia.
  - intros n _ _. reflexivity.
  - rewrite <- E1. apply surjective_pairing.
  - exact Hr.
Defined.
