(* ===== verification/Admission.v ===== *)
(** Admission of transactions in [crates/blq-node/src/main.rs]: the checks
    against the current state, the two JSON-RPC submissions, and the check of
    the signatures of a block.

    A submission takes the storage and the pool lock several times, so the
    state of the pool when the nonce is checked and when the transaction is
    added are two arguments. *)

From Stdlib Require Import ZArith Lia Strings.String Strings.Byte.
From stdpp Require Import sorting gmap fin_maps list base.
From S2P Require Import Prelude Externals Primitives Canonical Rlp RawTx Pow Consensus.
From S2P Require Import StateRoot Transition Mempool.
#[local] Open Scope Z_scope.

(** [NodeStorage::nonce], [balance] and [best_header] at one moment. *)
Record StateView := {
  sv_nonce : Address -> res string Z;
  sv_balance : Address -> res string Z;
  sv_best_header : res string BlockHeader;
}.

Record RpcError := { re_code : Z; re_message : string }.

Definition rpc_error (code : Z) (message : string) : RpcError :=
  {| re_code := code; re_message := message |}.

Definition mempool_message (e : MempoolError) : string :=
  match e with
  | MempoolConsensus e => ("consensus rejected transaction: " ++ consensus_message e)%string
  | ReplacementFeeTooLow => "transaction replacement fee is not higher"%string
  | MempoolFull => "mempool is full and transaction fee is not competitive"%string
  | FeeTooLow => "gas price is below minimum network threshold (1 Gwei)"%string
  end.

Definition validate_transaction_against_current_state_with_pending (view : StateView)
    (t : Transaction) (base_fee : Bix) (pending : option Mempool) : res string unit :=
  let? expected_nonce := sv_nonce view (tx_from t) in
  let queued_sequence :=
    (expected_nonce <? tx_nonce t) &&
    match pending with
    | Some mempool => has_nonce_chain mempool (tx_from t) expected_nonce (tx_nonce t)
    | None => false
    end in
  if negb (expected_nonce =? tx_nonce t) && negb queued_sequence then Err "invalid nonce"%string
  else
    let effective := Z.min (tx_max_fee_per_gas t)
      (sat_add U128_MAX base_fee (tx_max_priority_fee_per_gas t)) in
    let fee := sat_mul U128_MAX (tx_gas_limit t) effective in
    let required := sat_add U128_MAX (tx_value t) fee in
    let? balance := sv_balance view (tx_from t) in
    if balance <? required then Err "insufficient balance"%string else Ok tt.

Definition validate_transaction_against_current_state (view : StateView) (t : Transaction)
    (base_fee : Bix) : res string unit :=
  validate_transaction_against_current_state_with_pending view t base_fee None.

Section admission.
Context {D : Digests} {HX : HexCodec} {SE : Secp}.

Fixpoint validate_transactions_auth (require_signed_transactions : bool) (ts : list Transaction)
    : res string unit :=
  match ts with
  | [] => Ok tt
  | t :: ts =>
      (if require_signed_transactions || negb (bool_decide (tx_signature t = None))
          || negb (bool_decide (tx_external_hash t = None))
       then verify_transaction_signature t else Ok tt) ;?
      validate_transactions_auth require_signed_transactions ts
  end.

Definition validate_block_transaction_auth (require_signed_transactions : bool) (b : Block)
    : res string unit :=
  validate_transactions_auth require_signed_transactions (blk_transactions b).

(** Every transaction that is signed, that names the hash of its raw bytes, or
    that must be signed, verifies. *)
Lemma auth_ok (require_signed_transactions : bool) (ts : list Transaction) :
  validate_transactions_auth require_signed_transactions ts = Ok tt <->
  Forall (fun t => require_signed_transactions = true \/ tx_signature t <> None \/ tx_external_hash t <> None ->
    verify_transaction_signature t = Ok tt) ts.
Proof.
  induction ts as [|t ts IH]; cbn [validate_transactions_auth]; [done|]. rewrite List.Forall_cons_iff, <- IH.
  destruct (require_signed_transactions || _ || _) eqn:E.
  - assert (require_signed_transactions = true \/ tx_signature t <> None \/ tx_external_hash t <> None) as Hm.
    { rewrite !orb_true_iff, !negb_true_iff, !bool_decide_eq_false in E. tauto. }
    destruct (verify_transaction_signature t) as [[]|e|]; cbn [res_bind]; [tauto|split; [done|intros [H _]; by apply H in Hm]..].
  - rewrite !orb_false_iff, !negb_false_iff, !bool_decide_eq_true in E. cbn [res_bind].
    destruct E as [[-> E1] E2]. split; [|tauto]. intros H. split; [|done]. intros [?|[?|?]]; done.
Qed.

(** What both submissions do with a decoded transaction: the fee at the best
    header, the current state with the pool [pending], then the pool [pool]. *)
Definition submit (head view : StateView) (pending pool : Mempool) (now : Z) (t : Transaction)
    : res RpcError Mempool :=
  let? header := res_map_err (rpc_error (-32000)) (sv_best_header head) in
  let base_fee := hdr_base_fee_per_gas header in
  res_map_err (fun e => rpc_error (-32000) (consensus_message e)) (validate_transaction_fee t base_fee) ;?
  res_map_err (rpc_error (-32000))
    (validate_transaction_against_current_state_with_pending view t base_fee (Some pending)) ;?
  res_map_err (fun e => rpc_error (-32000) (mempool_message e)) (add pool now t base_fee).

(** [params]: the first parameter when it is a string. *)
Definition rpc_send_raw_transaction (head view : StateView) (pending pool : Mempool) (now : Z)
    (params : option (list byte)) : res RpcError (Hash256 * Mempool) :=
  let? raw := ok_or params (rpc_error (-32602) "missing raw transaction parameter") in
  let? t := res_map_err (rpc_error (-32602)) (decode_raw_transaction raw) in
  if bool_decide (tx_to t = None) && bool_decide (tx_payload t = [])
  then Err (rpc_error (-32602) "contract creation transaction requires init code")
  else
    let? pool := submit head view pending pool now t in
    Ok (tx_rpc_hash t, pool).

(** [parameter]: the first parameter read as a transaction. *)
Definition rpc_send_transaction (head view : StateView) (pending pool : Mempool) (now : Z)
    (parameter : option (res string Transaction)) : res RpcError (Hash256 * Mempool) :=
  let? value := ok_or parameter (rpc_error (-32602) "missing transaction parameter") in
  let? t := res_map_err (rpc_error (-32602)) value in
  if bool_decide (tx_signature t = None)
  then Err (rpc_error (-32602) "structured transaction requires a signature")
  else
    res_map_err (rpc_error (-32602)) (verify_transaction_signature t) ;?
    res_map_err (rpc_error (-32602)) (validate_transfer_transaction_shape t) ;?
    let? pool := submit head view pending pool now t in
    Ok (tx_hash t, pool).

(** ** What an admitted transaction satisfies *)

(** The transactions of [from] in the pool reach from one nonce to another. *)
Definition nonce_chain (p : Mempool) (from : Address) (start target : Z) : Prop :=
  forall n, start <= n < target -> exists t, t ∈ transactions p /\ tx_from t = from /\ tx_nonce t = n.

Lemma has_nonce_chain_true p from start target :
  has_nonce_chain p from start target = true <-> nonce_chain p from start target.
Proof.
  unfold has_nonce_chain, nonce_chain. rewrite forallb_forall. split.
  - intros H n Hn. specialize (H (Z.to_nat (n - start))). rewrite in_seq in H.
    specialize (H ltac:(lia)). apply existsb_exists in H as (t & Hin & Ht).
    apply andb_prop in Ht as [Hf Hnn]. apply bool_decide_eq_true in Hf. apply Z.eqb_eq in Hnn.
    exists t. rewrite list_elem_of_In. split; [done|]. split; [done|]. lia.
  - intros H i Hi. apply in_seq in Hi. destruct (H (start + Z.of_nat i)) as (t & Hin & Hf & Hn); [lia|].
    apply existsb_exists. exists t. rewrite <- list_elem_of_In. split; [done|].
    rewrite bool_decide_eq_true_2 by done. simpl. lia.
Qed.

(** The fee cap of a transaction at a base fee. *)
Definition max_cost (t : Transaction) (base_fee : Z) : Z :=
  tx_value t + tx_gas_limit t * Z.min (tx_max_fee_per_gas t) (base_fee + tx_max_priority_fee_per_gas t).

(** The sender can pay, and its nonce is the next one or continues a queue. *)
Record payable (view : StateView) (pending : option Mempool) (t : Transaction) (base_fee : Z) : Prop := {
  pay_nonce : exists n, sv_nonce view (tx_from t) = Ok n /\
    (tx_nonce t = n \/ exists p, pending = Some p /\ n < tx_nonce t /\ nonce_chain p (tx_from t) n (tx_nonce t));
  pay_balance : exists b, sv_balance view (tx_from t) = Ok b /\
    (b < U128_MAX -> max_cost t base_fee <= b);
}.

Lemma current_state_ok view t base_fee pending :
  in_u64 (tx_gas_limit t) -> in_u128 (tx_value t) -> in_u128 (tx_max_fee_per_gas t) ->
  validate_transaction_against_current_state_with_pending view t base_fee pending = Ok tt ->
  payable view pending t base_fee.
Proof.
  intros Hg Hv Hf H. unfold validate_transaction_against_current_state_with_pending in H.
  apply res_bind_ok in H as (n & Hn & H).
  destruct (negb _ && negb _) eqn:Enonce; [done|]. apply res_bind_ok in H as (b & Hb & H).
  match type of H with (if ?c then _ else _) = _ => destruct c eqn:Ebal; [done|] end.
  split.
  - exists n. split; [done|]. apply andb_false_iff in Enonce as [E|E]; apply negb_false_iff in E.
    + left. lia.
    + right. apply andb_prop in E as [E1 E2]. destruct pending as [p|]; [|done].
      exists p. split; [done|]. split; [lia|]. by apply has_nonce_chain_true.
  - exists b. split; [done|]. intros Hlt. apply Z.ltb_ge in Ebal. unfold max_cost, sat_add, sat_mul, in_u128 in *.
    revert Hlt Ebal Hv Hf. generalize U128_MAX. intros M Hlt Ebal Hv Hf.
    replace (Z.min (tx_max_fee_per_gas t) (Z.min (base_fee + tx_max_priority_fee_per_gas t) M))
      with (Z.min (tx_max_fee_per_gas t) (base_fee + tx_max_priority_fee_per_gas t)) in Ebal by lia.
    revert Ebal. generalize (tx_gas_limit t * Z.min (tx_max_fee_per_gas t) (base_fee + tx_max_priority_fee_per_gas t)).
    lia.
Qed.

(** C29: a raw transaction the node accepts over JSON-RPC was decoded from a
    well-formed wire encoding with a low signature that recovers its sender over
    all of its fields, is within the consensus limits and above the pool's
    minimum price at the base fee of the best header, has the sender's next
    nonce or one that the pooled transactions of the sender lead up to, and is
    covered by the sender's balance at its highest cost.  The pool, whose
    invariant is kept, is then the one before when the hash was pooled already,
    and otherwise that pool with the transaction, less at most one: a
    transaction of the same sender and nonce with a lower fee, or the last one
    of a full pool with a lower priority; every other transaction stays with the
    second it was seen. *)
Theorem rpc_raw_admission_sound head view pending pool now params h pool' :
  pool_ok pool ->
  rpc_send_raw_transaction head view pending pool now params = Ok (h, pool') ->
  exists raw raw_bytes t header, params = Some raw /\ decode_hex raw = Ok raw_bytes /\
    decoded raw_bytes t /\ h = tx_rpc_hash t /\ (tx_to t <> None \/ tx_payload t <> []) /\
    sv_best_header head = Ok header /\
    validate_transaction_fee t (hdr_base_fee_per_gas header) = Ok tt /\
    MIN_GAS_PRICE_BIX <= tx_max_fee_per_gas t /\
    payable view (Some pending) t (hdr_base_fee_per_gas header) /\
    h ∈ map tx_rpc_hash (transactions pool') /\ pool_ok pool' /\ pool_change pool now t pool'.
Proof.
  intros Hp H. unfold rpc_send_raw_transaction in H.
  apply res_bind_ok in H as (raw & Hraw & H). destruct params as [raw'|]; [|done]. injection Hraw as ->.
  apply res_bind_ok in H as (t & Ht & H). apply res_map_err_ok in Ht.
  destruct (bool_decide (tx_to t = None) && _) eqn:Ec; [done|].
  apply res_bind_ok in H as (q & Ha & [= <- <-]). unfold submit in Ha.
  apply res_bind_ok in Ha as (header & Hh & Ha). apply res_map_err_ok in Hh.
  apply res_bind_ok in Ha as ([] & Hfee & Ha). apply res_map_err_ok in Hfee.
  apply res_bind_ok in Ha as ([] & Hst & Ha). apply res_map_err_ok in Hst, Ha.
  apply decode_raw_ok in Ht as (raw_bytes & Hd & Hdec).
  destruct (add_ok pool now t _ q Hp Ha) as (Hval & _ & Hcase & Hq).
  destruct (add_case_members pool now t q Hp Hcase) as (Hin & _ & _).
  destruct Hdec as (Hw & Hrest). exists raw, raw_bytes, t, header.
  split; [done|]. split; [done|]. split; [by split|]. split; [done|]. split.
  { apply andb_false_iff in Ec as [Ec|Ec]; apply bool_decide_eq_false in Ec; [by left|by right]. }
  split; [done|]. split; [done|]. split; [apply Hval|]. split; [|split; [done|split; [done|by apply add_case_change]]].
  destruct (wire_wf _ Hw). by apply current_state_ok.
Qed.
End admission.

(** A node whose sender has nonce 2 and one pooled transaction at that nonce. *)
Definition sample_queued : Transaction :=
  let t := sample_signed 2 in {|
    tx_chain_id := tx_chain_id t; tx_transaction_type := 2; tx_nonce := 2; tx_from := tx_from t;
    tx_to := tx_to t; tx_value := 1; tx_gas_limit := 21000; tx_max_fee_per_gas := 3000000000;
    tx_max_priority_fee_per_gas := 9; tx_payload := []; tx_access_list := [];
    tx_signature := None; tx_external_hash := None |}.

Definition sample_view (header : BlockHeader) : StateView := {|
  sv_nonce := fun _ => Ok 2; sv_balance := fun _ => Ok 1000000000000000000;
  sv_best_header := Ok header |}.

Definition sample_pending : Mempool :=
  match @add toy_digests mempool_default 5 sample_queued (hdr_base_fee_per_gas sample_header) with
  | Ok p => p | _ => mempool_default end.

Lemma sample_pending_ok : @pool_ok toy_digests sample_pending.
Proof.
  assert (@pool_ok toy_digests mempool_default) as H0 by (split; simpl; try constructor; done).
  unfold sample_pending. destruct (@add toy_digests mempool_default 5 sample_queued _) as [p| |] eqn:E; [|done..].
  by apply (@add_ok toy_digests mempool_default 5 sample_queued _ p H0 E).
Qed.

Lemma rpc_raw_admission_sound_witness :
  exists h pool', @rpc_send_raw_transaction toy_digests hex_codec toy_secp (sample_view sample_header)
      (sample_view sample_header) sample_pending sample_pending 6 (Some (sample_raw 2)) = Ok (h, pool') /\
    h ∈ map (@tx_rpc_hash toy_digests) (transactions pool') /\ @pool_ok toy_digests pool'.
Proof.
  destruct (is_ok_true (@rpc_send_raw_transaction toy_digests hex_codec toy_secp (sample_view sample_header)
      (sample_view sample_header) sample_pending sample_pending 6 (Some (sample_raw 2)))) as [[h pool'] E];
    [vm_compute; reflexivity|].
  exists h, pool'. split; [exact E|].
  destruct (@rpc_raw_admission_sound toy_digests hex_codec toy_secp _ _ _ _ _ _ h pool' sample_pending_ok E)
    as (_ & _ & _ & _ & _ & _ & _ & _ & _ & _ & _ & _ & _ & H1 & H2 & _).
  split; [exact H1|exact H2].
Defined.
