(* ===== verification/Replay.v ===== *)
(** Replay of candidate blocks in [crates/blq-node/src/main.rs]: the two
    account representations the replay keeps side by side, the state check of
    one block, and the bounded overlay that carries a replay from an execution
    snapshot along a suffix. *)

From Stdlib Require Import ZArith Lia Strings.String Strings.Byte.
From stdpp Require Import sorting gmap fin_maps base list.
From S2P Require Import Prelude Externals Primitives Canonical Rlp RawTx Pow Consensus State.
From S2P Require Import StateRoot Transition Evm Difficulty BlockExec Mempool Admission Sled AccountStore Miner.
#[local] Open Scope Z_scope.

(** [ExecutionSnapshot] of blq-storage: the state at a height, and the chain
    it belongs to. *)
Record ExecutionSnapshot := {
  es_generation_id : Z;
  es_height : Z;
  es_block_hash : Hash256;
  es_state_root : Hash256;
  es_profile_fingerprint : list byte;
  es_finalized_height : Z;
  es_native_accounts : Accounts;
  es_evm_accounts : EvmStateSnapshot;
}.

(** The settings of [NodeConfig] the replay reads. *)
Record ReplayConfig := {
  rp_require_signed_transactions : bool;
  rp_block_size_activation_height : option Z;
  rp_block_time_v2_activation_height : option Z;
}.

Section replay.
Context {D : Digests} {U : U256Ops}.

Definition native_account (account : RevmAccount) : res string (Z * Z) :=
  if U128_MAX <? u256_val (ra_balance account)
  then Err "historical EVM balance exceeds BLQ range"%string
  else Ok (u256_val (ra_balance account), ra_nonce account).

Definition accounts_from_revm_state (state : RevmState) : res string Accounts :=
  try_map native_account state.

(** [account.balance = ..; account.nonce = ..]. *)
Definition with_native (bn : Z * Z) (account : RevmAccount) : RevmAccount := {|
  ra_nonce := bn.2; ra_balance := u256_of bn.1;
  ra_code := ra_code account; ra_storage := ra_storage account |}.

Definition apply_accounts_to_revm_state (state : RevmState) (accounts : Accounts) : RevmState :=
  fold_left (fun state kv =>
    revm_put_account state kv.1 (with_native kv.2 (revm_account state kv.1)))
    (btree_iter accounts) state.

Definition merge_native_accounts_into_revm_state (state : RevmState) (accounts : Accounts) : RevmState :=
  fold_left (fun state kv =>
    let account := revm_account state kv.1 in
    revm_put_account state kv.1 (with_native kv.2 account)) (btree_iter accounts) state.

(** A stored account as an account of revm. *)
Definition revm_account_of (x : EvmAccountSnapshot) : RevmAccount :=
  let '(balance, nonce, code, slots) := x in {|
    ra_nonce := nonce; ra_balance := u256_of balance; ra_code := code;
    ra_storage := fold_left (fun m sv => <[u256_from_be sv.1 := u256_from_be sv.2]> m)
                    (btree_iter slots) ∅ |}.

Definition revm_state_of_accounts (accounts : EvmStateSnapshot) : RevmState :=
  fold_left (fun state kv => revm_put_account state kv.1 (revm_account_of kv.2))
    (btree_iter accounts) ∅.

Context {R : Revm}.

(** The check of one block.  The EVM branch executes on [evm_state] in place;
    the plain branch takes the accounts out of [native_accounts] and puts the
    new ones back only when everything matches. *)
Definition validate_replay_state_root (native_accounts : Accounts) (evm_state : RevmState)
    (block : Block) (parent_timestamp : Z) : Accounts * RevmState * res string unit :=
  let h := blk_header block in
  let failed := "candidate recovery bootstrap state validation failed"%string in
  if existsb is_evm_transaction (blk_transactions block) then
    match execute_evm_state_transition_in_place evm_state block parent_timestamp with
    | (evm_state, Ok (receipts, gas_used)) =>
        match evm_state_root_from_revm_state evm_state with
        | Ok expected =>
            if negb (hdr_gas_used h =? gas_used)
               || negb (bool_decide (blk_receipts block = receipts))
               || negb (bool_decide (hdr_transactions_root h = transactions_root (blk_transactions block)))
               || negb (bool_decide (hdr_receipts_root h = receipts_root (blk_receipts block)))
               || negb (bool_decide (hdr_state_root h = expected))
            then (native_accounts, evm_state, Err failed)
            else
              match accounts_from_revm_state evm_state with
              | Ok accounts => (accounts, evm_state, Ok tt)
              | Err e => (native_accounts, evm_state, Err e)
              | Panic => (native_accounts, evm_state, Panic)
              end
        | Err e => (native_accounts, evm_state, Err e)
        | Panic => (native_accounts, evm_state, Panic)
        end
    | (evm_state, Err e) => (native_accounts, evm_state, Err e)
    | (evm_state, Panic) => (native_accounts, evm_state, Panic)
    end
  else
    match simulate_state_transition_from_accounts native_accounts block parent_timestamp with
    | Ok (accounts, receipts, gas_used) =>
        let expected := state_root_from_accounts accounts in
        if negb (hdr_gas_used h =? gas_used)
           || negb (bool_decide (blk_receipts block = receipts))
           || negb (bool_decide (hdr_transactions_root h = transactions_root (blk_transactions block)))
           || negb (bool_decide (hdr_receipts_root h = receipts_root (blk_receipts block)))
           || negb (bool_decide (hdr_state_root h = expected))
        then (∅, evm_state, Err failed)
        else (accounts, apply_accounts_to_revm_state evm_state accounts, Ok tt)
    | Err e => (∅, evm_state, Err e)
    | Panic => (∅, evm_state, Panic)
    end.

(** ** The overlay *)

Record ExecutionReplayOverlay := {
  ov_native_accounts : Accounts;
  ov_evm_state : RevmState;
  ov_parent : BlockHeader;
  ov_difficulty_history : list BlockHeader;
}.

Definition overlay_from_snapshot (snapshot : ExecutionSnapshot) (parent : BlockHeader)
    (difficulty_history : list BlockHeader) : res string ExecutionReplayOverlay :=
  if negb (bool_decide (es_block_hash snapshot = header_hash parent))
     || negb (es_height snapshot =? hdr_number parent)
     || negb (bool_decide (es_state_root snapshot = hdr_state_root parent))
  then Err "execution snapshot does not match replay parent"%string
  else Ok {|
    ov_native_accounts := es_native_accounts snapshot;
    ov_evm_state := apply_accounts_to_revm_state (revm_state_of_accounts (es_evm_accounts snapshot))
                      (es_native_accounts snapshot);
    ov_parent := parent;
    ov_difficulty_history := difficulty_history |}.

(** [difficulty_history.iter().find(..)]. *)
Definition history_lookup (history : list BlockHeader) : HeaderLookup := fun hash =>
  ok_or (List.find (fun h => bool_decide (header_hash h = hash)) history)
    "candidate replay difficulty history is incomplete"%string.

(** The history after a block: the new header at the end, the oldest one
    dropped once there are more than the window needs. *)
Definition push_history (history : list BlockHeader) (header : BlockHeader) : list BlockHeader :=
  let history := history ++ [header] in
  if (BLOCK_TIME_V2_MEDIAN_WINDOW + 1 <? length history)%nat then drop 1 history else history.

Context {HX : HexCodec} {SE : Secp} {BP : BuildProfile} {RX : RandomX}.

(** The checks of [apply] that leave the overlay alone. *)
Definition overlay_check (o : ExecutionReplayOverlay) (config : ReplayConfig) (genesis_hash : Hash256)
    (block : Block) : res string unit :=
  validate_block_transaction_auth (rp_require_signed_transactions config) block ;?
  res_map_err consensus_message
    (validate_block_with_genesis_and_activation (ov_parent o) block genesis_hash
       (rp_block_size_activation_height config)) ;?
  let? expected_difficulty :=
    expected_difficulty_target_with_lookup (ov_parent o) (blk_header block)
      (rp_block_time_v2_activation_height config) (history_lookup (ov_difficulty_history o)) in
  if negb (bool_decide (hdr_difficulty_target (blk_header block) = expected_difficulty))
  then Err "candidate replay difficulty mismatch"%string
  else Ok tt.

Definition overlay_apply (o : ExecutionReplayOverlay) (config : ReplayConfig) (genesis_hash : Hash256)
    (block : Block) : ExecutionReplayOverlay * res string unit :=
  match overlay_check o config genesis_hash block with
  | Ok _ =>
      let '(native, evm, r) :=
        validate_replay_state_root (ov_native_accounts o) (ov_evm_state o) block
          (hdr_timestamp_seconds (ov_parent o)) in
      match r with
      | Ok _ =>
          ({| ov_native_accounts := native; ov_evm_state := evm; ov_parent := blk_header block;
              ov_difficulty_history := push_history (ov_difficulty_history o) (blk_header block) |}, Ok tt)
      | Err e =>
          ({| ov_native_accounts := native; ov_evm_state := evm; ov_parent := ov_parent o;
              ov_difficulty_history := ov_difficulty_history o |}, Err e)
      | Panic =>
          ({| ov_native_accounts := native; ov_evm_state := evm; ov_parent := ov_parent o;
              ov_difficulty_history := ov_difficulty_history o |}, Panic)
      end
  | Err e => (o, Err e)
  | Panic => (o, Panic)
  end.

(** The suffix of a replay, block after block. *)
Fixpoint overlay_apply_all (o : ExecutionReplayOverlay) (config : ReplayConfig) (genesis_hash : Hash256)
    (blocks : list Block) : ExecutionReplayOverlay * res string unit :=
  match blocks with
  | [] => (o, Ok tt)
  | block :: blocks =>
      match overlay_apply o config genesis_hash block with
      | (o, Ok _) => overlay_apply_all o config genesis_hash blocks
      | (o, Err e) => (o, Err e)
      | (o, Panic) => (o, Panic)
      end
  end.
End replay.

(** ** The two representations agree *)

Section coherence.
Context {D : Digests} {U : U256Ops} {R : Revm}.

(** The native accounts are the balances and nonces of the EVM state. *)
Definition coherent (native : Accounts) (evm : RevmState) : Prop :=
  accounts_from_revm_state evm = Ok native.

Lemma coherent_lookup native evm :
  coherent native evm <->
  forall a, match evm !! a, native !! a with
            | None, None => True
            | Some acc, Some bn => u256_val (ra_balance acc) <= U128_MAX /\
                bn = (u256_val (ra_balance acc), ra_nonce acc)
            | _, _ => False end.
Proof.
  unfold coherent, accounts_from_revm_state. rewrite try_map_ok. unfold native_account.
  split; intros H a; specialize (H a); destruct (evm !! a) as [acc|], (native !! a) as [bn|]; try done.
  - destruct (Z.ltb_spec U128_MAX (u256_val (ra_balance acc))); [done|]. by injection H as <-.
  - destruct H as [Hle ->]. by rewrite (proj2 (Z.ltb_ge _ _) Hle).
Qed.

Lemma put_with_native (evm : RevmState) a bn :
  revm_put_account evm a (with_native bn (revm_account evm a)) =
  partial_alter (fun o => Some (with_native bn (default revm_account_default o))) a evm.
Proof.
  unfold revm_put_account, revm_account. apply map_eq. intros k. destruct (decide (k = a)) as [->|Hne].
  - by rewrite lookup_insert_eq, lookup_partial_alter_eq.
  - by rewrite lookup_insert_ne, lookup_partial_alter_ne.
Qed.

Lemma apply_accounts_lookup evm native a :
  apply_accounts_to_revm_state evm native !! a =
  match native !! a with
  | Some bn => Some (with_native bn (revm_account evm a))
  | None => evm !! a
  end.
Proof.
  set (g := fun (bn : Z * Z) (o : option RevmAccount) =>
    Some (with_native bn (default revm_account_default o))).
  assert (apply_accounts_to_revm_state evm native =
    fold_left (fun m (x : list byte * (Z * Z)) => partial_alter (g x.2) x.1 m) (btree_iter native) evm) as ->.
  { unfold apply_accounts_to_revm_state. revert evm. induction (btree_iter native) as [|kv l IH]; intros evm; [done|].
    cbn [fold_left]. rewrite put_with_native. apply IH. }
  destruct (native !! a) as [bn|] eqn:E.
  - apply elem_of_btree_iter in E. exact (fold_alter_lookup g _ _ _ _ (NoDup_btree_keys native) E).
  - apply (fold_alter_other g). intros Hin. apply list_elem_of_fmap in Hin as ([k v] & -> & Hin).
    apply elem_of_btree_iter in Hin. cbn in E. congruence.
Qed.

Definition balances_fit (native : Accounts) : Prop := map_Forall (fun _ bn => in_u128 bn.1) native.

Lemma coherent_balances native evm : coherent native evm -> balances_fit native.
Proof.
  intros H a bn Ha. apply (proj1 (coherent_lookup _ _)) with (a := a) in H. rewrite Ha in H.
  destruct (evm !! a) as [acc|]; [|done]. destruct H as [Hle ->]. cbn [fst].
  pose proof (u256_range (ra_balance acc)). unfold in_u128. lia.
Qed.

Lemma coherent_apply native native' evm :
  coherent native evm -> balances_fit native' ->
  (forall a, is_Some (native !! a) -> is_Some (native' !! a)) ->
  coherent native' (apply_accounts_to_revm_state evm native').
Proof.
  intros Hc Hf Hdom. apply coherent_lookup. intros a. rewrite apply_accounts_lookup.
  destruct (native' !! a) as [[b n]|] eqn:E.
  - specialize (Hf a _ E). unfold with_native. cbn [ra_balance ra_nonce fst snd] in *.
    assert (U128_MAX < U256_MAX) by (by vm_compute). unfold in_u128 in Hf.
    rewrite u256_of_val by lia. split; [lia|done].
  - destruct (native !! a) as [bn|] eqn:En; [|].
    + destruct (Hdom a) as [x Hx]; [by eexists|]. congruence.
    + apply (proj1 (coherent_lookup _ _)) with (a := a) in Hc. rewrite En in Hc. done.
Qed.

(** The plain transition keeps every account and stays in range. *)
Definition grows (m m' : Accounts) : Prop :=
  balances_fit m' /\ forall a, is_Some (m !! a) -> is_Some (m' !! a).

Lemma balances_fit_of m a : balances_fit m -> in_u128 (balance_of m a).
Proof.
  intros H. unfold balance_of. destruct (m !! a) as [bn|] eqn:E; [by apply (H a)|].
  unfold in_u128, U128_MAX. simpl. lia.
Qed.

Lemma grows_insert m a b n : balances_fit m -> in_u128 b -> grows m (<[a := (b, n)]> m).
Proof.
  intros Hm Hb. split; [by apply map_Forall_insert_2|]. intros k Hk.
  destruct (decide (k = a)) as [->|Hne]; [rewrite lookup_insert_eq; by eexists|by rewrite lookup_insert_ne].
Qed.

Lemma grows_trans m1 m2 m3 : grows m1 m2 -> grows m2 m3 -> grows m1 m3.
Proof. intros [_ H1] [H2 H3]. split; [done|]. auto. Qed.

Definition block_amounts_ok (block : Block) : Prop :=
  0 <= hdr_base_fee_per_gas (blk_header block) /\ Forall tx_amounts_ok (blk_transactions block).

Lemma round_grows split base m fees rs t m' fees' rs' :
  0 <= base -> tx_amounts_ok t -> balances_fit m ->
  apply_transaction split base (m, fees, rs) t = Ok (m', fees', rs') -> grows m m'.
Proof.
  intros Hb Ht Hm E. apply apply_transaction_inv in E as (to & [_ _ Hbal _ _ Hacc _ _]).
  pose proof (tx_fee_range base t Hb Ht) as Hfee. destruct Ht as (Hv & _).
  pose proof (balances_fit_of m (tx_from t) Hm) as Hsb.
  assert (in_u128 (sat_add U128_MAX (tx_value t) (tx_fee base t))) as Htot by auto with blq_arith.
  cbv zeta in Hacc. rewrite Hacc.
  assert (grows m (<[tx_from t := (balance_of m (tx_from t) - sat_add U128_MAX (tx_value t) (tx_fee base t),
    sat_add U64_MAX (nonce_of m (tx_from t)) 1)]> m)) as Hg.
  { apply grows_insert; [done|]. unfold in_u128 in *. lia. }
  eapply grows_trans; [exact Hg|]. destruct Hg as [Hfit _].
  apply grows_insert; [done|]. apply sat_add_u128; [by apply balances_fit_of|done].
Qed.

Lemma rounds_grow split base ts m fees rs r :
  0 <= base -> Forall tx_amounts_ok ts -> balances_fit m ->
  fold_left (fun acc t => let? st := acc in apply_transaction split base st t) ts (Ok (m, fees, rs)) = Ok r ->
  grows m r.1.1.
Proof.
  intros Hb Hts. revert m fees rs. induction Hts as [|t ts Ht _ IH]; intros m fees rs Hm E.
  - injection E as <-. by split.
  - apply (fold_res_cons_ok (apply_transaction split base)) in E as ([[m1 f1] r1] & H1 & E).
    pose proof (round_grows _ _ _ _ _ _ _ _ _ Hb Ht Hm H1) as Hg. eapply grows_trans; [exact Hg|].
    eapply IH; [apply Hg|exact E].
Qed.

Lemma simulate_grows m block pt m' rs g :
  block_amounts_ok block -> balances_fit m ->
  simulate_state_transition_from_accounts m block pt = Ok (m', rs, g) -> grows m m'.
Proof.
  intros [Hb Hts] Hm E. unfold simulate_state_transition_from_accounts in E.
  apply res_bind_ok in E as (gas & _ & E). destruct (_ <? gas); [done|].
  apply res_bind_ok in E as ([[m1 fees] rs1] & Hr & [= Em _ _]).
  apply (rounds_grow _ _ _ _ _ _ _ Hb Hts Hm) in Hr. cbn [fst] in Hr. rewrite <- Em.
  destruct (Z.ltb_spec 0 (sat_add U128_MAX (block_reward_for_interval_bix pt
    (hdr_timestamp_seconds (blk_header block))) fees)) as [Hpos|]; [|done].
  eapply grows_trans; [exact Hr|]. apply grows_insert; [apply Hr|].
  pose proof (balances_fit_of m1 (beneficiary_address (blk_header block)) (proj1 Hr)) as Hbal.
  unfold balance_of in Hbal. destruct (m1 !! beneficiary_address (blk_header block)) as [bn|];
    simpl in *; unfold in_u128, sat_add in *; lia.
Qed.
End coherence.

(** ** The verdict of the replay *)

Section verdict.
Context {D : Digests} {U : U256Ops} {R : Revm}.

(** The five comparisons of the replay, as one proposition. *)
Lemma replay_mismatch block rs g root :
  (negb (hdr_gas_used (blk_header block) =? g)
   || negb (bool_decide (blk_receipts block = rs))
   || negb (bool_decide (hdr_transactions_root (blk_header block) = transactions_root (blk_transactions block)))
   || negb (bool_decide (hdr_receipts_root (blk_header block) = receipts_root (blk_receipts block)))
   || negb (bool_decide (hdr_state_root (blk_header block) = root))) = false <->
  commits_to block rs g root.
Proof.
  rewrite !orb_false_iff, !negb_false_iff, !bool_decide_eq_true, Z.eqb_eq. split.
  - intros ((((H1 & H2) & H3) & H4) & H5). by split.
  - intros [H1 H2 H3 H4 H5]. done.
Qed.

Lemma try_map_total_of {E V W X} (f : V -> res E W) (g : V -> res E X) (m : gmap (list byte) V) w :
  try_map f m = Ok w -> (forall v x, f v = Ok x -> exists y, g v = Ok y) -> exists y, try_map g m = Ok y.
Proof.
  intros H Hfg. apply (try_insert_total g (btree_iter m) ∅). intros k v Hin. apply elem_of_btree_iter in Hin.
  pose proof (proj1 (try_map_ok f m w) H k) as Hk. rewrite Hin in Hk.
  destruct (w !! k) as [x|]; [by eapply Hfg|done].
Qed.

(** Once the state has a root its balances fit. *)
Lemma root_then_accounts evm root :
  evm_state_root_from_revm_state evm = Ok root -> exists native, accounts_from_revm_state evm = Ok native.
Proof.
  unfold evm_state_root_from_revm_state. intros (accts & H & _)%res_bind_ok.
  apply (try_map_total_of _ native_account _ _ H). intros v x. unfold snapshot_account, native_account.
  destruct (U128_MAX <? _); [done|]. eauto.
Qed.

(** One replayed block, on success. *)
Record replayed (native : Accounts) (evm : RevmState) (block : Block) (pt : Z)
    (native' : Accounts) (evm' : RevmState) : Prop := {
  rp_evm : existsb is_evm_transaction (blk_transactions block) = true ->
    exists rs g root, execute_evm_state_transition_in_place evm block pt = (evm', Ok (rs, g)) /\
      evm_state_root_from_revm_state evm' = Ok root /\ commits_to block rs g root /\
      accounts_from_revm_state evm' = Ok native';
  rp_plain : existsb is_evm_transaction (blk_transactions block) = false ->
    exists rs g, simulate_state_transition_from_accounts native block pt = Ok (native', rs, g) /\
      commits_to block rs g (state_root_from_accounts native') /\
      evm' = apply_accounts_to_revm_state evm native';
}.

Lemma validate_replay_ok native evm block pt native' evm' :
  validate_replay_state_root native evm block pt = (native', evm', Ok tt) <->
  replayed native evm block pt native' evm'.
Proof.
  unfold validate_replay_state_root. destruct (existsb is_evm_transaction (blk_transactions block)) eqn:Hev.
  - split.
    + intros H. split; [|congruence]. intros _.
      destruct (execute_evm_state_transition_in_place evm block pt) as [evm1 [[rs g]|e|]] eqn:Ex; [|by inversion H..].
      destruct (evm_state_root_from_revm_state evm1) as [root|e|] eqn:Er; [|by inversion H..].
      match type of H with (if ?c then _ else _) = _ => destruct c eqn:Ec; [by inversion H|] end.
      apply replay_mismatch in Ec.
      destruct (accounts_from_revm_state evm1) as [accts|e|] eqn:Ea; [|by inversion H..].
      injection H as -> ->. exists rs, g, root. done.
    + intros [H _]. destruct (H Hev) as (rs & g & root & Hx & Hroot & Hc & Ha).
      rewrite Hx, Hroot. rewrite (proj2 (replay_mismatch _ _ _ _) Hc). by rewrite Ha.
  - split.
    + intros H. split; [congruence|]. intros _.
      destruct (simulate_state_transition_from_accounts native block pt) as [[[m rs] g]|e|] eqn:Es; [|by inversion H..].
      match type of H with (if ?c then _ else _) = _ => destruct c eqn:Ec; [by inversion H|] end.
      apply replay_mismatch in Ec. injection H as -> <-. by exists rs, g.
    + intros [_ H]. destruct (H Hev) as (rs & g & Hs & Hc & ->). rewrite Hs.
      by rewrite (proj2 (replay_mismatch _ _ _ _) Hc).
Qed.

(** The state check of the replay and the one of live validation. *)
Lemma replay_verdict view native evm block pt :
  cv_account_snapshot view = Ok native -> cv_evm_state view = Ok evm ->
  parent_timestamp_of view block = Ok pt ->
  (exists native' evm', replayed native evm block pt native' evm') <->
  validate_state_root view block = Ok tt.
Proof.
  intros Hn He Hp. rewrite validate_state_root_ok. unfold simulate_evm_state_transition, simulate_state_transition.
  rewrite Hn, He, Hp. cbn [res_bind]. unfold simulate_evm_state_transition_from_state.
  destruct (existsb is_evm_transaction (blk_transactions block)) eqn:Hev; split.
  - intros (native' & evm' & [H _]). destruct (H Hev) as (rs & g & root & Hx & Hroot & Hc & _).
    rewrite Hx. cbn [res_bind]. eexists _, root. split; [done|]. by split.
  - intros (sim & root & Hsim & Hroot & Hc).
    destruct (execute_evm_state_transition_in_place evm block pt) as [evm1 [[rs g]|e|]] eqn:Ex; [|done..].
    injection Hsim as <-. cbn [sim_state sim_receipts sim_gas_used] in *.
    destruct (root_then_accounts _ _ Hroot) as [native' Ha]. exists native', evm1.
    split; [|congruence]. intros _. by exists rs, g, root.
  - intros (native' & evm' & [_ H]). destruct (H Hev) as (rs & g & Hs & Hc & _). rewrite Hs.
    exists native', rs, g. by split.
  - intros (m & rs & g & Hs & Hc). exists m, (apply_accounts_to_revm_state evm m).
    split; [congruence|]. intros _. by exists rs, g.
Qed.

Lemma replayed_coherent native evm block pt native' evm' :
  block_amounts_ok block -> coherent native evm -> replayed native evm block pt native' evm' ->
  coherent native' evm'.
Proof.
  intros Hb Hc [H1 H2]. destruct (existsb is_evm_transaction (blk_transactions block)).
  - destruct (H1 eq_refl) as (rs & g & root & _ & _ & _ & Ha). exact Ha.
  - destruct (H2 eq_refl) as (rs & g & Hs & _ & ->).
    pose proof (simulate_grows _ _ _ _ _ _ Hb (coherent_balances _ _ Hc) Hs) as [Hf Hd].
    by eapply coherent_apply.
Qed.

(** C23: checking a block against the in-memory state of a replay gives the
    verdict of the live validation on a storage with that state, for plain and
    EVM blocks; an accepted block leaves the two account representations of the
    replay in agreement; a rejected plain block empties the native accounts and
    an EVM block that fails to execute empties the EVM state. *)
Theorem replay_agrees view native evm block pt native' evm' r :
  cv_account_snapshot view = Ok native -> cv_evm_state view = Ok evm ->
  parent_timestamp_of view block = Ok pt ->
  validate_replay_state_root native evm block pt = (native', evm', r) ->
  (r = Ok tt <-> validate_state_root view block = Ok tt) /\
  (r = Ok tt -> coherent native evm -> block_amounts_ok block -> coherent native' evm') /\
  (r <> Ok tt -> existsb is_evm_transaction (blk_transactions block) = false ->
     native' = ∅ /\ evm' = evm).
Proof.
  intros Hn He Hp E. split; [|split].
  - rewrite <- (replay_verdict view native evm block pt) by done. split.
    + intros ->. exists native', evm'. by apply validate_replay_ok.
    + intros (n2 & e2 & H). apply validate_replay_ok in H. rewrite E in H. by injection H as _ _ ->.
  - intros -> Hc Hb. apply validate_replay_ok in E. by eapply replayed_coherent.
  - intros Hr Hev. unfold validate_replay_state_root in E. rewrite Hev in E.
    destruct (simulate_state_transition_from_accounts native block pt) as [[[m rs] g]|e|];
      [|injection E as <- <- <-; done..].
    match type of E with (if ?c then _ else _) = _ => destruct c end; [by injection E as <- <- <-|].
    injection E as _ _ <-. done.
Qed.
End verdict.

(** ** The history of the overlay *)

Section history.
Context {D : Digests}.

(** [anc] are the ancestors of [h], nearest first, by hash. *)
Fixpoint chained (h : BlockHeader) (anc : list BlockHeader) : Prop :=
  match anc with
  | [] => True
  | p :: anc => hdr_number h <> 0 /\ hdr_parent_hash h = header_hash p /\ chained p anc
  end.

(** The history ends with the parent and reaches back through the window. *)
Definition history_ok (history : list BlockHeader) (parent : BlockHeader) : Prop :=
  exists anc, history = rev anc ++ [parent] /\ chained parent anc /\
    window_complete BLOCK_TIME_V2_MEDIAN_WINDOW parent anc.

Lemma chained_linked lookup h anc :
  chained h anc -> Forall (fun p => lookup (header_hash p) = Ok p) anc -> linked lookup h anc.
Proof.
  revert h. induction anc as [|p anc IH]; intros h Hc Hl; [done|]. destruct Hc as (H1 & H2 & H3).
  inversion Hl; subst. split; [done|]. split; [by rewrite H2|]. by apply IH.
Qed.

Lemma history_lookup_found history p :
  NoDup (map header_hash history) -> p ∈ history -> history_lookup history (header_hash p) = Ok p.
Proof.
  intros Hnd Hin. unfold history_lookup. induction history as [|h history IH]; [by apply not_elem_of_nil in Hin|].
  cbn [map] in Hnd. apply list.NoDup_cons in Hnd as [Hn Hnd]. simpl. case_bool_decide as E.
  - apply elem_of_cons in Hin as [->|Hin]; [done|]. exfalso. apply Hn. rewrite E.
    apply list_elem_of_fmap. by exists p.
  - apply elem_of_cons in Hin as [->|Hin]; [done|]. by apply IH.
Qed.

(** The bounded history answers like any lookup that knows its headers. *)
Lemma history_target history parent child activation lookup :
  history_ok history parent -> NoDup (map header_hash history) ->
  Forall (fun p => lookup (header_hash p) = Ok p) history ->
  expected_difficulty_target_with_lookup parent child activation (history_lookup history) =
  expected_difficulty_target_with_lookup parent child activation lookup.
Proof.
  intros (anc & -> & Hc & Hw) Hnd Hl.
  assert (linked lookup parent anc) as H1.
  { apply chained_linked; [done|]. apply Forall_app in Hl as [Hl _]. by apply Forall_rev in Hl; rewrite rev_involutive in Hl. }
  assert (linked (history_lookup (rev anc ++ [parent])) parent anc) as H2.
  { apply chained_linked; [done|]. apply Forall_forall. intros p Hp.
    apply history_lookup_found; [done|]. apply elem_of_app. left. by apply list_elem_of_In, in_rev; rewrite rev_involutive; apply list_elem_of_In. }
  unfold expected_difficulty_target_with_lookup, difficulty_history_intervals_with_lookup.
  by rewrite !(history_headers_exact _ _ anc).
Qed.

Lemma chained_take n h anc : chained h anc -> chained h (take n anc).
Proof.
  revert n h. induction anc as [|p anc IH]; intros [|n] h H; try done. destruct H as (? & ? & ?).
  split; [done|]. split; [done|]. by apply IH.
Qed.

Lemma push_history_ok history parent header :
  history_ok history parent -> hdr_number header <> 0 -> hdr_parent_hash header = header_hash parent ->
  history_ok (push_history history header) header.
Proof.
  intros (anc & -> & Hc & Hw) Hn Hp. set (W := BLOCK_TIME_V2_MEDIAN_WINDOW) in *.
  exists (take W (parent :: anc)). split; [|split].
  - unfold push_history. rewrite !length_app, length_rev. cbn [length]. fold W.
    assert (length anc <= W)%nat as Hle by (destruct Hw as [->|[? _]]; lia).
    destruct (Nat.ltb_spec (W + 1) (length anc + 1 + 1)) as [Hlt|Hge].
    + assert (length anc = W) as Hlen by lia. destruct anc as [|x anc] using rev_ind.
      { cbn in Hlen. by vm_compute in Hlen. }
      clear IHanc. rewrite length_app in Hlen. cbn [length] in Hlen. rewrite rev_app_distr. cbn [rev app drop].
      f_equal. replace W with (S (length anc)) by lia. cbn [take]. rewrite take_app_length. done.
    + rewrite take_ge by (cbn [length]; lia). done.
  - apply chained_take. by split.
  - destruct Hw as [Hw|[Hw Hz]].
    + left. rewrite length_take. cbn [length]. lia.
    + unfold window_complete. rewrite length_take. cbn [length].
      destruct (decide (W <= S (length anc))%nat) as [Hge|Hlt]; [left; lia|right]. split; [lia|].
      rewrite take_ge by (cbn [length]; lia). destruct anc as [|p anc]; [exact Hz|].
      change (parent :: p :: anc) with ([parent] ++ p :: anc). rewrite last_app.
      destruct (last (p :: anc)) eqn:El; [exact Hz|]. by apply last_None in El.
Qed.
End history.

(** ** The overlay along a suffix *)

Section overlay.
Context {D : Digests} {U : U256Ops} {R : Revm}.
Context {HX : HexCodec} {SE : Secp} {BP : BuildProfile} {RX : RandomX}.

Record overlay_ok (o : ExecutionReplayOverlay) : Prop := {
  ov_coherent : coherent (ov_native_accounts o) (ov_evm_state o);
  ov_history : history_ok (ov_difficulty_history o) (ov_parent o);
}.

(** A storage that holds the state and the headers of the overlay. *)
Record overlay_view (o : ExecutionReplayOverlay) (view : ChainView) (lookup : HeaderLookup)
    (block : Block) : Prop := {
  vw_native : cv_account_snapshot view = Ok (ov_native_accounts o);
  vw_evm : cv_evm_state view = Ok (ov_evm_state o);
  vw_parent : parent_timestamp_of view block = Ok (hdr_timestamp_seconds (ov_parent o));
  vw_headers : Forall (fun p => lookup (header_hash p) = Ok p) (ov_difficulty_history o);
}.

Lemma overlay_check_ok o config genesis_hash block lookup :
  overlay_ok o -> NoDup (map header_hash (ov_difficulty_history o)) ->
  Forall (fun p => lookup (header_hash p) = Ok p) (ov_difficulty_history o) ->
  overlay_check o config genesis_hash block = Ok tt <->
  validate_block_transaction_auth (rp_require_signed_transactions config) block = Ok tt /\
  validate_block_with_genesis_and_activation (ov_parent o) block genesis_hash
    (rp_block_size_activation_height config) = Ok tt /\
  validate_difficulty_target lookup (ov_parent o) (blk_header block)
    (rp_block_time_v2_activation_height config) = Ok tt.
Proof.
  intros Ho Hnd Hl. unfold overlay_check, validate_difficulty_target.
  rewrite (history_target _ _ _ _ lookup (ov_history _ Ho) Hnd Hl). split.
  - intros ([] & H1 & H)%res_bind_ok. apply res_bind_ok in H as ([] & H2 & H). apply res_map_err_ok in H2.
    apply res_bind_ok in H as (e & -> & H). split; [done|]. split; [done|]. simpl.
    by destruct (bool_decide _).
  - intros (-> & -> & H). cbn [res_bind res_map_err]. apply res_bind_ok in H as (e & -> & H). simpl.
    by destruct (bool_decide _).
Qed.

Lemma push_history_window history header :
  exists dropped, history ++ [header] = dropped ++ push_history history header /\ (length dropped <= 1)%nat.
Proof.
  unfold push_history. case_match; [|exists []; split; [done|cbn; lia]].
  exists (take 1 (history ++ [header])). rewrite take_drop. split; [done|]. rewrite length_take. lia.
Qed.

(** C38: the overlay accepts exactly the blocks that live validation accepts on
    a storage with its state: the signatures, the consensus rules on its
    parent, the difficulty target computed from the whole chain (the bounded
    history suffices) and the state root.  After an accepted block the overlay
    holds the accounts and the EVM state that the transition of the block makes
    of those before, which agree with each other; it stands on the block, and its
    history is the one before with the header, less at most the oldest, and
    covers the window again.  A block refused by the checks changes nothing; one
    refused by its state root moves neither the parent nor the history. *)
Theorem overlay_apply_exact o config genesis_hash block view lookup o' r :
  overlay_ok o -> overlay_view o view lookup block ->
  NoDup (map header_hash (ov_difficulty_history o)) ->
  0 <= hdr_number (ov_parent o) < U64_MAX -> block_amounts_ok block ->
  overlay_apply o config genesis_hash block = (o', r) ->
  let checks :=
    validate_block_transaction_auth (rp_require_signed_transactions config) block = Ok tt /\
    validate_block_with_genesis_and_activation (ov_parent o) block genesis_hash
      (rp_block_size_activation_height config) = Ok tt /\
    validate_difficulty_target lookup (ov_parent o) (blk_header block)
      (rp_block_time_v2_activation_height config) = Ok tt in
  (r = Ok tt <-> checks /\ validate_state_root view block = Ok tt) /\
  (r = Ok tt ->
    replayed (ov_native_accounts o) (ov_evm_state o) block (hdr_timestamp_seconds (ov_parent o))
      (ov_native_accounts o') (ov_evm_state o') /\
    overlay_ok o' /\ ov_parent o' = blk_header block /\
    exists dropped, ov_difficulty_history o ++ [blk_header block] = dropped ++ ov_difficulty_history o' /\
      (length dropped <= 1)%nat) /\
  (~ checks -> o' = o) /\
  (r <> Ok tt -> ov_parent o' = ov_parent o /\ ov_difficulty_history o' = ov_difficulty_history o).
Proof.
  intros Ho [Vn Ve Vp Vh] Hnd Hnum Hb E checks. pose proof (overlay_check_ok o config genesis_hash block lookup Ho Hnd Vh) as Hck.
  change (overlay_check o config genesis_hash block = Ok tt <-> checks) in Hck.
  pose proof (replay_verdict view _ _ block _ Vn Ve Vp) as Hv. unfold overlay_apply in E.
  destruct (overlay_check o config genesis_hash block) as [[]|e|] eqn:Ec.
  2, 3: injection E as <- <-; split; [|done]; split; [done|]; intros [Hc _]; by apply Hck in Hc.
  pose proof (proj1 Hck eq_refl) as Hc. pose proof Hc as (H1 & H2 & H3).
  destruct (validate_replay_state_root (ov_native_accounts o) (ov_evm_state o) block
    (hdr_timestamp_seconds (ov_parent o))) as [[native evm] q] eqn:Er.
  destruct q as [[]|e|]; injection E as <- <-.
  - apply validate_replay_ok in Er. split; [|split; [|split; [done|done]]].
    + split; [intros _|done]. split; [done|]. apply Hv. eauto.
    + intros _. split; [exact Er|]. split; [|split; [done|apply push_history_window]].
      split; cbn [ov_native_accounts ov_evm_state ov_difficulty_history ov_parent].
      * eapply replayed_coherent; [done|apply Ho|done].
      * apply validate_block_ok in H2. apply push_history_ok with (parent := ov_parent o); [apply Ho| |apply H2].
        rewrite (vh_number _ _ _ (vb_header _ _ _ _ H2)), wrap64_small by (unfold in_u64, U64_MAX in *; lia). lia.
  - split; [|done]. split; [done|]. intros [_ Hs]. apply Hv in Hs as (n2 & e2 & Hs).
    apply validate_replay_ok in Hs. congruence.
  - split; [|done]. split; [done|]. intros [_ Hs]. apply Hv in Hs as (n2 & e2 & Hs).
    apply validate_replay_ok in Hs. congruence.
Qed.
End overlay.

(** ** Witnesses: an empty block on the child of a genesis *)

Definition replay_header (parent : BlockHeader) (n timestamp : Z) : BlockHeader := {|
  hdr_parent_hash := @header_hash toy_digests parent; hdr_number := n; hdr_state_root := HASH_ZERO;
  hdr_transactions_root := @transactions_root toy_digests []; hdr_receipts_root := @receipts_root toy_digests [];
  hdr_beneficiary := be_bytes 32 3;
  hdr_difficulty_target :=
    match next_block_difficulty_target HASH_MAX 20 with Ok t => t | _ => HASH_MAX end;
  hdr_base_fee_per_gas := next_base_fee_per_gas parent;
  hdr_gas_limit := GENESIS_GAS_LIMIT; hdr_gas_used := 0; hdr_timestamp_seconds := timestamp;
  hdr_pow_algorithm := @POW_ALGORITHM native_profile; hdr_pow_epoch := 0; hdr_extra_nonce := 0;
  hdr_mix_hash := HASH_ZERO; hdr_nonce := 0 |}.

Definition numbered_zero : BlockHeader := numbered_header 0 80.

Definition replay_parent : BlockHeader :=
  let h := replay_header numbered_zero 1 100 in {|
  hdr_parent_hash := hdr_parent_hash h; hdr_number := 1; hdr_state_root := HASH_ZERO;
  hdr_transactions_root := HASH_ZERO; hdr_receipts_root := HASH_ZERO; hdr_beneficiary := HASH_ZERO;
  hdr_difficulty_target := HASH_MAX; hdr_base_fee_per_gas := INITIAL_BASE_FEE_PER_GAS_BIX;
  hdr_gas_limit := GENESIS_GAS_LIMIT; hdr_gas_used := 0; hdr_timestamp_seconds := 100;
  hdr_pow_algorithm := []; hdr_pow_epoch := 0; hdr_extra_nonce := 0;
  hdr_mix_hash := HASH_ZERO; hdr_nonce := 5 |}.

(** The block with its state root, then its mix hash. *)
Definition replay_block : Block :=
  let b := {| blk_header := replay_header replay_parent 2 120; blk_transactions := []; blk_receipts := [] |} in
  match @build_stateful_block_from_accounts toy_digests sample_accounts b [] 100 with
  | Ok b =>
      match @blq_rx_hash native_profile toy_digests toy_randomx (blk_header b) HASH_ZERO with
      | Ok r => {| blk_header := with_mix_hash (blk_header b) (mix_hash r);
                   blk_transactions := blk_transactions b; blk_receipts := blk_receipts b |}
      | _ => b
      end
  | _ => b
  end.

Definition replay_overlay : @ExecutionReplayOverlay u256_z := {|
  ov_native_accounts := sample_accounts;
  ov_evm_state := @apply_accounts_to_revm_state u256_z ∅ sample_accounts;
  ov_parent := replay_parent;
  ov_difficulty_history := [numbered_zero; replay_parent] |}.

Definition replay_config : ReplayConfig := {|
  rp_require_signed_transactions := true; rp_block_size_activation_height := Some 0;
  rp_block_time_v2_activation_height := None |}.

Definition replay_view : @ChainView u256_z := {|
  cv_header_by_number := fun _ => Ok replay_parent;
  cv_account_snapshot := Ok sample_accounts;
  cv_evm_state := Ok (ov_evm_state replay_overlay) |}.

Lemma sample_balances_fit : balances_fit sample_accounts.
Proof. apply map_Forall_insert_2; [split; vm_compute; discriminate|apply map_Forall_empty]. Qed.

Lemma replay_overlay_ok : @overlay_ok toy_digests u256_z replay_overlay.
Proof.
  split.
  - apply (@coherent_apply u256_z ∅ sample_accounts ∅); [reflexivity|apply sample_balances_fit|].
    intros a [x Hx]. done.
  - exists [numbered_zero]. split; [reflexivity|]. split.
    + split; [vm_compute; discriminate|]. split; [reflexivity|exact I].
    + right. split; [vm_compute; lia|reflexivity].
Qed.

Lemma replay_history_distinct : NoDup (map (@header_hash toy_digests) (ov_difficulty_history replay_overlay)).
Proof. apply (bool_decide_unpack _). vm_compute. exact I. Qed.

Lemma overlay_apply_exact_witness :
  exists o', @overlay_apply toy_digests u256_z (toy_revm u256_z) toy_secp native_profile toy_randomx
      replay_overlay replay_config HASH_ZERO replay_block = (o', Ok tt) /\
    @overlay_ok toy_digests u256_z o' /\ ov_parent o' = blk_header replay_block /\
    @replayed toy_digests u256_z (toy_revm u256_z) (ov_native_accounts replay_overlay) (ov_evm_state replay_overlay)
      replay_block (hdr_timestamp_seconds (ov_parent replay_overlay)) (ov_native_accounts o') (ov_evm_state o').
Proof.
  set (run := @overlay_apply toy_digests u256_z (toy_revm u256_z) toy_secp native_profile toy_randomx
      replay_overlay replay_config HASH_ZERO replay_block).
  assert (run.2 = Ok tt) as E by (vm_compute; reflexivity).
  assert (run = (run.1, Ok tt)) as E' by (rewrite <- E; apply surjective_pairing).
  exists run.1. split; [exact E'|].
  destruct (@overlay_apply_exact toy_digests u256_z (toy_revm u256_z) toy_secp native_profile
    toy_randomx replay_overlay replay_config HASH_ZERO replay_block replay_view
    (@history_lookup toy_digests (ov_difficulty_history replay_overlay)) run.1 (Ok tt) replay_overlay_ok) as (_ & H & _).
  - split; [reflexivity|reflexivity|vm_compute; reflexivity|].
    apply List.Forall_forall. intros p Hp%list_elem_of_In.
    by apply (@history_lookup_found toy_digests _ p replay_history_distinct).
  - exact replay_history_distinct.
  - split; vm_compute; congruence.
  - split; [vm_compute; discriminate|]. replace (blk_transactions replay_block) with (@nil Transaction); [constructor|].
    vm_compute. reflexivity.
  - exact E'.
  - destruct (H eq_refl) as (Hrep & Hok & Hp & _). split; [exact Hok|]. split; [exact Hp|exact Hrep].
Defined.

Lemma replay_agrees_witness :
  exists native' evm', @validate_replay_state_root toy_digests u256_z (toy_revm u256_z) sample_accounts
      (ov_evm_state replay_overlay) replay_block 100 = (native', evm', Ok tt) /\
    @validate_state_root toy_digests u256_z (toy_revm u256_z) replay_view replay_block = Ok tt.
Proof.
  set (run := @validate_replay_state_root toy_digests u256_z (toy_revm u256_z) sample_accounts
      (ov_evm_state replay_overlay) replay_block 100).
  assert (run.2 = Ok tt) as E by (vm_compute; reflexivity).
  assert (run = (run.1.1, run.1.2, Ok tt)) as E'.
  { rewrite <- E. destruct run as [[n e] q]. reflexivity. }
  exists run.1.1, run.1.2. split; [exact E'|].
  apply (@replay_agrees toy_digests u256_z (toy_revm u256_z) replay_view sample_accounts
    (ov_evm_state replay_overlay) replay_block 100 run.1.1 run.1.2 (Ok tt)); [reflexivity|reflexivity| |exact E'|reflexivity].
  vm_compute. reflexivity.
Defined.
