(* ===== verification/BlockStore.v ===== *)
(** The canonical chain in the store ([crates/blq-storage]): blocks, headers,
    transactions, receipts and the log index of [SledStorage], and the two
    simpler storages [MemoryStorage] and [FileStorage]. *)

From Stdlib Require Import ZArith Lia Strings.String Strings.Byte.
From stdpp Require Import sorting gmap fin_maps base list.
From S2P Require Import Prelude Externals Primitives Canonical State StateRoot Sled AccountStore.
#[local] Open Scope Z_scope.

(** The value of the [receipt:] rows. *)
Record StoredReceipt := {
  sr_receipt : Receipt;
  sr_header : BlockHeader;
  sr_transaction_index : nat;
  sr_transaction : Transaction;
}.

Definition LOG_INDEX_VERSION : list byte := B "state:log-index:version".

(** [iter().enumerate()]. *)
Definition enumerate {A} (l : list A) : list (nat * A) := imap (fun i x => (i, x)) l.

(** ** Keys *)

Section block_keys.
Context {HX : HexCodec}.

Definition block_key (n : Z) : list byte := B "block:number:" ++ pad20 n.
Definition header_key (n : Z) : list byte := B "header:number:" ++ pad20 n.
Definition transaction_key (h : Hash256) : list byte := B "transaction:" ++ hash_to_hex h.
Definition receipt_key (h : Hash256) : list byte := B "receipt:" ++ hash_to_hex h.

(** Indices are truncated to 32 bits. *)
Definition log_index_bytes (block_number : Z) (transaction_index log_index : nat) : list byte :=
  be_bytes 8 block_number ++ be_bytes 4 (Z.of_nat transaction_index) ++ be_bytes 4 (Z.of_nat log_index).
Definition log_location_key (location : list byte) : list byte :=
  B "log:index:location:" ++ hex_encode location.
Definition log_address_prefix (a : Address) : list byte := B "log:index:address:" ++ hex_encode a ++ B ":".
Definition log_address_key (a : Address) (location : list byte) : list byte :=
  log_address_prefix a ++ hex_encode location.
Definition log_topic_prefix (topic : Hash256) : list byte := B "log:index:topic:" ++ hash_to_hex topic ++ B ":".
Definition log_topic_key (topic : Hash256) (location : list byte) : list byte :=
  log_topic_prefix topic ++ hex_encode location.
End block_keys.

(** A 16-byte location and the height in it. *)
Definition location_number (value : list byte) : res StorageError Z :=
  if Z.of_nat (length value) =? 16 then Ok (be_val (take 8 value))
  else Err (Serialization "invalid log index location").

Section block_store.
Context {S : Sled} {HX : HexCodec} {D : Digests}.
Context {JB : Json Block} {JH : Json BlockHeader} {JT : Json Transaction} {JR : Json StoredReceipt}.

(** ** Reading *)

Definition get_best_number (s : SledStorage) : res StorageError Z :=
  let? value := db_get s (B "best:number") in
  let? value := ok_or value NotFound in
  u64_from_slice "invalid best number" value.

Definition is_empty (s : SledStorage) : bool := negb (is_ok (get_best_number s)).

Definition header_by_number (s : SledStorage) (number : Z) : res StorageError BlockHeader :=
  let? value := db_get s (header_key number) in
  let? value := ok_or value NotFound in
  json_slice value.

Definition best_header (s : SledStorage) : res StorageError BlockHeader :=
  let? number := get_best_number s in header_by_number s number.

Definition block_by_number (s : SledStorage) (number : Z) : res StorageError Block :=
  let? value := db_get s (block_key number) in
  let? value := ok_or value NotFound in
  json_slice value.

Definition canonical_blocks (s : SledStorage) : res StorageError (list Block) :=
  let? blocks := read_rows s (B "block:number:") (fun blocks kv =>
    let? block := json_slice kv.2 in Ok (blocks ++ [block])) [] in
  Ok (sort_by_key (fun b => hdr_number (blk_header b)) blocks).

Definition headers_after (s : SledStorage) (number : Z) (limit : nat) : res StorageError (list BlockHeader) :=
  let? headers := read_rows s (B "header:number:") (fun headers kv =>
    let? header := json_slice kv.2 in
    Ok (if number <? hdr_number header then headers ++ [header] else headers)) [] in
  Ok (take limit (sort_by_key hdr_number headers)).

Definition transaction_by_hash (s : SledStorage) (hash : Hash256) : res StorageError Transaction :=
  let? value := db_get s (transaction_key hash) in
  let? value := ok_or value NotFound in
  json_slice value.

Definition indexed_transaction_receipt_by_hash (s : SledStorage) (hash : Hash256)
    : res StorageError (Receipt * BlockHeader * nat * Transaction) :=
  let? value := db_get s (receipt_key hash) in
  match value with
  | Some value =>
      let? stored := json_slice value in
      Ok (sr_receipt stored, sr_header stored, sr_transaction_index stored, sr_transaction stored)
  | None => Err NotFound
  end.

(** The transactions of a block with their index: the first that has the hash. *)
Definition find_in_block (hash : Hash256) (block : Block) : res StorageError (option (Receipt * BlockHeader * nat * Transaction)) :=
  match List.find (fun it => bool_decide (tx_rpc_hash it.2 = hash) || bool_decide (tx_hash it.2 = hash))
          (enumerate (blk_transactions block)) with
  | Some (index, t) =>
      let? receipt := expect (blk_receipts block !! index) in
      Ok (Some (receipt, blk_header block, index, t))
  | None => Ok None
  end.

Definition scan_transaction_receipt (s : SledStorage) (hash : Hash256)
    : res StorageError (Receipt * BlockHeader * nat * Transaction) :=
  let? found := find_row s (B "block:number:") (fun kv =>
    let? block := json_slice kv.2 in find_in_block hash block) in
  ok_or found NotFound.

Definition transaction_receipt_by_hash (s : SledStorage) (hash : Hash256)
    : res StorageError (Receipt * BlockHeader * nat * Transaction) :=
  match indexed_transaction_receipt_by_hash s hash with
  | Ok value => Ok value
  | Err NotFound => scan_transaction_receipt s hash
  | Err e => Err e
  | Panic => Panic
  end.

(** ** The log index *)

Definition collect_indexed_log_numbers (s : SledStorage) (prefix : list byte) (from to : Z)
    (numbers : gset Z) : res StorageError (gset Z) :=
  read_rows s prefix (fun numbers kv =>
    let? number := location_number kv.2 in
    Ok (if (from <=? number) && (number <=? to) then {[number]} ∪ numbers else numbers)) numbers.

Definition indexed_log_block_numbers (s : SledStorage) (from to : Z)
    (addresses : option (list Address)) (topics : option (list Hash256)) : res StorageError (gset Z) :=
  match addresses, topics with
  | Some addresses, _ =>
      fold_left (fun acc a => let? numbers := acc in
        collect_indexed_log_numbers s (log_address_prefix a) from to numbers) addresses (Ok ∅)
  | None, Some topics =>
      fold_left (fun acc t => let? numbers := acc in
        collect_indexed_log_numbers s (log_topic_prefix t) from to numbers) topics (Ok ∅)
  | None, None => collect_indexed_log_numbers s (B "log:index:location:") from to ∅
  end.

(** The rows of one log. *)
Definition log_rows (number : Z) (transaction_index log_index : nat) (log : LogEntry)
    : list (list byte * list byte) :=
  let location := log_index_bytes number transaction_index log_index in
  (log_location_key location, location) :: (log_address_key (log_address log) location, location) ::
  map (fun topic => (log_topic_key topic location, location)) (log_topics log).

(** [block.receipts.iter().enumerate()] and [receipt.logs.iter().enumerate()]. *)
Definition block_log_rows (block : Block) : list (list byte * list byte) :=
  concat (map (fun ir => concat (map (fun il =>
    log_rows (hdr_number (blk_header block)) ir.1 il.1 il.2) (enumerate (rc_logs ir.2))))
    (enumerate (blk_receipts block))).

Definition index_block_logs (block : Block) : St unit :=
  st_for (block_log_rows block) (fun kv => db_insert kv.1 kv.2).

(** [0..=best_number]. *)
Definition rebuild_log_index : St unit :=
  do? present := st_read (fun s => db_contains_key s LOG_INDEX_VERSION) in
  if (present : bool) then st_ret tt
  else fun s =>
    match get_best_number s with
    | Err NotFound => (Ok tt, s)
    | Err e => (Err e, s)
    | Panic => (Panic, s)
    | Ok best_number =>
        (st_for (seq 0 (Z.to_nat (best_number + 1))) (fun number =>
           do? block := st_read (fun s => block_by_number s (Z.of_nat number)) in
           index_block_logs block) ;!
         db_insert LOG_INDEX_VERSION [x01] ;!
         db_flush) s
    end.

(** ** Writing *)

Definition put_header (header : BlockHeader) : St unit :=
  do? value := st_res (json_vec header) in
  db_insert (header_key (hdr_number header)) value ;!
  db_insert (B "best:number") (be_bytes 8 (hdr_number header)) ;!
  flush_db.

Definition insert_header (header : BlockHeader) : St unit := put_header header.

Definition stored_receipt (block : Block) (index : nat) (t : Transaction) : res StorageError StoredReceipt :=
  let? receipt := expect (blk_receipts block !! index) in
  Ok {| sr_receipt := receipt; sr_header := blk_header block;
        sr_transaction_index := index; sr_transaction := t |}.

(** One transaction of [insert_block]. *)
Definition insert_block_transaction (block : Block) (it : nat * Transaction) : St unit :=
  let '(index, t) := it in
  do? value := st_res (json_vec t) in
  db_insert (transaction_key (tx_hash t)) value ;!
  match tx_external_hash t with
  | Some external_hash =>
      do? value := st_res (json_vec t) in
      db_insert (transaction_key external_hash) value
  | None => st_ret tt
  end ;!
  do? stored := st_res (stored_receipt block index t) in
  do? stored := st_res (json_vec stored) in
  db_insert (receipt_key (tx_rpc_hash t)) stored ;!
  db_insert (receipt_key (tx_hash t)) stored.

Definition insert_block (block : Block) : St unit :=
  do? value := st_res (json_vec block) in
  db_insert (block_key (hdr_number (blk_header block))) value ;!
  st_for (enumerate (blk_transactions block)) (insert_block_transaction block) ;!
  index_block_logs block ;!
  put_header (blk_header block) ;!
  flush_db.

(** ** Batches *)

Definition transaction_batch (block : Block) (it : nat * Transaction) : res StorageError (list BatchOp) :=
  let '(index, t) := it in
  let? value := json_vec t in
  let? stored := stored_receipt block index t in
  let? stored := json_vec stored in
  Ok (BatchInsert (transaction_key (tx_hash t)) value ::
      match tx_external_hash t with
      | Some external_hash => [BatchInsert (transaction_key external_hash) value]
      | None => []
      end ++
      [BatchInsert (receipt_key (tx_rpc_hash t)) stored; BatchInsert (receipt_key (tx_hash t)) stored]).

Definition insert_block_into_batch (batch : list BatchOp) (block : Block) : res StorageError (list BatchOp) :=
  let number := hdr_number (blk_header block) in
  let? block_value := json_vec block in
  let? header_value := json_vec (blk_header block) in
  let batch := batch ++ [BatchInsert (block_key number) block_value; BatchInsert (header_key number) header_value] in
  let? batch := fold_left (fun acc it => let? batch := acc in
    let? ops := transaction_batch block it in Ok (batch ++ ops)) (enumerate (blk_transactions block)) (Ok batch) in
  Ok (batch ++ map (fun kv => BatchInsert kv.1 kv.2) (block_log_rows block)).

Definition remove_block_from_batch (batch : list BatchOp) (block : Block) : list BatchOp :=
  let number := hdr_number (blk_header block) in
  batch ++ [BatchRemove (block_key number); BatchRemove (header_key number)] ++
  concat (map (fun t =>
    BatchRemove (transaction_key (tx_hash t)) ::
    match tx_external_hash t with
    | Some external_hash => [BatchRemove (transaction_key external_hash)]
    | None => []
    end ++
    [BatchRemove (receipt_key (tx_rpc_hash t)); BatchRemove (receipt_key (tx_hash t))])
    (blk_transactions block)).

(** ** Removing *)

Definition remove_keys (keys : list (list byte)) : St unit := st_for keys db_remove.

(** The prefixes of [clear_canonical_state]; the keys of one prefix are
    collected before the first of them is removed. *)
Definition CANONICAL_PREFIXES : list (list byte) :=
  [B "block:number:"; B "header:number:"; B "transaction:"; B "receipt:"; B "account:"; B "state:";
   B "log:index:"].

Definition clear_canonical_state : St unit :=
  st_for CANONICAL_PREFIXES (fun prefix =>
    do? rows := st_read (fun s => scan_all s prefix) in
    remove_keys (map fst rows)) ;!
  db_remove (B "best:number") ;!
  db_flush.

(** [item.ok()]: error rows are skipped. *)
Definition ok_rows (s : SledStorage) (prefix : list byte) : list (list byte * list byte) :=
  omap (fun row => match row with Ok kv => Some kv | _ => None end) (sled_scan_prefix (ss_db s) prefix).

Definition remove_log_indexes_for_block (number : Z) : St unit := fun s =>
  let keys := omap (fun kv =>
    match location_number kv.2 with
    | Ok indexed_number => if indexed_number =? number then Some kv.1 else None
    | _ => None
    end) (ok_rows s (B "log:index:")) in
  remove_keys keys s.

(** The height in a [block:number:] key. *)
Definition body_height (key : list byte) : option Z :=
  if utf8_valid key then
    digits ← strip_prefix (B "block:number:") key; parse_uint U64_MAX digits
  else None.

Definition oldest_body_height (s : SledStorage) : res StorageError (option Z) :=
  read_rows s (B "block:number:") (fun oldest kv =>
    match body_height kv.1 with
    | Some number => Ok (Some (match oldest with Some current => Z.min current number | None => number end))
    | None => Ok oldest
    end) None.

Definition prune_transaction (t : Transaction) : St unit :=
  db_remove (transaction_key (tx_hash t)) ;!
  db_remove (transaction_key (tx_rpc_hash t)) ;!
  db_remove (receipt_key (tx_rpc_hash t)) ;!
  db_remove (receipt_key (tx_hash t)).

(** The loop of [prune_old_blocks] over the sorted heights; the disk usage is
    read again before each block. *)
Fixpoint prune_loop (disk_usage_bytes : SledStorage -> res StorageError Z) (target : Z) (numbers : list Z)
    : St unit :=
  match numbers with
  | [] => st_ret tt
  | number :: numbers =>
      do? usage := st_read disk_usage_bytes in
      if usage <=? target then st_ret tt
      else fun s =>
        match block_by_number s number with
        | Ok block =>
            (remove_log_indexes_for_block number ;!
             db_remove (block_key number) ;!
             st_for (blk_transactions block) prune_transaction ;!
             prune_loop disk_usage_bytes target numbers) s
        | Err _ => prune_loop disk_usage_bytes target numbers s
        | Panic => (Panic, s)
        end
  end.

Definition prune_old_blocks (disk_usage_bytes : SledStorage -> res StorageError Z)
    (max_bytes minimum_body_height : Z) : St unit := fun s =>
  let target := sat_mul U64_MAX max_bytes 9 / 10 in
  let numbers := List.filter (fun n => minimum_body_height <? n)
    (omap (fun kv => body_height kv.1) (ok_rows s (B "block:number:"))) in
  let numbers := sort_by Z.compare numbers in
  (prune_loop disk_usage_bytes target numbers ;! db_flush) s.
End block_store.

(** ** [MemoryStorage] *)

Section memory_storage.
Context {D : Digests}.

Record MemoryStorage := { mem_blocks : list Block }.

Definition mem_best_header (s : MemoryStorage) : res StorageError BlockHeader :=
  ok_or (blk_header <$> last (mem_blocks s)) NotFound.
Definition mem_header_by_hash (s : MemoryStorage) (hash : Hash256) : res StorageError BlockHeader :=
  ok_or (blk_header <$> List.find (fun b => bool_decide (header_hash (blk_header b) = hash)) (mem_blocks s)) NotFound.
Definition mem_block_by_number (s : MemoryStorage) (number : Z) : res StorageError Block :=
  ok_or (List.find (fun b => hdr_number (blk_header b) =? number) (mem_blocks s)) NotFound.
Definition mem_header_by_number (s : MemoryStorage) (number : Z) : res StorageError BlockHeader :=
  ok_or (blk_header <$> List.find (fun b => hdr_number (blk_header b) =? number) (mem_blocks s)) NotFound.
Definition mem_insert_header (s : MemoryStorage) (header : BlockHeader) : MemoryStorage :=
  {| mem_blocks := mem_blocks s ++ [{| blk_header := header; blk_transactions := []; blk_receipts := [] |}] |}.
Definition mem_insert_block (s : MemoryStorage) (block : Block) : MemoryStorage :=
  {| mem_blocks := mem_blocks s ++ [block] |}.

(** ** [FileStorage]: the lines of its two files *)

Record FileStorage := { file_blocks : list Block; file_headers : list BlockHeader }.

(** [append_jsonl] may fail, and then nothing is kept. *)
Context (append_block : Block -> res StorageError unit) (append_header : BlockHeader -> res StorageError unit).

Definition file_is_empty (s : FileStorage) : bool :=
  bool_decide (file_blocks s = []) && bool_decide (file_headers s = []).
Definition file_best_header (s : FileStorage) : res StorageError BlockHeader :=
  ok_or (match last (file_headers s) with
         | Some h => Some h | None => blk_header <$> last (file_blocks s) end) NotFound.
Definition file_header_by_hash (s : FileStorage) (hash : Hash256) : res StorageError BlockHeader :=
  ok_or (match List.find (fun h => bool_decide (header_hash h = hash)) (file_headers s) with
         | Some h => Some h
         | None => blk_header <$> List.find (fun b => bool_decide (header_hash (blk_header b) = hash)) (file_blocks s)
         end) NotFound.
Definition file_header_by_number (s : FileStorage) (number : Z) : res StorageError BlockHeader :=
  ok_or (match List.find (fun h => hdr_number h =? number) (file_headers s) with
         | Some h => Some h
         | None => blk_header <$> List.find (fun b => hdr_number (blk_header b) =? number) (file_blocks s)
         end) NotFound.
Definition file_block_by_number (s : FileStorage) (number : Z) : res StorageError Block :=
  ok_or (List.find (fun b => hdr_number (blk_header b) =? number) (file_blocks s)) NotFound.
Definition file_headers_after (s : FileStorage) (number : Z) (limit : nat) : list BlockHeader :=
  take limit (sort_by_key hdr_number
    (List.filter (fun h => number <? hdr_number h) (file_headers s ++ map blk_header (file_blocks s)))).
Definition file_insert_header (s : FileStorage) (header : BlockHeader) : res StorageError FileStorage :=
  append_header header ;? Ok {| file_blocks := file_blocks s; file_headers := file_headers s ++ [header] |}.
Definition file_insert_block (s : FileStorage) (block : Block) : res StorageError FileStorage :=
  append_block block ;? Ok {| file_blocks := file_blocks s ++ [block]; file_headers := file_headers s |}.
End memory_storage.
