(* ===== verification/ChainStore.v ===== *)
(** A store that holds a chain: the rows that inserting blocks leaves in the
    store are those of the chain, and the reading operations of [SledStorage]
    answer from it. *)

From Stdlib Require Import ZArith Lia Strings.String Strings.Byte.
From stdpp Require Import sorting gmap fin_maps base list.
From S2P Require Import Prelude Externals Primitives Canonical State StateRoot Sled AccountStore BlockStore.
#[local] Open Scope Z_scope.

(** ** A store that holds a chain *)

Section numbered.
Context {HX : HexCodec}.

(** The rows below [p], keyed by height, are the elements of a list. *)
Record numbered_rep {A} {J : Json A} (p : list byte) (m : Contents) (l : list A) : Prop := {
  nr_value : forall i a, l !! i = Some a ->
    exists v, m !! (p ++ pad20 (Z.of_nat i)) = Some v /\ to_vec a = Ok v;
  nr_keys : forall k, has_prefix p k = true -> is_Some (m !! k) ->
    exists i, (i < length l)%nat /\ k = p ++ pad20 (Z.of_nat i);
}.

Definition list_fits {A} (l : list A) : Prop := Z.of_nat (length l) <= U64_MAX.

Lemma index_u64 {A} (l : list A) i : list_fits l -> (i < length l)%nat -> in_u64 (Z.of_nat i).
Proof. unfold list_fits, in_u64. lia. Qed.

Lemma numbered_key_inj (p : list byte) i j :
  in_u64 (Z.of_nat i) -> in_u64 (Z.of_nat j) -> p ++ pad20 (Z.of_nat i) = p ++ pad20 (Z.of_nat j) -> i = j.
Proof. intros Hi Hj E. apply app_inv_head, pad20_inj in E; [lia|done..]. Qed.

Lemma numbered_app_prefix (p : list byte) i : has_prefix p (p ++ pad20 (Z.of_nat i)) = true.
Proof. apply has_prefix_true. eauto. Qed.

(** One more element. *)
Lemma numbered_rep_snoc {A} {J : Json A} p m (l : list A) a v :
  numbered_rep p m l -> list_fits (l ++ [a]) -> to_vec a = Ok v ->
  numbered_rep p (<[p ++ pad20 (Z.of_nat (length l)) := v]> m) (l ++ [a]).
Proof.
  intros [Hv Hk] Hf Ha. assert (forall i, (i < length (l ++ [a]))%nat -> in_u64 (Z.of_nat i)) as Hi.
  { intros i. by apply index_u64. }
  rewrite length_app in Hi. cbn [length] in Hi. split.
  - intros i b Hb. apply lookup_snoc_Some in Hb as [[Hlt Hb]|[-> <-]].
    + rewrite lookup_insert_ne; [by apply Hv|].
      intros E. apply numbered_key_inj in E; [lia|apply Hi; lia..].
    + rewrite lookup_insert_eq. eauto.
  - intros k Hp Hs. destruct (decide (k = p ++ pad20 (Z.of_nat (length l)))) as [->|Hne].
    + exists (length l). rewrite length_app. cbn [length]. split; [lia|done].
    + rewrite lookup_insert_ne in Hs by done. destruct (Hk k Hp Hs) as (i & Hlt & ->). exists i.
      rewrite length_app. split; [lia|done].
Qed.

Lemma numbered_rep_other {A} {J : Json A} p m (l : list A) m' :
  numbered_rep p m l -> (forall k, has_prefix p k = true -> m' !! k = m !! k) -> numbered_rep p m' l.
Proof.
  intros [Hv Hk] H. split.
  - intros i a Ha. rewrite H by apply numbered_app_prefix. by apply Hv.
  - intros k Hp Hs. rewrite H in Hs by done. by apply Hk.
Qed.

(** Elements whose numbers count up from [o]. *)
Definition numbered_from {A} (number : A -> Z) (o : Z) (l : list A) : Prop :=
  forall i a, l !! i = Some a -> number a = o + Z.of_nat i.

Lemma numbered_from_cons {A} (number : A -> Z) o a l :
  numbered_from number o (a :: l) -> number a = o /\ numbered_from number (o + 1) l.
Proof.
  intros H. split; [rewrite (H 0%nat a eq_refl); lia|]. intros i b Hb. rewrite (H (Datatypes.S i) b Hb). lia.
Qed.

Lemma numbered_from_drop {A} (number : A -> Z) o l n :
  numbered_from number o l -> numbered_from number (o + Z.of_nat n) (drop n l).
Proof. intros H i a Ha. rewrite lookup_drop in Ha. rewrite (H _ _ Ha). lia. Qed.

Lemma numbered_from_sorted {A} (number : A -> Z) o l :
  numbered_from number o l -> StronglySorted (cmp_le (cmp_key number)) l.
Proof.
  revert o. induction l as [|a l IH]; intros o H; [constructor|].
  apply numbered_from_cons in H as [Ha H]. constructor; [by eapply IH|].
  apply List.Forall_forall. intros b Hb. apply list_elem_of_In, list_elem_of_lookup in Hb as [i Hi].
  change (number a <= number b). rewrite (H _ _ Hi). lia.
Qed.

(** The rows decode to the elements, each once. *)
Lemma numbered_rows {A} {J : Json A} p m (l : list A) (number : A -> Z) :
  numbered_rep p m l -> list_fits l -> numbered_from number 0 l ->
  exists xs, Forall2 (fun kv a => json_slice kv.2 = Ok a) (prefix_entries p m) xs /\ xs ≡ₚ l.
Proof.
  intros [Hv Hk] Hf Hn. assert (forall i a, l !! i = Some a -> number a = Z.of_nat i) as Hn'.
  { intros i a Ha. rewrite (Hn i a Ha). lia. }
  clear Hn. rename Hn' into Hn.
  set (enc := fun a => match to_vec a with Ok v => v | _ => [] end).
  destruct (decode_rows_all p m
    (fun kv => let? a := json_slice kv.2 in Ok (number a, a))
    (fun n => p ++ pad20 n) enc (fun n a => l !! Z.to_nat n = Some a /\ n = number a)) as (xs & Hxs & Hnd & Hin).
  - intros k v. split.
    + intros [Hkv Hp]. destruct (Hk k Hp) as (i & Hlt & ->); [by eexists|].
      destruct (lookup_lt_is_Some_2 l i Hlt) as [a Ha]. destruct (Hv _ _ Ha) as (w & Hw & He).
      exists (Z.of_nat i), a. rewrite Nat2Z.id. split; [by rewrite (Hn _ _ Ha)|]. split; [done|].
      unfold enc. rewrite He. congruence.
    + intros (n & a & [Ha ->] & -> & ->). pose proof (Hn _ _ Ha) as En.
      destruct (Hv _ _ Ha) as (w & Hw & He). rewrite <- En in Hw. unfold enc. rewrite He.
      split; [done|apply has_prefix_true; eauto].
  - intros n a [Ha ->]. cbn [snd].
    destruct (Hv _ _ Ha) as (w & Hw & He). unfold enc. rewrite He. unfold json_slice.
    by rewrite (json_roundtrip _ _ He).
  - exists (map snd xs). split.
    + clear -Hxs. induction Hxs as [|kv x rows xs H _ IH]; [constructor|]. constructor; [|done].
      apply res_bind_ok in H as (a & Ha & [= <-]). done.
    + assert (NoDup l) as Hl.
      { apply NoDup_alt. intros i j a Hi Hj. apply Hn in Hi, Hj. lia. }
      apply NoDup_Permutation; [|done|].
      * apply (NoDup_fmap_1 number).
        replace (number <$> map snd xs) with (map fst xs); [done|].
        assert (forall x, x ∈ xs -> x.1 = number x.2) as Hx.
        { intros [n b] Hx. by apply Hin in Hx as [_ ->]. }
        clear -Hx. induction xs as [|x xs IH]; [done|]. cbn. rewrite (Hx x) by by left.
        f_equal. apply IH. intros y Hy. apply Hx. by right.
      * intros a. rewrite list_elem_of_fmap. split.
        -- intros ([n b] & -> & Hx). apply Hin in Hx as [Hx _]. by eapply list_elem_of_lookup_2.
        -- intros Ha. apply list_elem_of_lookup in Ha as [i Ha]. exists (number a, a). split; [done|].
           apply Hin. rewrite (Hn _ _ Ha), Nat2Z.id. done.
Qed.

(** Elements in height order are where their heights say. *)
Lemma sort_numbered {A} (number : A -> Z) o (l xs : list A) :
  numbered_from number o l -> xs ≡ₚ l -> sort_by_key number xs = l.
Proof.
  intros Hn Hp. apply (StronglySorted_unique_strong (cmp_le (cmp_key number))).
  - intros a b Ha Hb H1 H2. unfold sort_by_key in Ha. rewrite sort_by_perm, Hp in Ha.
    apply list_elem_of_lookup in Ha as [i Hi], Hb as [j Hj].
    change (number a <= number b) in H1. change (number b <= number a) in H2.
    assert (number a = number b) as E by lia.
    rewrite (Hn _ _ Hi), (Hn _ _ Hj) in E. assert (i = j) by lia. subst j. congruence.
  - apply sort_by_sorted, cmp_key_preorder.
  - by eapply numbered_from_sorted.
  - unfold sort_by_key. by rewrite sort_by_perm.
Qed.

(** The elements above a number are the rest of the list. *)
Lemma filter_numbered {A} (number : A -> Z) o l n :
  numbered_from number o l -> o <= n + 1 ->
  List.filter (fun a => n <? number a) l = drop (Z.to_nat (n + 1 - o)) l.
Proof.
  revert o. induction l as [|a l IH]; intros o H Ho; [by rewrite drop_nil|].
  apply numbered_from_cons in H as [Ha H]. cbn [List.filter]. rewrite Ha.
  destruct (Z.ltb_spec n o).
  - replace (Z.to_nat (n + 1 - o)) with 0%nat by lia. rewrite drop_0. f_equal.
    clear -H H0. revert o H H0. induction l as [|b l IH]; intros o H H0; [done|].
    apply numbered_from_cons in H as [Hb H]. cbn [List.filter]. rewrite Hb.
    destruct (Z.ltb_spec n (o + 1)); [|lia]. f_equal. apply (IH (o + 1)); [done|lia].
  - rewrite (IH (o + 1)) by (done || lia).
    replace (Z.to_nat (n + 1 - o)) with (Datatypes.S (Z.to_nat (n + 1 - (o + 1)))) by lia. done.
Qed.
End numbered.

(** ** What the insertion of a block writes *)

Lemma apply_ops_app m ops ops' : apply_ops m (ops ++ ops') = apply_ops (apply_ops m ops) ops'.
Proof. unfold apply_ops. by rewrite fold_left_app. Qed.

Lemma apply_ops_other m ops k : Forall (fun op => batch_key op <> k) ops -> apply_ops m ops !! k = m !! k.
Proof.
  intros H. unfold apply_ops. revert m. induction H as [|op ops Hop _ IH]; intros m; [done|]. simpl. rewrite IH.
  destruct op; cbn in *; [by rewrite lookup_insert_ne|by rewrite lookup_delete_ne].
Qed.

Lemma apply_ops_inserts m (rows : list (list byte * list byte)) :
  apply_ops m (map (fun kv => BatchInsert kv.1 kv.2) rows) = fold_left (fun m kv => <[kv.1 := kv.2]> m) rows m.
Proof. revert m. induction rows as [|kv rows IH]; intros m; [done|]. cbn. apply IH. Qed.

(** Keys below prefixes of which neither extends the other. *)
Lemma families_ne p q k k' :
  has_prefix p q = false -> has_prefix q p = false ->
  has_prefix p k = true -> has_prefix q k' = true -> k <> k'.
Proof.
  intros Hpq Hqp [r ->]%has_prefix_true [r' ->]%has_prefix_true E.
  apply app_eq_app in E as [l [[-> _]|[-> _]]].
  - rewrite (proj2 (has_prefix_true q (q ++ l))) in Hqp by eauto. done.
  - rewrite (proj2 (has_prefix_true p (p ++ l))) in Hpq by eauto. done.
Qed.

(** The key of an operation is below one of the prefixes. *)
Definition op_below (ps : list (list byte)) (op : BatchOp) : Prop :=
  Exists (fun p => has_prefix p (batch_key op) = true) ps.

Lemma ops_below_other ps ops m q k :
  Forall (op_below ps) ops -> Forall (fun p => has_prefix p q = false /\ has_prefix q p = false) ps ->
  has_prefix q k = true -> apply_ops m ops !! k = m !! k.
Proof.
  intros Hops Hps Hk. apply apply_ops_other. eapply Forall_impl; [exact Hops|]. intros op Hop.
  unfold op_below in Hop. apply Exists_exists in Hop as (p & Hin & Hp). rewrite List.Forall_forall in Hps.
  apply list_elem_of_In in Hin. destruct (Hps p Hin) as [H1 H2]. exact (families_ne p q _ _ H1 H2 Hp Hk).
Qed.

Lemma prefix_app p r : has_prefix p (p ++ r) = true.
Proof. apply has_prefix_true. eauto. Qed.
#[export] Hint Resolve prefix_app : storage.

Definition TX_PREFIXES : list (list byte) := [B "transaction:"; B "receipt:"].

Section insertion.
Context {S : Sled} {HX : HexCodec} {D : Digests}.
Context {JB : Json Block} {JH : Json BlockHeader} {JT : Json Transaction} {JR : Json StoredReceipt}.

Lemma transaction_batch_below b it ops : transaction_batch b it = Ok ops -> Forall (op_below TX_PREFIXES) ops.
Proof.
  destruct it as [i t]. unfold transaction_batch. intros (v & Hv & (r & Hr & (w & Hw & [= <-])%res_bind_ok)%res_bind_ok)%res_bind_ok.
  assert (forall h v, op_below TX_PREFIXES (BatchInsert (transaction_key h) v)) as Ht.
  { intros h x. left. apply prefix_app. }
  assert (forall h v, op_below TX_PREFIXES (BatchInsert (receipt_key h) v)) as Hrk.
  { intros h x. right. left. apply prefix_app. }
  destruct (tx_external_hash t); cbn [app]; repeat (apply List.Forall_cons; [auto|]); apply List.Forall_nil.
Qed.

Lemma insert_block_transaction_ok b it s u s' :
  insert_block_transaction b it s = (Ok u, s') ->
  exists ops, transaction_batch b it = Ok ops /\ contents s' = apply_ops (contents s) ops.
Proof.
  destruct it as [i t]. unfold insert_block_transaction, transaction_batch.
  intros (v & s1 & [Hv ->]%st_res_ok & (u1 & s2 & H1%db_insert_ok & H)%st_bind_ok)%st_bind_ok.
  apply st_bind_ok in H as (u3 & s3 & Hx & H).
  apply st_bind_ok in H as (r & s4 & [Hr ->]%st_res_ok & (w & s5 & [Hw ->]%st_res_ok & H)%st_bind_ok).
  apply st_bind_ok in H as (u6 & s6 & H6%db_insert_ok & H7%db_insert_ok).
  rewrite Hv, Hr. cbn [res_bind]. rewrite Hw. cbn [res_bind]. eexists. split; [done|].
  rewrite H7, H6. cbn [apply_ops fold_left apply_op]. unfold apply_ops. rewrite fold_left_app. cbn [fold_left apply_op].
  do 2 f_equal. destruct (tx_external_hash t) as [e|]; cbn [fold_left apply_op].
  - apply st_bind_ok in Hx as (v' & s8 & [Hv' ->]%st_res_ok & H8%db_insert_ok).
    rewrite Hv in Hv'. injection Hv' as <-. by rewrite H8, H1.
  - apply st_ret_ok in Hx as [_ ->]. done.
Qed.

(** The transactions of a block, written one by one or collected in a batch. *)
Definition transaction_ops (b : Block) (its : list (nat * Transaction)) : res StorageError (list BatchOp) :=
  fold_left (fun acc it => let? batch := acc in let? ops := transaction_batch b it in Ok (batch ++ ops))
    its (Ok []).

Lemma transaction_ops_from b its batch :
  fold_left (fun acc it => let? batch := acc in let? ops := transaction_batch b it in Ok (batch ++ ops))
    its (Ok batch) = (let? ops := transaction_ops b its in Ok (batch ++ ops)).
Proof.
  unfold transaction_ops. revert batch. assert (forall its batch pre,
    fold_left (fun acc it => let? batch := acc in let? ops := transaction_batch b it in Ok (batch ++ ops))
      its (Ok (pre ++ batch)) =
    (let? ops := fold_left (fun acc it => let? batch := acc in let? ops := transaction_batch b it in Ok (batch ++ ops))
      its (Ok batch) in Ok (pre ++ ops))) as H.
  { clear its. induction its as [|it its IH]; intros batch pre; [done|]. cbn [fold_left res_bind].
    destruct (transaction_batch b it) as [ops|e|]; cbn [res_bind].
    - by rewrite <- app_assoc, IH.
    - clear IH. by induction its.
    - clear IH. by induction its. }
  intros batch. rewrite <- (app_nil_r batch) at 1. apply H.
Qed.

Lemma transaction_ops_cons b it its :
  transaction_ops b (it :: its) =
  (let? ops := transaction_batch b it in let? rest := transaction_ops b its in Ok (ops ++ rest)).
Proof.
  unfold transaction_ops at 1. cbn [fold_left res_bind app].
  destruct (transaction_batch b it) as [ops|e|]; cbn [res_bind].
  - apply transaction_ops_from.
  - by induction its.
  - by induction its.
Qed.

Lemma transaction_ops_below b its ops : transaction_ops b its = Ok ops -> Forall (op_below TX_PREFIXES) ops.
Proof.
  revert ops. induction its as [|it its IH]; intros ops; [by intros [= <-]|]. rewrite transaction_ops_cons.
  intros (ops1 & H1 & (ops2 & H2 & [= <-])%res_bind_ok)%res_bind_ok. apply Forall_app. split; [|by apply IH].
  by eapply transaction_batch_below.
Qed.

Lemma insert_transactions_ok b its s u s' :
  st_for its (insert_block_transaction b) s = (Ok u, s') ->
  exists ops, transaction_ops b its = Ok ops /\ contents s' = apply_ops (contents s) ops.
Proof.
  revert s. induction its as [|it its IH]; intros s H.
  - apply st_ret_ok in H as [_ ->]. by exists [].
  - apply st_for_cons in H as (s1 & H1 & H). apply insert_block_transaction_ok in H1 as (ops1 & E1 & H1).
    apply IH in H as (ops2 & E2 & H). exists (ops1 ++ ops2). rewrite transaction_ops_cons, E1, E2.
    split; [done|]. by rewrite apply_ops_app, <- H1.
Qed.

(** The rows a block leaves, in the order of [insert_block]. *)
Lemma insert_block_ok b s u s' :
  insert_block b s = (Ok u, s') ->
  exists bv hv ops, json_vec b = Ok bv /\ json_vec (blk_header b) = Ok hv /\
    transaction_ops b (enumerate (blk_transactions b)) = Ok ops /\
    contents s' =
      <[B "best:number" := be_bytes 8 (hdr_number (blk_header b))]>
        (<[header_key (hdr_number (blk_header b)) := hv]>
          (apply_ops (apply_ops (<[block_key (hdr_number (blk_header b)) := bv]> (contents s)) ops)
            (map (fun kv => BatchInsert kv.1 kv.2) (block_log_rows b)))).
Proof.
  unfold insert_block, index_block_logs, put_header.
  intros (bv & s1 & [Hb ->]%st_res_ok & (u1 & s2 & H1%db_insert_ok & H)%st_bind_ok)%st_bind_ok.
  apply st_bind_ok in H as (u3 & s3 & (ops & Hops & H3)%insert_transactions_ok & H).
  apply st_bind_ok in H as (u4 & s4 & H4%st_for_insert_ok & H).
  apply st_bind_ok in H as (u5 & s5 & H5 & H%flush_db_contents).
  apply st_bind_ok in H5 as (hv & s6 & [Hh ->]%st_res_ok & H5).
  apply st_bind_ok in H5 as (u7 & s7 & H7%db_insert_ok & H5).
  apply st_bind_ok in H5 as (u8 & s8 & H8%db_insert_ok & H5%flush_db_contents).
  exists bv, hv, ops. do 3 (split; [done|]). rewrite apply_ops_inserts.
  by rewrite H, H5, H8, H7, H4, H3, H1.
Qed.

(** A block whose values all serialize. *)
Definition storable (b : Block) : Prop :=
  is_ok (json_vec b) = true /\ is_ok (json_vec (blk_header b)) = true /\
  is_ok (transaction_ops b (enumerate (blk_transactions b))) = true.

Lemma insert_transactions_succeed {HR : SledReliable} b its s :
  is_ok (transaction_ops b its) = true -> succeeds (st_for its (insert_block_transaction b)) s.
Proof.
  revert s. induction its as [|[i t] its IH]; intros s H; [run_steps|]. rewrite transaction_ops_cons in H.
  apply is_ok_true in H as (ops & (ops1 & H1 & (ops2 & H2 & _)%res_bind_ok)%res_bind_ok). cbn [st_for].
  apply succeeds_bind; [|intros; apply IH; by rewrite H2].
  unfold transaction_batch in H1. apply res_bind_ok in H1 as (v & Hv & H1).
  apply res_bind_ok in H1 as (r & Hr & (w & Hw & _)%res_bind_ok). unfold insert_block_transaction.
  apply succeeds_bind; [by eapply succeeds_res|]. intros v' s1 [Ev ->]%st_res_ok.
  apply succeeds_bind; [run_steps|]. intros u1 s1 _. apply succeeds_bind.
  { destruct (tx_external_hash t); [|run_steps]. apply succeeds_bind; [by eapply succeeds_res|]. intros. run_steps. }
  intros u2 s2 _. apply succeeds_bind; [by eapply succeeds_res|]. intros r' s3 [Er ->]%st_res_ok.
  rewrite Hr in Er. injection Er as <-.
  apply succeeds_bind; [by eapply succeeds_res|]. intros w' s4 _. run_steps.
Qed.

Lemma insert_block_succeeds {HR : SledReliable} b s : storable b -> succeeds (insert_block b) s.
Proof.
  intros (Hb & Hh & Ht). apply is_ok_true in Hb as [bv Hb], Hh as [hv Hh].
  unfold insert_block, index_block_logs, put_header.
  apply succeeds_bind; [by eapply succeeds_res|]. intros bv' s1 _.
  apply succeeds_bind; [run_steps|]. intros u1 s2 _.
  apply succeeds_bind; [by apply insert_transactions_succeed|]. intros u2 s3 _.
  apply succeeds_bind; [apply succeeds_for; intros; run_steps|]. intros u3 s4 _.
  apply succeeds_bind; [|intros; run_steps].
  apply succeeds_bind; [by eapply succeeds_res|]. intros. run_steps.
Qed.

(** The inserts of a batch are those of the direct insertion. *)
Lemma insert_block_batch_ops batch b :
  insert_block_into_batch batch b =
  (let? bv := json_vec b in let? hv := json_vec (blk_header b) in
   let? ops := transaction_ops b (enumerate (blk_transactions b)) in
   Ok (batch ++ [BatchInsert (block_key (hdr_number (blk_header b))) bv;
                 BatchInsert (header_key (hdr_number (blk_header b))) hv] ++ ops ++
       map (fun kv => BatchInsert kv.1 kv.2) (block_log_rows b))).
Proof.
  unfold insert_block_into_batch. destruct (json_vec b) as [bv|e|]; [|done|done]. cbn [res_bind].
  destruct (json_vec (blk_header b)) as [hv|e|]; [|done|done]. cbn [res_bind]. rewrite transaction_ops_from.
  destruct (transaction_ops _ _); [|done|done]. cbn [res_bind]. by rewrite <- !app_assoc.
Qed.
End insertion.

(** ** The families of rows *)

Lemma lookup_insert_family (p q k0 v k : list byte) (m : Contents) :
  has_prefix p q = false -> has_prefix q p = false -> has_prefix p k0 = true -> has_prefix q k = true ->
  (<[k0 := v]> m : Contents) !! k = m !! k.
Proof. intros. apply lookup_insert_ne. by apply (families_ne p q). Qed.

(** An insertion below [p] is not seen below [q]. *)
Ltac other_family p q := rewrite (lookup_insert_family p q); [|reflexivity|reflexivity|apply prefix_app|assumption].

Section families.
Context {S : Sled} {HX : HexCodec} {D : Digests}.
Context {JB : Json Block} {JH : Json BlockHeader} {JT : Json Transaction} {JR : Json StoredReceipt}.

Lemma block_log_rows_elem b k v :
  (k, v) ∈ block_log_rows b <->
  exists i rc j log, blk_receipts b !! i = Some rc /\ rc_logs rc !! j = Some log /\
    (k, v) ∈ log_rows (hdr_number (blk_header b)) i j log.
Proof.
  unfold block_log_rows, enumerate. rewrite list_elem_of_In, in_concat. split.
  - intros (l1 & H1 & H2). apply in_map_iff in H1 as ([i rc] & <- & Hi).
    apply list_elem_of_In, elem_of_lookup_imap in Hi as (i' & rc' & [= -> ->] & Hi).
    apply in_concat in H2 as (l2 & H2 & H3). apply in_map_iff in H2 as ([j log] & <- & Hj).
    apply list_elem_of_In, elem_of_lookup_imap in Hj as (j' & log' & [= -> ->] & Hj).
    exists i', rc', j', log'. do 2 (split; [done|]). by apply list_elem_of_In.
  - intros (i & rc & j & log & Hi & Hj & Hin). eexists. split.
    + apply in_map_iff. exists (i, rc). split; [reflexivity|].
      apply list_elem_of_In, elem_of_lookup_imap. eauto.
    + apply in_concat. eexists. split; [|by apply list_elem_of_In].
      apply in_map_iff. exists (j, log). split; [done|]. apply list_elem_of_In, elem_of_lookup_imap. eauto.
Qed.

Lemma log_rows_elem n i j log k v :
  (k, v) ∈ log_rows n i j log <->
  v = log_index_bytes n i j /\
  (k = log_location_key v \/ k = log_address_key (log_address log) v \/
   exists topic, topic ∈ log_topics log /\ k = log_topic_key topic v).
Proof.
  unfold log_rows. rewrite !elem_of_cons, list_elem_of_In, in_map_iff. split.
  - intros [[= -> ->]|[[= -> ->]|(topic & [= <- <-] & Ht)]]; split; auto.
    right. right. exists topic. split; [by apply list_elem_of_In|done].
  - intros [-> [->|[->|(topic & Ht & ->)]]]; auto. right. right. exists topic.
    split; [done|by apply list_elem_of_In].
Qed.

Lemma length_log_index_bytes n i j : length (log_index_bytes n i j) = 16%nat.
Proof. unfold log_index_bytes. by rewrite !length_app, !length_be_bytes. Qed.

(** Every log row ends in its location, in hexadecimal. *)
Lemma log_rows_tail b k v :
  (k, v) ∈ block_log_rows b -> length v = 16%nat /\ (exists p, k = p ++ hex_encode v) /\
    has_prefix (B "log:index:") k = true.
Proof.
  intros (i & rc & j & log & _ & _ & Hin)%block_log_rows_elem.
  apply log_rows_elem in Hin as [-> Hk]. split; [apply length_log_index_bytes|].
  assert (forall p r, has_prefix (B "log:index:") (B "log:index:" ++ p ++ r) = true) as Hp.
  { intros. apply prefix_app. }
  destruct Hk as [->|[->|(topic & _ & ->)]]; (split; [by eexists|]).
  - apply (Hp (B "location:")).
  - unfold log_address_key, log_address_prefix. rewrite <- !app_assoc. apply (Hp (B "address:")).
  - unfold log_topic_key, log_topic_prefix. rewrite <- !app_assoc. apply (Hp (B "topic:")).
Qed.

Lemma hex_encode_inj x y : hex_encode x = hex_encode y -> x = y.
Proof. intros E. apply (f_equal hex_decode) in E. rewrite !hex_decode_encode in E. congruence. Qed.

Lemma log_rows_functional b b' k v v' :
  (k, v) ∈ block_log_rows b -> (k, v') ∈ block_log_rows b' -> v = v'.
Proof.
  intros (Hl & (p & ->) & _)%log_rows_tail (Hl' & (p' & E) & _)%log_rows_tail.
  apply app_inj_2 in E as [_ E]; [by apply hex_encode_inj|]. rewrite !length_hex_encode. lia.
Qed.

Lemma log_ops_below b :
  Forall (op_below [B "log:index:"]) (map (fun kv => BatchInsert kv.1 kv.2) (block_log_rows b)).
Proof.
  apply List.Forall_forall. intros op Hop. apply in_map_iff in Hop as ([k v] & <- & Hin).
  apply list_elem_of_In in Hin. left. by destruct (log_rows_tail _ _ _ Hin) as (_ & _ & ?).
Qed.

Lemma insert_lookup_agree (m m' : Contents) k0 v k :
  m !! k = m' !! k -> (<[k0 := v]> m : Contents) !! k = <[k0 := v]> m' !! k.
Proof.
  intros H. destruct (decide (k0 = k)) as [->|Hne]; [by rewrite !lookup_insert_eq|by rewrite !lookup_insert_ne].
Qed.

Lemma fold_insert_agree (rows : list (list byte * list byte)) (m m' : Contents) k :
  m !! k = m' !! k ->
  fold_left (fun m kv => <[kv.1 := kv.2]> m) rows m !! k = fold_left (fun m kv => <[kv.1 := kv.2]> m) rows m' !! k.
Proof. revert m m'. induction rows as [|kv rows IH]; intros m m' H; [done|]. cbn. by apply IH, insert_lookup_agree. Qed.

(** The rows of the transactions and the logs leave the other families alone. *)
Lemma body_ops_family (b : Block) (its : list (nat * Transaction)) (ops : list BatchOp) (q k : list byte) (m : Contents) :
  transaction_ops b its = Ok ops ->
  Forall (fun p => has_prefix p q = false /\ has_prefix q p = false) (B "log:index:" :: TX_PREFIXES) ->
  has_prefix q k = true ->
  apply_ops (apply_ops m ops) (map (fun kv => BatchInsert kv.1 kv.2) (block_log_rows b)) !! k = m !! k.
Proof.
  intros Hops%transaction_ops_below Hq Hk. rewrite <- apply_ops_app.
  apply (ops_below_other (B "log:index:" :: TX_PREFIXES) _ _ q); [|done|done].
  apply Forall_app. split; (eapply Forall_impl; [first [exact Hops|apply log_ops_below]|]); intros op Hop.
  - by right.
  - apply List.Exists_cons in Hop as [Hop|Hop%List.Exists_nil]; [by left|done].
Qed.


(** The rows after a block was written, but for the best height. *)
Definition block_written (m : Contents) (b : Block) (bv hv : list byte) (ops : list BatchOp) : Contents :=
  <[header_key (hdr_number (blk_header b)) := hv]>
    (apply_ops (apply_ops (<[block_key (hdr_number (blk_header b)) := bv]> m) ops)
      (map (fun kv => BatchInsert kv.1 kv.2) (block_log_rows b))).

Definition BLOCK_PREFIXES : list (list byte) :=
  B "block:number:" :: B "header:number:" :: B "log:index:" :: TX_PREFIXES.

Lemma block_written_families m b bv hv its ops :
  transaction_ops b its = Ok ops ->
  (forall k, has_prefix (B "block:number:") k = true ->
     block_written m b bv hv ops !! k = <[block_key (hdr_number (blk_header b)) := bv]> m !! k) /\
  (forall k, has_prefix (B "header:number:") k = true ->
     block_written m b bv hv ops !! k = <[header_key (hdr_number (blk_header b)) := hv]> m !! k) /\
  (forall k, has_prefix (B "log:index:") k = true ->
     block_written m b bv hv ops !! k = fold_left (fun m kv => <[kv.1 := kv.2]> m) (block_log_rows b) m !! k) /\
  (forall q k, Forall (fun p => has_prefix p q = false /\ has_prefix q p = false) BLOCK_PREFIXES ->
     has_prefix q k = true -> block_written m b bv hv ops !! k = m !! k).
Proof.
  intros Hops. unfold block_written. split; [|split; [|split]].
  - intros k Hk. other_family (B "header:number:") (B "block:number:").
    by rewrite (body_ops_family _ _ _ (B "block:number:") _ _ Hops) by (done || by repeat constructor).
  - intros k Hk. apply insert_lookup_agree.
    rewrite (body_ops_family _ _ _ (B "header:number:") _ _ Hops) by (done || by repeat constructor).
    by other_family (B "block:number:") (B "header:number:").
  - intros k Hk. other_family (B "header:number:") (B "log:index:").
    rewrite apply_ops_inserts. apply fold_insert_agree.
    rewrite (ops_below_other TX_PREFIXES _ _ (B "log:index:"));
      [|by eapply transaction_ops_below|by repeat constructor|done].
    by other_family (B "block:number:") (B "log:index:").
  - intros q k Hq Hk. apply List.Forall_cons_iff in Hq as [[H1 H2] Hq]. apply List.Forall_cons_iff in Hq as [[H3 H4] Hq].
    rewrite (lookup_insert_family (B "header:number:") q); [|done|done|apply prefix_app|done].
    rewrite (body_ops_family _ _ _ q _ _ Hops) by done.
    by rewrite (lookup_insert_family (B "block:number:") q); [|done|done|apply prefix_app|done].
Qed.

(** What the insertion of a block writes. *)
Lemma insert_block_written b s u s' :
  insert_block b s = (Ok u, s') ->
  exists bv hv ops, to_vec b = Ok bv /\ to_vec (blk_header b) = Ok hv /\
    transaction_ops b (enumerate (blk_transactions b)) = Ok ops /\
    contents s' = <[B "best:number" := be_bytes 8 (hdr_number (blk_header b))]>
      (block_written (contents s) b bv hv ops).
Proof.
  intros (bv & hv & ops & Hb & Hh & Hops & Hs)%insert_block_ok. apply map_err_ok in Hb, Hh. by exists bv, hv, ops.
Qed.
End families.

(** ** A block inserted directly and through a batch *)

Lemma apply_ops_insert_comm (m : Contents) (ops : list BatchOp) (k v : list byte) :
  Forall (fun op => batch_key op <> k) ops -> apply_ops (<[k := v]> m) ops = <[k := v]> (apply_ops m ops).
Proof.
  intros H. unfold apply_ops. revert m. induction H as [|op ops Hop _ IH]; intros m; [done|]. cbn [fold_left].
  rewrite <- IH. f_equal. destruct op; cbn in *; [by apply insert_insert_ne|by apply delete_insert_ne].
Qed.

Section batch.
Context {S : Sled} {HX : HexCodec} {D : Digests}.
Context {JB : Json Block} {JH : Json BlockHeader} {JT : Json Transaction} {JR : Json StoredReceipt}.

Lemma body_ops_ne b its ops p (k : list byte) :
  transaction_ops b its = Ok ops ->
  Forall (fun q => has_prefix q p = false /\ has_prefix p q = false) (B "log:index:" :: TX_PREFIXES) ->
  has_prefix p k = true ->
  Forall (fun op => batch_key op <> k) (ops ++ map (fun kv => BatchInsert kv.1 kv.2) (block_log_rows b)).
Proof.
  intros Hops%transaction_ops_below Hp Hk. apply List.Forall_cons_iff in Hp as [[H1 H2] Hp].
  apply Forall_app. split.
  - eapply Forall_impl; [exact Hops|]. intros op Hop. unfold op_below in Hop.
    apply List.Exists_exists in Hop as (q & Hq & Hop). rewrite List.Forall_forall in Hp.
    destruct (Hp q Hq) as [H3 H4]. exact (families_ne q p _ _ H3 H4 Hop Hk).
  - eapply Forall_impl; [apply log_ops_below|]. intros op Hop.
    apply List.Exists_cons in Hop as [Hop|Hop%List.Exists_nil]; [|done].
    exact (families_ne _ p _ _ H1 H2 Hop Hk).
Qed.

(** The two copies of the insertion agree.  Inserting a block row by row
    and applying the batch built for it leave the same rows, but for the best
    height, which only the direct insertion sets; and on a store without I/O
    failures the one succeeds exactly when the other can be built. *)
Theorem insert_block_batch_equiv batch b s :
  (forall u s', insert_block b s = (Ok u, s') ->
    exists ops, insert_block_into_batch batch b = Ok (batch ++ ops) /\
      forall s2, db_apply_batch ops s = (Ok tt, s2) ->
        contents s' = <[B "best:number" := be_bytes 8 (hdr_number (blk_header b))]> (contents s2)) /\
  (SledReliable -> is_ok (insert_block b s).1 = is_ok (insert_block_into_batch batch b)).
Proof.
  split.
  - intros u s' (bv & hv & ops & Hb & Hh & Hops & ->)%insert_block_ok.
    rewrite insert_block_batch_ops, Hb, Hh, Hops. cbn [res_bind]. eexists. split; [done|].
    intros s2 H2. apply db_apply_batch_ok in H2 as ->. rewrite <- apply_ops_app. f_equal.
    set (rows := ops ++ _). symmetry.
    change (apply_ops (<[header_key (hdr_number (blk_header b)) := hv]>
      (<[block_key (hdr_number (blk_header b)) := bv]> (contents s))) rows = <[header_key (hdr_number (blk_header b)) := hv]>
      (apply_ops (<[block_key (hdr_number (blk_header b)) := bv]> (contents s)) rows)).
    apply apply_ops_insert_comm. eapply (body_ops_ne _ _ _ (B "header:number:")); [done| |apply prefix_app].
    by repeat constructor.
  - intros HR. destruct (is_ok (insert_block_into_batch batch b)) eqn:E.
    + apply is_ok_true in E as [ops E]. rewrite insert_block_batch_ops in E.
      apply res_bind_ok in E as (bv & Hb & (hv & Hh & (ops' & Hops & _)%res_bind_ok)%res_bind_ok).
      destruct (insert_block_succeeds b s) as (u & s' & ->); [|done]. unfold storable. by rewrite Hb, Hh, Hops.
    + destruct (insert_block b s) as [r s'] eqn:E'. destruct r as [u|e|]; [|done..].
      apply insert_block_ok in E' as (bv & hv & ops & Hb & Hh & Hops & _).
      rewrite insert_block_batch_ops, Hb, Hh, Hops in E. done.
Qed.
End batch.

(** ** The chain a store represents *)

Section chain.
Context {S : Sled} {HX : HexCodec} {D : Digests}.
Context {JB : Json Block} {JH : Json BlockHeader} {JT : Json Transaction} {JR : Json StoredReceipt}.

Definition block_number (b : Block) : Z := hdr_number (blk_header b).

(** The blocks, the headers and the log rows of a chain. *)
Record chain_rows (m : Contents) (c : list Block) : Prop := {
  cr_numbers : numbered_from block_number 0 c;
  cr_fits : list_fits c;
  cr_blocks : numbered_rep (B "block:number:") m c;
  cr_headers : numbered_rep (B "header:number:") m (map blk_header c);
  cr_logs : forall k v, has_prefix (B "log:index:") k = true ->
    m !! k = Some v <-> exists b, b ∈ c /\ (k, v) ∈ block_log_rows b;
}.

Record chain_rep (m : Contents) (c : list Block) : Prop := {
  cr_rows :> chain_rows m c;
  cr_best : m !! B "best:number" = (fun b => be_bytes 8 (block_number b)) <$> last c;
}.

Lemma chain_rep_nil (m : Contents) :
  (forall p k, p ∈ [B "block:number:"; B "header:number:"; B "log:index:"] -> has_prefix p k = true -> m !! k = None) ->
  m !! B "best:number" = None -> chain_rep m [].
Proof.
  intros H Hb. split; [split; try done|done].
  - split; [done|]. intros k Hp [v Hv]. rewrite (H (B "block:number:")) in Hv; [done|set_solver|done].
  - split; [done|]. intros k Hp [v Hv]. rewrite (H (B "header:number:")) in Hv; [done|set_solver|done].
  - intros k v Hk. rewrite (H (B "log:index:")); [|set_solver|done]. split; [done|]. intros (b & Hb' & _).
    by apply not_elem_of_nil in Hb'.
Qed.

Lemma chain_rep_empty (m : Contents) :
  (forall p k, p ∈ [B "block:number:"; B "header:number:"; B "log:index:"; B "best:number"] ->
    has_prefix p k = true -> m !! k = None) ->
  chain_rep m [].
Proof.
  intros H. apply chain_rep_nil; [intros p k Hp; apply H; set_solver|]. apply (H (B "best:number")); [set_solver|reflexivity].
Qed.

Lemma block_numbers_lookup c i b : numbered_from block_number 0 c -> c !! i = Some b -> block_number b = Z.of_nat i.
Proof. intros H Hb. rewrite (H _ _ Hb). lia. Qed.

Lemma headers_numbered c : numbered_from block_number 0 c -> numbered_from hdr_number 0 (map blk_header c).
Proof. intros H i h Hh. apply list_lookup_fmap_Some in Hh as (b & -> & Hb). by apply H. Qed.

Lemma chain_rows_snoc m c b bv hv its ops :
  chain_rows m c -> block_number b = Z.of_nat (length c) -> list_fits (c ++ [b]) ->
  to_vec b = Ok bv -> to_vec (blk_header b) = Ok hv -> transaction_ops b its = Ok ops ->
  chain_rows (block_written m b bv hv ops) (c ++ [b]).
Proof.
  intros [Hn Hf Hb Hh Hlog] Hnum Hfit Eb Eh Hops.
  destruct (block_written_families m b bv hv its ops Hops) as (Fb & Fh & Fl & _).
  fold (block_number b) in *. rewrite Hnum in *. split.
  - intros i x Hx. apply lookup_snoc_Some in Hx as [[Hlt Hx]|[-> <-]]; [by apply Hn|lia].
  - done.
  - eapply numbered_rep_other; [by apply (numbered_rep_snoc _ _ _ _ bv Hb)|exact Fb].
  - rewrite map_app. eapply numbered_rep_other; [|exact Fh].
    rewrite <- (length_map blk_header c). apply (numbered_rep_snoc _ _ _ _ hv Hh); [|done].
    revert Hfit. unfold list_fits. by rewrite !length_app, length_map.
  - intros k v Hk. rewrite (Fl k Hk). clear Fb Fh Fl.
    destruct (fold_insert_lookup (block_log_rows b) m k) as [F1 F2].
    { intros v1 v2. apply log_rows_functional. }
    assert (forall x, x ∈ c ++ [b] <-> x ∈ c \/ x = b) as Hin.
    { intros x. by rewrite elem_of_app, list_elem_of_singleton. }
    destruct (decide (Exists (fun kv => kv.1 = k) (block_log_rows b))) as [Hex|Hno].
    + apply List.Exists_exists in Hex as ([k' w] & Hw & E). cbn in E. subst k'. apply list_elem_of_In in Hw.
      rewrite (F1 w Hw). split.
      * intros [= <-]. exists b. rewrite Hin. auto.
      * intros (b' & _ & Hv). f_equal. by eapply log_rows_functional.
    + rewrite F2.
      * rewrite (Hlog k v Hk). split; intros (x & Hx & Hv); exists x; rewrite Hin in *; [by auto|].
        destruct Hx as [Hx| ->]; [done|]. destruct Hno. apply List.Exists_exists. exists (k, v).
        split; [by apply list_elem_of_In|done].
      * intros w Hw. apply Hno, List.Exists_exists. exists (k, w). split; [by apply list_elem_of_In|done].
Qed.

Lemma chain_rows_other m c m' :
  chain_rows m c ->
  (forall p k, p ∈ [B "block:number:"; B "header:number:"; B "log:index:"] -> has_prefix p k = true -> m' !! k = m !! k) ->
  chain_rows m' c.
Proof.
  intros [Hn Hf Hb Hh Hlog] H. split; [done|done|..].
  - eapply numbered_rep_other; [done|]. intros k Hk. apply (H (B "block:number:")); [set_solver|done].
  - eapply numbered_rep_other; [done|]. intros k Hk. apply (H (B "header:number:")); [set_solver|done].
  - intros k v Hk. rewrite (H (B "log:index:")) by (done || set_solver). by apply Hlog.
Qed.

Lemma chain_rep_snoc s c b u s' :
  chain_rep (contents s) c -> block_number b = Z.of_nat (length c) -> list_fits (c ++ [b]) ->
  insert_block b s = (Ok u, s') -> chain_rep (contents s') (c ++ [b]).
Proof.
  intros Hc Hnum Hfit (bv & hv & ops & Eb & Eh & Hops & ->)%insert_block_written. split.
  - eapply chain_rows_other; [by eapply chain_rows_snoc; [apply Hc|..]|]. intros p k Hp Hk.
    rewrite !elem_of_cons in Hp. rewrite <- (app_nil_r (B "best:number")).
    destruct Hp as [->|[->|[->|[]%not_elem_of_nil]]].
    + by other_family (B "best:number") (B "block:number:").
    + by other_family (B "best:number") (B "header:number:").
    + by other_family (B "best:number") (B "log:index:").
  - by rewrite lookup_insert_eq, last_snoc.
Qed.

(** *** Reading the represented chain *)

Context {HR : SledReadable}.

Lemma read_collect {A} {J : Json A} s p (f : A -> bool) xs :
  Forall2 (fun kv a => json_slice kv.2 = Ok a) (prefix_entries p (contents s)) xs ->
  read_rows s p (fun l kv => let? a := json_slice kv.2 in Ok (if f a then l ++ [a] else l)) [] =
    Ok (List.filter f xs).
Proof.
  intros H. rewrite read_rows_reliable.
  apply (fold_decode (fun kv => json_slice kv.2) (fun l a => if f a then l ++ [a] else l)).
  exists xs. split; [done|]. clear H.
  assert (forall l, fold_left (fun l a => if f a then l ++ [a] else l) xs l = l ++ List.filter f xs) as H; [|by rewrite H].
  induction xs as [|x xs IH]; intros l; cbn; [by rewrite app_nil_r|]. rewrite IH. destruct (f x); [|done].
  by rewrite <- app_assoc.
Qed.

Lemma canonical_blocks_rep s c : chain_rep (contents s) c -> canonical_blocks s = Ok c.
Proof.
  intros Hc. destruct (numbered_rows _ _ _ block_number (cr_blocks _ _ Hc)) as (xs & Hxs & Hp);
    [apply Hc|apply Hc|]. unfold canonical_blocks.
  rewrite (read_collect s (B "block:number:") (fun _ => true) xs Hxs). cbn [res_bind]. f_equal.
  apply (sort_numbered _ 0); [apply Hc|]. rewrite <- Hp. clear. by induction xs as [|x xs IH]; cbn; [|rewrite IH].
Qed.

Lemma header_by_number_rep s c n :
  chain_rep (contents s) c -> in_u64 n ->
  header_by_number s n = ok_or (blk_header <$> c !! Z.to_nat n) NotFound /\
  block_by_number s n = ok_or (c !! Z.to_nat n) NotFound.
Proof.
  intros Hc Hn. unfold header_by_number, block_by_number. rewrite !db_get_reliable. cbn [res_bind].
  unfold header_key, block_key. rewrite <- (Z2Nat.id n) by apply Hn. set (i := Z.to_nat n) in *.
  rewrite Nat2Z.id. destruct (c !! i) as [b|] eqn:E.
  - destruct (nr_value _ _ _ (cr_blocks _ _ Hc) _ _ E) as (v & -> & Hv).
    assert (map blk_header c !! i = Some (blk_header b)) as Eh by (apply list_lookup_fmap_Some; eauto).
    destruct (nr_value _ _ _ (cr_headers _ _ Hc) _ _ Eh) as (w & -> & Hw). cbn.
    unfold json_slice. by rewrite (json_roundtrip _ _ Hv), (json_roundtrip _ _ Hw).
  - apply lookup_ge_None in E. assert (in_u64 (Z.of_nat i)) as Hi by (unfold i; by rewrite Z2Nat.id by apply Hn).
    assert (forall p A (J : Json A) (l : list A), length l = length c -> numbered_rep p (contents s) l ->
      contents s !! (p ++ pad20 (Z.of_nat i)) = None) as Hnone.
    { intros p A J l Hl [_ Hk]. destruct (contents s !! _) as [v|] eqn:Ev; [|done].
      destruct (Hk (p ++ pad20 (Z.of_nat i))) as (j & Hj & Ej); [apply prefix_app|by eexists|].
      apply numbered_key_inj in Ej; [lia|done|]. eapply (index_u64 c); [apply Hc|lia]. }
    rewrite (Hnone _ _ _ _ (length_map _ _) (cr_headers _ _ Hc)), (Hnone _ _ _ _ eq_refl (cr_blocks _ _ Hc)). done.
Qed.

Lemma get_best_rep s c b :
  chain_rep (contents s) c -> last c = Some b -> get_best_number s = Ok (block_number b) /\ in_u64 (block_number b).
Proof.
  intros Hc Hb. unfold get_best_number. rewrite db_get_reliable, (cr_best _ _ Hc), Hb. cbn.
  assert (in_u64 (block_number b)) as Hn.
  { apply last_Some in Hb as [l ->]. rewrite (cr_numbers _ _ Hc (length l) b) by (by apply lookup_snoc_Some; right).
    apply (index_u64 (l ++ [b])); [apply Hc|]. rewrite length_app. cbn. lia. }
  split; [|done]. by rewrite u64_slice.
Qed.

Lemma best_header_rep s c :
  chain_rep (contents s) c -> best_header s = ok_or (blk_header <$> last c) NotFound.
Proof.
  intros Hc. unfold best_header. destruct (last c) as [b|] eqn:Hb.
  - destruct (get_best_rep s c b Hc Hb) as [-> Hn]. cbn [res_bind].
    rewrite (proj1 (header_by_number_rep s c _ Hc Hn)). do 2 f_equal.
    apply last_Some in Hb as [l ->]. rewrite (cr_numbers _ _ Hc (length l) b) by (by apply lookup_snoc_Some; right).
    apply lookup_snoc_Some. right. split; [lia|done].
  - unfold get_best_number. rewrite db_get_reliable, (cr_best _ _ Hc), Hb. done.
Qed.

Lemma headers_after_rep s c n limit :
  chain_rep (contents s) c -> 0 <= n ->
  headers_after s n limit = Ok (take limit (drop (Z.to_nat (n + 1)) (map blk_header c))).
Proof.
  intros Hc Hn. pose proof (headers_numbered c (cr_numbers _ _ Hc)) as Hnum.
  destruct (numbered_rows _ _ _ hdr_number (cr_headers _ _ Hc)) as (xs & Hxs & Hp); [|done|].
  { pose proof (cr_fits _ _ Hc) as Hf. unfold list_fits in *. by rewrite length_map. }
  unfold headers_after. rewrite (read_collect s (B "header:number:") (fun h => n <? hdr_number h) xs Hxs).
  cbn [res_bind]. do 2 f_equal. replace (n + 1) with (n + 1 - 0) by lia.
  rewrite <- (filter_numbered hdr_number 0) by (done || lia).
  apply (sort_numbered _ (Z.of_nat (Z.to_nat (n + 1)))); [|by rewrite Hp].
  rewrite (filter_numbered hdr_number 0) by (done || lia). rewrite Z.sub_0_r.
  apply (numbered_from_drop _ 0 _ _ Hnum).
Qed.

(** *** The log index *)

Definition wf_logs (b : Block) : Prop :=
  Forall (fun rc => Forall (fun log => wf_address (log_address log) /\ Forall wf_hash (log_topics log))
    (rc_logs rc)) (blk_receipts b).

(** What a query asks of a log: one of the addresses, else one of the topics. *)
Definition log_matches (addresses : option (list Address)) (topics : option (list Hash256)) (log : LogEntry) : Prop :=
  match addresses, topics with
  | Some addresses, _ => log_address log ∈ addresses
  | None, Some topics => exists topic, topic ∈ topics /\ topic ∈ log_topics log
  | None, None => True
  end.

Definition has_log (b : Block) (P : LogEntry -> Prop) : Prop :=
  exists rc log, rc ∈ blk_receipts b /\ log ∈ rc_logs rc /\ P log.

(** The blocks that have a row below a prefix of the index. *)
Definition rows_below (p : list byte) (b : Block) : Prop :=
  exists k v, (k, v) ∈ block_log_rows b /\ has_prefix p k = true.

Lemma location_number_ok n i j : in_u64 n -> location_number (log_index_bytes n i j) = Ok n.
Proof.
  intros Hn. unfold location_number. rewrite length_log_index_bytes. cbn [Z.of_nat Z.eqb].
  unfold log_index_bytes. rewrite take_app_le, take_ge by (rewrite length_be_bytes; lia).
  by rewrite be_val_u64.
Qed.

Lemma block_number_u64 c b : numbered_from block_number 0 c -> list_fits c -> b ∈ c -> in_u64 (block_number b).
Proof.
  intros Hn Hf [i Hi]%list_elem_of_lookup. rewrite (Hn _ _ Hi). apply lookup_lt_Some in Hi.
  unfold list_fits, in_u64 in *. lia.
Qed.

Lemma collect_fold (rows : list (list byte * list byte)) (from to : Z) (numbers : gset Z) :
  Forall (fun kv => exists n, location_number kv.2 = Ok n) rows ->
  exists res, fold_left (fun acc kv => let? numbers := acc in let? number := location_number kv.2 in
      Ok (if (from <=? number) && (number <=? to) then {[number]} ∪ numbers else numbers))
      rows (Ok numbers) = Ok res /\
    forall n, n ∈ res <-> n ∈ numbers \/ from <= n <= to /\
      exists kv, kv ∈ rows /\ location_number kv.2 = Ok n.
Proof.
  intros H. revert numbers. induction H as [|kv rows [n0 Hn0] _ IH]; intros numbers.
  - exists numbers. split; [done|]. intros n. split; [auto|]. by intros [?|(_ & kv & ?%not_elem_of_nil & _)].
  - cbn [fold_left res_bind]. rewrite Hn0. cbn [res_bind].
    destruct (IH (if (from <=? n0) && (n0 <=? to) then {[n0]} ∪ numbers else numbers)) as (res & Hres & Hin).
    exists res. split; [done|]. intros n. rewrite Hin.
    assert (n ∈ (if (from <=? n0) && (n0 <=? to) then {[n0]} ∪ numbers else numbers) <->
      n ∈ numbers \/ from <= n <= to /\ n = n0) as ->.
    { destruct (Z.leb_spec from n0), (Z.leb_spec n0 to); cbn; rewrite ?elem_of_union, ?elem_of_singleton; intuition lia. }
    setoid_rewrite elem_of_cons. split.
    + intros [[?|[? ->]]|(? & x & ? & ?)]; [by left|right; split; [done|eauto]..].
    + intros [?|(? & x & [->|?] & E)]; [auto| |right; eauto]. left. right. split; [done|congruence].
Qed.

Lemma collect_rep s c q r from to numbers :
  chain_rep (contents s) c -> q = B "log:index:" ++ r ->
  exists res, collect_indexed_log_numbers s q from to numbers = Ok res /\
    forall n, n ∈ res <-> n ∈ numbers \/
      from <= n <= to /\ exists b, b ∈ c /\ block_number b = n /\ rows_below q b.
Proof.
  intros Hc ->. set (q := B "log:index:" ++ r). unfold collect_indexed_log_numbers. rewrite read_rows_reliable.
  assert (forall k v, (k, v) ∈ prefix_entries q (contents s) <->
    exists b, b ∈ c /\ (k, v) ∈ block_log_rows b /\ has_prefix q k = true) as Hrows.
  { intros k v. rewrite elem_of_prefix_entries. split.
    - intros [Hv Hq]. assert (has_prefix (B "log:index:") k = true) as Hk.
      { apply has_prefix_true in Hq as [r' ->]. unfold q. rewrite <- app_assoc. apply prefix_app. }
      apply (cr_logs _ _ Hc _ _ Hk) in Hv as (b & Hb & Hin). eauto.
    - intros (b & Hb & Hin & Hq). split; [|done]. apply (cr_logs _ _ Hc); [|eauto].
      by destruct (log_rows_tail _ _ _ Hin) as (_ & _ & ?). }
  assert (forall k v b, b ∈ c -> (k, v) ∈ block_log_rows b -> location_number v = Ok (block_number b)) as Hloc.
  { intros k v b Hb (i & rc & j & log & _ & _ & Hin)%block_log_rows_elem. apply log_rows_elem in Hin as [-> _].
    apply location_number_ok. by eapply block_number_u64; [apply Hc..|]. }
  destruct (collect_fold (prefix_entries q (contents s)) from to numbers) as (res & Hres & Hin).
  { apply List.Forall_forall. intros [k v] Hkv. apply list_elem_of_In, Hrows in Hkv as (b & Hb & Hkv & _). eauto. }
  exists res. split; [done|]. intros n. rewrite Hin. apply or_iff_compat_l, and_iff_compat_l. split.
  - intros ([k v] & (b & Hb & Hkv & Hq)%Hrows & Hn). exists b. cbn [snd] in Hn. rewrite (Hloc _ _ _ Hb Hkv) in Hn.
    injection Hn as <-. split; [done|]. split; [done|]. by exists k, v.
  - intros (b & Hb & <- & k & v & Hkv & Hq). exists (k, v). split; [apply Hrows; eauto|by eapply Hloc].
Qed.

(** A key of one kind of index is not below the prefix of another. *)
Lemma kind_false (p q r k : list byte) :
  has_prefix p q = false -> has_prefix q p = false -> has_prefix q k = true -> has_prefix (p ++ r) k = false.
Proof.
  intros Hpq Hqp Hk. destruct (has_prefix (p ++ r) k) eqn:E; [|done]. apply has_prefix_true in E as [r' ->].
  destruct (families_ne p q ((p ++ r) ++ r') ((p ++ r) ++ r') Hpq Hqp); [|done|done].
  rewrite <- app_assoc. apply prefix_app.
Qed.

Lemma same_length_prefix (p x x' e r : list byte) :
  length x = length x' -> has_prefix (p ++ x ++ e) (p ++ x' ++ e ++ r) = true <-> x = x'.
Proof.
  intros Hl. rewrite has_prefix_true. split; [|intros ->; exists r; by rewrite <- !app_assoc].
  intros [r' E]. rewrite <- !app_assoc in E. apply app_inv_head in E. by apply app_inj_1 in E as [-> _].
Qed.

Lemma location_below b : rows_below (B "log:index:location:") b <-> has_log b (fun _ => True).
Proof.
  split.
  - intros (k & v & (i & rc & j & log & Hi & Hj & _)%block_log_rows_elem & _).
    exists rc, log. split; [by eapply list_elem_of_lookup_2|]. split; [by eapply list_elem_of_lookup_2|done].
  - intros (rc & log & [i Hi]%list_elem_of_lookup & [j Hj]%list_elem_of_lookup & _).
    exists (log_location_key (log_index_bytes (block_number b) i j)), (log_index_bytes (block_number b) i j).
    split; [|apply prefix_app]. apply block_log_rows_elem. exists i, rc, j, log. do 2 (split; [done|]).
    apply log_rows_elem. auto.
Qed.

Lemma address_below b a :
  wf_logs b -> wf_address a ->
  rows_below (log_address_prefix a) b <-> has_log b (fun log => log_address log = a).
Proof.
  intros Hwf Ha. unfold wf_logs in Hwf. rewrite List.Forall_forall in Hwf.
  assert (forall rc log v, rc ∈ blk_receipts b -> log ∈ rc_logs rc ->
    has_prefix (log_address_prefix a) (log_address_key (log_address log) v) = true <-> a = log_address log) as Hkey.
  { intros rc log v Hrc Hlog. apply list_elem_of_In, Hwf in Hrc. rewrite List.Forall_forall in Hrc.
    apply list_elem_of_In, Hrc in Hlog as [Hlen _]. unfold log_address_key, log_address_prefix. rewrite <- !app_assoc.
    rewrite same_length_prefix by (rewrite !length_hex_encode; unfold wf_address in *; lia).
    split; [apply hex_encode_inj|by intros ->]. }
  split.
  - intros (k & v & (i & rc & j & log & Hi & Hj & Hin)%block_log_rows_elem & Hk).
    apply list_elem_of_lookup_2 in Hi, Hj. exists rc, log. do 2 (split; [done|]).
    apply log_rows_elem in Hin as [_ [->|[->|(topic & _ & ->)]]].
    + unfold log_address_prefix in Hk. by rewrite (kind_false _ (B "log:index:location:")) in Hk by (done || apply prefix_app).
    + by apply (Hkey rc) in Hk.
    + unfold log_address_prefix in Hk. rewrite (kind_false _ (B "log:index:topic:")) in Hk; [done..|].
      unfold log_topic_key, log_topic_prefix. rewrite <- !app_assoc. apply prefix_app.
  - intros (rc & log & Hrc & Hlog & <-). pose proof Hrc as [i Hi]%list_elem_of_lookup.
    pose proof Hlog as [j Hj]%list_elem_of_lookup.
    exists (log_address_key (log_address log) (log_index_bytes (block_number b) i j)), (log_index_bytes (block_number b) i j).
    split; [|by apply (Hkey rc)]. apply block_log_rows_elem. exists i, rc, j, log. do 2 (split; [done|]).
    apply log_rows_elem. auto.
Qed.

Lemma topic_below b topic :
  wf_logs b -> wf_hash topic ->
  rows_below (log_topic_prefix topic) b <-> has_log b (fun log => topic ∈ log_topics log).
Proof.
  intros Hwf Ht. unfold wf_logs in Hwf. rewrite List.Forall_forall in Hwf.
  assert (forall rc log t' v, rc ∈ blk_receipts b -> log ∈ rc_logs rc -> t' ∈ log_topics log ->
    has_prefix (log_topic_prefix topic) (log_topic_key t' v) = true <-> topic = t') as Hkey.
  { intros rc log t' v Hrc Hlog Ht'. apply list_elem_of_In, Hwf in Hrc. rewrite List.Forall_forall in Hrc.
    apply list_elem_of_In, Hrc in Hlog as [_ Hlen]. rewrite List.Forall_forall in Hlen.
    apply list_elem_of_In, Hlen in Ht'. unfold log_topic_key, log_topic_prefix, hash_to_hex. rewrite <- !app_assoc.
    rewrite same_length_prefix by (rewrite !length_hex_encode; unfold wf_hash in *; lia).
    split; [apply hex_encode_inj|by intros ->]. }
  split.
  - intros (k & v & (i & rc & j & log & Hi & Hj & Hin)%block_log_rows_elem & Hk).
    apply list_elem_of_lookup_2 in Hi, Hj. exists rc, log. do 2 (split; [done|]).
    apply log_rows_elem in Hin as [_ [->|[->|(t' & Ht' & ->)]]].
    + unfold log_topic_prefix in Hk. by rewrite (kind_false _ (B "log:index:location:")) in Hk by (done || apply prefix_app).
    + unfold log_topic_prefix in Hk. rewrite (kind_false _ (B "log:index:address:")) in Hk; [done..|].
      unfold log_address_key, log_address_prefix. rewrite <- !app_assoc. apply prefix_app.
    + by apply (Hkey rc log t') in Hk as ->.
  - intros (rc & log & Hrc & Hlog & Hin). pose proof Hrc as [i Hi]%list_elem_of_lookup.
    pose proof Hlog as [j Hj]%list_elem_of_lookup.
    exists (log_topic_key topic (log_index_bytes (block_number b) i j)), (log_index_bytes (block_number b) i j).
    split; [|by apply (Hkey rc log topic)]. apply block_log_rows_elem. exists i, rc, j, log. do 2 (split; [done|]).
    apply log_rows_elem. split; [done|]. right. right. eauto.
Qed.

Definition wf_filter (addresses : option (list Address)) (topics : option (list Hash256)) : Prop :=
  Forall wf_address (default [] addresses) /\ Forall wf_hash (default [] topics).

(** Collecting below several prefixes adds up. *)
Lemma collect_all {A} s c (prefix : A -> list byte) (l : list A) from to numbers :
  chain_rep (contents s) c -> (forall a, a ∈ l -> exists r, prefix a = B "log:index:" ++ r) ->
  exists res,
    fold_left (fun acc a => let? numbers := acc in collect_indexed_log_numbers s (prefix a) from to numbers) l
      (Ok numbers) = Ok res /\
    forall n, n ∈ res <-> n ∈ numbers \/
      from <= n <= to /\ exists b, b ∈ c /\ block_number b = n /\ exists a, a ∈ l /\ rows_below (prefix a) b.
Proof.
  intros Hc. revert numbers. induction l as [|a l IH]; intros numbers Hp.
  - exists numbers. split; [done|]. intros n. split; [auto|].
    intros [?|(_ & b & _ & _ & a & ?%not_elem_of_nil & _)]; done.
  - destruct (Hp a) as [r Hr]; [by left|].
    destruct (collect_rep s c (prefix a) r from to numbers Hc Hr) as (res1 & H1 & Hin1).
    destruct (IH res1) as (res & H & Hin); [intros; apply Hp; by right|]. exists res.
    cbn [fold_left res_bind]. rewrite H1. split; [done|]. intros n. rewrite Hin, Hin1.
    setoid_rewrite elem_of_cons. split.
    + intros [[?|(? & b & ? & ? & ?)]|(? & b & ? & ? & x & ? & ?)]; [by left|right..];
        (split; [done|]; exists b; eauto 10).
    + intros [?|(? & b & ? & ? & x & [->|?] & ?)]; [by left; left|left; right|right]; eauto 10.
Qed.

Lemma indexed_rep s c from to addresses topics :
  chain_rep (contents s) c -> Forall wf_logs c -> wf_filter addresses topics ->
  exists numbers, indexed_log_block_numbers s from to addresses topics = Ok numbers /\
    forall n, n ∈ numbers <->
      from <= n <= to /\ exists b, b ∈ c /\ block_number b = n /\ has_log b (log_matches addresses topics).
Proof.
  intros Hc Hwf [Ha Ht]. rewrite List.Forall_forall in Hwf, Ha, Ht.
  assert (forall b, b ∈ c -> wf_logs b) as Hb by (intros b Hb; by apply Hwf, list_elem_of_In).
  destruct addresses as [addresses|]; [|destruct topics as [topics|]]; cbn [indexed_log_block_numbers].
  - destruct (collect_all s c log_address_prefix addresses from to ∅ Hc) as (res & H & Hin).
    { intros a _. eexists (B "address:" ++ _). reflexivity. }
    exists res. split; [done|]. intros n. rewrite Hin, elem_of_empty, (left_id False or).
    apply and_iff_compat_l. split.
    + intros (b & Hbc & Hn & a & Hal & Hrow). exists b. do 2 (split; [done|]).
      apply address_below in Hrow as (rc & log & ? & ? & <-); [|by apply Hb|by apply Ha, list_elem_of_In].
      by exists rc, log.
    + intros (b & Hbc & Hn & rc & log & Hrc & Hlog & Hm). exists b. do 2 (split; [done|]).
      exists (log_address log). split; [done|]. apply address_below; [by apply Hb|by apply Ha, list_elem_of_In|].
      by exists rc, log.
  - destruct (collect_all s c log_topic_prefix topics from to ∅ Hc) as (res & H & Hin).
    { intros a _. eexists (B "topic:" ++ _). reflexivity. }
    exists res. split; [done|]. intros n. rewrite Hin, elem_of_empty, (left_id False or).
    apply and_iff_compat_l. split.
    + intros (b & Hbc & Hn & a & Hal & Hrow). exists b. do 2 (split; [done|]).
      apply topic_below in Hrow as (rc & log & ? & ? & ?); [|by apply Hb|by apply Ht, list_elem_of_In].
      exists rc, log. do 2 (split; [done|]). by exists a.
    + intros (b & Hbc & Hn & rc & log & Hrc & Hlog & topic & Hm & Hin'). exists b. do 2 (split; [done|]).
      exists topic. split; [done|]. apply topic_below; [by apply Hb|by apply Ht, list_elem_of_In|].
      by exists rc, log.
  - destruct (collect_rep s c (B "log:index:location:") (B "location:") from to ∅ Hc eq_refl) as (res & H & Hin).
    exists res. split; [done|]. intros n. rewrite Hin, elem_of_empty, (left_id False or).
    by setoid_rewrite location_below.
Qed.

(** Inserting blocks in height order lengthens the chain. *)
Lemma insert_blocks_rep blocks c s s' :
  chain_rep (contents s) c -> numbered_from block_number 0 (c ++ blocks) -> list_fits (c ++ blocks) ->
  st_for blocks insert_block s = (Ok tt, s') ->
  chain_rep (contents s') (c ++ blocks) /\
  forall k, has_prefix (B "account:") k = true -> contents s' !! k = contents s !! k.
Proof.
  revert c s. induction blocks as [|b blocks IH]; intros c s Hc Hnum Hfit H.
  - apply st_ret_ok in H as [_ ->]. by rewrite app_nil_r.
  - apply st_for_cons in H as (s1 & H1 & H). replace (c ++ b :: blocks) with ((c ++ [b]) ++ blocks) in *
      by (by rewrite <- app_assoc).
    destruct (IH (c ++ [b]) s1) as [? Hk]; [|done..|].
    + eapply chain_rep_snoc; [done| | |done].
      * rewrite (Hnum (length c) b); [lia|]. rewrite lookup_app_l by (rewrite length_app; cbn; lia).
        apply lookup_snoc_Some. by right.
      * revert Hfit. unfold list_fits. rewrite !length_app. lia.
    + split; [done|]. intros k Hk'. rewrite Hk by done.
      apply insert_block_written in H1 as (bv & hv & ops & _ & _ & Hops & ->).
      destruct (block_written_families (contents s) b bv hv _ ops Hops) as (_ & _ & _ & Hk1).
      rewrite <- (app_nil_r (B "best:number")). other_family (B "best:number") (B "account:").
      apply (Hk1 (B "account:")); [by repeat constructor|done].
Qed.

Lemma insert_blocks_succeed {HRel : SledReliable} blocks s : Forall storable blocks -> succeeds (st_for blocks insert_block) s.
Proof.
  intros Hst. revert s. induction Hst as [|b blocks Hb _ IH]; intros s; [apply succeeds_ret|].
  apply succeeds_bind; [by apply insert_block_succeeds|]. intros. apply IH.
Qed.

(** *** Transactions and receipts *)

(** The last element that passes. *)
Fixpoint last_such {A} (f : A -> bool) (l : list A) : option A :=
  match l with
  | [] => None
  | x :: l => match last_such f l with Some y => Some y | None => if f x then Some x else None end
  end.

Lemma last_such_app {A} (f : A -> bool) l1 l2 :
  last_such f (l1 ++ l2) = match last_such f l2 with Some y => Some y | None => last_such f l1 end.
Proof. induction l1 as [|x l1 IH]; cbn; [by destruct (last_such f l2)|]. rewrite IH. by destruct (last_such f l2). Qed.

Lemma last_such_map {A C} (f : C -> bool) (g : A -> C) l : last_such f (map g l) = g <$> last_such (fun a => f (g a)) l.
Proof. induction l as [|x l IH]; cbn; [done|]. rewrite IH. destruct (last_such _ l); cbn; [done|]. by destruct (f (g x)). Qed.

(** A transaction goes by its own hash and by the hash of its raw bytes. *)
Definition named (h : Hash256) (t : Transaction) : bool :=
  bool_decide (tx_hash t = h) || bool_decide (tx_external_hash t = Some h).

(** The transactions of blocks, with their block and index, in the order they
    are stored. *)
Definition block_entries (b : Block) : list (Block * nat * Transaction) :=
  map (fun it => (b, it.1, it.2)) (enumerate (blk_transactions b)).
Definition last_named (h : Hash256) (blocks : list Block) : option (Block * nat * Transaction) :=
  last_such (fun e => named h e.2) (mjoin (map block_entries blocks)).

Lemma hash_key_inj (p h h' : list byte) : p ++ hash_to_hex h = p ++ hash_to_hex h' -> h = h'.
Proof. intros E%app_inv_head. unfold hash_to_hex in E. by apply hex_encode_inj. Qed.

Lemma kind_ne (p q k k' : list byte) : has_prefix p q = false -> has_prefix q p = false -> p ++ k <> q ++ k'.
Proof. intros H1 H2. apply (families_ne p q); [done|done|apply prefix_app|apply prefix_app]. Qed.

(** The rows of one transaction under a hash. *)
Lemma transaction_batch_rows (b : Block) (it : nat * Transaction) (ops : list BatchOp) (m : Contents) (h : Hash256) :
  transaction_batch b it = Ok ops ->
  exists v r w, to_vec it.2 = Ok v /\ stored_receipt b it.1 it.2 = Ok r /\ to_vec r = Ok w /\
    apply_ops m ops !! transaction_key h = (if named h it.2 then Some v else m !! transaction_key h) /\
    apply_ops m ops !! receipt_key h = (if named h it.2 then Some w else m !! receipt_key h).
Proof.
  destruct it as [i t]. intros (v & Hv & (r & Hr & (w & Hw & [= <-])%res_bind_ok)%res_bind_ok)%res_bind_ok.
  apply map_err_ok in Hv, Hw. exists v, r, w. do 3 (split; [done|]). cbn [snd].
  assert (forall x y, transaction_key x = transaction_key y -> x = y) as Ht by (intros x y; apply hash_key_inj).
  assert (forall x y, receipt_key x = receipt_key y -> x = y) as Hc by (intros x y; apply hash_key_inj).
  assert (forall x y, transaction_key x <> receipt_key y) as Htc by (intros x y; by apply kind_ne).
  assert (forall p q, bool_decide (p = q :> list byte) = true -> p = q) as Hbd by (intros p q; apply bool_decide_eq_true).
  unfold named, tx_rpc_hash, apply_ops. destruct (tx_external_hash t) as [e|]; cbn [app fold_left apply_op from_option id].
  - split.
    + rewrite !(lookup_insert_ne _ (receipt_key _)) by (intros E; symmetry in E; by apply Htc in E).
      destruct (decide (e = h)) as [->|He].
      * rewrite lookup_insert_eq, (bool_decide_eq_true_2 (Some h = Some h)), orb_true_r by done. done.
      * rewrite lookup_insert_ne by (intros E; by apply Ht in E).
        rewrite (bool_decide_eq_false_2 (Some e = Some h)), orb_false_r by congruence. case_bool_decide as E.
        -- rewrite E. by rewrite lookup_insert_eq.
        -- by rewrite lookup_insert_ne by (intros E'; by apply Ht in E').
    + destruct (decide (tx_hash t = h)) as [E|Hn].
      * rewrite E, lookup_insert_eq, bool_decide_eq_true_2 by done. done.
      * rewrite lookup_insert_ne by (intros E'; by apply Hc in E').
        rewrite (bool_decide_eq_false_2 (tx_hash t = h)) by done. cbn [orb]. case_bool_decide as E.
        -- injection E as ->. by rewrite lookup_insert_eq.
        -- rewrite lookup_insert_ne by (intros E'; apply Hc in E'; congruence).
           rewrite !(lookup_insert_ne _ (transaction_key _)) by (apply Htc). done.
  - rewrite (bool_decide_eq_false_2 (None = Some h)), orb_false_r by done. split.
    + rewrite !(lookup_insert_ne _ (receipt_key _)) by (intros E; symmetry in E; by apply Htc in E).
      case_bool_decide as E; [by rewrite E, lookup_insert_eq|].
      by rewrite lookup_insert_ne by (intros E'; by apply Ht in E').
    + case_bool_decide as E; [by rewrite E, lookup_insert_eq|].
      rewrite !lookup_insert_ne by (intros E'; apply Hc in E'; done).
      by rewrite lookup_insert_ne by (apply Htc).
Qed.

(** The answers under a hash, as the rows have them. *)
Definition tx_row (m : Contents) (h : Hash256) (e : option (Block * nat * Transaction)) (m' : Contents) : Prop :=
  match e with
  | None => m' !! transaction_key h = m !! transaction_key h /\ m' !! receipt_key h = m !! receipt_key h
  | Some (b, i, t) => exists v r w, to_vec t = Ok v /\ stored_receipt b i t = Ok r /\ to_vec r = Ok w /\
      m' !! transaction_key h = Some v /\ m' !! receipt_key h = Some w
  end.

Lemma transaction_ops_rows (b : Block) (its : list (nat * Transaction)) (ops : list BatchOp) (m : Contents) (h : Hash256) :
  transaction_ops b its = Ok ops ->
  tx_row m h (last_such (fun e => named h e.2) (map (fun it => (b, it.1, it.2)) its)) (apply_ops m ops).
Proof.
  revert m ops. induction its as [|it its IH]; intros m ops; [by intros [= <-]|]. rewrite transaction_ops_cons.
  intros (ops1 & H1 & (ops2 & H2 & [= <-])%res_bind_ok)%res_bind_ok. rewrite apply_ops_app.
  specialize (IH (apply_ops m ops1) ops2 H2). cbn [map last_such].
  destruct (last_such _ _) as [[[b' i'] t']|]; [exact IH|].
  destruct (transaction_batch_rows b it ops1 m h H1) as (v & r & w & Hv & Hr & Hw & E1 & E2).
  destruct IH as [I1 I2]. cbn [snd]. destruct (named h it.2).
  - exists v, r, w. rewrite I1, I2. done.
  - cbn [tx_row]. by rewrite I1, I2.
Qed.

Lemma insert_block_tx_rows (b : Block) s u s' (h : Hash256) :
  insert_block b s = (Ok u, s') ->
  tx_row (contents s) h (last_such (fun e => named h e.2) (block_entries b)) (contents s').
Proof.
  intros (bv & hv & ops & _ & _ & Hops & ->)%insert_block_written.
  assert (forall q k, q = B "transaction:" \/ q = B "receipt:" -> has_prefix q k = true ->
    <[B "best:number" := be_bytes 8 (hdr_number (blk_header b))]> (block_written (contents s) b bv hv ops) !! k =
    apply_ops (contents s) ops !! k) as Hk.
  { intros q k Hq Hp. rewrite <- (app_nil_r (B "best:number")).
    assert (forall p, p ∈ [B "best:number"; B "header:number:"; B "log:index:"; B "block:number:"] ->
      has_prefix p q = false /\ has_prefix q p = false) as Hpq.
    { intros p. rewrite !elem_of_cons. intros [->|[->|[->|[->|[]%not_elem_of_nil]]]]; destruct Hq as [->| ->]; done. }
    rewrite (lookup_insert_family (B "best:number") q) by (done || apply prefix_app || apply Hpq; set_solver).
    unfold block_written.
    rewrite (lookup_insert_family (B "header:number:") q) by (done || apply prefix_app || apply Hpq; set_solver).
    rewrite (ops_below_other [B "log:index:"] _ _ q); [|apply log_ops_below|..]; [| |done].
    2: { constructor; [|constructor]. split; apply Hpq; set_solver. }
    rewrite apply_ops_insert_comm.
    2: { eapply Forall_impl; [by eapply transaction_ops_below|]. intros op Hop.
         unfold op_below in Hop. apply List.Exists_exists in Hop as (p & Hin & Hop).
         apply list_elem_of_In in Hin. unfold TX_PREFIXES in Hin. rewrite !elem_of_cons in Hin.
         destruct Hin as [->|[->|[]%not_elem_of_nil]]; 
           (eapply families_ne; [| |exact Hop|apply (prefix_app (B "block:number:"))]; done). }
    by rewrite (lookup_insert_family (B "block:number:") q) by (done || apply prefix_app || apply Hpq; set_solver). }
  pose proof (transaction_ops_rows b _ ops (contents s) h Hops) as Hr. unfold block_entries. revert Hr.
  destruct (last_such _ _) as [[[b' i] t]|]; cbn [tx_row].
  - intros (v & r & w & ? & ? & ? & H1 & H2). exists v, r, w.
    rewrite (Hk (B "transaction:")), (Hk (B "receipt:")) by (auto || apply prefix_app). done.
  - rewrite (Hk (B "transaction:")), (Hk (B "receipt:")) by (auto || apply prefix_app). done.
Qed.

Lemma insert_blocks_tx_rows (blocks : list Block) s s' (h : Hash256) :
  st_for blocks insert_block s = (Ok tt, s') -> tx_row (contents s) h (last_named h blocks) (contents s').
Proof.
  unfold last_named. revert s. induction blocks as [|b blocks IH]; intros s H.
  - apply st_ret_ok in H as [_ ->]. done.
  - apply st_for_cons in H as (s1 & H1 & H). apply IH in H. apply (insert_block_tx_rows _ _ _ _ h) in H1.
    cbn [map mjoin list_join]. change (list_join ?l) with (mjoin l). rewrite last_such_app. revert H.
    destruct (last_such _ (mjoin _)) as [[[b' i] t]|]; [done|]. cbn [tx_row]. intros [E1 E2]. revert H1.
    destruct (last_such _ (block_entries b)) as [[[b' i] t]|]; cbn [tx_row]; by rewrite E1, E2.
Qed.

(** The receipt of a stored transaction, as it is answered. *)
Definition receipt_answer (b : Block) (i : nat) (t : Transaction) (a : Receipt * BlockHeader * nat * Transaction) : Prop :=
  exists rc, blk_receipts b !! i = Some rc /\ a = (rc, blk_header b, i, t).

Lemma tx_queries (m : Contents) (h : Hash256) e s :
  tx_row m h e (contents s) ->
  match e with
  | Some (b, i, t) => transaction_by_hash s h = Ok t /\
      exists a, transaction_receipt_by_hash s h = Ok a /\ receipt_answer b i t a
  | None => forall s0, contents s0 = m -> transaction_by_hash s h = transaction_by_hash s0 h /\
      indexed_transaction_receipt_by_hash s h = indexed_transaction_receipt_by_hash s0 h
  end.
Proof.
  unfold transaction_by_hash, transaction_receipt_by_hash, indexed_transaction_receipt_by_hash.
  destruct e as [[[b i] t]|]; cbn [tx_row].
  - intros (v & r & w & Hv & Hr & Hw & H1 & H2). rewrite !db_get_reliable, H1, H2. cbn [res_bind ok_or].
    unfold json_slice. rewrite (json_roundtrip _ _ Hv), (json_roundtrip _ _ Hw). split; [done|].
    unfold stored_receipt in Hr. destruct (blk_receipts b !! i) as [rc|] eqn:Erc; [|done].
    injection Hr as <-. cbn. eexists. split; [done|]. by exists rc.
  - intros [H1 H2] s0 <-. rewrite !db_get_reliable, H1, H2. done.
Qed.

(** C6: the store refines a list of blocks.  From a store that holds the chain
    [c], inserting further blocks in height order gives a store that holds the
    longer chain, and every block that serializes is inserted: the canonical
    blocks are the chain, the best header is that of the last block, a height
    finds its block and its header, [headers_after] returns the following
    headers in order, and the log index returns exactly the heights in the range
    whose block has a log that matches.  A hash, of a transaction or of its raw
    bytes, finds the last inserted transaction that goes by it, and its receipt
    with the header and the index; a hash that no inserted transaction goes by
    finds what it found before.  The account rows are not touched.  The search
    by block hash, which goes on to the candidates, is not part of this. *)
Theorem chain_store_refines blocks c s :
  let chain := c ++ blocks in
  chain_rep (contents s) c -> numbered_from block_number 0 chain -> list_fits chain ->
  (SledReliable -> Forall storable blocks -> succeeds (st_for blocks insert_block) s) /\
  forall s', st_for blocks insert_block s = (Ok tt, s') ->
    chain_rep (contents s') chain /\
    canonical_blocks s' = Ok chain /\
    best_header s' = ok_or (blk_header <$> last chain) NotFound /\
    (forall n, in_u64 n -> header_by_number s' n = ok_or (blk_header <$> chain !! Z.to_nat n) NotFound /\
      block_by_number s' n = ok_or (chain !! Z.to_nat n) NotFound) /\
    (forall n limit, 0 <= n ->
      headers_after s' n limit = Ok (take limit (drop (Z.to_nat (n + 1)) (map blk_header chain)))) /\
    (forall from to addresses topics, Forall wf_logs chain -> wf_filter addresses topics ->
      exists numbers, indexed_log_block_numbers s' from to addresses topics = Ok numbers /\
        forall n, n ∈ numbers <-> from <= n <= to /\
          exists b, b ∈ chain /\ block_number b = n /\ has_log b (log_matches addresses topics)) /\
    (forall h, match last_named h blocks with
      | Some (b, i, t) => transaction_by_hash s' h = Ok t /\
          exists a, transaction_receipt_by_hash s' h = Ok a /\ receipt_answer b i t a
      | None => transaction_by_hash s' h = transaction_by_hash s h /\
          indexed_transaction_receipt_by_hash s' h = indexed_transaction_receipt_by_hash s h
      end) /\
    (forall k, has_prefix (B "account:") k = true -> contents s' !! k = contents s !! k).
Proof.
  intros chain Hc Hnum Hfit. split; [intros; by apply insert_blocks_succeed|].
  intros s' H. destruct (insert_blocks_rep blocks c s s' Hc Hnum Hfit H) as [Hc' Hacc].
  split; [done|]. split; [by apply canonical_blocks_rep|]. split; [by apply best_header_rep|].
  split; [intros n Hn; by apply header_by_number_rep|]. split; [intros; by apply headers_after_rep|].
  split; [intros; by apply indexed_rep|]. split; [|done]. intros h.
  pose proof (tx_queries _ h _ s' (insert_blocks_tx_rows blocks s s' h H)) as Hq.
  destruct (last_named h blocks) as [[[b i] t]|]; [exact Hq|by apply Hq].
Qed.
End chain.

(** ** Witnesses *)

#[export] Instance stored_receipt_eq_dec : EqDecision StoredReceipt.
Proof. solve_decision. Defined.

(** A genesis block and a block with a transaction and a log. *)
Definition numbered_sample (n : Z) : BlockHeader := let h := sample_nonce_header 5 in {|
  hdr_parent_hash := hdr_parent_hash h; hdr_number := n; hdr_state_root := hdr_state_root h;
  hdr_transactions_root := hdr_transactions_root h; hdr_receipts_root := hdr_receipts_root h;
  hdr_beneficiary := hdr_beneficiary h; hdr_difficulty_target := hdr_difficulty_target h;
  hdr_base_fee_per_gas := hdr_base_fee_per_gas h; hdr_gas_limit := hdr_gas_limit h;
  hdr_gas_used := hdr_gas_used h; hdr_timestamp_seconds := hdr_timestamp_seconds h;
  hdr_pow_algorithm := hdr_pow_algorithm h; hdr_pow_epoch := hdr_pow_epoch h;
  hdr_extra_nonce := hdr_extra_nonce h; hdr_mix_hash := hdr_mix_hash h; hdr_nonce := hdr_nonce h |}.

Definition sample_log : LogEntry := {|
  log_address := be_bytes 20 9; log_topics := [be_bytes 32 4; be_bytes 32 5]; log_data := [x01] |}.

Definition sample_chain : list Block :=
  [{| blk_header := numbered_sample 0; blk_transactions := []; blk_receipts := [] |};
   {| blk_header := numbered_sample 1; blk_transactions := [sample_plain_tx 2];
      blk_receipts := [{| rc_transaction_hash := be_bytes 32 1; rc_success := true; rc_gas_used := 21000;
                          rc_logs_root := be_bytes 32 2; rc_logs := [sample_log] |}] |}].

Definition sample_stored : list StoredReceipt :=
  match sample_chain with
  | [_; b] => match @stored_receipt b 0 (sample_plain_tx 2) with Ok r => [r] | _ => [] end
  | _ => []
  end.

Lemma sample_chain_numbers : numbered_from block_number 0 sample_chain.
Proof. intros [|[|i]] b H; [by injection H as <-..|]. by destruct i. Qed.

Lemma chain_store_refines_witness :
  let JB := table_json sample_chain in
  let JH := table_json (map blk_header sample_chain) in
  let JT := table_json [sample_plain_tx 2] in
  let JR := table_json sample_stored in
  exists s', @st_for StorageError (@SledStorage mem_sled) _ sample_chain (@insert_block mem_sled hex_codec toy_digests JB JH JT JR)
      (@Build_SledStorage mem_sled ∅ false) = (Ok tt, s') /\
    @canonical_blocks mem_sled JB s' = Ok sample_chain /\
    exists numbers, @indexed_log_block_numbers mem_sled hex_codec s' 0 9 None (Some [be_bytes 32 5]) = Ok numbers /\
      1 ∈ numbers.
Proof.
  intros JB JH JT JR.
  destruct (@chain_store_refines mem_sled hex_codec toy_digests JB JH JT JR (@reliable_reads _ mem_sled_reliable) sample_chain []
    (@Build_SledStorage mem_sled ∅ false)) as [Hs H].
  - by apply chain_rep_empty.
  - apply sample_chain_numbers.
  - by vm_compute.
  - destruct (Hs mem_sled_reliable) as ([] & s' & Hrun); [repeat (apply List.Forall_cons; [by vm_compute|]); apply List.Forall_nil|].
    exists s'. split; [done|]. destruct (H s' Hrun) as (_ & Hc & _ & _ & _ & Hl & _). split; [done|].
    destruct (Hl 0 9 None (Some [be_bytes 32 5])) as (numbers & Hn & Hin).
    + repeat (apply List.Forall_cons || apply List.Forall_nil); try apply List.Forall_nil;
        (split; [apply length_be_bytes|]); repeat (apply List.Forall_cons; [apply length_be_bytes|]); apply List.Forall_nil.
    + split; [apply List.Forall_nil|]. repeat (apply List.Forall_cons; [apply length_be_bytes|]). apply List.Forall_nil.
    + exists numbers. split; [done|]. apply Hin. split; [lia|].
      eexists. split; [right; left|]. split; [reflexivity|].
      eexists _, sample_log. split; [left|]. split; [left|]. exists (be_bytes 32 5). split; [left|right; left].
Defined.

Lemma insert_block_batch_equiv_witness :
  let JB := table_json sample_chain in
  let JH := table_json (map blk_header sample_chain) in
  let JT := table_json [sample_plain_tx 2] in
  let JR := table_json sample_stored in
  exists b s' ops, sample_chain !! 1%nat = Some b /\
    @insert_block mem_sled hex_codec toy_digests JB JH JT JR b (@Build_SledStorage mem_sled ∅ false) = (Ok tt, s') /\
    @insert_block_into_batch hex_codec toy_digests JB JH JT JR [] b = Ok ([] ++ ops).
Proof.
  intros JB JH JT JR.
  assert (exists b, sample_chain !! 1%nat = Some b) as [b Hb] by (eexists; reflexivity).
  destruct (@insert_block_batch_equiv mem_sled hex_codec toy_digests JB JH JT JR [] b
    (@Build_SledStorage mem_sled ∅ false)) as [H Hok]. specialize (Hok mem_sled_reliable).
  assert (is_ok (@insert_block_into_batch hex_codec toy_digests JB JH JT JR [] b) = true) as E.
  { injection Hb as <-. by vm_compute. }
  rewrite E in Hok. destruct (insert_block b _) as [r s'] eqn:Er. cbn [fst] in Hok.
  apply is_ok_true in Hok as [[] ->]. destruct (H tt s' eq_refl) as (ops & Hops & _). eauto 10.
Defined.
