(* ===== verification/Generation.v ===== *)
(** The generation files of [crates/blq-storage]: the manifest, the replay
    checkpoint, the publication record and the suffix journal that lie beside
    the database, their verification against the stored chain, and the
    recovery that a restart performs.

    A file is its bytes or missing.  Files are replaced through a temporary
    file and a rename, so a replacement that fails leaves the old bytes; which
    file operations fail is the class [FileIo]. *)

From Stdlib Require Import ZArith Lia Strings.String Strings.Byte.
From stdpp Require Import sorting gmap fin_maps base list.
From S2P Require Import Prelude Externals Primitives Canonical State StateRoot Sled AccountStore BlockStore.
#[local] Open Scope Z_scope.

Inductive GenerationStatus := Active | Staging | Verified | Retired | Failed.

#[export] Instance generation_status_eq_dec : EqDecision GenerationStatus.
Proof. solve_decision. Defined.

Record GenerationManifest := {
  gm_generation_id : Z;
  gm_status : GenerationStatus;
  gm_canonical_height : Z;
  gm_canonical_hash : Hash256;
  gm_state_root : Hash256;
  gm_profile_fingerprint : list byte;
  gm_finalized_height : Z;
  gm_replay_checkpoint : option Z;
}.

Record ReplayCheckpoint := {
  rcp_generation_id : Z;
  rcp_height : Z;
  rcp_block_hash : Hash256;
  rcp_state_root : Hash256;
}.

Record GenerationPublicationRecord := {
  gp_generation_id : Z;
  gp_manifest_checksum : Hash256;
}.

Record SuffixPublicationRecord := {
  sp_previous_manifest : GenerationManifest;
  sp_target_manifest : GenerationManifest;
}.

#[export] Instance generation_manifest_eq_dec : EqDecision GenerationManifest.
Proof. solve_decision. Defined.
#[export] Instance replay_checkpoint_eq_dec : EqDecision ReplayCheckpoint.
Proof. solve_decision. Defined.
#[export] Instance publication_record_eq_dec : EqDecision GenerationPublicationRecord.
Proof. solve_decision. Defined.
#[export] Instance suffix_record_eq_dec : EqDecision SuffixPublicationRecord.
Proof. solve_decision. Defined.

Inductive GenFile := ManifestFile | CheckpointFile | PublicationFile | SuffixFile.

#[export] Instance gen_file_eq_dec : EqDecision GenFile.
Proof. solve_decision. Defined.

Definition Files : Type := GenFile -> option (list byte).

(** The error a file operation ends with, if it does not succeed. *)
Class FileIo := {
  read_error : Files -> GenFile -> option string;
  replace_error : Files -> GenFile -> list byte -> option string;
  remove_error : Files -> GenFile -> option string;
}.

(** File operations that never fail. *)
Class FilesReliable `{FileIo} := {
  no_read_error : forall fs f, read_error fs f = None;
  no_replace_error : forall fs f b, replace_error fs f b = None;
  no_remove_error : forall fs f, remove_error fs f = None;
}.

(** The checksum of a manifest is over its compact JSON text; the files hold
    the indented one. *)
Class CompactManifest := { manifest_to_vec : GenerationManifest -> res string (list byte) }.

Record Generation {S : Sled} := { gn_db : SledStorage; gn_files : Files }.

Section generation.
Context {S : Sled} {IO : FileIo} {D : Digests}.
Context {JH : Json BlockHeader} {JM : Json GenerationManifest} {JC : Json ReplayCheckpoint}.
Context {JP : Json GenerationPublicationRecord} {JS : Json SuffixPublicationRecord} {CM : CompactManifest}.

(** An operation of the storage, run on the database of the generation. *)
Definition on_db {E A} (m : StM E SledStorage A) : StM E Generation A := fun g =>
  let '(r, db) := m (gn_db g) in (r, {| gn_db := db; gn_files := gn_files g |}).

Definition set_file (fs : Files) (f : GenFile) (o : option (list byte)) : Files :=
  fun f' => if decide (f' = f) then o else fs f'.

(** [load_generation_manifest], [load_replay_checkpoint],
    [load_generation_publication] and [load_suffix_publication]. *)
Definition load_file {A} {J : Json A} (f : GenFile) (invalid : string) (g : Generation)
    : res StorageError (option A) :=
  match gn_files g f with
  | None => Ok None
  | Some bytes =>
      match read_error (gn_files g) f with
      | Some e => Err (Io e)
      | None => let? a := res_map_err (fun _ => Serialization invalid) (from_slice bytes) in Ok (Some a)
      end
  end.

Definition load_generation_manifest : Generation -> res StorageError (option GenerationManifest) :=
  load_file ManifestFile "invalid generation manifest".
Definition load_replay_checkpoint : Generation -> res StorageError (option ReplayCheckpoint) :=
  load_file CheckpointFile "invalid replay checkpoint".
Definition load_generation_publication : Generation -> res StorageError (option GenerationPublicationRecord) :=
  load_file PublicationFile "invalid generation publication record".
Definition load_suffix_publication : Generation -> res StorageError (option SuffixPublicationRecord) :=
  load_file SuffixFile "invalid suffix publication record".

(** Write a temporary file, sync it and rename it. *)
Definition replace_file (f : GenFile) (bytes : list byte) : StM StorageError Generation unit := fun g =>
  match replace_error (gn_files g) f bytes with
  | Some e => (Err (Io e), g)
  | None => (Ok tt, {| gn_db := gn_db g; gn_files := set_file (gn_files g) f (Some bytes) |})
  end.

(** [fs::remove_file], where a missing file is fine. *)
Definition remove_file (f : GenFile) : StM StorageError Generation unit := fun g =>
  match gn_files g f with
  | None => (Ok tt, g)
  | Some _ =>
      match remove_error (gn_files g) f with
      | Some e => (Err (Io e), g)
      | None => (Ok tt, {| gn_db := gn_db g; gn_files := set_file (gn_files g) f None |})
      end
  end.

Definition write_file {A} {J : Json A} (f : GenFile) (a : A) : StM StorageError Generation unit :=
  do? bytes := st_res (json_vec a) in replace_file f bytes.

Definition write_generation_manifest (manifest : GenerationManifest) : StM StorageError Generation unit :=
  write_file ManifestFile manifest.
Definition write_replay_checkpoint (checkpoint : ReplayCheckpoint) : StM StorageError Generation unit :=
  write_file CheckpointFile checkpoint.

Definition manifest_checksum (manifest : GenerationManifest) : res StorageError Hash256 :=
  let? bytes := res_map_err Serialization (manifest_to_vec manifest) in Ok (hash_bytes bytes).

Definition write_generation_publication (manifest : GenerationManifest) : StM StorageError Generation unit :=
  do? checksum := st_res (manifest_checksum manifest) in
  write_file PublicationFile
    {| gp_generation_id := gm_generation_id manifest; gp_manifest_checksum := checksum |}.

Definition write_suffix_publication (record : SuffixPublicationRecord) : StM StorageError Generation unit :=
  write_file SuffixFile record.
Definition clear_suffix_publication : StM StorageError Generation unit := remove_file SuffixFile.

Definition sync_suffix_replay_checkpoint (manifest : GenerationManifest) : StM StorageError Generation unit :=
  match gm_replay_checkpoint manifest with
  | Some height => write_replay_checkpoint {|
      rcp_generation_id := gm_generation_id manifest; rcp_height := height;
      rcp_block_hash := gm_canonical_hash manifest; rcp_state_root := gm_state_root manifest |}
  | None => remove_file CheckpointFile
  end.

(** ** Verification *)

(** The tip a manifest names. *)
Definition manifest_matches (manifest : GenerationManifest) (best : BlockHeader) : bool :=
  (gm_canonical_height manifest =? hdr_number best) &&
  bool_decide (gm_canonical_hash manifest = header_hash best) &&
  bool_decide (gm_state_root manifest = hdr_state_root best).

(** Is the publication record older than the manifest? *)
Definition stale_publication (manifest : GenerationManifest) (g : Generation) : res StorageError bool :=
  let? record := load_generation_publication g in
  match record with
  | None => Ok false
  | Some record =>
      if negb (gp_generation_id record =? gm_generation_id manifest)
      then Err (Serialization "generation publication record does not match its manifest")
      else let? checksum := manifest_checksum manifest in
           Ok (negb (bool_decide (gp_manifest_checksum record = checksum)))
  end.

Definition check_replay_checkpoint (manifest : GenerationManifest) (best : BlockHeader) (g : Generation)
    : res StorageError unit :=
  let? checkpoint := load_replay_checkpoint g in
  match gm_replay_checkpoint manifest, checkpoint with
  | Some height, Some checkpoint =>
      if negb (rcp_generation_id checkpoint =? gm_generation_id manifest)
         || negb (rcp_height checkpoint =? height) || (hdr_number best <? rcp_height checkpoint)
      then Err (Serialization "generation replay checkpoint does not match its manifest")
      else
        let? header := header_by_number (gn_db g) (rcp_height checkpoint) in
        if negb (bool_decide (header_hash header = rcp_block_hash checkpoint))
           || negb (bool_decide (hdr_state_root header = rcp_state_root checkpoint))
        then Err (Serialization "generation replay checkpoint does not match canonical storage")
        else Ok tt
  | Some _, None => Err (Serialization "generation manifest requires a missing replay checkpoint")
  | None, Some _ => Err (Serialization "generation has an unreferenced replay checkpoint")
  | None, None => Ok tt
  end.

Definition publishable (status : GenerationStatus) : bool :=
  match status with Active | Verified => true | _ => false end.

Definition verify_generation_manifest : StM StorageError Generation GenerationManifest :=
  do? manifest := st_read load_generation_manifest in
  do? manifest := st_res (ok_or manifest (Serialization "generation manifest is missing")) in
  if negb (publishable (gm_status manifest))
  then st_res (Err (Serialization "generation manifest is not publishable"))
  else
    do? best := st_read (fun g => best_header (gn_db g)) in
    if negb (manifest_matches manifest best)
    then st_res (Err (Serialization "generation manifest does not match stored canonical tip"))
    else
      do? stale := st_read (stale_publication manifest) in
      st_read (check_replay_checkpoint manifest best) ;!
      (if (stale : bool) then write_generation_publication manifest else st_ret tt) ;!
      st_ret manifest.

(** ** Recovery of an interrupted suffix publication *)

Definition recover_suffix_publication : StM StorageError Generation unit :=
  do? record := st_read load_suffix_publication in
  match record with
  | None => st_ret tt
  | Some record =>
      do? best := st_read (fun g => best_header (gn_db g)) in
      let target := sp_target_manifest record in
      let previous := sp_previous_manifest record in
      if manifest_matches target best then
        sync_suffix_replay_checkpoint target ;!
        write_generation_manifest target ;!
        write_generation_publication target ;!
        clear_suffix_publication
      else if manifest_matches previous best then clear_suffix_publication
      else st_res (Err (Serialization "suffix publication journal does not match stored canonical tip"))
  end.

(** ** Keeping the manifest on the tip *)

Definition FINALITY_CONFIRMATION_DEPTH : Z := 6.
Definition finalized_height (best_number : Z) : Z := sat_sub best_number FINALITY_CONFIRMATION_DEPTH.

Definition refresh_generation_manifest : StM StorageError Generation unit :=
  do? manifest := st_read load_generation_manifest in
  match manifest with
  | None => st_ret tt
  | Some manifest =>
      do? best := st_read (fun g => best_header (gn_db g)) in
      let manifest := {|
        gm_generation_id := gm_generation_id manifest; gm_status := Active;
        gm_canonical_height := hdr_number best; gm_canonical_hash := header_hash best;
        gm_state_root := hdr_state_root best; gm_profile_fingerprint := gm_profile_fingerprint manifest;
        gm_finalized_height := finalized_height (hdr_number best);
        gm_replay_checkpoint := gm_replay_checkpoint manifest |} in
      write_generation_manifest manifest ;!
      write_generation_publication manifest
  end.
End generation.

(** ** Runs on the files *)

Section file_runs.
Context {S : Sled} {IO : FileIo} {D : Digests}.
Context {JH : Json BlockHeader} {JM : Json GenerationManifest} {JC : Json ReplayCheckpoint}.
Context {JP : Json GenerationPublicationRecord} {JS : Json SuffixPublicationRecord} {CM : CompactManifest}.

Lemma set_file_eq fs f o : set_file fs f o f = o.
Proof. unfold set_file. by rewrite decide_True. Qed.
Lemma set_file_ne fs f f' o : f' <> f -> set_file fs f o f' = fs f'.
Proof. intros. unfold set_file. by rewrite decide_False. Qed.

Definition with_file (g : Generation) (f : GenFile) (o : option (list byte)) : Generation :=
  {| gn_db := gn_db g; gn_files := set_file (gn_files g) f o |}.

Lemma write_file_run {A} {J : Json A} f (a : A) g r g' :
  write_file f a g = (r, g') ->
  (is_ok r = false /\ g' = g) \/
  (r = Ok tt /\ exists b, json_vec a = Ok b /\ g' = with_file g f (Some b)).
Proof.
  unfold write_file. intros [(b & g1 & [Hb ->]%st_res_ok & H)|(Hr & r0 & H & _)]%st_bind_run.
  - unfold replace_file in H. destruct (replace_error _ _ _); injection H as <- <-; [by left|].
    right. split; [done|]. by exists b.
  - left. split; [done|]. unfold st_res in H. by injection H as _ <-.
Qed.

Lemma remove_file_run f g r g' :
  remove_file f g = (r, g') ->
  (is_ok r = false /\ g' = g) \/
  (r = Ok tt /\ gn_db g' = gn_db g /\ forall f', gn_files g' f' = set_file (gn_files g) f None f').
Proof.
  unfold remove_file. destruct (gn_files g f) as [b|] eqn:E.
  - destruct (remove_error _ _); intros [= <- <-]; [by left|by right].
  - intros [= <- <-]. right. split; [done|]. split; [done|]. intros f'. unfold set_file. by case_decide; subst.
Qed.

Lemma on_db_run {A} (m : St A) g r g' :
  on_db m g = (r, g') -> m (gn_db g) = (r, gn_db g') /\ gn_files g' = gn_files g.
Proof. unfold on_db. destruct (m (gn_db g)) as [r0 db]. by intros [= <- <-]. Qed.

(** The files that name a manifest: the manifest, its checkpoint and its
    publication record. *)
Record files_name (manifest : GenerationManifest) (fs : Files) : Prop := {
  fn_manifest : exists b, fs ManifestFile = Some b /\ to_vec manifest = Ok b;
  fn_publication : exists b checksum, fs PublicationFile = Some b /\ manifest_checksum manifest = Ok checksum /\
    to_vec {| gp_generation_id := gm_generation_id manifest; gp_manifest_checksum := checksum |} = Ok b;
  fn_checkpoint : exists height b, gm_replay_checkpoint manifest = Some height /\ fs CheckpointFile = Some b /\
    to_vec {| rcp_generation_id := gm_generation_id manifest; rcp_height := height;
              rcp_block_hash := gm_canonical_hash manifest; rcp_state_root := gm_state_root manifest |} = Ok b;
}.

(** The last steps of a publication, and of its recovery. *)
Definition install_manifest (target : GenerationManifest) : StM StorageError Generation unit :=
  sync_suffix_replay_checkpoint target ;!
  write_generation_manifest target ;!
  write_generation_publication target ;!
  clear_suffix_publication.

Lemma install_manifest_run target height g r g' :
  gm_replay_checkpoint target = Some height -> install_manifest target g = (r, g') ->
  gn_db g' = gn_db g /\
  ((is_ok r = false /\ gn_files g' SuffixFile = gn_files g SuffixFile) \/
   (r = Ok tt /\ gn_files g' SuffixFile = None /\ files_name target (gn_files g'))).
Proof.
  intros Hh. unfold install_manifest, sync_suffix_replay_checkpoint. rewrite Hh.
  intros [([] & g1 & H1 & H)|(Hr & r0 & H1 & H1')]%st_bind_run; apply write_file_run in H1 as [[E ->]|(E & cb & Hcb & ->)];
    try by subst; auto.
  apply st_bind_run in H as [([] & g2 & H2 & H)|(Hr & r0 & H2 & H2')]; apply write_file_run in H2 as [[E2 ->]|(E2 & mb & Hmb & ->)];
    try by subst; auto.
  apply st_bind_run in H as [([] & g3 & H3 & H)|(Hr & r0 & H3 & H3')].
  - unfold write_generation_publication in H3. apply st_bind_run in H3 as [(ck & g4 & [Hck ->]%st_res_ok & H3)|(? & ? & _ & ?)]; [|done].
    apply write_file_run in H3 as [[E3 ->]|(E3 & pb & Hpb & ->)]; [done|].
    apply remove_file_run in H as [[E4 ->]|(-> & Hdb & Hf)]; [by auto|].
    split; [done|]. right. split; [done|]. split; [by rewrite Hf, set_file_eq|].
    apply map_err_ok in Hcb, Hmb, Hpb. split.
    + exists mb. rewrite Hf. split; [|done]. by rewrite set_file_ne by done.
    + exists pb, ck. rewrite Hf. split; [|done]. by rewrite set_file_ne by done.
    + exists height, cb. rewrite Hf. do 2 (split; [done|]). done.
  - unfold write_generation_publication in H3. apply st_bind_run in H3 as [(ck & g4 & [Hck ->]%st_res_ok & H3)|(? & r1 & H3 & ?)].
    + apply write_file_run in H3 as [[E3 ->]|(E3 & pb & Hpb & ->)]; by subst; auto.
    + unfold st_res in H3. injection H3 as _ <-. auto.
Qed.
End file_runs.

(** *** Reliable files *)

Section reliable_files.
Context {S : Sled} {IO : FileIo} {RF : FilesReliable} {D : Digests}.
Context {JH : Json BlockHeader} {JM : Json GenerationManifest} {JC : Json ReplayCheckpoint}.
Context {JP : Json GenerationPublicationRecord} {JS : Json SuffixPublicationRecord} {CM : CompactManifest}.

(** The files a manifest asks for can be written. *)
Definition manifest_storable (manifest : GenerationManifest) : Prop :=
  exists height checksum mb pb cb,
    gm_replay_checkpoint manifest = Some height /\ manifest_checksum manifest = Ok checksum /\
    to_vec manifest = Ok mb /\
    to_vec {| gp_generation_id := gm_generation_id manifest; gp_manifest_checksum := checksum |} = Ok pb /\
    to_vec {| rcp_generation_id := gm_generation_id manifest; rcp_height := height;
              rcp_block_hash := gm_canonical_hash manifest; rcp_state_root := gm_state_root manifest |} = Ok cb.

Lemma load_file_stored {A} {J : Json A} f msg g (a : A) b :
  gn_files g f = Some b -> to_vec a = Ok b -> load_file f msg g = Ok (Some a).
Proof.
  intros Hf Hb. unfold load_file. rewrite Hf, no_read_error. by rewrite (json_roundtrip _ _ Hb).
Qed.

Lemma load_file_none {A} {J : Json A} f msg g : gn_files g f = None -> load_file f msg g = Ok (None (A:=A)).
Proof. intros Hf. unfold load_file. by rewrite Hf. Qed.

Lemma write_file_reliable {A} {J : Json A} f (a : A) g b :
  to_vec a = Ok b -> write_file f a g = (Ok tt, with_file g f (Some b)).
Proof.
  intros Hb. unfold write_file, st_bind, st_res, json_vec. rewrite Hb. cbn [res_map_err]. unfold replace_file.
  by rewrite no_replace_error.
Qed.

Lemma remove_file_reliable f g : exists g', remove_file f g = (Ok tt, g').
Proof. unfold remove_file. destruct (gn_files g f); [rewrite no_remove_error|]; eauto. Qed.

Lemma install_manifest_reliable target g :
  manifest_storable target -> exists g', install_manifest target g = (Ok tt, g').
Proof.
  intros (height & checksum & mb & pb & cb & Hh & Hck & Hm & Hp & Hc).
  unfold install_manifest, sync_suffix_replay_checkpoint, write_replay_checkpoint, write_generation_manifest,
    write_generation_publication, clear_suffix_publication. rewrite Hh.
  unfold st_bind. rewrite (write_file_reliable _ _ _ _ Hc), (write_file_reliable _ _ _ _ Hm). unfold st_res.
  rewrite Hck, (write_file_reliable _ _ _ _ Hp). apply remove_file_reliable.
Qed.

(** A generation whose files agree with the stored chain. *)
Record verified (manifest : GenerationManifest) (best : BlockHeader) (g : Generation) : Prop := {
  vf_manifest : load_generation_manifest g = Ok (Some manifest);
  vf_status : publishable (gm_status manifest) = true;
  vf_best : best_header (gn_db g) = Ok best;
  vf_tip : manifest_matches manifest best = true;
  vf_publication : stale_publication manifest g = Ok false;
  vf_checkpoint : check_replay_checkpoint manifest best g = Ok tt;
}.

Lemma verified_verify manifest best g :
  verified manifest best g -> verify_generation_manifest g = (Ok manifest, g).
Proof.
  intros [H1 H2 H3 H4 H5 H6]. unfold verify_generation_manifest, st_bind, st_read, st_res, st_ret.
  rewrite H1. cbn [ok_or]. rewrite H2. cbn [negb]. rewrite H3, H4. cbn [negb]. by rewrite H5, H6.
Qed.

(** Files that name a manifest of the stored tip. *)
Lemma verified_named manifest best g :
  files_name manifest (gn_files g) -> publishable (gm_status manifest) = true ->
  best_header (gn_db g) = Ok best -> header_by_number (gn_db g) (hdr_number best) = Ok best ->
  manifest_matches manifest best = true -> gm_replay_checkpoint manifest = Some (hdr_number best) ->
  verified manifest best g.
Proof.
  intros [(mb & Hm & Em) (pb & ck & Hp & Eck & Ep) (height & cb & Eh & Hc & Ec)] Hpub Hbest Hhead Hmatch Hcp.
  rewrite Hcp in Eh. injection Eh as <-. split; try done.
  - by apply (load_file_stored _ _ _ _ _ Hm Em).
  - unfold stale_publication, load_generation_publication. rewrite (load_file_stored _ _ _ _ _ Hp Ep). cbn [res_bind].
    rewrite Eck. cbn [gp_generation_id gp_manifest_checksum res_bind]. by rewrite Z.eqb_refl, bool_decide_true.
  - unfold check_replay_checkpoint, load_replay_checkpoint. rewrite (load_file_stored _ _ _ _ _ Hc Ec). cbn [res_bind].
    rewrite Hcp. cbn [rcp_generation_id rcp_height rcp_block_hash rcp_state_root]. rewrite !Z.eqb_refl, Z.ltb_irrefl.
    cbn [negb orb]. rewrite Hhead. cbn [res_bind]. unfold manifest_matches in Hmatch.
    apply andb_true_iff in Hmatch as [Hmatch Hroot]. apply andb_true_iff in Hmatch as [_ Hhash].
    apply bool_decide_eq_true in Hroot, Hhash. by rewrite !bool_decide_true by congruence.
Qed.

(** It depends on the contents of the database and on the files but the journal. *)
Lemma verified_ext {HR : SledReadable} g g' manifest best :
  contents (gn_db g') = contents (gn_db g) ->
  (forall f, f <> SuffixFile -> gn_files g' f = gn_files g f) ->
  verified manifest best g -> verified manifest best g'.
Proof.
  intros Hdb Hf [H1 H2 H3 H4 H5 H6].
  assert (forall n, header_by_number (gn_db g') n = header_by_number (gn_db g) n) as Hn.
  { intros n. unfold header_by_number. by rewrite !db_get_reliable, Hdb. }
  assert (best_header (gn_db g') = best_header (gn_db g)) as Hb.
  { unfold best_header. assert (get_best_number (gn_db g') = get_best_number (gn_db g)) as ->.
    { unfold get_best_number. by rewrite !db_get_reliable, Hdb. }
    destruct (get_best_number (gn_db g)); [apply Hn|done..]. }
  assert (forall A (J : Json A) f msg, f <> SuffixFile -> @load_file S IO A J f msg g' = load_file f msg g) as Hl.
  { intros A J f msg Hne. unfold load_file. by rewrite Hf, !no_read_error by done. }
  split; try done.
  - rewrite <- H1. by apply Hl.
  - by rewrite Hb.
  - rewrite <- H5. unfold stale_publication, load_generation_publication. by rewrite Hl.
  - rewrite <- H6. unfold check_replay_checkpoint, load_replay_checkpoint. rewrite Hl by done.
    destruct (load_file _ _ g) as [cp|e|]; [|done..]. cbn [res_bind].
    destruct (gm_replay_checkpoint manifest), cp; [|done..]. by rewrite Hn.
Qed.
End reliable_files.
