(* ===== verification/Publish.v ===== *)
(** Publication of a verified fork suffix in [crates/blq-storage]: the batch
    that replaces the canonical suffix and the whole account state, and the
    journal around it. *)

From Stdlib Require Import ZArith Lia Strings.String Strings.Byte.
From stdpp Require Import sorting gmap fin_maps base list.
From S2P Require Import Prelude Externals Primitives Canonical State StateRoot Sled AccountStore BlockStore.
From S2P Require Import ChainStore Generation.
#[local] Open Scope Z_scope.

Section publish.
Context {S : Sled} {IO : FileIo} {HX : HexCodec} {D : Digests}.
Context {JB : Json Block} {JH : Json BlockHeader} {JT : Json Transaction} {JR : Json StoredReceipt}.
Context {JE : Json (list SerializedEvmSnapshotEntry)}.
Context {JM : Json GenerationManifest} {JC : Json ReplayCheckpoint}.
Context {JP : Json GenerationPublicationRecord} {JS : Json SuffixPublicationRecord} {CM : CompactManifest}.

(** The last header of a contiguous replacement. *)
Fixpoint replacement_tip (parent : BlockHeader) (replacement : list Block) : res StorageError BlockHeader :=
  match replacement with
  | [] => Ok parent
  | block :: replacement =>
      if negb (hdr_number (blk_header block) =? sat_add U64_MAX (hdr_number parent) 1)
         || negb (bool_decide (hdr_parent_hash (blk_header block) = header_hash parent))
      then Err (Serialization "suffix publication replacement is not contiguous")
      else replacement_tip (blk_header block) replacement
  end.

(** [from..=to]. *)
Definition heights (from to : Z) : list Z :=
  map (fun i => from + Z.of_nat i) (seq 0 (Z.to_nat (to + 1 - from))).

(** The removals: the blocks of the old suffix, their log rows, every account
    row and every historical EVM snapshot. *)
Definition old_block_ops (s : SledStorage) (reorg_from best : Z) : res StorageError (list BatchOp) :=
  fold_left (fun acc number => let? batch := acc in
    let? block := block_by_number s number in Ok (remove_block_from_batch batch block))
    (heights reorg_from best) (Ok []).

Definition old_log_ops (s : SledStorage) (reorg_from : Z) (batch : list BatchOp) : res StorageError (list BatchOp) :=
  read_rows s (B "log:index:") (fun batch kv =>
    let? number := location_number kv.2 in
    Ok (if reorg_from <=? number then batch ++ [BatchRemove kv.1] else batch)) batch.

Definition old_row_ops (s : SledStorage) (prefix : list byte) (batch : list BatchOp) : res StorageError (list BatchOp) :=
  read_rows s prefix (fun batch kv => Ok (batch ++ [BatchRemove kv.1])) batch.

Definition removal_ops (s : SledStorage) (reorg_from best : Z) : res StorageError (list BatchOp) :=
  let? batch := old_block_ops s reorg_from best in
  let? batch := old_log_ops s reorg_from batch in
  let? batch := old_row_ops s (B "account:") batch in
  old_row_ops s EVM_SNAPSHOT_PREFIX batch.

(** The account rows of the new state. *)
Definition native_rows (native : Accounts) : list (list byte * list byte) :=
  concat (map (fun kv => [(balance_key kv.1, be_bytes 16 kv.2.1); (nonce_key kv.1, be_bytes 8 kv.2.2)])
    (btree_iter native)).

Definition evm_rows (evm : EvmStateSnapshot) : list (list byte * list byte) :=
  concat (map (fun kv => let '(a, (_, _, code, slots)) := kv in
    (if bool_decide (code = []) then [] else [(code_key a, code)]) ++
    map (fun sv => (storage_key a sv.1, sv.2))
      (List.filter (fun sv => negb (bool_decide (sv.2 = HASH_ZERO))) (btree_iter slots)))
    (btree_iter evm)).

Definition as_inserts (rows : list (list byte * list byte)) : list BatchOp :=
  map (fun kv => BatchInsert kv.1 kv.2) rows.

Definition marker_rows (tip : Z) (supply : Z * Z * Z) : list (list byte * list byte) :=
  [(B "state:rewards:indexed_to", be_bytes 8 tip);
   (B "state:supply:indexed_to", be_bytes 8 supply.1.1);
   (B "state:supply:total", be_bytes 16 supply.1.2);
   (B "state:supply:burned", be_bytes 16 supply.2);
   (B "best:number", be_bytes 8 tip)].

Definition publication_batch (s : SledStorage) (ancestor best tip : Z) (replacement : list Block)
    (native : Accounts) (evm : EvmStateSnapshot) (supply : Z * Z * Z) : res StorageError (list BatchOp) :=
  let? batch := removal_ops s (sat_add U64_MAX ancestor 1) best in
  let? batch := fold_left (fun acc block => let? batch := acc in insert_block_into_batch batch block)
    replacement (Ok batch) in
  let? snapshot := json_vec (snapshot_entries evm) in
  Ok (batch ++ as_inserts (native_rows native) ++ as_inserts (evm_rows evm) ++
      [BatchInsert (evm_snapshot_key tip) snapshot] ++ as_inserts (marker_rows tip supply)).

Definition ancestor_is_canonical (s : SledStorage) (ancestor best : BlockHeader) : res StorageError bool :=
  if hdr_number best <? hdr_number ancestor then Ok false
  else let? header := header_by_number s (hdr_number ancestor) in
       Ok (bool_decide (header_hash header = header_hash ancestor)).

(** The checks before anything is written: the previous manifest, the best
    header and the tip of the replacement. *)
Definition publication_check (ancestor : BlockHeader) (replacement : list Block) (target : GenerationManifest)
    (g : Generation) : res StorageError (GenerationManifest * BlockHeader * BlockHeader) :=
  let? previous := load_generation_manifest g in
  let? previous := ok_or previous (Serialization "suffix publication requires an active manifest") in
  let? best := best_header (gn_db g) in
  let? canonical := ancestor_is_canonical (gn_db g) ancestor best in
  if negb canonical then Err (Serialization "suffix publication ancestor is not canonical")
  else
    let? tip := replacement_tip ancestor replacement in
    if bool_decide (replacement = []) || negb (manifest_matches target tip)
       || negb (bool_decide (gm_replay_checkpoint target = Some (hdr_number tip)))
    then Err (Serialization "suffix publication manifest does not match replacement tip")
    else Ok (previous, best, tip).

Definition publish_canonical_suffix (ancestor : BlockHeader) (replacement : list Block)
    (native : Accounts) (evm : EvmStateSnapshot) (supply : Z * Z * Z) (target : GenerationManifest)
    : StM StorageError Generation unit :=
  do? checked := st_read (publication_check ancestor replacement target) in
  let '(previous, best, tip) := checked in
  write_suffix_publication {| sp_previous_manifest := previous; sp_target_manifest := target |} ;!
  do? batch := st_read (fun g => publication_batch (gn_db g) (hdr_number ancestor) (hdr_number best)
    (hdr_number tip) replacement native evm supply) in
  on_db (db_apply_batch batch) ;!
  on_db db_flush ;!
  sync_suffix_replay_checkpoint target ;!
  write_generation_manifest target ;!
  write_generation_publication target ;!
  clear_suffix_publication.
End publish.

(** ** Batches of removals *)

Definition is_remove (op : BatchOp) : Prop := match op with BatchRemove _ => True | BatchInsert _ _ => False end.

Lemma apply_removes (m : Contents) (ops : list BatchOp) (k : list byte) :
  Forall is_remove ops ->
  apply_ops m ops !! k = if bool_decide (k ∈ map batch_key ops) then None else m !! k.
Proof.
  intros H. revert m. induction H as [|op ops Hop _ IH]; intros m; [done|].
  change (apply_ops m (op :: ops)) with (apply_ops (apply_op m op) ops). rewrite IH.
  destruct op as [?|k']; [done|]. cbn [map batch_key apply_op].
  destruct (bool_decide_reflect (k ∈ map batch_key ops)) as [Hin|Hno].
  - rewrite bool_decide_true by (by right). done.
  - destruct (decide (k = k')) as [->|Hne].
    + rewrite bool_decide_true by (by left). apply lookup_delete_eq.
    + rewrite bool_decide_false by (intros [|]%elem_of_cons; done). by apply lookup_delete_ne.
Qed.

Lemma as_inserts_app (m : Contents) (rows : list (list byte * list byte)) :
  apply_ops m (as_inserts rows) = fold_left (fun m kv => <[kv.1 := kv.2]> m) rows m.
Proof. apply apply_ops_inserts. Qed.

Section removal.
Context {S : Sled} {HX : HexCodec} {D : Digests}.
Context {JB : Json Block} {JH : Json BlockHeader} {JT : Json Transaction} {JR : Json StoredReceipt}.

(** What a read of a represented chain returns, when it returns. *)
Lemma block_by_number_ok s c n b :
  chain_rep (contents s) c -> in_u64 n -> block_by_number s n = Ok b -> c !! Z.to_nat n = Some b.
Proof.
  intros Hc Hn (o & Ho & H)%res_bind_ok. apply db_get_ok in Ho as ->.
  apply res_bind_ok in H as (v & Hv & H). unfold block_key in Hv.
  destruct (contents s !! (B "block:number:" ++ pad20 n)) as [w|] eqn:E; [|done]. injection Hv as ->.
  destruct (nr_keys _ _ _ (cr_blocks _ _ Hc) (B "block:number:" ++ pad20 n)) as (i & Hi & Ek);
    [apply prefix_app|by eexists|].
  rewrite <- (Z2Nat.id n) in Ek by apply Hn.
  apply numbered_key_inj in Ek; [|by rewrite Z2Nat.id by apply Hn|by eapply index_u64; [apply Hc|]].
  rewrite Ek. destruct (lookup_lt_is_Some_2 c i Hi) as [a Ha]. rewrite Ha.
  destruct (nr_value _ _ _ (cr_blocks _ _ Hc) _ _ Ha) as (w & Hw & Ew).
  rewrite <- Ek, Z2Nat.id, E in Hw by apply Hn. injection Hw as <-.
  apply map_err_ok in H. rewrite (json_roundtrip _ _ Ew) in H. congruence.
Qed.

Lemma header_by_number_ok s c n h :
  chain_rep (contents s) c -> in_u64 n -> header_by_number s n = Ok h ->
  exists b, c !! Z.to_nat n = Some b /\ blk_header b = h.
Proof.
  intros Hc Hn (o & Ho & H)%res_bind_ok. apply db_get_ok in Ho as ->.
  apply res_bind_ok in H as (v & Hv & H). unfold header_key in Hv.
  destruct (contents s !! (B "header:number:" ++ pad20 n)) as [w|] eqn:E; [|done]. injection Hv as ->.
  destruct (nr_keys _ _ _ (cr_headers _ _ Hc) (B "header:number:" ++ pad20 n)) as (i & Hi & Ek);
    [apply prefix_app|by eexists|]. rewrite length_map in Hi.
  rewrite <- (Z2Nat.id n) in Ek by apply Hn.
  apply numbered_key_inj in Ek; [|by rewrite Z2Nat.id by apply Hn|by eapply index_u64; [apply Hc|]].
  rewrite Ek. destruct (lookup_lt_is_Some_2 c i Hi) as [a Ha]. exists a. split; [done|].
  assert (map blk_header c !! i = Some (blk_header a)) as Hh by (apply list_lookup_fmap_Some; eauto).
  destruct (nr_value _ _ _ (cr_headers _ _ Hc) _ _ Hh) as (w & Hw & Ew).
  rewrite <- Ek, Z2Nat.id, E in Hw by apply Hn. injection Hw as <-.
  apply map_err_ok in H. rewrite (json_roundtrip _ _ Ew) in H. congruence.
Qed.

Lemma best_header_ok s c h :
  chain_rep (contents s) c -> best_header s = Ok h ->
  exists b, last c = Some b /\ blk_header b = h /\ block_number b = Z.of_nat (length c) - 1.
Proof.
  intros Hc (n & Hn & H)%res_bind_ok. unfold get_best_number in Hn.
  apply res_bind_ok in Hn as (o & Ho & Hn). apply db_get_ok in Ho as ->. rewrite (cr_best _ _ Hc) in Hn.
  destruct (last c) as [b|] eqn:Hb; [|done]. exists b. cbn in Hn.
  apply last_Some in Hb as [l ->].
  assert (block_number b = Z.of_nat (length l)) as Hnum.
  { rewrite (cr_numbers _ _ Hc (length l) b); [lia|]. apply lookup_snoc_Some. by right. }
  assert (in_u64 (block_number b)) as Hu.
  { rewrite Hnum. apply (index_u64 (l ++ [b])); [apply Hc|]. rewrite length_app. cbn. lia. }
  rewrite u64_slice in Hn by done. injection Hn as <-.
  destruct (header_by_number_ok _ _ _ _ Hc Hu H) as (b' & Hb' & <-). rewrite Hnum, Nat2Z.id in Hb'.
  apply lookup_snoc_Some in Hb' as [[]|[_ ->]]; [lia|]. rewrite length_app. cbn. split; [done|]. split; [done|lia].
Qed.

(** The removals of a batch that could be built. *)
Definition log_height (v : list byte) : Z := be_val (take 8 v).

Definition removes (rows : list (list byte * list byte)) : list BatchOp := map (fun kv => BatchRemove kv.1) rows.

Lemma old_row_ops_ok s p batch ops :
  old_row_ops s p batch = Ok ops -> ops = batch ++ removes (prefix_entries p (contents s)).
Proof.
  intros H%read_rows_ok. revert H. generalize (prefix_entries p (contents s)) as rows.
  intros rows. revert batch. induction rows as [|kv rows IH]; intros batch; cbn [fold_left res_bind].
  - intros [= <-]. by rewrite app_nil_r.
  - intros H%IH. by rewrite H, <- app_assoc.
Qed.

Lemma old_log_ops_ok s from batch ops :
  old_log_ops s from batch = Ok ops ->
  ops = batch ++ removes (List.filter (fun kv => from <=? log_height kv.2)
    (prefix_entries (B "log:index:") (contents s))).
Proof.
  intros H%read_rows_ok. revert H. generalize (prefix_entries (B "log:index:") (contents s)) as rows.
  intros rows. revert batch. induction rows as [|kv rows IH]; intros batch H.
  - injection H as <-. by rewrite app_nil_r.
  - apply fold_res_cons_ok in H as (b1 & H1 & H). apply res_bind_ok in H1 as (n & Hn & [= <-]).
    apply IH in H as ->. unfold location_number in Hn. destruct (_ =? 16); [|done]. injection Hn as <-.
    cbn [List.filter]. unfold log_height at 2. destruct (from <=? be_val (take 8 kv.2)); [|done].
    by rewrite <- app_assoc.
Qed.

Lemma heights_lookup from to i h : heights from to !! i = Some h -> h = from + Z.of_nat i.
Proof. unfold heights. intros (j & -> & Hj)%list_lookup_fmap_Some. apply lookup_seq in Hj as [-> _]. lia. Qed.

Lemma length_heights from to : length (heights from to) = Z.to_nat (to + 1 - from).
Proof. unfold heights. by rewrite length_map, length_seq. Qed.

Lemma old_block_ops_ok s c n ops :
  chain_rep (contents s) c -> (n <= length c)%nat ->
  old_block_ops s (Z.of_nat n) (Z.of_nat (length c) - 1) = Ok ops ->
  ops = concat (map (remove_block_from_batch []) (drop n c)).
Proof.
  intros Hc Hn H. unfold old_block_ops in H.
  apply (fold_decode (block_by_number s) remove_block_from_batch) in H as (bs & Hbs & ->).
  assert (bs = drop n c) as ->.
  { apply Forall2_same_length_lookup in Hbs as [Hl Hbs]. rewrite length_heights in Hl.
    apply list_eq_same_length with (length bs); [rewrite length_drop; lia|done|].
    intros i x y Hi Hx Hy. rewrite lookup_drop in Hy.
    destruct (heights (Z.of_nat n) (Z.of_nat (length c) - 1) !! i) as [h|] eqn:Eh.
    - pose proof (Hbs _ _ _ Eh Hx) as Hb. apply heights_lookup in Eh as ->.
      eapply block_by_number_ok in Hb; [|done|].
      + replace (Z.to_nat (Z.of_nat n + Z.of_nat i)) with (n + i)%nat in Hb by lia. congruence.
      + rewrite <- Nat2Z.inj_add. eapply index_u64; [apply Hc|]. by eapply lookup_lt_Some.
    - apply lookup_ge_None in Eh. rewrite length_heights in Eh. lia. }
  assert (forall l acc, fold_left remove_block_from_batch l acc = acc ++ concat (map (remove_block_from_batch []) l)) as E.
  { induction l as [|b l IH]; intros acc; cbn; [by rewrite app_nil_r|]. rewrite IH. unfold remove_block_from_batch.
    by rewrite <- !app_assoc. }
  by rewrite E.
Qed.

Lemma removal_ops_ok s c n ops :
  chain_rep (contents s) c -> (n <= length c)%nat ->
  removal_ops s (Z.of_nat n) (Z.of_nat (length c) - 1) = Ok ops ->
  ops = concat (map (remove_block_from_batch []) (drop n c)) ++
        removes (List.filter (fun kv => Z.of_nat n <=? log_height kv.2) (prefix_entries (B "log:index:") (contents s))) ++
        removes (prefix_entries (B "account:") (contents s)) ++
        removes (prefix_entries EVM_SNAPSHOT_PREFIX (contents s)).
Proof.
  intros Hc Hn (o1 & H1 & (o2 & H2 & (o3 & H3 & H4)%res_bind_ok)%res_bind_ok)%res_bind_ok.
  eapply old_block_ops_ok in H1 as ->; [|done..]. apply old_log_ops_ok in H2 as ->.
  apply old_row_ops_ok in H3 as ->. apply old_row_ops_ok in H4 as ->. by rewrite <- !app_assoc.
Qed.

(** *** The store once the old suffix and the accounts are gone *)

Lemma removes_is_remove rows : Forall is_remove (removes rows).
Proof. apply List.Forall_forall. intros op (kv & <- & _)%in_map_iff. done. Qed.

Lemma block_removes (l : list Block) : Forall is_remove (concat (map (remove_block_from_batch []) l)).
Proof.
  apply List.Forall_forall. intros op Hop. apply in_concat in Hop as (ops & (b & <- & _)%in_map_iff & Hop).
  unfold remove_block_from_batch in Hop. rewrite app_nil_l in Hop. apply in_app_iff in Hop as [Hop|Hop].
  - by destruct Hop as [<-|[<-|[]]].
  - apply in_concat in Hop as (l2 & (t & <- & _)%in_map_iff & Hop).
    destruct (tx_external_hash t); cbn in Hop; intuition (subst; done).
Qed.

(** The keys of the block removals, by family. *)
Lemma block_removal_keys l op :
  op ∈ concat (map (remove_block_from_batch []) l) ->
  (exists b, b ∈ l /\ (batch_key op = block_key (block_number b) \/ batch_key op = header_key (block_number b))) \/
  op_below TX_PREFIXES op.
Proof.
  intros Hop%list_elem_of_In. apply in_concat in Hop as (ops & (b & <- & Hb)%in_map_iff & Hop).
  apply list_elem_of_In in Hb. unfold remove_block_from_batch in Hop. rewrite app_nil_l in Hop.
  apply in_app_iff in Hop as [Hop|Hop].
  - left. exists b. split; [done|]. by destruct Hop as [<-|[<-|[]]]; [left|right].
  - right. apply in_concat in Hop as (l2 & (t & <- & _)%in_map_iff & Hop). unfold op_below, TX_PREFIXES.
    assert (forall h, has_prefix (B "transaction:") (transaction_key h) = true) as Ht by (intros; apply prefix_app).
    assert (forall h, has_prefix (B "receipt:") (receipt_key h) = true) as Hr by (intros; apply prefix_app).
    destruct (tx_external_hash t); cbn in Hop; intuition (subst; cbn [batch_key]; auto).
Qed.

Lemma block_removal_keys_in l b :
  b ∈ l ->
  BatchRemove (block_key (block_number b)) ∈ concat (map (remove_block_from_batch []) l) /\
  BatchRemove (header_key (block_number b)) ∈ concat (map (remove_block_from_batch []) l).
Proof.
  intros Hb%list_elem_of_In. split; apply list_elem_of_In, in_concat; exists (remove_block_from_batch [] b);
    (split; [by apply in_map|]); [by left|by right; left].
Qed.

Lemma removes_key rows k : k ∈ map batch_key (removes rows) <-> exists v, (k, v) ∈ rows.
Proof.
  unfold removes. rewrite map_map, list_elem_of_In, in_map_iff. split.
  - intros ([k' v] & <- & Hin%list_elem_of_In). eauto.
  - intros (v & Hin%list_elem_of_In). exists (k, v). done.
Qed.

(** The keys the removals touch below a prefix that no other family shares. *)
Record removed_keys (m : Contents) (c : list Block) (n : nat) (keys : list (list byte)) : Prop := {
  rk_blocks : forall i, (i < length c)%nat -> block_key (Z.of_nat i) ∈ keys <-> (n <= i)%nat;
  rk_headers : forall i, (i < length c)%nat -> header_key (Z.of_nat i) ∈ keys <-> (n <= i)%nat;
  rk_logs : forall k v, has_prefix (B "log:index:") k = true -> m !! k = Some v ->
    k ∈ keys <-> Z.of_nat n <= log_height v;
  rk_accounts : forall k, has_prefix (B "account:") k = true -> is_Some (m !! k) -> k ∈ keys;
}.

(** A key of one family is not a key of another. *)
Lemma other_key (p q k : list byte) :
  has_prefix p q = false -> has_prefix q p = false -> has_prefix p k = true -> has_prefix q k = true -> False.
Proof. intros H1 H2 Hp Hq. by destruct (families_ne p q k k H1 H2 Hp Hq). Qed.

Lemma rows_key_below (p q : list byte) (rows : list (list byte * list byte)) (k : list byte) :
  has_prefix p q = false -> has_prefix q p = false -> has_prefix q k = true ->
  (forall k v, (k, v) ∈ rows -> has_prefix p k = true) -> k ∈ map batch_key (removes rows) -> False.
Proof. intros H1 H2 Hq Hr (v & Hv%Hr)%removes_key. by apply (other_key p q k). Qed.

Lemma filtered_below p f m k v : (k, v) ∈ List.filter f (prefix_entries p m) -> has_prefix p k = true.
Proof. rewrite elem_of_filter_b. intros [[_ ?]%elem_of_prefix_entries _]. done. Qed.
Lemma entries_below p m k v : (k, v) ∈ prefix_entries p m -> has_prefix p k = true.
Proof. by intros [_ ?]%elem_of_prefix_entries. Qed.

Lemma block_keys_family q k l :
  Forall (fun p => has_prefix p q = false /\ has_prefix q p = false) TX_PREFIXES -> has_prefix q k = true ->
  k ∈ map batch_key (concat (map (remove_block_from_batch []) l)) ->
  exists b, b ∈ l /\ (k = block_key (block_number b) \/ k = header_key (block_number b)).
Proof.
  intros Hq Hk Hin%list_elem_of_In. apply in_map_iff in Hin as (op & <- & Hop%list_elem_of_In).
  apply block_removal_keys in Hop as [?|Hop]; [done|]. unfold op_below in Hop.
  apply List.Exists_exists in Hop as (p & Hp & Hop). rewrite List.Forall_forall in Hq. destruct (Hq p Hp).
  destruct (other_key p q (batch_key op)); done.
Qed.

Lemma drop_numbers c n b :
  numbered_from block_number 0 c -> b ∈ drop n c <-> exists i, (n <= i)%nat /\ c !! i = Some b /\ block_number b = Z.of_nat i.
Proof.
  intros Hn. split.
  - intros [i Hi]%list_elem_of_lookup. rewrite lookup_drop in Hi. exists (n + i)%nat.
    rewrite (Hn _ _ Hi). split; [lia|]. split; [done|lia].
  - intros (i & Hi & Hb & _). apply list_elem_of_lookup. exists (i - n)%nat. rewrite lookup_drop.
    by replace (n + (i - n))%nat with i by lia.
Qed.

Lemma log_row_height b k v : (k, v) ∈ block_log_rows b -> in_u64 (block_number b) -> log_height v = block_number b.
Proof.
  intros (i & rc & j & log & _ & _ & [-> _]%log_rows_elem)%block_log_rows_elem Hn.
  pose proof (location_number_ok (block_number b) i j Hn) as H. unfold location_number in H.
  rewrite length_log_index_bytes in H. by injection H.
Qed.

(** The operations of [removal_ops_ok]. *)
Definition suffix_removals (m : Contents) (c : list Block) (n : nat) : list BatchOp :=
  concat (map (remove_block_from_batch []) (drop n c)) ++
  removes (List.filter (fun kv => Z.of_nat n <=? log_height kv.2) (prefix_entries (B "log:index:") m)) ++
  removes (prefix_entries (B "account:") m) ++
  removes (prefix_entries EVM_SNAPSHOT_PREFIX m).

Lemma suffix_removals_family m c n q k :
  Forall (fun p => has_prefix p q = false /\ has_prefix q p = false)
    (B "account:" :: EVM_SNAPSHOT_PREFIX :: B "log:index:" :: TX_PREFIXES) ->
  has_prefix q k = true -> k ∈ map batch_key (suffix_removals m c n) ->
  exists b, b ∈ drop n c /\ (k = block_key (block_number b) \/ k = header_key (block_number b)).
Proof.
  intros Hq Hk. unfold suffix_removals. rewrite !map_app, !elem_of_app.
  apply List.Forall_cons_iff in Hq as [[] Hq]. apply List.Forall_cons_iff in Hq as [[] Hq].
  apply List.Forall_cons_iff in Hq as [[] Hq].
  intros [Hin|[Hin|[Hin|Hin]]]; [by eapply block_keys_family|exfalso..].
  - eapply (rows_key_below (B "log:index:") q); eauto using filtered_below.
  - eapply (rows_key_below (B "account:") q); eauto using entries_below.
  - eapply (rows_key_below EVM_SNAPSHOT_PREFIX q); eauto using entries_below.
Qed.

(** Keeping the first elements. *)
Lemma numbered_rep_take {A} {J : Json A} (p : list byte) (m m' : Contents) (l : list A) n :
  numbered_rep p m l ->
  (forall i, (i < length l)%nat -> m' !! (p ++ pad20 (Z.of_nat i)) =
    if decide (n <= i)%nat then None else m !! (p ++ pad20 (Z.of_nat i))) ->
  (forall k, has_prefix p k = true -> is_Some (m' !! k) -> is_Some (m !! k)) ->
  numbered_rep p m' (take n l).
Proof.
  intros [Hv Hk] Hm Hsub. split.
  - intros i a Ha. apply lookup_take_Some in Ha as [Ha Hi]. rewrite Hm by (by eapply lookup_lt_Some).
    rewrite decide_False by lia. by apply Hv.
  - intros k Hp Hs. destruct (Hk k Hp (Hsub k Hp Hs)) as (i & Hi & ->). rewrite Hm in Hs by done.
    case_decide; [by destruct Hs|]. exists i. rewrite length_take. split; [lia|done].
Qed.

Lemma suffix_removals_block m c n i :
  numbered_from block_number 0 c -> list_fits c -> (i < length c)%nat ->
  (block_key (Z.of_nat i) ∈ map batch_key (suffix_removals m c n) <-> (n <= i)%nat) /\
  (header_key (Z.of_nat i) ∈ map batch_key (suffix_removals m c n) <-> (n <= i)%nat).
Proof.
  intros Hn Hf Hi. assert (forall j, (j < length c)%nat -> in_u64 (Z.of_nat j)) as Hu by (intros; by eapply index_u64).
  assert (forall b, b ∈ drop n c -> exists j, (n <= j)%nat /\ (j < length c)%nat /\ block_number b = Z.of_nat j) as Hb.
  { intros b (j & Hj & Hbj & E)%(drop_numbers c n b Hn). apply lookup_lt_Some in Hbj. eauto. }
  assert ((n <= i)%nat -> exists b, b ∈ drop n c /\ block_number b = Z.of_nat i) as Hdrop.
  { intros Hni. destruct (lookup_lt_is_Some_2 c i Hi) as [b Hbi]. exists b.
    assert (block_number b = Z.of_nat i) as E by (rewrite (Hn _ _ Hbi); lia).
    split; [|done]. apply (drop_numbers c n b Hn). eauto. }
  assert (forall op, op ∈ concat (map (remove_block_from_batch []) (drop n c)) ->
    batch_key op ∈ map batch_key (suffix_removals m c n)) as Hkey.
  { intros op Hop. unfold suffix_removals. rewrite map_app, elem_of_app. left.
    apply list_elem_of_In, in_map, list_elem_of_In. done. }
  split; split.
  - intros Hin. apply (suffix_removals_family _ _ _ (B "block:number:")) in Hin as (b & (j & Hj & Hjc & E)%Hb & [Ek|Ek]);
      [| |by repeat constructor|apply prefix_app].
    + rewrite E in Ek. apply (numbered_key_inj (B "block:number:")) in Ek; [lia|by apply Hu..].
    + by apply (families_ne (B "block:number:") (B "header:number:")) in Ek; [|done|done|apply prefix_app..].
  - intros (b & Hbd & <-)%Hdrop. apply (Hkey (BatchRemove _)). by apply block_removal_keys_in.
  - intros Hin. apply (suffix_removals_family _ _ _ (B "header:number:")) in Hin as (b & (j & Hj & Hjc & E)%Hb & [Ek|Ek]);
      [| |by repeat constructor|apply prefix_app].
    + by apply (families_ne (B "header:number:") (B "block:number:")) in Ek; [|done|done|apply prefix_app..].
    + rewrite E in Ek. apply (numbered_key_inj (B "header:number:")) in Ek; [lia|by apply Hu..].
  - intros (b & Hbd & <-)%Hdrop. apply (Hkey (BatchRemove _)). by apply block_removal_keys_in.
Qed.

Lemma suffix_removals_log m c n k v :
  has_prefix (B "log:index:") k = true -> m !! k = Some v ->
  k ∈ map batch_key (suffix_removals m c n) <-> Z.of_nat n <= log_height v.
Proof.
  intros Hk Hv. unfold suffix_removals. rewrite !map_app, !elem_of_app. split.
  - intros [Hin|[Hin|[Hin|Hin]]].
    + apply (block_keys_family (B "log:index:")) in Hin as (b & _ & [->| ->]); [exfalso..|by repeat constructor|done].
      * apply (other_key (B "block:number:") (B "log:index:") (block_key (block_number b))); [done..|apply prefix_app|done].
      * apply (other_key (B "header:number:") (B "log:index:") (header_key (block_number b))); [done..|apply prefix_app|done].
    + apply removes_key in Hin as (w & [[Hw _]%elem_of_prefix_entries Hle]%elem_of_filter_b). cbn in Hle.
      rewrite Hv in Hw. injection Hw as <-. lia.
    + exfalso. eapply (rows_key_below (B "account:") (B "log:index:")); eauto using entries_below.
    + exfalso. eapply (rows_key_below EVM_SNAPSHOT_PREFIX (B "log:index:")); eauto using entries_below.
  - intros Hle. right. left. apply removes_key. exists v. apply elem_of_filter_b.
    split; [by apply elem_of_prefix_entries|]. cbn. lia.
Qed.

Lemma suffix_removals_account m c n k :
  has_prefix (B "account:") k = true -> is_Some (m !! k) -> k ∈ map batch_key (suffix_removals m c n).
Proof.
  intros Hk [v Hv]. unfold suffix_removals. rewrite !map_app, !elem_of_app. right. right. left.
  apply removes_key. exists v. by apply elem_of_prefix_entries.
Qed.

(** The rows of the shortened chain, and no account row. *)
Lemma suffix_removed m c n :
  chain_rows m c -> (n <= length c)%nat ->
  chain_rows (apply_ops m (suffix_removals m c n)) (take n c) /\
  account_rep (apply_ops m (suffix_removals m c n)) ∅.
Proof.
  intros Hc Hn. assert (Forall is_remove (suffix_removals m c n)) as Hrm.
  { unfold suffix_removals. rewrite !Forall_app. auto using block_removes, removes_is_remove. }
  assert (forall k, apply_ops m (suffix_removals m c n) !! k =
    if bool_decide (k ∈ map batch_key (suffix_removals m c n)) then None else m !! k) as Hm.
  { intros k. by apply apply_removes. }
  assert (forall k, is_Some (apply_ops m (suffix_removals m c n) !! k) -> is_Some (m !! k)) as Hsub.
  { intros k. rewrite Hm. case_bool_decide; [by intros [? [=]]|done]. }
  pose proof (fun i => suffix_removals_block m c n i (cr_numbers _ _ Hc) (cr_fits _ _ Hc)) as Hblk.
  split; split.
  - intros i b Hb. apply lookup_take_Some in Hb as [Hb _]. by apply (cr_numbers _ _ Hc).
  - pose proof (cr_fits _ _ Hc) as Hf. unfold list_fits in *. rewrite length_take. lia.
  - apply (numbered_rep_take _ m _ _ n (cr_blocks _ _ Hc)); [|by auto].
    intros i Hi. fold (block_key (Z.of_nat i)). rewrite Hm. destruct (Hblk i Hi) as [E _].
    case_decide; case_bool_decide; tauto.
  - rewrite <- firstn_map. apply (numbered_rep_take _ m _ _ n (cr_headers _ _ Hc)); [|by auto].
    intros i Hi. rewrite length_map in Hi. fold (header_key (Z.of_nat i)). rewrite Hm. destruct (Hblk i Hi) as [_ E].
    case_decide; case_bool_decide; tauto.
  - intros k v Hk. rewrite Hm.
    assert (forall b, b ∈ take n c <-> b ∈ c /\ block_number b < Z.of_nat n) as Htake.
    { intros b. split.
      - intros [i Hi]%list_elem_of_lookup. apply lookup_take_Some in Hi as [Hi Hlt].
        split; [by eapply list_elem_of_lookup_2|]. rewrite (cr_numbers _ _ Hc _ _ Hi). lia.
      - intros [[i Hi]%list_elem_of_lookup Hlt]. rewrite (cr_numbers _ _ Hc _ _ Hi) in Hlt.
        apply list_elem_of_lookup. exists i. apply lookup_take_Some. split; [done|lia]. }
    assert (forall b, b ∈ c -> in_u64 (block_number b)) as Hu.
    { intros b Hb. eapply block_number_u64; [apply Hc|apply Hc|done]. }
    setoid_rewrite Htake. split.
    + intros Hv. case_bool_decide as Hin; [done|]. pose proof Hv as (b & Hb & Hrow)%(cr_logs _ _ Hc _ _ Hk).
      exists b. split; [|done]. split; [done|]. rewrite <- (log_row_height b k v Hrow (Hu b Hb)).
      rewrite (suffix_removals_log _ _ n _ _ Hk Hv) in Hin. lia.
    + intros (b & [Hb Hlt] & Hrow). assert (m !! k = Some v) as Hv by (apply (cr_logs _ _ Hc _ _ Hk); eauto).
      rewrite bool_decide_false; [done|]. rewrite (suffix_removals_log _ _ n _ _ Hk Hv).
      rewrite (log_row_height b k v Hrow (Hu b Hb)). lia.
  - intros q Hq. rewrite Hm. destruct (m !! acct_key q) as [v|] eqn:E.
    + rewrite bool_decide_true; [by destruct q|]. apply suffix_removals_account; [apply acct_key_prefix|by eexists].
    + case_bool_decide; by destruct q.
  - intros k Hk Hs. rewrite Hm in Hs. pose proof (Hsub k) as Hs'. rewrite Hm in Hs'. specialize (Hs' Hs).
    rewrite bool_decide_true in Hs by (by apply suffix_removals_account). by destruct Hs.
  - apply map_Forall_empty.
Qed.
End removal.

(** ** The account rows of the new state *)

Section accounts.
Context {HX : HexCodec}.

(** Zero slots are not stored. *)
Definition stored_evm (evm : EvmStateSnapshot) : EvmStateSnapshot :=
  (fun x : EvmAccountSnapshot => (x.1, nonzero_slots x.2)) <$> evm.

Lemma native_rows_elem evm k v :
  (k, v) ∈ native_rows (native_of evm) <->
  exists a (x : EvmAccountSnapshot), evm !! a = Some x /\
    (k = balance_key a /\ v = be_bytes 16 x.1.1.1 \/ k = nonce_key a /\ v = be_bytes 8 x.1.1.2).
Proof.
  unfold native_rows. rewrite list_elem_of_In, in_concat. split.
  - intros (l & ([a [b n]] & <- & Hin%list_elem_of_In)%in_map_iff & Hl).
    apply elem_of_btree_iter in Hin. unfold native_of in Hin.
    apply lookup_fmap_Some in Hin as (x & [= <- <-] & Hx). exists a, x. split; [done|].
    destruct Hl as [[= <- <-]|[[= <- <-]|[]]]; auto.
  - intros (a & x & Hx & Hkv). eexists. split.
    + apply in_map_iff. exists (a, (x.1.1.1, x.1.1.2)). split; [reflexivity|].
      apply list_elem_of_In, elem_of_btree_iter. unfold native_of. by rewrite lookup_fmap, Hx.
    + destruct Hkv as [[-> ->]|[-> ->]]; [by left|by right; left].
Qed.

Lemma evm_rows_elem evm k v :
  (k, v) ∈ evm_rows evm <->
  exists a (x : EvmAccountSnapshot), evm !! a = Some x /\
    (k = code_key a /\ v = x.1.2 /\ x.1.2 <> [] \/
     exists slot, x.2 !! slot = Some v /\ v <> HASH_ZERO /\ k = storage_key a slot).
Proof.
  unfold evm_rows. rewrite list_elem_of_In, in_concat. split.
  - intros (l & ([a [[[b n] c] st]] & <- & Hin%list_elem_of_In)%in_map_iff & Hl).
    apply elem_of_btree_iter in Hin. exists a, (b, n, c, st). split; [done|].
    apply in_app_iff in Hl as [Hl|Hl].
    + case_bool_decide; [done|]. destruct Hl as [[= <- <-]|[]]. auto.
    + right. apply in_map_iff in Hl as ([slot w] & [= <- <-] & Hw%list_elem_of_In).
      apply elem_of_filter_b in Hw as [Hw Hz]. apply elem_of_btree_iter in Hw.
      exists slot. cbn in *. split; [done|]. split; [|done]. by case_bool_decide.
  - intros (a & [[[b n] c] st] & Hx & Hkv). eexists. split.
    + apply in_map_iff. exists (a, (b, n, c, st)). split; [reflexivity|].
      by apply list_elem_of_In, elem_of_btree_iter.
    + apply in_app_iff. destruct Hkv as [(-> & -> & Hc)|(slot & Hs & Hz & ->)].
      * left. rewrite bool_decide_false by done. by left.
      * right. apply in_map_iff. exists (slot, v). split; [done|]. apply list_elem_of_In, elem_of_filter_b.
        split; [by apply elem_of_btree_iter|]. cbn. by rewrite bool_decide_false.
Qed.

Definition account_rows (evm : EvmStateSnapshot) : list (list byte * list byte) :=
  native_rows (native_of evm) ++ evm_rows evm.

(** The rows are those of the stored accounts. *)
Lemma account_rows_elem evm k v :
  wf_evm_accounts evm ->
  (k, v) ∈ account_rows evm <->
  exists q, wf_acct_key q /\ k = acct_key q /\ acct_value (stored_evm evm) q = Some v.
Proof.
  intros Hwf. unfold account_rows. rewrite elem_of_app, native_rows_elem, evm_rows_elem.
  assert (forall a x, evm !! a = Some x -> stored_evm evm !! a = Some (x.1, nonzero_slots x.2)) as Hs.
  { intros a x Hx. unfold stored_evm. by rewrite lookup_fmap, Hx. }
  assert (forall a y, stored_evm evm !! a = Some y -> exists x, evm !! a = Some x /\ y = (x.1, nonzero_slots x.2)) as Hs'.
  { unfold stored_evm. intros a y (x & <- & Hx)%lookup_fmap_Some. eauto. }
  split.
  - intros [(a & x & Hx & [[-> ->]|[-> ->]])|(a & x & Hx & [(-> & -> & Hc)|(slot & Hsl & Hz & ->)])];
      destruct (Hwf _ _ Hx) as [Ha (Hb & Hn & Hst)].
    + exists (KBalance a). cbn. by rewrite (Hs _ _ Hx).
    + exists (KNonce a). cbn. by rewrite (Hs _ _ Hx).
    + exists (KCode a). cbn. rewrite (Hs _ _ Hx). cbn. by rewrite bool_decide_false.
    + exists (KSlot a slot). cbn. rewrite (Hs _ _ Hx). cbn. destruct (Hst _ _ Hsl).
      split; [done|]. split; [done|]. unfold nonzero_slots. by apply map_lookup_filter_Some.
  - intros (q & Hq & -> & Hv). destruct q as [a|a|a|a slot]; cbn in Hv.
    + apply fmap_Some in Hv as (y & (x & Hx & ->)%Hs' & ->). left. exists a, x. auto.
    + apply fmap_Some in Hv as (y & (x & Hx & ->)%Hs' & ->). left. exists a, x. auto.
    + apply bind_Some in Hv as (y & (x & Hx & ->)%Hs' & Hv). cbn in Hv. case_bool_decide; [done|].
      injection Hv as <-. right. exists a, x. auto.
    + apply bind_Some in Hv as (y & (x & Hx & ->)%Hs' & Hv). cbn in Hv.
      apply map_lookup_filter_Some in Hv as [Hsl Hz]. right. exists a, x. split; [done|]. right. eauto.
Qed.

(** Writing the rows where there was no account row. *)
Lemma account_rows_rep (m : Contents) evm :
  account_rep m ∅ -> wf_evm_accounts evm ->
  account_rep (apply_ops m (as_inserts (account_rows evm))) (stored_evm evm).
Proof.
  intros Hm Hwf. rewrite as_inserts_app.
  assert (forall q, wf_acct_key q -> m !! acct_key q = None) as Hnone.
  { intros q Hq. rewrite (rep_value _ _ Hm q Hq). by destruct q. }
  assert (forall q v, wf_acct_key q -> (acct_key q, v) ∈ account_rows evm <-> acct_value (stored_evm evm) q = Some v) as Hin.
  { intros q v Hq. rewrite account_rows_elem by done. split; [|eauto].
    intros (q' & Hq' & E & Hv). apply acct_key_inj in E; [|done..]. by subst q'. }
  split.
  - intros q Hq. destruct (fold_insert_lookup (account_rows evm) m (acct_key q)) as [F1 F2].
    { intros v v' Hv Hv'. rewrite Hin in Hv, Hv' by done. congruence. }
    destruct (acct_value (stored_evm evm) q) as [v|] eqn:E.
    + apply F1. by apply Hin.
    + rewrite F2; [by apply Hnone|]. intros v Hv. rewrite Hin in Hv by done. congruence.
  - intros k Hk Hs. destruct (decide (Exists (fun kv => kv.1 = k) (account_rows evm))) as [Hex|Hno].
    + apply List.Exists_exists in Hex as ([k' v] & Hv%list_elem_of_In & E). cbn in E. subst k'.
      apply account_rows_elem in Hv as (q & Hq & -> & _); eauto.
    + apply (rep_keys _ _ Hm k Hk). destruct Hs as [v Hv].
      destruct (fold_insert_lookup (account_rows evm) m k) as [_ F2].
      { intros v1 v2 Hv1. destruct Hno. apply List.Exists_exists. exists (k, v1). split; [by apply list_elem_of_In|done]. }
      rewrite F2 in Hv; [by eexists|]. intros w Hw. apply Hno, List.Exists_exists. exists (k, w).
      split; [by apply list_elem_of_In|done].
  - intros a y. unfold stored_evm. intros (x & <- & Hx)%lookup_fmap_Some. destruct (Hwf _ _ Hx) as [Ha (Hb & Hn & Hst)].
    split; [done|]. split; [done|]. split; [done|]. cbn. unfold nonzero_slots.
    intros slot v Hv. apply map_lookup_filter_Some in Hv as [Hv _]. by apply Hst.
Qed.
End accounts.

(** ** What the batch does *)

Section batch.
Context {S : Sled} {HX : HexCodec} {D : Digests}.
Context {JB : Json Block} {JH : Json BlockHeader} {JT : Json Transaction} {JR : Json StoredReceipt}.
Context {JE : Json (list SerializedEvmSnapshotEntry)}.

Lemma block_batch_written m batch b ops :
  insert_block_into_batch batch b = Ok ops ->
  exists bv hv tx, to_vec b = Ok bv /\ to_vec (blk_header b) = Ok hv /\
    transaction_ops b (enumerate (blk_transactions b)) = Ok tx /\
    apply_ops m ops = block_written (apply_ops m batch) b bv hv tx.
Proof.
  rewrite insert_block_batch_ops.
  intros (bv & Hb & (hv & Hh & (tx & Htx & [= <-])%res_bind_ok)%res_bind_ok)%res_bind_ok.
  exists bv, hv, tx. apply map_err_ok in Hb as Hb', Hh as Hh'. do 3 (split; [done|]).
  rewrite apply_ops_app. unfold block_written. generalize (apply_ops m batch) as m1. intros m1.
  rewrite <- apply_ops_app. set (rows := tx ++ _).
  change (apply_ops (<[header_key (hdr_number (blk_header b)) := hv]>
    (<[block_key (hdr_number (blk_header b)) := bv]> m1)) rows = <[header_key (hdr_number (blk_header b)) := hv]>
    (apply_ops (<[block_key (hdr_number (blk_header b)) := bv]> m1) rows)).
  apply apply_ops_insert_comm. eapply (body_ops_ne _ _ _ (B "header:number:")); [done| |apply prefix_app].
  by repeat constructor.
Qed.

Lemma account_rep_block m b bv hv its tx accts :
  transaction_ops b its = Ok tx -> account_rep m accts -> account_rep (block_written m b bv hv tx) accts.
Proof.
  intros Htx Hm. destruct (block_written_families m b bv hv its tx Htx) as (_ & _ & _ & Hk).
  assert (forall k, has_prefix (B "account:") k = true -> block_written m b bv hv tx !! k = m !! k) as Ha.
  { intros k. apply Hk. by repeat constructor. }
  split.
  - intros q Hq. rewrite Ha by apply acct_key_prefix. by apply Hm.
  - intros k Hp Hs. rewrite Ha in Hs by done. by apply Hm.
  - apply Hm.
Qed.

(** Inserting the replacement after the removals. *)
Lemma replacement_rows m c batch replacement ops :
  chain_rows (apply_ops m batch) c -> account_rep (apply_ops m batch) ∅ ->
  numbered_from block_number 0 (c ++ replacement) -> list_fits (c ++ replacement) ->
  fold_left (fun acc block => let? batch := acc in insert_block_into_batch batch block) replacement (Ok batch) = Ok ops ->
  chain_rows (apply_ops m ops) (c ++ replacement) /\ account_rep (apply_ops m ops) ∅.
Proof.
  revert c batch. induction replacement as [|b replacement IH]; intros c batch Hc Ha Hn Hf H.
  - injection H as <-. by rewrite app_nil_r.
  - apply fold_res_cons_ok in H as (batch1 & H1 & H).
    apply (block_batch_written m) in H1 as (bv & hv & tx & Hb & Hh & Htx & E).
    replace (c ++ b :: replacement) with ((c ++ [b]) ++ replacement) in * by (by rewrite <- app_assoc).
    apply (IH _ batch1); [| |done..]; rewrite E.
    + eapply chain_rows_snoc; [done| | |done..].
      * rewrite (Hn (length c) b); [lia|]. rewrite lookup_app_l by (rewrite length_app; cbn; lia).
        apply lookup_snoc_Some. by right.
      * revert Hf. unfold list_fits. rewrite !length_app. lia.
    + by eapply account_rep_block.
Qed.

Lemma account_rep_other m accts m' :
  account_rep m accts -> (forall k, has_prefix (B "account:") k = true -> m' !! k = m !! k) -> account_rep m' accts.
Proof.
  intros Hm Ha. split.
  - intros q Hq. rewrite Ha by apply acct_key_prefix. by apply Hm.
  - intros k Hp Hs. rewrite Ha in Hs by done. by apply Hm.
  - apply Hm.
Qed.

Lemma as_inserts_below p rows :
  (forall k v, (k, v) ∈ rows -> has_prefix p k = true) -> Forall (op_below [p]) (as_inserts rows).
Proof.
  intros H. apply List.Forall_forall. intros op ([k v] & <- & Hin%list_elem_of_In)%in_map_iff. left. by eapply H.
Qed.

Lemma account_rows_below evm k v : wf_evm_accounts evm -> (k, v) ∈ account_rows evm -> has_prefix (B "account:") k = true.
Proof. intros Hwf (q & _ & -> & _)%account_rows_elem; [apply acct_key_prefix|done]. Qed.

Lemma marker_rows_below tip supply :
  Forall (op_below [B "state:"; B "best:number"]) (as_inserts (marker_rows tip supply)).
Proof.
  repeat (apply List.Forall_cons; [first [by left|by right; left]|]). apply List.Forall_nil.
Qed.

Lemma publication_batch_ok s c i best tip replacement evm supply batch :
  chain_rep (contents s) c -> (i < length c)%nat -> best = Z.of_nat (length c) - 1 ->
  numbered_from block_number 0 (take (1 + i) c ++ replacement) -> list_fits (take (1 + i) c ++ replacement) ->
  wf_evm_accounts evm -> Some tip = block_number <$> last (take (1 + i) c ++ replacement) ->
  publication_batch s (Z.of_nat i) best tip replacement (native_of evm) evm supply = Ok batch ->
  chain_rep (apply_ops (contents s) batch) (take (1 + i) c ++ replacement) /\
  account_rep (apply_ops (contents s) batch) (stored_evm evm).
Proof.
  intros Hc Hi -> Hn Hf Hwf Htip (rm & Hrm & (ins & Hins & (snap & Hsnap & [= <-])%res_bind_ok)%res_bind_ok)%res_bind_ok.
  assert (sat_add U64_MAX (Z.of_nat i) 1 = Z.of_nat (1 + i)) as E.
  { pose proof (cr_fits _ _ Hc) as Hfc. unfold list_fits in Hfc. rewrite sat_add_exact; lia. }
  rewrite E in Hrm. apply (removal_ops_ok _ c) in Hrm; [|done|lia]. fold (suffix_removals (contents s) c (1 + i)) in Hrm.
  destruct (suffix_removed (contents s) c (1 + i) (cr_rows _ _ Hc)) as [Hc1 Ha1]; [lia|]. rewrite <- Hrm in Hc1, Ha1.
  destruct (replacement_rows (contents s) _ rm replacement ins Hc1 Ha1 Hn Hf Hins) as [Hc2 Ha2].
  set (tail := BatchInsert (evm_snapshot_key tip) snap :: as_inserts (marker_rows tip supply)).
  replace (ins ++ as_inserts (native_rows (native_of evm)) ++ as_inserts (evm_rows evm) ++
    [BatchInsert (evm_snapshot_key tip) snap] ++ as_inserts (marker_rows tip supply)) with
    (ins ++ as_inserts (account_rows evm) ++ tail)
    by (unfold account_rows, as_inserts; by rewrite map_app, <- !app_assoc).
  rewrite !apply_ops_app. set (m2 := apply_ops (contents s) ins) in *.
  assert (Forall (op_below [B "state:"; B "best:number"]) tail) as Htail.
  { apply List.Forall_cons; [|apply marker_rows_below]. left.
    apply (prefix_app (B "state:") (B "evm:snapshot:" ++ pad20 tip)). }
  assert (forall q k, has_prefix q k = true ->
    Forall (fun p => has_prefix p q = false /\ has_prefix q p = false) [B "account:"; B "state:"; B "best:number"] ->
    apply_ops (apply_ops m2 (as_inserts (account_rows evm))) tail !! k = m2 !! k) as Hother.
  { intros q k Hk Hq. apply List.Forall_cons_iff in Hq as [Hq1 Hq].
    rewrite (ops_below_other _ _ _ q _ Htail Hq Hk).
    eapply (ops_below_other [B "account:"] _ _ q); [|by constructor; [|constructor]|done].
    apply as_inserts_below. intros k' v'. by apply account_rows_below. }
  split; [split|].
  - apply (chain_rows_other m2); [done|]. intros p k Hp Hk. rewrite !elem_of_cons in Hp.
    destruct Hp as [->|[->|[->|[]%not_elem_of_nil]]]; (eapply Hother; [exact Hk|by repeat constructor]).
  - destruct (last (take (1 + i) c ++ replacement)) as [b|]; [|done]. cbn in Htip. injection Htip as ->.
    apply lookup_insert_eq.
  - eapply account_rep_other; [by apply account_rows_rep|]. intros k Hk.
    apply (ops_below_other _ _ _ (B "account:") _ Htail); [by repeat constructor|done].
Qed.
End batch.

(** ** Publication and recovery *)

Section publication.
Context {S : Sled} {HX : HexCodec} {D : Digests}.
Context {JB : Json Block} {JH : Json BlockHeader} {JT : Json Transaction} {JR : Json StoredReceipt}.
Context {JE : Json (list SerializedEvmSnapshotEntry)}.
Context {JM : Json GenerationManifest} {JC : Json ReplayCheckpoint}.
Context {JP : Json GenerationPublicationRecord} {JS : Json SuffixPublicationRecord} {CM : CompactManifest}.

(** Where a publication that starts in [g] may stop. *)
Inductive publication_stop (g : Generation) (previous target : GenerationManifest) (batch : list BatchOp)
    : res StorageError unit -> Generation -> Prop :=
| StopUntouched r g' : is_ok r = false -> contents (gn_db g') = contents (gn_db g) -> gn_files g' = gn_files g ->
    publication_stop g previous target batch r g'
| StopJournal r g' jb : is_ok r = false -> to_vec {| sp_previous_manifest := previous; sp_target_manifest := target |} = Ok jb ->
    contents (gn_db g') = contents (gn_db g) -> gn_files g' = set_file (gn_files g) SuffixFile (Some jb) ->
    publication_stop g previous target batch r g'
| StopApplied r g' jb : is_ok r = false -> to_vec {| sp_previous_manifest := previous; sp_target_manifest := target |} = Ok jb ->
    contents (gn_db g') = apply_ops (contents (gn_db g)) batch -> gn_files g' SuffixFile = Some jb ->
    publication_stop g previous target batch r g'
| StopDone g' : contents (gn_db g') = apply_ops (contents (gn_db g)) batch ->
    gn_files g' SuffixFile = None -> files_name target (gn_files g') ->
    publication_stop g previous target batch (Ok tt) g'.

Lemma publish_stops {IO : FileIo} ancestor replacement native evm supply target g r g' :
  publish_canonical_suffix ancestor replacement native evm supply target g = (r, g') ->
  (is_ok r = false /\ g' = g) \/
  exists previous best tip, publication_check ancestor replacement target g = Ok (previous, best, tip) /\
    ((is_ok r = false /\ gn_db g' = gn_db g /\
       (gn_files g' = gn_files g \/
        exists jb, to_vec {| sp_previous_manifest := previous; sp_target_manifest := target |} = Ok jb /\
          gn_files g' = set_file (gn_files g) SuffixFile (Some jb))) \/
     exists batch,
       publication_batch (gn_db g) (hdr_number ancestor) (hdr_number best) (hdr_number tip) replacement native evm supply = Ok batch /\
       publication_stop g previous target batch r g').
Proof.
  unfold publish_canonical_suffix.
  intros [([[previous best] tip] & g0 & [Hchk ->]%st_read_ok & H)|(Hr & r0 & H & _)]%st_bind_run;
    [|left; split; [done|]; unfold st_read in H; by injection H as _ <-].
  right. exists previous, best, tip. split; [done|].
  apply st_bind_run in H as [([] & g1 & H1 & H)|(Hr & r0 & H1 & Hr0)]; apply write_file_run in H1 as [[E1 ->]|(E1 & jb & Hjb & ->)];
    try done; [|by left; auto|by subst].
  apply map_err_ok in Hjb.
  apply st_bind_run in H as [(batch & g2 & [Hb ->]%st_read_ok & H)|(Hr & r0 & H2 & _)].
  2: { left. split; [done|]. unfold st_read in H2. injection H2 as _ <-. split; [done|]. right. eauto. }
  right. exists batch. split; [done|].
  apply st_bind_run in H as [([] & g3 & [H3 F3]%on_db_run & H)|(Hr & r0 & [H3 F3]%on_db_run & Hr0)].
  2: { apply db_apply_batch_atomic in H3 as [(u & -> & _)|(e & _ & H3)]; [done|]. by eapply StopJournal. }
  apply db_apply_batch_ok in H3.
  apply st_bind_run in H as [([] & g4 & [H4 F4]%on_db_run & H)|(Hr & r0 & [H4 F4]%on_db_run & Hr0)];
    apply db_flush_contents in H4.
  2: { eapply StopApplied; [done|done|by rewrite H4|]. rewrite F4, F3. apply set_file_eq. }
  assert (exists height, gm_replay_checkpoint target = Some height) as [height Hh].
  { clear -Hchk. unfold publication_check in Hchk. apply res_bind_ok in Hchk as (? & _ & (? & _ & (? & _ & (? & _ & Hchk)%res_bind_ok)%res_bind_ok)%res_bind_ok).
    destruct (negb _); [done|]. apply res_bind_ok in Hchk as (tip' & _ & Hchk).
    destruct (bool_decide_reflect (gm_replay_checkpoint target = Some (hdr_number tip'))); [eauto|].
    by rewrite orb_true_r in Hchk. }
  change (install_manifest target g4 = (r, g')) in H.
  destruct (install_manifest_run _ _ _ _ _ Hh H) as [Hdb [[Hr Hs]|(-> & Hs & Hf)]].
  - eapply StopApplied; [done|done|by rewrite Hdb, H4|]. rewrite Hs, F4, F3. apply set_file_eq.
  - eapply StopDone; [by rewrite Hdb, H4|done|done].
Qed.

(** *** The checks before publication *)

Lemma replacement_tip_ok parent replacement tip :
  replacement_tip parent replacement = Ok tip ->
  0 <= hdr_number parent -> hdr_number parent + Z.of_nat (length replacement) <= U64_MAX ->
  numbered_from block_number (hdr_number parent + 1) replacement /\
  forall b, last replacement = Some b -> tip = blk_header b.
Proof.
  revert parent. induction replacement as [|b replacement IH]; intros parent H Hp Hf.
  - split; [|done]. intros i b Hb. by rewrite lookup_nil in Hb.
  - cbn [replacement_tip] in H. destruct (negb _ || negb _) eqn:E; [done|]. apply orb_false_iff in E as [E _].
    apply negb_false_iff, Z.eqb_eq in E. cbn [length] in Hf. rewrite sat_add_exact in E by lia.
    pose proof H as [Hn Ht]%IH; [|lia..]. rewrite E in Hn. split.
    + intros [|i] x Hx; [injection Hx as <-; unfold block_number; lia|]. rewrite (Hn i x Hx). lia.
    + intros x. destruct replacement as [|b2 l]; [|by apply Ht]. cbn [last]. intros [= <-].
      cbn [replacement_tip] in H. by injection H.
Qed.

(** What the checks establish. *)
Record publishes (g : Generation) (c : list Block) (ancestor : BlockHeader) (replacement : list Block)
    (target previous : GenerationManifest) (best tip : BlockHeader) : Prop := {
  pb_previous : exists bytes, gn_files g ManifestFile = Some bytes /\ from_slice bytes = Ok previous;
  pb_ancestor : (Z.to_nat (hdr_number ancestor) < length c)%nat;
  pb_best : hdr_number best = Z.of_nat (length c) - 1;
  pb_numbers : numbered_from block_number 0 (take (1 + Z.to_nat (hdr_number ancestor)) c ++ replacement);
  pb_tip : exists b, last (take (1 + Z.to_nat (hdr_number ancestor)) c ++ replacement) = Some b /\ tip = blk_header b;
  pb_target : manifest_matches target tip = true;
  pb_checkpoint : gm_replay_checkpoint target = Some (hdr_number tip);
}.

Lemma publication_check_ok {IO : FileIo} g c ancestor replacement target previous best tip :
  chain_rep (contents (gn_db g)) c -> in_u64 (hdr_number ancestor) ->
  Z.of_nat (length c + length replacement) <= U64_MAX ->
  publication_check ancestor replacement target g = Ok (previous, best, tip) ->
  publishes g c ancestor replacement target previous best tip.
Proof.
  intros Hc Ha Hf H. unfold publication_check in H.
  apply res_bind_ok in H as (o & Ho & (prev & Hprev & (bst & Hb & (can & Hcan & H)%res_bind_ok)%res_bind_ok)%res_bind_ok).
  destruct (best_header_ok _ _ _ Hc Hb) as (bb & Hlast & Ebb & Hnb).
  destruct can; [|done]. cbn [negb] in H. apply res_bind_ok in H as (t & Ht & H).
  destruct (bool_decide_reflect (replacement = [])) as [|Hne]; [done|]. cbn [orb] in H.
  destruct (manifest_matches target t) eqn:Em; [|done]. cbn [negb orb] in H.
  destruct (bool_decide_reflect (gm_replay_checkpoint target = Some (hdr_number t))) as [Ecp|]; [|done]. cbn [negb] in H.
  injection H as <- <- <-.
  assert ((Z.to_nat (hdr_number ancestor) < length c)%nat) as Hi.
  { unfold ancestor_is_canonical in Hcan. destruct (Z.ltb_spec (hdr_number bst) (hdr_number ancestor)); [done|].
    unfold block_number in Hnb. rewrite Ebb in Hnb. destruct c; [done|]. cbn [length] in *. lia. }
  set (i := Z.to_nat (hdr_number ancestor)) in *.
  assert (hdr_number ancestor = Z.of_nat i) as Ei by (unfold i; rewrite Z2Nat.id; [done|apply Ha]).
  destruct (replacement_tip_ok _ _ _ Ht) as [Hn Htip]; [apply Ha|lia|].
  split; try done.
  - unfold load_generation_manifest, load_file in Ho. destruct (gn_files g ManifestFile) as [bytes|]; [|by injection Ho as <-].
    destruct (read_error _ _); [done|]. apply res_bind_ok in Ho as (m & Hm & [= <-]). apply map_err_ok in Hm.
    injection Hprev as ->. eauto.
  - rewrite <- Ebb. exact Hnb.
  - fold i. rewrite Ei in Hn. intros j b Hj. destruct (decide (j < 1 + i)%nat) as [Hlt|Hge].
    + rewrite lookup_app_l in Hj by (rewrite length_take; lia). apply lookup_take_Some in Hj as [Hj _].
      by apply (cr_numbers _ _ Hc).
    + rewrite lookup_app_r in Hj by (rewrite length_take; lia). rewrite length_take in Hj.
      rewrite (Hn _ _ Hj). lia.
  - destruct (last replacement) as [b|] eqn:Hl; [|by apply last_None in Hl].
    exists b. rewrite last_app, Hl. split; [done|]. by apply Htip.
Qed.

(** The batch installs the replacement and its accounts. *)
Lemma batch_installs g c ancestor replacement evm supply target previous best tip batch :
  chain_rep (contents (gn_db g)) c -> wf_evm_accounts evm -> in_u64 (hdr_number ancestor) ->
  Z.of_nat (length c + length replacement) <= U64_MAX ->
  publishes g c ancestor replacement target previous best tip ->
  publication_batch (gn_db g) (hdr_number ancestor) (hdr_number best) (hdr_number tip) replacement (native_of evm) evm supply = Ok batch ->
  chain_rep (apply_ops (contents (gn_db g)) batch) (take (1 + Z.to_nat (hdr_number ancestor)) c ++ replacement) /\
  account_rep (apply_ops (contents (gn_db g)) batch) (stored_evm evm).
Proof.
  intros Hc Hwf Hanc Hfit Hpb Hbatch. destruct (pb_tip _ _ _ _ _ _ _ _ Hpb) as (b & Hb & ->).
  rewrite <- (Z2Nat.id (hdr_number ancestor)) in Hbatch by apply Hanc.
  eapply publication_batch_ok; [done|by apply Hpb|by apply Hpb|by apply Hpb| |done| |done].
  - unfold list_fits. rewrite length_app, length_take. lia.
  - by rewrite Hb.
Qed.

(** *** Recovery with a journal, reads that succeed and files that do not fail *)

Context {HR : SledReadable}.

Lemma best_of_chain s c b :
  chain_rep (contents s) c -> last c = Some b ->
  best_header s = Ok (blk_header b) /\ header_by_number s (hdr_number (blk_header b)) = Ok (blk_header b).
Proof.
  intros Hc Hb. rewrite (best_header_rep _ _ Hc), Hb. split; [done|].
  destruct (get_best_rep s c b Hc Hb) as [_ Hu]. fold (block_number b).
  rewrite (proj1 (header_by_number_rep s c _ Hc Hu)). apply last_Some in Hb as [l ->].
  rewrite (cr_numbers _ _ Hc (length l) b) by (apply lookup_snoc_Some; by right).
  replace (Z.to_nat (0 + Z.of_nat (length l))) with (length l) by lia.
  replace ((l ++ [b]) !! length l) with (Some b); [done|]. symmetry. apply lookup_snoc_Some. by right.
Qed.

Lemma recover_installs {IO : FileIo} {RF : FilesReliable} g c b jb previous target :
  chain_rep (contents (gn_db g)) c -> last c = Some b -> gn_files g SuffixFile = Some jb ->
  to_vec {| sp_previous_manifest := previous; sp_target_manifest := target |} = Ok jb ->
  manifest_matches target (blk_header b) = true -> gm_replay_checkpoint target = Some (hdr_number (blk_header b)) ->
  publishable (gm_status target) = true -> manifest_storable target ->
  exists g2, recover_suffix_publication g = (Ok tt, g2) /\ gn_db g2 = gn_db g /\
    gn_files g2 SuffixFile = None /\ verified target (blk_header b) g2.
Proof.
  intros Hc Hb Hf Hj Hm Hcp Hpub Hst. destruct (best_of_chain _ _ _ Hc Hb) as [Hbest Hhead].
  unfold recover_suffix_publication, st_bind, st_read, load_suffix_publication.
  rewrite (load_file_stored _ _ _ _ _ Hf Hj), Hbest. cbn [sp_target_manifest]. rewrite Hm.
  destruct (install_manifest_reliable target g Hst) as [g2 Hrun]. exists g2.
  change (install_manifest target g = (Ok tt, g2) /\ gn_db g2 = gn_db g /\ gn_files g2 SuffixFile = None /\
    verified target (blk_header b) g2). split; [done|].
  destruct (install_manifest_run _ _ _ _ _ Hcp Hrun) as [Hdb [[? _]|(_ & Hs & Hn)]]; [done|].
  split; [done|]. split; [done|]. apply verified_named; rewrite ?Hdb; done.
Qed.

Lemma recover_without_journal {IO : FileIo} g :
  gn_files g SuffixFile = None -> recover_suffix_publication g = (Ok tt, g).
Proof.
  intros Hf. unfold recover_suffix_publication, st_bind, st_read, load_suffix_publication.
  by rewrite (load_file_none _ _ _ Hf).
Qed.

(** A journal of a publication whose batch was not applied. *)
Lemma recover_keeps {IO : FileIo} {RF : FilesReliable} g g1 jb previous target best :
  verified previous best g -> contents (gn_db g1) = contents (gn_db g) ->
  gn_files g1 = set_file (gn_files g) SuffixFile (Some jb) ->
  to_vec {| sp_previous_manifest := previous; sp_target_manifest := target |} = Ok jb ->
  manifest_matches target best = false ->
  exists g2, recover_suffix_publication g1 = (Ok tt, g2) /\ gn_db g2 = gn_db g1 /\
    gn_files g2 SuffixFile = None /\ verified previous best g2.
Proof.
  intros Hv Hdb Hf Hj Hm.
  assert (forall f, f <> SuffixFile -> gn_files g1 f = gn_files g f) as Hfs.
  { intros f Hne. rewrite Hf. by apply set_file_ne. }
  pose proof (verified_ext _ _ _ _ Hdb Hfs Hv) as Hv1.
  assert (gn_files g1 SuffixFile = Some jb) as Hs by (rewrite Hf; apply set_file_eq).
  unfold recover_suffix_publication, st_bind, st_read, load_suffix_publication.
  rewrite (load_file_stored _ _ _ _ _ Hs Hj), (vf_best _ _ _ Hv1). cbn [sp_target_manifest sp_previous_manifest].
  rewrite Hm, (vf_tip _ _ _ Hv1). destruct (remove_file_reliable SuffixFile g1) as [g2 Hrun]. exists g2.
  split; [exact Hrun|]. apply remove_file_run in Hrun as [[? _]|(_ & Hdb2 & Hf2)]; [done|].
  split; [done|]. split; [by rewrite Hf2, set_file_eq|]. eapply verified_ext; [|..|exact Hv1]; [by rewrite Hdb2|].
  intros f Hne. rewrite Hf2. by apply set_file_ne.
Qed.

Lemma same_previous {IO IO' : FileIo} {RF : @FilesReliable IO'} g c ancestor replacement target previous previous' best best' tip :
  publishes g c ancestor replacement target previous best tip -> @verified _ IO' _ _ _ _ _ _ previous' best' g ->
  previous = previous'.
Proof.
  intros [(bytes & Hb & Hd) _ _ _ _ _ _] Hv. pose proof (vf_manifest _ _ _ Hv) as Hm.
  unfold load_generation_manifest, load_file in Hm. rewrite Hb, no_read_error, Hd in Hm. cbn in Hm. congruence.
Qed.

(** A restart that ends well. *)
Definition recovers {IO : FileIo} (previous target : GenerationManifest) (g : Generation) : Prop :=
  exists g2 m, recover_suffix_publication g = (Ok tt, g2) /\ gn_db g2 = gn_db g /\
    gn_files g2 SuffixFile = None /\ verify_generation_manifest g2 = (Ok m, g2) /\
    (m = previous \/ m = target).

Section restart.
Context (g : Generation) (c : list Block) (ancestor : BlockHeader) (replacement : list Block).
Context (target previous : GenerationManifest) (best tip : BlockHeader).
Hypothesis Hc : chain_rep (contents (gn_db g)) c.
Hypothesis Hpb : publishes g c ancestor replacement target previous best tip.
Context {IO : FileIo} {RF : FilesReliable} (best0 : BlockHeader).
Hypothesis Hv : verified previous best0 g.
Hypothesis Hnone : gn_files g SuffixFile = None.
Hypothesis Hpub : publishable (gm_status target) = true.
Hypothesis Hst : manifest_storable target.

(** The batch was not applied. *)
Lemma restart_old g1 :
  contents (gn_db g1) = contents (gn_db g) ->
  (gn_files g1 = gn_files g \/
   exists jb, to_vec {| sp_previous_manifest := previous; sp_target_manifest := target |} = Ok jb /\
     gn_files g1 = set_file (gn_files g) SuffixFile (Some jb)) ->
  recovers previous target g1.
Proof.
  intros Hdb [Hf|(jb & Hj & Hf)].
  - exists g1, previous. split; [by apply recover_without_journal; rewrite Hf|]. split; [done|].
    split; [by rewrite Hf|]. split; [|by left]. eapply verified_verify, verified_ext; [done| |done]. by rewrite Hf.
  - destruct (manifest_matches target best0) eqn:Em.
    + pose proof (vf_best _ _ _ Hv) as Hb0. destruct (best_header_ok _ _ _ Hc Hb0) as (b & Hb & <- & _).
      assert (chain_rep (contents (gn_db g1)) c) as Hc1 by (by rewrite Hdb).
      destruct (recover_installs g1 c b jb previous target Hc1 Hb) as (g2 & Hr & Hdb2 & Hs & Hv2); try done.
      * rewrite Hf. apply set_file_eq.
      * rewrite (pb_checkpoint _ _ _ _ _ _ _ _ Hpb). f_equal.
        pose proof (pb_target _ _ _ _ _ _ _ _ Hpb) as Ht. unfold manifest_matches in Em, Ht.
        rewrite !andb_true_iff, !Z.eqb_eq in Em, Ht. intuition congruence.
      * exists g2, target. split; [done|]. split; [done|]. split; [done|]. split; [by eapply verified_verify|by right].
    + destruct (recover_keeps g g1 jb previous target best0 Hv Hdb Hf Hj Em) as (g2 & Hr & Hdb2 & Hs & Hv2).
      exists g2, previous. split; [done|]. split; [done|]. split; [done|]. split; [by eapply verified_verify|by left].
Qed.

(** The batch was applied. *)
Lemma restart_new g1 :
  chain_rep (contents (gn_db g1)) (take (1 + Z.to_nat (hdr_number ancestor)) c ++ replacement) ->
  (exists jb, to_vec {| sp_previous_manifest := previous; sp_target_manifest := target |} = Ok jb /\
     gn_files g1 SuffixFile = Some jb) \/
  (gn_files g1 SuffixFile = None /\ files_name target (gn_files g1)) ->
  recovers previous target g1.
Proof.
  intros Hc1 Hf. destruct (pb_tip _ _ _ _ _ _ _ _ Hpb) as (b & Hb & Etip).
  pose proof (pb_target _ _ _ _ _ _ _ _ Hpb) as Ht. pose proof (pb_checkpoint _ _ _ _ _ _ _ _ Hpb) as Hcp.
  rewrite Etip in Ht, Hcp. destruct Hf as [(jb & Hj & Hf)|[Hf Hn]].
  - destruct (recover_installs g1 _ b jb previous target Hc1 Hb Hf Hj Ht Hcp Hpub Hst) as (g2 & Hr & Hdb2 & Hs & Hv2).
    exists g2, target. split; [done|]. split; [done|]. split; [done|]. split; [by eapply verified_verify|by right].
  - exists g1, target. split; [by apply recover_without_journal|]. split; [done|]. split; [done|].
    split; [|by right]. destruct (best_of_chain _ _ _ Hc1 Hb). by eapply verified_verify, verified_named.
Qed.
End restart.

(** C5: a publication is atomic and survives a crash.  Wherever the
    publication of a replacement suffix stops, the store holds either the old
    chain with the old accounts or the chain up to the ancestor followed by the
    replacement with the new accounts, never a mixture, and the latter when it
    reports success.  A restart from a generation that was verified before
    recovers: the journal is gone, the database is as it was left, and the
    manifest, the checkpoint and the publication record verify against the
    stored tip.  A crash between two steps leaves the same state as a failure
    of the later one. *)
Theorem publish_crash_safe {IO : FileIo} g c accts ancestor replacement evm supply target r g1 :
  chain_rep (contents (gn_db g)) c -> account_rep (contents (gn_db g)) accts ->
  wf_evm_accounts evm -> in_u64 (hdr_number ancestor) ->
  Z.of_nat (length c + length replacement) <= U64_MAX ->
  publish_canonical_suffix ancestor replacement (native_of evm) evm supply target g = (r, g1) ->
  let c' := take (1 + Z.to_nat (hdr_number ancestor)) c ++ replacement in
  let holds c accts := chain_rep (contents (gn_db g1)) c /\ account_rep (contents (gn_db g1)) accts in
  (holds c accts \/ holds c' (stored_evm evm)) /\
  (is_ok r = true -> holds c' (stored_evm evm)) /\
  forall (IO' : FileIo) previous best, @FilesReliable IO' -> @verified _ IO' _ _ _ _ _ _ previous best g ->
    gn_files g SuffixFile = None -> publishable (gm_status target) = true -> manifest_storable target ->
    @recovers IO' previous target g1.
Proof.
  intros Hc Ha Hwf Hanc Hfit H c' holds.
  destruct (publish_stops _ _ _ _ _ _ _ _ _ H) as [[Hr ->]|(prev & bst & tip & Hchk & Hstop)].
  { split; [by left|]. split; [by rewrite Hr|]. intros IO' previous best HF Hv Hnone _ _.
    exists g, previous. split; [by apply recover_without_journal|]. split; [done|]. split; [done|].
    split; [by eapply verified_verify|by left]. }
  pose proof (publication_check_ok _ _ _ _ _ _ _ _ Hc Hanc Hfit Hchk) as Hpb.
  destruct Hstop as [(Hr & Hdb & Hf)|(batch & Hbatch & Hstop)].
  { unfold holds. rewrite Hdb. split; [by left|]. split; [by rewrite Hr|].
    intros IO' previous best HF Hv Hnone Hpub Hst.
    pose proof (same_previous _ _ _ _ _ _ _ _ _ _ Hpb Hv) as ->.
    eapply restart_old; try done. by rewrite Hdb. }
  pose proof (batch_installs _ _ _ _ _ _ _ _ _ _ _ Hc Hwf Hanc Hfit Hpb Hbatch) as Hnew.
  destruct Hstop as [r1 g' Hr Hdb Hf|r1 g' jb Hr Hj Hdb Hf|r1 g' jb Hr Hj Hdb Hf|g' Hdb Hf Hn]; unfold holds; rewrite Hdb.
  1,2: split; [by left|]; split; [by rewrite Hr|].
  3,4: split; [by right|]; split; [done|].
  all: intros IO' previous best HF Hv Hnone Hpub Hst; pose proof (same_previous _ _ _ _ _ _ _ _ _ _ Hpb Hv) as <-.
  - eapply restart_old; eauto.
  - eapply restart_old; eauto.
  - eapply restart_new; eauto. by rewrite Hdb; apply Hnew.
  - eapply restart_new; eauto. by rewrite Hdb; apply Hnew.
Qed.

(** A failed publication followed by an ordinary block blocks the restart.
    When the publication stops with its journal written and its batch not
    applied, and the node then inserts the next block and refreshes the
    manifest, the journal names neither the tip before nor the tip it was
    meant to install, and the recovery of the next start fails, although the
    stored chain and its manifest are sound. *)
Theorem stale_journal_blocks_restart {IO : FileIo} {RF : FilesReliable} g c previous target best jb b g1 g2 :
  chain_rep (contents (gn_db g)) c -> verified previous best g ->
  gn_files g SuffixFile = Some jb ->
  to_vec {| sp_previous_manifest := previous; sp_target_manifest := target |} = Ok jb ->
  block_number b = Z.of_nat (length c) -> list_fits (c ++ [b]) ->
  manifest_matches target (blk_header b) = false ->
  on_db (insert_block b) g = (Ok tt, g1) -> refresh_generation_manifest g1 = (Ok tt, g2) ->
  chain_rep (contents (gn_db g2)) (c ++ [b]) /\
  recover_suffix_publication g2 =
    (Err (Serialization "suffix publication journal does not match stored canonical tip"), g2).
Proof.
  intros Hc Hv Hf Hj Hnum Hfit Hm [H1 F1]%on_db_run H2.
  pose proof (chain_rep_snoc _ _ _ _ _ Hc Hnum Hfit H1) as Hc1.
  assert (gn_db g2 = gn_db g1 /\ gn_files g2 SuffixFile = gn_files g1 SuffixFile) as [Hdb Hs].
  { unfold refresh_generation_manifest in H2. apply st_bind_ok in H2 as (o & g3 & [_ ->]%st_read_ok & H2).
    destruct o as [m|]; [|by apply st_ret_ok in H2 as [_ ->]].
    apply st_bind_ok in H2 as (h & g4 & [_ ->]%st_read_ok & H2).
    apply st_bind_ok in H2 as ([] & g5 & H3 & H2). apply write_file_run in H3 as [[? _]|(_ & mb & _ & ->)]; [done|].
    unfold write_generation_publication in H2. apply st_bind_ok in H2 as (ck & g6 & [_ ->]%st_res_ok & H2).
    by apply write_file_run in H2 as [[? _]|(_ & pb & _ & ->)]. }
  split; [by rewrite Hdb|].
  destruct (best_of_chain (gn_db g2) (c ++ [b]) b) as [Hb _]; [by rewrite Hdb|by rewrite last_snoc|].
  unfold recover_suffix_publication, st_bind, st_read, load_suffix_publication.
  rewrite F1, Hf in Hs. rewrite (load_file_stored _ _ _ _ _ Hs Hj), Hb.
  cbn [sp_target_manifest sp_previous_manifest]. rewrite Hm.
  replace (manifest_matches previous (blk_header b)) with false; [done|]. symmetry.
  pose proof (vf_tip _ _ _ Hv) as Ht. destruct (best_header_ok _ _ _ Hc (vf_best _ _ _ Hv)) as (bb & _ & <- & Hn).
  unfold manifest_matches in *. rewrite !andb_true_iff, Z.eqb_eq in Ht. destruct Ht as [[Ht _] _].
  rewrite Ht. fold (block_number bb) (block_number b). rewrite Hn, Hnum.
  destruct (Z.eqb_spec (Z.of_nat (length c) - 1) (Z.of_nat (length c))); [lia|done].
Qed.
End publication.

(** ** Witnesses *)

(** Files that never fail. *)
Definition mem_files : FileIo := {|
  read_error := fun _ _ => None; replace_error := fun _ _ _ => None; remove_error := fun _ _ => None |}.

Lemma mem_files_reliable : @FilesReliable mem_files.
Proof. by split. Qed.

Definition sample_ancestor : BlockHeader := numbered_sample 0.

(** Two empty blocks, another block 1 and a block 2. *)
Definition empty_block (h : BlockHeader) : Block := {| blk_header := h; blk_transactions := []; blk_receipts := [] |}.
Definition sample_old : list Block := [empty_block (numbered_sample 0); empty_block (numbered_sample 1)].

Definition sample_parent_hash : Hash256 := Eval vm_compute in @header_hash toy_digests sample_ancestor.

Definition sample_replacement : Block :=
  let h := numbered_sample 1 in empty_block {|
    hdr_parent_hash := sample_parent_hash; hdr_number := 1; hdr_state_root := hdr_state_root h;
    hdr_transactions_root := hdr_transactions_root h; hdr_receipts_root := hdr_receipts_root h;
    hdr_beneficiary := hdr_beneficiary h; hdr_difficulty_target := hdr_difficulty_target h;
    hdr_base_fee_per_gas := hdr_base_fee_per_gas h; hdr_gas_limit := hdr_gas_limit h;
    hdr_gas_used := hdr_gas_used h; hdr_timestamp_seconds := hdr_timestamp_seconds h;
    hdr_pow_algorithm := hdr_pow_algorithm h; hdr_pow_epoch := hdr_pow_epoch h;
    hdr_extra_nonce := hdr_extra_nonce h; hdr_mix_hash := hdr_mix_hash h; hdr_nonce := 77 |}.

Definition sample_next : Block := empty_block (numbered_sample 2).

Definition manifest_of (height : Z) (hash : Hash256) (checkpoint : option Z) : GenerationManifest := {|
  gm_generation_id := 1; gm_status := Active; gm_canonical_height := height;
  gm_canonical_hash := hash; gm_state_root := HASH_ZERO;
  gm_profile_fingerprint := B "profile"; gm_finalized_height := 0; gm_replay_checkpoint := checkpoint |}.

Definition sample_old_hash : Hash256 := Eval vm_compute in @header_hash toy_digests (numbered_sample 1).
Definition sample_new_hash : Hash256 := Eval vm_compute in @header_hash toy_digests (blk_header sample_replacement).
Definition sample_next_hash : Hash256 := Eval vm_compute in @header_hash toy_digests (numbered_sample 2).

Definition sample_previous : GenerationManifest := manifest_of 1 sample_old_hash None.
Definition sample_target : GenerationManifest := manifest_of 1 sample_new_hash (Some 1).
Definition next_manifest : GenerationManifest := manifest_of 2 sample_next_hash None.

Definition sample_manifests : list GenerationManifest := [sample_previous; sample_target; next_manifest].
Definition sample_journal : SuffixPublicationRecord :=
  {| sp_previous_manifest := sample_previous; sp_target_manifest := sample_target |}.

Definition compact_manifest : CompactManifest := {| manifest_to_vec := @to_vec _ (table_json sample_manifests) |}.

Definition sample_checksums : list GenerationPublicationRecord := Eval vm_compute in
  omap (fun m => match @manifest_checksum toy_digests compact_manifest m with
                 | Ok c => Some {| gp_generation_id := 1; gp_manifest_checksum := c |} | _ => None end) sample_manifests.

Module SampleCodecs.
Definition JB : Json Block := table_json (sample_old ++ [sample_replacement; sample_next]).
Definition JH : Json BlockHeader := table_json (map blk_header (sample_old ++ [sample_replacement; sample_next])).
Definition JT : Json Transaction := table_json [].
Definition JR : Json StoredReceipt := table_json [].
Definition JE : Json (list SerializedEvmSnapshotEntry) := table_json [[]].
Definition JM : Json GenerationManifest := table_json sample_manifests.
Definition CM : CompactManifest := compact_manifest.
Definition JC : Json ReplayCheckpoint := table_json
  [{| rcp_generation_id := 1; rcp_height := 1; rcp_block_hash := sample_new_hash; rcp_state_root := HASH_ZERO |}].
Definition JP : Json GenerationPublicationRecord := table_json sample_checksums.
Definition JS : Json SuffixPublicationRecord := table_json [sample_journal].
#[export] Existing Instances JB JH JT JR JE JM CM JC JP JS.
End SampleCodecs.

Section witness.
Import SampleCodecs.
#[local] Existing Instances mem_sled hex_codec toy_digests mem_files.

(** The store with [sample_old] and the files of its manifest. *)
Definition sample_generation (journal : option (list byte)) : Generation :=
  let run := st_for sample_old insert_block {| ss_db := (∅ : @sled_db mem_sled); ss_defer_flush := false |} in
  {| gn_db := run.2;
     gn_files := fun f => match f with
       | ManifestFile => match to_vec sample_previous with Ok b => Some b | _ => None end
       | SuffixFile => journal
       | _ => None
       end |}.

Lemma sample_generation_rep journal :
  chain_rep (contents (gn_db (sample_generation journal))) sample_old /\
  account_rep (contents (gn_db (sample_generation journal))) ∅.
Proof.
  unfold sample_generation. cbn [gn_db].
  set (s := {| ss_db := (∅ : @sled_db mem_sled); ss_defer_flush := false |}).
  destruct (insert_blocks_succeed (HRel := mem_sled_reliable) sample_old s) as ([] & s' & Hrun).
  { repeat (apply List.Forall_cons; [by vm_compute|]). apply List.Forall_nil. }
  destruct (insert_blocks_rep sample_old [] s s') as [Hc Ha]; [by apply chain_rep_empty|intros [|[|i]] b H; [by injection H as <-..|by destruct i]|by vm_compute|done|].
  rewrite Hrun. split; [exact Hc|]. eapply account_rep_other; [apply rep_empty|]. intros k Hk. by apply Ha.
Qed.

Lemma sample_generation_verified journal :
  verified sample_previous (numbered_sample 1) (sample_generation journal).
Proof. split; vm_compute; reflexivity. Qed.

Lemma sample_target_storable : manifest_storable sample_target.
Proof.
  destruct sample_checksums as [|r0 [|r1 l]] eqn:E; [done..|].
  exists 1, (gp_manifest_checksum r1), [x00], [x00], [].
  split; [reflexivity|]. split; [injection E as <- <- <-; vm_compute; reflexivity|].
  split; [vm_compute; reflexivity|]. split; [injection E as <- <- <-; vm_compute; reflexivity|vm_compute; reflexivity].
Qed.

Lemma publish_crash_safe_witness :
  let run := publish_canonical_suffix sample_ancestor [sample_replacement] (native_of ∅) ∅ (0, 0, 0) sample_target
    (sample_generation None) in
  is_ok run.1 = true /\
  chain_rep (contents (gn_db run.2)) [empty_block sample_ancestor; sample_replacement] /\
  recovers sample_previous sample_target run.2.
Proof.
  intros run. assert (is_ok run.1 = true) as Hok by (vm_compute; reflexivity). split; [exact Hok|].
  destruct (sample_generation_rep None) as [Hc Ha].
  destruct (@publish_crash_safe mem_sled hex_codec toy_digests JB JH JT JR JE JM JC JP JS CM
    (@reliable_reads _ mem_sled_reliable) mem_files (sample_generation None) sample_old ∅ sample_ancestor
    [sample_replacement] ∅ (0, 0, 0) sample_target run.1 run.2) as (_ & Hnew & Hrec).
  - exact Hc.
  - exact Ha.
  - apply map_Forall_empty.
  - split; vm_compute; discriminate.
  - vm_compute. discriminate.
  - apply surjective_pairing.
  - destruct (Hnew Hok) as [Hc' _]. split; [exact Hc'|].
    apply (Hrec mem_files sample_previous (numbered_sample 1)).
    + apply mem_files_reliable.
    + apply sample_generation_verified.
    + reflexivity.
    + reflexivity.
    + apply sample_target_storable.
Defined.

Lemma stale_journal_blocks_restart_witness :
  exists jb g1 g2,
    to_vec sample_journal = Ok jb /\
    on_db (insert_block sample_next) (sample_generation (Some jb)) = (Ok tt, g1) /\
    refresh_generation_manifest g1 = (Ok tt, g2) /\
    (recover_suffix_publication g2).1 =
      Err (Serialization "suffix publication journal does not match stored canonical tip").
Proof.
  destruct (to_vec sample_journal) as [jb|e|] eqn:Ej; [|by vm_compute in Ej..].
  set (r1 := on_db (insert_block sample_next) (sample_generation (Some jb))).
  set (r2 := refresh_generation_manifest r1.2).
  assert (is_ok r1.1 = true) as E1 by (vm_compute; reflexivity). apply is_ok_true in E1 as [[] E1].
  assert (is_ok r2.1 = true) as E2 by (vm_compute; reflexivity). apply is_ok_true in E2 as [[] E2].
  assert (r1 = (Ok tt, r1.2)) as H1 by (rewrite <- E1; apply surjective_pairing).
  assert (r2 = (Ok tt, r2.2)) as H2 by (rewrite <- E2; apply surjective_pairing).
  exists jb, r1.2, r2.2. split; [done|]. split; [exact H1|]. split; [exact H2|].
  destruct (@stale_journal_blocks_restart mem_sled hex_codec toy_digests JB JH JT JR JM JC JP JS CM
    (@reliable_reads _ mem_sled_reliable) mem_files mem_files_reliable (sample_generation (Some jb)) sample_old
    sample_previous sample_target (numbered_sample 1) jb sample_next r1.2 r2.2) as [_ Hrec].
  - apply sample_generation_rep.
  - apply sample_generation_verified.
  - reflexivity.
  - exact Ej.
  - reflexivity.
  - vm_compute. discriminate.
  - vm_compute. reflexivity.
  - exact H1.
  - exact H2.
  - by rewrite Hrec.
Defined.
End witness.
