(* ===== verification/CandidateStore.v ===== *)
(** Blocks outside the canonical chain in the store ([crates/blq-storage]):
    the orphan pool, the candidate pool with its works and quarantine marks,
    and the recovery spool with its hash index.

    [candidate_rep] and [orphan_rep] relate the rows of the store to a map of
    blocks by hash; the methods refine operations on these maps, with their
    limits, and the candidate tip is the best of the pool. *)

From Stdlib Require Import ZArith Lia Strings.String Strings.Byte.
From stdpp Require Import sorting gmap fin_maps base list.
From S2P Require Import Prelude Externals Primitives Canonical State Sled AccountStore BlockStore ChainStore.
#[local] Open Scope Z_scope.

Definition MAX_ORPHANS : Z := 128.
Definition MAX_ORPHAN_BYTES : Z := 2 * 1024 * 1024.
Definition MAX_CANDIDATES : Z := 4096.
Definition MAX_CANDIDATE_BYTES : Z := 2 * 1024 * 1024.

(** ** Keys *)

Section candidate_keys.
Context {HX : HexCodec}.

Definition orphan_key (h : Hash256) : list byte := B "orphan:block:" ++ hash_to_hex h.
Definition candidate_block_key (h : Hash256) : list byte := B "candidate:block:" ++ hash_to_hex h.
Definition candidate_work_key (h : Hash256) : list byte := B "candidate:work:" ++ hash_to_hex h.
Definition candidate_quarantine_key (h : Hash256) : list byte := B "candidate:quarantine:" ++ hash_to_hex h.
Definition recovery_prefix (tip_hash : Hash256) : list byte := B "recovery:" ++ hash_to_hex tip_hash ++ B ":".
Definition recovery_base (tip_hash : Hash256) (number : Z) : list byte :=
  recovery_prefix tip_hash ++ dec_string number.
Definition recovery_hash_key (h : Hash256) : list byte := B "recovery:hash:" ++ hash_to_hex h.
End candidate_keys.

(** [ends_with], [trim_end_matches] and [split] on bytes. *)
Definition ends_with (suffix s : list byte) : bool := has_prefix (rev suffix) (rev s).

Fixpoint trim_start (fuel : nat) (p s : list byte) : list byte :=
  match fuel with
  | O => s
  | S fuel => match strip_prefix p s with Some s => trim_start fuel p s | None => s end
  end.

Definition trim_end_matches (suffix s : list byte) : list byte :=
  rev (trim_start (length s) (rev suffix) (rev s)).

Fixpoint split_on (sep : byte) (s : list byte) : list (list byte) :=
  match s with
  | [] => [[]]
  | c :: s =>
      let parts := split_on sep s in
      if bool_decide (c = sep) then [] :: parts
      else match parts with part :: parts => (c :: part) :: parts | [] => [[c]] end
  end.

Section candidate_store.
Context {S : Sled} {HX : HexCodec} {D : Digests} {JB : Json Block} {JH : Json BlockHeader}.

(** [scan_prefix(p).count()]. *)
Definition count_rows (s : SledStorage) (p : list byte) : Z :=
  Z.of_nat (length (sled_scan_prefix (ss_db s) p)).

(** ** Orphans *)

Definition orphan_blocks (s : SledStorage) : res StorageError (list Block) :=
  let? blocks := read_rows s (B "orphan:block:") (fun blocks kv =>
    let? block := json_slice kv.2 in Ok (blocks ++ [block])) [] in
  Ok (sort_by_key (fun b => hdr_number (blk_header b)) blocks).

Definition store_orphan_block (block : Block) : St unit :=
  do? value := st_res (json_vec block) in
  if MAX_ORPHAN_BYTES <? Z.of_nat (length value)
  then st_res (Err (Serialization "orphan block exceeds size limit"))
  else
    do? count := st_read (fun s => Ok (count_rows s (B "orphan:block:"))) in
    (if MAX_ORPHANS <=? count then
       do? orphans := st_read orphan_blocks in
       match head orphans with
       | Some orphan => db_remove (orphan_key (header_hash (blk_header orphan)))
       | None => st_ret tt
       end
     else st_ret tt) ;!
    db_insert (orphan_key (header_hash (blk_header block))) value ;!
    db_flush.

Definition remove_orphan_block (hash : Hash256) : St unit :=
  db_remove (orphan_key hash) ;! db_flush.

Definition clear_orphan_blocks : St nat :=
  do? orphans := st_read orphan_blocks in
  let hashes := map (fun b => header_hash (blk_header b)) orphans in
  st_for hashes (fun hash => db_remove (orphan_key hash)) ;!
  db_flush ;!
  st_ret (length hashes).

(** ** Candidates *)

Definition store_candidate_block_unflushed (block : Block) (cumulative_work : Z) : St unit :=
  let hash := header_hash (blk_header block) in
  do? value := st_res (json_vec block) in
  if MAX_CANDIDATE_BYTES <? Z.of_nat (length value)
  then st_res (Err (Serialization "candidate block exceeds size limit"))
  else
    do? already_stored := st_read (fun s => db_contains_key s (candidate_block_key hash)) in
    do? count := st_read (fun s => Ok (count_rows s (B "candidate:block:"))) in
    if negb already_stored && (MAX_CANDIDATES <=? count)
    then st_res (Err (Io "candidate block pool is full"))
    else
      db_insert (candidate_block_key hash) value ;!
      db_insert (candidate_work_key hash) (be_bytes 16 cumulative_work).

Definition store_candidate_block (block : Block) (cumulative_work : Z) : St unit :=
  store_candidate_block_unflushed block cumulative_work ;! db_flush.

Definition candidate_block_by_hash (s : SledStorage) (hash : Hash256) : res StorageError Block :=
  let? value := db_get s (candidate_block_key hash) in
  let? value := ok_or value NotFound in
  json_slice value.

Definition candidate_work (s : SledStorage) (hash : Hash256) : res StorageError Z :=
  let? value := db_get s (candidate_work_key hash) in
  let? value := ok_or value NotFound in
  if Z.of_nat (length value) =? 16 then Ok (be_val value)
  else Err (Serialization "invalid candidate work").

(** Ascending height, then descending work. *)
Definition candidate_cmp (x y : Block * Z) : comparison :=
  then_with (hdr_number (blk_header x.1) ?= hdr_number (blk_header y.1)) (y.2 ?= x.2).

Definition candidate_blocks_with_work (s : SledStorage) : res StorageError (list (Block * Z)) :=
  let? blocks := read_rows s (B "candidate:block:") (fun blocks kv =>
    let? block := json_slice kv.2 in
    let? work := candidate_work s (header_hash (blk_header block)) in
    Ok (blocks ++ [(block, work)])) [] in
  Ok (sort_by candidate_cmp blocks).

Definition clear_candidate_blocks : St unit :=
  do? rows := st_read (fun s => scan_all s (B "candidate:")) in
  remove_keys (map fst rows) ;!
  db_flush.

Definition remove_candidate_blocks (hashes : list Hash256) : St unit :=
  st_for hashes (fun hash =>
    db_remove (candidate_block_key hash) ;!
    db_remove (candidate_work_key hash) ;!
    db_remove (candidate_quarantine_key hash)) ;!
  db_flush.

Definition quarantine_candidate_tip (hash : Hash256) (reason : list byte) : St unit :=
  db_insert (candidate_quarantine_key hash) reason ;! db_flush.

Definition candidate_tip_is_quarantined (s : SledStorage) (hash : Hash256) : res StorageError bool :=
  db_contains_key s (candidate_quarantine_key hash).

(** More work, or equal work and a lower hash. *)
Definition better_tip (x y : BlockHeader * Z) : bool :=
  (y.2 <? x.2) || ((x.2 =? y.2) && bytes_ltb (header_hash x.1) (header_hash y.1)).

Definition tip_step (s : SledStorage) (best : option (BlockHeader * Z)) (bw : Block * Z)
    : res StorageError (option (BlockHeader * Z)) :=
  let? quarantined := candidate_tip_is_quarantined s (header_hash (blk_header bw.1)) in
  if (quarantined : bool) then Ok best
  else
    let candidate := (blk_header bw.1, bw.2) in
    Ok (if from_option (better_tip candidate) true best then Some candidate else best).

Definition latest_candidate_tip (s : SledStorage) : res StorageError (option (BlockHeader * Z)) :=
  let? blocks := candidate_blocks_with_work s in
  fold_left (fun acc bw => let? best := acc in tip_step s best bw) blocks (Ok None).

(** ** Looking a block up by its hash *)

Definition block_by_hash (s : SledStorage) (hash : Hash256) : res StorageError Block :=
  let? blocks := canonical_blocks s in
  match List.find (fun b => bool_decide (header_hash (blk_header b) = hash)) blocks with
  | Some block => Ok block
  | None => candidate_block_by_hash s hash
  end.

Definition header_by_hash (s : SledStorage) (hash : Hash256) : res StorageError BlockHeader :=
  let? found := find_row s (B "header:number:") (fun kv =>
    let? header := json_slice kv.2 in
    Ok (if bool_decide (header_hash header = hash) then Some header else None)) in
  match found with
  | Some header => Ok header
  | None => let? block := candidate_block_by_hash s hash in Ok (blk_header block)
  end.

(** ** The recovery spool *)

Definition store_recovery_block_unflushed (tip_hash : Hash256) (block : Block) (cumulative_work : Z) : St unit :=
  do? value := st_res (json_vec block) in
  let base := recovery_base tip_hash (hdr_number (blk_header block)) in
  db_insert (base ++ B ":block") value ;!
  db_insert (base ++ B ":work") (be_bytes 16 cumulative_work) ;!
  db_insert (recovery_hash_key (header_hash (blk_header block))) base.

(** [find_and_index_recovery_block]: the row with the block, then its index. *)
Definition find_recovery_base (s : SledStorage) (hash : Hash256) (prefix : list byte)
    : res StorageError (option (list byte)) :=
  find_row s prefix (fun kv =>
    if negb (ends_with (B ":block") kv.1) then Ok None
    else
      let? block := json_slice kv.2 in
      if negb (bool_decide (header_hash (blk_header block) = hash)) then Ok None
      else if utf8_valid kv.1 then Ok (Some (trim_end_matches (B ":block") kv.1))
      else Err (Serialization "invalid utf-8 sequence")).

Definition find_and_index_recovery_block (index_key : list byte) (hash : Hash256) (prefix : list byte)
    : St (list byte) :=
  do? found := st_read (fun s => find_recovery_base s hash prefix) in
  match found with
  | Some base => db_insert index_key base ;! st_ret base
  | None => st_res (Err NotFound)
  end.

Definition recovery_work (s : SledStorage) (base : list byte) : res StorageError Z :=
  let? work := db_get s (base ++ B ":work") in
  let? work := ok_or work NotFound in
  if Z.of_nat (length work) =? 16 then Ok (be_val work)
  else Err (Serialization "invalid recovery work").

Definition recovery_block_by_hash (hash : Hash256) : St (Block * Z) :=
  let index_key := recovery_hash_key hash in
  do? indexed := st_read (fun s => db_get s index_key) in
  do? base :=
    match indexed with
    | Some indexed =>
        if utf8_valid indexed && has_prefix (B "recovery:") indexed then st_ret indexed
        else if Z.of_nat (length indexed) =? 32
        then find_and_index_recovery_block index_key hash (recovery_prefix indexed)
        else st_res (Err (Serialization "invalid recovery hash index"))
    | None => find_and_index_recovery_block index_key hash (B "recovery:")
    end in
  do? block := st_read (fun s => db_get s (base ++ B ":block")) in
  do? block := st_res (ok_or block NotFound) in
  do? block := st_res (json_slice block) in
  do? work := st_read (fun s => recovery_work s base) in
  st_ret (block, work).

(** The rows of the scan are below [recovery:<tip>:] and the writes of the loop
    below [recovery:hash:], so the scan does not see them. *)
Fixpoint spool_loop (rows : list (res string (list byte * list byte))) (blocks : list (Block * Z))
    (repaired_index : bool) : St (list (Block * Z) * bool) :=
  match rows with
  | [] => st_ret (blocks, repaired_index)
  | row :: rows =>
      do? kv := st_res (res_map_err Io row) in
      if negb (ends_with (B ":block") kv.1) then spool_loop rows blocks repaired_index
      else
        do? block := st_res (json_slice kv.2) in
        if negb (utf8_valid kv.1) then st_res (Err (Serialization "invalid utf-8 sequence"))
        else
          let base := trim_end_matches (B ":block") kv.1 in
          db_insert (recovery_hash_key (header_hash (blk_header block))) base ;!
          do? work := st_read (fun s => recovery_work s base) in
          spool_loop rows (blocks ++ [(block, work)]) true
  end.

Definition recovery_blocks_for_tip (tip_hash : Hash256) : St (list (Block * Z)) := fun s =>
  (do? (blocks, repaired_index) :=
     spool_loop (sled_scan_prefix (ss_db s) (recovery_prefix tip_hash)) [] false in
   (if repaired_index : bool then db_flush else st_ret tt) ;!
   st_ret (sort_by_key (fun bw => hdr_number (blk_header bw.1)) blocks)) s.

(** The tip of a [recovery:<tip>:<height>:block] key. *)
Definition spool_tip (key : list byte) : option Hash256 :=
  if negb (utf8_valid key) then None
  else match split_on x3a key with
       | [r; tip; _; b] =>
           if bool_decide (r = B "recovery") && bool_decide (b = B "block") then
             match hash_from_hex tip with Ok tip => Some tip | _ => None end
           else None
       | _ => None
       end.

Definition recovery_spool_tips (s : SledStorage) : res StorageError (list Hash256) :=
  let? tips := read_rows s (B "recovery:") (fun tips kv =>
    Ok (match spool_tip kv.1 with Some tip => {[tip]} ∪ tips | None => tips end)) (∅ : gset (list byte)) in
  Ok (sort_by bytes_compare (elements tips)).

Definition clear_recovery_blocks_for_tip (tip_hash : Hash256) : St unit :=
  do? entries := st_read (fun s => scan_all s (recovery_prefix tip_hash)) in
  st_for entries (fun kv =>
    (if ends_with (B ":block") kv.1 then
       do? block := st_res (json_slice kv.2) in
       db_remove (recovery_hash_key (header_hash (blk_header block)))
     else st_ret tt) ;!
    db_remove kv.1) ;!
  db_flush.
End candidate_store.

(** ** Rows keyed by a hash *)

Section keyed.
Context {X : Type} (p : list byte) (key : list byte -> list byte) (enc : list byte -> X -> list byte -> Prop).

(** The rows below [p] hold the entries of [pool]. *)
Record keyed_rep (m : Contents) (pool : gmap (list byte) X) : Prop := {
  kr_value : forall h, match pool !! h with
                       | Some x => exists v, m !! key h = Some v /\ enc h x v
                       | None => m !! key h = None end;
  kr_keys : forall k, has_prefix p k = true -> is_Some (m !! k) -> exists h, k = key h;
}.

Hypothesis Hinj : forall h h', key h = key h' -> h = h'.
Hypothesis Hbelow : forall h, has_prefix p (key h) = true.

Lemma keyed_insert m pool h x v :
  keyed_rep m pool -> enc h x v -> keyed_rep (<[key h := v]> m) (<[h := x]> pool).
Proof.
  intros [Hv Hk] He. constructor.
  - intros h'. destruct (decide (h' = h)) as [->|Hne].
    + rewrite lookup_insert_eq. exists v. by rewrite lookup_insert_eq.
    + rewrite lookup_insert_ne by done. rewrite lookup_insert_ne by (intros E; by apply Hinj in E). apply Hv.
  - intros k Hp Hs. destruct (decide (k = key h)) as [->|Hne]; [eauto|].
    apply Hk; [done|]. by rewrite lookup_insert_ne in Hs.
Qed.

Lemma keyed_delete m pool h : keyed_rep m pool -> keyed_rep (delete (key h) m) (delete h pool).
Proof.
  intros [Hv Hk]. constructor.
  - intros h'. destruct (decide (h' = h)) as [->|Hne].
    + by rewrite !lookup_delete_eq.
    + rewrite lookup_delete_ne by done. rewrite lookup_delete_ne by (intros E; by apply Hinj in E). apply Hv.
  - intros k Hp [v Hs]. apply lookup_delete_Some in Hs as [_ Hs]. eauto.
Qed.

Lemma keyed_other m m' pool :
  keyed_rep m pool -> (forall k, has_prefix p k = true -> m' !! k = m !! k) -> keyed_rep m' pool.
Proof.
  intros [Hv Hk] H. constructor.
  - intros h. rewrite H by done. apply Hv.
  - intros k Hp Hs. rewrite H in Hs by done. eauto.
Qed.

Lemma keyed_empty m : (forall k, has_prefix p k = true -> m !! k = None) -> keyed_rep m ∅.
Proof.
  intros H. constructor.
  - intros h. rewrite lookup_empty. by apply H.
  - intros k Hp [v Hs]. rewrite H in Hs by done. done.
Qed.

(** The entries of a scan are those of the pool, in some order. *)
Lemma keyed_entries m pool :
  keyed_rep m pool -> exists xs, xs ≡ₚ map_to_list pool /\
    Forall2 (fun kv hx => kv.1 = key hx.1 /\ enc hx.1 hx.2 kv.2) (prefix_entries p m) xs.
Proof.
  intros [Hv Hk].
  assert (Forall (fun kv => exists hx, pool !! hx.1 = Some hx.2 /\ kv.1 = key hx.1 /\ enc hx.1 hx.2 kv.2)
    (prefix_entries p m)) as Hall.
  { apply List.Forall_forall. intros [k v] Hin%list_elem_of_In. apply elem_of_prefix_entries in Hin as [Hm Hp].
    destruct (Hk k Hp) as [h ->]; [by eexists|]. specialize (Hv h). destruct (pool !! h) as [x|] eqn:E.
    - destruct Hv as (v' & Hv' & He). exists (h, x). cbn. split; [done|]. split; [done|]. congruence.
    - congruence. }
  assert (exists xs, Forall2 (fun kv hx => pool !! hx.1 = Some hx.2 /\ kv.1 = key hx.1 /\ enc hx.1 hx.2 kv.2)
    (prefix_entries p m) xs) as [xs Hxs].
  { clear -Hall. induction Hall as [|kv l [x Hx] _ [xs IH]]; [by exists []|]. exists (x :: xs). by constructor. }
  exists xs. split; [|eapply Forall2_impl; [exact Hxs|]; by intros kv hx (_ & ? & ?)].
  pose proof (NoDup_prefix_keys p m) as Hnd.
  assert (map fst (prefix_entries p m) = map (fun hx => key hx.1) xs) as Hkeys.
  { clear -Hxs. induction Hxs as [|kv hx l xs (_ & E & _) _ IH]; [done|]. cbn. by rewrite E, IH. }
  rewrite Hkeys in Hnd. apply NoDup_Permutation; [|apply NoDup_map_to_list|].
  - eapply NoDup_fmap_1, Hnd.
  - intros [h x]. rewrite elem_of_map_to_list. split.
    + intros Hin. apply list_elem_of_lookup in Hin as [i Hi].
      destruct (Forall2_lookup_r _ _ _ _ _ Hxs Hi) as (kv & _ & Hx & _). exact Hx.
    + intros Hx. specialize (Hv h). rewrite Hx in Hv. destruct Hv as (v & Hm & _).
      assert ((key h, v) ∈ prefix_entries p m) as Hin by (apply elem_of_prefix_entries; auto).
      apply list_elem_of_lookup in Hin as [i Hi].
      destruct (Forall2_lookup_l _ _ _ _ _ Hxs Hi) as ([h' x'] & Hi' & Hx' & E & _). cbn in *.
      apply Hinj in E as <-. rewrite Hx in Hx'. injection Hx' as <-. by eapply list_elem_of_lookup_2.
Qed.
End keyed.

(** ** Sizes and reads of a pool *)

Section pools.
Context {S : Sled} {HX : HexCodec} {D : Digests} {JB : Json Block} {JH : Json BlockHeader}.
Context {HR : SledReadable}.

Lemma count_keyed {X} (p : list byte) (key : list byte -> list byte) (enc : list byte -> X -> list byte -> Prop) (s : SledStorage) (pool : gmap (list byte) X) :
  (forall h h', key h = key h' -> h = h') -> (forall h, has_prefix p (key h) = true) -> keyed_rep p key enc (contents s) pool ->
  count_rows s p = Z.of_nat (size pool).
Proof.
  intros Hinj Hbelow Hrep. destruct (keyed_entries p key enc Hinj Hbelow _ _ Hrep) as (xs & Hp & Hf).
  unfold count_rows. rewrite reliable_scan, length_map. fold (contents s). rewrite (Forall2_length _ _ _ Hf), Hp.
  by rewrite length_map_to_list.
Qed.

Lemma fold_collect {E A B C} (dec : A -> res E B) (upd : list C -> B -> list C) rows xs :
  Forall2 (fun a b => dec a = Ok b) rows xs ->
  fold_left (fun acc a => let? l := acc in let? b := dec a in Ok (upd l b)) rows (Ok []) =
    Ok (fold_left upd xs []).
Proof. intros H. apply (fold_decode dec upd). by exists xs. Qed.

Lemma fold_snoc {A} (xs l : list A) : fold_left (fun l x => l ++ [x]) xs l = l ++ xs.
Proof. revert l. induction xs as [|x xs IH]; intros l; cbn; [by rewrite app_nil_r|]. by rewrite IH, <- app_assoc. Qed.
End pools.

(** ** The candidate pool *)

Record CandidatePool := {
  cp_blocks : gmap (list byte) (Block * Z);
  cp_quarantined : gset (list byte);
}.

Inductive CandidateCall :=
| CandStore (block : Block) (cumulative_work : Z)
| CandRemove (hashes : list Hash256)
| CandClear
| CandQuarantine (hash : Hash256) (reason : list byte).

Section candidate_pool.
Context {S : Sled} {HX : HexCodec} {D : Digests} {JB : Json Block} {JH : Json BlockHeader}.

Definition candidate_enc (h : list byte) (bw : Block * Z) (v : list byte) : Prop :=
  h = header_hash (blk_header bw.1) /\ to_vec bw.1 = Ok v.

(** The [candidate:] rows of the store are those of the pool. *)
Record candidate_rep (m : Contents) (pool : CandidatePool) : Prop := {
  cd_blocks : keyed_rep (B "candidate:block:") candidate_block_key candidate_enc m (cp_blocks pool);
  cd_works : forall h b w, cp_blocks pool !! h = Some (b, w) ->
    in_u128 w /\ m !! candidate_work_key h = Some (be_bytes 16 w);
  cd_quarantined : forall h, is_Some (m !! candidate_quarantine_key h) <-> h ∈ cp_quarantined pool;
}.

Definition run_candidate (call : CandidateCall) : St unit :=
  match call with
  | CandStore block work => store_candidate_block block work
  | CandRemove hashes => remove_candidate_blocks hashes
  | CandClear => clear_candidate_blocks
  | CandQuarantine hash reason => quarantine_candidate_tip hash reason
  end.

(** What a call promises: an error leaves the pool as it is. *)
Definition spec_candidate (pool : CandidatePool) (call : CandidateCall) : res StorageError CandidatePool :=
  match call with
  | CandStore block work =>
      let hash := header_hash (blk_header block) in
      let? value := json_vec block in
      if MAX_CANDIDATE_BYTES <? Z.of_nat (length value)
      then Err (Serialization "candidate block exceeds size limit")
      else if bool_decide (cp_blocks pool !! hash = None)
              && (MAX_CANDIDATES <=? Z.of_nat (size (cp_blocks pool)))
      then Err (Io "candidate block pool is full")
      else Ok {| cp_blocks := <[hash := (block, work)]> (cp_blocks pool);
                 cp_quarantined := cp_quarantined pool |}
  | CandRemove hashes =>
      Ok {| cp_blocks := fold_left (fun m h => delete h m) hashes (cp_blocks pool);
            cp_quarantined := cp_quarantined pool ∖ list_to_set hashes |}
  | CandClear => Ok {| cp_blocks := ∅; cp_quarantined := ∅ |}
  | CandQuarantine hash _ =>
      Ok {| cp_blocks := cp_blocks pool; cp_quarantined := {[hash]} ∪ cp_quarantined pool |}
  end.

Definition pool_after (pool : CandidatePool) (call : CandidateCall) : CandidatePool :=
  match spec_candidate pool call with Ok pool' => pool' | _ => pool end.

Definition wf_candidate_call (call : CandidateCall) : Prop :=
  match call with CandStore _ work => in_u128 work | _ => True end.

(** The non-quarantined candidate with the most work, the lower hash among
    equals; none when every candidate is quarantined. *)
Definition best_tip (pool : CandidatePool) (r : option (BlockHeader * Z)) : Prop :=
  match r with
  | None => forall h, is_Some (cp_blocks pool !! h) -> h ∈ cp_quarantined pool
  | Some (header, work) =>
      exists b, blk_header b = header /\ cp_blocks pool !! header_hash header = Some (b, work) /\
        (header_hash header ∉ cp_quarantined pool) /\
        forall h' b' w', cp_blocks pool !! h' = Some (b', w') -> h' ∉ cp_quarantined pool ->
          h' <> header_hash header ->
          w' < work \/ (w' = work /\ bytes_compare (header_hash header) h' = Lt)
  end.

(** *** The families of keys *)

Lemma candidate_block_key_inj h h' : candidate_block_key h = candidate_block_key h' -> h = h'.
Proof. apply hash_key_inj. Qed.
Lemma candidate_block_key_below h : has_prefix (B "candidate:block:") (candidate_block_key h) = true.
Proof. apply prefix_app. Qed.

Lemma candidate_families h h' :
  candidate_block_key h <> candidate_work_key h' /\ candidate_block_key h <> candidate_quarantine_key h' /\
  candidate_work_key h <> candidate_quarantine_key h'.
Proof.
  split; [|split].
  - apply (families_ne (B "candidate:block:") (B "candidate:work:")); auto with storage.
  - apply (families_ne (B "candidate:block:") (B "candidate:quarantine:")); auto with storage.
  - apply (families_ne (B "candidate:work:") (B "candidate:quarantine:")); auto with storage.
Qed.

Ltac other_candidate :=
  match goal with |- _ ?a <> _ ?b =>
    destruct (candidate_families a b) as (? & ? & ?), (candidate_families b a) as (? & ? & ?); congruence
  end.

Lemma not_block_key k h :
  has_prefix (B "candidate:block:") k = true -> k <> candidate_work_key h /\ k <> candidate_quarantine_key h.
Proof.
  intros Hk. split.
  - apply (families_ne (B "candidate:block:") (B "candidate:work:")); auto with storage.
  - apply (families_ne (B "candidate:block:") (B "candidate:quarantine:")); auto with storage.
Qed.

Lemma candidate_rep_empty m : (forall k, has_prefix (B "candidate:") k = true -> m !! k = None) ->
  candidate_rep m {| cp_blocks := ∅; cp_quarantined := ∅ |}.
Proof.
  intros H. constructor; cbn [cp_blocks cp_quarantined].
  - apply keyed_empty; [by intros h; apply candidate_block_key_below|]. intros k Hk. apply H.
    apply has_prefix_true in Hk as [r ->]. exact (prefix_app (B "candidate:") (B "block:" ++ r)).
  - intros h b w. by rewrite lookup_empty.
  - intros h. unfold candidate_quarantine_key.
    rewrite (H (B "candidate:quarantine:" ++ hash_to_hex h)) by exact (prefix_app (B "candidate:") (B "quarantine:" ++ _)).
    split; [by intros [? ?]|set_solver].
Qed.

Lemma candidate_rep_store m pool b w v :
  candidate_rep m pool -> to_vec b = Ok v -> in_u128 w ->
  let hash := header_hash (blk_header b) in
  candidate_rep (<[candidate_work_key hash := be_bytes 16 w]> (<[candidate_block_key hash := v]> m))
    {| cp_blocks := <[hash := (b, w)]> (cp_blocks pool); cp_quarantined := cp_quarantined pool |}.
Proof.
  intros [Hb Hw Hq] Hv Hin hash. constructor; cbn [cp_blocks cp_quarantined].
  - eapply (keyed_other _ _ candidate_enc candidate_block_key_below).
    + apply (keyed_insert (B "candidate:block:") candidate_block_key candidate_enc); [apply candidate_block_key_inj|exact Hb|done].
    + intros k Hk. rewrite lookup_insert_ne; [done|]. apply not_eq_sym, not_block_key, Hk.
  - intros h b' w'. destruct (decide (h = hash)) as [->|Hne].
    + rewrite lookup_insert_eq. intros [= <- <-]. split; [done|]. by rewrite lookup_insert_eq.
    + rewrite lookup_insert_ne by done. intros E. destruct (Hw _ _ _ E) as [H1 H2]. split; [done|].
      rewrite !lookup_insert_ne; [done| |].
      * other_candidate.
      * intros Ek. apply Hne. symmetry. revert Ek. apply hash_key_inj.
  - intros h. rewrite <- Hq. rewrite !lookup_insert_ne; [done|other_candidate..].
Qed.

Lemma candidate_rep_remove m pool h :
  candidate_rep m pool ->
  candidate_rep (delete (candidate_quarantine_key h) (delete (candidate_work_key h) (delete (candidate_block_key h) m)))
    {| cp_blocks := delete h (cp_blocks pool); cp_quarantined := cp_quarantined pool ∖ {[h]} |}.
Proof.
  intros [Hb Hw Hq]. constructor; cbn [cp_blocks cp_quarantined].
  - eapply (keyed_other _ _ candidate_enc candidate_block_key_below);
      [apply (keyed_delete (B "candidate:block:") candidate_block_key candidate_enc); [apply candidate_block_key_inj|exact Hb]|].
    intros k Hk. destruct (not_block_key k h Hk).
    by rewrite (lookup_delete_ne _ (candidate_quarantine_key h)), (lookup_delete_ne _ (candidate_work_key h)) by done.
  - intros h' b' w' [Hne E]%lookup_delete_Some. destruct (Hw _ _ _ E) as [H1 H2]. split; [done|].
    rewrite !lookup_delete_ne; [done| | |].
    + other_candidate.
    + intros Ek. apply Hne. revert Ek. apply hash_key_inj.
    + other_candidate.
  - intros h'. rewrite elem_of_difference, elem_of_singleton, <- Hq. destruct (decide (h' = h)) as [->|Hne].
    + rewrite lookup_delete_eq. split; [by intros [? ?]|]. by intros [_ ?].
    + rewrite !lookup_delete_ne; [naive_solver|other_candidate..|].
      intros Ek. apply Hne. symmetry. revert Ek. apply hash_key_inj.
Qed.

Lemma candidate_rep_quarantine m pool h v :
  candidate_rep m pool ->
  candidate_rep (<[candidate_quarantine_key h := v]> m)
    {| cp_blocks := cp_blocks pool; cp_quarantined := {[h]} ∪ cp_quarantined pool |}.
Proof.
  intros [Hb Hw Hq]. constructor; cbn [cp_blocks cp_quarantined].
  - eapply (keyed_other _ _ candidate_enc candidate_block_key_below); [exact Hb|]. intros k Hk. rewrite lookup_insert_ne; [done|].
    apply not_eq_sym, not_block_key, Hk.
  - intros h' b' w' E. rewrite lookup_insert_ne; [by apply Hw in E|]. other_candidate.
  - intros h'. rewrite elem_of_union, elem_of_singleton, <- Hq. destruct (decide (h' = h)) as [->|Hne].
    + rewrite lookup_insert_eq. split; [by left|by eexists].
    + rewrite lookup_insert_ne; [naive_solver|]. intros Ek. apply Hne. symmetry. revert Ek. apply hash_key_inj.
Qed.

Context {HR : SledReliable}.

(** *** The calls *)

Lemma scan_all_reliable (s : SledStorage) (p : list byte) : scan_all s p = Ok (prefix_entries p (contents s)).
Proof.
  unfold scan_all. rewrite read_rows_reliable.
  apply (fold_decode (E := StorageError) (fun kv : list byte * list byte => Ok kv) (fun l kv => l ++ [kv])).
  exists (prefix_entries p (contents s)). split; [|by rewrite fold_snoc].
  induction (prefix_entries p (contents s)); constructor; done.
Qed.

Lemma fold_delete_lookup {V} (ks : list (list byte)) (m : gmap (list byte) V) k :
  fold_left (fun m k => delete k m) ks m !! k = if decide (k ∈ ks) then None else m !! k.
Proof.
  revert m. induction ks as [|k' ks IH]; intros m; cbn [fold_left].
  - rewrite decide_False; [done|]. apply not_elem_of_nil.
  - rewrite IH. destruct (decide (k ∈ ks)) as [H|H]; [by rewrite decide_True by (by right)|].
    destruct (decide (k = k')) as [->|Hne].
    + rewrite decide_True by (by left). by rewrite lookup_delete_eq.
    + rewrite decide_False; [by rewrite lookup_delete_ne|]. by intros [?|?]%elem_of_cons.
Qed.

(** After removing all keys of a scan nothing is left below the prefix. *)
Lemma remove_scan_lookup (p : list byte) (m : Contents) (k : list byte) :
  has_prefix p k = true ->
  fold_left (fun m k => delete k m) (map fst (prefix_entries p m)) m !! k = None.
Proof.
  intros Hk. rewrite fold_delete_lookup. case_decide as Hin; [done|].
  destruct (m !! k) as [v|] eqn:E; [|done]. destruct Hin. apply list_elem_of_fmap.
  exists (k, v). split; [done|]. by apply elem_of_prefix_entries.
Qed.

Lemma run_store_unflushed s pool b w :
  candidate_rep (contents s) pool -> in_u128 w ->
  exists c, runs (store_candidate_block_unflushed b w) s (spec_candidate pool (CandStore b w) ;? Ok tt) c /\
    candidate_rep c (pool_after pool (CandStore b w)).
Proof.
  intros Hrep Hw. unfold store_candidate_block_unflushed, pool_after, spec_candidate, runs.
  set (hash := header_hash (blk_header b)).
  destruct (json_vec b) as [v|e|] eqn:Ev; cbn [res_bind]; [|exists (contents s); split; [by exists s|done]..].
  rewrite (st_bind_res _ _ _ v) by done.
  destruct (MAX_CANDIDATE_BYTES <? Z.of_nat (length v)); [exists (contents s); split; [by exists s|done]|].
  rewrite (st_bind_read _ _ _ (negb (bool_decide (cp_blocks pool !! hash = None)))).
  2: { rewrite db_contains_reliable. f_equal.
    pose proof (kr_value _ _ _ _ _ (cd_blocks _ _ Hrep) hash) as H. destruct (cp_blocks pool !! hash).
    - destruct H as (v' & -> & _). done.
    - by rewrite H. }
  rewrite (st_bind_read _ _ _ (Z.of_nat (size (cp_blocks pool)))).
  2: { f_equal. apply (count_keyed _ _ candidate_enc _ (cp_blocks pool) candidate_block_key_inj candidate_block_key_below).
    apply Hrep. }
  rewrite negb_involutive. destruct (_ && _); cbn [res_bind]; [exists (contents s); split; [by exists s|done]|].
  apply map_err_ok in Ev. subst hash. eexists. split; [|by apply (candidate_rep_store _ _ b w v Hrep Ev Hw)].
  eapply runs_bind; [apply runs_insert|]. intros s1 <-. apply runs_insert.
Qed.

Lemma run_store_candidate s pool b w :
  candidate_rep (contents s) pool -> in_u128 w ->
  exists c, runs (store_candidate_block b w) s (spec_candidate pool (CandStore b w) ;? Ok tt) c /\
    candidate_rep c (pool_after pool (CandStore b w)).
Proof.
  intros Hrep Hw. destruct (run_store_unflushed s pool b w Hrep Hw) as (c & Hr & Hc). exists c. split; [|done].
  unfold store_candidate_block. destruct (spec_candidate pool (CandStore b w)); cbn [res_bind] in *.
  - eapply runs_bind; [exact Hr|]. intros s1 <-. apply runs_flush.
  - destruct Hr as (s' & H & Hs). exists s'. split; [|done]. unfold st_bind. by rewrite H.
  - destruct Hr as (s' & H & Hs). exists s'. split; [|done]. unfold st_bind. by rewrite H.
Qed.

Lemma run_remove_candidates s pool hashes :
  candidate_rep (contents s) pool ->
  exists c, runs (remove_candidate_blocks hashes) s (Ok tt) c /\
    candidate_rep c (pool_after pool (CandRemove hashes)).
Proof.
  intros Hrep. unfold remove_candidate_blocks.
  set (drop := fun c h => delete (candidate_quarantine_key h) (delete (candidate_work_key h) (delete (candidate_block_key h) c)) : Contents).
  exists (fold_left drop hashes (contents s)). split.
  - eapply runs_bind; [apply (runs_for _ _ drop)|].
    + intros h s1 _. unfold drop. eapply runs_bind; [apply runs_remove|]. intros s2 <-.
      eapply runs_bind; [apply runs_remove|]. intros s3 <-. apply runs_remove.
    + intros s1 <-. apply runs_flush.
  - unfold pool_after, spec_candidate. revert pool Hrep. generalize (contents s). clear s.
    induction hashes as [|h hashes IH]; intros m [bs q] Hrep; cbn [fold_left].
    + cbn [cp_quarantined]. by replace (q ∖ list_to_set []) with q by set_solver.
    + apply candidate_rep_remove with (h := h) in Hrep. apply IH in Hrep. cbn [cp_blocks cp_quarantined] in *.
      by replace (q ∖ list_to_set (h :: hashes)) with (q ∖ {[h]} ∖ list_to_set hashes) by set_solver.
Qed.

(** A call on a reliable store does what the specification says, errors
    included. *)
Lemma run_candidate_rep s pool call :
  candidate_rep (contents s) pool -> wf_candidate_call call ->
  exists c, runs (run_candidate call) s (spec_candidate pool call ;? Ok tt) c /\
    candidate_rep c (pool_after pool call).
Proof.
  intros Hrep Hwf. destruct call as [b w|hashes| |h reason]; cbn [run_candidate].
  - by apply run_store_candidate.
  - by apply run_remove_candidates.
  - exists (fold_left (fun m k => delete k m) (map fst (prefix_entries (B "candidate:") (contents s))) (contents s)).
    split; [|apply candidate_rep_empty; intros k Hk; by apply remove_scan_lookup].
    unfold clear_candidate_blocks. eapply runs_bind; [apply runs_read, scan_all_reliable|]. intros s1 <-.
    eapply runs_bind; [apply (runs_for _ _ (fun m k => delete k m)); intros; apply runs_remove|].
    intros s2 <-. apply runs_flush.
  - eexists. split; [|by apply (candidate_rep_quarantine (contents s) pool h reason)].
    unfold quarantine_candidate_tip. eapply runs_bind; [apply runs_insert|]. intros s1 <-. apply runs_flush.
Qed.

(** *** The tip *)

Lemma candidate_blocks_rep s pool :
  candidate_rep (contents s) pool ->
  exists l, candidate_blocks_with_work s = Ok l /\ l ≡ₚ map snd (map_to_list (cp_blocks pool)).
Proof.
  intros Hrep. destruct (keyed_entries _ _ candidate_enc candidate_block_key_inj candidate_block_key_below
    _ _ (cd_blocks _ _ Hrep)) as (xs & Hp & Hf).
  exists (sort_by candidate_cmp (map snd xs)). split; [|by rewrite sort_by_perm, Hp].
  unfold candidate_blocks_with_work. rewrite read_rows_reliable.
  assert (forall h bw, (h, bw) ∈ xs -> candidate_work s (header_hash (blk_header bw.1)) = Ok bw.2 /\
    h = header_hash (blk_header bw.1)) as Hwork.
  { intros h [b w] Hin. assert (cp_blocks pool !! h = Some (b, w)) as E.
    { apply elem_of_map_to_list. by rewrite <- Hp. }
    pose proof (kr_value _ _ _ _ _ (cd_blocks _ _ Hrep) h) as Hv. rewrite E in Hv. destruct Hv as (v & _ & -> & _).
    split; [|done]. cbn [fst snd] in *. destruct (cd_works _ _ Hrep _ _ _ E) as [H1 H2]. unfold candidate_work.
    rewrite db_get_reliable, H2. cbn [res_bind ok_or]. rewrite length_be_bytes. cbn. f_equal. by apply be_val_u128. }
  replace (fold_left _ _ _) with (Ok (E := StorageError) (map snd xs)); [done|]. symmetry.
  transitivity (fold_left (fun acc kv => let? l := acc in
    let? bw := (let? b := json_slice kv.2 in let? w := candidate_work s (header_hash (blk_header b)) in Ok (b, w)) in
    Ok (l ++ [bw])) (prefix_entries (B "candidate:block:") (contents s)) (Ok [])).
  { clear Hf Hwork. generalize (Ok (E := StorageError) ([] : list (Block * Z))).
    induction (prefix_entries (B "candidate:block:") (contents s)) as [|kv l IH]; intros acc; [done|]. cbn [fold_left].
    rewrite IH. match goal with |- fold_left _ _ ?a = fold_left _ _ ?b => enough (a = b) as -> by done end.
    destruct acc; [|done..]. cbn [res_bind]. destruct (json_slice kv.2); [|done..]. cbn [res_bind].
    by destruct (candidate_work s _). }
  rewrite (fold_collect _ (fun l bw => l ++ [bw]) _ (map snd xs)); [by rewrite fold_snoc|].
  clear Hp. induction Hf as [|kv [h [b w]] l xs [_ [_ Hv]] _ IH]; [constructor|]. constructor.
  - unfold json_slice. cbn in Hv. rewrite (json_roundtrip _ _ Hv). cbn [res_map_err res_bind].
    destruct (Hwork h (b, w)) as [H _]; [by left|]. cbn in H. by rewrite H.
  - apply IH. intros h' bw Hin. apply Hwork. by right.
Qed.

(** The best of the candidates seen so far. *)
Definition tip_of (q : gset (list byte)) (l : list (Block * Z)) (best : option (BlockHeader * Z)) : Prop :=
  match best with
  | None => forall bw, bw ∈ l -> header_hash (blk_header bw.1) ∈ q
  | Some hw => exists bw, bw ∈ l /\ hw = (blk_header bw.1, bw.2) /\ (header_hash hw.1 ∉ q) /\
      forall bw', bw' ∈ l -> header_hash (blk_header bw'.1) ∉ q -> better_tip (blk_header bw'.1, bw'.2) hw = false
  end.

Lemma better_tip_false x y :
  better_tip x y = false <->
  x.2 < y.2 \/ (x.2 = y.2 /\ bytes_compare (header_hash x.1) (header_hash y.1) <> Lt).
Proof.
  unfold better_tip, bytes_ltb. destruct (Z.ltb_spec y.2 x.2); cbn [orb]; [split; [done|lia]|].
  destruct (Z.eqb_spec x.2 y.2); cbn [andb]; [|split; [lia|done]].
  destruct (bytes_compare _ _) eqn:E; split; try done; try (intros _; right; split; [done|congruence]).
  intros [?|[_ ?]]; [lia|done].
Qed.

Lemma better_tip_trans x y z : better_tip x y = true -> better_tip z y = false -> better_tip z x = false.
Proof.
  intros Hxy Hzy. apply better_tip_false. apply better_tip_false in Hzy. apply not_false_iff_true in Hxy.
  rewrite better_tip_false in Hxy.
  destruct (Z.lt_trichotomy z.2 x.2) as [?|[E|?]]; [by left| |exfalso; apply Hxy; left; lia].
  right. split; [done|]. intros Hlt. apply Hxy. right. split; [lia|]. intros Hxl.
  destruct Hzy as [?|[_ Hzy]]; [apply Hxy; left; lia|]. apply Hzy. by eapply bytes_compare_trans.
Qed.

Lemma tip_step_ok s pool l best bw :
  candidate_rep (contents s) pool -> tip_of (cp_quarantined pool) l best ->
  exists best', tip_step s best bw = Ok best' /\ tip_of (cp_quarantined pool) (l ++ [bw]) best'.
Proof.
  intros Hrep Ht. unfold tip_step, candidate_tip_is_quarantined. rewrite db_contains_reliable. cbn [res_bind].
  set (h := header_hash (blk_header bw.1)). destruct (bool_decide_reflect (is_Some (contents s !! candidate_quarantine_key h))) as [Hq|Hq];
    rewrite (cd_quarantined _ _ Hrep) in Hq; eexists; (split; [done|]).
  - destruct best as [hw|]; cbn [tip_of] in *.
    + destruct Ht as (bw0 & Hin & -> & Hn & Hall). exists bw0. split; [apply elem_of_app; by left|]. split; [done|].
      split; [done|]. intros bw' [Hin'| ->%list_elem_of_singleton]%elem_of_app; [by apply Hall|done].
    + intros bw' [Hin'| ->%list_elem_of_singleton]%elem_of_app; [by apply Ht|done].
  - destruct (from_option _ _ best) eqn:Hb; cbn [tip_of].
    + exists bw. split; [apply elem_of_app; right; by left|]. split; [done|]. split; [done|].
      intros bw' [Hin'| ->%list_elem_of_singleton]%elem_of_app Hq'.
      * destruct best as [hw|]; cbn [tip_of from_option] in *; [|by apply Ht in Hin'].
        destruct Ht as (bw0 & Hin & -> & Hn & Hall). eapply better_tip_trans; [exact Hb|]. by apply Hall.
      * apply better_tip_false. right. split; [done|]. by rewrite (proj2 (bytes_compare_eq _ _)).
    + destruct best as [hw|]; [|done]. cbn [tip_of from_option] in *.
      destruct Ht as (bw0 & Hin & -> & Hn & Hall). exists bw0. split; [apply elem_of_app; by left|]. split; [done|].
      split; [done|]. intros bw' [Hin'| ->%list_elem_of_singleton]%elem_of_app Hq'; [by apply Hall|done].
Qed.

Lemma latest_candidate_tip_rep s pool :
  candidate_rep (contents s) pool -> exists r, latest_candidate_tip s = Ok r /\ best_tip pool r.
Proof.
  intros Hrep. destruct (candidate_blocks_rep s pool Hrep) as (l & Hl & Hp). unfold latest_candidate_tip. rewrite Hl.
  cbn [res_bind].
  assert (forall done_ best, tip_of (cp_quarantined pool) done_ best -> exists r,
    fold_left (fun acc bw => let? best := acc in tip_step s best bw) l (Ok best) = Ok r /\
    tip_of (cp_quarantined pool) (done_ ++ l) r) as H.
  { clear Hl Hp. induction l as [|bw l IH]; intros done_ best Ht; cbn [fold_left].
    - exists best. by rewrite app_nil_r.
    - destruct (tip_step_ok s pool done_ best bw Hrep Ht) as (best' & Hs & Ht'). cbn [res_bind]. rewrite Hs.
      destruct (IH _ _ Ht') as (r & H1 & H2). exists r. split; [done|]. by rewrite <- app_assoc in H2. }
  destruct (H [] None) as (r & Hr & Ht); [by intros bw ?%not_elem_of_nil|]. exists r. split; [done|]. cbn [app] in Ht.
  assert (forall bw, bw ∈ l <-> exists h, cp_blocks pool !! h = Some bw) as Hin.
  { intros bw. rewrite Hp, list_elem_of_fmap.  split.
    - intros ([h x] & -> & E%elem_of_map_to_list). by exists h.
    - intros [h E%elem_of_map_to_list]. by exists (h, bw). }
  assert (forall h bw, cp_blocks pool !! h = Some bw -> h = header_hash (blk_header bw.1)) as Hh.
  { intros h bw E. pose proof (kr_value _ _ _ _ _ (cd_blocks _ _ Hrep) h) as Hv. rewrite E in Hv.
    destruct Hv as (v & _ & -> & _). done. }
  destruct r as [[hdr w]|]; cbn [tip_of best_tip] in *.
  - destruct Ht as ([b w0] & Hb & [= -> ->] & Hn & Hall). cbn [fst snd] in *. apply Hin in Hb as [h E].
    pose proof (Hh _ _ E) as Eh. cbn in Eh. subst h. exists b. split; [done|]. split; [done|]. split; [done|].
    intros h' b' w' E' Hq' Hne. pose proof (Hh _ _ E') as Eh. cbn in Eh. subst h'.
    specialize (Hall (b', w')). cbn in Hall. rewrite better_tip_false in Hall. cbn in Hall.
    destruct Hall as [?|[-> Hc]]; [apply Hin; eauto|done|by left|]. right. split; [done|].
    rewrite bytes_compare_antisym. destruct (bytes_compare (header_hash (blk_header b')) _) eqn:Ec; [|done|done].
    apply bytes_compare_eq in Ec. done.
  - intros h [bw E]. rewrite (Hh _ _ E). apply Ht, Hin. eauto.
Qed.

(** *** Sequences of calls *)

Lemma size_delete_le (hashes : list (list byte)) (m : gmap (list byte) (Block * Z)) :
  (size (fold_left (fun m h => delete h m) hashes m) <= size m)%nat.
Proof.
  revert m. induction hashes as [|h hashes IH]; intros m; cbn [fold_left]; [done|].
  etransitivity; [apply IH|]. rewrite map_size_delete. destruct (m !! h); cbn; lia.
Qed.

Lemma pool_after_size pool call :
  Z.of_nat (size (cp_blocks pool)) <= MAX_CANDIDATES ->
  Z.of_nat (size (cp_blocks (pool_after pool call))) <= MAX_CANDIDATES.
Proof.
  intros Hs. unfold pool_after. destruct call as [b w|hashes| |h reason]; cbn [spec_candidate cp_blocks].
  - destruct (json_vec b); cbn [res_bind]; [|exact Hs..].
    destruct (MAX_CANDIDATE_BYTES <? _); [exact Hs|].
    destruct (bool_decide_reflect (cp_blocks pool !! header_hash (blk_header b) = None)) as [E|E]; cbn [andb].
    + destruct (Z.leb_spec MAX_CANDIDATES (Z.of_nat (size (cp_blocks pool)))); [exact Hs|].
      cbn [cp_blocks]. rewrite map_size_insert, E. cbn. lia.
    + cbn [cp_blocks]. rewrite map_size_insert. by destruct (cp_blocks pool !! _).
  - pose proof (size_delete_le hashes (cp_blocks pool)). lia.
  - by rewrite map_size_empty.
  - exact Hs.
Qed.

Lemma run_candidates_rep calls s pool :
  candidate_rep (contents s) pool -> Forall wf_candidate_call calls ->
  candidate_rep (contents (fold_left (fun s c => (run_candidate c s).2) calls s)) (fold_left pool_after calls pool).
Proof.
  intros Hrep Hwf. revert s pool Hrep. induction Hwf as [|call calls Hc _ IH]; intros s pool Hrep; [done|].
  cbn [fold_left]. apply IH. destruct (run_candidate_rep s pool call Hrep Hc) as (c & (s' & H & <-) & Hc').
  by rewrite H.
Qed.

(** C8: the candidate pool of a store without I/O failures is a map of blocks
    with their works and a set of quarantined tips.  After any sequence of
    stores, removals, clears and quarantines, failing ones included, the rows
    are those of the pool the specification computes; the next call returns
    what the specification says; lookups answer from the pool; the candidate
    tip is the non-quarantined block with the most work and, among equals, the
    lowest hash; and the pool never outgrows its limit. *)
Theorem candidate_pool_refines calls s pool :
  candidate_rep (contents s) pool -> Forall wf_candidate_call calls ->
  let s' := fold_left (fun s c => (run_candidate c s).2) calls s in
  let pool' := fold_left pool_after calls pool in
  candidate_rep (contents s') pool' /\
  (forall call, wf_candidate_call call -> (run_candidate call s').1 = (spec_candidate pool' call ;? Ok tt)) /\
  (forall h, candidate_block_by_hash s' h = ok_or (fst <$> cp_blocks pool' !! h) NotFound) /\
  (exists tip, latest_candidate_tip s' = Ok tip /\ best_tip pool' tip) /\
  (Z.of_nat (size (cp_blocks pool)) <= MAX_CANDIDATES -> Z.of_nat (size (cp_blocks pool')) <= MAX_CANDIDATES).
Proof.
  intros Hrep Hwf s' pool'. pose proof (run_candidates_rep calls s pool Hrep Hwf) as Hrep'. fold s' pool' in Hrep'.
  split; [done|]. split; [|split; [|split]].
  - intros call Hc. destruct (run_candidate_rep s' pool' call Hrep' Hc) as (c & (s2 & H & _) & _). by rewrite H.
  - intros h. unfold candidate_block_by_hash. rewrite db_get_reliable. cbn [res_bind].
    pose proof (kr_value _ _ _ _ _ (cd_blocks _ _ Hrep') h) as Hv. destruct (cp_blocks pool' !! h) as [[b w]|].
    + destruct Hv as (v & -> & _ & Hv). cbn. unfold json_slice. by rewrite (json_roundtrip _ _ Hv).
    + by rewrite Hv.
  - by apply latest_candidate_tip_rep.
  - intros Hs. subst pool'. clear Hrep Hrep' Hwf. revert pool Hs.
    induction calls as [|call calls IH]; intros pool Hs; [done|]. by apply IH, pool_after_size.
Qed.
End candidate_pool.

(** ** The orphan pool *)

Section orphan_pool.
Context {S : Sled} {HX : HexCodec} {D : Digests} {JB : Json Block}.

Definition orphan_enc (h : list byte) (b : Block) (v : list byte) : Prop :=
  h = header_hash (blk_header b) /\ to_vec b = Ok v.

Definition orphan_rep (m : Contents) (pool : gmap (list byte) Block) : Prop :=
  keyed_rep (B "orphan:block:") orphan_key orphan_enc m pool.

Lemma orphan_key_inj h h' : orphan_key h = orphan_key h' -> h = h'.
Proof. apply hash_key_inj. Qed.
Lemma orphan_key_below h : has_prefix (B "orphan:block:") (orphan_key h) = true.
Proof. apply prefix_app. Qed.

Context {HR : SledReliable}.

Lemma orphan_blocks_rep s pool :
  orphan_rep (contents s) pool ->
  exists l, orphan_blocks s = Ok l /\ l ≡ₚ map snd (map_to_list pool) /\
    StronglySorted (fun a b => block_number a <= block_number b) l.
Proof.
  intros Hrep. destruct (keyed_entries _ _ orphan_enc orphan_key_inj orphan_key_below _ _ Hrep) as (xs & Hp & Hf).
  exists (sort_by_key block_number (map snd xs)). split; [|split].
  - unfold orphan_blocks. rewrite read_rows_reliable.
    rewrite (fold_collect (fun kv : list byte * list byte => json_slice kv.2) (fun l b => l ++ [b]) _ (map snd xs)).
    + rewrite fold_snoc. done.
    + clear Hp. induction Hf as [|kv [h b] l xs [_ [_ Hv]] _ IH]; [constructor|]. constructor; [|done].
      unfold json_slice. cbn in Hv. by rewrite (json_roundtrip _ _ Hv).
  - unfold sort_by_key. by rewrite sort_by_perm, Hp.
  - exact (sort_by_sorted _ (cmp_key_preorder block_number) (map snd xs)).
Qed.

Lemma orphan_hash m pool h b : orphan_rep m pool -> pool !! h = Some b -> h = header_hash (blk_header b).
Proof.
  intros Hrep E. pose proof (kr_value _ _ _ _ _ Hrep h) as H. rewrite E in H. by destruct H as (v & _ & -> & _).
Qed.

(** The orphan that makes room: one of least height. *)
Definition evicted (pool : gmap (list byte) Block) (h : list byte) : Prop :=
  exists b, pool !! h = Some b /\ forall h' b', pool !! h' = Some b' -> block_number b <= block_number b'.

Lemma orphan_head s pool l :
  orphan_rep (contents s) pool -> orphan_blocks s = Ok l ->
  match head l with
  | Some b => evicted pool (header_hash (blk_header b))
  | None => pool = ∅
  end.
Proof.
  intros Hrep Hl. destruct (orphan_blocks_rep s pool Hrep) as (l' & Hl' & Hp & Hs). rewrite Hl in Hl'.
  injection Hl' as <-.
  assert (forall b, b ∈ l <-> exists h, pool !! h = Some b) as Hin.
  { intros b. rewrite Hp, list_elem_of_fmap. split.
    - intros ([h x] & -> & E%elem_of_map_to_list). by exists h.
    - intros [h E%elem_of_map_to_list]. by exists (h, b). }
  destruct l as [|b l]; cbn [head].
  - apply map_empty. intros h. destruct (pool !! h) as [b|] eqn:E; [|done].
    assert (b ∈ []) as H by (apply Hin; eauto). by apply not_elem_of_nil in H.
  - assert (exists h, pool !! h = Some b) as [h E] by (apply Hin; by left).
    pose proof (orphan_hash _ _ _ _ Hrep E) as Eh. rewrite <- Eh. exists b. split; [done|].
    intros h' b' E'. assert (b' ∈ b :: l) as Hb by (apply Hin; eauto).
    apply elem_of_cons in Hb as [->|Hb]; [done|]. inversion Hs as [|? ? _ Hall]; subst.
    rewrite List.Forall_forall in Hall. apply Hall. by apply list_elem_of_In.
Qed.

(** The orphan pool keeps at most 128 blocks of at most 2 MiB.  A block
    that is too large is refused and nothing changes; otherwise it is stored,
    and when the pool is full exactly one orphan, of least height, makes room
    for it. *)
Theorem orphan_pool_bounded s pool block :
  orphan_rep (contents s) pool ->
  exists r c pool', runs (store_orphan_block block) s r c /\ orphan_rep c pool' /\
    (Z.of_nat (size pool) <= MAX_ORPHANS -> Z.of_nat (size pool') <= MAX_ORPHANS) /\
    match json_vec block with
    | Ok value =>
        let hash := header_hash (blk_header block) in
        if MAX_ORPHAN_BYTES <? Z.of_nat (length value)
        then r = Err (Serialization "orphan block exceeds size limit") /\ pool' = pool
        else r = Ok tt /\
          if Z.of_nat (size pool) <? MAX_ORPHANS then pool' = <[hash := block]> pool
          else exists old, evicted pool old /\ pool' = <[hash := block]> (delete old pool)
    | Err e => r = Err e /\ pool' = pool
    | Panic => r = Panic /\ pool' = pool
    end.
Proof.
  intros Hrep. unfold store_orphan_block, runs. destruct (json_vec block) as [v|e|] eqn:Ev.
  2,3: eexists _, (contents s), pool; split; [by exists s|done].
  rewrite (st_bind_res _ _ _ v) by done.
  destruct (MAX_ORPHAN_BYTES <? Z.of_nat (length v)).
  { eexists _, (contents s), pool. split; [by exists s|done]. }
  apply map_err_ok in Ev.
  rewrite (st_bind_read _ _ _ (Z.of_nat (size pool))).
  2: { f_equal. by apply (count_keyed _ _ orphan_enc _ pool orphan_key_inj orphan_key_below). }
  assert (orphan_enc (header_hash (blk_header block)) block v) as Henc by done.
  rewrite Z.leb_antisym. destruct (Z.ltb_spec (Z.of_nat (size pool)) MAX_ORPHANS) as [Hlt|Hge]; cbn [negb].
  - set (h := header_hash (blk_header block)) in *.
    exists (Ok tt), (<[orphan_key h := v]> (contents s)), (<[h := block]> pool). split; [|split; [|split; [|done]]].
    + eapply runs_bind; [apply runs_ret|]. intros s1 <-. eapply runs_bind; [apply runs_insert|].
      intros s2 <-. apply runs_flush.
    + by apply (keyed_insert (B "orphan:block:") orphan_key orphan_enc orphan_key_inj).
    + intros _. rewrite map_size_insert. destruct (pool !! _); cbn; lia.
  - destruct (orphan_blocks_rep s pool Hrep) as (l & Hl & _). pose proof (orphan_head s pool l Hrep Hl) as Hh.
    destruct (head l) as [old|] eqn:Eh; [|subst pool; by rewrite map_size_empty in Hge].
    set (ho := header_hash (blk_header old)) in *.
    set (h := header_hash (blk_header block)) in *.
    exists (Ok tt), (<[orphan_key h := v]> (delete (orphan_key ho) (contents s))), (<[h := block]> (delete ho pool)).
    split; [|split; [|split; [|split; [done|by exists ho]]]].
    + eapply (runs_bind _ _ _ tt (delete (orphan_key ho) (contents s))).
      * eapply runs_bind; [by apply runs_read|]. intros s1 <-. rewrite Eh. apply runs_remove.
      * intros s1 <-. eapply runs_bind; [apply runs_insert|]. intros s2 <-. apply runs_flush.
    + apply (keyed_insert (B "orphan:block:") orphan_key orphan_enc orphan_key_inj); [|done].
      by apply (keyed_delete (B "orphan:block:") orphan_key orphan_enc orphan_key_inj).
    + intros Hle. rewrite map_size_insert, map_size_delete. destruct Hh as (b0 & E0 & _). rewrite E0.
      unfold MAX_ORPHANS in *. destruct (delete ho pool !! _); cbn; lia.
Qed.
End orphan_pool.

(** ** Examples: two candidates, the heavier one quarantined *)

Definition candidate_low : Block :=
  {| blk_header := sample_nonce_header 6; blk_transactions := []; blk_receipts := [] |}.
Definition candidate_high : Block :=
  {| blk_header := sample_nonce_header 7; blk_transactions := []; blk_receipts := [] |}.

Definition sample_candidate_calls : list CandidateCall :=
  [CandStore candidate_low 5; CandStore candidate_high 9;
   CandQuarantine (@header_hash toy_digests (blk_header candidate_high)) (B "bad")].

Lemma candidate_pool_refines_witness :
  let JB := table_json [candidate_low; candidate_high] in
  let s := @Build_SledStorage mem_sled ∅ false in
  let s' := fold_left (fun s c => (@run_candidate mem_sled hex_codec toy_digests JB c s).2) sample_candidate_calls s in
  @latest_candidate_tip mem_sled hex_codec toy_digests JB s' = Ok (Some (blk_header candidate_low, 5)) /\
  (@run_candidate mem_sled hex_codec toy_digests JB CandClear s').1 = Ok tt.
Proof.
  intros JB s s'.
  destruct (@candidate_pool_refines mem_sled hex_codec toy_digests JB mem_sled_reliable sample_candidate_calls s
    {| cp_blocks := ∅; cp_quarantined := ∅ |}) as (_ & Hcall & _ & (tip & Htip & _) & _).
  - by apply candidate_rep_empty.
  - repeat (apply List.Forall_cons; [by vm_compute|]). apply List.Forall_nil.
  - split; [vm_compute; reflexivity|]. subst s s'. rewrite (Hcall CandClear I). reflexivity.
Defined.

Lemma orphan_pool_bounded_witness :
  let JB := table_json [candidate_low] in
  exists c pool', @runs mem_sled unit (@store_orphan_block mem_sled hex_codec toy_digests JB candidate_low)
      (@Build_SledStorage mem_sled ∅ false) (Ok tt) c /\
    @orphan_rep hex_codec toy_digests JB c pool' /\
    pool' = <[@header_hash toy_digests (blk_header candidate_low) := candidate_low]> ∅.
Proof.
  intros JB.
  destruct (@orphan_pool_bounded mem_sled hex_codec toy_digests JB mem_sled_reliable
    (@Build_SledStorage mem_sled ∅ false) ∅ candidate_low) as (r & c & pool' & Hr & Hrep & _ & H).
  - by apply keyed_empty; [intros h; apply orphan_key_below|].
  - assert (@json_vec _ JB candidate_low = Ok []) as E by (vm_compute; reflexivity). rewrite E in H. cbn [length] in H.
    destruct H as [-> H]. exists c, pool'. split; [done|]. split; [done|]. by rewrite map_size_empty in H.
Defined.
