(* ===== verification/NodeStore.v ===== *)
(** The storage of a running node ([NodeStorage] in
    [crates/blq-node/src/main.rs]): a generation with its database, or the file
    storage of a partial node.  The EVM state is loaded from and persisted to
    the account rows, a block is inserted together with the state it leads to,
    the derived counters are filled in, and a generation is checked before it
    is used.

    Functions that return [anyhow::Result] run in [StM string]; [any] turns a
    storage error into its message. *)

From Stdlib Require Import ZArith Lia Strings.String Strings.Byte.
From stdpp Require Import sorting gmap fin_maps base list.
From S2P Require Import Prelude Externals Primitives Canonical Rlp RawTx Pow Consensus State StateRoot.
From S2P Require Import Transition Evm BlockExec Replay Network.
From S2P Require Import Sled AccountStore BlockStore ChainStore Generation CandidateStore.
#[local] Open Scope Z_scope.

Definition EVM_STATE_SNAPSHOT_INTERVAL : Z := 256.
Definition SUPPLY_BACKFILL_CHECKPOINT_INTERVAL : Z := 256.

(** [Display for StorageError]. *)
Definition storage_message (e : StorageError) : string :=
  match e with
  | NotFound => "block was not found"
  | Io m => "io error: " ++ m
  | Serialization m => "serialization error: " ++ m
  end.

Definition any_res {A} (r : res StorageError A) : res string A := res_map_err storage_message r.
Definition any {T A} (m : StM StorageError T A) : StM string T A := fun s =>
  let '(r, s) := m s in (any_res r, s).

(** [first..=last]. *)
Definition range_incl (first last : Z) : list Z :=
  map (fun i => first + Z.of_nat i) (seq 0 (Z.to_nat (last - first + 1))).

Section node_store.
Context {S : Sled} {HX : HexCodec} {D : Digests} {U : U256Ops} {R : Revm}.
Context {JB : Json Block} {JH : Json BlockHeader} {JT : Json Transaction} {JR : Json StoredReceipt}.
Context {JE : Json (list SerializedEvmSnapshotEntry)}.

(** ** The EVM state in the account rows *)

(** [revm_state_from_sled], and [evm_state] of a full storage. *)
Definition revm_state_from_sled (s : SledStorage) : res StorageError RevmState :=
  let? accounts := evm_account_snapshot s in
  let? native := account_snapshot s in
  Ok (merge_native_accounts_into_revm_state (revm_state_of_accounts accounts) native).

Definition persist_revm_account (kv : Address * RevmAccount) : St unit :=
  do? (balance, nonce, code, slots) := st_res (res_map_err Serialization (snapshot_account kv.2)) in
  put_evm_account kv.1 balance nonce code slots.

Definition persist_revm_state (state : RevmState) : St unit :=
  st_for (btree_iter state) persist_revm_account.

Definition persist_historical_evm_snapshot (number : Z) : St unit :=
  if negb (number mod EVM_STATE_SNAPSHOT_INTERVAL =? 0) then st_ret tt
  else
    do? snapshot := st_read evm_account_snapshot in
    put_evm_state_snapshot number snapshot.

Definition put_accounts (accounts : Accounts) : St unit :=
  st_for (btree_iter accounts) (fun kv => put_stored_account kv.1 kv.2.1 kv.2.2).

(** The timestamp of the block below, zero for block zero. *)
Definition stored_parent_timestamp (s : SledStorage) (block : Block) : res StorageError Z :=
  let number := hdr_number (blk_header block) in
  if number =? 0 then Ok 0
  else let? header := header_by_number s (number - 1) in Ok (hdr_timestamp_seconds header).

(** ** Rewards and supply counters *)

(** The heights of [backfill_rewards]. *)
Definition backfill_reward (number : Z) : StM string SledStorage unit :=
  do? block := any (st_read (fun s => block_by_number s number)) in
  if existsb is_evm_transaction (blk_transactions block) then any (set_reward_indexed_to number)
  else
    do? accounts := any (st_read account_snapshot) in
    do? parent_timestamp := any (st_read (fun s => stored_parent_timestamp s block)) in
    do? (accounts, _, _) := st_res (simulate_state_transition_from_accounts accounts block parent_timestamp) in
    any (put_accounts accounts) ;!
    any (set_reward_indexed_to number).

Definition backfill_rewards_storage : StM string SledStorage unit := fun s =>
  match best_header s with
  | Err NotFound => (Ok tt, s)
  | Err e => (Err (storage_message e), s)
  | Panic => (Panic, s)
  | Ok best =>
      (do? indexed_to := any (st_read reward_indexed_to) in
       if hdr_number best <=? indexed_to then st_ret tt
       else
         do? persisted := any (st_read has_persisted_native_accounts) in
         if (persisted : bool) then any (set_reward_indexed_to (hdr_number best))
         else st_for (range_incl (sat_add U64_MAX indexed_to 1) (hdr_number best)) backfill_reward) s
  end.

Fixpoint backfill_supply_loop (best : Z) (numbers : list Z) (total burned : Z) : St unit :=
  match numbers with
  | [] => st_ret tt
  | number :: numbers =>
      do? block := st_read (fun s => block_by_number s number) in
      do? parent_timestamp := st_read (fun s => stored_parent_timestamp s block) in
      let '(subsidy, burned_fees) := block_supply_delta block parent_timestamp in
      let total := sat_add U128_MAX total subsidy in
      let burned := sat_add U128_MAX burned burned_fees in
      (if (number mod SUPPLY_BACKFILL_CHECKPOINT_INTERVAL =? 0) || (number =? best)
       then set_supply_totals number total burned else st_ret tt) ;!
      backfill_supply_loop best numbers total burned
  end.

Definition backfill_supply_storage : St unit := fun s =>
  match best_header s with
  | Err NotFound => (Ok tt, s)
  | Err e => (Err e, s)
  | Panic => (Panic, s)
  | Ok best =>
      let best := hdr_number best in
      (do? (indexed_to, total, burned) := st_read supply_totals in
       let stale := best <? indexed_to in
       let indexed_to := if stale then 0 else indexed_to in
       let total := if stale then 0 else total in
       let burned := if stale then 0 else burned in
       (if stale then set_supply_totals indexed_to total burned else st_ret tt) ;!
       if best <=? indexed_to then st_ret tt
       else backfill_supply_loop best (range_incl (sat_add U64_MAX indexed_to 1) best) total burned) s
  end.

(** The blocks of one chain, with the timestamp below each. *)
Fixpoint supply_deltas (parent_timestamp : Z) (blocks : list Block) : list (Bix * Bix) :=
  match blocks with
  | [] => []
  | block :: blocks =>
      block_supply_delta block parent_timestamp ::
      supply_deltas (hdr_timestamp_seconds (blk_header block)) blocks
  end.

Definition add_supply (tb : Z * Z) (delta : Bix * Bix) : Z * Z :=
  (sat_add U128_MAX tb.1 delta.1, sat_add U128_MAX tb.2 delta.2).
Definition sub_supply (tb : Z * Z) (delta : Bix * Bix) : Z * Z :=
  (sat_sub tb.1 delta.1, sat_sub tb.2 delta.2).

(** The stored blocks of [ancestor.number + 1 ..= previous_best.number]. *)
Fixpoint stored_blocks (s : SledStorage) (numbers : list Z) : res StorageError (list Block) :=
  match numbers with
  | [] => Ok []
  | number :: numbers =>
      let? block := block_by_number s number in
      let? blocks := stored_blocks s numbers in
      Ok (block :: blocks)
  end.

Definition suffix_supply_totals (ancestor previous_best : BlockHeader) (replacement : list Block)
    : StM string SledStorage (Z * Z * Z) :=
  do? totals := any (st_read supply_totals) in
  do? (_, total, burned) :=
    if totals.1.1 <? hdr_number previous_best then
      any backfill_supply_storage ;!
      do? totals := any (st_read supply_totals) in
      if totals.1.1 <? hdr_number previous_best
      then st_res (Err "candidate publication deferred: supply index is incomplete"%string)
      else st_ret totals
    else st_ret totals in
  do? removed := any (st_read (fun s =>
    stored_blocks s (range_incl (sat_add U64_MAX (hdr_number ancestor) 1) (hdr_number previous_best)))) in
  let start := hdr_timestamp_seconds ancestor in
  let tb := fold_left sub_supply (supply_deltas start removed) (total, burned) in
  let tb := fold_left add_supply (supply_deltas start replacement) tb in
  st_ret (sat_add U64_MAX (hdr_number ancestor) (Z.of_nat (length replacement)), tb.1, tb.2).

(** [canonical_work_through_storage], [generation_work] up to its best block. *)
Fixpoint sum_work (s : SledStorage) (numbers : list Z) (work : Z) : res StorageError Z :=
  match numbers with
  | [] => Ok work
  | number :: numbers =>
      let? header := header_by_number s number in
      sum_work s numbers (sat_add U128_MAX work (work_for_target (hdr_difficulty_target header)))
  end.

Definition canonical_work_through_storage (s : SledStorage) (height : Z) : res StorageError Z :=
  sum_work s (range_incl 0 height) 0.

Definition generation_work (s : SledStorage) : res StorageError (Z * BlockHeader) :=
  let? best := best_header s in
  let? work := sum_work s (range_incl 0 (hdr_number best)) 0 in
  Ok (work, best).

(** ** Inserting a block *)
Context {IO : FileIo} {JM : Json GenerationManifest} {JC : Json ReplayCheckpoint}.
Context {JP : Json GenerationPublicationRecord} {JS : Json SuffixPublicationRecord} {CM : CompactManifest}.

(** The state is computed before the first write, and written after the
    block. *)
Definition insert_full_block (block : Block) : StM StorageError Generation unit :=
  let number := hdr_number (blk_header block) in
  (if existsb is_evm_transaction (blk_transactions block) then
     do? parent_timestamp := st_read (fun g => stored_parent_timestamp (gn_db g) block) in
     do? state := st_read (fun g => revm_state_from_sled (gn_db g)) in
     do? simulation := st_res (res_map_err Serialization
       (simulate_evm_state_transition_from_state state block parent_timestamp)) in
     on_db (insert_block block) ;!
     on_db (persist_revm_state (sim_state simulation)) ;!
     on_db (set_reward_indexed_to number)
   else
     do? parent_timestamp := st_read (fun g => stored_parent_timestamp (gn_db g) block) in
     do? accounts := st_read (fun g => account_snapshot (gn_db g)) in
     do? (accounts, _, _) := st_res (res_map_err Serialization
       (simulate_state_transition_from_accounts accounts block parent_timestamp)) in
     on_db (insert_block block) ;!
     on_db (put_accounts accounts) ;!
     on_db (set_reward_indexed_to number)) ;!
  on_db (persist_historical_evm_snapshot number) ;!
  refresh_generation_manifest.

(** ** Checking a generation *)

Fixpoint validate_links (s : SledStorage) (pruned : bool) (numbers : list Z) (previous : BlockHeader)
    : res string BlockHeader :=
  match numbers with
  | [] => Ok previous
  | number :: numbers =>
      let? header := any_res (header_by_number s number) in
      if negb (hdr_number header =? sat_add U64_MAX (hdr_number previous) 1)
      then Err "canonical generation has a height gap"%string
      else if negb (bool_decide (hdr_parent_hash header = header_hash previous))
      then Err "canonical generation has a broken parent link"%string
      else
        (if pruned then Ok tt
         else
           let? block := any_res (block_by_number s number) in
           if negb (bool_decide (blk_header block = header))
           then Err "canonical generation block/header mismatch"%string else Ok tt) ;?
        validate_links s pruned numbers header
  end.

Definition validate_stored_chain (s : SledStorage) (pruned : bool) (best : BlockHeader) : res string unit :=
  let? previous := any_res (header_by_number s 0) in
  let? previous := validate_links s pruned (range_incl 1 (hdr_number best)) previous in
  if negb (bool_decide (header_hash previous = header_hash best))
  then Err "canonical generation best-header index is inconsistent"%string else Ok tt.

Definition validate_generation_storage (pruned : bool) : StM string Generation unit := fun g =>
  match best_header (gn_db g) with
  | Err NotFound => (Ok tt, g)
  | Err e => (Err (storage_message e), g)
  | Panic => (Panic, g)
  | Ok best =>
      (st_read (fun g => validate_stored_chain (gn_db g) pruned best) ;!
       do? manifest := any (st_read load_generation_manifest) in
       match manifest with
       | Some _ => any verify_generation_manifest ;! st_ret tt
       | None => st_ret tt
       end) g
  end.

Definition validate_generation_storage_on_open (pruned : bool) : StM string Generation unit :=
  if pruned then validate_generation_storage true
  else
    do? best := any (st_read (fun g => best_header (gn_db g))) in
    do? tip := any (st_read (fun g => header_by_number (gn_db g) (hdr_number best))) in
    if negb (bool_decide (header_hash tip = header_hash best))
    then st_res (Err "archive generation best-header index is inconsistent"%string)
    else any verify_generation_manifest ;! st_ret tt.

(** [consensus_profile_for_genesis]. *)
Definition consensus_profile_for_genesis {BP : BuildProfile} (genesis_hash : Hash256) : list byte :=
  B "blq-consensus-v2|chain=" ++ dec_string MAINNET_CHAIN_ID ++ B "|genesis=" ++ hash_to_hex genesis_hash ++
  B "|pow=" ++ hdr_pow_algorithm genesis_header ++
  B "|target_time=" ++ dec_string TARGET_BLOCK_TIME_SECONDS ++
  B "|deadband=15..45|adjustment_cap=25|issuance=elapsed-time-0.1-blq-per-minute".

Context {BP : BuildProfile}.

(** The first argument is [config.node.expected_genesis_hash]. *)
Definition validate_generation_identity (expected_genesis_hash : option (list byte)) (g : Generation)
    : res string unit :=
  match expected_genesis_hash with
  | None => Ok tt
  | Some text =>
      let? expected := res_map_err (fun _ => "invalid expected_genesis_hash"%string) (hash_from_hex text) in
      let? genesis := any_res (header_by_number (gn_db g) 0) in
      if negb (bool_decide (header_hash genesis = expected))
      then Err "generation genesis does not match configured genesis"%string
      else
        let? manifest := any_res (load_generation_manifest g) in
        match manifest with
        | Some manifest =>
            if negb (bool_decide (gm_profile_fingerprint manifest = consensus_profile_for_genesis expected))
            then Err "generation consensus profile does not match configured genesis"%string else Ok tt
        | None => Ok tt
        end
  end.

Definition validate_generation_storage_for_config (expected_genesis_hash : option (list byte)) (pruned : bool)
    : StM string Generation unit :=
  st_read (validate_generation_identity expected_genesis_hash) ;!
  validate_generation_storage_on_open pruned.

Definition ensure_generation_manifest : StM string Generation unit := fun g =>
  if is_empty (gn_db g) then (Ok tt, g)
  else
    match best_header (gn_db g) with
    | Err NotFound => (Ok tt, g)
    | Err e => (Err (storage_message e), g)
    | Panic => (Panic, g)
    | Ok best =>
        (do? manifest := any (st_read load_generation_manifest) in
         match manifest with
         | Some manifest =>
             if bool_decide (gm_status manifest = Active) && negb (manifest_matches manifest best)
             then st_res (Err "active generation manifest does not match canonical tip"%string)
             else any verify_generation_manifest ;! st_ret tt
         | None =>
             do? genesis_hash := st_read (fun g =>
               match header_by_number (gn_db g) 0 with
               | Ok h => Ok (header_hash h)
               | Err NotFound => Ok (header_hash genesis_header)
               | Err e => Err (storage_message e)
               | Panic => Panic
               end) in
             any (write_generation_manifest {|
               gm_generation_id := 0; gm_status := Active; gm_canonical_height := hdr_number best;
               gm_canonical_hash := header_hash best; gm_state_root := hdr_state_root best;
               gm_profile_fingerprint := consensus_profile_for_genesis genesis_hash;
               gm_finalized_height := finalized_height (hdr_number best); gm_replay_checkpoint := None |})
         end) g
    end.

(** ** The node's view of its storage *)

Inductive NodeStorage := Full (g : Generation) | Partial (f : FileStorage).

(** A method of the full storage; [partial] is the answer of the other. *)
Definition on_full {E A} (m : StM E Generation A) (partial : res E A) : StM E NodeStorage A := fun n =>
  match n with
  | Full g => let '(r, g) := m g in (r, Full g)
  | Partial _ => (partial, n)
  end.
Definition of_full {E A} (f : SledStorage -> res E A) (partial : FileStorage -> res E A) (n : NodeStorage) : res E A :=
  match n with Full g => f (gn_db g) | Partial p => partial p end.

Definition node_is_empty (n : NodeStorage) : bool :=
  match n with Full g => is_empty (gn_db g) | Partial p => file_is_empty p end.
Definition node_best_header : NodeStorage -> res StorageError BlockHeader :=
  of_full best_header file_best_header.
Definition node_header_by_hash (n : NodeStorage) (hash : Hash256) : res StorageError BlockHeader :=
  of_full (fun s => header_by_hash s hash) (fun p => file_header_by_hash p hash) n.
Definition node_header_by_number (n : NodeStorage) (number : Z) : res StorageError BlockHeader :=
  of_full (fun s => header_by_number s number) (fun p => file_header_by_number p number) n.
Definition node_block_by_number (n : NodeStorage) (number : Z) : res StorageError Block :=
  of_full (fun s => block_by_number s number) (fun p => file_block_by_number p number) n.
Definition node_headers_after (n : NodeStorage) (number : Z) (limit : nat) : res string (list BlockHeader) :=
  of_full (fun s => any_res (headers_after s number limit)) (fun p => Ok (file_headers_after p number limit)) n.
Definition node_balance (n : NodeStorage) (a : Address) : res string Bix :=
  of_full (fun s => any_res (balance s a)) (fun _ => Ok 0) n.
Definition node_nonce (n : NodeStorage) (a : Address) : res string Z :=
  of_full (fun s => any_res (nonce s a)) (fun _ => Ok 0) n.
Definition node_account_snapshot : NodeStorage -> res string Accounts :=
  of_full (fun s => any_res (account_snapshot s)) (fun _ => Ok ∅).
Definition node_evm_state : NodeStorage -> res string RevmState :=
  of_full (fun s => any_res (revm_state_from_sled s)) (fun _ => Err "EVM state is unavailable on partial storage"%string).
Definition node_evm_code (n : NodeStorage) (a : Address) : res string (list byte) :=
  of_full (fun s => any_res (evm_code s a)) (fun _ => Err "EVM code is unavailable on partial storage"%string) n.
Definition node_evm_storage_at (n : NodeStorage) (a : Address) (slot : Hash256) : res string Hash256 :=
  of_full (fun s => any_res (evm_storage_at s a slot))
    (fun _ => Err "EVM storage is unavailable on partial storage"%string) n.
Definition node_latest_candidate_tip : NodeStorage -> res string (option (BlockHeader * Z)) :=
  of_full (fun s => any_res (latest_candidate_tip s)) (fun _ => Ok None).
Definition node_oldest_body_height : NodeStorage -> res string (option Z) :=
  of_full (fun s => any_res (oldest_body_height s))
    (fun p => Ok (hdr_number <$> head
       (file_headers_after p 0 (length (file_headers p) + length (file_blocks p))))).

(** [ok()] on a lookup. *)
Definition found {E A} (r : res E A) : option A := match r with Ok a => Some a | _ => None end.

Definition node_sync_block_by_hash (n : NodeStorage) (hash : Hash256) : res string Block :=
  of_full (fun s =>
    match block_by_hash s hash with
    | Ok block => Ok block
    | Panic => Panic
    | Err _ =>
        match candidate_block_by_hash s hash with
        | Ok block => Ok block
        | Panic => Panic
        | Err _ =>
            let? orphans := any_res (orphan_blocks s) in
            ok_or (List.find (fun b => bool_decide (header_hash (blk_header b) = hash)) orphans)
              "block was not found"%string
        end
    end) (fun _ => Err "block bodies require full storage"%string) n.

(** A header outside the chain and the candidates is looked up in the recovery
    spool, which may repair its index. *)
Definition node_difficulty_header_by_hash (hash : Hash256) : StM string NodeStorage BlockHeader := fun n =>
  match node_header_by_hash n hash with
  | Ok header => (Ok header, n)
  | Panic => (Panic, n)
  | Err _ =>
      (do? bw := on_full (any (on_db (recovery_block_by_hash hash)))
         (Err "recovery spool requires full storage"%string) in
       st_ret (blk_header bw.1)) n
  end.

Definition configured_genesis_hash (n : NodeStorage) : Hash256 :=
  match node_header_by_number n 0 with Ok h => header_hash h | _ => header_hash genesis_header end.

(** The view block execution has of the storage. *)
Definition node_view (n : NodeStorage) : ChainView := {|
  cv_header_by_number := fun number => any_res (node_header_by_number n number);
  cv_account_snapshot := node_account_snapshot n;
  cv_evm_state := node_evm_state n;
|}.

Definition validate_header_for_storage {RX : RandomX} (n : NodeStorage) (parent header : BlockHeader)
    : res string unit :=
  res_map_err consensus_message (validate_header_with_genesis parent header (configured_genesis_hash n)).
Definition validate_block_for_storage {RX : RandomX} (activation : option Z) (n : NodeStorage)
    (parent : BlockHeader) (block : Block) : res string unit :=
  res_map_err consensus_message
    (validate_block_with_genesis_and_activation parent block (configured_genesis_hash n) activation).

(** The appends of the file storage. *)
Context (append_block : Block -> res StorageError unit) (append_header : BlockHeader -> res StorageError unit).

Definition on_partial (r : FileStorage -> res StorageError FileStorage) (f : FileStorage)
    : res StorageError unit * NodeStorage :=
  match r f with Ok f' => (Ok tt, Partial f') | Err e => (Err e, Partial f) | Panic => (Panic, Partial f) end.

Definition node_insert_header (header : BlockHeader) : StM StorageError NodeStorage unit := fun n =>
  match n with
  | Full _ => on_full (on_db (insert_header header)) (Ok tt) n
  | Partial f => on_partial (fun f => file_insert_header append_header f header) f
  end.
Definition node_insert_block (block : Block) : StM StorageError NodeStorage unit := fun n =>
  match n with
  | Full _ => on_full (insert_full_block block) (Ok tt) n
  | Partial f => on_partial (fun f => file_insert_block append_block f block) f
  end.

Definition node_backfill_rewards : StM string NodeStorage unit :=
  on_full (on_db backfill_rewards_storage) (Ok tt).
End node_store.
