(* ===== verification/NodeState.v ===== *)
(** The state a node keeps beside its chain: what [revm_state_from_sled] loads
    and [persist_revm_state] writes, what an inserted block does to chain and
    accounts, and how it compares with the replay of the same block. *)

From Stdlib Require Import ZArith Lia Strings.String Strings.Byte.
From stdpp Require Import sorting gmap fin_maps base list.
From S2P Require Import Prelude Externals Primitives Canonical Rlp RawTx Pow Consensus State StateRoot.
From S2P Require Import Transition Evm BlockExec Replay Network.
From S2P Require Import Sled AccountStore BlockStore ChainStore Generation Publish CandidateStore NodeStore.
#[local] Open Scope Z_scope.

(** ** Stored accounts and accounts of revm *)

Section accounts.
Context {U : U256Ops}.

Lemma u256_bytes_of x : length (u256_to_be x) = 32%nat.
Proof. by rewrite u256_to_be_val, length_be_bytes. Qed.

Lemma u256_of_bytes (b : list byte) : wf_hash b -> u256_to_be (u256_from_be b) = b.
Proof.
  intros Hb. rewrite u256_to_be_val, u256_from_be_val by done.
  unfold wf_hash in Hb. rewrite <- Hb. apply be_bytes_be_val.
Qed.

Lemma u256_bytes_inj x y : u256_to_be x = u256_to_be y -> x = y.
Proof.
  rewrite !u256_to_be_val. intros E. apply u256_val_inj.
  assert (U256_MAX < 256 ^ Z.of_nat 32) as Hm by (by vm_compute).
  apply be_bytes_inj in E; [done|..]; pose proof (u256_range x); pose proof (u256_range y); lia.
Qed.

Lemma u256_from_to x : u256_from_be (u256_to_be x) = x.
Proof. apply u256_bytes_inj. by rewrite u256_of_bytes by apply u256_bytes_of. Qed.

Lemma snapshot_slots_lookup (st : gmap u256 u256) k v :
  snapshot_slots st !! k = Some v <-> exists x y, st !! x = Some y /\ k = u256_to_be x /\ v = u256_to_be y.
Proof.
  unfold snapshot_slots. rewrite <- elem_of_list_to_map.
  - rewrite list_elem_of_fmap. split.
    + intros ([x y] & [= -> ->] & Hin%elem_of_map_to_list). by exists x, y.
    + intros (x & y & Hin%elem_of_map_to_list & -> & ->). by exists (x, y).
  - rewrite <- list_fmap_compose. apply (NoDup_fmap_2_strong (fun kv : u256 * u256 => u256_to_be kv.1)).
    + intros [x y] [x' y'] Hx%elem_of_map_to_list Hy%elem_of_map_to_list E. cbn in E.
      apply u256_bytes_inj in E as <-. congruence.
    + apply NoDup_map_to_list.
Qed.

Definition loaded_slots (slots : gmap (list byte) (list byte)) : gmap u256 u256 :=
  fold_left (fun m sv => <[u256_from_be sv.1 := u256_from_be sv.2]> m) (btree_iter slots) ∅.

Lemma loaded_slots_lookup (slots : gmap (list byte) (list byte)) x y :
  map_Forall (fun k v => wf_hash k /\ wf_hash v) slots ->
  loaded_slots slots !! x = Some y <-> slots !! u256_to_be x = Some (u256_to_be y).
Proof.
  intros Hwf. set (rows := map (fun sv : list byte * list byte => (u256_from_be sv.1, u256_from_be sv.2)) (btree_iter slots)).
  assert (loaded_slots slots = fold_left (fun m (x : u256 * u256) => partial_alter (fun _ => Some x.2) x.1 m) rows ∅) as ->.
  { unfold loaded_slots, rows. generalize (∅ : gmap u256 u256).
    induction (btree_iter slots) as [|kv l IH]; intros m; [done|]. cbn. apply IH. }
  assert (forall a b, (a, b) ∈ rows <-> slots !! u256_to_be a = Some (u256_to_be b)) as Hin.
  { intros a b. unfold rows. rewrite list_elem_of_fmap. split.
    - intros ([k v] & [= -> ->] & Hkv%elem_of_btree_iter). destruct (Hwf _ _ Hkv).
      by rewrite (u256_of_bytes k), (u256_of_bytes v).
    - intros Hkv. exists (u256_to_be a, u256_to_be b). cbn. rewrite !u256_from_to. split; [done|].
      by apply elem_of_btree_iter. }
  assert (NoDup (map fst rows)) as Hnd.
  { unfold rows. rewrite map_map. pose proof (NoDup_btree_keys slots) as Hb.
    assert (forall k, k ∈ map fst (btree_iter slots) -> wf_hash k) as Hk.
    { intros k Hk. apply list_elem_of_fmap in Hk as ([k' v] & -> & H%elem_of_btree_iter). by destruct (Hwf _ _ H). }
    clear Hin. induction (btree_iter slots) as [|[k v] l IH]; [constructor|]. cbn in *.
    apply list.NoDup_cons in Hb as [Hn Hb]. apply list.NoDup_cons. split; [|apply IH; [done|intros; apply Hk; by right]].
    intros Hi. apply list_elem_of_fmap in Hi as ([k2 v2] & E & Hi). apply Hn. cbn in E.
    apply (f_equal u256_to_be) in E. rewrite (u256_of_bytes k), (u256_of_bytes k2) in E; [subst k2; apply list_elem_of_fmap; by exists (k, v2)|..].
    - apply Hk. right. apply list_elem_of_fmap. by exists (k2, v2).
    - apply Hk. by left. }
  destruct (decide (x ∈ map fst rows)) as [Hx|Hx].
  - apply list_elem_of_fmap in Hx as ([x' y'] & -> & Hx). cbn.
    rewrite (fold_alter_lookup (fun v _ => Some v) rows ∅ x' y') by done. rewrite <- Hin. split; [by intros [= <-]|].
    intros Hy. apply Hin in Hy. apply Hin in Hx. rewrite Hx in Hy. f_equal. apply u256_bytes_inj. congruence.
  - rewrite (fold_alter_other (fun v _ => Some v) rows) by done. rewrite lookup_empty. split; [done|].
    intros H. apply Hin in H. destruct Hx. apply list_elem_of_fmap. by exists (x, y).
Qed.

(** A well-formed stored account survives loading and taking the snapshot. *)
Lemma snapshot_loaded x : wf_evm_account x -> snapshot_account (revm_account_of x) = Ok x.
Proof.
  destruct x as [[[b n] c] st]. intros (Hb & Hn & Hst). cbn [fst snd] in *.
  unfold snapshot_account, revm_account_of. cbn [ra_balance ra_nonce ra_code ra_storage].
  assert (U128_MAX < U256_MAX) as Hmax by (by vm_compute).
  rewrite u256_of_val by (unfold in_u128 in *; lia). destruct (Z.ltb_spec U128_MAX b) as [|_]; [unfold in_u128 in *; lia|].
  do 2 f_equal. fold (loaded_slots st). apply map_eq. intros k. apply option_eq. intros v. rewrite snapshot_slots_lookup. split.
  - intros (x & y & H & -> & ->). by apply loaded_slots_lookup in H.
  - intros H. destruct (Hst _ _ H) as [Hk Hv]. exists (u256_from_be k), (u256_from_be v).
    rewrite loaded_slots_lookup, !u256_of_bytes by done. done.
Qed.

(** And so does an account of revm that has a snapshot. *)
Lemma loaded_snapshot acc y : snapshot_account acc = Ok y -> revm_account_of y = acc.
Proof.
  unfold snapshot_account. destruct acc as [n b c st]. cbn [ra_balance ra_nonce ra_code ra_storage].
  destruct (Z.ltb_spec U128_MAX (u256_val b)) as [|Hle]; [done|]. intros [= <-]. unfold revm_account_of. f_equal.
  - apply u256_val_inj, u256_of_val, u256_range.
  - fold (loaded_slots (snapshot_slots st)). apply map_eq. intros x. apply option_eq. intros y.
    rewrite loaded_slots_lookup.
    + rewrite snapshot_slots_lookup. split; [intros (x' & y' & H & Ex & Ey)|intros H; by exists x, y].
      apply u256_bytes_inj in Ex, Ey. by subst.
    + intros k v H. apply snapshot_slots_lookup in H as (x' & y' & _ & -> & ->). split; apply u256_bytes_of.
Qed.

Lemma snapshot_wf acc y : in_u64 (ra_nonce acc) -> snapshot_account acc = Ok y -> wf_evm_account y.
Proof.
  unfold snapshot_account. intros Hn. destruct (Z.ltb_spec U128_MAX (u256_val (ra_balance acc))); [done|].
  intros [= <-]. split; [|split; [done|]]; cbn.
  - pose proof (u256_range (ra_balance acc)). unfold in_u128. lia.
  - intros k v H1. apply snapshot_slots_lookup in H1 as (x & z & _ & -> & ->). split; apply u256_bytes_of.
Qed.

Lemma snapshot_nonzero acc y :
  map_Forall (fun _ v => u256_val v <> 0) (ra_storage acc) -> snapshot_account acc = Ok y -> nonzero_slots y.2 = y.2.
Proof.
  unfold snapshot_account. intros Hz. destruct (U128_MAX <? _); [done|]. intros [= <-]. cbn.
  apply map_filter_id. intros k v H. apply snapshot_slots_lookup in H as (x & z & Hx & -> & ->). cbn.
  intros E. apply (Hz _ _ Hx). apply (f_equal be_val) in E. rewrite u256_to_be_val in E.
  assert (U256_MAX < 256 ^ Z.of_nat 32) as Hm by (by vm_compute).
  rewrite be_val_be_bytes_small in E by (pose proof (u256_range z); lia). rewrite E. by vm_compute.
Qed.
End accounts.

(** ** What a run leaves alone *)

Section frames.
Context {S : Sled} {HX : HexCodec}.

(** A successful run changes only keys in [P]. *)
Definition touches {A} (P : list byte -> bool) (m : St A) : Prop :=
  forall s a s' k, m s = (Ok a, s') -> P k = false -> contents s' !! k = contents s !! k.

Lemma touches_read {A} P (f : SledStorage -> res StorageError A) : touches P (st_read f).
Proof. by intros s a s' k [_ ->]%st_read_ok _. Qed.
Lemma touches_res {A} P (r : res StorageError A) : touches P (st_res r).
Proof. by intros s a s' k [_ ->]%st_res_ok _. Qed.
Lemma touches_ret {A} P (a : A) : touches P (st_ret a).
Proof. by intros s b s' k [_ ->]%st_ret_ok _. Qed.

Lemma touches_insert P k v : P k = true -> touches P (db_insert k v).
Proof. intros Hk s a s' k' H Hk'. apply db_insert_ok in H as ->. rewrite lookup_insert_ne; [done|congruence]. Qed.
Lemma touches_remove P k : P k = true -> touches P (db_remove k).
Proof. intros Hk s a s' k' H Hk'. apply db_remove_ok in H as ->. rewrite lookup_delete_ne; [done|congruence]. Qed.
Lemma touches_flush P : touches P db_flush.
Proof. by intros s a s' k ->%db_flush_contents _. Qed.
Lemma touches_flush_db P : touches P flush_db.
Proof. by intros s a s' k ->%flush_db_contents _. Qed.

Lemma touches_bind {A B} P (m : St A) (f : A -> St B) :
  touches P m -> (forall a, touches P (f a)) -> touches P (st_bind m f).
Proof.
  intros Hm Hf s b s' k (a & s1 & H1 & H2)%st_bind_ok Hk. rewrite (Hf a _ _ _ _ H2 Hk). by apply (Hm _ _ _ _ H1).
Qed.

(** The same when the value read matters. *)
Lemma touches_bind_read {A B} P (f : SledStorage -> res StorageError A) (g : A -> St B) :
  (forall s a, f s = Ok a -> touches P (g a)) -> touches P (st_bind (st_read f) g).
Proof. intros H s b s' k (a & s1 & [Hf ->]%st_read_ok & H2)%st_bind_ok Hk. by eapply H. Qed.

Lemma touches_for {A} P (l : list A) (f : A -> St unit) :
  (forall x, x ∈ l -> touches P (f x)) -> touches P (st_for l f).
Proof.
  induction l as [|x l IH]; intros H; [apply touches_ret|]. simpl. apply touches_bind; [apply H; by left|].
  intros _. apply IH. intros. apply H. by right.
Qed.
End frames.

Create HintDb frames.
#[export] Hint Resolve touches_read touches_res touches_ret touches_flush touches_flush_db : frames.
#[export] Hint Extern 2 (touches _ (db_insert _ _)) => apply touches_insert; first [apply prefix_app|reflexivity] : frames.
#[export] Hint Extern 2 (touches _ (db_remove _)) => apply touches_remove; first [apply prefix_app|reflexivity] : frames.

(** Walk a method; reads whose value matters are left over. *)
Ltac frame := repeat (first [solve [eauto with frames] | apply touches_bind; [|intros ?] | case_match]).

Section account_frames.
Context {S : Sled} {HX : HexCodec}.

Definition account_keys : list byte -> bool := has_prefix (B "account:").

Lemma account_prefix p r : has_prefix (B "account:") (B "account:" ++ p ++ r) = true.
Proof. apply prefix_app. Qed.

Lemma touches_put_account a b n : touches account_keys (put_stored_account a b n).
Proof.
  unfold put_stored_account, account_keys. apply touches_bind; [|intros _; apply touches_bind; [|intros _; apply touches_flush_db]].
  - apply touches_insert. apply (account_prefix (B "balance:")).
  - apply touches_insert. apply (account_prefix (B "nonce:")).
Qed.

Lemma existing_below s a keys k slot :
  existing_slots s a = Ok keys -> (k, slot) ∈ keys -> account_keys k = true.
Proof.
  unfold existing_slots. intros H%read_rows_ok.
  assert (Forall (fun kv : list byte * list byte => account_keys kv.1 = true)
    (prefix_entries (B "account:storage:") (contents s))) as Hrows.
  { apply List.Forall_forall. intros [k' v] Hin%list_elem_of_In. apply elem_of_prefix_entries in Hin as [_ Hp].
    apply has_prefix_true in Hp as [r E]. cbn in E |- *. unfold account_keys. rewrite E. apply (account_prefix (B "storage:")). }
  enough (forall rows acc, Forall (fun kv : list byte * list byte => account_keys kv.1 = true) rows ->
    Forall (fun ks : list byte * list byte => account_keys ks.1 = true) acc ->
    fold_left (fun acc kv => let? keys := acc in let? x := address_from_storage_key kv.1 in
      Ok (if bool_decide (x.1 = a) then keys ++ [(kv.1, x.2)] else keys)) rows (Ok acc) = Ok keys ->
    Forall (fun ks : list byte * list byte => account_keys ks.1 = true) keys) as Hall.
  { intros Hin. specialize (Hall _ _ Hrows (List.Forall_nil _) H). rewrite List.Forall_forall in Hall.
    apply list_elem_of_In in Hin. exact (Hall _ Hin). }
  clear Hrows H. induction rows as [|kv rows IH]; intros acc Hr Ha H; [by injection H as <-|].
  apply (fold_res_cons_ok (fun keys kv => let? x := address_from_storage_key kv.1 in
    Ok (if bool_decide (x.1 = a) then keys ++ [(kv.1, x.2)] else keys))) in H as (acc' & H1 & H).
  apply res_bind_ok in H1 as (x & _ & [= <-]). apply List.Forall_cons_iff in Hr as [Hk Hr].
  eapply IH; [done| |exact H]. case_bool_decide; [|done]. apply List.Forall_app. split; [done|]. by repeat constructor.
Qed.

Lemma touches_put_evm a b n c st : touches account_keys (put_evm_account a b n c st).
Proof.
  unfold put_evm_account. apply touches_bind; [apply touches_put_account|intros _].
  apply touches_bind; [|intros _].
  { unfold put_code, account_keys. case_match; [apply touches_remove|apply touches_insert]; apply (account_prefix (B "code:")). }
  apply touches_bind_read. intros s keys Hkeys. apply touches_bind; [|intros _; apply touches_bind; [|intros _; apply touches_flush]].
  - unfold remove_stale_slots. apply touches_for. intros [k slot] Hin. cbn. case_match; [apply touches_ret|].
    apply touches_remove. by eapply existing_below.
  - unfold put_slots. apply touches_for. intros [slot v] _. cbn. unfold account_keys.
    case_match; [apply touches_remove|apply touches_insert]; unfold storage_key; apply (account_prefix (B "storage:")).
Qed.
End account_frames.

(** ** Loading and persisting the EVM state *)

Section persist.
Context {S : Sled} {HX : HexCodec} {D : Digests} {U : U256Ops} {R : Revm}.

Lemma revm_state_lookup accts a : revm_state_of_accounts accts !! a = revm_account_of <$> accts !! a.
Proof.
  unfold revm_state_of_accounts.
  assert (fold_left (fun state kv => revm_put_account state kv.1 (revm_account_of kv.2)) (btree_iter accts) ∅ =
    fold_left (fun m (x : list byte * EvmAccountSnapshot) => partial_alter (fun _ => Some (revm_account_of x.2)) x.1 m)
      (btree_iter accts) (∅ : gmap (list byte) RevmAccount)) as ->.
  { generalize (∅ : gmap (list byte) RevmAccount). induction (btree_iter accts) as [|kv l IH]; intros m; [done|]. cbn. apply IH. }
  destruct (accts !! a) as [x|] eqn:E; cbn [fmap option_fmap option_map].
  - apply elem_of_btree_iter in E.
    by rewrite (fold_alter_lookup (fun v _ => Some (revm_account_of v)) _ _ a x (NoDup_btree_keys accts) E).
  - rewrite (fold_alter_other (fun v _ => Some (revm_account_of v))); [apply lookup_empty|].
    intros Hin. apply list_elem_of_fmap in Hin as ([k v] & -> & H%elem_of_btree_iter). cbn in E. congruence.
Qed.

(** The native accounts of a snapshot are already in it. *)
Lemma merge_own_accounts accts :
  merge_native_accounts_into_revm_state (revm_state_of_accounts accts) (native_of accts) = revm_state_of_accounts accts.
Proof.
  change (apply_accounts_to_revm_state (revm_state_of_accounts accts) (native_of accts) = revm_state_of_accounts accts).
  apply map_eq. intros a. rewrite apply_accounts_lookup. unfold native_of. rewrite lookup_fmap.
  unfold revm_account. rewrite revm_state_lookup. destruct (accts !! a) as [[[[b n] c] st]|]; done.
Qed.

Lemma revm_state_from_sled_rep s accts r :
  account_rep (contents s) accts -> revm_state_from_sled s = Ok r -> r = revm_state_of_accounts accts.
Proof.
  intros Hrep. destruct (account_snapshot_rep s accts Hrep) as (H1 & H2 & _). unfold revm_state_from_sled.
  intros (x & Hx & (y & Hy & [= <-])%res_bind_ok)%res_bind_ok. apply H2 in Hx as ->. apply H1 in Hy as ->.
  apply merge_own_accounts.
Qed.

Lemma revm_state_from_sled_reads {HR : SledReliable} s accts :
  account_rep (contents s) accts -> revm_state_from_sled s = Ok (revm_state_of_accounts accts).
Proof.
  intros Hrep. destruct (account_snapshot_rep s accts Hrep) as (_ & _ & H). destruct (H HR) as [H1 H2].
  unfold revm_state_from_sled. rewrite H2. cbn [res_bind]. rewrite H1. cbn [res_bind]. by rewrite merge_own_accounts.
Qed.

(** The addresses and nonces of a state fit their Rust types. *)
Definition typed_state (state : RevmState) : Prop :=
  map_Forall (fun a acc => wf_address a /\ in_u64 (ra_nonce acc)) state.

Definition stored_account (acc : RevmAccount) : EvmAccountSnapshot :=
  match snapshot_account acc with Ok x => (x.1, nonzero_slots x.2) | _ => entry_default end.

Lemma persist_account_rep s accts a acc u s' :
  account_rep (contents s) accts -> wf_address a -> in_u64 (ra_nonce acc) ->
  persist_revm_account (a, acc) s = (Ok u, s') ->
  is_ok (snapshot_account acc) = true /\ account_rep (contents s') (<[a := stored_account acc]> accts).
Proof.
  intros Hrep Ha Hn H. unfold persist_revm_account in H. cbn [fst snd] in H.
  apply st_bind_ok in H as ([[[b n] c] st] & s1 & [Hx ->]%st_res_ok & H). apply map_err_ok in Hx.
  unfold stored_account. rewrite Hx. split; [done|].
  eapply put_evm_account_rep; [done|done| |done]. exact (snapshot_wf _ _ Hn Hx).
Qed.

Lemma persist_loop_rep l s accts u s' :
  Forall (fun kv : Address * RevmAccount => wf_address kv.1 /\ in_u64 (ra_nonce kv.2)) l ->
  account_rep (contents s) accts -> st_for l persist_revm_account s = (Ok u, s') ->
  Forall (fun kv => is_ok (snapshot_account kv.2) = true) l /\
  account_rep (contents s') (fold_left (fun m kv => <[kv.1 := stored_account kv.2]> m) l accts).
Proof.
  revert s accts. induction l as [|[a acc] l IH]; intros s accts Hl Hrep H.
  - apply st_ret_ok in H as [_ ->]. by split.
  - apply List.Forall_cons_iff in Hl as [[Ha Hn] Hl]. apply st_for_cons in H as (s1 & H1 & H).
    destruct (persist_account_rep _ _ _ _ _ _ Hrep Ha Hn H1) as [Hok Hrep1].
    destruct (IH s1 _ Hl Hrep1 H) as [Hall Hrep2]. split; [by constructor|done].
Qed.

(** Persisting writes the accounts of the state over the stored ones. *)
Lemma persist_revm_state_rep state s accts u s' :
  account_rep (contents s) accts -> typed_state state -> persist_revm_state state s = (Ok u, s') ->
  (exists new, evm_accounts_from_revm_state state = Ok new) /\
  account_rep (contents s') ((stored_account <$> state) ∪ accts).
Proof.
  intros Hrep Ht H. unfold persist_revm_state in H. apply (persist_loop_rep _ _ accts) in H as [Hok Hrep']; [|..|done].
  2: { apply List.Forall_forall. intros [a acc] Hin%list_elem_of_In. apply elem_of_btree_iter in Hin. by apply Ht in Hin. }
  split.
  - destruct (try_insert_total snapshot_account (btree_iter state) ∅) as [m Hm]; [|by exists m].
    intros a acc Hin. rewrite List.Forall_forall in Hok. apply list_elem_of_In in Hin. apply Hok in Hin.
    apply is_ok_true in Hin as [x Hx]. by exists x.
  - enough ((stored_account <$> state) ∪ accts = fold_left (fun m kv => <[kv.1 := stored_account kv.2]> m) (btree_iter state) accts) as -> by done.
    apply map_eq. intros a. set (rows := map (fun kv : Address * RevmAccount => (kv.1, stored_account kv.2)) (btree_iter state)).
    assert (forall m : EvmStateSnapshot, fold_left (fun m kv => <[kv.1 := stored_account kv.2]> m) (btree_iter state) m =
      fold_left (fun (m : EvmStateSnapshot) (kv : list byte * EvmAccountSnapshot) => <[kv.1 := kv.2]> m) rows m) as Hf.
    { unfold rows. clear rows Hok Hrep'. induction (btree_iter state) as [|kv l IH]; intros m; [done|]. cbn. apply IH. }
    rewrite Hf. assert (forall x, (a, x) ∈ rows <-> stored_account <$> state !! a = Some x) as Hin.
    { intros x. unfold rows. rewrite list_elem_of_fmap, fmap_Some. split.
      - intros ([a' acc] & [= -> ->] & E%elem_of_btree_iter). by exists acc.
      - intros (acc & E & ->). exists (a, acc). split; [done|]. by apply elem_of_btree_iter. }
    destruct (fold_insert_lookup rows accts a) as [H1 H2]; [intros v v' Hv Hv'; apply Hin in Hv, Hv'; congruence|].
    destruct (state !! a) as [acc|] eqn:E.
    + rewrite (H1 (stored_account acc)) by (by apply Hin). rewrite lookup_union, lookup_fmap, E. by destruct (accts !! a).
    + rewrite H2 by (intros v Hv; apply Hin in Hv; done). rewrite lookup_union, lookup_fmap, E. by destruct (accts !! a).
Qed.

(** Without zero slots, loading what was persisted gives the state, over what
    was stored before. *)
Lemma persisted_state state accts new :
  no_zero_slots state -> evm_accounts_from_revm_state state = Ok new ->
  revm_state_of_accounts ((stored_account <$> state) ∪ accts) = state ∪ revm_state_of_accounts accts /\
  (stored_account <$> state) = new.
Proof.
  intros Hz Hnew. unfold evm_accounts_from_revm_state in Hnew. rewrite try_map_ok in Hnew.
  assert (forall a acc, state !! a = Some acc -> new !! a = Some (stored_account acc) /\
    snapshot_account acc = Ok (stored_account acc)) as Hs.
  { intros a acc E. specialize (Hnew a). rewrite E in Hnew. destruct (new !! a) as [x|]; [|done].
    unfold stored_account. rewrite Hnew. rewrite (snapshot_nonzero acc x); [|exact (Hz _ _ E)|done].
    by destruct x. }
  split; apply map_eq; intros a.
  - rewrite revm_state_lookup, !lookup_union, lookup_fmap, revm_state_lookup. destruct (state !! a) as [acc|] eqn:E.
    + transitivity (Some (revm_account_of (stored_account acc))); [by destruct (accts !! a)|].
      rewrite (loaded_snapshot acc) by (by apply (Hs a)). by destruct (accts !! a).
    + by destruct (accts !! a).
  - rewrite lookup_fmap. specialize (Hnew a). destruct (state !! a) as [acc|] eqn:E; cbn.
    + symmetry. by apply (Hs a).
    + by destruct (new !! a).
Qed.

Lemma touches_persist state : touches account_keys (persist_revm_state state).
Proof.
  unfold persist_revm_state. apply touches_for. intros [a acc] _. unfold persist_revm_account.
  apply touches_bind; [apply touches_res|]. intros [[[b n] c] st]. apply touches_put_evm.
Qed.

Lemma touches_put_accounts accounts : touches account_keys (put_accounts accounts).
Proof. apply touches_for. intros [a [b n]] _. apply touches_put_account. Qed.
End persist.

(** ** Execution keeps the state free of zero slots *)

Section no_zero.
Context {D : Digests} {U : U256Ops} {R : Revm}.

Lemma evm_round_no_zero header run0 t run :
  no_zero_slots (run_state run0) -> evm_round header run0 t = Ok run -> no_zero_slots (run_state run).
Proof.
  intros Hz H. unfold evm_round in H. apply res_bind_ok in H as (_ & _ & H).
  apply res_bind_ok in H as ([output state] & Hx & H). apply map_err_ok in Hx.
  apply res_bind_ok in H as (gas & _ & [= <-]). cbn. unfold execute_transaction in Hx.
  destruct (U64_MAX <? _); [done|]. destruct (revm_build _); [done|].
  apply res_bind_ok in Hx as ([result changes] & _ & [= _ <-]). by apply commit_no_zero.
Qed.

Lemma evm_transition_no_zero evm block pt evm' r :
  no_zero_slots evm -> execute_evm_state_transition_in_place evm block pt = (evm', Ok r) -> no_zero_slots evm'.
Proof.
  intros Hz H. unfold execute_evm_state_transition_in_place in H.
  destruct (evm_transition_run evm block pt) as [[evm1 r1]|e|] eqn:E; [|done..]. injection H as <- _.
  unfold evm_transition_run in E. apply res_bind_ok in E as (run & Hf & E).
  destruct (_ <? _); [done|]. injection E as <- _.
  assert (no_zero_slots (run_state run)) as Hr.
  { revert Hf. generalize (blk_transactions block). intros ts.
    match goal with |- fold_left _ _ (Ok ?r0) = _ -> _ => assert (no_zero_slots (run_state r0)) as H0 by done; revert H0; generalize r0 end.
    induction ts as [|t ts IH]; intros r0 H0 Hf; [by injection Hf as <-|].
    apply (fold_res_cons_ok (evm_round (blk_header block))) in Hf as (r2 & H1 & Hf).
    eapply IH; [|exact Hf]. by eapply evm_round_no_zero. }
  unfold evm_reward. destruct (split_fee _ _) as [_ fee]. apply map_Forall_insert_2; [|done]. cbn.
  by apply account_no_zero.
Qed.
End no_zero.

(** ** Plain accounts written over the stored ones *)

Definition put_native (bn : Z * Z) (o : option EvmAccountSnapshot) : option EvmAccountSnapshot :=
  let x := default entry_default o in Some (bn.1, bn.2, x.1.2, x.2).

Definition put_over (m : Accounts) (accts : EvmStateSnapshot) : EvmStateSnapshot :=
  fold_left (fun accts (kv : Address * (Z * Z)) => partial_alter (put_native kv.2) kv.1 accts) (btree_iter m) accts.

Definition typed_accounts (m : Accounts) : Prop :=
  map_Forall (fun a x => wf_address a /\ in_u128 x.1 /\ in_u64 x.2) m.

Section plain.
Context {S : Sled} {HX : HexCodec} {D : Digests} {U : U256Ops} {R : Revm}.

Lemma put_over_lookup m accts a :
  put_over m accts !! a = match m !! a with Some bn => put_native bn (accts !! a) | None => accts !! a end.
Proof.
  unfold put_over. destruct (m !! a) as [bn|] eqn:E.
  - apply elem_of_btree_iter in E. exact (fold_alter_lookup put_native _ accts a bn (NoDup_btree_keys m) E).
  - apply (fold_alter_other put_native). intros Hin. apply list_elem_of_fmap in Hin as ([k v] & -> & H%elem_of_btree_iter).
    cbn in E. congruence.
Qed.

Lemma native_of_put_over m accts : native_of (put_over m accts) = m ∪ native_of accts.
Proof.
  apply map_eq. intros a. unfold native_of. rewrite lookup_fmap, put_over_lookup, lookup_union, lookup_fmap.
  destruct (m !! a) as [[b n]|]; by destruct (accts !! a).
Qed.

Lemma loaded_put_over m accts :
  revm_state_of_accounts (put_over m accts) = apply_accounts_to_revm_state (revm_state_of_accounts accts) m.
Proof.
  apply map_eq. intros a. rewrite revm_state_lookup, apply_accounts_lookup, put_over_lookup.
  unfold revm_account. rewrite revm_state_lookup. destruct (m !! a) as [[b n]|]; [|done].
  by destruct (accts !! a) as [[[[b' n'] c'] st']|].
Qed.

Lemma put_accounts_rep m s accts u s' :
  typed_accounts m -> account_rep (contents s) accts -> put_accounts m s = (Ok u, s') ->
  account_rep (contents s') (put_over m accts).
Proof.
  intros Ht Hrep H. unfold put_accounts, put_over in *.
  assert (Forall (fun kv : Address * (Z * Z) => wf_address kv.1 /\ in_u128 kv.2.1 /\ in_u64 kv.2.2) (btree_iter m)) as Hl.
  { apply List.Forall_forall. intros [a x] Hin%list_elem_of_In. apply elem_of_btree_iter in Hin. by apply (Ht a x). }
  clear Ht. revert s accts Hrep H. induction Hl as [|[a [b n]] l (Ha & Hb & Hn) _ IH]; intros s accts Hrep H.
  - by apply st_ret_ok in H as [_ ->].
  - apply st_for_cons in H as (s1 & H1 & H). cbn [fst snd fold_left] in *. apply put_stored_account_ok in H1.
    apply (IH s1); [|exact H]. rewrite H1.
    replace (partial_alter (put_native (b, n)) a accts) with
      (<[a := (b, n, (stored_rest accts a).1, (stored_rest accts a).2)]> accts).
    + by apply rep_put_account.
    + apply partial_alter_ext. by intros x <-.
Qed.

Lemma typed_insert m a b n :
  typed_accounts m -> wf_address a -> in_u128 b -> in_u64 n -> typed_accounts (<[a := (b, n)]> m).
Proof. intros. by apply map_Forall_insert_2. Qed.

Lemma typed_of m a : typed_accounts m -> in_u128 (balance_of m a) /\ in_u64 (nonce_of m a).
Proof.
  intros H. unfold balance_of, nonce_of. destruct (m !! a) as [x|] eqn:E; [|by (split; vm_compute; split; discriminate)].
  by destruct (H _ _ E) as (_ & ? & ?).
Qed.

Lemma typed_round split base m fees rs t m' fees' rs' :
  in_u128 base -> wf_tx t -> typed_accounts m ->
  apply_transaction split base (m, fees, rs) t = Ok (m', fees', rs') -> typed_accounts m'.
Proof.
  intros Hbase Ht Hm E. apply apply_transaction_inv in E as (to & [Hto _ Hbal _ _ Hacc _ _]). cbv zeta in Hacc.
  assert (tx_amounts_ok t) as Hta by (destruct Ht; unfold tx_amounts_ok; tauto).
  pose proof (tx_fee_range base t (proj1 Hbase) Hta) as Hfee. destruct (typed_of m (tx_from t) Hm) as [Hb Hn].
  assert (in_u128 (sat_add U128_MAX (tx_value t) (tx_fee base t))) as Htot by (destruct Ht; auto with blq_arith).
  assert (in_u64 1) as H1 by (by vm_compute).
  assert (typed_accounts (<[tx_from t := (balance_of m (tx_from t) - sat_add U128_MAX (tx_value t) (tx_fee base t),
    sat_add U64_MAX (nonce_of m (tx_from t)) 1)]> m)) as Hm1.
  { apply typed_insert; [done|apply Ht|unfold in_u128 in *; lia|auto with blq_arith]. }
  rewrite Hacc. destruct (typed_of _ to Hm1) as [Hb' Hn']. apply typed_insert; [done| | |done].
  - by eapply wf_tx_to.
  - apply sat_add_u128; [done|apply Ht].
Qed.

Lemma simulate_typed m block pt m' rs g :
  wf_header (blk_header block) -> Forall wf_tx (blk_transactions block) -> typed_accounts m ->
  simulate_state_transition_from_accounts m block pt = Ok (m', rs, g) -> typed_accounts m'.
Proof.
  intros Hh Hts Hm E. unfold simulate_state_transition_from_accounts in E.
  apply res_bind_ok in E as (gas & _ & E). destruct (_ <? gas); [done|].
  apply res_bind_ok in E as ([[m1 fees] rs1] & Hr & [= Em _ _]).
  assert (typed_accounts m1) as Hm1.
  { clear Em. revert Hr. generalize (@nil Receipt) at 1 as rs0. generalize 0 at 1 as fees0. revert m Hm.
    induction Hts as [|t ts Ht _ IH]; intros m Hm fees0 rs0 Hr; [by injection Hr as <- _ _|].
    match type of Hr with fold_left (fun acc t => res_bind acc (fun st => apply_transaction ?sp ?b st t)) _ _ = _ =>
      apply (fold_res_cons_ok (apply_transaction sp b)) in Hr as ([[m2 f2] r2] & H1 & Hr) end.
    eapply IH; [|exact Hr]. eapply typed_round; [apply Hh|exact Ht|exact Hm|exact H1]. }
  rewrite <- Em. destruct (Z.ltb_spec 0 (sat_add U128_MAX (block_reward_for_interval_bix pt
    (hdr_timestamp_seconds (blk_header block))) fees)) as [Hpos|]; [|done].
  destruct (typed_of m1 (beneficiary_address (blk_header block)) Hm1) as [Hb Hn]. unfold balance_of, nonce_of in Hb, Hn.
  apply typed_insert; [done| | |].
  - unfold beneficiary_address, address_from_word, wf_address. rewrite length_drop. by rewrite (wf_hdr_beneficiary _ Hh).
  - destruct (m1 !! beneficiary_address (blk_header block)); cbn in *; unfold in_u128, sat_add in *; lia.
  - by destruct (m1 !! beneficiary_address (blk_header block)).
Qed.

Lemma native_of_typed accts : wf_evm_accounts accts -> typed_accounts (native_of accts).
Proof.
  intros H a x Hx. unfold native_of in Hx. apply lookup_fmap_Some in Hx as (y & <- & Hy).
  destruct (H _ _ Hy) as (Ha & Hb & Hn & _). done.
Qed.
End plain.

(** ** Inserting a block into a full node *)

Section insertion.
Context {S : Sled} {HX : HexCodec} {D : Digests} {U : U256Ops} {R : Revm}.
Context {JB : Json Block} {JH : Json BlockHeader} {JT : Json Transaction} {JR : Json StoredReceipt}.
Context {JE : Json (list SerializedEvmSnapshotEntry)}.
Context {IO : FileIo} {JM : Json GenerationManifest} {JC : Json ReplayCheckpoint}.
Context {JP : Json GenerationPublicationRecord} {JS : Json SuffixPublicationRecord} {CM : CompactManifest}.

Definition state_keys : list byte -> bool := has_prefix (B "state:").

Lemma other_prefix p q k :
  has_prefix p q = false -> has_prefix q p = false -> has_prefix p k = true -> has_prefix q k = false.
Proof.
  intros H1 H2 Hk. destruct (has_prefix q k) eqn:E; [|done]. by destruct (families_ne p q k k H1 H2 Hk E).
Qed.

(** Rows outside the chain. *)
Definition chain_key (k : list byte) : bool :=
  existsb (fun p => has_prefix p k) [B "block:number:"; B "header:number:"; B "log:index:"; B "best:number"].

Lemma chain_rep_other m c m' :
  chain_rep m c -> (forall k, chain_key k = true -> m' !! k = m !! k) -> chain_rep m' c.
Proof.
  intros [Hrows Hbest] H. split.
  - eapply chain_rows_other; [done|]. intros p k Hp Hk. apply H. unfold chain_key. apply existsb_exists.
    exists p. split; [|done]. rewrite !elem_of_cons in Hp. cbn. destruct Hp as [->|[->|[->|[]%not_elem_of_nil]]]; auto.
  - rewrite H by reflexivity. exact Hbest.
Qed.

Lemma chain_key_other k : chain_key k = true -> account_keys k = false /\ state_keys k = false.
Proof.
  intros Hk. apply existsb_exists in Hk as (p & Hp & Hk). cbn in Hp.
  destruct Hp as [<-|[<-|[<-|[<-|[]]]]]; (split; (eapply other_prefix; [| |exact Hk]; reflexivity)).
Qed.

Lemma account_key_state k : account_keys k = true -> state_keys k = false.
Proof. apply other_prefix; reflexivity. Qed.

Lemma touches_reward_index n : touches state_keys (set_reward_indexed_to n).
Proof. unfold set_reward_indexed_to. frame. Qed.

Lemma touches_snapshot n : touches state_keys (persist_historical_evm_snapshot n).
Proof.
  unfold persist_historical_evm_snapshot, put_evm_state_snapshot. frame.
Qed.

(** State rows change neither the chain nor the accounts. *)
Lemma state_run {A} (m : St A) s a s' c accts :
  touches state_keys m -> m s = (Ok a, s') ->
  chain_rep (contents s) c -> account_rep (contents s) accts ->
  chain_rep (contents s') c /\ account_rep (contents s') accts.
Proof.
  intros Ht H Hc Ha. split.
  - eapply chain_rep_other; [done|]. intros k Hk. eapply Ht; [done|]. by apply chain_key_other.
  - eapply account_rep_other; [done|]. intros k Hk. eapply Ht; [done|]. by apply account_key_state.
Qed.

Lemma account_run_chain {A} (m : St A) s a s' c :
  touches account_keys m -> m s = (Ok a, s') -> chain_rep (contents s) c -> chain_rep (contents s') c.
Proof.
  intros Ht H Hc. eapply chain_rep_other; [done|]. intros k Hk. eapply Ht; [done|]. by apply chain_key_other.
Qed.

Lemma on_db_ok {E A} (m : StM E SledStorage A) g a g' :
  on_db m g = (Ok a, g') -> m (gn_db g) = (Ok a, gn_db g') /\ gn_files g' = gn_files g.
Proof. unfold on_db. destruct (m (gn_db g)) as [r db]. intros [= -> <-]. done. Qed.

Lemma refresh_db g u g' : refresh_generation_manifest g = (Ok u, g') -> gn_db g' = gn_db g.
Proof.
  unfold refresh_generation_manifest. intros (manifest & g1 & [_ ->]%st_read_ok & H)%st_bind_ok.
  destruct manifest as [manifest|]; [|by apply st_ret_ok in H as [_ ->]].
  apply st_bind_ok in H as (best & g1 & [_ ->]%st_read_ok & H). apply st_bind_ok in H as ([] & g1 & H1 & H).
  apply write_file_run in H1 as [[H1 _]|(_ & b & _ & ->)]; [done|].
  unfold write_generation_publication in H. apply st_bind_ok in H as (cs & g2 & [_ ->]%st_res_ok & H).
  by apply write_file_run in H as [[H _]|(_ & b2 & _ & ->)].
Qed.

(** The block rows of the insertion leave the accounts. *)
Lemma insert_block_accounts b s u s' accts :
  insert_block b s = (Ok u, s') -> account_rep (contents s) accts -> account_rep (contents s') accts.
Proof.
  intros (bv & hv & ops & _ & _ & Hops & ->)%insert_block_written Ha.
  apply rep_other; [|reflexivity]. by eapply account_rep_block.
Qed.

(** The timestamp below the next block of a chain. *)
Definition tip_timestamp (c : list Block) : Z :=
  from_option (fun b => hdr_timestamp_seconds (blk_header b)) 0 (last c).

Lemma stored_parent_rep {HR : SledReadable} s c block :
  chain_rep (contents s) c -> block_number block = Z.of_nat (length c) ->
  stored_parent_timestamp s block = Ok (tip_timestamp c).
Proof.
  intros Hc Hn. unfold stored_parent_timestamp. fold (block_number block). rewrite Hn. unfold tip_timestamp.
  destruct c as [|b0 c0 _] using rev_ind; [done|]. rewrite last_snoc, length_app. cbn [length from_option].
  destruct (Z.eqb_spec (Z.of_nat (length c0 + 1)) 0); [lia|].
  replace (Z.of_nat (length c0 + 1) - 1) with (Z.of_nat (length c0)) by lia.
  destruct (header_by_number_rep s _ (Z.of_nat (length c0)) Hc) as [-> _].
  - apply (index_u64 (c0 ++ [b0])); [apply Hc|]. rewrite length_app. cbn. lia.
  - rewrite Nat2Z.id. assert ((c0 ++ [b0]) !! length c0 = Some b0) as -> by (apply lookup_snoc_Some; by right). done.
Qed.

Context {HR : SledReadable}.

(** The two branches of the insertion. *)
Lemma insert_plain_rep block g g' c accts :
  chain_rep (contents (gn_db g)) c -> account_rep (contents (gn_db g)) accts ->
  block_number block = Z.of_nat (length c) -> list_fits (c ++ [block]) ->
  wf_header (blk_header block) -> Forall wf_tx (blk_transactions block) ->
  existsb is_evm_transaction (blk_transactions block) = false ->
  insert_full_block block g = (Ok tt, g') ->
  chain_rep (contents (gn_db g')) (c ++ [block]) /\
  exists m rs gas, simulate_state_transition_from_accounts (native_of accts) block (tip_timestamp c) = Ok (m, rs, gas) /\
    account_rep (contents (gn_db g')) (put_over m accts).
Proof.
  intros Hc Ha Hn Hf Hh Hts Hev H. unfold insert_full_block in H. rewrite Hev in H.
  apply st_bind_ok in H as ([] & g1 & H1 & H).
  apply st_bind_ok in H1 as (pt & g0 & [Hpt ->]%st_read_ok & H1).
  rewrite (stored_parent_rep _ _ _ Hc Hn) in Hpt. injection Hpt as <-.
  apply st_bind_ok in H1 as (native & g0 & [Hnat ->]%st_read_ok & H1).
  apply (account_snapshot_rep _ _ Ha) in Hnat as ->.
  apply st_bind_ok in H1 as ([[m rs] gas] & g0 & [Hsim ->]%st_res_ok & H1). apply map_err_ok in Hsim.
  apply st_bind_ok in H1 as ([] & g2 & [H2 _]%on_db_ok & H1).
  apply st_bind_ok in H1 as ([] & g3 & [H3 _]%on_db_ok & [H1 _]%on_db_ok).
  apply st_bind_ok in H as ([] & g4 & [H4 _]%on_db_ok & H). apply refresh_db in H. rewrite H.
  pose proof (chain_rep_snoc _ _ _ _ _ Hc Hn Hf H2) as Hc2. pose proof (insert_block_accounts _ _ _ _ _ H2 Ha) as Ha2.
  pose proof (simulate_typed _ _ _ _ _ _ Hh Hts (native_of_typed _ (rep_wf _ _ Ha)) Hsim) as Ht.
  pose proof (put_accounts_rep _ _ _ _ _ Ht Ha2 H3) as Ha3.
  pose proof (account_run_chain _ _ _ _ _ (touches_put_accounts m) H3 Hc2) as Hc3.
  destruct (state_run _ _ _ _ _ _ (touches_reward_index _) H1 Hc3 Ha3) as [Hc1 Ha1].
  destruct (state_run _ _ _ _ _ _ (touches_snapshot _) H4 Hc1 Ha1) as [Hc4 Ha4].
  split; [done|]. by exists m, rs, gas.
Qed.

Lemma insert_evm_rep block g g' c accts :
  chain_rep (contents (gn_db g)) c -> account_rep (contents (gn_db g)) accts ->
  block_number block = Z.of_nat (length c) -> list_fits (c ++ [block]) ->
  existsb is_evm_transaction (blk_transactions block) = true ->
  (forall sim, simulate_evm_state_transition_from_state (revm_state_of_accounts accts) block (tip_timestamp c) = Ok sim ->
     typed_state (sim_state sim)) ->
  insert_full_block block g = (Ok tt, g') ->
  chain_rep (contents (gn_db g')) (c ++ [block]) /\
  exists evm rs gas new,
    execute_evm_state_transition_in_place (revm_state_of_accounts accts) block (tip_timestamp c) = (evm, Ok (rs, gas)) /\
    evm_accounts_from_revm_state evm = Ok new /\
    account_rep (contents (gn_db g')) ((stored_account <$> evm) ∪ accts).
Proof.
  intros Hc Ha Hn Hf Hev Hty H. unfold insert_full_block in H. rewrite Hev in H.
  apply st_bind_ok in H as ([] & g1 & H1 & H).
  apply st_bind_ok in H1 as (pt & g0 & [Hpt ->]%st_read_ok & H1).
  rewrite (stored_parent_rep _ _ _ Hc Hn) in Hpt. injection Hpt as <-.
  apply st_bind_ok in H1 as (state & g0 & [Hst ->]%st_read_ok & H1).
  apply (revm_state_from_sled_rep _ _ _ Ha) in Hst as ->.
  apply st_bind_ok in H1 as (sim & g0 & [Hsim ->]%st_res_ok & H1). apply map_err_ok in Hsim.
  apply st_bind_ok in H1 as ([] & g2 & [H2 _]%on_db_ok & H1).
  apply st_bind_ok in H1 as ([] & g3 & [H3 _]%on_db_ok & [H1 _]%on_db_ok).
  apply st_bind_ok in H as ([] & g4 & [H4 _]%on_db_ok & H). apply refresh_db in H. rewrite H.
  pose proof (chain_rep_snoc _ _ _ _ _ Hc Hn Hf H2) as Hc2. pose proof (insert_block_accounts _ _ _ _ _ H2 Ha) as Ha2.
  destruct (persist_revm_state_rep _ _ _ _ _ Ha2 (Hty _ Hsim) H3) as [[new Hnew] Ha3].
  pose proof (account_run_chain _ _ _ _ _ (touches_persist _) H3 Hc2) as Hc3.
  destruct (state_run _ _ _ _ _ _ (touches_reward_index _) H1 Hc3 Ha3) as [Hc1 Ha1].
  destruct (state_run _ _ _ _ _ _ (touches_snapshot _) H4 Hc1 Ha1) as [Hc4 Ha4].
  split; [done|]. unfold simulate_evm_state_transition_from_state in Hsim.
  destruct (execute_evm_state_transition_in_place _ _ _) as [evm [[rs gas]|e|]] eqn:Ex; [|done..].
  injection Hsim as <-. cbn [sim_state] in *. by exists evm, rs, gas, new.
Qed.
End insertion.

(** ** The live state and the replayed state *)

Section tracking.
Context {S : Sled} {HX : HexCodec} {D : Digests} {U : U256Ops} {R : Revm}.
Context {JB : Json Block} {JH : Json BlockHeader} {JT : Json Transaction} {JR : Json StoredReceipt}.
Context {JE : Json (list SerializedEvmSnapshotEntry)}.
Context {IO : FileIo} {JM : Json GenerationManifest} {JC : Json ReplayCheckpoint}.
Context {JP : Json GenerationPublicationRecord} {JS : Json SuffixPublicationRecord} {CM : CompactManifest}.
Context {HR : SledReadable}.

Lemma apply_accounts_no_zero evm native :
  no_zero_slots evm -> no_zero_slots (apply_accounts_to_revm_state evm native).
Proof.
  intros Hz a acc H. rewrite apply_accounts_lookup in H. destruct (native !! a) as [bn|]; [|exact (Hz _ _ H)].
  injection H as <-. cbn. by apply account_no_zero.
Qed.

Lemma no_zero_union (m1 m2 : gmap (list byte) RevmAccount) :
  no_zero_slots m1 -> no_zero_slots m2 -> no_zero_slots (m1 ∪ m2).
Proof. apply map_Forall_union_2. Qed.

(** The native accounts of a state and its snapshot agree. *)
Lemma native_of_snapshot evm native new :
  accounts_from_revm_state evm = Ok native -> evm_accounts_from_revm_state evm = Ok new -> native_of new = native.
Proof.
  unfold accounts_from_revm_state, evm_accounts_from_revm_state. rewrite !try_map_ok. intros H1 H2.
  apply map_eq. intros a. specialize (H1 a). specialize (H2 a). unfold native_of. rewrite lookup_fmap.
  destruct (evm !! a) as [acc|], (native !! a) as [bn|], (new !! a) as [x|]; try done. cbn.
  unfold native_account, snapshot_account in *. destruct (U128_MAX <? _); [done|].
  injection H1 as <-. injection H2 as <-. done.
Qed.

(** C7: inserting a block into a full node extends the stored chain by the
    block and leaves the accounts its execution on the stored state computes:
    the state a replay of the block reaches, laid over what was stored.  For a
    plain block, and for an EVM block that removes no account, live node and
    replay agree on accounts and EVM state; an account the EVM removed stays
    in the store of the live node. *)
Theorem insert_tracks_replay block g g' c accts :
  chain_rep (contents (gn_db g)) c -> account_rep (contents (gn_db g)) accts ->
  block_number block = Z.of_nat (length c) -> list_fits (c ++ [block]) ->
  wf_header (blk_header block) -> Forall wf_tx (blk_transactions block) ->
  no_zero_slots (revm_state_of_accounts accts) ->
  (existsb is_evm_transaction (blk_transactions block) = true -> forall sim,
     simulate_evm_state_transition_from_state (revm_state_of_accounts accts) block (tip_timestamp c) = Ok sim ->
     typed_state (sim_state sim)) ->
  insert_full_block block g = (Ok tt, g') ->
  chain_rep (contents (gn_db g')) (c ++ [block]) /\
  exists accts', account_rep (contents (gn_db g')) accts' /\ no_zero_slots (revm_state_of_accounts accts') /\
    forall native evm,
      replayed (native_of accts) (revm_state_of_accounts accts) block (tip_timestamp c) native evm ->
      native_of accts' = native ∪ native_of accts /\
      revm_state_of_accounts accts' = evm ∪ revm_state_of_accounts accts /\
      ((forall a, is_Some (accts !! a) -> is_Some (evm !! a)) ->
         native_of accts' = native /\ revm_state_of_accounts accts' = evm) /\
      (existsb is_evm_transaction (blk_transactions block) = false ->
         native_of accts' = native /\ revm_state_of_accounts accts' = evm).
Proof.
  intros Hc Ha Hn Hf Hh Hts Hz Hty H.
  assert (forall (A : Type) (m m0 : gmap (list byte) A), (forall a, is_Some (m0 !! a) -> is_Some (m !! a)) -> m ∪ m0 = m) as Hun.
  { intros A m m0 Hd. apply map_eq. intros a. rewrite lookup_union. destruct (m !! a) as [x|] eqn:E; [by destruct (m0 !! a)|].
    destruct (m0 !! a) as [y|] eqn:E0; [|done]. destruct (Hd a) as [x Hx]; [by rewrite E0|congruence]. }
  destruct (existsb is_evm_transaction (blk_transactions block)) eqn:Hev.
  - destruct (insert_evm_rep block g g' c accts Hc Ha Hn Hf Hev (Hty eq_refl) H) as (Hc' & evm & rs & gas & new & Hx & Hnew & Ha').
    pose proof (evm_transition_no_zero _ _ _ _ _ Hz Hx) as Hze.
    destruct (persisted_state evm accts new Hze Hnew) as [Hload Hst].
    split; [done|]. eexists. split; [exact Ha'|]. rewrite Hload. split; [by apply no_zero_union|].
    intros native evm2 [Hr _]. destruct (Hr Hev) as (rs2 & gas2 & root & Hx2 & _ & _ & Hnat).
    rewrite Hx in Hx2. injection Hx2 as <- _ _. rewrite Hst.
    assert (native_of (new ∪ accts) = native ∪ native_of accts) as Hnu.
    { rewrite <- (native_of_snapshot _ _ _ Hnat Hnew). unfold native_of. apply map_fmap_union. }
    split; [done|]. split; [done|]. split; [|done]. intros Hd. rewrite Hnu. split; apply Hun.
    + intros a Hs. unfold native_of in Hs. rewrite lookup_fmap, fmap_is_Some in Hs.
      apply Hd in Hs as [acc Hacc]. unfold accounts_from_revm_state in Hnat. rewrite try_map_ok in Hnat.
      specialize (Hnat a). rewrite Hacc in Hnat. destruct (native !! a); [by eexists|done].
    + intros a Hs. rewrite revm_state_lookup, fmap_is_Some in Hs. by apply Hd.
  - destruct (insert_plain_rep block g g' c accts Hc Ha Hn Hf Hh Hts Hev H) as (Hc' & m & rs & gas & Hsim & Ha').
    split; [done|]. eexists. split; [exact Ha'|]. rewrite loaded_put_over. split; [by apply apply_accounts_no_zero|].
    intros native evm [_ Hr]. destruct (Hr Hev) as (rs2 & gas2 & Hsim2 & _ & ->). rewrite Hsim in Hsim2.
    injection Hsim2 as <- _ _. rewrite native_of_put_over.
    assert (apply_accounts_to_revm_state (revm_state_of_accounts accts) m ∪ revm_state_of_accounts accts =
      apply_accounts_to_revm_state (revm_state_of_accounts accts) m) as Hu.
    { apply Hun. intros a [acc E]. rewrite apply_accounts_lookup. destruct (m !! a); [by eexists|by rewrite E]. }
    rewrite Hu. assert (m ∪ native_of accts = m) as Hm.
    { apply Hun. intros a Hs. apply (simulate_grows (native_of accts) block (tip_timestamp c) m rs gas); [|..|done].
      - split; [apply Hh|]. eapply List.Forall_impl; [|exact Hts]. intros t Ht. destruct Ht. unfold tx_amounts_ok. tauto.
      - intros k x Hx. by destruct (native_of_typed _ (rep_wf _ _ Ha) _ _ Hx) as (_ & ? & _).
      - done. }
    by rewrite Hm.
Qed.
End tracking.

(** ** Example: the next block of a stored chain *)

Section tracking_witness.
Import SampleCodecs.
#[local] Existing Instances mem_sled hex_codec toy_digests mem_files.

Lemma numbered_sample_wf n : in_u64 n -> wf_header (numbered_sample n).
Proof.
  intros Hn. destruct (sample_nonce_header_wf 5) as []; [vm_compute; split; discriminate|].
  unfold numbered_sample. by constructor.
Qed.

Lemma insert_tracks_replay_witness :
  exists g', @insert_full_block mem_sled hex_codec toy_digests u256_z (toy_revm u256_z) JB JH JT JR JE mem_files JM JP CM
      sample_next (sample_generation None) = (Ok tt, g') /\
    chain_rep (contents (gn_db g')) (sample_old ++ [sample_next]).
Proof.
  destruct (sample_generation_rep None) as [Hc Ha].
  assert (fst (@insert_full_block mem_sled hex_codec toy_digests u256_z (toy_revm u256_z) JB JH JT JR JE mem_files JM JP CM
    sample_next (sample_generation None)) = Ok tt) as Hr by (vm_compute; reflexivity).
  destruct (insert_full_block _ _) as [r g'] eqn:E. cbn [fst] in Hr. subst r. exists g'. split; [done|].
  destruct (@insert_tracks_replay mem_sled hex_codec toy_digests u256_z (toy_revm u256_z) JB JH JT JR JE mem_files JM JP CM
    (@reliable_reads _ mem_sled_reliable) sample_next (sample_generation None) g' sample_old ∅) as [H _];
    [exact Hc|exact Ha|reflexivity|vm_compute; discriminate| |apply List.Forall_nil| | |exact E|exact H].
  - apply numbered_sample_wf. vm_compute. split; discriminate.
  - apply map_Forall_empty.
  - discriminate.
Defined.
End tracking_witness.
