(* ===== verification/Supply.v ===== *)
(** The supply counters of a node: the startup backfill of the totals issued
    and burned, and the totals of a chain whose suffix is about to be
    replaced, computed from the totals of the old chain. *)

From Stdlib Require Import ZArith Lia Strings.String Strings.Byte.
From stdpp Require Import sorting gmap fin_maps base list.
From S2P Require Import Prelude Externals Primitives Canonical Rlp RawTx Pow Consensus State StateRoot.
From S2P Require Import Transition Evm BlockExec Replay Network.
From S2P Require Import Sled AccountStore BlockStore ChainStore Generation Publish CandidateStore NodeStore NodeState.
#[local] Open Scope Z_scope.

(** ** The totals of a chain *)

(** Issued and burned over the blocks above block zero. *)
Definition chain_supply (c : list Block) : Z * Z :=
  match c with
  | [] => (0, 0)
  | b :: rest => fold_left add_supply (supply_deltas (hdr_timestamp_seconds (blk_header b)) rest) (0, 0)
  end.

Record typed_block (b : Block) : Prop := {
  tb_header : wf_header (blk_header b);
  tb_transactions : Forall wf_tx (blk_transactions b);
  tb_receipts : Forall wf_receipt (blk_receipts b);
}.

Definition in_supply (tb : Z * Z) : Prop := in_u128 tb.1 /\ in_u128 tb.2.

(** The deltas summed without saturation. *)
Definition total_supply (c : list Block) : Z * Z :=
  match c with
  | [] => (0, 0)
  | b :: rest =>
      let ds := supply_deltas (hdr_timestamp_seconds (blk_header b)) rest in
      (sumZ (map fst ds), sumZ (map snd ds))
  end.

Lemma delta_range b pt : typed_block b -> in_supply (block_supply_delta b pt).
Proof.
  intros [Hh Ht Hr]. unfold block_supply_delta.
  set (split := fee_split_for_utilization _). set (fees := fold_left (sat_add U128_MAX) _ 0).
  assert (in_u128 fees) as Hf.
  { apply fold_sat_range; [by (split; vm_compute; discriminate)|]. apply List.Forall_map, List.Forall_forall.
    intros [t r] Hin. apply List.in_combine_l in Hin as Hint. apply List.in_combine_r in Hin as Hinr. cbn [fst snd].
    rewrite List.Forall_forall in Ht, Hr. apply Ht in Hint. apply Hr in Hinr as (_ & Hg & _).
    apply gas_fee_range; [apply Hg|]. unfold effective_gas_price.
    pose proof (wf_tx_max_fee _ Hint). pose proof (wf_tx_priority _ Hint). pose proof (wf_hdr_base_fee _ Hh).
    unfold in_u128, sat_add in *. lia. }
  assert (0 <= burn_percent split) as Hp.
  { unfold split, fee_split_for_utilization. cbn [burn_percent]. by apply Z.mod_pos_bound. }
  unfold split_fee. split; cbn [fst snd]; [apply reward_range|]. unfold in_u128, sat_mul in *.
  assert (0 <= fees * burn_percent split) by nia. split; [apply Z.div_pos; lia|].
  apply Z.div_le_upper_bound; lia.
Qed.

Lemma deltas_range pt blocks : Forall typed_block blocks -> Forall in_supply (supply_deltas pt blocks).
Proof.
  intros H. revert pt. induction H as [|b blocks Hb _ IH]; intros pt; [constructor|].
  cbn [supply_deltas]. constructor; [by apply delta_range|apply IH].
Qed.

Lemma deltas_app pt b l1 l2 :
  supply_deltas pt ((l1 ++ [b]) ++ l2) =
  supply_deltas pt (l1 ++ [b]) ++ supply_deltas (hdr_timestamp_seconds (blk_header b)) l2.
Proof.
  revert pt. induction l1 as [|x l1 IH]; intros pt; cbn [app supply_deltas]; [done|]. by rewrite IH.
Qed.

(** Totals along a chain that is cut after a block. *)
Lemma chain_supply_app l1 b l2 :
  chain_supply ((l1 ++ [b]) ++ l2) =
  fold_left add_supply (supply_deltas (hdr_timestamp_seconds (blk_header b)) l2) (chain_supply (l1 ++ [b])).
Proof.
  destruct l1 as [|x l1]; [done|]. cbn [app chain_supply].
  rewrite (deltas_app (hdr_timestamp_seconds (blk_header x)) b l1 l2). by rewrite fold_left_app.
Qed.

Lemma total_supply_app l1 b l2 :
  let ds := supply_deltas (hdr_timestamp_seconds (blk_header b)) l2 in
  total_supply ((l1 ++ [b]) ++ l2) =
  ((total_supply (l1 ++ [b])).1 + sumZ (map fst ds), (total_supply (l1 ++ [b])).2 + sumZ (map snd ds)).
Proof.
  destruct l1 as [|x l1]; cbn [app total_supply fst snd].
  - by rewrite !sumZ_cons || done.
  - rewrite (deltas_app (hdr_timestamp_seconds (blk_header x)) b l1 l2), !map_app, !sumZ_app. done.
Qed.

Lemma add_supply_range ds tb : in_supply tb -> Forall in_supply ds -> in_supply (fold_left add_supply ds tb).
Proof.
  intros Htb Hds. revert tb Htb. induction Hds as [|d ds [H1 H2] _ IH]; intros tb [Ht1 Ht2]; [done|].
  cbn [fold_left]. apply IH. split; cbn; auto with blq_arith.
Qed.

Lemma chain_supply_range c : Forall typed_block c -> in_supply (chain_supply c).
Proof.
  intros H. assert (in_supply (0, 0)) as H0 by (split; split; vm_compute; discriminate).
  destruct c as [|b c]; [done|]. apply List.Forall_cons_iff in H as [_ H].
  apply add_supply_range; [done|]. by apply deltas_range.
Qed.

(** Without overflow the saturating sums are the sums. *)
Lemma add_supply_exact ds tb :
  in_supply tb -> Forall in_supply ds -> tb.1 + sumZ (map fst ds) <= U128_MAX -> tb.2 + sumZ (map snd ds) <= U128_MAX ->
  fold_left add_supply ds tb = (tb.1 + sumZ (map fst ds), tb.2 + sumZ (map snd ds)).
Proof.
  intros Htb Hds. revert tb Htb. induction Hds as [|d ds [H1 H2] Hds IH]; intros [t b] [Ht Hb] Hs1 Hs2; cbn [fst snd] in *.
  - cbn. f_equal; lia.
  - cbn [map] in *. rewrite !sumZ_cons in *. cbn [fold_left].
    assert (0 <= sumZ (map fst ds) /\ 0 <= sumZ (map snd ds)) as [Hp1 Hp2].
    { split; apply sumZ_nonneg, List.Forall_map; (eapply List.Forall_impl; [|exact Hds]); intros x [? ?]; unfold in_u128 in *; lia. }
    unfold add_supply at 2. cbn [fst snd]. unfold in_u128 in *. rewrite !sat_add_exact by lia.
    rewrite IH; cbn [fst snd]; [f_equal; lia|split; unfold in_u128; cbn; lia|lia|lia].
Qed.

(** Taking the deltas of a suffix back. *)
Lemma sub_supply_exact ds tb :
  Forall in_supply ds -> sumZ (map fst ds) <= tb.1 -> sumZ (map snd ds) <= tb.2 ->
  fold_left sub_supply ds tb = (tb.1 - sumZ (map fst ds), tb.2 - sumZ (map snd ds)).
Proof.
  intros Hds. revert tb. induction Hds as [|d ds [H1 H2] Hds IH]; intros [t b] Hs1 Hs2; cbn [fst snd] in *.
  - cbn. f_equal; lia.
  - cbn [map] in *. rewrite !sumZ_cons in *. cbn [fold_left].
    assert (0 <= sumZ (map fst ds) /\ 0 <= sumZ (map snd ds)) as [Hp1 Hp2].
    { split; apply sumZ_nonneg, List.Forall_map; (eapply List.Forall_impl; [|exact Hds]); intros x [? ?]; unfold in_u128 in *; lia. }
    unfold sub_supply at 2. cbn [fst snd]. unfold in_u128, sat_sub in *. rewrite !Z.max_l by lia.
    rewrite IH; cbn [fst snd]; [f_equal; lia|lia|lia].
Qed.

(** ** The counters in the store *)

Section supply.
Context {S : Sled} {HX : HexCodec} {D : Digests}.
Context {JB : Json Block} {JH : Json BlockHeader} {JT : Json Transaction} {JR : Json StoredReceipt}.

Lemma range_incl_cons a z : a <= z -> range_incl a z = a :: range_incl (a + 1) z.
Proof.
  intros H. unfold range_incl. replace (Z.to_nat (z - a + 1)) with (Datatypes.S (Z.to_nat (z - (a + 1) + 1))) by lia.
  cbn [seq map]. f_equal; [lia|]. rewrite <- seq_shift, map_map. apply map_ext. intros i. lia.
Qed.

Lemma range_incl_nil a z : z < a -> range_incl a z = [].
Proof. intros H. unfold range_incl. by replace (Z.to_nat (z - a + 1)) with 0%nat by lia. Qed.

Context {HR : SledReliable}.

(** The store with new counters. *)
Definition counted (m : Contents) (i t b : Z) : Contents :=
  <[B "state:supply:burned" := be_bytes 16 b]> (<[B "state:supply:total" := be_bytes 16 t]>
    (<[B "state:supply:indexed_to" := be_bytes 8 i]> m)).

Lemma set_supply_runs i t b s : runs (set_supply_totals i t b) s (Ok tt) (counted (contents s) i t b).
Proof.
  unfold set_supply_totals, counted. eapply runs_bind; [apply runs_insert|]. intros s1 <-.
  eapply runs_bind; [apply runs_insert|]. intros s2 <-. eapply runs_bind; [apply runs_insert|]. intros s3 <-.
  apply runs_flush.
Qed.

Lemma counted_totals s m i t b :
  contents s = counted m i t b -> in_u64 i -> in_supply (t, b) -> supply_totals s = Ok (i, t, b).
Proof.
  intros Hs Hi [Ht Hb]. unfold supply_totals. rewrite !db_get_reliable, Hs. unfold counted.
  rewrite (lookup_insert_ne _ (B "state:supply:burned") (B "state:supply:indexed_to")) by discriminate.
  rewrite (lookup_insert_ne _ (B "state:supply:total") (B "state:supply:indexed_to")) by discriminate.
  rewrite (lookup_insert_ne _ (B "state:supply:burned") (B "state:supply:total")) by discriminate.
  rewrite !lookup_insert_eq. cbn [res_bind fst snd] in *. by rewrite u64_slice, !u128_slice by done.
Qed.

Lemma counted_other m i t b k : state_keys k = false -> counted m i t b !! k = m !! k.
Proof.
  intros Hk. unfold counted. rewrite !lookup_insert_ne; [done|..]; intros <-; discriminate Hk.
Qed.

Lemma counted_reps m i t b c accts :
  chain_rep m c -> account_rep m accts -> chain_rep (counted m i t b) c /\ account_rep (counted m i t b) accts.
Proof.
  intros Hc Ha. split.
  - eapply chain_rep_other; [done|]. intros k Hk. apply counted_other. by apply chain_key_other.
  - eapply account_rep_other; [done|]. intros k Hk. apply counted_other. by apply account_key_state.
Qed.

(** The block after a prefix of the chain, and the timestamp below it. *)
Lemma next_block s c pre b rest :
  chain_rep (contents s) c -> c = pre ++ b :: rest ->
  block_by_number s (Z.of_nat (length pre)) = Ok b /\
  stored_parent_timestamp s b = Ok (tip_timestamp pre).
Proof.
  intros Hc Hcp. assert (c !! length pre = Some b) as Hb by (rewrite Hcp; by apply list_lookup_middle).
  pose proof (block_numbers_lookup _ _ _ (cr_numbers _ _ Hc) Hb) as Hn.
  assert (forall i, (i < length c)%nat -> in_u64 (Z.of_nat i)) as Hi by (intros i; apply index_u64; apply Hc).
  assert (length c = (length pre + Datatypes.S (length rest))%nat) as Hl by (by rewrite Hcp, length_app).
  split.
  - rewrite (proj2 (header_by_number_rep s c _ Hc (Hi (length pre) ltac:(lia)))). by rewrite Nat2Z.id, Hb.
  - unfold stored_parent_timestamp. fold (block_number b). rewrite Hn. unfold tip_timestamp.
    destruct pre as [|x pre _] using rev_ind; [done|]. rewrite last_snoc. rewrite length_app in *. cbn [length] in *.
    destruct (Z.eqb_spec (Z.of_nat (length pre + 1)) 0); [lia|].
    replace (Z.of_nat (length pre + 1) - 1) with (Z.of_nat (length pre)) by lia.
    rewrite (proj1 (header_by_number_rep s c _ Hc (Hi (length pre) ltac:(lia)))), Nat2Z.id.
    assert (c !! length pre = Some x) as ->; [|done]. rewrite Hcp, <- app_assoc. by apply list_lookup_middle.
Qed.

Lemma backfill_loop_run c accts rest pre x s t b :
  chain_rep (contents s) c -> account_rep (contents s) accts -> c = (pre ++ [x]) ++ rest -> rest <> [] ->
  Forall typed_block rest -> in_supply (t, b) ->
  let best := Z.of_nat (length c) - 1 in
  let tb := fold_left add_supply (supply_deltas (hdr_timestamp_seconds (blk_header x)) rest) (t, b) in
  exists s', backfill_supply_loop best (range_incl (Z.of_nat (length (pre ++ [x]))) best) t b s = (Ok tt, s') /\
    chain_rep (contents s') c /\ account_rep (contents s') accts /\ supply_totals s' = Ok (best, tb.1, tb.2).
Proof.
  intros Hc Ha Hcp Hne Hty Htb best. revert pre x s t b Hc Ha Hcp Htb.
  induction rest as [|y rest IH]; intros pre x s t b Hc Ha Hcp Htb; [done|]. clear Hne.
  apply List.Forall_cons_iff in Hty as [Hy Hty].
  destruct (next_block s c (pre ++ [x]) y rest Hc Hcp) as [Hb Hp].
  assert (tip_timestamp (pre ++ [x]) = hdr_timestamp_seconds (blk_header x)) as Htip by (unfold tip_timestamp; by rewrite last_snoc).
  assert (Z.of_nat (length c) = Z.of_nat (length (pre ++ [x])) + 1 + Z.of_nat (length rest)) as Hl.
  { rewrite Hcp at 1. rewrite length_app. cbn [length]. lia. }
  rewrite range_incl_cons by (subst best; lia). cbn [backfill_supply_loop].
  rewrite (st_bind_read _ _ _ y) by done. rewrite (st_bind_read _ _ _ (tip_timestamp (pre ++ [x]))) by done.
  rewrite Htip. cbn [supply_deltas fold_left]. unfold add_supply at 2 4.
  pose proof (delta_range y (hdr_timestamp_seconds (blk_header x)) Hy) as Hd.
  destruct (block_supply_delta y (hdr_timestamp_seconds (blk_header x))) as [sub burn]. cbn [fst snd].
  set (t' := sat_add U128_MAX t sub). set (b' := sat_add U128_MAX b burn).
  assert (in_supply (t', b')) as Htb' by (destruct Hd, Htb; split; cbn in *; unfold t', b'; auto with blq_arith).
  set (num := Z.of_nat (length (pre ++ [x]))) in *.
  assert (in_u64 num) as Hnum by (apply (index_u64 c); [apply Hc|lia]).
  assert (exists s1, ((if (num mod SUPPLY_BACKFILL_CHECKPOINT_INTERVAL =? 0) || (num =? best)
     then set_supply_totals num t' b' else st_ret tt) : StM StorageError SledStorage unit) s = (Ok tt, s1) /\
     chain_rep (contents s1) c /\ account_rep (contents s1) accts /\
     (num = best -> supply_totals s1 = Ok (best, t', b'))) as (s1 & Hs1 & Hc1 & Ha1 & Hlast).
  { destruct (_ || _) eqn:Hcond.
    - destruct (set_supply_runs num t' b' s) as (s1 & H1 & Hcont). exists s1. split; [done|]. rewrite Hcont.
      destruct (counted_reps _ num t' b' c accts Hc Ha). split; [done|]. split; [done|]. intros <-. by eapply counted_totals.
    - exists s. split; [done|]. split; [done|]. split; [done|]. intros ->. rewrite Z.eqb_refl, orb_true_r in Hcond. done. }
  unfold st_bind. rewrite Hs1. destruct rest as [|z rest].
  - cbn [supply_deltas fold_left length] in *. rewrite range_incl_nil by (subst best; lia). exists s1.
    split; [done|]. split; [done|]. split; [done|]. apply Hlast. subst best. lia.
  - destruct (IH ltac:(done) Hty (pre ++ [x]) y s1 t' b') as (s' & Hr & Hrest); [done|done|by rewrite <- app_assoc|done|].
    exists s'. split; [|exact Hrest]. rewrite length_app in Hr. cbn [length] in Hr.
    replace (Z.of_nat (length (pre ++ [x]) + 1)) with (num + 1) in Hr by (unfold num; lia). exact Hr.
Qed.

(** The counters are those of a prefix of the chain, or lie beyond it. *)
Definition supply_ok (s : SledStorage) (c : list Block) : Prop :=
  exists i t b, supply_totals s = Ok (i, t, b) /\ in_supply (t, b) /\ 0 <= i /\
    (i < Z.of_nat (length c) -> (t, b) = chain_supply (take (Z.to_nat i + 1) c)).

Lemma backfill_run s c accts :
  chain_rep (contents s) c -> account_rep (contents s) accts -> c <> [] -> Forall typed_block c -> supply_ok s c ->
  exists s', backfill_supply_storage s = (Ok tt, s') /\ chain_rep (contents s') c /\
    account_rep (contents s') accts /\
    supply_totals s' = Ok (Z.of_nat (length c) - 1, (chain_supply c).1, (chain_supply c).2).
Proof.
  intros Hc Ha Hne Hty (i & t & b & Htot & Htb & Hi0 & Hpre).
  assert (exists l z, c = l ++ [z]) as (l & z & Hl) by (destruct c as [|z l _] using rev_ind; [done|by exists l, z]).
  assert (hdr_number (blk_header z) = Z.of_nat (length c) - 1) as Hz.
  { fold (block_number z). rewrite (block_numbers_lookup c (length l) z); [|apply Hc|subst c; by apply lookup_snoc_Some; right].
    subst c. rewrite length_app. cbn. lia. }
  unfold backfill_supply_storage. rewrite (best_header_rep s c Hc). subst c. rewrite last_snoc. cbn [ok_or fmap option_fmap option_map].
  rewrite Hz. set (c := l ++ [z]) in *. set (best := Z.of_nat (length c) - 1) in *.
  rewrite (st_bind_read _ _ _ (i, t, b)) by done.
  assert (in_supply (0, 0)) as H0 by (split; split; vm_compute; discriminate).
  assert (exists j t1 b1 s1, (if best <? i then 0 else i) = j /\ (if best <? i then 0 else t) = t1 /\
    (if best <? i then 0 else b) = b1 /\
    ((if best <? i then set_supply_totals j t1 b1 else st_ret tt) : StM StorageError SledStorage unit) s = (Ok tt, s1) /\
    chain_rep (contents s1) c /\ account_rep (contents s1) accts /\ supply_totals s1 = Ok (j, t1, b1) /\
    in_supply (t1, b1) /\ 0 <= j <= best /\ (t1, b1) = chain_supply (take (Z.to_nat j + 1) c))
    as (j & t1 & b1 & s1 & -> & -> & -> & Hs1 & Hc1 & Ha1 & Htot1 & Htb1 & Hj & Hsum).
  { assert (0 <= best) as Hbest by (unfold best, c; rewrite length_app; cbn; lia).
    destruct (Z.ltb_spec best i) as [Hlt|Hle].
    - destruct (set_supply_runs 0 0 0 s) as (s1 & H1 & Hcont). exists 0, 0, 0, s1. do 3 (split; [done|]). split; [done|].
      rewrite Hcont. destruct (counted_reps _ 0 0 0 c accts Hc Ha). do 2 (split; [done|]).
      split; [eapply counted_totals; [done|split; vm_compute; discriminate|done]|]. split; [done|]. split; [lia|].
      unfold c. by destruct l as [|x l].
    - exists i, t, b, s. do 4 (split; [done|]). do 4 (split; [done|]). split; [lia|]. apply Hpre. unfold best in Hle. lia. }
  unfold st_bind. rewrite Hs1. destruct (Z.leb_spec best j) as [Hle|Hlt].
  - exists s1. do 3 (split; [done|]). rewrite Htot1. assert (j = best) as -> by lia.
    rewrite take_ge in Hsum by (unfold best in *; lia). by rewrite <- Hsum.
  - assert (in_u64 best) as Hbu.
    { unfold best. replace (Z.of_nat (length c) - 1) with (Z.of_nat (length l)) by (unfold c; rewrite length_app; cbn; lia).
      apply (index_u64 c); [apply Hc|]. unfold c. rewrite length_app. cbn. lia. }
    set (k := Z.to_nat j) in *. assert (exists x, c !! k = Some x) as [x Hx].
    { apply lookup_lt_is_Some. unfold k, best in *. lia. }
    rewrite (take_S_r _ _ _ Hx) in Hsum || (replace (k + 1)%nat with (Datatypes.S k) in Hsum by lia; rewrite (take_S_r _ _ _ Hx) in Hsum).
    assert (c = (take k c ++ [x]) ++ drop (Datatypes.S k) c) as Hcut.
    { rewrite <- app_assoc. cbn. by rewrite (take_drop_middle c k x Hx). }
    assert (length (take k c ++ [x]) = Datatypes.S k) as Hlen.
    { rewrite length_app, length_take_le by (unfold k, best in *; lia). cbn. lia. }
    replace (sat_add U64_MAX j 1) with (Z.of_nat (length (take k c ++ [x]))).
    2: { rewrite Hlen. rewrite sat_add_exact by (unfold in_u64 in *; lia). unfold k. lia. }
    destruct (backfill_loop_run c accts (drop (Datatypes.S k) c) (take k c) x s1 t1 b1) as (s' & Hr & Hc' & Ha' & Htot'); try done.
    + intros E. apply (f_equal length) in E. rewrite length_drop in E. cbn in E. unfold k, best in *. lia.
    + apply List.Forall_forall. intros y Hy. rewrite List.Forall_forall in Hty. apply Hty.
      rewrite Hcut. apply List.in_app_iff. by right.
    + exists s'. split; [exact Hr|]. split; [done|]. split; [done|]. rewrite Htot'.
      assert (chain_supply c = fold_left add_supply (supply_deltas (hdr_timestamp_seconds (blk_header x)) (drop (Datatypes.S k) c)) (t1, b1)) as ->; [|done].
      rewrite Hcut at 1. by rewrite chain_supply_app, <- Hsum.
Qed.
End supply.

(** ** Replacing a suffix *)

Section suffix.
Context {S : Sled} {HX : HexCodec} {D : Digests}.
Context {JB : Json Block} {JH : Json BlockHeader} {JT : Json Transaction} {JR : Json StoredReceipt}.
Context {HR : SledReliable}.

Definition supply_fits (c : list Block) : Prop :=
  (total_supply c).1 <= U128_MAX /\ (total_supply c).2 <= U128_MAX.

Lemma chain_supply_exact c : Forall typed_block c -> supply_fits c -> chain_supply c = total_supply c.
Proof.
  intros Hty [H1 H2]. destruct c as [|b c]; [done|]. apply List.Forall_cons_iff in Hty as [_ Hty].
  cbn [chain_supply total_supply fst snd] in *. rewrite add_supply_exact; cbn [fst snd].
  - by rewrite !Z.add_0_l.
  - split; split; vm_compute; discriminate.
  - by apply deltas_range.
  - lia.
  - lia.
Qed.

Lemma stored_blocks_rep c rest pre s :
  chain_rep (contents s) c -> c = pre ++ rest ->
  stored_blocks s (range_incl (Z.of_nat (length pre)) (Z.of_nat (length c) - 1)) = Ok rest.
Proof.
  intros Hc. revert pre. induction rest as [|b rest IH]; intros pre Hcp.
  - rewrite range_incl_nil; [done|]. rewrite Hcp, app_nil_r. lia.
  - destruct (next_block s c pre b rest Hc Hcp) as [Hb _].
    assert (length c = (length pre + Datatypes.S (length rest))%nat) as Hl by (by rewrite Hcp, length_app).
    rewrite range_incl_cons by lia. cbn [stored_blocks]. rewrite Hb. cbn [res_bind].
    replace (Z.of_nat (length pre) + 1) with (Z.of_nat (length (pre ++ [b]))) by (rewrite length_app; cbn; lia).
    rewrite IH; [done|]. by rewrite Hcp, <- app_assoc.
Qed.

(** The arithmetic of a replacement: the old deltas off, the new ones on. *)
Lemma replaced_supply l1 x removed replacement :
  Forall typed_block ((l1 ++ [x]) ++ removed) -> supply_fits ((l1 ++ [x]) ++ removed) ->
  fold_left add_supply (supply_deltas (hdr_timestamp_seconds (blk_header x)) replacement)
    (fold_left sub_supply (supply_deltas (hdr_timestamp_seconds (blk_header x)) removed)
      (chain_supply ((l1 ++ [x]) ++ removed))) =
  chain_supply ((l1 ++ [x]) ++ replacement).
Proof.
  intros Hty Hfit. rewrite (chain_supply_app l1 x replacement). f_equal.
  rewrite (chain_supply_exact _ Hty Hfit). unfold supply_fits in Hfit. rewrite total_supply_app in *. cbv zeta in *.
  set (ds := supply_deltas _ removed) in *. cbn [fst snd] in *. apply List.Forall_app in Hty as [Hp Hr].
  pose proof (deltas_range (hdr_timestamp_seconds (blk_header x)) removed Hr) as Hd. fold ds in Hd.
  assert (0 <= sumZ (map fst ds) /\ 0 <= sumZ (map snd ds)) as [Hp1 Hp2].
  { split; apply sumZ_nonneg, List.Forall_map; (eapply List.Forall_impl; [|exact Hd]); intros y [? ?]; unfold in_u128 in *; lia. }
  assert (supply_fits (l1 ++ [x])) as Hfp by (split; lia).
  pose proof (chain_supply_range _ Hp) as [Ht1 Ht2]. rewrite (chain_supply_exact _ Hp Hfp) in *. unfold in_u128 in *.
  rewrite sub_supply_exact; cbn [fst snd]; [|done|lia|lia].
  destruct (total_supply (l1 ++ [x])) as [p q]. cbn [fst snd]. f_equal; lia.
Qed.

(** The reading of the removed blocks and the arithmetic on the totals. *)
Definition suffix_after (ancestor previous_best : BlockHeader) (replacement : list Block) (tb : Z * Z)
    : StM string SledStorage (Z * Z * Z) :=
  do? removed := any (st_read (fun s =>
    stored_blocks s (range_incl (sat_add U64_MAX (hdr_number ancestor) 1) (hdr_number previous_best)))) in
  let start := hdr_timestamp_seconds ancestor in
  let tb := fold_left sub_supply (supply_deltas start removed) tb in
  let tb := fold_left add_supply (supply_deltas start replacement) tb in
  st_ret (sat_add U64_MAX (hdr_number ancestor) (Z.of_nat (length replacement)), tb.1, tb.2).

Lemma suffix_supply_cut ancestor previous_best replacement :
  suffix_supply_totals ancestor previous_best replacement =
  (do? totals := any (st_read supply_totals) in
   do? totals :=
    if totals.1.1 <? hdr_number previous_best then
      any backfill_supply_storage ;!
      do? totals := any (st_read supply_totals) in
      if totals.1.1 <? hdr_number previous_best
      then st_res (Err "candidate publication deferred: supply index is incomplete"%string)
      else st_ret totals
    else st_ret totals in
   let '(_, total, burned) := totals in suffix_after ancestor previous_best replacement (total, burned)).
Proof. reflexivity. Qed.

(** C31: the supply counters.  From counters that belong to a prefix of the
    stored chain, the backfill ends with the issued and burned totals of the
    whole chain; and the totals for publishing a replacement of the suffix
    above block [k] are those of the new chain counted from its start, as long
    as the totals of the old chain fit in 128 bits.  Neither changes the chain
    or the accounts. *)
Theorem suffix_supply_exact s c accts k ancestor tip replacement :
  chain_rep (contents s) c -> account_rep (contents s) accts -> Forall typed_block c -> supply_fits c ->
  supply_ok s c -> (forall i t b, supply_totals s = Ok (i, t, b) -> i < Z.of_nat (length c)) ->
  c !! k = Some ancestor -> last c = Some tip -> replacement <> [] -> Z.of_nat k + Z.of_nat (length replacement) <= U64_MAX ->
  let total := chain_supply c in
  let replaced := chain_supply (take (k + 1) c ++ replacement) in
  (exists s', backfill_supply_storage s = (Ok tt, s') /\ chain_rep (contents s') c /\
     account_rep (contents s') accts /\ supply_totals s' = Ok (Z.of_nat (length c) - 1, total.1, total.2)) /\
  (exists s', suffix_supply_totals (blk_header ancestor) (blk_header tip) replacement s =
       (Ok (Z.of_nat k + Z.of_nat (length replacement), replaced.1, replaced.2), s') /\
     chain_rep (contents s') c /\ account_rep (contents s') accts).
Proof.
  intros Hc Ha Hty Hfit Hok Hle Hk Htip Hrep Hlen total replaced.
  assert (c <> []) as Hne by (by destruct c).
  destruct (backfill_run s c accts Hc Ha Hne Hty Hok) as (s1 & Hrun & Hc1 & Ha1 & Htot1).
  split; [by exists s1|].
  assert (hdr_number (blk_header tip) = Z.of_nat (length c) - 1) as Hn.
  { apply last_Some in Htip as [l ->]. fold (block_number tip).
    rewrite (block_numbers_lookup (l ++ [tip]) (length l) tip); [|apply Hc|by apply lookup_snoc_Some; right].
    rewrite length_app. cbn. lia. }
  assert (hdr_number (blk_header ancestor) = Z.of_nat k) as Hka.
  { fold (block_number ancestor). by apply (block_numbers_lookup c); [apply Hc|]. }
  assert (take (k + 1) c = take k c ++ [ancestor]) as Hpre1.
  { replace (k + 1)%nat with (Datatypes.S k) by lia. by apply take_S_r. }
  assert (c = (take k c ++ [ancestor]) ++ drop (Datatypes.S k) c) as Hcut.
  { rewrite <- app_assoc. cbn. by rewrite (take_drop_middle c k ancestor Hk). }
  pose proof (lookup_lt_Some _ _ _ Hk) as Hlt.
  assert (length (take k c ++ [ancestor]) = Datatypes.S k) as Hl by (rewrite length_app, length_take_le by lia; cbn; lia).
  assert (in_u64 (Z.of_nat k)) as Hku by (apply (index_u64 c); [apply Hc|done]).
  assert (Z.of_nat k < U64_MAX) as Hkm by (destruct replacement; [done|cbn in Hlen; lia]).
  assert (forall s2, chain_rep (contents s2) c -> suffix_after (blk_header ancestor) (blk_header tip) replacement total s2 =
     (Ok (Z.of_nat k + Z.of_nat (length replacement), replaced.1, replaced.2), s2)) as Htail.
  { intros s2 Hc2. unfold suffix_after. rewrite Hn, Hka.
    rewrite sat_add_exact by (unfold in_u64 in *; lia).
    replace (Z.of_nat k + 1) with (Z.of_nat (length (take k c ++ [ancestor]))) by (rewrite Hl; lia).
    unfold st_bind, any, st_read, any_res. rewrite (stored_blocks_rep c _ _ _ Hc2 Hcut). cbn [res_map_err].
    pose proof (replaced_supply (take k c) ancestor (drop (Datatypes.S k) c) replacement) as He.
    rewrite <- Hcut in He. specialize (He Hty Hfit). unfold total. rewrite He. rewrite sat_add_exact by (unfold in_u64 in *; lia).
    unfold replaced. by rewrite Hpre1. }
  destruct Hok as (i & t & b & Htot & _ & Hi0 & Hpre). specialize (Hle _ _ _ Htot). specialize (Hpre Hle).
  rewrite suffix_supply_cut. unfold st_bind at 1. unfold any at 1, st_read at 1, any_res. rewrite Htot. cbn [res_map_err fst]. rewrite Hn.
  destruct (Z.ltb_spec i (Z.of_nat (length c) - 1)).
  - exists s1. split; [|done]. unfold st_bind, any, st_read, any_res. rewrite Hrun. cbn [res_map_err].
    rewrite Htot1. cbn [res_map_err fst snd]. rewrite Z.ltb_irrefl. unfold st_ret. rewrite <- (surjective_pairing (chain_supply c)). by apply Htail.
  - exists s. split; [|done]. unfold st_bind, st_ret. rewrite take_ge in Hpre by lia. rewrite Hpre. by apply Htail.
Qed.
End suffix.

(** ** Example: counters left at block zero, one block replaced *)

Section supply_witness.
Import SampleCodecs.
#[local] Existing Instances mem_sled hex_codec toy_digests mem_files.

Lemma empty_block_typed n : in_u64 n -> typed_block (empty_block (numbered_sample n)).
Proof. intros Hn. split; [by apply numbered_sample_wf|apply List.Forall_nil|apply List.Forall_nil]. Qed.

Lemma suffix_supply_exact_witness :
  let s := gn_db (sample_generation None) in
  exists s', @suffix_supply_totals mem_sled JB JH (numbered_sample 0) (numbered_sample 1) [sample_next] s =
    (Ok (1, (chain_supply [empty_block (numbered_sample 0); sample_next]).1,
            (chain_supply [empty_block (numbered_sample 0); sample_next]).2), s') /\
    @chain_rep hex_codec JB JH (contents s') sample_old.
Proof.
  intros s. destruct (sample_generation_rep None) as [Hc Ha].
  destruct (@suffix_supply_exact mem_sled hex_codec JB JH mem_sled_reliable s sample_old ∅
    0%nat (empty_block (numbered_sample 0)) (empty_block (numbered_sample 1)) [sample_next]) as [_ (s' & Hs' & Hc' & _)].
  - exact Hc.
  - exact Ha.
  - repeat apply List.Forall_cons; [apply empty_block_typed..|apply List.Forall_nil]; vm_compute; split; discriminate.
  - split; vm_compute; discriminate.
  - exists 0, 0, 0. repeat split; vm_compute; (discriminate || reflexivity || (split; discriminate)).
  - intros i t b H. vm_compute in H. injection H as <- <- <-. reflexivity.
  - reflexivity.
  - reflexivity.
  - discriminate.
  - vm_compute. discriminate.
  - exists s'. split; [exact Hs'|exact Hc'].
Defined.
End supply_witness.
