(* ===== verification/Snapshots.v ===== *)
(** Execution snapshots in the directory of a generation
    ([crates/blq-storage]): what is written beside the database, which
    snapshot a replay starts from, what pruning keeps, and the periodic
    checkpoint of [crates/blq-node/src/main.rs].

    A directory is the list of its files in the order [read_dir] yields them,
    and [generations/] the list of its entries; no statement depends on that
    order. *)

From Stdlib Require Import ZArith Lia Strings.String Strings.Byte.
From stdpp Require Import sorting gmap fin_maps base list.
From S2P Require Import Prelude Externals Primitives Canonical Rlp RawTx Pow Consensus State StateRoot.
From S2P Require Import Transition Evm BlockExec Replay.
From S2P Require Import Sled AccountStore BlockStore ChainStore Generation Publish CandidateStore NodeStore NodeState.
#[local] Open Scope Z_scope.

Definition SNAPSHOT_PREFIX : list byte := B "snapshot-".
Definition EXECUTION_SNAPSHOT_PREFIX : list byte := B "execution-snapshot-".
Definition EXECUTION_SNAPSHOT_INTERVAL : Z := 256.

(** [GenerationSnapshot]: an execution snapshot with every row of the store. *)
Record GenerationSnapshot := {
  gs_execution : ExecutionSnapshot;
  gs_entries : list (list byte * list byte);
}.

(** [GenerationSnapshot] to [ExecutionSnapshot]. *)
Definition execution_of (snapshot : GenerationSnapshot) : ExecutionSnapshot := gs_execution snapshot.

Definition SnapshotDir : Type := list (list byte * list byte).

(** [generations/]: the directories with their files, and entries that are not
    directories.  A missing root is one without entries. *)
Definition GenerationsRoot : Type := list (list byte * option SnapshotDir).

(** The error a file operation ends with, if it does not succeed. *)
Class SnapshotIo := {
  root_error : GenerationsRoot -> option string;
  list_error : SnapshotDir -> option string;
  no_folder : list byte -> string;
  load_error : SnapshotDir -> list byte -> option string;
  save_error : SnapshotDir -> list byte -> option string;
  delete_error : SnapshotDir -> list byte -> option string;
}.

Class SnapshotsReliable {IO : SnapshotIo} : Prop := {
  no_root_error : forall r, root_error r = None;
  no_list_error : forall d, list_error d = None;
  no_load_error : forall d f, load_error d f = None;
  no_save_error : forall d f, save_error d f = None;
  no_delete_error : forall d f, delete_error d f = None;
}.

Definition io_check (e : option string) : res StorageError unit :=
  match e with Some m => Err (Io m) | None => Ok tt end.

Definition snapshot_file (height : Z) : list byte := SNAPSHOT_PREFIX ++ pad20 height ++ B ".json".
Definition execution_snapshot_file (height : Z) : list byte :=
  EXECUTION_SNAPSHOT_PREFIX ++ pad20 height ++ B ".json".

(** [strip_suffix]. *)
Definition strip_suffix (suffix s : list byte) : option (list byte) := (@rev byte) <$> strip_prefix (rev suffix) (rev s).

(** The height in the name of a snapshot file. *)
Definition file_height (prefix name : list byte) : option Z :=
  rest ← strip_prefix prefix name;
  digits ← strip_suffix (B ".json") rest;
  parse_uint U64_MAX digits.

(** The key the candidate files are sorted by. *)
Definition sort_height (name : list byte) : Z :=
  default 0
    (rest ← match strip_prefix EXECUTION_SNAPSHOT_PREFIX name with
            | Some rest => Some rest
            | None => strip_prefix SNAPSHOT_PREFIX name
            end;
     digits ← strip_suffix (B ".json") rest;
     parse_uint U64_MAX digits).

(** A rename over the name, or a new entry. *)
Definition put_entry {V} (name : list byte) (v : V) (d : list (list byte * V)) : list (list byte * V) :=
  if existsb (fun e => bool_decide (e.1 = name)) d
  then map (fun e => if bool_decide (e.1 = name) then (name, v) else e) d
  else d ++ [(name, v)].

Definition remove_entry (name : list byte) (d : SnapshotDir) : SnapshotDir :=
  List.filter (fun e => negb (bool_decide (e.1 = name))) d.

Definition find_entry {V} (d : list (list byte * V)) (name : list byte) : option V :=
  snd <$> List.find (fun e => bool_decide (e.1 = name)) d.

(** [generation_path], as a name below the root, and the names the pruning
    looks at. *)
Definition generation_dir (generation_id : Z) : list byte := B "generation-" ++ pad20 generation_id.
Definition is_generation_dir (name : list byte) : bool :=
  has_prefix (B "generation-") name && negb (ends_with (B ".staging") name).

(** The directory [name] of the root, if it is one. *)
Definition folder (root : GenerationsRoot) (name : list byte) : option SnapshotDir := mjoin (find_entry root name).

Section snapshots.
Context {S : Sled} {HX : HexCodec} {D : Digests} {IO : SnapshotIo}.
Context {JB : Json Block} {JX : Json ExecutionSnapshot} {JG : Json GenerationSnapshot}.

(** ** Writing *)

(** [create_dir_all], a temporary file and its rename, below the directory
    [path] of the root. *)
Definition save_file (path name bytes : list byte) : StM StorageError GenerationsRoot unit := fun root =>
  match find_entry root path with
  | Some None => (Err (Io (no_folder path)), root)
  | found =>
      let d := default [] (mjoin found) in
      match save_error d name with
      | Some e => (Err (Io e), put_entry path (Some d) root)
      | None => (Ok tt, put_entry path (Some (put_entry name bytes d)) root)
      end
  end.

Definition write_execution_snapshot (path : list byte) (snapshot : ExecutionSnapshot)
    : StM StorageError GenerationsRoot unit :=
  do? bytes := st_res (json_vec snapshot) in
  save_file path (execution_snapshot_file (es_height snapshot)) bytes.

(** The state of the store as a snapshot at [height]. *)
Definition take_execution_snapshot (s : SledStorage) (generation_id height : Z) (block_hash : Hash256)
    (profile_fingerprint : list byte) (finalized_height : Z) (mismatch : string)
    : res StorageError ExecutionSnapshot :=
  let? block := block_by_number s height in
  if negb (bool_decide (header_hash (blk_header block) = block_hash)) then Err (Serialization mismatch)
  else
    let? native := account_snapshot s in
    let? evm := evm_account_snapshot s in
    Ok {| es_generation_id := generation_id; es_height := height; es_block_hash := block_hash;
          es_state_root := hdr_state_root (blk_header block); es_profile_fingerprint := profile_fingerprint;
          es_finalized_height := finalized_height; es_native_accounts := native; es_evm_accounts := evm |}.

Definition create_execution_snapshot (s : SledStorage) (path : list byte) (generation_id height : Z) (block_hash : Hash256)
    (profile_fingerprint : list byte) (finalized_height : Z) : StM StorageError GenerationsRoot unit :=
  do? snapshot := st_res (take_execution_snapshot s generation_id height block_hash profile_fingerprint
    finalized_height "execution snapshot block hash does not match canonical storage") in
  write_execution_snapshot path snapshot.

Definition write_snapshot (path : list byte) (snapshot : GenerationSnapshot) : StM StorageError GenerationsRoot unit :=
  do? bytes := st_res (json_vec snapshot) in
  save_file path (snapshot_file (es_height (gs_execution snapshot))) bytes.

Definition create_snapshot (s : SledStorage) (path : list byte) (generation_id height : Z) (block_hash : Hash256)
    (profile_fingerprint : list byte) (finalized_height : Z) : StM StorageError GenerationsRoot unit :=
  do? execution := st_res (take_execution_snapshot s generation_id height block_hash profile_fingerprint
    finalized_height "snapshot block hash does not match canonical storage") in
  do? entries := st_res (scan_all s []) in
  write_snapshot path {| gs_execution := execution; gs_entries := entries |}.

(** ** Loading *)

Definition load_as {A} {J : Json A} (invalid : string) (d : SnapshotDir) (name bytes : list byte)
    : res StorageError A :=
  io_check (load_error d name) ;?
  res_map_err (fun _ => Serialization invalid) (from_slice bytes).

Definition load_execution_snapshot (d : SnapshotDir) (e : list byte * list byte) : res StorageError ExecutionSnapshot :=
  load_as "invalid execution snapshot" d e.1 e.2.
Definition load_snapshot (d : SnapshotDir) (e : list byte * list byte) : res StorageError GenerationSnapshot :=
  load_as "invalid generation snapshot" d e.1 e.2.

(** [snapshot.height <= height && snapshot.profile_fingerprint == expected_profile]. *)
Definition usable (height : Z) (expected_profile : list byte) (snapshot : ExecutionSnapshot) : bool :=
  (es_height snapshot <=? height) && bool_decide (es_profile_fingerprint snapshot = expected_profile).

(** [None] for [dir]: the directory does not exist. *)
Definition latest_snapshot_at_or_before (dir : option SnapshotDir) (height : Z) (expected_profile : list byte)
    : res StorageError (option GenerationSnapshot) :=
  match dir with
  | None => Ok None
  | Some d =>
      io_check (list_error d) ;?
      let? candidates := fold_left (fun acc e =>
        let? candidates := acc in
        if negb (has_prefix SNAPSHOT_PREFIX e.1) || negb (ends_with (B ".json") e.1) then Ok candidates
        else
          let? snapshot := load_snapshot d e in
          Ok (if usable height expected_profile (execution_of snapshot) then candidates ++ [snapshot] else candidates))
        d (Ok []) in
      Ok (head (sort_by_key (fun s => - es_height (execution_of s)) candidates))
  end.

Fixpoint first_usable (d : SnapshotDir) (height : Z) (expected_profile : list byte)
    (files : list (list byte * list byte)) : res StorageError (option ExecutionSnapshot) :=
  match files with
  | [] => Ok None
  | e :: files =>
      let? snapshot := load_execution_snapshot d e in
      if usable height expected_profile snapshot then Ok (Some snapshot)
      else first_usable d height expected_profile files
  end.

(** The files of one kind, the highest name first. *)
Definition is_execution_file (name : list byte) : bool :=
  ends_with (B ".json") name && has_prefix EXECUTION_SNAPSHOT_PREFIX name.
Definition is_legacy_file (name : list byte) : bool :=
  ends_with (B ".json") name && negb (has_prefix EXECUTION_SNAPSHOT_PREFIX name) && has_prefix SNAPSHOT_PREFIX name.
Definition sorted_files (kind : list byte -> bool) (d : SnapshotDir) : list (list byte * list byte) :=
  sort_by_key (fun e => - sort_height e.1) (List.filter (fun e => kind e.1) d).

Definition latest_execution_snapshot_at_or_before (dir : option SnapshotDir) (height : Z)
    (expected_profile : list byte) : res StorageError (option ExecutionSnapshot) :=
  match dir with
  | None => Ok None
  | Some d =>
      io_check (list_error d) ;?
      first_usable d height expected_profile (sorted_files is_execution_file d ++ sorted_files is_legacy_file d)
  end.

(** ** Pruning *)

Definition delete_file (name : list byte) : StM StorageError SnapshotDir unit := fun d =>
  match delete_error d name with
  | Some e => (Err (Io e), d)
  | None => (Ok tt, remove_entry name d)
  end.

Definition prune_files (prefix : list byte) (retain_from_height : Z) : StM StorageError SnapshotDir unit := fun d =>
  (st_res (io_check (list_error d)) ;!
   st_for (map fst d) (fun name =>
     match file_height prefix name with
     | None => st_ret tt
     | Some height => if height <? retain_from_height then delete_file name else st_ret tt
     end)) d.

(** The loop over the entries of the root; an error ends it. *)
Fixpoint prune_folders (prefix : list byte) (retain_from_height : Z) (root : GenerationsRoot)
    : res StorageError unit * GenerationsRoot :=
  match root with
  | [] => (Ok tt, [])
  | (name, entry) :: rest =>
      if negb (is_generation_dir name) then
        let '(r, rest) := prune_folders prefix retain_from_height rest in (r, (name, entry) :: rest)
      else
        match entry with
        | None => (Err (Io (no_folder name)), root)
        | Some d =>
            match prune_files prefix retain_from_height d with
            | (Ok _, d) =>
                let '(r, rest) := prune_folders prefix retain_from_height rest in (r, (name, Some d) :: rest)
            | (r, d) => (r, (name, Some d) :: rest)
            end
        end
  end.

Definition prune_root (prefix : list byte) (retain_from_height : Z) : StM StorageError GenerationsRoot unit := fun root =>
  match root_error root with
  | Some e => (Err (Io e), root)
  | None => prune_folders prefix retain_from_height root
  end.

Definition prune_old_snapshots : Z -> StM StorageError GenerationsRoot unit := prune_root SNAPSHOT_PREFIX.
Definition prune_old_execution_snapshots : Z -> StM StorageError GenerationsRoot unit :=
  prune_root EXECUTION_SNAPSHOT_PREFIX.

(** ** The periodic checkpoint *)

Context {JH : Json BlockHeader}.

(** [active_id] is what [load_active_generation] reads, [profile] the
    fingerprint of the configured genesis; the state is [generations/]. *)
Definition write_periodic_snapshot (retain_snapshots : bool) (s : SledStorage) (active_id : res StorageError (option Z))
    (profile : list byte) : StM StorageError GenerationsRoot unit :=
  if negb retain_snapshots then st_ret tt
  else
    do? best := st_res (best_header s) in
    if (hdr_number best =? 0) || negb (hdr_number best mod EXECUTION_SNAPSHOT_INTERVAL =? 0) then st_ret tt
    else
      do? active_id := st_res active_id in
      match active_id with
      | None => st_ret tt
      | Some generation_id =>
          create_execution_snapshot s (generation_dir generation_id) generation_id (hdr_number best) (header_hash best) profile
            (finalized_height (hdr_number best)) ;!
          prune_old_execution_snapshots (sat_sub (finalized_height (hdr_number best)) EXECUTION_SNAPSHOT_INTERVAL)
      end.
End snapshots.

(** ** Names *)

Lemma strip_suffix_app suffix s : strip_suffix suffix (s ++ suffix) = Some s.
Proof. unfold strip_suffix. rewrite rev_app_distr, strip_prefix_app. cbn. by rewrite rev_involutive. Qed.

Lemma ends_with_app suffix s : ends_with suffix (s ++ suffix) = true.
Proof. unfold ends_with. rewrite rev_app_distr. apply prefix_app. Qed.

Lemma file_height_of prefix height :
  in_u64 height -> file_height prefix (prefix ++ pad20 height ++ B ".json") = Some height.
Proof.
  intros H. unfold file_height. rewrite strip_prefix_app. cbn [option_bind mbind].
  rewrite strip_suffix_app. cbn. by apply parse_pad20.
Qed.

Lemma execution_file_kind height :
  is_execution_file (execution_snapshot_file height) = true /\ is_legacy_file (execution_snapshot_file height) = false.
Proof.
  unfold is_execution_file, is_legacy_file, execution_snapshot_file.
  rewrite prefix_app, app_assoc, ends_with_app. done.
Qed.

Lemma snapshot_file_kind height :
  is_execution_file (snapshot_file height) = false /\ is_legacy_file (snapshot_file height) = true.
Proof.
  unfold is_execution_file, is_legacy_file, snapshot_file.
  rewrite app_assoc, ends_with_app, <- app_assoc, prefix_app. done.
Qed.

Lemma execution_sort_height height : in_u64 height -> sort_height (execution_snapshot_file height) = height.
Proof.
  intros H. unfold sort_height, execution_snapshot_file. rewrite strip_prefix_app. cbn [option_bind mbind].
  rewrite strip_suffix_app. cbn [option_bind mbind]. by rewrite parse_pad20.
Qed.

Lemma snapshot_sort_height height : in_u64 height -> sort_height (snapshot_file height) = height.
Proof.
  intros H. unfold sort_height, snapshot_file. rewrite strip_prefix_app.
  replace (strip_prefix EXECUTION_SNAPSHOT_PREFIX (SNAPSHOT_PREFIX ++ pad20 height ++ B ".json")) with (@None (list byte)) by done.
  cbn [option_bind mbind]. rewrite strip_suffix_app. cbn [option_bind mbind]. by rewrite parse_pad20.
Qed.

Lemma execution_file_inj x y :
  in_u64 x -> in_u64 y -> execution_snapshot_file x = execution_snapshot_file y -> x = y.
Proof.
  intros Hx Hy E. apply (f_equal sort_height) in E. by rewrite !execution_sort_height in E.
Qed.

(** ** The directory *)

Section directory.
Context {IO : SnapshotIo} {JX : Json ExecutionSnapshot} {JG : Json GenerationSnapshot}.

(** A snapshot file holds the snapshot its name says. *)
Definition entry_ok (e : list byte * list byte) : Prop :=
  (is_execution_file e.1 = true -> exists sn, from_slice e.2 = Ok sn /\ in_u64 (es_height sn) /\
     e.1 = execution_snapshot_file (es_height sn)) /\
  (is_legacy_file e.1 = true -> exists sn : ExecutionSnapshot, from_slice e.2 = Ok sn /\ in_u64 (es_height sn) /\
     e.1 = snapshot_file (es_height sn)).

Record dir_ok (d : SnapshotDir) : Prop := {
  do_names : NoDup (map fst d);
  do_entries : Forall entry_ok d;
}.

(** The snapshots of a kind in the directory. *)
Definition held (kind : list byte -> bool) (d : SnapshotDir) (sn : ExecutionSnapshot) : Prop :=
  exists e, e ∈ d /\ kind e.1 = true /\ from_slice e.2 = Ok sn.

Lemma held_execution d sn : dir_ok d -> held is_execution_file d sn ->
  exists b, (execution_snapshot_file (es_height sn), b) ∈ d /\ from_slice b = Ok sn /\ in_u64 (es_height sn).
Proof.
  intros [_ Ho] ([n b] & Hin & Hk & Hb). rewrite List.Forall_forall in Ho.
  destruct (Ho _ (proj1 (list_elem_of_In _ _) Hin)) as [H _]. destruct (H Hk) as (sn' & Hb' & Hh & Hn).
  cbn in *. rewrite Hb in Hb'. injection Hb' as <-. subst n. by exists b.
Qed.

Lemma sorted_files_elem kind d e : e ∈ sorted_files kind d <-> e ∈ d /\ kind e.1 = true.
Proof. unfold sorted_files, sort_by_key. rewrite sort_by_perm, !list_elem_of_In. apply filter_In. Qed.

Context {RI : SnapshotsReliable}.

(** A loop over files that all load stops at the first usable one. *)
Lemma first_usable_exact d height profile files :
  Forall (fun e => exists sn : ExecutionSnapshot, from_slice e.2 = Ok sn) files ->
  exists r, first_usable d height profile files = Ok r /\
    match r with
    | Some sn => exists l1 e l2, files = l1 ++ e :: l2 /\ from_slice e.2 = Ok sn /\ usable height profile sn = true /\
        Forall (fun e => forall sn, from_slice e.2 = Ok sn -> usable height profile sn = false) l1
    | None => Forall (fun e => forall sn, from_slice e.2 = Ok sn -> usable height profile sn = false) files
    end.
Proof.
  induction 1 as [|[n b] files (sn & Hsn) _ IH]; [by exists None|].
  cbn [first_usable]. unfold load_execution_snapshot, load_as. rewrite no_load_error. cbn [io_check res_bind fst snd] in *.
  rewrite Hsn. cbn [res_map_err res_bind]. destruct (usable height profile sn) eqn:Hu.
  - exists (Some sn). split; [done|]. exists [], (n, b), files. done.
  - destruct IH as (r & -> & Hr). exists r. split; [done|]. destruct r as [sn'|].
    + destruct Hr as (l1 & e & l2 & -> & H1 & H2 & H3). exists ((n, b) :: l1), e, l2. split; [done|].
      do 2 (split; [done|]). constructor; [|done]. cbn. intros x Hx. by rewrite Hsn in Hx; injection Hx as <-.
    + constructor; [|done]. cbn. intros x Hx. by rewrite Hsn in Hx; injection Hx as <-.
Qed.

Lemma sorted_files_ok kind d sort :
  dir_ok d -> (forall e, entry_ok e -> kind e.1 = true -> exists sn : ExecutionSnapshot, from_slice e.2 = Ok sn /\ sort e = es_height sn) ->
  Forall (fun e => exists sn : ExecutionSnapshot, from_slice e.2 = Ok sn /\ sort e = es_height sn) (sorted_files kind d).
Proof.
  intros [_ Ho] H. apply List.Forall_forall. intros e He%list_elem_of_In%sorted_files_elem. destruct He as [Hin Hk].
  rewrite List.Forall_forall in Ho. apply H; [|done]. apply Ho. by apply list_elem_of_In.
Qed.

Lemma execution_entry e : entry_ok e -> is_execution_file e.1 = true ->
  exists sn : ExecutionSnapshot, from_slice e.2 = Ok sn /\ sort_height e.1 = es_height sn.
Proof. intros [H _] Hk. destruct (H Hk) as (sn & Hb & Hh & ->). exists sn. split; [done|]. by apply execution_sort_height. Qed.
Lemma legacy_entry e : entry_ok e -> is_legacy_file e.1 = true ->
  exists sn : ExecutionSnapshot, from_slice e.2 = Ok sn /\ sort_height e.1 = es_height sn.
Proof. intros [_ H] Hk. destruct (H Hk) as (sn & Hb & Hh & ->). exists sn. split; [done|]. by apply snapshot_sort_height. Qed.

(** The first usable file of a kind is the highest usable one. *)
Lemma sorted_highest kind d l1 e l2 sn :
  dir_ok d -> (forall e, entry_ok e -> kind e.1 = true -> exists sn : ExecutionSnapshot, from_slice e.2 = Ok sn /\ sort_height e.1 = es_height sn) ->
  sorted_files kind d = l1 ++ e :: l2 -> from_slice e.2 = Ok sn ->
  forall e' sn', e' ∈ l2 -> from_slice e'.2 = Ok sn' -> es_height sn' <= es_height sn.
Proof.
  intros Hd Hk Hs Hsn e' sn' Hin Hsn'.
  pose proof (sort_by_sorted _ (cmp_key_preorder (fun e : list byte * list byte => - sort_height e.1)) (List.filter (fun e => kind e.1) d)) as Hso.
  fold (sort_by_key (fun e : list byte * list byte => - sort_height e.1) (List.filter (fun e => kind e.1) d)) in Hso.
  fold (sorted_files kind d) in Hso. rewrite Hs in Hso.
  pose proof (sorted_files_ok kind d (fun e => sort_height e.1) Hd Hk) as Hall. rewrite Hs in Hall.
  apply List.Forall_app in Hall as [_ Hall]. apply List.Forall_cons_iff in Hall as [(s1 & E1 & H1) Hall].
  rewrite List.Forall_forall in Hall. destruct (Hall _ (proj1 (list_elem_of_In _ _) Hin)) as (s2 & E2 & H2).
  rewrite Hsn in E1. injection E1 as <-. rewrite Hsn' in E2. injection E2 as <-.
  clear - Hso Hin H1 H2. induction l1 as [|x l1 IH]; inversion Hso; subst; [|by apply IH].
  match goal with H : List.Forall _ l2 |- _ => rewrite List.Forall_forall in H; specialize (H _ (proj1 (list_elem_of_In _ _) Hin)) end.
  match goal with H : cmp_le _ _ _ |- _ => unfold cmp_le, cmp_key in H; rewrite Z.compare_gt_iff in H end. lia.
Qed.


Lemma first_usable_app d height profile l1 l2 :
  first_usable d height profile (l1 ++ l2) =
  let? found := first_usable d height profile l1 in
  match found with Some sn => Ok (Some sn) | None => first_usable d height profile l2 end.
Proof.
  induction l1 as [|e l1 IH]; [done|]. cbn [app first_usable].
  destruct (load_execution_snapshot d e) as [sn|er|]; cbn [res_bind]; [|done..]. by destruct (usable height profile sn).
Qed.

(** The files of one kind. *)
Lemma first_of_kind kind d height profile :
  dir_ok d -> (forall e, entry_ok e -> kind e.1 = true ->
    exists sn : ExecutionSnapshot, from_slice e.2 = Ok sn /\ sort_height e.1 = es_height sn) ->
  exists r, first_usable d height profile (sorted_files kind d) = Ok r /\
    match r with
    | Some sn => usable height profile sn = true /\ held kind d sn /\
        forall sn', held kind d sn' -> usable height profile sn' = true -> es_height sn' <= es_height sn
    | None => forall sn, held kind d sn -> usable height profile sn = false
    end.
Proof.
  intros Hd Hk. destruct (first_usable_exact d height profile (sorted_files kind d)) as (r & Hr & Hcase).
  { eapply List.Forall_impl; [|exact (sorted_files_ok kind d (fun e => sort_height e.1) Hd Hk)]. intros e (sn & H & _). by exists sn. }
  exists r. split; [exact Hr|]. destruct r as [sn|].
  - destruct Hcase as (l1 & e & l2 & Hl & Hb & Hu & Hl1). split; [done|].
    assert (e ∈ sorted_files kind d) as Hin by (rewrite Hl; apply elem_of_app; right; by left).
    apply sorted_files_elem in Hin as [Hin Hke]. split; [by exists e|]. intros sn' (e' & He' & Hk' & Hb') Hu'.
    assert (e' ∈ sorted_files kind d) as Hin' by (by apply sorted_files_elem). rewrite Hl in Hin'.
    apply elem_of_app in Hin' as [Hin'|[->|Hin']%elem_of_cons].
    + rewrite List.Forall_forall in Hl1. rewrite (Hl1 e') in Hu'; [done|by apply list_elem_of_In|done].
    + rewrite Hb in Hb'. injection Hb' as <-. lia.
    + by eapply (sorted_highest kind d l1 e l2).
  - intros sn (e & He & Hke & Hb). rewrite List.Forall_forall in Hcase. apply (Hcase e); [|done].
    by apply list_elem_of_In, sorted_files_elem.
Qed.

(** Which snapshot a replay starts from: the highest execution snapshot
    that is not above the height and carries the profile, and only when there
    is none the highest such legacy snapshot; and none when no file qualifies. *)
Theorem latest_snapshot_exact d height profile :
  dir_ok d ->
  exists r, latest_execution_snapshot_at_or_before (Some d) height profile = Ok r /\
    match r with
    | Some sn => usable height profile sn = true /\
        ((held is_execution_file d sn /\ forall sn', held is_execution_file d sn' -> usable height profile sn' = true ->
            es_height sn' <= es_height sn) \/
         (held is_legacy_file d sn /\ (forall sn', held is_execution_file d sn' -> usable height profile sn' = false) /\
            forall sn', held is_legacy_file d sn' -> usable height profile sn' = true -> es_height sn' <= es_height sn))
    | None => forall sn, held is_execution_file d sn \/ held is_legacy_file d sn -> usable height profile sn = false
    end.
Proof.
  intros Hd. unfold latest_execution_snapshot_at_or_before. rewrite no_list_error. cbn [io_check res_bind].
  rewrite first_usable_app.
  destruct (first_of_kind is_execution_file d height profile Hd execution_entry) as (r & -> & Hr). cbn [res_bind].
  destruct r as [sn|].
  { exists (Some sn). split; [done|]. destruct Hr as (Hu & Hh & Hm). split; [done|]. by left. }
  destruct (first_of_kind is_legacy_file d height profile Hd legacy_entry) as (r & -> & Hr').
  exists r. split; [done|]. destruct r as [sn|].
  - destruct Hr' as (Hu & Hh & Hm). split; [done|]. by right.
  - intros sn [H|H]; auto.
Qed.
End directory.

(** ** What writing and pruning leave *)

Section keeping.
Context {IO : SnapshotIo} {JX : Json ExecutionSnapshot} {RI : SnapshotsReliable}.

Lemma put_entry_elem {V} name (bytes : V) d e :
  e ∈ put_entry name bytes d <-> e = (name, bytes) \/ (e ∈ d /\ e.1 <> name).
Proof.
  unfold put_entry. destruct (existsb _ d) eqn:E.
  - apply existsb_exists in E as (x & Hx & Hn). apply bool_decide_eq_true in Hn. rewrite list_elem_of_fmap. split.
    + intros (y & -> & Hy). case_bool_decide; [by left|by right].
    + intros [->|[Hin Hne]].
      * exists x. rewrite bool_decide_true by done. split; [done|]. by apply list_elem_of_In.
      * exists e. by rewrite bool_decide_false.
  - rewrite elem_of_app, list_elem_of_singleton. split; [|intros [->|[? _]]; [by right|by left]].
    intros [Hin| ->]; [|by left]. right. split; [done|]. intros Hn.
    apply Bool.not_true_iff_false in E. apply E. apply existsb_exists. exists e. split; [by apply list_elem_of_In|].
    by rewrite bool_decide_true.
Qed.

Lemma put_entry_names {V} name (bytes : V) d :
  NoDup (map fst d) -> NoDup (map fst (put_entry name bytes d)).
Proof.
  intros Hd. unfold put_entry. destruct (existsb _ d) eqn:E.
  - replace (map fst (map (fun e => if bool_decide (e.1 = name) then (name, bytes) else e) d)) with (map fst d); [done|].
    rewrite map_map. apply map_ext. intros e. by case_bool_decide.
  - rewrite map_app. apply list.NoDup_app. split; [done|]. split; [|apply NoDup_singleton].
    intros n Hin Hn. apply list_elem_of_singleton in Hn as ->. apply list_elem_of_fmap in Hin as (x & Hx & Hin).
    apply Bool.not_true_iff_false in E. apply E, existsb_exists. exists x. split; [by apply list_elem_of_In|].
    by rewrite bool_decide_true.
Qed.

Lemma find_entry_cons {V} n1 (v : V) d n :
  find_entry ((n1, v) :: d) n = if decide (n1 = n) then Some v else find_entry d n.
Proof. unfold find_entry. cbn [List.find fst]. destruct (decide (n1 = n)); [by rewrite bool_decide_true|by rewrite bool_decide_false]. Qed.

Lemma find_put_entry {V} name (v : V) d n :
  find_entry (put_entry name v d) n = if decide (name = n) then Some v else find_entry d n.
Proof.
  assert (forall d : list (list byte * V), name <> n ->
    find_entry (map (fun e => if bool_decide (e.1 = name) then (name, v) else e) d) n = find_entry d n) as Hother.
  { clear d. intros d Hne. induction d as [|[n1 v1] d IH]; [done|]. cbn [map fst]. rewrite (find_entry_cons n1).
    case_bool_decide as E1; rewrite find_entry_cons, IH; [subst n1; by rewrite !decide_False|done]. }
  unfold put_entry. destruct (existsb _ d) eqn:E.
  - destruct (decide (name = n)) as [->|Hne]; [|by apply Hother]. clear Hother.
    induction d as [|[n1 v1] d IH]; [done|]. cbn [existsb fst map] in *. case_bool_decide as E1; rewrite find_entry_cons.
    + by rewrite decide_True.
    + rewrite decide_False by done. by apply IH.
  - clear Hother. induction d as [|[n1 v1] d IH]; cbn [app]; rewrite ?find_entry_cons; [done|].
    cbn [existsb fst] in E. apply orb_false_iff in E as [E1 E]. apply bool_decide_eq_false in E1. rewrite IH by done.
    destruct (decide (n1 = n)) as [->|]; [by rewrite decide_False|done].
Qed.

(** One snapshot written into the directory [path]. *)
Lemma write_execution_ok path sn d root u root' :
  find_entry root path <> Some None -> default [] (folder root path) = d ->
  dir_ok d -> in_u64 (es_height sn) -> write_execution_snapshot path sn root = (Ok u, root') ->
  exists d', root' = put_entry path (Some d') root /\ dir_ok d' /\
  (forall sn', held is_execution_file d' sn' <->
     sn' = sn \/ (held is_execution_file d sn' /\ es_height sn' <> es_height sn)) /\
  (forall e, is_execution_file e.1 = false -> e ∈ d' <-> e ∈ d).
Proof.
  intros Hf Ed Hd Hh H. unfold write_execution_snapshot in H. apply st_bind_ok in H as (b & d1 & [Hb ->]%st_res_ok & H).
  apply map_err_ok in Hb. unfold save_file in H.
  pose proof (execution_file_kind (es_height sn)) as [Hk Hl]. pose proof (json_roundtrip _ _ Hb) as Hr.
  exists (put_entry (execution_snapshot_file (es_height sn)) b d). split.
  { unfold folder in Ed. destruct (find_entry root path) as [[d0|]|]; [|done|];
      cbv zeta in H; rewrite no_save_error in H; cbn [mjoin option_join default] in Ed, H; subst d; by injection H as _ <-. }
  clear H Hf Ed. destruct Hd as [Hn Ho]. split; [split|split].
  - by apply put_entry_names.
  - apply List.Forall_forall. intros e He%list_elem_of_In. apply put_entry_elem in He as [->|[He _]].
    + split; [intros _; by exists sn|]. intros Hl2. exfalso. change (is_legacy_file (execution_snapshot_file (es_height sn)) = true) in Hl2. congruence.
    + rewrite List.Forall_forall in Ho. apply Ho. by apply list_elem_of_In.
  - intros sn'. split.
    + intros (e & He & Hke & Hbe). apply put_entry_elem in He as [->|[He Hne]]; [left; cbn in Hbe; congruence|right].
      rewrite List.Forall_forall in Ho. destruct (Ho e (proj1 (list_elem_of_In _ _) He)) as [H0 _].
      destruct (H0 Hke) as (sn2 & Hb2 & _ & Hname). rewrite Hbe in Hb2. injection Hb2 as <-.
      split; [by exists e|]. intros E. apply Hne. by rewrite Hname, E.
    + intros [->|[Hsn' Hne]].
      * exists (execution_snapshot_file (es_height sn), b). split; [apply put_entry_elem; by left|done].
      * destruct (held_execution d sn' ltac:(by split) Hsn') as (b' & Hin & Hb' & Hh').
        exists (execution_snapshot_file (es_height sn'), b'). split; [|split; [apply execution_file_kind|done]].
        apply put_entry_elem. right. split; [done|]. cbn. intros E. by apply execution_file_inj in E.
  - intros e He. rewrite put_entry_elem. split; [intros [->|[? _]]; [cbn [fst] in He; congruence|done]|].
    intros Hin. right. split; [done|]. intros E. rewrite E in He. congruence.
Qed.

(** Pruning keeps exactly the files that are not of the kind, or not below the
    height. *)
Definition keeps (prefix : list byte) (retain : Z) (name : list byte) : bool :=
  match file_height prefix name with Some height => retain <=? height | None => true end.

Lemma remove_entry_elem name d e : e ∈ remove_entry name d <-> e ∈ d /\ e.1 <> name.
Proof.
  unfold remove_entry. rewrite list_elem_of_In, filter_In, <- list_elem_of_In, negb_true_iff, bool_decide_eq_false. done.
Qed.

Lemma remove_entry_names name d : NoDup (map fst d) -> NoDup (map fst (remove_entry name d)).
Proof.
  unfold remove_entry. induction d as [|e d IH]; [done|]. cbn [map List.filter]. intros [Hn Hd]%list.NoDup_cons.
  destruct (negb _); [|by apply IH]. cbn [map]. apply list.NoDup_cons. split; [|by apply IH].
  intros Hin. apply Hn. apply list_elem_of_fmap in Hin as (x & Hx & Hin). apply list_elem_of_fmap. exists x. split; [done|].
  by apply (remove_entry_elem name d x).
Qed.

Lemma prune_loop_ok prefix retain names d :
  NoDup (map fst d) ->
  exists d', st_for names (fun name => match file_height prefix name with
     | None => st_ret tt
     | Some height => if height <? retain then delete_file name else st_ret tt end) d = (Ok tt, d') /\
  NoDup (map fst d') /\ (forall e, e ∈ d' <-> e ∈ d /\ (e.1 ∈ names -> keeps prefix retain e.1 = true)).
Proof.
  revert d. induction names as [|n names IH]; intros d Hd.
  - exists d. split; [done|]. split; [done|]. intros e. split; [intros H; split; [done|]; by intros ?%not_elem_of_nil|by intros []].
  - cbn [st_for]. set (m := match file_height prefix n with Some h => if h <? retain then delete_file n else st_ret tt | None => st_ret tt end).
    assert (exists d1, m d = (Ok tt, d1) /\ NoDup (map fst d1) /\
      forall e, e ∈ d1 <-> e ∈ d /\ (e.1 = n -> keeps prefix retain n = true)) as (d1 & H1 & Hd1 & He1).
    { unfold m, keeps, delete_file. destruct (file_height prefix n) as [h|] eqn:E.
      - destruct (Z.ltb_spec h retain).
        + rewrite no_delete_error. eexists. split; [done|]. split; [by apply remove_entry_names|].
          intros e. rewrite remove_entry_elem, (proj2 (Z.leb_gt retain h)) by done.
          split; intros [? Hx]; (split; [done|]); [by intros|intros E'; discriminate (Hx E')].
        + exists d. split; [done|]. split; [done|]. intros e. rewrite (proj2 (Z.leb_le retain h)) by done. split; [by intros|by intros []].
      - exists d. split; [done|]. split; [done|]. intros e. split; [by intros|by intros []]. }
    destruct (IH d1 Hd1) as (d' & Hr & Hd' & He'). exists d'. split.
    + unfold st_bind. by rewrite H1.
    + split; [done|]. intros e. rewrite He', He1, elem_of_cons. split.
      * intros [[H2 H3] H4]. split; [done|]. intros [E|Hin]; [rewrite E; by apply H3|by apply H4].
      * intros [H2 H3]. split; [split; [done|]|]; [intros <-; apply H3; by left|intros Hin; apply H3; by right].
Qed.

Lemma prune_files_ok prefix retain d :
  NoDup (map fst d) ->
  exists d', prune_files prefix retain d = (Ok tt, d') /\ NoDup (map fst d') /\
    forall e, e ∈ d' <-> e ∈ d /\ keeps prefix retain e.1 = true.
Proof.
  intros Hd. unfold prune_files, st_bind, st_res. rewrite no_list_error. cbn [io_check].
  destruct (prune_loop_ok prefix retain (map fst d) d Hd) as (d' & Hr & Hn & He). exists d'. split; [exact Hr|]. split; [done|].
  intros e. rewrite He. split; [|by intros [? ?]]. intros [Hin Hk]. split; [done|]. apply Hk. apply list_elem_of_fmap. by exists e.
Qed.

Lemma kept_others retain name :
  is_execution_file name = false -> keeps EXECUTION_SNAPSHOT_PREFIX retain name = true.
Proof.
  unfold keeps, is_execution_file, file_height, has_prefix. intros H.
  destruct (strip_prefix EXECUTION_SNAPSHOT_PREFIX name) as [rest|] eqn:Ep; cbn [mbind option_bind]; [|done].
  destruct (strip_suffix (B ".json") rest) as [digits|] eqn:Es; cbn [mbind option_bind]; [|done].
  rewrite andb_true_r in H. exfalso. apply strip_prefix_Some in Ep as ->. unfold strip_suffix in Es.
  destruct (strip_prefix (rev (B ".json")) (rev rest)) as [x|] eqn:Ex; [|done]. apply strip_prefix_Some in Ex.
  apply (f_equal (@rev byte)) in Ex. rewrite rev_involutive, rev_app_distr, rev_involutive in Ex.
  rewrite Ex, app_assoc, ends_with_app in H. discriminate.
Qed.

Lemma prune_execution_ok retain d d' :
  dir_ok d -> NoDup (map fst d') -> (forall e, e ∈ d' <-> e ∈ d /\ keeps EXECUTION_SNAPSHOT_PREFIX retain e.1 = true) ->
  dir_ok d' /\ (forall sn, held is_execution_file d' sn <-> held is_execution_file d sn /\ retain <= es_height sn) /\
  (forall e, is_execution_file e.1 = false -> e ∈ d' <-> e ∈ d).
Proof.
  intros [Hn Ho] Hn1 He. split; [split; [done|]|split].
  - apply List.Forall_forall. intros e Hin%list_elem_of_In. apply He in Hin as [Hin _].
    rewrite List.Forall_forall in Ho. apply Ho. by apply list_elem_of_In.
  - intros sn. assert (forall e, e ∈ d -> is_execution_file e.1 = true -> from_slice e.2 = Ok sn ->
      keeps EXECUTION_SNAPSHOT_PREFIX retain e.1 = true <-> retain <= es_height sn) as Hk.
    { intros e Hin Hke Hb. rewrite List.Forall_forall in Ho. destruct (Ho e (proj1 (list_elem_of_In _ _) Hin)) as [H0 _].
      destruct (H0 Hke) as (sn' & Hb' & Hh & Hname). rewrite Hb in Hb'. injection Hb' as <-.
      unfold keeps. rewrite Hname. unfold execution_snapshot_file. rewrite file_height_of by done. apply Z.leb_le. }
    split.
    + intros (e & Hin & Hke & Hb). apply He in Hin as [Hin Hkeep]. split; [by exists e|]. by apply (Hk e).
    + intros [(e & Hin & Hke & Hb) Hr]. exists e. split; [|done]. apply He. split; [done|]. by apply (Hk e).
  - intros e Hk. rewrite He. split; [by intros []|]. intros Hin. split; [done|]. by apply kept_others.
Qed.

(** What the pruning does to an entry of the root. *)
Definition folder_pruned (prefix : list byte) (retain : Z) (name : list byte) (x y : option SnapshotDir) : Prop :=
  if is_generation_dir name
  then exists d d', x = Some d /\ y = Some d' /\ NoDup (map fst d') /\
    forall e, e ∈ d' <-> e ∈ d /\ keeps prefix retain e.1 = true
  else y = x.

Definition root_ok (root : GenerationsRoot) : Prop := Forall (fun x => forall d, x.2 = Some d -> NoDup (map fst d)) root.

Lemma prune_folders_ok prefix retain root u root' :
  root_ok root -> prune_folders prefix retain root = (Ok u, root') ->
  forall name, match find_entry root name, find_entry root' name with
               | Some x, Some y => folder_pruned prefix retain name x y
               | None, None => True
               | _, _ => False
               end.
Proof.
  intros Hroot. destruct u. revert root'. induction Hroot as [|[n x] root Hx _ IH]; intros root' H name; cbn [prune_folders] in H;
    [by injection H as <-|]. cbn in Hx.
  assert (forall y rest, prune_folders prefix retain root = (Ok tt, rest) -> folder_pruned prefix retain n x y ->
    match find_entry ((n, x) :: root) name, find_entry ((n, y) :: rest) name with
    | Some x, Some y => folder_pruned prefix retain name x y | None, None => True | _, _ => False end) as Hcons.
  { intros y rest E Hy. rewrite !find_entry_cons. destruct (decide (n = name)) as [<-|]; [done|]. by apply IH. }
  destruct (is_generation_dir n) eqn:Eg; cbn [negb] in H.
  - destruct x as [d|]; [|discriminate H]. destruct (prune_files_ok prefix retain d (Hx d eq_refl)) as (d' & E & Hn & He). rewrite E in H.
    destruct (prune_folders prefix retain root) as [r rest] eqn:Er. injection H as -> <-.
    apply Hcons; [done|]. unfold folder_pruned. rewrite Eg. by exists d, d'.
  - destruct (prune_folders prefix retain root) as [r rest] eqn:Er. injection H as -> <-.
    apply Hcons; [done|]. unfold folder_pruned. by rewrite Eg.
Qed.

Lemma generation_dir_seen gid : 0 <= gid -> is_generation_dir (generation_dir gid) = true.
Proof.
  intros H. unfold is_generation_dir, generation_dir. rewrite prefix_app. cbn [andb]. unfold ends_with. rewrite rev_app_distr.
  pose proof (pad_digits_range 20 gid H) as Hr. pose proof (length_pad_digits 20 gid) as Hl. fold (pad20 gid) in Hr, Hl.
  destruct (pad20 gid) as [|b l] using rev_ind; [done|]. apply List.Forall_app in Hr as [_ Hr]. inversion Hr as [|? ? Hb _]; subst.
  rewrite rev_app_distr. cbn [rev app]. unfold has_prefix. change (rev (B ".staging")) with (x67 :: rev (B ".stagin")).
  cbn [strip_prefix]. destruct (decide (x67 = b)) as [<-|]; [|done]. exfalso. destruct Hb as [_ Hb]. vm_compute in Hb. by apply Hb.
Qed.
End keeping.

(** ** The checkpoint and the replay that starts from it *)

Section periodic.
Context {S : Sled} {HX : HexCodec} {D : Digests} {U : U256Ops} {IO : SnapshotIo}.
Context {JB : Json Block} {JH : Json BlockHeader} {JX : Json ExecutionSnapshot} {JG : Json GenerationSnapshot}.
Context {RI : SnapshotsReliable}.

Lemma take_snapshot_ok s c accts gid height hash profile fin msg sn :
  chain_rep (contents s) c -> account_rep (contents s) accts -> in_u64 height ->
  take_execution_snapshot s gid height hash profile fin msg = Ok sn ->
  es_height sn = height /\ es_profile_fingerprint sn = profile /\ es_block_hash sn = hash /\
  es_native_accounts sn = native_of accts /\ es_evm_accounts sn = accts /\
  exists b, c !! Z.to_nat height = Some b /\ header_hash (blk_header b) = hash /\ es_state_root sn = hdr_state_root (blk_header b).
Proof.
  intros Hc Ha Hh H. unfold take_execution_snapshot in H. apply res_bind_ok in H as (b & Hb & H).
  case_bool_decide as Hhash; [|done]. cbn [negb] in H.
  destruct (account_snapshot_rep _ _ Ha) as (H1 & H2 & _).
  apply res_bind_ok in H as (n & Hn & H). apply res_bind_ok in H as (e & He & [= <-]). cbn.
  apply H1 in Hn. apply H2 in He. do 5 (split; [done|]). exists b.
  split; [by eapply block_by_number_ok|]. done.
Qed.

(** A usable execution snapshot makes the lookup succeed. *)
Lemma latest_finds d height profile sn :
  dir_ok d -> held is_execution_file d sn -> usable height profile sn = true ->
  exists sn', latest_execution_snapshot_at_or_before (Some d) height profile = Ok (Some sn') /\
    held is_execution_file d sn' /\ usable height profile sn' = true /\ es_height sn <= es_height sn'.
Proof.
  intros Hd Hh Hu. destruct (first_of_kind is_execution_file d height profile Hd execution_entry) as (r & Hr & Hcase).
  unfold latest_execution_snapshot_at_or_before. rewrite no_list_error. cbn [io_check res_bind]. rewrite first_usable_app, Hr.
  cbn [res_bind]. destruct r as [sn'|]; [|by rewrite (Hcase _ Hh) in Hu]. destruct Hcase as (Hu' & Hh' & Hmax).
  exists sn'. split; [done|]. split; [done|]. split; [done|]. by apply Hmax.
Qed.

Lemma held_unique d sn sn' :
  dir_ok d -> held is_execution_file d sn -> held is_execution_file d sn' -> es_height sn = es_height sn' -> sn = sn'.
Proof.
  intros Hd Hh Hh' E. destruct (held_execution _ _ Hd Hh) as (b1 & Hin1 & Hb1 & _).
  destruct (held_execution _ _ Hd Hh') as (b2 & Hin2 & Hb2 & _). rewrite <- E in Hin2.
  assert (b1 = b2) as ->; [|congruence]. pose proof (do_names _ Hd) as Hnd.
  apply list_elem_of_lookup in Hin1 as [i Hi]. apply list_elem_of_lookup in Hin2 as [j Hj].
  assert (i = j) as ->; [|congruence].
  apply (NoDup_lookup (map fst d) i j (execution_snapshot_file (es_height sn)) Hnd); [rewrite list_lookup_fmap, Hi|rewrite list_lookup_fmap, Hj]; done.
Qed.

(** The pruning after the checkpoint. *)
Lemma periodic_pruned path retain root d1 u root' :
  root_ok root -> dir_ok d1 -> is_generation_dir path = true ->
  prune_old_execution_snapshots retain (put_entry path (Some d1) root) = (Ok u, root') ->
  exists d', folder root' path = Some d' /\ dir_ok d' /\
    (forall sn, held is_execution_file d' sn <-> held is_execution_file d1 sn /\ retain <= es_height sn) /\
    (forall e, is_execution_file e.1 = false -> e ∈ d' <-> e ∈ d1) /\
    forall name, name <> path ->
      match find_entry root name, find_entry root' name with
      | Some x, Some y => folder_pruned EXECUTION_SNAPSHOT_PREFIX retain name x y
      | None, None => True
      | _, _ => False
      end.
Proof.
  intros Hroot Hd1 Hpath H. unfold prune_old_execution_snapshots, prune_root in H. rewrite no_root_error in H.
  assert (root_ok (put_entry path (Some d1) root)) as Hroot1.
  { apply List.Forall_forall. intros e [->|[He _]]%list_elem_of_In%put_entry_elem; [intros d [= <-]; apply Hd1|].
    unfold root_ok in Hroot. rewrite List.Forall_forall in Hroot. apply Hroot. by apply list_elem_of_In. }
  pose proof (prune_folders_ok _ _ _ _ _ Hroot1 H) as Hall. pose proof (Hall path) as Hp. rewrite find_put_entry, decide_True in Hp by done.
  destruct (find_entry root' path) as [y|] eqn:Ey; [|done]. unfold folder_pruned in Hp. rewrite Hpath in Hp.
  destruct Hp as (d & d' & [= <-] & -> & Hn & He). destruct (prune_execution_ok _ _ _ Hd1 Hn He) as (Hd' & Hheld & Hrest).
  exists d'. split; [unfold folder; by rewrite Ey|]. do 3 (split; [done|]). intros name Hne.
  specialize (Hall name). by rewrite find_put_entry, decide_False in Hall.
Qed.

(** The replay from a snapshot of the tip. *)
Lemma snapshot_starts d sn tip profile history accts :
  dir_ok d -> held is_execution_file d sn -> es_height sn = block_number tip -> es_profile_fingerprint sn = profile ->
  es_block_hash sn = header_hash (blk_header tip) -> es_state_root sn = hdr_state_root (blk_header tip) ->
  es_native_accounts sn = native_of accts -> es_evm_accounts sn = accts ->
  latest_execution_snapshot_at_or_before (Some d) (block_number tip) profile = Ok (Some sn) /\
  overlay_from_snapshot sn (blk_header tip) history = Ok {|
    ov_native_accounts := native_of accts; ov_evm_state := revm_state_of_accounts accts;
    ov_parent := blk_header tip; ov_difficulty_history := history |}.
Proof.
  intros Hd Hsn Eh Ep Ehash Eroot Enat Eevm. assert (usable (block_number tip) profile sn = true) as Hus.
  { unfold usable. rewrite Eh, Z.leb_refl, Ep. by apply bool_decide_eq_true. }
  destruct (latest_finds d _ _ _ Hd Hsn Hus) as (sn2 & Hr & Hh2 & Hu2 & Hge).
  apply andb_true_iff in Hu2 as [Hle _]. apply Z.leb_le in Hle.
  rewrite (held_unique d sn2 sn Hd Hh2 Hsn) in Hr by lia. split; [exact Hr|].
  unfold overlay_from_snapshot. rewrite Ehash, Eroot, Eh, Enat, Eevm.
  rewrite !bool_decide_true by done. fold (block_number tip). rewrite Z.eqb_refl. cbn [negb orb].
  change (apply_accounts_to_revm_state (revm_state_of_accounts accts) (native_of accts)) with
    (merge_native_accounts_into_revm_state (revm_state_of_accounts accts) (native_of accts)).
  by rewrite merge_own_accounts.
Qed.

(** C34: the periodic checkpoint, run at a height divisible by the interval.

    In the directory of the active generation the execution snapshots are
    afterwards exactly the new one and the older ones at other heights from one
    interval below the finalized height on; no other file of it changes.  From
    the new one the replay overlay starts with the accounts and the EVM state
    of the store, standing on the canonical tip.  A look-up at any height that
    had a usable snapshot from one interval below the finalized height on still
    has one, at least as high.  So once a checkpoint has been written an
    interval ago, every branch that leaves the chain at the finalized height or
    above finds a snapshot not older than that checkpoint; before the first
    checkpoint there is none.

    Of the other entries of [generations/], those named as a generation, the
    staging ones apart, lose their execution snapshots below the same height
    and nothing else. *)
Theorem periodic_snapshot_resumes s c accts tip root d gid profile u root' history :
  let path := generation_dir gid in
  let retain := sat_sub (finalized_height (block_number tip)) EXECUTION_SNAPSHOT_INTERVAL in
  chain_rep (contents s) c -> account_rep (contents s) accts ->
  root_ok root -> find_entry root path <> Some None -> default [] (folder root path) = d -> dir_ok d -> 0 <= gid ->
  last c = Some tip -> 0 < block_number tip -> block_number tip mod EXECUTION_SNAPSHOT_INTERVAL = 0 ->
  write_periodic_snapshot true s (Ok (Some gid)) profile root = (Ok u, root') ->
  exists d' sn, folder root' path = Some d' /\ dir_ok d' /\
  latest_execution_snapshot_at_or_before (Some d') (block_number tip) profile = Ok (Some sn) /\
  overlay_from_snapshot sn (blk_header tip) history = Ok {|
    ov_native_accounts := native_of accts; ov_evm_state := revm_state_of_accounts accts;
    ov_parent := blk_header tip; ov_difficulty_history := history |} /\
  (forall sn', held is_execution_file d' sn' <->
     sn' = sn \/ (held is_execution_file d sn' /\ es_height sn' <> block_number tip /\ retain <= es_height sn')) /\
  (forall e, is_execution_file e.1 = false -> e ∈ d' <-> e ∈ d) /\
  (forall height fingerprint old, held is_execution_file d old -> usable height fingerprint old = true ->
     retain <= es_height old -> (es_height old = block_number tip -> fingerprint = profile) ->
     exists found, latest_execution_snapshot_at_or_before (Some d') height fingerprint = Ok (Some found) /\
       usable height fingerprint found = true /\ es_height old <= es_height found) /\
  (forall previous height, held is_execution_file d previous -> es_profile_fingerprint previous = profile ->
     es_height previous = block_number tip - EXECUTION_SNAPSHOT_INTERVAL -> finalized_height (block_number tip) <= height ->
     exists found, latest_execution_snapshot_at_or_before (Some d') height profile = Ok (Some found) /\
       usable height profile found = true /\ block_number tip - EXECUTION_SNAPSHOT_INTERVAL <= es_height found) /\
  (forall name, name <> path ->
     match find_entry root name, find_entry root' name with
     | Some x, Some y => folder_pruned EXECUTION_SNAPSHOT_PREFIX retain name x y
     | None, None => True
     | _, _ => False
     end).
Proof.
  intros path retain Hc Ha Hroot Hfolder Ed Hd Hgid Htip Hpos Hmod H. unfold write_periodic_snapshot in H. cbn [negb] in H.
  apply st_bind_ok in H as (best & d0 & [Hbest ->]%st_res_ok & H).
  destruct (best_header_ok _ _ _ Hc Hbest) as (tip' & Ht & <- & Hnum). rewrite Htip in Ht. injection Ht as <-.
  fold (block_number tip) in H. rewrite (proj2 (Z.eqb_neq (block_number tip) 0)) in H by lia. rewrite Hmod in H.
  cbn [Z.eqb negb orb] in H.
  apply st_bind_ok in H as (id & d0 & [[= <-] ->]%st_res_ok & H). apply st_bind_ok in H as ([] & root1 & H1 & H).
  unfold create_execution_snapshot in H1.
  apply st_bind_ok in H1 as (sn & d0 & [Hsn ->]%st_res_ok & H1).
  assert (in_u64 (block_number tip)) as Hu.
  { rewrite Hnum. assert (length c <> 0%nat) by (intros E; destruct c; [done|cbn in E; lia]).
    replace (Z.of_nat (length c) - 1) with (Z.of_nat (length c - 1)) by lia. apply (index_u64 c); [apply Hc|lia]. }
  destruct (take_snapshot_ok _ _ _ _ _ _ _ _ _ _ Hc Ha Hu Hsn) as (Eh & Ep & Ehash & Enat & Eevm & b & Hb & _ & Eroot).
  assert (b = tip) as ->.
  { rewrite Hnum in Hb. replace (Z.to_nat (Z.of_nat (length c) - 1)) with (Nat.pred (length c)) in Hb by lia.
    rewrite <- last_lookup in Hb. congruence. }
  destruct (write_execution_ok path sn d root tt root1 Hfolder Ed Hd) as (d1 & -> & Hd1 & Hheld1 & Hrest1); [by rewrite Eh|done|].
  assert (retain <= block_number tip - EXECUTION_SNAPSHOT_INTERVAL \/ retain = 0) as Hlow
    by (unfold retain, finalized_height, sat_sub, FINALITY_CONFIRMATION_DEPTH, EXECUTION_SNAPSHOT_INTERVAL in *; lia).
  destruct (periodic_pruned path retain root d1 u root' Hroot Hd1 (generation_dir_seen gid Hgid) H) as (d' & Hd'f & Hd' & Hheld2 & Hrest2 & Hothers).
  assert (forall sn', held is_execution_file d' sn' <->
     sn' = sn \/ (held is_execution_file d sn' /\ es_height sn' <> block_number tip /\ retain <= es_height sn')) as Hheld.
  { intros sn'. rewrite Hheld2, Hheld1, Eh. split; [tauto|]. intros [->|?]; [|tauto]. split; [by left|].
    rewrite Eh. unfold EXECUTION_SNAPSHOT_INTERVAL in Hlow. lia. }
  assert (held is_execution_file d' sn) as Hsn' by (apply Hheld; by left).
  exists d', sn. split; [done|]. split; [done|].
  destruct (snapshot_starts d' sn tip profile history accts Hd' Hsn' Eh Ep Ehash Eroot Enat Eevm) as [Hl Ho].
  split; [exact Hl|]. split; [exact Ho|]. split; [exact Hheld|]. split; [intros e He; rewrite Hrest2 by done; by apply Hrest1|].
  assert (forall height fingerprint old, held is_execution_file d old -> usable height fingerprint old = true ->
     retain <= es_height old -> (es_height old = block_number tip -> fingerprint = profile) ->
     exists found, latest_execution_snapshot_at_or_before (Some d') height fingerprint = Ok (Some found) /\
       usable height fingerprint found = true /\ es_height old <= es_height found) as Hlook.
  { intros height fingerprint old Hold Huse Hr Hsame. destruct (decide (es_height old = block_number tip)) as [Eq|Hne].
    - assert (usable height fingerprint sn = true) as Hus.
      { unfold usable in *. apply andb_true_iff in Huse as [Hle _]. rewrite Eh, <- Eq, Hle, Ep, (Hsame Eq).
        by apply bool_decide_eq_true. }
      destruct (latest_finds d' _ _ _ Hd' Hsn' Hus) as (sn4 & ? & _ & ? & ?). exists sn4. split; [done|]. split; [done|]. lia.
    - assert (held is_execution_file d' old) as Ho' by (apply Hheld; by right).
      destruct (latest_finds d' _ _ _ Hd' Ho' Huse) as (sn4 & ? & _ & ? & ?). by exists sn4. }
  split; [exact Hlook|]. split; [|exact Hothers].
  intros previous height Hprev Eprof Eheight Hfin.
  destruct (held_execution _ _ Hd Hprev) as (_ & _ & _ & Hp64). unfold in_u64 in Hp64. destruct (Hlook height profile previous Hprev) as (found & H2 & H3 & H4).
  - unfold usable. rewrite Eprof, bool_decide_true by done. rewrite andb_true_r. apply Z.leb_le.
    unfold finalized_height, sat_sub, FINALITY_CONFIRMATION_DEPTH, EXECUTION_SNAPSHOT_INTERVAL in *. lia.
  - lia.
  - unfold EXECUTION_SNAPSHOT_INTERVAL in Eheight. lia.
  - exists found. split; [done|]. split; [done|]. lia.
Qed.
End periodic.

(** ** Examples *)

Section snapshot_witnesses.
#[local] Existing Instances mem_sled hex_codec toy_digests mem_sled_reliable.

Definition mem_snapshots : SnapshotIo := {|
  root_error := fun _ => None; list_error := fun _ => None; no_folder := fun _ => "not a directory"%string; load_error := fun _ _ => None; save_error := fun _ _ => None;
  delete_error := fun _ _ => None |}.

Lemma mem_snapshots_reliable : @SnapshotsReliable mem_snapshots.
Proof. by split. Qed.

#[export] Instance execution_snapshot_eq_dec : EqDecision ExecutionSnapshot.
Proof. solve_decision. Defined.

Definition sample_execution (height : Z) (block_hash state_root : Hash256) : ExecutionSnapshot := {|
  es_generation_id := 1; es_height := height; es_block_hash := block_hash; es_state_root := state_root;
  es_profile_fingerprint := B "profile"; es_finalized_height := sat_sub height 6;
  es_native_accounts := ∅; es_evm_accounts := ∅ |}.

Definition sample_snapshots : list ExecutionSnapshot :=
  map (fun h => sample_execution h HASH_ZERO HASH_ZERO) [256; 512; 1024].
Definition sample_dir : SnapshotDir :=
  [(snapshot_file 1024, [x00; x00]); (execution_snapshot_file 256, []); (B "notes.txt", []);
   (execution_snapshot_file 512, [x00])].

Lemma entry_of_execution {JX : Json ExecutionSnapshot} sn b :
  from_slice b = Ok sn -> in_u64 (es_height sn) -> entry_ok (execution_snapshot_file (es_height sn), b).
Proof.
  intros Hb Hh. split; intros Hk; [by exists sn|]. cbn [fst] in Hk. by rewrite (proj2 (execution_file_kind _)) in Hk.
Qed.
Lemma entry_of_legacy {JX : Json ExecutionSnapshot} sn b :
  from_slice b = Ok sn -> in_u64 (es_height sn) -> entry_ok (snapshot_file (es_height sn), b).
Proof.
  intros Hb Hh. split; intros Hk; [|by exists sn]. cbn [fst] in Hk. by rewrite (proj1 (snapshot_file_kind _)) in Hk.
Qed.

Lemma sample_dir_ok : @dir_ok (table_json sample_snapshots) sample_dir.
Proof.
  split; [apply (bool_decide_unpack _); vm_compute; exact I|].
  assert (forall h, in_u64 h -> in_u64 (es_height (sample_execution h HASH_ZERO HASH_ZERO))) as Hu by done.
  apply List.Forall_cons; [|apply List.Forall_cons; [|apply List.Forall_cons; [|apply List.Forall_cons; [|apply List.Forall_nil]]]].
  - apply (@entry_of_legacy (table_json sample_snapshots) (sample_execution 1024 HASH_ZERO HASH_ZERO)); [reflexivity|].
    apply Hu. vm_compute. split; discriminate.
  - apply (@entry_of_execution (table_json sample_snapshots) (sample_execution 256 HASH_ZERO HASH_ZERO)); [reflexivity|].
    apply Hu. vm_compute. split; discriminate.
  - split; intros H; vm_compute in H; discriminate H.
  - apply (@entry_of_execution (table_json sample_snapshots) (sample_execution 512 HASH_ZERO HASH_ZERO)); [reflexivity|].
    apply Hu. vm_compute. split; discriminate.
Qed.

Lemma latest_snapshot_exact_witness :
  exists sn, @latest_execution_snapshot_at_or_before mem_snapshots (table_json sample_snapshots) (Some sample_dir) 2000 (B "profile") =
    Ok (Some sn) /\ es_height sn = 512.
Proof.
  destruct (@latest_snapshot_exact mem_snapshots (table_json sample_snapshots) mem_snapshots_reliable sample_dir 2000 (B "profile")
    sample_dir_ok) as (r & Hr & _).
  exists (sample_execution 512 HASH_ZERO HASH_ZERO). split; [|reflexivity]. rewrite Hr.
  vm_compute in Hr. injection Hr as <-. reflexivity.
Defined.

(** A chain up to the third interval, with a codec for its blocks. *)
Definition numbered_block (n : Z) : Block := empty_block (numbered_sample n).
Definition u64_ok (n : Z) : bool := (0 <=? n) && (n <=? U64_MAX).

Program Definition numbered_json {A} `{EqDecision A} (number : A -> Z) (of_number : Z -> A) : Json A := {|
  to_vec := fun a =>
    if bool_decide (a = of_number (number a)) && u64_ok (number a) then Ok (be_bytes 8 (number a)) else Err "not numbered"%string;
  from_slice := fun b => Ok (of_number (be_val b));
|}.
Next Obligation.
  intros A HA number of_number a b. cbv beta. case_bool_decide as E; [|done]. cbn [andb].
  destruct (u64_ok (number a)) eqn:Hu; [|done]. intros [= <-]. unfold u64_ok in Hu.
  apply andb_true_iff in Hu as [H1 H2]. apply Z.leb_le in H1, H2.
  rewrite be_val_be_bytes_small by (change (256 ^ Z.of_nat 8) with (U64_MAX + 1); lia). by rewrite <- E.
Qed.

Definition interval_chain : list Block := map (fun i => numbered_block (Z.of_nat i)) (seq 0 769).
Definition interval_tip : Block := numbered_block 768.
Definition block_json : Json Block := numbered_json block_number numbered_block.
Definition header_json : Json BlockHeader := numbered_json hdr_number numbered_sample.
Definition interval_snapshot : ExecutionSnapshot :=
  sample_execution 768 (header_hash (blk_header interval_tip)) (hdr_state_root (blk_header interval_tip)).
Definition old_snapshot (height : Z) : ExecutionSnapshot := sample_execution height HASH_ZERO HASH_ZERO.
Definition interval_json : Json ExecutionSnapshot := table_json [interval_snapshot; old_snapshot 512; old_snapshot 256].

(** The active generation, an older one, a staging one, and the pointer. *)
Definition old_file (i height : Z) : list byte * list byte := (execution_snapshot_file height, repeat x00 (Z.to_nat i)).
Definition staging_dir : list byte := generation_dir 3 ++ B ".staging".
Definition interval_root : GenerationsRoot :=
  [(generation_dir 1, Some [old_file 1 512; old_file 2 256]); (generation_dir 2, Some [old_file 2 256]);
   (staging_dir, Some [old_file 2 256]); (B "active-generation.json", None)].
Definition interval_root' : GenerationsRoot :=
  [(generation_dir 1, Some [old_file 1 512; old_file 0 768]); (generation_dir 2, Some []);
   (staging_dir, Some [old_file 2 256]); (B "active-generation.json", None)].

Lemma interval_store :
  exists s, @chain_rep hex_codec block_json header_json (contents s) interval_chain /\ account_rep (contents s) ∅.
Proof.
  set (s0 := {| ss_db := (∅ : @sled_db mem_sled); ss_defer_flush := false |}).
  destruct (@insert_blocks_succeed mem_sled hex_codec toy_digests block_json header_json (table_json []) (table_json [])
    mem_sled_reliable interval_chain s0) as ([] & s & Hrun).
  { apply List.Forall_map, List.Forall_forall. intros i Hi. apply List.in_seq in Hi.
    assert (u64_ok (Z.of_nat i) = true) as Hu by (unfold u64_ok; apply andb_true_iff; rewrite !Z.leb_le; unfold U64_MAX; lia).
    unfold storable, json_vec, block_json, header_json, numbered_json, numbered_block, to_vec.
    change (block_number (empty_block (numbered_sample (Z.of_nat i)))) with (Z.of_nat i).
    change (hdr_number (blk_header (empty_block (numbered_sample (Z.of_nat i))))) with (Z.of_nat i).
    change (blk_header (empty_block (numbered_sample (Z.of_nat i)))) with (numbered_sample (Z.of_nat i)).
    rewrite !bool_decide_true by reflexivity. rewrite Hu. done. }
  exists s. destruct (@insert_blocks_rep mem_sled hex_codec toy_digests block_json header_json (table_json []) (table_json []) interval_chain [] s0 s) as [Hc Ha]; [by apply chain_rep_empty| | |exact Hrun|].
  - intros i b Hb. unfold interval_chain in Hb. cbn [app] in Hb. rewrite list_lookup_fmap_Some in Hb.
    destruct Hb as (j & -> & Hj). apply lookup_seq in Hj as [-> _]. cbn. lia.
  - vm_compute. discriminate.
  - split; [exact Hc|]. eapply account_rep_other; [apply rep_empty|]. intros k Hk. by apply Ha.
Qed.

Lemma old_entry i height :
  in_u64 height -> @from_slice _ interval_json (repeat x00 (Z.to_nat i)) = Ok (old_snapshot height) ->
  @entry_ok interval_json (old_file i height).
Proof. intros Hh Hs. by apply (@entry_of_execution interval_json (old_snapshot height)). Qed.

Lemma periodic_snapshot_resumes_witness :
  exists d', folder interval_root' (generation_dir 1) = Some d' /\ @dir_ok interval_json d' /\
  exists found,
    @latest_execution_snapshot_at_or_before mem_snapshots interval_json (Some d') 762 (B "profile") = Ok (Some found) /\
    512 <= es_height found.
Proof.
  destruct interval_store as (s & Hc & Ha).
  assert (@best_header mem_sled header_json s = Ok (blk_header interval_tip)) as Hbest by (by rewrite (best_header_rep s interval_chain Hc)).
  assert (@block_by_number mem_sled block_json s 768 = Ok interval_tip) as Hblock.
  { rewrite (proj2 (header_by_number_rep s interval_chain 768 Hc ltac:(vm_compute; split; discriminate))). reflexivity. }
  destruct (account_snapshot_rep s ∅ Ha) as (_ & _ & Hacc). destruct (Hacc mem_sled_reliable) as [Hnat Hevm].
  assert (@write_periodic_snapshot mem_sled hex_codec toy_digests mem_snapshots block_json interval_json header_json
    true s (Ok (Some 1)) (B "profile") interval_root = (Ok tt, interval_root')) as Hrun.
  { unfold write_periodic_snapshot, create_execution_snapshot, take_execution_snapshot, st_bind, st_res. cbn [negb].
    rewrite Hbest. change (hdr_number (blk_header interval_tip)) with 768. cbn [Z.eqb negb orb Z.modulo Z.div_eucl].
    change (768 mod EXECUTION_SNAPSHOT_INTERVAL) with 0. cbn [Z.eqb negb orb].
    rewrite Hblock. cbn [res_bind]. rewrite bool_decide_true by reflexivity. cbn [negb]. rewrite Hnat, Hevm. cbn [res_bind].
    vm_compute. reflexivity. }
  destruct (@periodic_snapshot_resumes mem_sled hex_codec toy_digests u256_z mem_snapshots block_json header_json interval_json
    mem_snapshots_reliable s interval_chain ∅ interval_tip interval_root [old_file 1 512; old_file 2 256] 1 (B "profile") tt interval_root' []
    Hc Ha) as (d' & sn & Hf & Hd & _ & _ & _ & _ & _ & Hprev & _).
  - apply List.Forall_forall. intros e He. cbn in He.
    destruct He as [<-|[<-|[<-|[<-|[]]]]]; intros d [= <-]; apply (bool_decide_unpack _); vm_compute; exact I.
  - vm_compute. discriminate.
  - vm_compute. reflexivity.
  - split; [apply (bool_decide_unpack _); vm_compute; exact I|].
    apply List.Forall_cons; [|apply List.Forall_cons; [|apply List.Forall_nil]];
      (apply old_entry; [split; vm_compute; discriminate|vm_compute; reflexivity]).
  - lia.
  - vm_compute. reflexivity.
  - vm_compute. reflexivity.
  - vm_compute. reflexivity.
  - exact Hrun.
  - exists d'. split; [exact Hf|]. split; [exact Hd|].
    destruct (Hprev (old_snapshot 512) 762) as (found & Hfound & _ & Hh).
    + exists (old_file 1 512). split; [by left|]. split; vm_compute; reflexivity.
    + reflexivity.
    + vm_compute. reflexivity.
    + vm_compute. discriminate.
    + exists found. split; [exact Hfound|exact Hh].
Defined.
End snapshot_witnesses.
