(* ===== verification/Branch.v ===== *)
(** Choosing between chains in [crates/blq-node/src/main.rs]: cumulative work,
    the assembly of a candidate branch from the stored bodies, the queueing of
    competing blocks, the orphan drain and the replay of a whole chain.

    Functions that return [anyhow::Result] run in [StM string NodeStorage].
    Log output, telemetry and gossip are not part of the state. *)

From Stdlib Require Import ZArith Lia Strings.String Strings.Byte.
From stdpp Require Import sorting gmap fin_maps base list.
From S2P Require Import Prelude Externals Primitives Canonical Rlp RawTx Pow Consensus State StateRoot.
From S2P Require Import Transition Evm Difficulty BlockExec Mempool Admission Replay Network.
From S2P Require Import Sled AccountStore BlockStore Generation Publish CandidateStore NodeStore Snapshots.
#[local] Open Scope Z_scope.

Definition MAX_P2P_HEADERS : nat := 512.
Definition MAX_CANDIDATE_REPLAY_SUFFIX : Z := 8192.
Definition MAX_CANDIDATE_REPLAY_BYTES : Z := 256 * 1024 * 1024.
Definition MIN_CANDIDATE_REPLAY_MEMORY_HEADROOM_BYTES : Z := 768 * 1024 * 1024.
Definition REPLAY_CHECKPOINT_INTERVAL : Z := 16.

(** The settings of [NodeConfig] the import reads. *)
Record NodeConfig := {
  nc_full : bool;
  nc_replay : ReplayConfig;
  nc_pruning_enabled : bool;
  nc_retain_finalized_checkpoints : bool;
  nc_retain_snapshots : bool;
  nc_max_storage_bytes : Z;
  nc_prune_trigger_percent : Z;
  nc_filesystem_reserve_bytes : Z;
}.

(** The points of a publication at which the storage lock is taken, or the
    memory is measured. *)
Inductive Moment := AtCapture | AtRead (number : Z) | AtSuffix (index : Z) | AtPublish | AtInsert.

(** The disk and the cgroup of the node: the bytes in use, the bytes free
    before and after a pruning, the generation the active pointer names, the
    removal of old generation files, the memory readings, and the appends to
    the files of a partial node. *)
Class Host {S : Sled} := {
  disk_usage_bytes : SledStorage -> res StorageError Z;
  partial_usage_bytes : FileStorage -> res StorageError Z;
  filesystem_free_bytes : option Z;
  filesystem_free_after : option Z;
  active_generation : NodeStorage -> res StorageError (option Generation);
  remove_old_files : Z -> res string unit;
  cgroup_memory : Moment -> option Z * option Z * option Z;
  append_block : Block -> res StorageError unit;
  append_header : BlockHeader -> res StorageError unit;
}.

Definition is_err {E A} (m : res E A) : bool := match m with Err _ => true | _ => false end.

(** [ok()] where a panic still unwinds. *)
Definition attempt {E F A} (m : res E A) : res F (option A) :=
  match m with Ok a => Ok (Some a) | Err _ => Ok None | Panic => Panic end.

(** [err.to_string().contains(needle)]. *)
Definition contains (needle text : string) : bool :=
  match String.index 0 needle text with Some _ => true | None => false end.

Section branch.
Context {S : Sled} {HX : HexCodec} {D : Digests} {U : U256Ops} {R : Revm} {SE : Secp} {RX : RandomX} {BP : BuildProfile}.
Context {JB : Json Block} {JH : Json BlockHeader} {JT : Json Transaction} {JR : Json StoredReceipt}.
Context {JE : Json (list SerializedEvmSnapshotEntry)}.
Context {IO : FileIo} {JM : Json GenerationManifest} {JC : Json ReplayCheckpoint}.
Context {JP : Json GenerationPublicationRecord} {JS : Json SuffixPublicationRecord} {CM : CompactManifest}.
Context {HO : Host}.

Definition Node (A : Type) : Type := StM string NodeStorage A.

(** ** Work *)

Definition canonical_work (blocks : list Block) : Z :=
  fold_left (fun work b => sat_add U128_MAX work (work_for_target (hdr_difficulty_target (blk_header b)))) blocks 0.

Fixpoint sum_block_work (n : NodeStorage) (numbers : list Z) (work : Z) : res string Z :=
  match numbers with
  | [] => Ok work
  | number :: numbers =>
      let? block := any_res (node_block_by_number n number) in
      sum_block_work n numbers (sat_add U128_MAX work (work_for_target (hdr_difficulty_target (blk_header block))))
  end.

Definition canonical_work_through_node_storage (n : NodeStorage) (height : Z) : res string Z :=
  sum_block_work n (range_incl 0 height) 0.

(** ** The storage methods the import uses *)

Definition needs_full (what : string) : string := (what ++ " full storage")%string.

Definition node_block_by_hash (n : NodeStorage) (hash : Hash256) : res string Block :=
  of_full (fun s => any_res (block_by_hash s hash)) (fun _ => Err (needs_full "block bodies require")) n.
Definition node_canonical_blocks : NodeStorage -> res string (list Block) :=
  of_full (fun s => any_res (canonical_blocks s)) (fun _ => Err (needs_full "canonical block bodies require")).
Definition node_candidate_work (n : NodeStorage) (hash : Hash256) : res string Z :=
  of_full (fun s => any_res (candidate_work s hash)) (fun _ => Err (needs_full "candidate block bodies require")) n.
Definition node_orphan_blocks : NodeStorage -> res string (list Block) :=
  of_full (fun s => any_res (orphan_blocks s)) (fun _ => Ok []).
Definition node_store_orphan_block (block : Block) : Node unit :=
  on_full (any (on_db (store_orphan_block block))) (Err (needs_full "orphan blocks require")).
Definition node_remove_orphan_block (hash : Hash256) : Node unit :=
  on_full (any (on_db (remove_orphan_block hash))) (Ok tt).
Definition node_store_candidate_block (block : Block) (work : Z) : Node unit :=
  on_full (any (on_db (store_candidate_block block work))) (Err (needs_full "candidate block bodies require")).
Definition node_remove_candidate_blocks (hashes : list Hash256) : Node unit :=
  on_full (any (on_db (remove_candidate_blocks hashes))) (Ok tt).
Definition node_store_recovery_spool_block (tip_hash : Hash256) (block : Block) (work : Z) : Node unit :=
  on_full (any (on_db (store_recovery_block_unflushed tip_hash block work))) (Err (needs_full "recovery spool requires")).
Definition node_recovery_spool_block_by_hash (hash : Hash256) : Node (Block * Z) :=
  on_full (any (on_db (recovery_block_by_hash hash))) (Err (needs_full "recovery spool requires")).
Definition node_quarantine_candidate_tip (hash : Hash256) (reason : list byte) : Node unit :=
  on_full (any (on_db (quarantine_candidate_tip hash reason))) (Ok tt).
Definition node_clear_canonical_state : Node unit :=
  on_full (any (on_db clear_canonical_state)) (Err (needs_full "canonical state requires")).
Definition node_prune_old_blocks (max_bytes minimum_body_height : Z) : Node unit :=
  on_full (any (on_db (prune_old_blocks disk_usage_bytes max_bytes minimum_body_height))) (Ok tt).
Definition begin_sync_batch : Node unit := on_full (any (on_db begin_batch)) (Ok tt).
Definition flush_sync_batch : Node unit := on_full (any (on_db flush_batch)) (Ok tt).
Definition end_sync_batch : Node unit := on_full (any (on_db end_batch)) (Ok tt).

(** [let result = body(); let flush = end(); result?; flush]. *)
Definition with_batch {State} (end_ body : StM string State unit) : StM string State unit := fun n =>
  match body n with
  | (Panic, n) => (Panic, n)
  | (r, n) =>
      let '(flush, n) := end_ n in
      (match flush with Panic => Panic | _ => match r with Ok _ => flush | _ => r end end, n)
  end.

(** ** The difficulty target of a child on the node's storage *)

Fixpoint st_history_loop (n : nat) (cursor : BlockHeader) (newest_to_oldest : list BlockHeader)
    : Node (list BlockHeader) :=
  match n with
  | O => st_ret newest_to_oldest
  | Datatypes.S n =>
      if hdr_number cursor =? 0 then st_ret newest_to_oldest
      else
        do? cursor := node_difficulty_header_by_hash (hdr_parent_hash cursor) in
        st_history_loop n cursor (newest_to_oldest ++ [cursor])
  end.

(** [expected_difficulty_target]: the rule of the Difficulty file, with a
    lookup that may repair the index of the recovery spool. *)
Definition expected_difficulty_target (parent child : BlockHeader) (activation : option Z) : Node Hash256 :=
  if hdr_number child =? 0 then st_ret (hdr_difficulty_target parent)
  else if v2_active child activation then
    do? newest_to_oldest := st_history_loop BLOCK_TIME_V2_MEDIAN_WINDOW parent [parent] in
    do? (median, latest) := st_res (intervals_of_headers (rev newest_to_oldest)) in
    st_res (lift (next_block_difficulty_target_v2 (hdr_difficulty_target parent) median latest))
  else st_res (lift (next_block_difficulty_target (hdr_difficulty_target parent) (interval parent child))).

Definition validate_difficulty (rc : ReplayConfig) (parent child : BlockHeader) : Node unit :=
  do? expected := expected_difficulty_target parent child (rp_block_time_v2_activation_height rc) in
  st_res (if bool_decide (hdr_difficulty_target child = expected) then Ok tt
          else Err "block difficulty target does not match retarget rule"%string).

(** The three checks of a block that extends the tip. *)
Definition validate_block_live (rc : ReplayConfig) (parent : BlockHeader) (block : Block) : Node unit :=
  st_read (fun n => validate_block_for_storage (rp_block_size_activation_height rc) n parent block) ;!
  validate_difficulty rc parent (blk_header block) ;!
  st_read (fun n => validate_state_root (node_view n) block).

(** ** Disk and memory *)

(** The [finalizedHeight] of [generation_status]. *)
Definition status_finalized_height (n : NodeStorage) : res string (option Z) :=
  let? active := any_res (active_generation n) in
  match active with
  | None => Ok None
  | Some g =>
      let? manifest := any_res (load_generation_manifest g) in
      let? _ := any_res (load_replay_checkpoint g) in
      Ok (gm_finalized_height <$> manifest)
  end.

Definition prune_floor (config : NodeConfig) (n : NodeStorage) : res string Z :=
  if negb (nc_retain_finalized_checkpoints config) then Ok 0
  else let? h := status_finalized_height n in Ok (default 0 h).

Definition prune_if_enabled (config : NodeConfig) : Node unit :=
  if nc_pruning_enabled config then
    do? floor := st_read (prune_floor config) in
    node_prune_old_blocks (nc_max_storage_bytes config) floor
  else st_ret tt.

Definition node_disk_usage (n : NodeStorage) : res string Z :=
  match n with Full g => any_res (disk_usage_bytes (gn_db g)) | Partial f => any_res (partial_usage_bytes f) end.

Definition below (free : option Z) (reserve : Z) : bool := match free with Some f => f <? reserve | None => false end.

Definition ensure_storage_cap (config : NodeConfig) : Node unit :=
  let max := nc_max_storage_bytes config in
  (if nc_pruning_enabled config then
     do? floor := st_read (prune_floor config) in st_res (remove_old_files (sat_sub floor 64))
   else st_ret tt) ;!
  (if below filesystem_free_bytes (nc_filesystem_reserve_bytes config) then
     prune_if_enabled config ;!
     st_res (if below filesystem_free_after (nc_filesystem_reserve_bytes config)
             then Err "filesystem reserve unavailable: node is storage-blocked"%string else Ok tt)
   else st_ret tt) ;!
  if max =? 0 then st_ret tt
  else
    do? used := st_read node_disk_usage in
    (if nc_pruning_enabled config && (sat_mul U64_MAX max (nc_prune_trigger_percent config) <=? sat_mul U64_MAX used 100)
     then prune_if_enabled config else st_ret tt) ;!
    do? used := st_read node_disk_usage in
    st_res (if max <=? used then Err "node storage cap reached"%string else Ok tt).

Definition candidate_replay_memory_headroom_available (current high maximum : option Z) : bool :=
  let limit := match high, maximum with
               | Some h, Some m => Some (Z.min h m)
               | Some l, None | None, Some l => Some l
               | None, None => None
               end in
  match current, limit with
  | Some current, Some limit => sat_add U64_MAX current MIN_CANDIDATE_REPLAY_MEMORY_HEADROOM_BYTES <=? limit
  | _, _ => true
  end.

Definition ensure_candidate_replay_memory_headroom (m : Moment) : res string unit :=
  let '(current, high, maximum) := cgroup_memory m in
  ensure (candidate_replay_memory_headroom_available current high maximum)
    "candidate replay deferred: cgroup memory headroom is too low"%string.

(** ** Assembling a candidate branch *)

(** The body of a parent: from the recovery spool, else the chain or the
    candidates. *)
Definition parent_body (hash : Hash256) : Node Block := fun n =>
  match node_recovery_spool_block_by_hash hash n with
  | (Ok bw, n) => (Ok bw.1, n)
  | (Panic, n) => (Panic, n)
  | (Err _, n) =>
      (match node_block_by_hash n hash with
       | Ok b => Ok b
       | Err _ => Err "candidate branch incomplete; waiting-for-provider"%string
       | Panic => Panic
       end, n)
  end.

(** The checked step to the parent. *)
Definition step_to_parent (current : Block) : Node Block :=
  do? parent := parent_body (hdr_parent_hash (blk_header current)) in
  st_res (if negb (sat_add U64_MAX (hdr_number (blk_header parent)) 1 =? hdr_number (blk_header current))
             || negb (bool_decide (header_hash (blk_header parent) = hdr_parent_hash (blk_header current)))
          then Err "candidate rejected: non-contiguous parent linkage"%string else Ok parent).

(** The block at the height of [current], when it is [current]. *)
Definition canonical_at (n : NodeStorage) (current : Block) : res string (option Block) :=
  let? found := attempt (node_block_by_number n (hdr_number (blk_header current))) in
  Ok (match found with
      | Some b => if bool_decide (header_hash (blk_header b) = header_hash (blk_header current)) then Some b else None
      | None => None
      end).

Definition branch_at (canonical : Block) (reversed : list Block) : CandidateBranch := {|
  cb_common_height := hdr_number (blk_header canonical);
  cb_common_hash := header_hash (blk_header canonical);
  cb_suffix := rev reversed |}.

Fixpoint branch_loop (fuel : nat) (visited : gset (list byte)) (bytes : Z) (reversed : list Block) (current : Block)
    : Node CandidateBranch :=
  match fuel with
  | O => st_res Panic
  | Datatypes.S fuel =>
      let hash := header_hash (blk_header current) in
      if bool_decide (hash ∈ visited) then st_res (Err "candidate rejected: parent cycle detected"%string)
      else
        do? canonical := st_read (fun n => canonical_at n current) in
        match canonical with
        | Some canonical => st_ret (branch_at canonical reversed)
        | None =>
            let bytes := sat_add U64_MAX bytes (Z.of_nat (length (block_canonical_bytes current))) in
            if (MAX_CANDIDATE_REPLAY_SUFFIX <=? Z.of_nat (length reversed)) || (MAX_CANDIDATE_REPLAY_BYTES <? bytes)
            then st_res (Err "candidate rejected: branch suffix exceeds live replay limit"%string)
            else
              do? parent := step_to_parent current in
              branch_loop fuel ({[hash]} ∪ visited) bytes (reversed ++ [current]) parent
        end
  end.

(** Each round adds a block and more than [MAX_CANDIDATE_REPLAY_SUFFIX] are
    refused. *)
Definition branch_fuel : nat := Z.to_nat (MAX_CANDIDATE_REPLAY_SUFFIX + 2).
Definition candidate_branch_from_storage (tip : Block) : Node CandidateBranch :=
  branch_loop branch_fuel ∅ 0 [] tip.

(** [canonical_by_hash.get]: the last entry of a hash wins. *)
Definition canonical_by_hash (canonical : list Block) (hash : Hash256) : option Block :=
  List.find (fun b => bool_decide (header_hash (blk_header b) = hash)) (rev canonical).

Fixpoint replacement_loop (fuel : nat) (canonical : list Block) (visited : gset (list byte)) (reversed : list Block)
    (current : Block) : Node CandidateBranch :=
  match fuel with
  | O => st_res Panic
  | Datatypes.S fuel =>
      let hash := header_hash (blk_header current) in
      let too_long reversed := MAX_CANDIDATE_REPLAY_SUFFIX <? Z.of_nat (length reversed) in
      let refused := st_res (Err "candidate rejected: branch suffix exceeds replay limit"%string) in
      if bool_decide (hash ∈ visited) then st_res (Err "candidate rejected: parent cycle detected"%string)
      else
        match canonical_by_hash canonical hash with
        | Some canonical => if too_long reversed then refused else st_ret (branch_at canonical reversed)
        | None =>
            let reversed := reversed ++ [current] in
            if too_long reversed then refused
            else
              do? parent := step_to_parent current in
              replacement_loop fuel canonical ({[hash]} ∪ visited) reversed parent
        end
  end.

Definition candidate_replacement (tip : Block) (previous_canonical : list Block) : Node CandidateBranch :=
  replacement_loop branch_fuel previous_canonical ∅ [] tip.

Definition materialize_candidate_replacement (branch : CandidateBranch) (canonical : list Block)
    : res string (list Block) :=
  let? ancestor := ok_or (canonical !! Z.to_nat (cb_common_height branch))
    "candidate common ancestor is absent from canonical storage"%string in
  if negb (bool_decide (header_hash (blk_header ancestor) = cb_common_hash branch))
  then Err "candidate common ancestor does not match canonical storage"%string
  else Ok (take (Z.to_nat (cb_common_height branch) + 1) canonical ++ cb_suffix branch).

(** ** Replaying a whole chain *)

Fixpoint replay_blocks (rc : ReplayConfig) (index : Z) (blocks : list Block) : Node unit :=
  match blocks with
  | [] => st_ret tt
  | block :: blocks =>
      do? parent := st_read (fun n => any_res (node_best_header n)) in
      validate_block_live rc parent block ;!
      any (node_insert_block append_block block) ;!
      (if index mod REPLAY_CHECKPOINT_INTERVAL =? 0 then flush_sync_batch else st_ret tt) ;!
      replay_blocks rc (index + 1) blocks
  end.

Definition replay_canonical_chain (rc : ReplayConfig) (chain : list Block) : Node unit :=
  do? genesis := st_res (ok_or (head chain) "cannot replay an empty chain"%string) in
  if negb (hdr_number (blk_header genesis) =? 0)
  then st_res (Err "canonical replay must begin at genesis"%string)
  else
    begin_sync_batch ;!
    with_batch end_sync_batch
      (any (node_insert_block append_block genesis) ;! replay_blocks rc 1 (tail chain)).

(** A failed replacement is undone by replaying the old chain; when that
    succeeds the failure itself is not reported. *)
Definition rebuild_canonical_chain (rc : ReplayConfig) (replacement previous : list Block) : Node unit :=
  node_clear_canonical_state ;!
  fun n =>
    match replay_canonical_chain rc replacement n with
    | (Err reorg_error, n) =>
        match (node_clear_canonical_state ;! replay_canonical_chain rc previous) n with
        | (Err rollback_error, n) =>
            (Err ("candidate reorg failed: " ++ reorg_error ++ "; rollback failed: " ++ rollback_error)%string, n)
        | r => r
        end
    | r => r
    end.

(** [isolated] is the store opened at a fresh path, [cleanup] the removal of
    that path. *)
Definition validate_replacement_in_isolation (isolated : res string Generation) (cleanup : res string unit)
    (rc : ReplayConfig) (replacement : list Block) : res string unit :=
  let? _ := ok_or (head replacement) "candidate branch is empty"%string in
  match (let? g := isolated in (replay_canonical_chain rc replacement (Full g)).1), cleanup with
  | Ok _, Ok _ => Ok tt
  | Panic, _ | _, Panic => Panic
  | Err e, _ => Err e
  | Ok _, Err e => Err ("remove replay validation: " ++ e)%string
  end.

Definition promote_candidate_chain (isolated : res string Generation) (cleanup : res string unit)
    (rc : ReplayConfig) (tip : Block) (previous_canonical : list Block) : Node unit :=
  do? branch := candidate_replacement tip previous_canonical in
  do? replacement := st_res (materialize_candidate_replacement branch previous_canonical) in
  st_res (validate_replacement_in_isolation isolated cleanup rc replacement) ;!
  rebuild_canonical_chain rc replacement previous_canonical.

(** The maintenance command that shortens the chain.  When the replay fails
    the chain is left empty. *)
Definition rollback_node (rc : ReplayConfig) (height : Z) : Node BlockHeader :=
  do? canonical := st_read node_canonical_blocks in
  do? current := st_res (ok_or (last canonical) "cannot roll back an empty chain"%string) in
  if hdr_number (blk_header current) <=? height
  then st_res (Err "rollback height is not below current height"%string)
  else
    let replacement := take (Z.to_nat (sat_add U64_MAX height 1)) canonical in
    do? target := st_res (ok_or (last replacement) "rollback target is empty"%string) in
    node_clear_canonical_state ;!
    fun n =>
      match replay_canonical_chain rc replacement n with
      | (Ok _, n) => (Ok (blk_header target), n)
      | (Err e, n) => (Err e, (node_clear_canonical_state n).2)
      | (Panic, n) => (Panic, n)
      end.

(** ** Competing blocks *)

(** The parent, the checks and the work of a block beside the tip; [None] when
    the parent is missing and the block became an orphan. *)
Definition store_competing (require_signed : bool) (block : Block) : Node (option Z) :=
  let parent_hash := hdr_parent_hash (blk_header block) in
  st_res (validate_block_transaction_auth require_signed block) ;!
  do? parent := st_read (fun n => attempt (node_block_by_hash n parent_hash)) in
  match parent with
  | None => node_store_orphan_block block ;! st_ret None
  | Some branch_parent =>
      st_read (fun n => validate_header_for_storage n (blk_header branch_parent) (blk_header block)) ;!
      do? parent_work := st_read (fun n =>
        match node_candidate_work n parent_hash with
        | Ok work => Ok work
        | Err _ => canonical_work_through_node_storage n (hdr_number (blk_header branch_parent))
        | Panic => Panic
        end) in
      let candidate_work := sat_add U128_MAX parent_work (work_for_target (hdr_difficulty_target (blk_header block))) in
      node_store_candidate_block block candidate_work ;!
      st_ret (Some candidate_work)
  end.

(** The comparison with the tip: a branch of equal work that ends at the height
    of the tip must have the smaller hash. *)
Definition weaker_than_tip (candidate_work current_work : Z) (block current : BlockHeader) : bool :=
  (candidate_work <? current_work)
  || ((candidate_work =? current_work) && (hdr_number block =? hdr_number current)
      && negb (bytes_ltb (header_hash block) (header_hash current))).

Definition queue_competing_block (isolated : res string Generation) (cleanup : res string unit)
    (rc : ReplayConfig) (block : Block) : Node bool :=
  do? work := store_competing (rp_require_signed_transactions rc) block in
  match work with
  | None => st_ret false
  | Some candidate_work =>
      do? canonical := st_read node_canonical_blocks in
      do? current := st_res (ok_or (last canonical) "canonical chain is empty"%string) in
      if weaker_than_tip candidate_work (canonical_work canonical) (blk_header block) (blk_header current)
      then st_ret false
      else promote_candidate_chain isolated cleanup rc block canonical ;! st_ret true
  end.

Definition queue_competing_block_pending (require_signed : bool) (block : Block) : Node (option CandidateBranch) :=
  do? work := store_competing require_signed block in
  match work with
  | None => st_ret None
  | Some candidate_work =>
      do? current := st_read (fun n => any_res (node_best_header n)) in
      do? current_work := st_read (fun n => canonical_work_through_node_storage n (hdr_number current)) in
      if weaker_than_tip candidate_work current_work (blk_header block) current
      then st_ret None
      else do? branch := candidate_branch_from_storage block in st_ret (Some branch)
  end.

(** ** Draining the orphans *)

Definition extends (parent header : BlockHeader) : bool :=
  bool_decide (hdr_parent_hash header = header_hash parent)
  && (hdr_number header =? wrap64 (hdr_number parent + 1)).

Definition drain_orphan (isolated : res string Generation) (cleanup : res string unit) (rc : ReplayConfig)
    (block : Block) : Node bool :=
  do? parent := st_read (fun n => any_res (node_best_header n)) in
  if extends parent (blk_header block) then
    validate_block_live rc parent block ;!
    any (node_insert_block append_block block) ;!
    node_remove_orphan_block (header_hash (blk_header block)) ;!
    st_ret true
  else
    do? known := st_read (fun n => attempt (node_header_by_hash n (hdr_parent_hash (blk_header block)))) in
    match known with
    | None => st_ret false
    | Some _ => fun n =>
        match queue_competing_block isolated cleanup rc block n with
        | (Ok _, n) => (node_remove_orphan_block (header_hash (blk_header block)) ;! st_ret true) n
        | (Err e, n) => if contains "was not found" e then (Ok false, n) else (Err e, n)
        | (Panic, n) => (Panic, n)
        end
    end.

Fixpoint drain_pass (isolated : res string Generation) (cleanup : res string unit) (rc : ReplayConfig)
    (orphans : list Block) (progressed : bool) : Node bool :=
  match orphans with
  | [] => st_ret progressed
  | block :: orphans =>
      do? p := drain_orphan isolated cleanup rc block in
      drain_pass isolated cleanup rc orphans (p || progressed)
  end.

Fixpoint drain_rounds (isolated : res string Generation) (cleanup : res string unit) (config : NodeConfig)
    (rounds : nat) : Node unit :=
  match rounds with
  | O => st_ret tt
  | Datatypes.S rounds =>
      do? orphans := st_read node_orphan_blocks in
      do? progressed := drain_pass isolated cleanup (nc_replay config) orphans false in
      if negb progressed then st_ret tt
      else prune_if_enabled config ;! drain_rounds isolated cleanup config rounds
  end.

Definition drain_orphan_blocks (isolated : res string Generation) (cleanup : res string unit) (config : NodeConfig)
    : Node unit :=
  drain_rounds isolated cleanup config MAX_P2P_HEADERS.
End branch.
