(* ===== verification/Import.v ===== *)
(** The imports of [crates/blq-node/src/main.rs]: the direct extension of the
    tip by a recovered suffix, the publication of a fork, and the import of a
    block or a header that arrives from the network or from recovery.

    The storage lock is released between the steps of a publication.  What
    other threads do to the storage while it is free is the argument
    [Others]: a function for each point at which the lock is taken again.  An
    import returns what it decided; gossip and telemetry are not modelled. *)

From Stdlib Require Import ZArith Lia Strings.String Strings.Byte.
From stdpp Require Import sorting gmap fin_maps base list.
From S2P Require Import Prelude Externals Primitives Canonical Rlp RawTx Pow Consensus State StateRoot.
From S2P Require Import Transition Evm Difficulty BlockExec Mempool Admission Replay Network.
From S2P Require Import Sled AccountStore BlockStore Generation Publish CandidateStore NodeStore Snapshots Branch.
#[local] Open Scope Z_scope.

Definition Others {S : Sled} : Type := Moment -> NodeStorage -> NodeStorage.

(** What a publication captures under its first lock. *)
Record Capture := {
  cp_snapshot : ExecutionSnapshot;
  cp_replay_parent : BlockHeader;
  cp_replay_history : list BlockHeader;
  cp_ancestor : BlockHeader;
  cp_active_tip : BlockHeader;
  cp_profile : list byte;
  cp_genesis_hash : Hash256;
}.

(** What an import did with a block; the hashes are those of the transactions
    that leave the mempool. *)
Inductive Import :=
  | Ignored
  | Orphaned
  | Deferred (error : string)
  | Published (hashes : list Hash256)
  | Recovering
  | Imported (hashes : list Hash256).

Section import.
Context {S : Sled} {HX : HexCodec} {D : Digests} {U : U256Ops} {R : Revm} {SE : Secp} {RX : RandomX} {BP : BuildProfile}.
Context {JB : Json Block} {JH : Json BlockHeader} {JT : Json Transaction} {JR : Json StoredReceipt}.
Context {JE : Json (list SerializedEvmSnapshotEntry)}.
Context {IO : FileIo} {JM : Json GenerationManifest} {JC : Json ReplayCheckpoint}.
Context {JP : Json GenerationPublicationRecord} {JS : Json SuffixPublicationRecord} {CM : CompactManifest}.
Context {HO : Host}.

(** ** A suffix on the tip itself *)

Fixpoint direct_loop (rc : ReplayConfig) (genesis_hash : Hash256) (index : Z) (parent : BlockHeader)
    (native_accounts : Accounts) (evm_state : RevmState) (suffix : list Block)
    : StM string Generation (BlockHeader * Accounts * RevmState) :=
  match suffix with
  | [] => st_ret (parent, native_accounts, evm_state)
  | block :: suffix =>
      st_res (validate_block_transaction_auth (rp_require_signed_transactions rc) block) ;!
      st_res (res_map_err consensus_message
        (validate_block_with_genesis_and_activation parent block genesis_hash (rp_block_size_activation_height rc))) ;!
      do? expected_difficulty := st_read (fun g =>
        expected_difficulty_target_with_lookup parent (blk_header block) (rp_block_time_v2_activation_height rc)
          (fun hash => any_res (header_by_hash (gn_db g) hash))) in
      st_res (if bool_decide (hdr_difficulty_target (blk_header block) = expected_difficulty) then Ok tt
              else Err "direct recovery difficulty mismatch"%string) ;!
      let '(native_accounts, evm_state, r) :=
        validate_replay_state_root native_accounts evm_state block (hdr_timestamp_seconds parent) in
      st_res r ;!
      any (on_db (insert_block block)) ;!
      (if ((index + 1) mod REPLAY_CHECKPOINT_INTERVAL =? 0) || bool_decide (suffix = [])
       then any (on_db flush_batch) else st_ret tt) ;!
      direct_loop rc genesis_hash (index + 1) (blk_header block) native_accounts evm_state suffix
  end.

(** The closure between [begin_batch] and [end_batch]. *)
Definition direct_body (rc : ReplayConfig) (genesis_hash : Hash256) (best : BlockHeader)
    (native_accounts : Accounts) (evm_state : RevmState) (suffix : list Block) : StM string Generation unit :=
  do? (parent, native_accounts, evm_state) :=
    direct_loop rc genesis_hash 0 best native_accounts evm_state suffix in
  any (on_db (put_accounts native_accounts)) ;!
  any (on_db (persist_revm_state evm_state)) ;!
  any (on_db (set_reward_indexed_to (hdr_number parent))) ;!
  any refresh_generation_manifest.

(** The part that runs on the full storage: whether the suffix was
    committed. *)
Definition commit_suffix (rc : ReplayConfig) (genesis_hash : Hash256) (branch : CandidateBranch)
    : StM string Generation bool :=
  do? best := any (st_read (fun g => best_header (gn_db g))) in
  if negb (hdr_number best =? cb_common_height branch)
     || negb (bool_decide (header_hash best = cb_common_hash branch))
  then st_ret false
  else
    do? native_accounts := any (st_read (fun g => account_snapshot (gn_db g))) in
    do? evm_state := any (st_read (fun g => revm_state_from_sled (gn_db g))) in
    any (on_db begin_batch) ;!
    with_batch (any (on_db end_batch))
      (direct_body rc genesis_hash best native_accounts evm_state (cb_suffix branch)) ;!
    st_ret true.

Definition commit_direct_candidate_extension (config : NodeConfig) (branch : CandidateBranch) : Node bool :=
  if bool_decide (cb_suffix branch = []) then st_ret false
  else
    do? genesis_hash := st_read (fun n => Ok (configured_genesis_hash n)) in
    do? committed := on_full (commit_suffix (nc_replay config) genesis_hash branch) (Ok false) in
    if negb committed then st_ret false
    else
      prune_if_enabled config ;!
      node_remove_candidate_blocks (map (fun b => header_hash (blk_header b)) (cb_suffix branch)) ;!
      st_ret true.

(** ** Publishing a fork *)

Fixpoint check_suffix_bytes (bytes : Z) (suffix : list Block) : res string unit :=
  match suffix with
  | [] => Ok tt
  | block :: suffix =>
      let bytes := sat_add U64_MAX bytes (Z.of_nat (length (block_canonical_bytes block))) in
      if MAX_CANDIDATE_REPLAY_BYTES <? bytes
      then Err "candidate rejected: suffix exceeds live replay memory budget"%string
      else check_suffix_bytes bytes suffix
  end.

Context {SI : SnapshotIo} {JX : Json ExecutionSnapshot} {JG : Json GenerationSnapshot}.

(** The first lock.  [dir] holds the files of the active generation. *)
Definition capture_replay (dir : option SnapshotDir) (branch : CandidateBranch) (n : NodeStorage) : res string Capture :=
  match n with
  | Partial _ => Err "candidate replay requires full storage"%string
  | Full g =>
      let s := gn_db g in
      let? ancestor := any_res (header_by_number s (cb_common_height branch)) in
      if negb (bool_decide (header_hash ancestor = cb_common_hash branch))
      then Err "candidate common ancestor does not match canonical storage"%string
      else
        suffix_contiguous ancestor (cb_suffix branch) ;?
        let profile := consensus_profile_for_genesis (configured_genesis_hash n) in
        ensure_candidate_replay_memory_headroom AtCapture ;?
        let? found := any_res (latest_execution_snapshot_at_or_before dir (cb_common_height branch) profile) in
        let? snapshot := ok_or found "candidate replay deferred: no verified execution snapshot"%string in
        let? snapshot_parent := any_res (header_by_number s (es_height snapshot)) in
        if negb (bool_decide (header_hash snapshot_parent = es_block_hash snapshot))
           || negb (bool_decide (hdr_state_root snapshot_parent = es_state_root snapshot))
        then Err "candidate replay deferred: execution snapshot is not canonical"%string
        else
          let? replay_history := difficulty_history_headers_with_lookup snapshot_parent
            (fun hash => any_res (header_by_hash s hash)) in
          if MAX_CANDIDATE_REPLAY_SUFFIX <?
             sat_add U64_MAX (sat_sub (cb_common_height branch) (es_height snapshot)) (Z.of_nat (length (cb_suffix branch)))
          then Err "candidate rejected: compact snapshot replay exceeds live replay limit"%string
          else
            check_suffix_bytes 0 (cb_suffix branch) ;?
            let? best := any_res (best_header s) in
            Ok {| cp_snapshot := snapshot; cp_replay_parent := snapshot_parent;
                  cp_replay_history := replay_history; cp_ancestor := ancestor; cp_active_tip := best;
                  cp_profile := profile; cp_genesis_hash := configured_genesis_hash n |}
  end.

(** Taking the lock again. *)
Definition relock (others : Others) (m : Moment) : Node unit := fun n => (Ok tt, others m n).

Definition full_block_by_number (number : Z) (n : NodeStorage) : res string Block :=
  of_full (fun s => any_res (block_by_number s number))
    (fun _ => Err "candidate replay requires full storage"%string) n.

Definition overlay_step (o : ExecutionReplayOverlay) (rc : ReplayConfig) (genesis_hash : Hash256) (block : Block)
    : res string ExecutionReplayOverlay :=
  let '(o, r) := overlay_apply o rc genesis_hash block in
  r ;? Ok o.

(** The stored blocks between the snapshot and the ancestor, one lock each. *)
Fixpoint replay_stored (others : Others) (rc : ReplayConfig) (genesis_hash : Hash256) (numbers : list Z)
    (o : ExecutionReplayOverlay) : Node ExecutionReplayOverlay :=
  match numbers with
  | [] => st_ret o
  | number :: numbers =>
      relock others (AtRead number) ;!
      do? block := st_read (full_block_by_number number) in
      do? o := st_res (overlay_step o rc genesis_hash block) in
      (if number mod REPLAY_CHECKPOINT_INTERVAL =? 0
       then st_res (ensure_candidate_replay_memory_headroom (AtRead number)) else st_ret tt) ;!
      replay_stored others rc genesis_hash numbers o
  end.

Fixpoint replay_suffix (rc : ReplayConfig) (genesis_hash : Hash256) (index : Z) (suffix : list Block)
    (o : ExecutionReplayOverlay) : res string ExecutionReplayOverlay :=
  match suffix with
  | [] => Ok o
  | block :: suffix =>
      let? o := overlay_step o rc genesis_hash block in
      (if (index + 1) mod REPLAY_CHECKPOINT_INTERVAL =? 0
       then ensure_candidate_replay_memory_headroom (AtSuffix index) else Ok tt) ;?
      replay_suffix rc genesis_hash (index + 1) suffix o
  end.

(** The manifest the publication installs. *)
Definition target_manifest (active : GenerationManifest) (tip : BlockHeader) (profile : list byte)
    : GenerationManifest := {|
  gm_generation_id := gm_generation_id active;
  gm_status := Active;
  gm_canonical_height := hdr_number tip;
  gm_canonical_hash := header_hash tip;
  gm_state_root := hdr_state_root tip;
  gm_profile_fingerprint := profile;
  gm_finalized_height := finalized_height (hdr_number tip);
  gm_replay_checkpoint := Some (hdr_number tip);
|}.

(** The last lock: the tip must be the captured one and lose the comparison. *)
Definition publish_replayed (branch : CandidateBranch) (cp : Capture) (expected_tip : BlockHeader)
    (native : Accounts) (evm : EvmStateSnapshot) : StM string Generation unit :=
  do? current := any (st_read (fun g => best_header (gn_db g))) in
  if negb (bool_decide (current = cp_active_tip cp))
  then st_res (Err "candidate publication deferred: active tip changed during replay"%string)
  else
    do? ancestor_work := any (st_read (fun g => canonical_work_through_storage (gn_db g) (cb_common_height branch))) in
    let candidate_work := fold_left (fun work b =>
      sat_add U128_MAX work (work_for_target (hdr_difficulty_target (blk_header b)))) (cb_suffix branch) ancestor_work in
    do? current_work := any (st_read (fun g => canonical_work_through_storage (gn_db g) (hdr_number current))) in
    if (candidate_work <? current_work)
       || ((candidate_work =? current_work) && negb (bytes_ltb (header_hash expected_tip) (header_hash current)))
    then st_res (Err "candidate replay superseded by current canonical work"%string)
    else
      do? found := any (st_read load_generation_manifest) in
      do? active := st_res (ok_or found "candidate publication requires active manifest"%string) in
      do? supply_totals := on_db (suffix_supply_totals (cp_ancestor cp) current (cb_suffix branch)) in
      any (publish_canonical_suffix (cp_ancestor cp) (cb_suffix branch) native evm supply_totals
             (target_manifest active expected_tip (cp_profile cp))).

Definition stage_and_publish_candidate (others : Others) (dir : option SnapshotDir) (config : NodeConfig)
    (branch : CandidateBranch) : Node unit :=
  do? committed := commit_direct_candidate_extension config branch in
  if (committed : bool) then st_ret tt
  else
    relock others AtCapture ;!
    do? cp := st_read (capture_replay dir branch) in
    do? o := st_res (overlay_from_snapshot (cp_snapshot cp) (cp_replay_parent cp) (cp_replay_history cp)) in
    do? o := replay_stored others (nc_replay config) (cp_genesis_hash cp)
               (range_incl (sat_add U64_MAX (hdr_number (ov_parent o)) 1) (cb_common_height branch)) o in
    do? o := st_res (replay_suffix (nc_replay config) (cp_genesis_hash cp) 0 (cb_suffix branch) o) in
    do? final_evm_accounts := st_res (evm_accounts_from_revm_state (ov_evm_state o)) in
    do? expected_tip := st_res (ok_or (last (cb_suffix branch)) "candidate branch is empty"%string) in
    if negb (bool_decide (ov_parent o = blk_header expected_tip))
    then st_res (Err "candidate replay did not reach the supplied tip"%string)
    else
      relock others AtPublish ;!
      on_full (publish_replayed branch cp (blk_header expected_tip) (ov_native_accounts o) final_evm_accounts)
        (Err "candidate replay requires full storage"%string) ;!
      node_remove_candidate_blocks (map (fun b => header_hash (blk_header b)) (cb_suffix branch)).

(** ** Importing blocks and headers *)

(** The transactions of the blocks that became canonical. *)
Definition included_hashes (blocks : list Block) : list Hash256 :=
  concat (map (fun b => map tx_hash (blk_transactions b)) blocks).

Definition import_network_block (others : Others) (dir : option SnapshotDir) (isolated : res string Generation)
    (cleanup : res string unit) (config : NodeConfig) (now : option Z) (block : Block) : Node Import :=
  if negb (nc_full config) then st_ret Ignored
  else
    st_res (validate_live_timestamp_admission now (blk_header block)) ;!
    st_res (validate_block_transaction_auth (rp_require_signed_transactions (nc_replay config)) block) ;!
    do? known := st_read (fun n => attempt (node_header_by_hash n (header_hash (blk_header block)))) in
    match known with
    | Some _ => st_ret Ignored
    | None =>
        do? parent := st_read (fun n => any_res (node_best_header n)) in
        if sat_add U64_MAX (hdr_number parent) 1 <? hdr_number (blk_header block)
        then node_store_orphan_block block ;! st_ret Orphaned
        else
          do? candidate :=
            if negb (extends parent (blk_header block))
            then queue_competing_block_pending (rp_require_signed_transactions (nc_replay config)) block
            else st_ret None in
          match candidate with
          | Some branch => fun n =>
              match stage_and_publish_candidate others dir config branch n with
              | (Ok _, n) => (Ok (Published (included_hashes (cb_suffix branch))), n)
              | (Err e, n) => (Ok (Deferred e), n)
              | (Panic, n) => (Panic, n)
              end
          | None =>
              relock others AtInsert ;!
              do? parent := st_read (fun n => any_res (node_best_header n)) in
              if negb (extends parent (blk_header block))
              then drain_orphan_blocks isolated cleanup config ;! st_ret Recovering
              else
                validate_block_live (nc_replay config) parent block ;!
                ensure_storage_cap config ;!
                any (node_insert_block append_block block) ;!
                drain_orphan_blocks isolated cleanup config ;!
                st_ret (Imported (included_hashes [block]))
          end
    end.

(** The mempool after an import. *)
Definition mempool_after (p : Mempool) (i : Import) : Mempool :=
  match i with
  | Published hashes | Imported hashes => if bool_decide (hashes = []) then p else remove_included p hashes
  | _ => p
  end.

(** ** Recovery *)

Fixpoint import_direct_loop (rc : ReplayConfig) (blocks : list Block) : Node unit :=
  match blocks with
  | [] => st_ret tt
  | block :: blocks =>
      do? parent := st_read (fun n => any_res (node_best_header n)) in
      (if negb (extends parent (blk_header block))
       then st_res (Err "direct recovery batch lost contiguous parent linkage"%string) else st_ret tt) ;!
      validate_block_live rc parent block ;!
      any (node_insert_block append_block block) ;!
      import_direct_loop rc blocks
  end.

(** [write_periodic_snapshot] on the node's storage; [generations/] is the
    second part of the state. *)
Definition node_periodic_snapshot (config : NodeConfig) (active_id : res StorageError (option Z))
    : StM string (NodeStorage * GenerationsRoot) unit := fun '(n, d) =>
  match n with
  | Full g =>
      let '(r, d) := any (write_periodic_snapshot (nc_retain_snapshots config) (gn_db g) active_id
          (consensus_profile_for_genesis (configured_genesis_hash n))) d in
      (r, (n, d))
  | Partial _ =>
      (if nc_retain_snapshots config then let? _ := any_res (node_best_header n) in Ok tt else Ok tt, (n, d))
  end.

Definition on_storage {A} (m : Node A) : StM string (NodeStorage * GenerationsRoot) A := fun '(n, d) =>
  let '(r, n) := m n in (r, (n, d)).

Definition import_direct_recovery_batch (active_id : res StorageError (option Z)) (config : NodeConfig)
    (blocks : list Block) : StM string (NodeStorage * GenerationsRoot) unit :=
  on_storage (ensure_storage_cap config ;! import_direct_loop (nc_replay config) blocks) ;!
  node_periodic_snapshot config active_id ;!
  on_storage (prune_if_enabled config).

(** The parent of a recovered body and its cumulative work: the stored block
    below [expected_height] when it has the hash, else the chain and the
    candidates, else the spool. *)
Definition recovery_parent (expected_height : Z) (parent_hash : Hash256) : Node (BlockHeader * Z) :=
  do? canonical := st_read (fun n =>
    if expected_height =? 0 then Ok None else attempt (node_block_by_number n (expected_height - 1))) in
  let canonical_parent := match canonical with
    | Some p => if bool_decide (header_hash (blk_header p) = parent_hash) then Some p else None
    | None => None
    end in
  do? parent := match canonical_parent with
    | Some p => st_ret (Some p)
    | None => st_read (fun n => attempt (node_block_by_hash n parent_hash))
    end in
  match parent with
  | Some p =>
      do? work := st_read (fun n =>
        let? candidate := attempt (node_candidate_work n (header_hash (blk_header p))) in
        match candidate with
        | Some work => Ok work
        | None =>
            let? work := attempt (canonical_work_through_node_storage n (hdr_number (blk_header p))) in
            Ok (default 0 work)
        end) in
      st_ret (blk_header p, work)
  | None => fun n =>
      match node_recovery_spool_block_by_hash parent_hash n with
      | (Ok bw, n) => (Ok (blk_header bw.1, bw.2), n)
      | (Err _, n) => (Err "recovery parent was not found in canonical storage or the durable spool"%string, n)
      | (Panic, n) => (Panic, n)
      end
  end.

Definition import_recovery_block (config : NodeConfig) (now : option Z) (tip_hash : Hash256) (expected_height : Z)
    (expected_parent_hash : Hash256) (block : Block) : Node unit :=
  let h := blk_header block in
  st_res (validate_live_timestamp_admission now h) ;!
  st_res (validate_block_transaction_auth (rp_require_signed_transactions (nc_replay config)) block) ;!
  if negb (hdr_number h =? expected_height)
  then st_res (Err "recovery body height does not match durable cursor"%string)
  else if negb (bool_decide (hdr_parent_hash h = expected_parent_hash))
  then st_res (Err "recovery body parent does not match durable cursor"%string)
  else
    do? (parent, parent_work) := recovery_parent expected_height (hdr_parent_hash h) in
    st_read (fun n => validate_header_for_storage n parent h) ;!
    validate_difficulty (nc_replay config) parent h ;!
    if (parent_work =? 0) && negb (hdr_number parent =? 0)
    then st_res (Err "recovery parent has no cumulative-work record"%string)
    else
      node_store_recovery_spool_block tip_hash block
        (sat_add U128_MAX parent_work (work_for_target (hdr_difficulty_target h))).

(** ** Headers *)

Definition import_network_header (config : NodeConfig) (header : BlockHeader) : Node unit :=
  if nc_full config then st_ret tt
  else
    do? parent := st_read (fun n => any_res (node_best_header n)) in
    if hdr_number header <=? hdr_number parent then st_ret tt
    else
      st_read (fun n => validate_header_for_storage n parent header) ;!
      (if negb (bool_decide (hdr_parent_hash header = header_hash parent))
       then st_res (Err "network header parent hash does not match current best header"%string) else st_ret tt) ;!
      validate_difficulty (nc_replay config) parent header ;!
      ensure_storage_cap config ;!
      any (node_insert_header append_header header).

(** The body a full node asks for, when it asks for one. *)
Definition handle_network_header (config : NodeConfig) (header : BlockHeader) : Node (option Hash256) :=
  if nc_full config then
    do? needs_body := st_read (fun n =>
      match node_header_by_number n (hdr_number header) with
      | Ok existing => Ok (negb (bool_decide (header_hash existing = header_hash header)))
      | Err NotFound => Ok true
      | Err e => Err (storage_message e)
      | Panic => Panic
      end) in
    st_ret (if (needs_body : bool) then Some (header_hash header) else None)
  else import_network_header config header ;! st_ret None.
End import.
