(* ===== verification/Reorg.v ===== *)
(** Properties of the fork handling: what an assembled candidate branch is, and
    that the walk that assembles it ends. *)

From Stdlib Require Import ZArith Lia Strings.String Strings.Byte.
From stdpp Require Import sorting gmap fin_maps base list.
From S2P Require Import Prelude Externals Primitives Canonical Rlp RawTx Pow Consensus State StateRoot.
From S2P Require Import Transition Evm Difficulty BlockExec Mempool Admission Replay Network.
From S2P Require Import Sled AccountStore BlockStore ChainStore Generation Publish CandidateStore NodeStore NodeState.
From S2P Require Import Supply Snapshots Branch Import.
#[local] Open Scope Z_scope.

(** ** What a run leaves alone, whatever it returns *)

Section leaves.
Context {S : Sled} {HX : HexCodec} {D : Digests} {JB : Json Block} {HR : SledReliable}.

Definition leaves {A} (P : list byte -> bool) (m : St A) : Prop :=
  forall s r s' k, m s = (r, s') -> P k = false -> contents s' !! k = contents s !! k.

Lemma leaves_read {A} P (f : SledStorage -> res StorageError A) : leaves P (st_read f).
Proof. by intros s r s' k [= <- <-] _. Qed.
Lemma leaves_res {A} P (r : res StorageError A) : leaves P (st_res r).
Proof. by intros s r' s' k [= <- <-] _. Qed.
Lemma leaves_ret {A} P (a : A) : leaves P (st_ret a).
Proof. by intros s r s' k [= <- <-] _. Qed.
Lemma leaves_insert P k v : P k = true -> leaves P (db_insert k v).
Proof.
  intros Hk s r s' k' H Hk'. destruct (runs_insert k v s) as (s2 & H2 & Hc). rewrite H2 in H. injection H as <- <-.
  rewrite Hc, lookup_insert_ne; [done|congruence].
Qed.
Lemma leaves_bind {A C} P (m : St A) (f : A -> St C) :
  leaves P m -> (forall a, leaves P (f a)) -> leaves P (st_bind m f).
Proof.
  intros Hm Hf s r s' k H Hk. unfold st_bind in H. destruct (m s) as [[a|e|] s1] eqn:E.
  - rewrite (Hf a _ _ _ _ H Hk). by apply (Hm _ _ _ _ E).
  - injection H as <- <-. by apply (Hm _ _ _ _ E).
  - injection H as <- <-. by apply (Hm _ _ _ _ E).
Qed.

(** Runs that do not panic. *)
Definition calm {E St A} (m : StM E St A) : Prop := forall s, (m s).1 <> Panic.

Lemma calm_read {E St A} (f : St -> res E A) : (forall s, f s <> Panic) -> calm (st_read f).
Proof. intros H s. apply H. Qed.
Lemma calm_res {E St A} (r : res E A) : r <> Panic -> calm (St := St) (st_res r).
Proof. by intros H s. Qed.
Lemma calm_ret {E St A} (a : A) : calm (E := E) (St := St) (st_ret a).
Proof. by intros s. Qed.
Lemma calm_bind {E St A C} (m : StM E St A) (f : A -> StM E St C) : calm m -> (forall a, calm (f a)) -> calm (st_bind m f).
Proof.
  intros Hm Hf s. unfold st_bind. specialize (Hm s). destruct (m s) as [[a|e|] s1]; [apply Hf|done|done].
Qed.
Lemma calm_insert k v : calm (db_insert k v).
Proof. intros s. destruct (runs_insert k v s) as (s2 & -> & _). done. Qed.

Lemma get_calm s k : db_get s k <> Panic.
Proof. by rewrite db_get_reliable. Qed.

Lemma scan_calm {A} s p (f : list byte * list byte -> res StorageError (option A)) :
  (forall kv, f kv <> Panic) -> find_row s p f <> Panic.
Proof.
  intros Hf. unfold find_row. rewrite reliable_scan. induction (prefix_entries _ _) as [|kv rows IH]; [done|].
  cbn. apply res_bind_total; [apply Hf|]. by intros [a|] _.
Qed.

Definition recovery_keys : list byte -> bool := has_prefix (B "recovery:").

Lemma leaves_index key hash prefix :
  recovery_keys key = true -> leaves recovery_keys (find_and_index_recovery_block key hash prefix).
Proof.
  intros Hk. unfold find_and_index_recovery_block. apply leaves_bind; [apply leaves_read|]. intros [base|]; [|apply leaves_res].
  apply leaves_bind; [by apply leaves_insert|]. intros _. apply leaves_ret.
Qed.

(** A lookup in the spool changes rows of the spool only. *)
Lemma leaves_recovery hash : leaves recovery_keys (recovery_block_by_hash hash).
Proof.
  assert (recovery_keys (recovery_hash_key hash) = true) as Hk by (unfold recovery_keys, recovery_hash_key; apply (prefix_app (B "recovery:"))).
  unfold recovery_block_by_hash. apply leaves_bind; [apply leaves_read|]. intros indexed. apply leaves_bind.
  - destruct indexed as [indexed|]; [|by apply leaves_index]. case_match; [apply leaves_ret|].
    case_match; [by apply leaves_index|apply leaves_res].
  - intros base. apply leaves_bind; [apply leaves_read|]. intros b. apply leaves_bind; [apply leaves_res|]. intros b'.
    apply leaves_bind; [apply leaves_res|]. intros b''. apply leaves_bind; [apply leaves_read|]. intros w. apply leaves_ret.
Qed.

Lemma recovery_other k : recovery_keys k = true -> chain_key k = false /\ account_keys k = false.
Proof.
  intros Hk. split; [|eapply other_prefix; [| |exact Hk]; reflexivity].
  destruct (chain_key k) eqn:E; [|done]. apply existsb_exists in E as (p & Hp & Hk'). cbn in Hp.
  enough (has_prefix p k = false) by congruence.
  destruct Hp as [<-|[<-|[<-|[<-|[]]]]]; (eapply other_prefix; [| |exact Hk]; reflexivity).
Qed.
End leaves.

(** ** The walk to the common ancestor *)

Section branch_walk.
Context {S : Sled} {HX : HexCodec} {D : Digests} {U : U256Ops} {R : Revm} {SE : Secp} {RX : RandomX} {BP : BuildProfile}.
Context {JB : Json Block} {JH : Json BlockHeader} {JT : Json Transaction} {JR : Json StoredReceipt}.

(** More rounds than the limit change nothing. *)
Lemma branch_loop_fuel fuel extra visited bytes reversed current n :
  Z.of_nat (length reversed) <= MAX_CANDIDATE_REPLAY_SUFFIX < Z.of_nat (fuel + length reversed) ->
  branch_loop (fuel + extra) visited bytes reversed current n = branch_loop fuel visited bytes reversed current n.
Proof.
  revert visited bytes reversed current n. induction fuel as [|fuel IH]; intros visited bytes reversed current n Hf; [lia|].
  cbn [plus branch_loop]. destruct (bool_decide _); [done|]. unfold st_bind. destruct (st_read _ n) as [[c|e|] n1]; [|done..].
  destruct c as [c|]; [done|]. destruct (Z.leb_spec MAX_CANDIDATE_REPLAY_SUFFIX (Z.of_nat (length reversed))); [done|].
  cbn [orb]. destruct (_ <? _); [done|]. destruct (step_to_parent current n1) as [[p|e|] n2]; [|done..].
  apply IH. rewrite length_app. cbn. lia.
Qed.

Lemma replacement_loop_fuel fuel extra canonical visited reversed current n :
  Z.of_nat (length reversed) <= MAX_CANDIDATE_REPLAY_SUFFIX < Z.of_nat (fuel + length reversed) ->
  replacement_loop (fuel + extra) canonical visited reversed current n =
  replacement_loop fuel canonical visited reversed current n.
Proof.
  revert visited reversed current n. induction fuel as [|fuel IH]; intros visited reversed current n Hf; [lia|].
  cbn [plus replacement_loop]. destruct (bool_decide _); [done|]. destruct (canonical_by_hash _ _); [done|].
  destruct (Z.ltb_spec MAX_CANDIDATE_REPLAY_SUFFIX (Z.of_nat (length (reversed ++ [current])))); [done|].
  unfold st_bind. destruct (step_to_parent current n) as [[p|e|] n2]; [|done..].
  apply IH. rewrite length_app in *. cbn in *. lia.
Qed.

(** ** What the walk assembles *)

Context {HR : SledReliable}.

(** Each block of [reversed] is the parent of the one before it, and [current]
    the parent of the last. *)
Fixpoint upward (current : Block) (newer_first : list Block) : Prop :=
  match newer_first with
  | [] => True
  | child :: rest =>
      hdr_number (blk_header child) = sat_add U64_MAX (hdr_number (blk_header current)) 1 /\
      hdr_parent_hash (blk_header child) = header_hash (blk_header current) /\ upward child rest
  end.

Lemma upward_contiguous current l : upward current l -> suffix_contiguous (blk_header current) l = Ok tt.
Proof.
  revert current. induction l as [|child l IH]; intros current H; [done|]. destruct H as (Hn & Hp & H).
  cbn [suffix_contiguous]. rewrite Hn, Z.eqb_refl, Hp, bool_decide_true by done. cbn. by apply IH.
Qed.

Lemma upward_header a b l :
  header_hash (blk_header a) = header_hash (blk_header b) -> hdr_number (blk_header a) = hdr_number (blk_header b) ->
  upward a l -> upward b l.
Proof. intros Eh En. destruct l as [|c l]; [done|]. cbn. by rewrite Eh, En. Qed.
End branch_walk.
Section branch_shape.
Context {S : Sled} {HX : HexCodec} {D : Digests} {U : U256Ops} {R : Revm} {SE : Secp} {RX : RandomX} {BP : BuildProfile}.
Context {JB : Json Block} {JH : Json BlockHeader} {JT : Json Transaction} {JR : Json StoredReceipt}.
Context {HR : SledReliable}.

(** The block codec: numbers are 64-bit, and decoding does not panic. *)
Record block_codec : Prop := {
  bc_number : forall v b, from_slice v = Ok b -> in_u64 (block_number b);
  bc_total : forall v, from_slice v <> (Panic : res string Block);
}.
Context (HC : block_codec) (c : list Block).

Lemma json_block v b : json_slice v = Ok b -> in_u64 (block_number b).
Proof using HC. intros H%map_err_ok. by eapply bc_number. Qed.

Lemma json_total v : json_slice v <> (Panic : res StorageError Block).
Proof using HC. unfold json_slice. pose proof (bc_total HC v). by destruct (from_slice v). Qed.

(** A lookup in the spool does not panic. *)
Lemma recovery_calm hash : calm (recovery_block_by_hash hash).
Proof using HC HR.
  assert (forall key p, calm (find_and_index_recovery_block key hash p)) as Hfind.
  { intros key p. apply calm_bind.
    - apply calm_read. intros s. apply scan_calm. intros kv. case_match; [done|]. apply res_bind_total; [apply json_total|].
      intros b _. by repeat case_match.
    - intros [base|]; [|by apply calm_res]. apply calm_bind; [apply calm_insert|]. intros _. apply calm_ret. }
  unfold recovery_block_by_hash. apply calm_bind; [apply calm_read; intros s; apply get_calm|]. intros indexed.
  apply calm_bind.
  { destruct indexed as [i|]; [|apply Hfind]. case_match; [apply calm_ret|]. case_match; [apply Hfind|by apply calm_res]. }
  intros base. apply calm_bind; [apply calm_read; intros s; apply get_calm|]. intros b.
  apply calm_bind; [apply calm_res, ok_or_total|]. intros v. apply calm_bind; [apply calm_res, json_total|]. intros b'.
  apply calm_bind; [|intros w; apply calm_ret]. apply calm_read. intros s. unfold recovery_work.
  apply res_bind_total; [apply get_calm|]. intros o _. apply res_bind_total; [apply ok_or_total|]. intros v' _. by case_match.
Qed.

Lemma any_res_calm {A} (r : res StorageError A) : r <> Panic -> any_res r <> Panic.
Proof. by destruct r. Qed.

Lemma recovery_typed hash s bw s' : recovery_block_by_hash hash s = (Ok bw, s') -> in_u64 (block_number bw.1).
Proof using HC.
  unfold recovery_block_by_hash. intros (i & s1 & _ & H)%st_bind_ok. apply st_bind_ok in H as (base & s2 & _ & H).
  apply st_bind_ok in H as (o & s3 & _ & H). apply st_bind_ok in H as (v & s4 & _ & H).
  apply st_bind_ok in H as (b & s5 & [Hb _]%st_res_ok & H). apply st_bind_ok in H as (w & s6 & _ & H).
  apply st_ret_ok in H as [-> _]. cbn. by apply json_block in Hb.
Qed.

(** What the walk reads of a node that holds chain [c]. *)
Definition holds (n : NodeStorage) : Prop := exists g, n = Full g /\ chain_rep (contents (gn_db g)) c.

Lemma stored_body_typed s hash b :
  chain_rep (contents s) c -> block_by_hash s hash = Ok b -> in_u64 (block_number b).
Proof using HC HR.
  intros Hc. unfold block_by_hash. rewrite (canonical_blocks_rep _ _ Hc). cbn [res_bind].
  destruct (List.find _ c) as [b'|] eqn:E.
  - intros [= <-]. apply List.find_some in E as [Hin _]. apply (block_number_u64 c); [apply Hc|apply Hc|by apply list_elem_of_In].
  - unfold candidate_block_by_hash. intros (o & _ & H)%res_bind_ok. apply res_bind_ok in H as (v & _ & H). by apply json_block in H.
Qed.

Lemma parent_body_ok hash n r n' :
  holds n -> parent_body hash n = (r, n') ->
  holds n' /\ r <> Panic /\ (forall b, r = Ok b -> in_u64 (block_number b)).
Proof using HC HR.
  intros (g & -> & Hc). unfold parent_body, node_recovery_spool_block_by_hash, on_full, any, on_db.
  destruct (recovery_block_by_hash hash (gn_db g)) as [q db] eqn:E.
  assert (chain_rep (contents db) c) as Hc'.
  { eapply chain_rep_other; [exact Hc|]. intros k Hk. eapply (leaves_recovery hash); [exact E|].
    destruct (recovery_keys k) eqn:Er; [|done]. apply recovery_other in Er as [? _]. congruence. }
  pose proof (recovery_calm hash (gn_db g)) as Hq. rewrite E in Hq. cbn in Hq.
  destruct q as [bw|e|]; [| |done]; intros [= <- <-].
  - split; [by eexists|]. split; [done|]. intros b [= <-]. apply (recovery_typed hash (gn_db g) bw db E).
  - split; [by eexists|]. cbn [node_block_by_hash of_full gn_db].
    assert (block_by_hash db hash <> Panic) as Hb.
    { unfold block_by_hash. rewrite (canonical_blocks_rep _ _ Hc'). cbn [res_bind]. case_match; [done|].
      unfold candidate_block_by_hash. apply res_bind_total; [apply get_calm|]. intros o _.
      apply res_bind_total; [apply ok_or_total|]. intros v _. apply json_total. }
    pose proof (stored_body_typed db hash) as Hty. destruct (block_by_hash db hash) as [b|e'|]; [|done..].
    split; [done|]. intros b' [= <-]. by apply Hty.
Qed.

(** A block the walk keeps is not on the chain; the block it stops at is. *)
Lemma canonical_at_ok n current o :
  holds n -> in_u64 (block_number current) -> canonical_at n current = Ok o ->
  match o with
  | Some a => c !! Z.to_nat (block_number current) = Some a /\ header_hash (blk_header a) = header_hash (blk_header current) /\
      block_number a = block_number current
  | None => forall a, c !! Z.to_nat (block_number current) = Some a -> header_hash (blk_header a) <> header_hash (blk_header current)
  end.
Proof using HR.
  intros (g & -> & Hc) Hu. unfold canonical_at. cbn [node_block_by_number of_full]. fold (block_number current).
  destruct (header_by_number_rep (gn_db g) c (block_number current) Hc Hu) as [_ Hb]. rewrite Hb.
  destruct (c !! Z.to_nat (block_number current)) as [a|] eqn:Ea; cbn.
  - intros [= <-]. case_bool_decide as Eh; [|by intros a' [= <-]]. split; [done|]. split; [done|].
    rewrite (cr_numbers _ _ Hc _ _ Ea), Z2Nat.id by apply Hu. done.
  - by intros [= <-].
Qed.

(** A saturating sum below the bound is the sum. *)
Lemma sat_add_small M L a b : sat_add M a b <= L -> L < M -> sat_add M a b = a + b.
Proof. unfold sat_add. lia. Qed.

Definition canonical_size (l : list Block) : Z :=
  fold_right (fun b n => Z.of_nat (length (block_canonical_bytes b)) + n) 0 l.

Lemma canonical_size_nil : canonical_size [] = 0.
Proof. done. Qed.
Lemma canonical_size_cons b l : canonical_size (b :: l) = Z.of_nat (length (block_canonical_bytes b)) + canonical_size l.
Proof. done. Qed.

Lemma canonical_size_app l1 l2 : canonical_size (l1 ++ l2) = canonical_size l1 + canonical_size l2.
Proof. induction l1 as [|b l1 IH]; [done|]. cbn [app]. rewrite !canonical_size_cons, IH. lia. Qed.

Definition off_chain (b : Block) : Prop :=
  forall a, c !! Z.to_nat (block_number b) = Some a -> header_hash (blk_header a) <> header_hash (blk_header b).

(** What is known of the blocks collected so far. *)
Record collected (tip current : Block) (bytes : Z) (reversed : list Block) : Prop := {
  co_number : in_u64 (block_number current);
  co_head : head (reversed ++ [current]) = Some tip;
  co_upward : upward current (rev reversed);
  co_off : Forall off_chain reversed;
  co_length : Z.of_nat (length reversed) <= MAX_CANDIDATE_REPLAY_SUFFIX;
  co_bytes : bytes = canonical_size reversed;
  co_size : bytes <= MAX_CANDIDATE_REPLAY_BYTES;
}.

(** An assembled branch. *)
Record assembled (tip : Block) (branch : CandidateBranch) (ancestor : Block) : Prop := {
  as_ancestor : c !! Z.to_nat (cb_common_height branch) = Some ancestor;
  as_height : cb_common_height branch = block_number ancestor;
  as_hash : cb_common_hash branch = header_hash (blk_header ancestor);
  as_linked : suffix_contiguous (blk_header ancestor) (cb_suffix branch) = Ok tt;
  as_tip : match last (cb_suffix branch) with
           | Some b => b = tip
           | None => header_hash (blk_header tip) = cb_common_hash branch
           end;
  as_off : Forall off_chain (cb_suffix branch);
  as_length : Z.of_nat (length (cb_suffix branch)) <= MAX_CANDIDATE_REPLAY_SUFFIX;
  as_size : canonical_size (cb_suffix branch) <= MAX_CANDIDATE_REPLAY_BYTES;
}.

Lemma canonical_size_rev l : canonical_size (rev l) = canonical_size l.
Proof. induction l as [|b l IH]; [done|]. cbn [rev]. rewrite canonical_size_app, IH, !canonical_size_cons, canonical_size_nil. lia. Qed.

Lemma collected_assembled tip current bytes reversed a :
  collected tip current bytes reversed -> c !! Z.to_nat (block_number current) = Some a ->
  header_hash (blk_header a) = header_hash (blk_header current) -> block_number a = block_number current ->
  assembled tip (branch_at a reversed) a.
Proof.
  intros [Hu Hh Hup Hoff Hl Hb Hs] Ha Eh En. split; unfold branch_at; cbn [cb_common_height cb_common_hash cb_suffix].
  - fold (block_number a). by rewrite En.
  - done.
  - done.
  - by eapply upward_contiguous, upward_header; [| |exact Hup].
  - destruct reversed as [|b reversed]; cbn in *; [congruence|]. rewrite last_snoc. congruence.
  - rewrite List.Forall_forall in *. intros b Hb'%in_rev. by apply Hoff.
  - by rewrite length_rev.
  - rewrite canonical_size_rev. lia.
Qed.

Lemma step_ok current n r n' :
  holds n -> in_u64 (block_number current) -> step_to_parent current n = (r, n') ->
  holds n' /\ r <> Panic /\ (forall p, r = Ok p -> in_u64 (block_number p) /\ upward p [current]).
Proof using HC HR.
  intros Hn Hu H. unfold step_to_parent, st_bind in H.
  destruct (parent_body (hdr_parent_hash (blk_header current)) n) as [q n1] eqn:E.
  destruct (parent_body_ok _ _ _ _ Hn E) as (H1 & Hq & Hp).
  destruct q as [p|e|]; [|by injection H as <- <-|done]. injection H as <- <-.
  split; [done|]. split; [by repeat case_match|]. intros p' H.
  destruct (Z.eqb_spec (sat_add U64_MAX (hdr_number (blk_header p)) 1) (hdr_number (blk_header current))) as [En|]; [|done].
  case_bool_decide as Eh; [|done]. cbn in H. injection H as <-. split; [by apply Hp|]. by cbn.
Qed.

Lemma collected_push tip current bytes reversed p :
  let bytes' := sat_add U64_MAX bytes (Z.of_nat (length (block_canonical_bytes current))) in
  collected tip current bytes reversed -> off_chain current ->
  Z.of_nat (length reversed) < MAX_CANDIDATE_REPLAY_SUFFIX -> bytes' <= MAX_CANDIDATE_REPLAY_BYTES ->
  in_u64 (block_number p) -> upward p [current] ->
  collected tip p bytes' (reversed ++ [current]).
Proof.
  intros bytes' [Hu Hh Hup Hoff Hl Hb Hs] Hca Hlt Hle Hpu (Hlink & Hpar & _). split.
  - done.
  - rewrite <- app_assoc. cbn. by destruct reversed.
  - rewrite rev_app_distr. exact (conj Hlink (conj Hpar Hup)).
  - apply List.Forall_app. split; [done|]. by repeat constructor.
  - rewrite length_app. change (length [current]) with 1%nat. lia.
  - rewrite canonical_size_app, canonical_size_cons, canonical_size_nil, <- Hb, Z.add_0_r.
    unfold bytes'. by apply sat_add_small in Hle as ->.
  - done.
Qed.

Lemma branch_loop_ok fuel tip visited bytes reversed current n r n' :
  collected tip current bytes reversed -> holds n -> MAX_CANDIDATE_REPLAY_SUFFIX < Z.of_nat (fuel + length reversed) ->
  branch_loop fuel visited bytes reversed current n = (r, n') ->
  holds n' /\ r <> Panic /\ (forall branch, r = Ok branch -> exists a, assembled tip branch a).
Proof using HC HR.
  revert visited bytes reversed current n. induction fuel as [|fuel IH]; intros visited bytes reversed current n Hco Hn Hf H.
  { destruct Hco as [_ _ _ _ Hl _ _]. change (0 + length reversed)%nat with (length reversed) in Hf. lia. }
  cbn [branch_loop] in H. case_bool_decide; [by injection H as <- <-|].
  unfold st_bind, st_read in H. pose proof (canonical_at_ok n current) as Hca.
  assert (canonical_at n current <> Panic) as Hnp.
  { destruct Hn as (g & -> & Hc). unfold canonical_at. cbn [node_block_by_number of_full]. fold (block_number current).
    rewrite (proj2 (header_by_number_rep (gn_db g) c _ Hc (co_number _ _ _ _ Hco))). by destruct (c !! _). }
  destruct (canonical_at n current) as [[a|]|e|]; [| |by injection H as <- <-|done].
  - injection H as <- <-. destruct (Hca (Some a) Hn (co_number _ _ _ _ Hco) eq_refl) as (Ha & Eh & En).
    split; [done|]. split; [done|]. intros branch [= <-]. exists a. by eapply collected_assembled.
  - specialize (Hca None Hn (co_number _ _ _ _ Hco) eq_refl). cbn in Hca.
    destruct (Z.leb_spec MAX_CANDIDATE_REPLAY_SUFFIX (Z.of_nat (length reversed))); [by injection H as <- <-|].
    cbn [orb] in H. destruct (Z.ltb_spec MAX_CANDIDATE_REPLAY_BYTES (sat_add U64_MAX bytes (Z.of_nat (length (block_canonical_bytes current)))));
      [by injection H as <- <-|].
    destruct (step_to_parent current n) as [q n1] eqn:Es. destruct (step_ok _ _ _ _ Hn (co_number _ _ _ _ Hco) Es) as (Hn1 & Hq & Hp).
    destruct q as [p|e|]; [|by injection H as <- <-|done]. destruct (Hp p eq_refl) as (Hpu & Hlink & Hpar & _).
    pose proof (collected_push _ _ _ _ p Hco Hca ltac:(assumption) ltac:(assumption) (Hpu) (conj Hlink (conj Hpar I))) as Hco2.
    eapply (IH _ _ _ _ _ Hco2 Hn1); [rewrite length_app; cbn; lia|exact H].
Qed.

(** C22: the assembly of a candidate branch ends, and what it assembles is a
    branch.  The walk towards the genesis never runs out of rounds, whatever
    cycle the stored bodies form, and never panics; it leaves the chain alone.
    A branch it returns starts at a block of the chain, each block of the
    suffix extends the one before it by height and by parent hash, the last one
    is the tip that was asked for, no block of the suffix is on the chain, and
    the suffix keeps both limits of a live replay. *)
Theorem candidate_branch_assembled g tip r n' :
  chain_rep (contents (gn_db g)) c -> in_u64 (block_number tip) ->
  candidate_branch_from_storage tip (Full g) = (r, n') ->
  (forall extra, branch_loop (branch_fuel + extra) ∅ 0 [] tip (Full g) = (r, n')) /\ r <> Panic /\
  (exists g', n' = Full g' /\ chain_rep (contents (gn_db g')) c) /\
  (forall branch, r = Ok branch -> exists ancestor, assembled tip branch ancestor).
Proof using HC HR.
  intros Hc Hu H. split.
  { intros extra. unfold candidate_branch_from_storage in H. rewrite branch_loop_fuel; [exact H|].
    cbn [length]. unfold branch_fuel, MAX_CANDIDATE_REPLAY_SUFFIX. lia. }
  destruct (branch_loop_ok branch_fuel tip ∅ 0 [] tip (Full g) r n') as (Hn & Hr & Hb).
  - by split.
  - by exists g.
  - reflexivity.
  - exact H.
  - done.
Qed.
End branch_shape.

(** ** Example: a block beside the tip *)

Section branch_witness.
Import SampleCodecs.

Lemma table_codec (l : list Block) :
  (forall b, b ∈ l -> in_u64 (block_number b)) -> @block_codec (table_json l).
Proof.
  intros H. split; cbn.
  - intros v b E. destruct (l !! length v) as [b'|] eqn:El; [|done]. injection E as <-.
    by eapply H, list_elem_of_lookup_2.
  - intros v. by destruct (l !! length v).
Qed.

Lemma sample_codec : @block_codec JB.
Proof.
  apply table_codec. intros b Hb. cbn in Hb. rewrite !elem_of_cons in Hb.
  destruct Hb as [->|[->|[->|[->|[]%not_elem_of_nil]]]]; split; vm_compute; discriminate.
Qed.

Lemma candidate_branch_assembled_witness :
  let run := @candidate_branch_from_storage mem_sled hex_codec toy_digests JB sample_replacement
    (Full (sample_generation None)) in
  run.1 = Ok {| cb_common_height := 0; cb_common_hash := sample_parent_hash; cb_suffix := [sample_replacement] |} /\
  exists ancestor, @assembled toy_digests sample_old sample_replacement
    {| cb_common_height := 0; cb_common_hash := sample_parent_hash; cb_suffix := [sample_replacement] |} ancestor.
Proof.
  intros run. assert (run.1 = Ok {| cb_common_height := 0; cb_common_hash := sample_parent_hash; cb_suffix := [sample_replacement] |})
    as Hr by (vm_compute; reflexivity). split; [exact Hr|].
  destruct (sample_generation_rep None) as [Hc _].
  destruct (@candidate_branch_assembled mem_sled hex_codec toy_digests JB JH mem_sled_reliable sample_codec sample_old
    (sample_generation None) sample_replacement run.1 run.2) as (_ & _ & _ & H).
  - exact Hc.
  - split; vm_compute; discriminate.
  - apply surjective_pairing.
  - apply H. exact Hr.
Defined.
End branch_witness.
