(* ===== verification/Direct.v ===== *)
(** The direct extension of the tip by a recovered suffix
    ([commit_direct_candidate_extension]): what it leaves in the store on every
    outcome. *)

From Stdlib Require Import ZArith Lia Strings.String Strings.Byte.
From stdpp Require Import sorting gmap fin_maps base list.
From S2P Require Import Prelude Externals Primitives Canonical Rlp RawTx Pow Consensus State StateRoot.
From S2P Require Import Transition Evm Difficulty BlockExec Mempool Admission Replay Network.
From S2P Require Import Sled AccountStore BlockStore ChainStore Generation Publish CandidateStore NodeStore NodeState.
From S2P Require Import Supply Snapshots Miner Branch Import Reorg.
#[local] Open Scope Z_scope.

(** ** Frames of the account writes on a store that does not fail *)

Section account_leaves.
Context {S : Sled} {HX : HexCodec} {D : Digests} {U : U256Ops} {HR : SledReliable}.

Lemma leaves_remove P k : P k = true -> leaves P (db_remove k).
Proof.
  intros Hk s r s' k' H Hk'. destruct (runs_remove k s) as (s2 & H2 & Hc). rewrite H2 in H. injection H as <- <-.
  rewrite Hc, lookup_delete_ne; [done|congruence].
Qed.
Lemma leaves_flush P : leaves P db_flush.
Proof. intros s r s' k H _. destruct (runs_flush s) as (s2 & H2 & Hc). rewrite H2 in H. injection H as <- <-. by rewrite Hc. Qed.
Lemma leaves_flush_db P : leaves P flush_db.
Proof. intros s r s' k H Hk. unfold flush_db in H. destruct (ss_defer_flush s); [by injection H as <- <-|by eapply leaves_flush]. Qed.

Lemma leaves_bind_read {A C} P (f : SledStorage -> res StorageError A) (g : A -> St C) :
  (forall s a, f s = Ok a -> leaves P (g a)) -> leaves P (st_bind (st_read f) g).
Proof.
  intros H s r s' k E Hk. unfold st_bind, st_read in E. destruct (f s) as [a|e|] eqn:Ef; [by eapply H|by injection E as <- <-..].
Qed.

Lemma leaves_for {A} P (l : list A) (f : A -> St unit) : (forall x, x ∈ l -> leaves P (f x)) -> leaves P (st_for l f).
Proof.
  induction l as [|x l IH]; intros H; [apply leaves_ret|]. simpl. apply leaves_bind; [apply H; by left|].
  intros _. apply IH. intros. apply H. by right.
Qed.

Lemma leaves_put_account a b n : leaves account_keys (put_stored_account a b n).
Proof.
  unfold put_stored_account, account_keys. apply leaves_bind; [|intros _; apply leaves_bind; [|intros _; apply leaves_flush_db]];
    apply leaves_insert; [apply (account_prefix (B "balance:"))|apply (account_prefix (B "nonce:"))].
Qed.

Lemma leaves_put_evm a b n c st : leaves account_keys (put_evm_account a b n c st).
Proof.
  unfold put_evm_account. apply leaves_bind; [apply leaves_put_account|intros _].
  apply leaves_bind; [|intros _].
  { unfold put_code, account_keys. case_match; [apply leaves_remove|apply leaves_insert]; apply (account_prefix (B "code:")). }
  apply leaves_bind_read. intros s keys Hkeys. apply leaves_bind; [|intros _; apply leaves_bind; [|intros _; apply leaves_flush]].
  - unfold remove_stale_slots. apply leaves_for. intros [k slot] Hin. cbn. case_match; [apply leaves_ret|].
    apply leaves_remove. by eapply existing_below.
  - unfold put_slots. apply leaves_for. intros [slot v] _. cbn. unfold account_keys.
    case_match; [apply leaves_remove|apply leaves_insert]; unfold storage_key; apply (account_prefix (B "storage:")).
Qed.

Lemma leaves_persist state : leaves account_keys (persist_revm_state state).
Proof.
  unfold persist_revm_state. apply leaves_for. intros [a acc] _. unfold persist_revm_account.
  apply leaves_bind; [apply leaves_res|]. intros [[[b n] c] st]. apply leaves_put_evm.
Qed.

Lemma leaves_put_accounts accounts : leaves account_keys (put_accounts accounts).
Proof. apply leaves_for. intros [a [b n]] _. apply leaves_put_account. Qed.

Lemma leaves_reward_index n : leaves state_keys (set_reward_indexed_to n).
Proof. unfold set_reward_indexed_to. apply leaves_bind; [by apply leaves_insert|]. intros _. apply leaves_flush_db. Qed.
End account_leaves.

(** ** The loop over the suffix *)

Section direct.
Context {S : Sled} {HX : HexCodec} {D : Digests} {U : U256Ops} {R : Revm} {SE : Secp} {RX : RandomX} {BP : BuildProfile}.
Context {JB : Json Block} {JH : Json BlockHeader} {JT : Json Transaction} {JR : Json StoredReceipt}.
Context {JE : Json (list SerializedEvmSnapshotEntry)}.
Context {IO : FileIo} {JM : Json GenerationManifest} {JC : Json ReplayCheckpoint}.
Context {JP : Json GenerationPublicationRecord} {JS : Json SuffixPublicationRecord} {CM : CompactManifest}.
Context {HR : SledReliable}.

(** The accounts and the EVM state after replaying [blocks] in order. *)
Fixpoint replayed_all (native : Accounts) (evm : RevmState) (pt : Z) (blocks : list Block)
    (native' : Accounts) (evm' : RevmState) : Prop :=
  match blocks with
  | [] => native' = native /\ evm' = evm
  | b :: blocks => exists native1 evm1, replayed native evm b pt native1 evm1 /\
      replayed_all native1 evm1 (hdr_timestamp_seconds (blk_header b)) blocks native' evm'
  end.

(** A generation that holds a chain and its accounts. *)
Definition stores (g : Generation) (c : list Block) (accts : EvmStateSnapshot) : Prop :=
  chain_rep (contents (gn_db g)) c /\ account_rep (contents (gn_db g)) accts.

Lemma stores_insert b g c accts :
  stores g c accts -> storable b -> block_number b = Z.of_nat (length c) -> list_fits (c ++ [b]) ->
  exists g', any (on_db (insert_block b)) g = (Ok tt, g') /\ stores g' (c ++ [b]) accts.
Proof.
  intros [Hc Ha] Hst Hn Hf. destruct (insert_block_succeeds b (gn_db g) Hst) as ([] & s' & Hrun).
  unfold any, on_db. rewrite Hrun. eexists. split; [done|]. split; cbn [gn_db].
  - by eapply chain_rep_snoc.
  - by eapply insert_block_accounts.
Qed.

Lemma stores_flush g c accts : stores g c accts -> exists g', any (on_db flush_batch) g = (Ok tt, g') /\ stores g' c accts.
Proof.
  intros [Hc Ha]. destruct (runs_flush (gn_db g)) as (s' & Hrun & Es). unfold any, on_db, flush_batch. rewrite Hrun.
  eexists. split; [done|]. by split; cbn [gn_db]; rewrite Es.
Qed.

Lemma next_number parent b gh act c pb :
  validate_block_with_genesis_and_activation parent b gh act = Ok tt -> last c = Some pb -> blk_header pb = parent ->
  numbered_from block_number 0 c -> Z.of_nat (length c) + 1 <= U64_MAX -> block_number b = Z.of_nat (length c).
Proof.
  intros Hv Hl <- Hn Hf. apply validate_block_ok in Hv. unfold block_number. rewrite (vh_number _ _ _ (vb_header _ _ _ _ Hv)).
  apply last_Some in Hl as [l ->]. fold (block_number pb). rewrite (block_numbers_lookup (l ++ [pb]) (length l) pb Hn).
  - rewrite length_app in *. cbn in *. rewrite wrap64_small; unfold in_u64, U64_MAX in *; lia.
  - apply lookup_snoc_Some. by right.
Qed.

(** What the extension asks of a block on [parent], in a store [g]: its
    transactions are signed where they must be, it keeps the rules of a block,
    its target is the one computed from the headers stored in [g], and it
    commits to its replay, which gives the next accounts and EVM state. *)
Record block_checks (rc : ReplayConfig) (gh : Hash256) (g : Generation) (parent : BlockHeader)
    (native : Accounts) (evm : RevmState) (b : Block) (native' : Accounts) (evm' : RevmState) : Prop := {
  bc_signed : Forall (fun t => rp_require_signed_transactions rc = true \/ tx_signature t <> None \/
      tx_external_hash t <> None -> verify_transaction_signature t = Ok tt) (blk_transactions b);
  bc_header : follows parent (blk_header b) gh;
  bc_body : body_rules b (rp_block_size_activation_height rc);
  bc_target : expected_difficulty_target_with_lookup parent (blk_header b) (rp_block_time_v2_activation_height rc)
      (fun hash => any_res (header_by_hash (gn_db g) hash)) = Ok (hdr_difficulty_target (blk_header b));
  bc_replayed : replayed native evm b (hdr_timestamp_seconds parent) native' evm';
}.

(** Blocks that pass one after the other, each on a store that holds the chain
    up to the one before it and still the accounts of the old tip. *)
Fixpoint checked_all (rc : ReplayConfig) (gh : Hash256) (accts : EvmStateSnapshot) (c : list Block) (parent : BlockHeader)
    (native : Accounts) (evm : RevmState) (blocks : list Block) (native' : Accounts) (evm' : RevmState) : Prop :=
  match blocks with
  | [] => native' = native /\ evm' = evm
  | b :: blocks => exists g native1 evm1, stores g c accts /\
      block_checks rc gh g parent native evm b native1 evm1 /\
      checked_all rc gh accts (c ++ [b]) (blk_header b) native1 evm1 blocks native' evm'
  end.

Lemma checked_replayed rc gh accts c parent native evm blocks native' evm' :
  checked_all rc gh accts c parent native evm blocks native' evm' ->
  replayed_all native evm (hdr_timestamp_seconds parent) blocks native' evm'.
Proof.
  revert c parent native evm. induction blocks as [|b blocks IH]; intros c parent native evm; [done|].
  intros (g & native1 & evm1 & _ & Hb & H). exists native1, evm1. split; [apply Hb|by eapply IH].
Qed.

(** Where the loop stops: after the first [i] blocks passed and were stored, at
    a block that does not. *)
Record stopped (rc : ReplayConfig) (gh : Hash256) (accts : EvmStateSnapshot) (c : list Block) (parent : BlockHeader)
    (native : Accounts) (evm : RevmState) (suffix : list Block) (g' : Generation) (i : nat) (refused : Block)
    (tip : BlockHeader) (native' : Accounts) (evm' : RevmState) : Prop := {
  sp_refused : suffix !! i = Some refused;
  sp_passed : checked_all rc gh accts c parent native evm (take i suffix) native' evm';
  sp_stored : stores g' (c ++ take i suffix) accts;
  sp_tip : blk_header <$> last (c ++ take i suffix) = Some tip;
  sp_fails : exists g, contents (gn_db g) = contents (gn_db g') /\
    forall native1 evm1, ~ block_checks rc gh g tip native' evm' refused native1 evm1;
}.

Lemma stopped_contents rc gh accts c parent native evm suffix g g' i refused tip native' evm' :
  contents (gn_db g') = contents (gn_db g) ->
  stopped rc gh accts c parent native evm suffix g i refused tip native' evm' ->
  stopped rc gh accts c parent native evm suffix g' i refused tip native' evm'.
Proof.
  intros E [H1 H2 [H3 H4] H5 (g1 & H6 & H7)]. split; try done; [by split; rewrite E|]. exists g1. by rewrite E.
Qed.

(** The checks of one round of the loop. *)
Definition round_checks (rc : ReplayConfig) (gh : Hash256) (g : Generation) (parent : BlockHeader)
    (native : Accounts) (evm : RevmState) (b : Block) : res string (Accounts * RevmState) :=
  validate_block_transaction_auth (rp_require_signed_transactions rc) b ;?
  res_map_err consensus_message
    (validate_block_with_genesis_and_activation parent b gh (rp_block_size_activation_height rc)) ;?
  let? t := expected_difficulty_target_with_lookup parent (blk_header b) (rp_block_time_v2_activation_height rc)
      (fun hash => any_res (header_by_hash (gn_db g) hash)) in
  (if bool_decide (hdr_difficulty_target (blk_header b) = t) then Ok tt
   else Err "direct recovery difficulty mismatch"%string) ;?
  let '(native, evm, r) := validate_replay_state_root native evm b (hdr_timestamp_seconds parent) in
  r ;? Ok (native, evm).

Lemma round_checks_ok rc gh g parent native evm b native' evm' :
  round_checks rc gh g parent native evm b = Ok (native', evm') <->
  block_checks rc gh g parent native evm b native' evm'.
Proof.
  unfold round_checks. split.
  - intros ([] & H1%auth_ok & H)%res_bind_ok.
    apply res_bind_ok in H as ([] & [H2 H3]%res_map_err_ok%validate_block_ok%valid_block_rules & H).
    apply res_bind_ok in H as (t & H4 & H). apply res_bind_ok in H as ([] & H5 & H).
    destruct (bool_decide _) eqn:E; [|done]. apply bool_decide_eq_true in E. subst t.
    destruct (validate_replay_state_root _ _ _ _) as [[n e] [[]|x|]] eqn:Er; cbn [res_bind] in H; [|done..].
    injection H as -> ->. apply validate_replay_ok in Er. by split.
  - intros [H1%auth_ok H2 H3 H4 H5%validate_replay_ok]. unfold validate_block_transaction_auth. rewrite H1.
    rewrite (proj2 (validate_block_ok _ _ _ _) (proj2 (valid_block_rules _ _ _ _) (conj H2 H3))). cbn [res_bind res_map_err].
    rewrite H4. cbn [res_bind]. rewrite bool_decide_eq_true_2 by done. cbn [res_bind]. by rewrite H5.
Qed.

(** A round checks the block, and stores it when it passes. *)
Lemma direct_loop_round rc gh index parent native evm b suffix g :
  direct_loop rc gh index parent native evm (b :: suffix) g =
  match round_checks rc gh g parent native evm b with
  | Ok (native', evm') =>
      (any (on_db (insert_block b)) ;!
       (if ((index + 1) mod REPLAY_CHECKPOINT_INTERVAL =? 0) || bool_decide (suffix = [])
        then any (on_db flush_batch) else st_ret tt) ;!
       direct_loop rc gh (index + 1) (blk_header b) native' evm' suffix) g
  | Err e => (Err e, g)
  | Panic => (Panic, g)
  end.
Proof.
  cbn [direct_loop]. unfold round_checks. unfold st_bind at 1, st_res at 1.
  destruct (validate_block_transaction_auth _ b) as [[]|e|]; [|done..]. unfold st_bind at 1, st_res at 1. cbn [res_bind].
  destruct (res_map_err _ _) as [[]|e|]; [|done..]. unfold st_bind at 1, st_read at 1. cbn [res_bind].
  destruct (expected_difficulty_target_with_lookup _ _ _ _) as [t|e|]; [|done..]. unfold st_bind at 1, st_res at 1. cbn [res_bind].
  destruct (bool_decide (_ = t)); [|done]. cbn [res_bind].
  destruct (validate_replay_state_root native evm b (hdr_timestamp_seconds parent)) as [[native1 evm1] q].
  unfold st_bind at 1, st_res at 1. by destruct q as [[]|e|].
Qed.

(** The loop stores a prefix of the suffix, all of it exactly when every block
    passes, and never touches the accounts. *)
Lemma direct_loop_stores rc gh suffix : forall index parent native evm g c accts pb r g',
  stores g c accts -> last c = Some pb -> blk_header pb = parent -> Forall storable suffix ->
  Z.of_nat (length c + length suffix) <= U64_MAX ->
  direct_loop rc gh index parent native evm suffix g = (r, g') ->
  (is_ok r = false /\ exists i refused tip native' evm',
     stopped rc gh accts c parent native evm suffix g' i refused tip native' evm') \/
  (stores g' (c ++ suffix) accts /\ exists tip native' evm', r = Ok (tip, native', evm') /\
     checked_all rc gh accts c parent native evm suffix native' evm').
Proof.
  induction suffix as [|b suffix IH]; intros index parent native evm g c accts pb r g' Hst Hl Hp Hs Hf H.
  { injection H as <- <-. right. rewrite app_nil_r. split; [done|]. by exists parent, native, evm. }
  apply List.Forall_cons_iff in Hs as [Hsb Hs]. rewrite direct_loop_round in H.
  destruct (round_checks rc gh g parent native evm b) as [[native1 evm1]|e|] eqn:Er.
  2, 3: injection H as <- <-; left; split; [done|]; exists 0%nat, b, parent, native, evm; cbn [take];
    split; cbn [take checked_all]; rewrite ?app_nil_r, ?Hl; try done; [by rewrite <- Hp|];
    exists g; split; [done|]; intros native1 evm1 Hb%round_checks_ok; congruence.
  apply round_checks_ok in Er as Hb.
  cbn [length] in Hf. pose proof (cr_numbers _ _ (proj1 Hst)) as Hnum.
  assert (block_number b = Z.of_nat (length c)) as Hn.
  { eapply (next_number parent b gh (rp_block_size_activation_height rc)); [|done..|lia].
    apply validate_block_ok, valid_block_rules. split; apply Hb. }
  destruct (stores_insert b g c accts Hst Hsb Hn) as (g1 & H1 & Hst1); [unfold list_fits; rewrite length_app; cbn; lia|].
  unfold st_bind at 1 in H. rewrite H1 in H.
  assert (exists g2, (if ((index + 1) mod REPLAY_CHECKPOINT_INTERVAL =? 0) || bool_decide (suffix = [])
    then any (on_db flush_batch) else st_ret tt) g1 = (Ok tt, g2) /\ stores g2 (c ++ [b]) accts) as (g2 & H2 & Hst2).
  { case_match; [by apply stores_flush|]. by exists g1. }
  unfold st_bind at 1 in H. rewrite H2 in H.
  assert (forall l, (c ++ [b]) ++ l = c ++ b :: l) as Eapp by (intros l; by rewrite <- app_assoc).
  destruct (IH _ _ _ _ _ _ _ b _ _ Hst2 ltac:(apply last_snoc) eq_refl Hs ltac:(rewrite length_app; cbn; lia) H)
    as [(Hr & i & refused & tip & native' & evm' & [S1 S2 S3 S4 S5])|(Hst' & tip & native' & evm' & -> & Hck)].
  - left. split; [done|]. exists (Datatypes.S i), refused, tip, native', evm'. rewrite Eapp in S3, S4.
    split; [done| |done..]. cbn [take checked_all]. by exists g, native1, evm1.
  - right. rewrite Eapp in Hst'. split; [done|]. exists tip, native', evm'. split; [done|]. by exists g, native1, evm1.
Qed.

Lemma stores_end g c accts : stores g c accts -> exists g', any (on_db end_batch) g = (Ok tt, g') /\ stores g' c accts.
Proof.
  intros [Hc Ha]. destruct (runs_flush (gn_db g)) as (s' & Hrun & Es).
  unfold any, on_db, end_batch, st_bind, flush_batch, set_defer_flush. rewrite Hrun.
  eexists. split; [done|]. by split; cbn [gn_db]; unfold contents in *; cbn; rewrite Es.
Qed.

(** Writes of accounts or of state rows, whatever they return. *)
Lemma account_run_holds {A} (m : St A) g r g' c :
  leaves account_keys m -> any (on_db m) g = (r, g') -> chain_rep (contents (gn_db g)) c -> chain_rep (contents (gn_db g')) c.
Proof.
  intros Hl H Hc. unfold any, on_db in H. destruct (m (gn_db g)) as [q db] eqn:E. injection H as <- <-. cbn [gn_db].
  eapply chain_rep_other; [exact Hc|]. intros k Hk. eapply Hl; [exact E|]. by apply chain_key_other.
Qed.

Lemma refresh_keeps g r g' : refresh_generation_manifest g = (r, g') -> gn_db g' = gn_db g.
Proof.
  unfold refresh_generation_manifest. intros [(m & g1 & [_ ->]%st_read_ok & H)|(_ & r0 & [= _ <-] & _)]%st_bind_run; [|done].
  destruct m as [m|]; [|by injection H as _ <-].
  apply st_bind_run in H as [(best & g1 & [_ ->]%st_read_ok & H)|(_ & r0 & [= _ <-] & _)]; [|done].
  apply st_bind_run in H as [([] & g1 & H1 & H)|(_ & r0 & H1 & _)].
  2: { by apply write_file_run in H1 as [[_ ->]|(_ & b & _ & ->)]. }
  assert (gn_db g1 = gn_db g) as <- by (by apply write_file_run in H1 as [[_ ->]|(_ & b & _ & ->)]).
  unfold write_generation_publication in H. apply st_bind_run in H as [(cs & g2 & [_ ->]%st_res_ok & H)|(_ & r0 & [= _ <-] & _)]; [|done].
  by apply write_file_run in H as [[_ ->]|(_ & b & _ & ->)].
Qed.

(** The writes after the loop: the chain stays whatever happens, and success
    leaves the replayed accounts over the stored ones. *)
Definition replayed_store (native : Accounts) (evm : RevmState) (accts : EvmStateSnapshot) : EvmStateSnapshot :=
  (stored_account <$> evm) ∪ put_over native accts.

Lemma any_on_db_ok {A} (m : St A) g a g' : any (on_db m) g = (Ok a, g') -> m (gn_db g) = (Ok a, gn_db g').
Proof. unfold any, on_db. destruct (m (gn_db g)) as [[x|e|] db]; intros [= <- <-]. done. Qed.

Lemma direct_tail_stores native evm n g c accts r g' :
  stores g c accts ->
  (any (on_db (put_accounts native)) ;! any (on_db (persist_revm_state evm)) ;!
   any (on_db (set_reward_indexed_to n)) ;! any refresh_generation_manifest) g = (r, g') ->
  chain_rep (contents (gn_db g')) c /\
  (r = Ok tt -> typed_accounts native -> typed_state evm ->
     account_rep (contents (gn_db g')) (replayed_store native evm accts) /\
     exists new, evm_accounts_from_revm_state evm = Ok new).
Proof.
  intros [Hc Ha] H. apply st_bind_run in H as [([] & g1 & H1 & H)|(Hr & r0 & H1 & _)].
  2: { split; [eapply account_run_holds; [apply leaves_put_accounts|done..]|by intros ->]. }
  pose proof (account_run_holds _ _ _ _ _ (leaves_put_accounts native) H1 Hc) as Hc1.
  apply st_bind_run in H as [([] & g2 & H2 & H)|(Hr & r0 & H2 & _)].
  2: { split; [eapply account_run_holds; [apply leaves_persist|done..]|by intros ->]. }
  pose proof (account_run_holds _ _ _ _ _ (leaves_persist evm) H2 Hc1) as Hc2.
  assert (forall r1 g3, any (on_db (set_reward_indexed_to n)) g2 = (r1, g3) ->
    forall k, state_keys k = false -> contents (gn_db g3) !! k = contents (gn_db g2) !! k) as Hidx.
  { intros r1 g3 H3 k Hk. unfold any, on_db in H3. destruct (set_reward_indexed_to n (gn_db g2)) as [q db] eqn:E.
    injection H3 as _ <-. by eapply leaves_reward_index. }
  assert (forall r1 g3, any (on_db (set_reward_indexed_to n)) g2 = (r1, g3) -> chain_rep (contents (gn_db g3)) c) as Hc3.
  { intros r1 g3 H3. eapply chain_rep_other; [exact Hc2|]. intros k Hk. eapply Hidx; [exact H3|]. by apply chain_key_other. }
  apply st_bind_run in H as [([] & g3 & H3 & H)|(Hr & r0 & H3 & _)].
  2: { split; [by eapply Hc3|by intros ->]. }
  assert (gn_db g' = gn_db g3) as Hdb.
  { unfold any in H. destruct (refresh_generation_manifest g3) as [q g4] eqn:E. injection H as _ <-. by eapply refresh_keeps. }
  rewrite Hdb. split; [by eapply Hc3|]. intros _ Hta Hts.
  apply any_on_db_ok in H1, H2. pose proof (put_accounts_rep _ _ _ _ _ Hta Ha H1) as Ha1.
  destruct (persist_revm_state_rep _ _ _ _ _ Ha1 Hts H2) as [Hnew Ha2]. split; [|done].
  eapply account_rep_other; [exact Ha2|]. intros k Hk. eapply Hidx; [exact H3|]. by apply account_key_state.
Qed.

Lemma with_batch_run {State} (end_ body : StM string State unit) s r s' :
  with_batch end_ body s = (r, s') ->
  exists q s1 e, body s = (q, s1) /\
    ((q = Panic /\ r = Panic /\ s' = s1) \/ (end_ s1 = (e, s') /\ (is_ok e = true -> r = q))).
Proof.
  unfold with_batch. destruct (body s) as [q s1]. intros H. exists q, s1.
  destruct q as [[]|e|].
  - destruct (end_ s1) as [e s2]. exists e. split; [done|]. right. destruct e as [[]|e|]; injection H as <- <-; done.
  - destruct (end_ s1) as [e' s2]. exists e'. split; [done|]. right. destruct e' as [[]|e'|]; injection H as <- <-; done.
  - exists Panic. split; [done|]. left. by injection H as <- <-.
Qed.

(** C10: the direct extension of the tip by a recovered suffix.  Unless the tip
    is the ancestor of the suffix, nothing changes.  Otherwise the blocks are
    checked and stored one after the other: every block that was stored carries
    the signatures it must, keeps the rules of a block on the one before it,
    has the target computed from the stored headers and commits to its replay
    from the state before it.  When a block fails one of these checks, the
    extension is refused and is not atomic: exactly the blocks before the first
    that fails stay on the chain, while the accounts are still those of the old
    tip.  When all pass, the whole suffix is on the chain, and on success the
    accounts are those the replay ends with, laid over the stored ones. *)
Theorem direct_extension_outcome rc gh branch g c accts pb r g' :
  stores g c accts -> last c = Some pb -> Forall storable (cb_suffix branch) ->
  Z.of_nat (length c + length (cb_suffix branch)) <= U64_MAX ->
  commit_suffix rc gh branch g = (r, g') ->
  let extends := cb_common_height branch = block_number pb /\ cb_common_hash branch = header_hash (blk_header pb) in
  (~ extends /\ r = Ok false /\ g' = g) \/
  (extends /\ is_ok r = false /\ exists i refused tip native evm,
     stopped rc gh accts c (blk_header pb) (native_of accts) (revm_state_of_accounts accts)
       (cb_suffix branch) g' i refused tip native evm) \/
  (extends /\ r <> Ok false /\ exists native evm,
     checked_all rc gh accts c (blk_header pb) (native_of accts) (revm_state_of_accounts accts)
       (cb_suffix branch) native evm /\
     chain_rep (contents (gn_db g')) (c ++ cb_suffix branch) /\
     (r = Ok true -> typed_accounts native -> typed_state evm ->
        account_rep (contents (gn_db g')) (replayed_store native evm accts) /\
        exists new, evm_accounts_from_revm_state evm = Ok new)).
Proof.
  intros Hst Hl Hs Hf H extends. destruct Hst as [Hc Ha]. destruct (best_of_chain _ _ _ Hc Hl) as [Hbest _].
  unfold commit_suffix in H. unfold st_bind at 1, any at 1, st_read at 1 in H. rewrite Hbest in H. cbn [any_res res_map_err] in H.
  destruct (negb (hdr_number (blk_header pb) =? cb_common_height branch) ||
    negb (bool_decide (header_hash (blk_header pb) = cb_common_hash branch))) eqn:Eg.
  { left. injection H as <- <-. split; [|done]. intros [E1 E2]. rewrite E1, E2 in Eg. fold (block_number pb) in Eg.
    by rewrite Z.eqb_refl, bool_decide_true in Eg. }
  assert extends as Hext.
  { apply orb_false_iff in Eg as [E1 E2]. apply negb_false_iff in E1, E2. apply Z.eqb_eq in E1. by apply bool_decide_eq_true in E2. }
  right. destruct (account_snapshot_rep _ _ Ha) as (_ & _ & Hread). destruct (Hread HR) as [Hnat _].
  unfold st_bind at 1, any at 1, st_read at 1 in H. rewrite Hnat in H. cbn [any_res res_map_err] in H.
  unfold st_bind at 1, any at 1, st_read at 1 in H. rewrite (revm_state_from_sled_reads _ _ Ha) in H. cbn [any_res res_map_err] in H.
  unfold st_bind at 1, any at 1, on_db at 1, begin_batch, set_defer_flush in H. cbn [any_res res_map_err] in H.
  set (g0 := {| gn_db := _; gn_files := _ |}) in H. assert (stores g0 c accts) as Hst0 by done.
  assert (exists r1, with_batch (any (on_db end_batch)) (direct_body rc gh (blk_header pb) (native_of accts)
    (revm_state_of_accounts accts) (cb_suffix branch)) g0 = (r1, g') /\ r <> Ok false /\ is_ok r = is_ok r1) as (r1 & H1 & Hr & Er).
  { unfold st_bind in H. destruct (with_batch _ _ g0) as [[[]|e|] g2]; injection H as <- <-; by eexists. }
  clear H. apply with_batch_run in H1 as (q & g1 & e & Hbody & Hend).
  unfold direct_body in Hbody. unfold st_bind at 1 in Hbody.
  destruct (direct_loop _ _ _ _ _ _ _ g0) as [ql gl] eqn:Eloop.
  assert (forall c2, chain_rep (contents (gn_db g1)) c2 -> contents (gn_db g') = contents (gn_db g1)) as Hend2.
  { intros c2 _. destruct Hend as [(_ & _ & ->)|(He & _)]; [done|]. destruct (runs_flush (gn_db g1)) as (s' & Hrun & Es).
    unfold any, on_db, end_batch, st_bind, flush_batch, set_defer_flush in He. rewrite Hrun in He.
    injection He as _ <-. cbn [gn_db]. unfold contents in *. cbn. exact Es. }
  assert (is_ok q = is_ok r1 /\ (r1 = Ok tt <-> q = Ok tt)) as [Eq Eq'].
  { destruct Hend as [(-> & -> & _)|(He & Her)]; [done|]. destruct (runs_flush (gn_db g1)) as (s' & Hrun & Es).
    unfold any, on_db, end_batch, st_bind, flush_batch, set_defer_flush in He. rewrite Hrun in He.
    injection He as <- _. by rewrite Her. }
  destruct (direct_loop_stores _ _ _ _ _ _ _ _ _ _ _ _ _ Hst0 Hl eq_refl Hs Hf Eloop)
    as [(Hql & i & refused & tip & native & evm & Hstop)|(Hstl & tip & native & evm & -> & Hck)].
  - left. assert (q = (match ql with Ok _ => q | Err e => Err e | Panic => Panic end) /\ g1 = gl) as [Eql ->].
    { destruct ql; [done|by injection Hbody as <- <-..]. }
    split; [done|]. split; [rewrite Er, <- Eq, Eql; by destruct ql|]. exists i, refused, tip, native, evm.
    eapply stopped_contents; [|exact Hstop]. by eapply Hend2, (proj1 (sp_stored _ _ _ _ _ _ _ _ _ _ _ _ _ _ Hstop)).
  - right. split; [done|]. split; [done|].
    destruct (direct_tail_stores _ _ _ _ _ _ _ _ Hstl Hbody) as [Hc1 Hacc]. exists native, evm. split; [done|].
    rewrite (Hend2 _ Hc1). split; [done|]. intros ->. apply Hacc. apply Eq'. destruct r1 as [[]|e1|]; [done|..]; discriminate Er.
Qed.
End direct.

(** ** Example: the second of two recovered blocks is refused *)

Section direct_witness.
#[local] Existing Instances mem_sled hex_codec toy_digests mem_files.

Definition direct_chain : list Block := [empty_block numbered_zero; empty_block replay_parent].
Definition direct_blocks : Json Block := table_json (direct_chain ++ [replay_block]).
Definition direct_headers : Json BlockHeader := table_json (map blk_header (direct_chain ++ [replay_block])).

(** The store with the blocks of a chain and [sample_accounts]. *)
Definition store_of (JB : Json Block) (JH : Json BlockHeader) (chain : list Block) : SledStorage :=
  let empty := {| ss_db := (∅ : @sled_db mem_sled); ss_defer_flush := false |} in
  let run := st_for chain (@insert_block _ _ _ JB JH SampleCodecs.JT SampleCodecs.JR) empty in
  (put_accounts sample_accounts run.2).2.

Lemma sample_accounts_typed : typed_accounts sample_accounts.
Proof.
  apply (map_Forall_insert_2 _ ∅ (be_bytes 20 1) (1000000000000000000000000, 7)); [|apply map_Forall_empty].
  split; [reflexivity|]. split; split; vm_compute; discriminate.
Qed.

Lemma store_of_stores (JB : Json Block) (JH : Json BlockHeader) chain files :
  Forall (@storable hex_codec toy_digests JB JH SampleCodecs.JT SampleCodecs.JR) chain ->
  numbered_from block_number 0 chain -> list_fits chain ->
  @stores mem_sled hex_codec JB JH {| gn_db := store_of JB JH chain; gn_files := files |} chain (put_over sample_accounts ∅).
Proof.
  intros Hs Hn Hf. unfold store_of. set (s := {| ss_db := (∅ : @sled_db mem_sled); ss_defer_flush := false |}).
  destruct (insert_blocks_succeed (JT := SampleCodecs.JT) (JR := SampleCodecs.JR) (HRel := mem_sled_reliable) chain s Hs)
    as ([] & s' & Hrun).
  destruct (insert_blocks_rep (JT := SampleCodecs.JT) (JR := SampleCodecs.JR) chain [] s s') as [Hc Ha];
    [by apply chain_rep_empty|done|done|exact Hrun|].
  rewrite Hrun. cbn [snd].
  assert (account_rep (contents s') ∅) as Ha0.
  { eapply account_rep_other; [apply rep_empty|]. intros k Hk. by apply Ha. }
  destruct (put_accounts sample_accounts s') as [r s2] eqn:E.
  assert (r = Ok tt) as ->.
  { change (put_accounts sample_accounts) with (st_for [(be_bytes 20 1, (1000000000000000000000000, 7))]
      (fun kv => put_stored_account kv.1 kv.2.1 kv.2.2)) in E. cbn [st_for] in E. unfold st_bind, put_stored_account in E.
    destruct (succeeds_insert (HR := mem_sled_reliable) (balance_key (be_bytes 20 1)) (be_bytes 16 1000000000000000000000000) s') as ([] & s3 & H3).
    cbn [fst snd] in E. unfold st_bind in E. rewrite H3 in E.
    destruct (succeeds_insert (HR := mem_sled_reliable) (nonce_key (be_bytes 20 1)) (be_bytes 8 7) s3) as ([] & s4 & H4). rewrite H4 in E.
    destruct (succeeds_flush_db (HR := mem_sled_reliable) s4) as ([] & s5 & H5). rewrite H5 in E. by injection E as <- _. }
  split; cbn [gn_db].
  - eapply account_run_chain; [apply touches_put_accounts|exact E|exact Hc].
  - exact (put_accounts_rep _ _ _ _ _ sample_accounts_typed Ha0 E).
Qed.

Definition direct_generation : Generation :=
  {| gn_db := store_of direct_blocks direct_headers direct_chain; gn_files := fun _ => None |}.

Definition direct_branch : CandidateBranch := {|
  cb_common_height := 1; cb_common_hash := header_hash replay_parent; cb_suffix := [replay_block; replay_block] |}.

Lemma direct_generation_stores :
  @stores mem_sled hex_codec direct_blocks direct_headers direct_generation direct_chain (put_over sample_accounts ∅).
Proof.
  apply store_of_stores.
  - repeat (apply List.Forall_cons; [by vm_compute|]). apply List.Forall_nil.
  - intros [|[|i]] b H; [by injection H as <-..|by destruct i].
  - by vm_compute.
Qed.

Lemma replay_block_storable :
  @storable hex_codec toy_digests direct_blocks direct_headers SampleCodecs.JT SampleCodecs.JR replay_block.
Proof. vm_compute. repeat split; reflexivity. Qed.

Lemma direct_extension_outcome_witness :
  let run := @commit_suffix mem_sled hex_codec toy_digests u256_z (toy_revm u256_z) toy_secp toy_randomx native_profile
    direct_blocks direct_headers SampleCodecs.JT SampleCodecs.JR mem_files SampleCodecs.JM SampleCodecs.JP SampleCodecs.CM
    replay_config HASH_ZERO direct_branch direct_generation in
  is_ok run.1 = false /\
  @best_header mem_sled direct_headers (gn_db run.2) = Ok (blk_header replay_block) /\
  @account_rep hex_codec (contents (gn_db run.2)) (put_over sample_accounts ∅).
Proof.
  intros run. assert (is_ok run.1 = false) as Hr by (vm_compute; reflexivity). split; [exact Hr|].
  assert (@best_header mem_sled direct_headers (gn_db run.2) = Ok (blk_header replay_block)) as Hb by (vm_compute; reflexivity).
  split; [exact Hb|].
  destruct (@direct_extension_outcome mem_sled hex_codec toy_digests u256_z (toy_revm u256_z) toy_secp toy_randomx native_profile
    direct_blocks direct_headers SampleCodecs.JT SampleCodecs.JR mem_files SampleCodecs.JM SampleCodecs.JP SampleCodecs.CM
    mem_sled_reliable replay_config HASH_ZERO direct_branch direct_generation direct_chain (put_over sample_accounts ∅)
    (empty_block replay_parent) run.1 run.2) as [(_ & E & _)|[(_ & _ & i & refused & tip & native & evm & [_ _ [_ Ha] _ _])|(_ & _ & native & evm & _ & Hc & _)]].
  - exact direct_generation_stores.
  - reflexivity.
  - repeat (apply List.Forall_cons; [exact replay_block_storable|]). apply List.Forall_nil.
  - vm_compute. discriminate.
  - apply surjective_pairing.
  - exfalso. rewrite E in Hr. discriminate Hr.
  - exact Ha.
  - exfalso. discriminate (cr_numbers _ _ Hc 3%nat replay_block eq_refl).
Defined.
End direct_witness.
