(* ===== verification/Fork.v ===== *)
(** The publication of a fork ([stage_and_publish_candidate]), with other
    threads running between its locks. *)

From Stdlib Require Import ZArith Lia Strings.String Strings.Byte.
From stdpp Require Import sorting gmap fin_maps base list.
From S2P Require Import Prelude Externals Primitives Canonical Rlp RawTx Pow Consensus State StateRoot.
From S2P Require Import Transition Evm Difficulty BlockExec Mempool Admission Replay Network.
From S2P Require Import Sled AccountStore BlockStore ChainStore Generation Publish CandidateStore NodeStore NodeState.
From S2P Require Import Supply Snapshots Miner Branch Import Reorg Direct.
#[local] Open Scope Z_scope.

(** ** Cumulative work *)

Section work.
Context {S : Sled} {HX : HexCodec} {D : Digests} {U : U256Ops}.
Context {JB : Json Block} {JH : Json BlockHeader}.

Definition add_work (work : Z) (b : Block) : Z :=
  sat_add U128_MAX work (work_for_target (hdr_difficulty_target (blk_header b))).

Lemma canonical_work_fold l : canonical_work l = fold_left add_work l 0.
Proof. done. Qed.

Lemma sum_work_ok s c n : forall i work w,
  chain_rep (contents s) c -> Z.of_nat (i + n) <= U64_MAX ->
  sum_work s (map (fun k => 0 + Z.of_nat k) (seq i n)) work = Ok w -> w = fold_left add_work (take n (drop i c)) work.
Proof.
  induction n as [|n IH]; intros i work w Hc Hf H; [by injection H as <-|]. cbn [seq map sum_work] in H.
  apply res_bind_ok in H as (h & Hh & H). rewrite Z.add_0_l in Hh.
  destruct (header_by_number_ok s c (Z.of_nat i) _ Hc ltac:(unfold in_u64; lia) Hh) as (b & Hb & <-). rewrite Nat2Z.id in Hb.
  rewrite (drop_S c b i Hb). cbn [take fold_left]. eapply (IH (Datatypes.S i)); [done|lia|exact H].
Qed.

(** The work of the stored chain up to a height. *)
Lemma stored_work_ok s c height w :
  chain_rep (contents s) c -> 0 <= height < U64_MAX -> canonical_work_through_storage s height = Ok w ->
  w = canonical_work (take (Z.to_nat height + 1) c).
Proof.
  intros Hc Hh H. unfold canonical_work_through_storage, range_incl in H.
  apply (sum_work_ok s c) in H; [|done|lia]. rewrite H. rewrite drop_0.
  replace (Z.to_nat (height - 0 + 1)) with (Z.to_nat height + 1)%nat by lia. done.
Qed.
End work.

(** ** The replay under interference *)

Section replay_runs.
Context {S : Sled} {HX : HexCodec} {D : Digests} {U : U256Ops} {R : Revm} {SE : Secp} {RX : RandomX} {BP : BuildProfile}.
Context {JB : Json Block} {JH : Json BlockHeader} {JT : Json Transaction} {JR : Json StoredReceipt}.
Context {JE : Json (list SerializedEvmSnapshotEntry)} {HO : Host}.

Lemma overlay_step_ok o rc gh b o' :
  overlay_step o rc gh b = Ok o' <-> overlay_apply o rc gh b = (o', Ok tt).
Proof.
  unfold overlay_step. destruct (overlay_apply o rc gh b) as [o1 [[]|e|]]; cbn; split; congruence.
Qed.

Lemma overlay_apply_all_app rc gh l1 l2 o o1 o2 :
  overlay_apply_all o rc gh l1 = (o1, Ok tt) -> overlay_apply_all o1 rc gh l2 = (o2, Ok tt) ->
  overlay_apply_all o rc gh (l1 ++ l2) = (o2, Ok tt).
Proof.
  revert o. induction l1 as [|b l1 IH]; intros o H1 H2; [by injection H1 as ->|]. cbn [app overlay_apply_all] in *.
  destruct (overlay_apply o rc gh b) as [o' [[]|e|]]; [|done..]. by apply IH.
Qed.

(** Whatever the other threads do, the blocks read are replayed in order. *)
Lemma replay_stored_ok others rc gh numbers o n o' n' :
  replay_stored others rc gh numbers o n = (Ok o', n') ->
  exists mid, length mid = length numbers /\ overlay_apply_all o rc gh mid = (o', Ok tt).
Proof.
  revert o n. induction numbers as [|number numbers IH]; intros o n H.
  { apply st_ret_ok in H as [-> _]. by exists []. }
  cbn [replay_stored] in H. apply st_bind_ok in H as ([] & n1 & _ & H). apply st_bind_ok in H as (b & n2 & _ & H).
  apply st_bind_ok in H as (o1 & n3 & [Ho1 _]%st_res_ok & H). apply overlay_step_ok in Ho1.
  apply st_bind_ok in H as ([] & n4 & _ & H). apply IH in H as (mid & Hl & Hmid). exists (b :: mid).
  split; [cbn; lia|]. cbn [overlay_apply_all]. by rewrite Ho1.
Qed.

Lemma replay_suffix_ok rc gh index suffix o o' :
  replay_suffix rc gh index suffix o = Ok o' -> overlay_apply_all o rc gh suffix = (o', Ok tt).
Proof.
  revert index o. induction suffix as [|b suffix IH]; intros index o H; [by injection H as ->|]. cbn [replay_suffix] in H.
  apply res_bind_ok in H as (o1 & Ho1%overlay_step_ok & H). apply res_bind_ok in H as ([] & _ & H).
  cbn [overlay_apply_all]. rewrite Ho1. by eapply IH.
Qed.
End replay_runs.

(** ** The last lock *)

Section publishing.
Context {S : Sled} {HX : HexCodec} {D : Digests} {U : U256Ops} {R : Revm} {SE : Secp} {RX : RandomX} {BP : BuildProfile}.
Context {JB : Json Block} {JH : Json BlockHeader} {JT : Json Transaction} {JR : Json StoredReceipt}.
Context {JE : Json (list SerializedEvmSnapshotEntry)}.
Context {IO : FileIo} {JM : Json GenerationManifest} {JC : Json ReplayCheckpoint}.
Context {JP : Json GenerationPublicationRecord} {JS : Json SuffixPublicationRecord} {CM : CompactManifest}.

(** Frames: the supply counters and the candidates are beside the chain. *)
Lemma touches_set_supply i t b : touches state_keys (set_supply_totals i t b).
Proof. unfold set_supply_totals. frame. Qed.

Lemma touches_backfill_loop best numbers t b : touches state_keys (backfill_supply_loop best numbers t b).
Proof.
  revert t b. induction numbers as [|n numbers IH]; intros t b; [apply touches_ret|]. cbn [backfill_supply_loop].
  apply touches_bind; [apply touches_read|]. intros block. apply touches_bind; [apply touches_read|]. intros pt.
  destruct (block_supply_delta block pt) as [x y]. apply touches_bind; [|intros _; apply IH].
  case_match; [apply touches_set_supply|apply touches_ret].
Qed.

Lemma touches_backfill : touches state_keys backfill_supply_storage.
Proof.
  intros s a s' k H Hk. unfold backfill_supply_storage in H. destruct (best_header s) as [best|[]|]; try done.
  - revert H Hk. match goal with |- ?m s = _ -> _ => assert (touches state_keys m) as Ht; [|apply Ht] end.
    apply touches_bind; [apply touches_read|]. intros [[i t] b]. cbv zeta.
    apply touches_bind; [case_match; [apply touches_set_supply|apply touches_ret]|]. intros _.
    case_match; [apply touches_ret|apply touches_backfill_loop].
  - by injection H as _ <-.
Qed.

Lemma any_ok {T A} (m : StM StorageError T A) s a s' : any m s = (Ok a, s') -> m s = (Ok a, s').
Proof. unfold any. destruct (m s) as [[x|e|] s1]; intros [= <- <-]. done. Qed.

Lemma supply_run ancestor best replacement s a s' c accts :
  suffix_supply_totals ancestor best replacement s = (Ok a, s') ->
  chain_rep (contents s) c -> account_rep (contents s) accts ->
  chain_rep (contents s') c /\ account_rep (contents s') accts.
Proof.
  unfold suffix_supply_totals. intros H Hc Ha. apply st_bind_ok in H as (t & s1 & [_ ->]%any_ok%st_read_ok & H).
  apply st_bind_ok in H as ([[i t'] b'] & s2 & H1 & H).
  apply st_bind_ok in H as (removed & s3 & [_ ->]%any_ok%st_read_ok & [_ ->]%st_ret_ok).
  destruct (t.1.1 <? hdr_number best); [|apply st_ret_ok in H1 as [_ ->]; done].
  apply st_bind_ok in H1 as ([] & s3 & H1%any_ok & H2). apply st_bind_ok in H2 as (t2 & s4 & [_ ->]%any_ok%st_read_ok & H2).
  assert (s2 = s3) as ->. { case_match; [by apply st_res_ok in H2 as [_ ->]|by apply st_ret_ok in H2 as [_ ->]]. }
  eapply state_run; [exact touches_backfill|exact H1|done|done].
Qed.

Definition candidate_keys : list byte -> bool := has_prefix (B "candidate:").

Lemma touches_remove_candidates hashes : touches candidate_keys (remove_candidate_blocks hashes).
Proof.
  unfold remove_candidate_blocks. apply touches_bind; [|intros _; apply touches_flush]. apply touches_for. intros h _.
  repeat (apply touches_bind; [|intros _]); apply touches_remove; unfold candidate_keys;
    [apply (prefix_app (B "candidate:") (B "block:" ++ _))|apply (prefix_app (B "candidate:") (B "work:" ++ _))|
     apply (prefix_app (B "candidate:") (B "quarantine:" ++ _))].
Qed.

Lemma candidate_other k : candidate_keys k = true -> chain_key k = false /\ account_keys k = false.
Proof.
  intros Hk. split; [|eapply other_prefix; [| |exact Hk]; reflexivity].
  destruct (chain_key k) eqn:E; [|done]. apply existsb_exists in E as (p & Hp & Hk'). cbn in Hp.
  enough (has_prefix p k = false) by congruence.
  destruct Hp as [<-|[<-|[<-|[<-|[]]]]]; (eapply other_prefix; [| |exact Hk]; reflexivity).
Qed.

Lemma stores_remove_candidates hashes g n' c accts u :
  node_remove_candidate_blocks hashes (Full g) = (Ok u, n') -> stores g c accts ->
  exists g', n' = Full g' /\ stores g' c accts.
Proof.
  unfold node_remove_candidate_blocks, on_full. intros H [Hc Ha].
  destruct (any (on_db (remove_candidate_blocks hashes)) g) as [r g'] eqn:E. injection H as -> <-. exists g'. split; [done|].
  apply any_on_db_ok in E. split.
  - eapply chain_rep_other; [exact Hc|]. intros k Hk. eapply touches_remove_candidates; [exact E|].
    destruct (candidate_keys k) eqn:Ec; [|done]. apply candidate_other in Ec as [? _]. congruence.
  - eapply account_rep_other; [exact Ha|]. intros k Hk. eapply touches_remove_candidates; [exact E|].
    destruct (candidate_keys k) eqn:Ec; [|done]. apply candidate_other in Ec as [_ ?]. unfold account_keys in *. congruence.
Qed.

(** A publication that succeeds. *)
Lemma publish_succeeds ancestor replacement evm supply target g g' c accts :
  stores g c accts -> wf_evm_accounts evm -> in_u64 (hdr_number ancestor) ->
  Z.of_nat (length c + length replacement) <= U64_MAX ->
  publish_canonical_suffix ancestor replacement (native_of evm) evm supply target g = (Ok tt, g') ->
  (Z.to_nat (hdr_number ancestor) < length c)%nat /\
  stores g' (take (1 + Z.to_nat (hdr_number ancestor)) c ++ replacement) (stored_evm evm).
Proof.
  intros [Hc Ha] Hwf Hanc Hfit H. destruct (publish_stops _ _ _ _ _ _ _ _ _ H) as [[Hr _]|(prev & bst & tip & Hchk & Hstop)]; [done|].
  pose proof (publication_check_ok _ _ _ _ _ _ _ _ Hc Hanc Hfit Hchk) as Hpb. split; [by apply Hpb|].
  destruct Hstop as [(Hr & _)|(batch & Hbatch & Hstop)]; [done|].
  pose proof (batch_installs _ _ _ _ _ _ _ _ _ _ _ Hc Hwf Hanc Hfit Hpb Hbatch) as Hnew.
  remember (Ok tt : res StorageError unit) as r0 eqn:Er.
  destruct Hstop as [r1 g' Hr|r1 g' jb Hr|r1 g' jb Hr|g' Hdb _ _]; [by subst r1..|]. unfold stores. by rewrite Hdb.
Qed.
End publishing.

(** *** The last lock on a store that does not fail, whatever it returns *)

Section errors.
Context {S : Sled} {HX : HexCodec} {D : Digests} {U : U256Ops} {R : Revm} {SE : Secp} {RX : RandomX} {BP : BuildProfile}.
Context {JB : Json Block} {JH : Json BlockHeader} {JT : Json Transaction} {JR : Json StoredReceipt}.
Context {JE : Json (list SerializedEvmSnapshotEntry)}.
Context {IO : FileIo} {JM : Json GenerationManifest} {JC : Json ReplayCheckpoint}.
Context {JP : Json GenerationPublicationRecord} {JS : Json SuffixPublicationRecord} {CM : CompactManifest}.
Context {HR : SledReliable}.

Lemma leaves_set_supply i t b : leaves state_keys (set_supply_totals i t b).
Proof.
  unfold set_supply_totals. do 3 (apply leaves_bind; [by apply leaves_insert|intros _]). apply leaves_flush.
Qed.

Lemma leaves_backfill_loop best numbers t b : leaves state_keys (backfill_supply_loop best numbers t b).
Proof.
  revert t b. induction numbers as [|n numbers IH]; intros t b; [apply leaves_ret|]. cbn [backfill_supply_loop].
  apply leaves_bind; [apply leaves_read|]. intros block. apply leaves_bind; [apply leaves_read|]. intros pt.
  destruct (block_supply_delta block pt) as [x y]. apply leaves_bind; [|intros _; apply IH].
  case_match; [apply leaves_set_supply|apply leaves_ret].
Qed.

Lemma leaves_backfill : leaves state_keys backfill_supply_storage.
Proof.
  intros s r s' k H Hk. unfold backfill_supply_storage in H. destruct (best_header s) as [best|[]|]; try (by injection H as _ <-).
  revert H Hk. match goal with |- ?m s = _ -> _ => assert (leaves state_keys m) as Ht; [|apply Ht] end.
  apply leaves_bind; [apply leaves_read|]. intros [[i t] b]. cbv zeta.
  apply leaves_bind; [case_match; [apply leaves_set_supply|apply leaves_ret]|]. intros _.
  case_match; [apply leaves_ret|apply leaves_backfill_loop].
Qed.

Lemma supply_run_any ancestor best replacement s r s' c accts :
  suffix_supply_totals ancestor best replacement s = (r, s') ->
  chain_rep (contents s) c -> account_rep (contents s) accts ->
  chain_rep (contents s') c /\ account_rep (contents s') accts.
Proof.
  intros H Hc Ha. enough (forall k, state_keys k = false -> contents s' !! k = contents s !! k) as Hk.
  { split; [eapply chain_rep_other; [exact Hc|]|eapply account_rep_other; [exact Ha|]]; intros k Hk'; apply Hk;
      [by apply chain_key_other|by apply account_key_state]. }
  intros k Hk. unfold suffix_supply_totals in H.
  apply st_bind_run in H as [(t & s1 & [_ ->]%any_ok%st_read_ok & H)|(_ & r0 & [= _ <-] & _)]; [|done].
  assert (forall r1 s1, (if t.1.1 <? hdr_number best then
      any backfill_supply_storage ;!
      do? totals := any (st_read supply_totals) in
      if totals.1.1 <? hdr_number best
      then st_res (Err "candidate publication deferred: supply index is incomplete"%string) else st_ret totals
    else st_ret t) s = (r1, s1) -> contents s1 !! k = contents s !! k) as Hb.
  { intros r1 s1 H1. destruct (t.1.1 <? hdr_number best); [|by injection H1 as _ <-].
    assert (forall r2 s2, any backfill_supply_storage s = (r2, s2) -> contents s2 !! k = contents s !! k) as Hf.
    { intros r2 s2 E. unfold any in E. destruct (backfill_supply_storage s) as [q s3] eqn:Eb. injection E as _ <-.
      by eapply leaves_backfill. }
    apply st_bind_run in H1 as [([] & s2 & H1%Hf & H2)|(_ & r0 & H1%Hf & _)]; [|done].
    apply st_bind_run in H2 as [(t2 & s4 & [_ ->]%any_ok%st_read_ok & H2)|(_ & r0 & [= _ <-] & _)]; [|done].
    case_match; by injection H2 as _ <-. }
  apply st_bind_run in H as [([[i t'] b'] & s2 & H1%Hb & H)|(_ & r0 & H1%Hb & _)]; [|done].
  apply st_bind_run in H as [(removed & s3 & [_ ->]%any_ok%st_read_ok & H)|(_ & r0 & H & _)]; by injection H as _ <-.
Qed.

(** A publication, whatever it returns, leaves the old chain with the old
    accounts or the new chain with the new accounts. *)
Lemma publish_any ancestor replacement evm supply target g r g' c accts :
  stores g c accts -> wf_evm_accounts evm -> in_u64 (hdr_number ancestor) ->
  Z.of_nat (length c + length replacement) <= U64_MAX ->
  publish_canonical_suffix ancestor replacement (native_of evm) evm supply target g = (r, g') ->
  stores g' c accts \/ stores g' (take (1 + Z.to_nat (hdr_number ancestor)) c ++ replacement) (stored_evm evm).
Proof.
  intros [Hc Ha] Hwf Hanc Hfit H. destruct (publish_stops _ _ _ _ _ _ _ _ _ H) as [[_ ->]|(prev & bst & tip & Hchk & Hstop)]; [by left|].
  pose proof (publication_check_ok _ _ _ _ _ _ _ _ Hc Hanc Hfit Hchk) as Hpb.
  destruct Hstop as [(_ & Hdb & _)|(batch & Hbatch & Hstop)]; [left; unfold stores; by rewrite Hdb|].
  pose proof (batch_installs _ _ _ _ _ _ _ _ _ _ _ Hc Hwf Hanc Hfit Hpb Hbatch) as Hnew.
  unfold stores. destruct Hstop as [r1 g' _ ->|r1 g' jb _ _ ->|r1 g' jb _ _ ->|g' -> _ _]; [by left|by left|by right|by right].
Qed.

Lemma publish_replayed_any branch cp tip evm g c accts r g' :
  stores g c accts -> hdr_number (cp_ancestor cp) = cb_common_height branch -> in_u64 (cb_common_height branch) ->
  wf_evm_accounts evm -> Z.of_nat (length c + length (cb_suffix branch)) <= U64_MAX ->
  publish_replayed branch cp tip (native_of evm) evm g = (r, g') ->
  stores g' c accts \/ stores g' (take (1 + Z.to_nat (cb_common_height branch)) c ++ cb_suffix branch) (stored_evm evm).
Proof.
  intros Hst Hanc Hu Hwf Hfit H. unfold publish_replayed in H.
  apply st_bind_run in H as [(cur & g1 & [_ ->]%any_ok%st_read_ok & H)|(_ & r0 & [= _ <-] & _)]; [|by left].
  destruct (negb _); [injection H as _ <-; by left|].
  apply st_bind_run in H as [(aw & g1 & [_ ->]%any_ok%st_read_ok & H)|(_ & r0 & [= _ <-] & _)]; [|by left].
  apply st_bind_run in H as [(cw & g1 & [_ ->]%any_ok%st_read_ok & H)|(_ & r0 & [= _ <-] & _)]; [|by left].
  destruct (_ || _); [injection H as _ <-; by left|].
  apply st_bind_run in H as [(fm & g1 & [_ ->]%any_ok%st_read_ok & H)|(_ & r0 & [= _ <-] & _)]; [|by left].
  apply st_bind_run in H as [(am & g1 & [_ ->]%st_res_ok & H)|(_ & r0 & [= _ <-] & _)]; [|by left].
  assert (forall r1 g1, on_db (suffix_supply_totals (cp_ancestor cp) cur (cb_suffix branch)) g = (r1, g1) -> stores g1 c accts) as Hs.
  { intros r1 g1 E. unfold on_db in E. destruct (suffix_supply_totals _ _ _ (gn_db g)) as [q db] eqn:Es. injection E as _ <-.
    destruct Hst. split; cbn [gn_db]; by eapply supply_run_any. }
  apply st_bind_run in H as [(totals & g2 & H2%Hs & H)|(_ & r0 & H2%Hs & _)]; [|by left].
  unfold any in H. destruct (publish_canonical_suffix _ _ _ _ _ _ g2) as [q g3] eqn:Ep. injection H as _ <-.
  rewrite <- Hanc in Hu |- *. by eapply publish_any.
Qed.

Lemma remove_candidates_any hashes n r n' :
  node_remove_candidate_blocks hashes n = (r, n') ->
  n' = n \/ exists g g', n = Full g /\ n' = Full g' /\ forall c accts, stores g c accts -> stores g' c accts.
Proof.
  unfold node_remove_candidate_blocks, on_full. destruct n as [g|f]; [|intros [= _ <-]; by left]. intros H. right.
  destruct (any (on_db (remove_candidate_blocks hashes)) g) as [q g'] eqn:E. injection H as _ <-. exists g, g'.
  split; [done|]. split; [done|]. intros c accts [Hc Ha].
  assert (leaves candidate_keys (remove_candidate_blocks hashes)) as Hl.
  { unfold remove_candidate_blocks. apply leaves_bind; [|intros _; apply leaves_flush]. apply leaves_for. intros h _.
    repeat (apply leaves_bind; [|intros _]); apply leaves_remove; unfold candidate_keys;
      [apply (prefix_app (B "candidate:") (B "block:" ++ _))|apply (prefix_app (B "candidate:") (B "work:" ++ _))|
       apply (prefix_app (B "candidate:") (B "quarantine:" ++ _))]. }
  unfold any, on_db in E. destruct (remove_candidate_blocks hashes (gn_db g)) as [q1 db] eqn:Er. injection E as _ <-.
  split; cbn [gn_db].
  - eapply chain_rep_other; [exact Hc|]. intros k Hk. eapply Hl; [exact Er|].
    destruct (candidate_keys k) eqn:Ec; [|done]. apply candidate_other in Ec as [? _]. congruence.
  - eapply account_rep_other; [exact Ha|]. intros k Hk. eapply Hl; [exact Er|].
    destruct (candidate_keys k) eqn:Ec; [|done]. apply candidate_other in Ec as [_ ?]. unfold account_keys in *. congruence.
Qed.
End errors.

(** ** The whole publication *)

Section fork.
Context {S : Sled} {HX : HexCodec} {D : Digests} {U : U256Ops} {R : Revm} {SE : Secp} {RX : RandomX} {BP : BuildProfile}.
Context {JB : Json Block} {JH : Json BlockHeader} {JT : Json Transaction} {JR : Json StoredReceipt}.
Context {JE : Json (list SerializedEvmSnapshotEntry)}.
Context {IO : FileIo} {JM : Json GenerationManifest} {JC : Json ReplayCheckpoint}.
Context {JP : Json GenerationPublicationRecord} {JS : Json SuffixPublicationRecord} {CM : CompactManifest}.
Context {HO : Host} {SI : SnapshotIo} {JX : Json ExecutionSnapshot} {JG : Json GenerationSnapshot}.

(** A node whose store represents some chain and accounts. *)
Definition well_stored (n : NodeStorage) : Prop := exists g c accts, n = Full g /\ stores g c accts.

Lemma overlay_all_coherent rc gh blocks o o' :
  coherent (ov_native_accounts o) (ov_evm_state o) -> Forall block_amounts_ok blocks ->
  overlay_apply_all o rc gh blocks = (o', Ok tt) -> coherent (ov_native_accounts o') (ov_evm_state o').
Proof.
  intros Hco Hbs. revert o Hco. induction Hbs as [|b blocks Hb Hbs IH]; intros o Hco H; [by injection H as <-|].
  cbn [overlay_apply_all] in H. destruct (overlay_apply o rc gh b) as [o1 [[]|e|]] eqn:E; [|done..].
  apply (IH o1); [|exact H]. unfold overlay_apply in E. destruct (overlay_check o rc gh b) as [[]|e|]; [|done..].
  destruct (validate_replay_state_root _ _ b _) as [[native evm] [[]|e|]] eqn:Er; [|done..]. injection E as <-.
  apply validate_replay_ok in Er. by eapply replayed_coherent.
Qed.

(** A direct extension that does not apply changes nothing. *)
Lemma commit_direct_false config branch n n' :
  commit_direct_candidate_extension config branch n = (Ok false, n') -> n' = n.
Proof.
  unfold commit_direct_candidate_extension. case_bool_decide as Hs; [by intros [= <-]|].
  intros (gh & n1 & [_ ->]%st_read_ok & H)%st_bind_ok. apply st_bind_ok in H as (b & n1 & H1 & H).
  destruct b; cbn [negb] in H.
  - apply st_bind_ok in H as ([] & n2 & _ & H). apply st_bind_ok in H as ([] & n3 & _ & H). by apply st_ret_ok in H as [? _].
  - apply st_ret_ok in H as [_ ->]. unfold on_full in H1. destruct n as [g|f]; [|by injection H1 as <-].
    destruct (commit_suffix _ _ _ g) as [r g'] eqn:E. injection H1 as -> <-. f_equal. unfold commit_suffix in E.
    apply st_bind_ok in E as (best & g1 & [_ ->]%any_ok%st_read_ok & E). destruct (_ || _); [by apply st_ret_ok in E as [_ ->]|].
    apply st_bind_ok in E as (na & g1 & _ & E). apply st_bind_ok in E as (ev & g2 & _ & E).
    apply st_bind_ok in E as ([] & g3 & _ & E). apply st_bind_ok in E as ([] & g4 & _ & E). by apply st_ret_ok in E as [? _].
Qed.

Lemma replay_stored_state others rc gh numbers o n o' n' :
  (forall m n, well_stored n -> well_stored (others m n)) -> well_stored n ->
  replay_stored others rc gh numbers o n = (Ok o', n') -> well_stored n'.
Proof.
  intros Hrely. revert o n. induction numbers as [|number numbers IH]; intros o n Hn H; [by apply st_ret_ok in H as [_ ->]|].
  cbn [replay_stored] in H. apply st_bind_ok in H as ([] & n1 & [= <-] & H).
  apply st_bind_ok in H as (b & n2 & [_ ->]%st_read_ok & H). apply st_bind_ok in H as (o1 & n3 & [_ ->]%st_res_ok & H).
  apply st_bind_ok in H as ([] & n4 & H4 & H). assert (n4 = others (AtRead number) n) as ->.
  { case_match; [by apply st_res_ok in H4 as [_ ->]|by apply st_ret_ok in H4 as [_ ->]]. }
  eapply IH; [|exact H]. by apply Hrely.
Qed.

(** What the first lock established. *)
Lemma capture_ok dir branch g c accts cp :
  stores g c accts -> in_u64 (cb_common_height branch) -> capture_replay dir branch (Full g) = Ok cp ->
  hdr_number (cp_ancestor cp) = cb_common_height branch.
Proof.
  intros [Hc _] Hu H. unfold capture_replay in H. apply res_bind_ok in H as (a & Ha & H). apply map_err_ok in Ha.
  destruct (header_by_number_ok _ _ _ _ Hc Hu Ha) as (b & Hb & <-).
  assert (hdr_number (blk_header b) = cb_common_height branch) as E.
  { fold (block_number b). rewrite (cr_numbers _ _ Hc _ _ Hb). rewrite Z2Nat.id by apply Hu. done. }
  destruct (negb _); [done|]. apply res_bind_ok in H as ([] & _ & H). apply res_bind_ok in H as ([] & _ & H).
  apply res_bind_ok in H as (f & _ & H). apply res_bind_ok in H as (sn & _ & H). apply res_bind_ok in H as (sp & _ & H).
  destruct (_ || _); [done|]. apply res_bind_ok in H as (hist & _ & H). destruct (_ <? _); [done|].
  apply res_bind_ok in H as ([] & _ & H). apply res_bind_ok in H as (best & _ & H). by injection H as <-.
Qed.

(** [c'] beats [c]: more work, or the same work and the smaller tip hash. *)
Definition beats (c' c : list Block) : Prop :=
  canonical_work c < canonical_work c' \/
  (canonical_work c' = canonical_work c /\
   exists t' t, last c' = Some t' /\ last c = Some t /\
     bytes_ltb (header_hash (blk_header t')) (header_hash (blk_header t)) = true).

Lemma publish_replayed_ok branch cp tip evm g c accts g' :
  stores g c accts -> hdr_number (cp_ancestor cp) = cb_common_height branch -> in_u64 (cb_common_height branch) ->
  last (cb_suffix branch) = Some tip -> wf_evm_accounts evm ->
  Z.of_nat (length c + length (cb_suffix branch)) <= U64_MAX ->
  publish_replayed branch cp (blk_header tip) (native_of evm) evm g = (Ok tt, g') ->
  let c' := take (1 + Z.to_nat (cb_common_height branch)) c ++ cb_suffix branch in
  (exists old, last c = Some old /\ blk_header old = cp_active_tip cp) /\ beats c' c /\ stores g' c' (stored_evm evm).
Proof.
  intros Hst Hanc Hu Htip Hwf Hfit H c'. unfold publish_replayed in H.
  apply st_bind_ok in H as (cur & g1 & [Hbest ->]%any_ok%st_read_ok & H).
  destruct (best_header_ok _ _ _ (proj1 Hst) Hbest) as (old & Hlast & <- & Hnum).
  case_bool_decide as Etip; [|done]. cbn [negb] in H.
  apply st_bind_ok in H as (aw & g1 & [Haw ->]%any_ok%st_read_ok & H).
  apply st_bind_ok in H as (cw & g1 & [Hcw ->]%any_ok%st_read_ok & H).
  destruct ((_ <? cw) || _) eqn:Ecmp; [done|].
  apply st_bind_ok in H as (found & g1 & [_ ->]%any_ok%st_read_ok & H). apply st_bind_ok in H as (active & g1 & [_ ->]%st_res_ok & H).
  apply st_bind_ok in H as (totals & g2 & [H2 Hf2]%on_db_ok & H%any_ok).
  assert (stores g2 c accts) as Hst2 by (destruct Hst; by eapply supply_run).
  rewrite <- Hanc in Hu. destruct (publish_succeeds _ _ _ _ _ _ _ _ _ Hst2 Hwf Hu Hfit H) as [Hlt Hst']. rewrite Hanc in Hlt, Hst', Hu.
  split; [by exists old|]. split; [|exact Hst'].
  assert (last c' = Some tip) as Hlast' by (unfold c'; by rewrite last_app, Htip).
  apply (stored_work_ok _ c) in Haw; [|apply Hst|unfold in_u64, U64_MAX in *; destruct (cb_suffix branch); [done|cbn [length] in *; lia]].
  fold (block_number old) in Hcw. rewrite Hnum in Hcw.
  assert (length c <> 0%nat) as Hne by lia.
  apply (stored_work_ok _ c) in Hcw; [|apply Hst|destruct (cb_suffix branch); [done|cbn [length] in *; lia]].
  rewrite take_ge in Hcw by lia.
  change (fun work b => sat_add U128_MAX work (work_for_target (hdr_difficulty_target (blk_header b)))) with add_work in Ecmp.
  assert (fold_left add_work (cb_suffix branch) aw = canonical_work c') as E.
  { unfold c'. rewrite canonical_work_fold, fold_left_app, Haw, canonical_work_fold. do 2 f_equal. f_equal. lia. }
  rewrite E, Hcw in Ecmp. apply orb_false_iff in Ecmp as [E1 E2]. apply Z.ltb_ge in E1.
  destruct (Z.eqb_spec (canonical_work c') (canonical_work c)) as [Eq|]; [right|left; lia]. split; [done|].
  exists tip, old. split; [done|]. split; [done|]. cbn [andb] in E2. by apply negb_false_iff in E2.
Qed.

(** The replay of [branch] that a publication makes: from an execution
    snapshot, with every check, the blocks up to the ancestor and the suffix. *)
Record replayed_branch (config : NodeConfig) (branch : CandidateBranch)
    (cp : Capture) (mid : list Block) (start o : ExecutionReplayOverlay) (tip : Block) (evm : EvmStateSnapshot) : Prop := {
  rb_ancestor : hdr_number (cp_ancestor cp) = cb_common_height branch;
  rb_start : overlay_from_snapshot (cp_snapshot cp) (cp_replay_parent cp) (cp_replay_history cp) = Ok start;
  rb_replay : overlay_apply_all start (nc_replay config) (cp_genesis_hash cp) (mid ++ cb_suffix branch) = (o, Ok tt);
  rb_mid : length mid =
    length (range_incl (sat_add U64_MAX (es_height (cp_snapshot cp)) 1) (cb_common_height branch));
  rb_tip : last (cb_suffix branch) = Some tip /\ ov_parent o = blk_header tip;
  rb_evm : evm_accounts_from_revm_state (ov_evm_state o) = Ok evm;
}.

(** The chain and the accounts it is replaced by. *)
Definition replaced (branch : CandidateBranch) (c : list Block) : list Block :=
  take (1 + Z.to_nat (cb_common_height branch)) c ++ cb_suffix branch.

(** Amounts within their types, from the snapshot to the new tip. *)
Definition amounts_fit (branch : CandidateBranch) (mid : list Block) (start : ExecutionReplayOverlay)
    (evm : EvmStateSnapshot) (c : list Block) : Prop :=
  coherent (ov_native_accounts start) (ov_evm_state start) /\ Forall block_amounts_ok (mid ++ cb_suffix branch) /\
  wf_evm_accounts evm /\ Z.of_nat (length c + length (cb_suffix branch)) <= U64_MAX.

(** What a publication of [branch] installed in [n'] over the chain [c] that the
    last lock found. *)
Record published (others : Others) (branch : CandidateBranch) (n' : NodeStorage)
    (cp : Capture) (mid : list Block) (start : ExecutionReplayOverlay) (old : Block) (evm : EvmStateSnapshot)
    (g : Generation) (c : list Block) : Prop := {
  pu_found : exists n accts, others AtPublish n = Full g /\ stores g c accts;
  pu_installed :
    amounts_fit branch mid start evm c ->
    last c = Some old /\ blk_header old = cp_active_tip cp /\ beats (replaced branch c) c /\
    exists g', n' = Full g' /\ stores g' (replaced branch c) (stored_evm evm);
}.

(** What the steps of the other threads alone make of a node. *)
Inductive by_others (others : Others) (n : NodeStorage) : NodeStorage -> Prop :=
| by_none : by_others others n n
| by_step m n1 : by_others others n n1 -> by_others others n (others m n1).

Lemma replay_stored_others others rc gh numbers o n r n' n0 :
  by_others others n0 n -> replay_stored others rc gh numbers o n = (r, n') -> by_others others n0 n'.
Proof.
  revert o n. induction numbers as [|number numbers IH]; intros o n Hn H; [by injection H as _ <-|]. cbn [replay_stored] in H.
  unfold st_bind at 1, relock in H. pose proof (by_step others n0 (AtRead number) n Hn) as Hn1.
  apply st_bind_run in H as [(b & n2 & [_ ->]%st_read_ok & H)|(_ & r0 & [= _ <-] & _)]; [|done].
  apply st_bind_run in H as [(o1 & n2 & [_ ->]%st_res_ok & H)|(_ & r0 & [= _ <-] & _)]; [|done].
  apply st_bind_run in H as [([] & n2 & H2 & H)|(_ & r0 & H2 & _)].
  - assert (n2 = others (AtRead number) n) as ->; [|by eapply IH]. case_match; by inversion H2.
  - case_match; by injection H2 as _ <-.
Qed.

(** A publication that the direct extension leaves alone, up to the last lock,
    and what the last lock does. *)
Lemma publication_run others dir config branch n0 r n' :
  (forall m n, well_stored n -> well_stored (others m n)) -> well_stored n0 -> in_u64 (cb_common_height branch) ->
  stage_and_publish_candidate others dir config branch n0 = (r, n') ->
  (exists r1, commit_direct_candidate_extension config branch n0 = (r1, n') /\ r1 <> Ok false /\ (is_ok r = is_ok r1)) \/
  (is_ok r = false /\ by_others others n0 n') \/
  exists cp mid start o tip evm n,
    replayed_branch config branch cp mid start o tip evm /\ by_others others n0 (others AtPublish n) /\
    well_stored (others AtPublish n) /\
    (on_full (publish_replayed branch cp (blk_header tip) (ov_native_accounts o) evm)
       (Err "candidate replay requires full storage"%string) ;!
     node_remove_candidate_blocks (map (fun b => header_hash (blk_header b)) (cb_suffix branch)))
      (others AtPublish n) = (r, n').
Proof.
  intros Hrely Hn0 Hu H. unfold stage_and_publish_candidate in H.
  apply st_bind_run in H as [(b & n1 & H1 & H)|(Hr & r0 & H1 & Hr0)].
  2: { left. exists r0. split; [done|]. split; [by intros ->|by rewrite Hr]. }
  destruct b; [left; injection H as <- <-; by exists (Ok true)|right]. apply commit_direct_false in H1 as ->.
  unfold st_bind at 1, relock at 1 in H. pose proof (by_step others n0 AtCapture n0 (by_none _ _)) as Hby.
  pose proof (Hrely AtCapture n0 Hn0) as Hw1. set (n1 := others AtCapture n0) in *. clearbody n1.
  destruct Hw1 as (g1 & c1 & accts1 & -> & Hst1).
  assert (forall x, (x, Full g1) = (r, n') -> is_ok x = false -> is_ok r = false /\ by_others others n0 n') as Hstop.
  { by intros x [= <- <-] ?. }
  apply st_bind_run in H as [(cp & n2 & [Hcp ->]%st_read_ok & H)|(Hr & r0 & [= _ <-] & _)]; [|by left].
  pose proof (capture_ok _ _ _ _ _ _ Hst1 Hu Hcp) as Hanc.
  apply st_bind_run in H as [(start & n2 & [Hstart ->]%st_res_ok & H)|(Hr & r0 & [= _ <-] & _)]; [|by left].
  assert (hdr_number (ov_parent start) = es_height (cp_snapshot cp)) as Hheight.
  { unfold overlay_from_snapshot in Hstart. destruct (Z.eqb_spec (es_height (cp_snapshot cp)) (hdr_number (cp_replay_parent cp)));
      [|by rewrite orb_true_r in Hstart]. destruct (_ || _); [done|]. by injection Hstart as <-. }
  assert (well_stored (Full g1)) as Hw1 by (by exists g1, c1, accts1).
  apply st_bind_run in H as [(o1 & n2 & Hmid & H)|(Hr & r0 & Hmid & _)].
  2: { left. split; [done|]. by eapply replay_stored_others. }
  pose proof (replay_stored_others _ _ _ _ _ _ _ _ _ Hby Hmid) as Hby2.
  pose proof (replay_stored_state _ _ _ _ _ _ _ _ Hrely Hw1 Hmid) as Hn2.
  apply replay_stored_ok in Hmid as (mid & Hlen & Hmid). rewrite Hheight in Hlen.
  apply st_bind_run in H as [(o & n3 & [Ho ->]%st_res_ok & H)|(Hr & r0 & [= _ <-] & _)]; [|by left]. apply replay_suffix_ok in Ho.
  apply st_bind_run in H as [(evm & n3 & [Hevm ->]%st_res_ok & H)|(Hr & r0 & [= _ <-] & _)]; [|by left].
  apply st_bind_run in H as [(tip & n3 & [Htip ->]%st_res_ok & H)|(Hr & r0 & [= _ <-] & _)]; [|by left].
  destruct (last (cb_suffix branch)) as [tip'|] eqn:Hlast; [|done]. injection Htip as ->.
  case_bool_decide as Epar; cbn [negb] in H; [|injection H as <- <-; by left].
  unfold st_bind at 1, relock at 1 in H. right. exists cp, mid, start, o, tip, evm, n2.
  split; [split; try done; by eapply overlay_apply_all_app|]. split; [by apply by_step|]. split; [by apply Hrely|exact H].
Qed.

End fork.

(** ** Example: a heavier block two *)

Section fork_witness.
#[local] Existing Instances mem_sled hex_codec toy_digests mem_files mem_snapshots.

Definition fork_genesis : Hash256 := Eval vm_compute in header_hash numbered_zero.
Definition fork_parent_hash : Hash256 := Eval vm_compute in header_hash replay_parent.

(** The block of the replay example, sealed for this genesis. *)
Definition fork_block : Block :=
  match @blq_rx_hash native_profile toy_digests toy_randomx (blk_header replay_block) fork_genesis with
  | Ok r => {| blk_header := with_mix_hash (blk_header replay_block) (mix_hash r);
               blk_transactions := []; blk_receipts := [] |}
  | _ => replay_block
  end.

(** The block it replaces: height two, the easiest target. *)
Definition fork_old : Block := empty_block {|
  hdr_parent_hash := fork_parent_hash; hdr_number := 2; hdr_state_root := HASH_ZERO;
  hdr_transactions_root := HASH_ZERO; hdr_receipts_root := HASH_ZERO; hdr_beneficiary := HASH_ZERO;
  hdr_difficulty_target := HASH_MAX; hdr_base_fee_per_gas := 0; hdr_gas_limit := 0; hdr_gas_used := 0;
  hdr_timestamp_seconds := 130; hdr_pow_algorithm := []; hdr_pow_epoch := 0; hdr_extra_nonce := 0;
  hdr_mix_hash := HASH_MAX; hdr_nonce := 9 |}.

Definition fork_chain : list Block := direct_chain ++ [fork_old].
Definition fork_branch : CandidateBranch :=
  {| cb_common_height := 1; cb_common_hash := fork_parent_hash; cb_suffix := [fork_block] |}.

Definition fork_profile : list byte := Eval vm_compute in consensus_profile_for_genesis (BP := native_profile) fork_genesis.
Definition fork_snapshot : ExecutionSnapshot := {|
  es_generation_id := 1; es_height := 1; es_block_hash := fork_parent_hash; es_state_root := HASH_ZERO;
  es_profile_fingerprint := fork_profile; es_finalized_height := 0;
  es_native_accounts := sample_accounts; es_evm_accounts := put_over sample_accounts ∅ |}.

Definition fork_manifest : GenerationManifest := manifest_of 2 fork_parent_hash None.
Definition fork_target : GenerationManifest := target_manifest fork_manifest (blk_header fork_block) fork_profile.

Definition fork_compact : CompactManifest := {| manifest_to_vec := @to_vec _ (table_json [fork_manifest; fork_target]) |}.
Definition fork_checksums : list GenerationPublicationRecord :=
  omap (fun m => match @manifest_checksum toy_digests fork_compact m with
                 | Ok c => Some {| gp_generation_id := 1; gp_manifest_checksum := c |} | _ => None end)
    [fork_manifest; fork_target].

Definition fork_jb : Json Block := table_json (fork_chain ++ [fork_block]).
Definition fork_jh : Json BlockHeader := table_json (map blk_header (fork_chain ++ [fork_block])).
Definition fork_jm : Json GenerationManifest := table_json [fork_manifest; fork_target].
Definition fork_jc : Json ReplayCheckpoint := table_json
  [{| rcp_generation_id := 1; rcp_height := 2; rcp_block_hash := gm_canonical_hash fork_target; rcp_state_root := gm_state_root fork_target |}].
Definition fork_jp : Json GenerationPublicationRecord := table_json fork_checksums.
Definition fork_js : Json SuffixPublicationRecord :=
  table_json [{| sp_previous_manifest := fork_manifest; sp_target_manifest := fork_target |}].
Definition fork_jx : Json ExecutionSnapshot := table_json [fork_snapshot].
#[local] Instance generation_snapshot_eq_dec : EqDecision GenerationSnapshot.
Proof. solve_decision. Defined.
Definition fork_jg : Json GenerationSnapshot := table_json [].

Definition fork_start : @ExecutionReplayOverlay u256_z := {|
  ov_native_accounts := sample_accounts;
  ov_evm_state := @apply_accounts_to_revm_state u256_z (@revm_state_of_accounts u256_z (put_over sample_accounts ∅)) sample_accounts;
  ov_parent := replay_parent; ov_difficulty_history := [numbered_zero; replay_parent] |}.
Definition fork_overlay : @ExecutionReplayOverlay u256_z :=
  (overlay_apply_all (R := toy_revm u256_z) (SE := toy_secp) (BP := native_profile) (RX := toy_randomx)
    fork_start replay_config fork_genesis [fork_block]).1.
Definition fork_accounts : res string EvmStateSnapshot := @evm_accounts_from_revm_state u256_z (ov_evm_state fork_overlay).
Definition fork_evm : EvmStateSnapshot := default (∅ : EvmStateSnapshot) (found fork_accounts).
Definition fork_je : Json (list SerializedEvmSnapshotEntry) := table_json [snapshot_entries fork_evm].

Definition fork_host : @Host mem_sled := {|
  disk_usage_bytes := fun _ => Ok 0; partial_usage_bytes := fun _ => Ok 0; filesystem_free_bytes := None;
  filesystem_free_after := None; active_generation := fun _ => Ok None; remove_old_files := fun _ => Ok tt;
  cgroup_memory := fun _ => (None, None, None); append_block := fun _ => Ok tt; append_header := fun _ => Ok tt |}.

Definition fork_config : NodeConfig := {|
  nc_full := true; nc_replay := replay_config; nc_pruning_enabled := false; nc_retain_finalized_checkpoints := false;
  nc_retain_snapshots := true; nc_max_storage_bytes := 0; nc_prune_trigger_percent := 90; nc_filesystem_reserve_bytes := 0 |}.

Definition fork_generation : Generation := {|
  gn_db := store_of fork_jb fork_jh fork_chain;
  gn_files := fun f => match f with ManifestFile => Some [] | _ => None end |}.

Definition fork_dir : SnapshotDir := [(execution_snapshot_file 1, [])].

#[local] Existing Instances u256_z toy_secp toy_randomx native_profile fork_jb fork_jh fork_je fork_jm fork_jc fork_jp fork_js
  fork_compact fork_jx fork_jg fork_host.
#[local] Existing Instance SampleCodecs.JT.
#[local] Existing Instance SampleCodecs.JR.
#[local] Instance fork_revm : Revm := toy_revm u256_z.

Definition fork_run : res string unit * NodeStorage :=
  stage_and_publish_candidate (fun _ n => n) (Some fork_dir) fork_config fork_branch (Full fork_generation).

Lemma fork_generation_stored : well_stored (Full fork_generation).
Proof.
  exists fork_generation, fork_chain, (put_over sample_accounts ∅). split; [reflexivity|]. apply store_of_stores.
  - repeat (apply List.Forall_cons; [by vm_compute|]). apply List.Forall_nil.
  - intros [|[|[|i]]] b H; [by injection H as <-..|by destruct i].
  - by vm_compute.
Qed.

Definition node_tip (n : NodeStorage) : option BlockHeader :=
  match node_best_header n with Ok h => Some h | _ => None end.

End fork_witness.
