(* ===== verification/Rebuild.v ===== *)
(** Replaying whole chains: the reorganisation that rebuilds the store from
    genesis, its rollback, and the maintenance command that shortens the
    chain. *)

From Stdlib Require Import ZArith Lia Strings.String Strings.Byte.
From stdpp Require Import sorting gmap fin_maps base list.
From S2P Require Import Prelude Externals Primitives Canonical Rlp RawTx Pow Consensus State StateRoot.
From S2P Require Import Transition Evm Difficulty BlockExec Mempool Admission Replay Network.
From S2P Require Import Sled AccountStore BlockStore ChainStore Generation Publish CandidateStore NodeStore NodeState.
From S2P Require Import Supply Snapshots Miner Branch Import Reorg Direct Fork.
#[local] Open Scope Z_scope.

(** ** Clearing *)

Section clearing.
Context {S : Sled} {HX : HexCodec} {D : Digests} {JB : Json Block} {JH : Json BlockHeader} {HR : SledReliable}.

Definition without (m : Contents) (p : list byte) : Contents :=
  fold_left (fun m k => delete k m) (map fst (prefix_entries p m)) m.

Lemma without_lookup m p k : without m p !! k = if has_prefix p k then None else m !! k.
Proof.
  unfold without. destruct (has_prefix p k) eqn:E; [by apply remove_scan_lookup|].
  rewrite fold_delete_lookup. case_decide as Hin; [|done]. apply list_elem_of_fmap in Hin as ([k' v] & -> & Hin).
  apply elem_of_prefix_entries in Hin as [_ Hp]. cbn in *. congruence.
Qed.

Lemma clear_runs s : exists s', clear_canonical_state s = (Ok tt, s') /\ chain_rep (contents s') [] /\ account_rep (contents s') ∅.
Proof.
  assert (runs clear_canonical_state s (Ok tt) (delete (B "best:number") (fold_left without CANONICAL_PREFIXES (contents s)))) as Hrun.
  { unfold clear_canonical_state. eapply runs_bind; [apply (runs_for _ _ without)|].
    - intros p s1 _. eapply runs_bind; [apply runs_read, scan_all_reliable|]. intros s2 <-.
      apply (runs_for _ _ (fun m k => delete k m)). intros k s3 _. apply runs_remove.
    - intros s1 <-. eapply runs_bind; [apply runs_remove|]. intros s2 <-. apply runs_flush. }
  destruct Hrun as (s' & H & Hc). exists s'. split; [exact H|]. rewrite Hc.
  assert (forall p k, p ∈ CANONICAL_PREFIXES -> has_prefix p k = true ->
    delete (B "best:number") (fold_left without CANONICAL_PREFIXES (contents s)) !! k = None) as Hnone.
  { intros p k Hp Hk. apply lookup_delete_None. right. generalize (contents s). clear Hc H. revert Hp.
    generalize CANONICAL_PREFIXES. intros l. induction l as [|q l IH] using rev_ind; [by intros ?%not_elem_of_nil|].
    intros Hp m. rewrite fold_left_app. cbn [fold_left]. rewrite without_lookup. destruct (has_prefix q k) eqn:Eq; [done|].
    apply elem_of_app in Hp as [Hp|Hp]; [by apply IH|]. apply list_elem_of_singleton in Hp as ->. congruence. }
  split.
  - apply chain_rep_nil; [|apply lookup_delete_eq]. intros p k Hp. apply Hnone. unfold CANONICAL_PREFIXES.
    rewrite !elem_of_cons in *. tauto.
  - eapply account_rep_other; [apply rep_empty|]. intros k Hk. rewrite lookup_empty. eapply Hnone; [|exact Hk].
    unfold CANONICAL_PREFIXES. rewrite !elem_of_cons. tauto.
Qed.
End clearing.

(** ** Replaying blocks into a node *)

Section replaying.
Context {S : Sled} {HX : HexCodec} {D : Digests} {U : U256Ops} {R : Revm} {SE : Secp} {RX : RandomX} {BP : BuildProfile}.
Context {JB : Json Block} {JH : Json BlockHeader} {JT : Json Transaction} {JR : Json StoredReceipt}.
Context {JE : Json (list SerializedEvmSnapshotEntry)}.
Context {IO : FileIo} {JM : Json GenerationManifest} {JC : Json ReplayCheckpoint}.
Context {JP : Json GenerationPublicationRecord} {JS : Json SuffixPublicationRecord} {CM : CompactManifest}.
Context {HO : Host} {HR : SledReliable}.

Lemma insert_full_chain b g u g' c :
  chain_rep (contents (gn_db g)) c -> block_number b = Z.of_nat (length c) -> list_fits (c ++ [b]) ->
  insert_full_block b g = (Ok u, g') -> chain_rep (contents (gn_db g')) (c ++ [b]).
Proof.
  intros Hc Hn Hf H. unfold insert_full_block in H.
  apply st_bind_ok in H as ([] & g1 & H1 & H). apply st_bind_ok in H as ([] & g4 & [H4 _]%on_db_ok & H).
  apply refresh_db in H. rewrite H.
  eapply chain_rep_other; [|intros k Hk; eapply touches_snapshot; [exact H4|by apply chain_key_other]].
  assert (forall A (m : St A) x s s', touches account_keys m -> m s = (Ok x, s') ->
    chain_rep (contents s) (c ++ [b]) -> chain_rep (contents s') (c ++ [b])) as Hacc.
  { intros A m x s s' Ht Hm Hs. by eapply account_run_chain. }
  assert (forall s s' n, set_reward_indexed_to n s = (Ok tt, s') ->
    chain_rep (contents s) (c ++ [b]) -> chain_rep (contents s') (c ++ [b])) as Hidx.
  { intros s s' n Hm Hs. eapply chain_rep_other; [exact Hs|]. intros k Hk. eapply touches_reward_index; [exact Hm|].
    by apply chain_key_other. }
  destruct (existsb _ _).
  - apply st_bind_ok in H1 as (pt & g0 & [_ ->]%st_read_ok & H1). apply st_bind_ok in H1 as (state & g0 & [_ ->]%st_read_ok & H1).
    apply st_bind_ok in H1 as (sim & g0 & [_ ->]%st_res_ok & H1). apply st_bind_ok in H1 as ([] & g2 & [H2 _]%on_db_ok & H1).
    apply st_bind_ok in H1 as ([] & g3 & [H3 _]%on_db_ok & [H1 _]%on_db_ok).
    eapply Hidx; [exact H1|]. eapply Hacc; [apply touches_persist|exact H3|]. by eapply chain_rep_snoc.
  - apply st_bind_ok in H1 as (pt & g0 & [_ ->]%st_read_ok & H1). apply st_bind_ok in H1 as (native & g0 & [_ ->]%st_read_ok & H1).
    apply st_bind_ok in H1 as ([[m rs] gas] & g0 & [_ ->]%st_res_ok & H1). apply st_bind_ok in H1 as ([] & g2 & [H2 _]%on_db_ok & H1).
    apply st_bind_ok in H1 as ([] & g3 & [H3 _]%on_db_ok & [H1 _]%on_db_ok).
    eapply Hidx; [exact H1|]. eapply Hacc; [apply touches_put_accounts|exact H3|]. by eapply chain_rep_snoc.
Qed.

Lemma node_insert_chain b n u n' c :
  holds c n -> block_number b = Z.of_nat (length c) -> list_fits (c ++ [b]) ->
  any (node_insert_block append_block b) n = (Ok u, n') -> holds (c ++ [b]) n'.
Proof.
  intros (g & -> & Hc) Hn Hf H. apply any_ok in H. unfold node_insert_block, on_full in H.
  destruct (insert_full_block b g) as [r g'] eqn:E. injection H as -> <-. exists g'. split; [done|].
  by eapply insert_full_chain.
Qed.

(** A full node that holds a chain and its accounts. *)
Definition held (c : list Block) (accts : EvmStateSnapshot) (n : NodeStorage) : Prop :=
  exists g, n = Full g /\ stores g c accts.

Lemma held_holds c accts n : held c accts n -> holds c n.
Proof. intros (g & -> & Hc & _). by exists g. Qed.

(** The accounts a node stores after a block: the result of the transition, for
    an EVM block laid over what was stored. *)
Definition inserted (c : list Block) (accts : EvmStateSnapshot) (b : Block) (accts' : EvmStateSnapshot) : Prop :=
  if existsb is_evm_transaction (blk_transactions b) then
    exists evm rs gas new,
      execute_evm_state_transition_in_place (revm_state_of_accounts accts) b (tip_timestamp c) = (evm, Ok (rs, gas)) /\
      evm_accounts_from_revm_state evm = Ok new /\ accts' = (stored_account <$> evm) ∪ accts
  else
    exists m rs gas, simulate_state_transition_from_accounts (native_of accts) b (tip_timestamp c) = Ok (m, rs, gas) /\
      accts' = put_over m accts.

(** The accounts after inserting blocks one after the other. *)
Fixpoint inserted_all (c : list Block) (accts : EvmStateSnapshot) (blocks : list Block) (accts' : EvmStateSnapshot) : Prop :=
  match blocks with
  | [] => accts' = accts
  | b :: blocks => exists accts1, inserted c accts b accts1 /\ inserted_all (c ++ [b]) accts1 blocks accts'
  end.

(** Blocks whose fields and whose execution on the accounts before them fit the
    types of the code. *)
Fixpoint typed_chain (c : list Block) (accts : EvmStateSnapshot) (blocks : list Block) : Prop :=
  match blocks with
  | [] => True
  | b :: blocks =>
      wf_header (blk_header b) /\ Forall wf_tx (blk_transactions b) /\
      (existsb is_evm_transaction (blk_transactions b) = true -> forall sim,
         simulate_evm_state_transition_from_state (revm_state_of_accounts accts) b (tip_timestamp c) = Ok sim ->
         typed_state (sim_state sim)) /\
      forall accts1, inserted c accts b accts1 -> typed_chain (c ++ [b]) accts1 blocks
  end.

Lemma node_insert_held b n u n' c accts blocks :
  held c accts n -> block_number b = Z.of_nat (length c) -> list_fits (c ++ [b]) -> typed_chain c accts (b :: blocks) ->
  any (node_insert_block append_block b) n = (Ok u, n') ->
  exists accts1, inserted c accts b accts1 /\ held (c ++ [b]) accts1 n' /\ typed_chain (c ++ [b]) accts1 blocks.
Proof.
  intros (g & -> & Hc & Ha) Hn Hf (Hh & Hts & Hty & Hrest) H. apply any_ok in H. unfold node_insert_block, on_full in H.
  destruct (insert_full_block b g) as [r g'] eqn:E. injection H as -> <-. destruct u.
  assert (exists accts1, inserted c accts b accts1 /\ stores g' (c ++ [b]) accts1) as (accts1 & Hi & Hst).
  { unfold inserted. destruct (existsb is_evm_transaction (blk_transactions b)) eqn:Hev.
    - destruct (insert_evm_rep b g g' c accts Hc Ha Hn Hf Hev (Hty eq_refl) E) as (Hc' & evm & rs & gas & new & Hx & Hnew & Ha').
      eexists. split; [|by split]. by exists evm, rs, gas, new.
    - destruct (insert_plain_rep b g g' c accts Hc Ha Hn Hf Hh Hts Hev E) as (Hc' & m & rs & gas & Hsim & Ha').
      eexists. split; [|by split]. by exists m, rs, gas. }
  exists accts1. split; [done|]. split; [by exists g'|by apply Hrest].
Qed.

(** The checks of a block may repair the index of the spool, nothing else. *)
Lemma difficulty_header_held hash n r n' c accts :
  held c accts n -> node_difficulty_header_by_hash hash n = (r, n') -> held c accts n'.
Proof.
  intros Hn H. unfold node_difficulty_header_by_hash in H.
  destruct (node_header_by_hash n hash) as [h|e|]; [by injection H as _ <-| |by injection H as _ <-].
  destruct Hn as (g & -> & Hc & Ha). unfold st_bind, on_full, any, on_db in H.
  destruct (recovery_block_by_hash hash (gn_db g)) as [q db] eqn:E.
  assert (held c accts (Full {| gn_db := db; gn_files := gn_files g |})) as Hh.
  { eexists. split; [done|]. split; cbn [gn_db].
    - eapply chain_rep_other; [exact Hc|]. intros k Hk. eapply (leaves_recovery hash); [exact E|].
      destruct (recovery_keys k) eqn:Er; [|done]. apply recovery_other in Er as [? _]. congruence.
    - eapply account_rep_other; [exact Ha|]. intros k Hk. eapply (leaves_recovery hash); [exact E|].
      destruct (recovery_keys k) eqn:Er; [|done]. unfold account_keys in *. unfold recovery_keys in Er.
      rewrite (other_prefix (B "account:") (B "recovery:") k eq_refl eq_refl Hk) in Er. done. }
  destruct q as [bw|e'|]; by injection H as _ <-.
Qed.

Lemma history_held c accts m cursor acc n r n' : held c accts n -> st_history_loop m cursor acc n = (r, n') -> held c accts n'.
Proof.
  revert cursor acc n. induction m as [|m IH]; intros cursor acc n Hn H; [by injection H as _ <-|]. cbn [st_history_loop] in H.
  destruct (hdr_number cursor =? 0); [by injection H as _ <-|].
  apply st_bind_run in H as [(h & n1 & H1 & H)|(_ & r0 & H1 & _)]; [|by eapply difficulty_header_held].
  eapply IH; [|exact H]. by eapply difficulty_header_held.
Qed.

Lemma validate_difficulty_held c accts rc parent child n r n' :
  held c accts n -> validate_difficulty rc parent child n = (r, n') -> held c accts n'.
Proof.
  intros Hn H. unfold validate_difficulty in H.
  assert (forall r1 n1, expected_difficulty_target parent child (rp_block_time_v2_activation_height rc) n = (r1, n1) -> held c accts n1) as He.
  { intros r1 n1 E. unfold expected_difficulty_target in E. destruct (_ =? 0); [by injection E as _ <-|].
    destruct (v2_active _ _); [|by injection E as _ <-].
    apply st_bind_run in E as [(hs & n2 & H1 & E)|(_ & r0 & H1 & _)]; [|by eapply history_held].
    pose proof (history_held _ _ _ _ _ _ _ _ Hn H1) as Hn2. unfold st_bind, st_res in E.
    destruct (intervals_of_headers (rev hs)) as [[med lat]|e|]; by injection E as _ <-. }
  apply st_bind_run in H as [(t & n1 & H1 & H)|(_ & r0 & H1 & _)]; [|by eapply He]. injection H as _ <-. by eapply He.
Qed.

Lemma validate_live_held c accts rc parent b n u n' pb :
  held c accts n -> last c = Some pb -> blk_header pb = parent -> Z.of_nat (length c) + 1 <= U64_MAX ->
  validate_block_live rc parent b n = (Ok u, n') -> held c accts n' /\ block_number b = Z.of_nat (length c).
Proof.
  intros Hn Hl Hp Hf H. unfold validate_block_live in H. apply st_bind_ok in H as ([] & n1 & [Hv ->]%st_read_ok & H).
  apply st_bind_ok in H as ([] & n2 & H2 & [_ ->]%st_read_ok). split; [by eapply validate_difficulty_held|].
  apply map_err_ok in Hv. destruct Hn as (g & _ & Hc). eapply next_number; [exact Hv|done|done|apply Hc|done].
Qed.

Lemma flush_held c accts n u n' : held c accts n -> flush_sync_batch n = (Ok u, n') -> held c accts n'.
Proof.
  intros (g & -> & Hc & Ha) H. unfold flush_sync_batch, on_full, any, on_db, flush_batch in H.
  destruct (runs_flush (gn_db g)) as (s' & Hrun & Es). rewrite Hrun in H. injection H as _ <-.
  eexists. split; [done|]. by split; cbn [gn_db]; rewrite Es.
Qed.

Lemma replay_blocks_held rc blocks : forall index c accts pb n u n',
  held c accts n -> last c = Some pb -> Z.of_nat (length c + length blocks) <= U64_MAX -> typed_chain c accts blocks ->
  replay_blocks rc index blocks n = (Ok u, n') ->
  exists accts', inserted_all c accts blocks accts' /\ held (c ++ blocks) accts' n'.
Proof.
  induction blocks as [|b blocks IH]; intros index c accts pb n u n' Hn Hl Hf Hty H.
  { injection H as _ <-. exists accts. by rewrite app_nil_r. }
  cbn [replay_blocks length] in *. apply st_bind_ok in H as (parent & n1 & [Hbest ->]%st_read_ok & H).
  apply map_err_ok in Hbest. pose proof Hn as (g & En & Hc & _). subst n. cbn [node_best_header of_full] in Hbest.
  destruct (best_header_ok _ _ _ Hc Hbest) as (pb' & Hl' & Ep & _). assert (pb' = pb) as -> by congruence.
  apply st_bind_ok in H as ([] & n1 & H1 & H).
  destruct (validate_live_held _ _ _ _ _ _ _ _ _ Hn Hl Ep ltac:(lia) H1) as [Hn1 Hnum].
  apply st_bind_ok in H as ([] & n2 & H2 & H).
  destruct (node_insert_held _ _ _ _ _ _ _ Hn1 Hnum ltac:(unfold list_fits; rewrite length_app; cbn; lia) Hty H2)
    as (accts1 & Hi & Hn2 & Hty1).
  apply st_bind_ok in H as ([] & n3 & H3 & H). assert (held (c ++ [b]) accts1 n3) as Hn3.
  { case_match; [by eapply flush_held|by apply st_ret_ok in H3 as [_ ->]]. }
  destruct (IH _ _ _ b _ _ _ Hn3 ltac:(apply last_snoc) ltac:(rewrite length_app; cbn; lia) Hty1 H) as (accts' & Hall & Hend).
  exists accts'. split; [by exists accts1|]. by rewrite <- app_assoc in Hend.
Qed.

(** A replay that succeeds on a cleared node leaves exactly its chain, with the
    accounts of its blocks. *)
Lemma replay_chain_held rc chain n u n' :
  held [] ∅ n -> Z.of_nat (length chain) <= U64_MAX -> typed_chain [] ∅ chain ->
  replay_canonical_chain rc chain n = (Ok u, n') -> exists accts, inserted_all [] ∅ chain accts /\ held chain accts n'.
Proof.
  intros Hn Hf Hty H. unfold replay_canonical_chain in H. destruct chain as [|b chain]; [done|].
  apply st_bind_ok in H as (gb & n1 & [[= <-] ->]%st_res_ok & H).
  destruct (Z.eqb_spec (hdr_number (blk_header b)) 0) as [E0|]; [|done]. cbn [negb] in H.
  apply st_bind_ok in H as ([] & n1 & H1 & H).
  assert (held [] ∅ n1) as Hn1.
  { destruct Hn as (g & -> & Hc & Ha). unfold begin_sync_batch, on_full, any, on_db, begin_batch, set_defer_flush in H1.
    injection H1 as <-. by eexists. }
  apply with_batch_run in H as (q & n2 & e & Hbody & Hend). destruct Hend as [(_ & ? & _)|(Hend & Hq)]; [done|].
  assert (is_ok e = true /\ forall c accts, held c accts n2 -> held c accts n') as [He Hkeep].
  { unfold end_sync_batch, on_full in Hend. destruct n2 as [g|f].
    - unfold any, on_db, end_batch, st_bind, flush_batch, set_defer_flush in Hend.
      destruct (runs_flush (gn_db g)) as (s' & Hrun & Es). rewrite Hrun in Hend. injection Hend as <- <-. split; [done|].
      intros c accts (g' & [= <-] & Hc & Ha). eexists. split; [done|]. unfold stores, contents in *. cbn. by rewrite Es.
    - injection Hend as <- <-. split; [done|]. intros c accts (g' & ? & _). done. }
  specialize (Hq He). destruct u. symmetry in Hq. subst q. cbn [tail] in Hbody.
  apply st_bind_ok in Hbody as ([] & n3 & H3 & H).
  destruct (node_insert_held b n1 _ n3 [] ∅ chain Hn1 E0 ltac:(unfold list_fits; cbn; unfold U64_MAX; lia) Hty H3)
    as (accts1 & Hi & Hn3 & Hty1).
  destruct (replay_blocks_held rc chain 1 [b] accts1 b n3 tt n2 Hn3 eq_refl ltac:(cbn [length] in *; lia) Hty1 H)
    as (accts' & Hall & Hend').
  exists accts'. split; [by exists accts1|by apply Hkeep].
Qed.

Lemma clear_held n u n' : node_clear_canonical_state n = (Ok u, n') -> held [] ∅ n'.
Proof.
  intros H. unfold node_clear_canonical_state, on_full, any, on_db in H. destruct n as [g|f]; [|done].
  destruct (clear_runs (gn_db g)) as (s' & Hrun & Hc & Ha). rewrite Hrun in H. injection H as _ <-. by eexists.
Qed.

Lemma clear_full g : exists n', node_clear_canonical_state (Full g) = (Ok tt, n') /\ held [] ∅ n'.
Proof.
  unfold node_clear_canonical_state, on_full, any, on_db. destruct (clear_runs (gn_db g)) as (s' & Hrun & Hc & Ha).
  rewrite Hrun. eexists. split; [done|]. by eexists.
Qed.

(** *** A full node stays one *)

Definition stays_full {E A} (m : StM E NodeStorage A) : Prop :=
  forall g r n', m (Full g) = (r, n') -> exists g', n' = Full g'.

Lemma full_read {E A} (f : NodeStorage -> res E A) : stays_full (st_read f).
Proof. intros g r n' [= _ <-]. by eexists. Qed.
Lemma full_res {E A} (r0 : res E A) : stays_full (st_res r0).
Proof. intros g r n' [= _ <-]. by eexists. Qed.
Lemma full_ret {E A} (a : A) : stays_full (E := E) (st_ret a).
Proof. intros g r n' [= _ <-]. by eexists. Qed.
Lemma full_on {E A} (m : StM E Generation A) p : stays_full (on_full m p).
Proof. intros g r n' H. unfold on_full in H. destruct (m g) as [q g']. injection H as _ <-. by eexists. Qed.
Lemma full_any {A} (m : StM StorageError NodeStorage A) : stays_full m -> stays_full (any m).
Proof. intros Hm g r n' H. unfold any in H. destruct (m (Full g)) as [q n1] eqn:E. injection H as _ <-. by eapply Hm. Qed.
Lemma full_bind {E A C} (m : StM E NodeStorage A) (f : A -> StM E NodeStorage C) :
  stays_full m -> (forall a, stays_full (f a)) -> stays_full (st_bind m f).
Proof.
  intros Hm Hf g r n' [(a & n1 & H1 & H)|(_ & r0 & H1 & _)]%st_bind_run; [|by eapply Hm].
  apply Hm in H1 as (g1 & ->). by eapply Hf.
Qed.
Lemma full_insert b : stays_full (any (node_insert_block append_block b)).
Proof. apply full_any. intros g r n' H. unfold node_insert_block in H. by eapply full_on. Qed.
Lemma full_header hash : stays_full (node_difficulty_header_by_hash hash).
Proof.
  intros g r n' H. unfold node_difficulty_header_by_hash in H.
  destruct (node_header_by_hash (Full g) hash); [injection H as _ <-; by eexists| |injection H as _ <-; by eexists].
  revert H. apply (full_bind _ _ (full_on _ _)). intros bw. apply full_ret.
Qed.

Lemma full_history m cursor acc : stays_full (st_history_loop m cursor acc).
Proof.
  revert cursor acc. induction m as [|m IH]; intros cursor acc; [apply full_ret|]. cbn [st_history_loop].
  case_match; [apply full_ret|]. apply full_bind; [apply full_header|]. intros h. apply IH.
Qed.

Lemma full_live rc parent b : stays_full (validate_block_live rc parent b).
Proof.
  unfold validate_block_live, validate_difficulty, expected_difficulty_target. apply full_bind; [apply full_read|]. intros [].
  apply full_bind; [|intros []; apply full_read]. apply full_bind; [|intros t; apply full_res].
  case_match; [apply full_ret|]. case_match; [|apply full_res]. apply full_bind; [apply full_history|]. intros hs.
  apply full_bind; [apply full_res|]. intros [a b']. apply full_res.
Qed.

Lemma full_replay_blocks rc blocks : forall index, stays_full (replay_blocks rc index blocks).
Proof.
  induction blocks as [|b blocks IH]; intros index; [apply full_ret|]. cbn [replay_blocks].
  apply full_bind; [apply full_read|]. intros parent. apply full_bind; [apply full_live|]. intros [].
  apply full_bind; [apply full_insert|]. intros []. apply full_bind; [|intros []; apply IH].
  case_match; [apply full_on|apply full_ret].
Qed.

Lemma full_replay rc chain : stays_full (replay_canonical_chain rc chain).
Proof.
  unfold replay_canonical_chain. apply full_bind; [apply full_res|]. intros b. destruct (negb _); [apply full_res|].
  apply full_bind; [apply full_on|]. intros [] g r n' H. apply with_batch_run in H as (q & n1 & e & H1 & H2).
  assert (exists g1, n1 = Full g1) as (g1 & ->).
  { refine (full_bind _ _ (full_insert b) _ g q n1 H1). intros u. apply full_replay_blocks. }
  destruct H2 as [(_ & _ & ->)|(H2 & _)]; [by eexists|exact (full_on _ _ _ _ _ H2)].
Qed.

(** ** Theorems *)

(** C32: a reorganisation that rebuilds the store from genesis never leaves a
    mixture when it reports success: the store holds the replacement chain, or
    the previous one, and with it the accounts that executing exactly the blocks
    of that chain, one after the other from an empty store, leaves.  The previous
    chain is the outcome when the replay of the replacement failed and the
    previous chain was replayed again; the error is not reported, so the caller
    cannot tell the two outcomes apart. *)
Theorem rebuild_exact rc replacement previous g n' :
  Z.of_nat (length replacement) <= U64_MAX -> Z.of_nat (length previous) <= U64_MAX ->
  typed_chain [] ∅ replacement -> typed_chain [] ∅ previous ->
  rebuild_canonical_chain rc replacement previous (Full g) = (Ok tt, n') ->
  exists cleared, node_clear_canonical_state (Full g) = (Ok tt, cleared) /\ held [] ∅ cleared /\
    ((replay_canonical_chain rc replacement cleared = (Ok tt, n') /\
      exists accts, inserted_all [] ∅ replacement accts /\ held replacement accts n') \/
     (exists e, (replay_canonical_chain rc replacement cleared).1 = Err e /\
      exists accts, inserted_all [] ∅ previous accts /\ held previous accts n')).
Proof.
  intros Hf1 Hf2 Ht1 Ht2 H. unfold rebuild_canonical_chain in H. apply st_bind_ok in H as ([] & n1 & H1 & H).
  pose proof (clear_held _ _ _ H1) as Hn1. exists n1. split; [done|]. split; [done|].
  destruct (replay_canonical_chain rc replacement n1) as [[[]|e|] n2] eqn:E.
  - left. injection H as <-. split; [done|]. by eapply replay_chain_held.
  - right. exists e. split; [done|]. destruct ((node_clear_canonical_state ;! replay_canonical_chain rc previous) n2) as [[[]|e2|] n3] eqn:E2;
      [|done..]. injection H as <-.
    apply st_bind_ok in E2 as ([] & n4 & H4 & H5). apply clear_held in H4.
    exact (replay_chain_held _ _ _ _ _ H4 Hf2 Ht2 H5).
  - done.
Qed.

(** C33: the rollback command.  When it succeeds the store holds exactly the
    blocks up to the requested height with the accounts that executing them from
    an empty store leaves, and the header it returns is the new tip.  When it
    reports an error, it either refused before touching the store or left an
    empty chain without accounts: the old blocks are not restored. *)
Theorem rollback_outcome rc height g c r n' :
  chain_rep (contents (gn_db g)) c -> 0 <= height -> typed_chain [] ∅ (take (Z.to_nat height + 1) c) ->
  rollback_node rc height (Full g) = (r, n') ->
  (forall h, r = Ok h -> height < Z.of_nat (length c) - 1 /\
     (exists accts, inserted_all [] ∅ (take (Z.to_nat height + 1) c) accts /\ held (take (Z.to_nat height + 1) c) accts n') /\
     exists b, c !! Z.to_nat height = Some b /\ h = blk_header b) /\
  (forall e, r = Err e -> n' = Full g \/ held [] ∅ n').
Proof.
  intros Hc Hh Hty H. unfold rollback_node in H. unfold st_bind at 1, st_read at 1 in H. cbn [node_canonical_blocks of_full] in H.
  rewrite (canonical_blocks_rep _ _ Hc) in H. cbn [any_res res_map_err] in H.
  destruct (last c) as [tip|] eqn:Hl; [|injection H as <- <-; split; [done|by left]].
  cbn [ok_or] in H. unfold st_bind at 1, st_res at 1 in H.
  destruct (Z.leb_spec (hdr_number (blk_header tip)) height) as [|Hlt]; [injection H as <- <-; split; [done|by left]|].
  assert (block_number tip = Z.of_nat (length c) - 1) as Hn.
  { apply last_Some in Hl as [l ->]. rewrite (block_numbers_lookup (l ++ [tip]) (length l) tip); [|apply Hc|].
    - rewrite length_app. cbn. lia.
    - apply lookup_snoc_Some. by right. }
  fold (block_number tip) in Hlt. pose proof (cr_fits _ _ Hc) as Hfit. unfold list_fits in Hfit.
  rewrite sat_add_exact in H by (unfold in_u64, U64_MAX in *; lia).
  replace (Z.to_nat (height + 1)) with (Z.to_nat height + 1)%nat in H by lia.
  destruct (lookup_lt_is_Some_2 c (Z.to_nat height)) as [b Hb]; [lia|].
  assert (last (take (Z.to_nat height + 1) c) = Some b) as Hlast.
  { rewrite Nat.add_1_r, (take_S_r _ _ _ Hb). apply last_snoc. }
  rewrite Hlast in H. cbn [ok_or] in H. unfold st_bind at 1, st_res at 1 in H.
  destruct (clear_full g) as (n1 & Hclear & Hn1). unfold st_bind at 1 in H. rewrite Hclear in H.
  destruct (replay_canonical_chain rc (take (Z.to_nat height + 1) c) n1) as [[[]|e|] n2] eqn:E; injection H as <- <-.
  - split; [|done]. intros h [= <-]. split; [lia|]. split; [|by exists b]. eapply replay_chain_held; [exact Hn1| |exact Hty|exact E].
    rewrite length_take. lia.
  - split; [done|]. intros e' _. right. destruct Hn1 as (g1 & -> & _). apply full_replay in E as (g2 & ->).
    by destruct (clear_full g2) as (n3 & -> & ?).
  - by split.
Qed.
End replaying.

(** ** Examples: a replacement that is refused, and a rollback to genesis *)

Section rebuild_witness.
#[local] Existing Instances mem_sled hex_codec toy_digests mem_files u256_z toy_secp toy_randomx native_profile fork_jb fork_jh
  fork_jm fork_jc fork_jp fork_js fork_compact fork_host.
#[local] Existing Instance SampleCodecs.JT.
#[local] Existing Instance SampleCodecs.JR.
#[local] Instance rebuild_revm : Revm := toy_revm u256_z.

Definition genesis_block : Block := empty_block numbered_zero.
Definition genesis_accounts : EvmStateSnapshot :=
  match simulate_state_transition_from_accounts (∅ : Accounts) genesis_block 0 with
  | Ok (m, _, _) => put_over m (∅ : EvmStateSnapshot)
  | Err _ => (∅ : EvmStateSnapshot)
  | Panic => (∅ : EvmStateSnapshot)
  end.
Definition genesis_je : Json (list SerializedEvmSnapshotEntry) := table_json [snapshot_entries genesis_accounts].
#[local] Existing Instance genesis_je.

Definition rebuild_run : res string unit * NodeStorage :=
  rebuild_canonical_chain replay_config [genesis_block; fork_old] [genesis_block] (Full direct_generation).
Definition rollback_run : res string BlockHeader * NodeStorage :=
  rollback_node replay_config 0 (Full {| gn_db := store_of fork_jb fork_jh direct_chain; gn_files := fun _ => None |}).

Lemma rebuild_refused :
  is_ok (replay_canonical_chain replay_config [genesis_block; fork_old]
    (node_clear_canonical_state (Full direct_generation)).2).1 = false.
Proof. vm_compute. reflexivity. Qed.

Lemma empty_typed blocks : Forall (fun b => wf_header (blk_header b) /\ blk_transactions b = []) blocks ->
  forall c accts, typed_chain c accts blocks.
Proof.
  induction 1 as [|b blocks [Hh Ht] _ IH]; intros c accts; [exact I|]. cbn [typed_chain]. rewrite Ht.
  split; [done|]. split; [apply List.Forall_nil|]. split; [done|]. intros. apply IH.
Qed.

Lemma genesis_wf : wf_header numbered_zero.
Proof. split; first [vm_compute; reflexivity|vm_compute; split; discriminate|vm_compute; discriminate]. Qed.

Lemma fork_old_wf : wf_header (blk_header fork_old).
Proof. split; first [vm_compute; reflexivity|vm_compute; split; discriminate|vm_compute; discriminate]. Qed.

Lemma genesis_typed : typed_chain [] ∅ [genesis_block].
Proof. apply empty_typed. apply List.Forall_cons; [split; [exact genesis_wf|reflexivity]|apply List.Forall_nil]. Qed.

Lemma refused_typed : typed_chain [] ∅ [genesis_block; fork_old].
Proof.
  apply empty_typed. apply List.Forall_cons; [split; [exact genesis_wf|reflexivity]|].
  apply List.Forall_cons; [split; [exact fork_old_wf|reflexivity]|apply List.Forall_nil].
Qed.

Lemma rebuild_exact_witness :
  rebuild_run.1 = Ok tt /\
  exists accts, inserted_all [] ∅ [genesis_block] accts /\
    @held mem_sled hex_codec fork_jb fork_jh [genesis_block] accts rebuild_run.2.
Proof.
  assert (rebuild_run.1 = Ok tt) as Hr by (vm_compute; reflexivity). split; [exact Hr|].
  destruct (rebuild_exact (HR := mem_sled_reliable) replay_config [genesis_block; fork_old] [genesis_block] direct_generation rebuild_run.2)
    as (cleared & Hc & _ & [[H _]|(e & _ & H)]).
  - vm_compute. discriminate.
  - vm_compute. discriminate.
  - exact refused_typed.
  - exact genesis_typed.
  - rewrite <- Hr. apply surjective_pairing.
  - exfalso. pose proof rebuild_refused as Hf. rewrite Hc in Hf. cbn [snd] in Hf. rewrite H in Hf. discriminate Hf.
  - exact H.
Defined.

Lemma rollback_stores :
  @stores mem_sled hex_codec fork_jb fork_jh {| gn_db := store_of fork_jb fork_jh direct_chain; gn_files := fun _ => None |}
    direct_chain (put_over sample_accounts ∅).
Proof.
  apply store_of_stores.
  - apply List.Forall_cons; [vm_compute; repeat split; reflexivity|]. apply List.Forall_cons; [vm_compute; repeat split; reflexivity|].
    apply List.Forall_nil.
  - intros [|[|i]] b H; [by injection H as <-..|by destruct i].
  - by vm_compute.
Qed.

Lemma rollback_outcome_witness :
  rollback_run.1 = Ok numbered_zero /\
  exists accts, inserted_all [] ∅ [genesis_block] accts /\
    @held mem_sled hex_codec fork_jb fork_jh [genesis_block] accts rollback_run.2.
Proof.
  assert (rollback_run.1 = Ok numbered_zero) as Hr by (vm_compute; reflexivity). split; [exact Hr|].
  destruct (rollback_outcome (HR := mem_sled_reliable) replay_config 0
    {| gn_db := store_of fork_jb fork_jh direct_chain; gn_files := fun _ => None |} direct_chain rollback_run.1 rollback_run.2)
    as [H _].
  - exact (proj1 rollback_stores).
  - reflexivity.
  - exact genesis_typed.
  - apply surjective_pairing.
  - destruct (H _ Hr) as (_ & Hh & _). exact Hh.
Defined.
End rebuild_witness.
