(* ===== verification/Cursor.v ===== *)
(** The recovery jobs of [crates/blq-node/src/main.rs]: the durable cursor of
    one branch ([BranchSyncCursor]), how it moves with the bodies that arrive,
    and the normalization of the saved cursors at startup.

    A cursor without an ancestor waits for the answer to a locator; a cursor
    with one asks for the bodies above it in order, from [next_height] on.
    The clock is an argument [now]: an operation reads it once. *)

From Stdlib Require Import ZArith Lia Strings.String Strings.Byte.
From stdpp Require Import sorting gmap fin_maps base list.
From S2P Require Import Prelude Externals Primitives Consensus Sled.
#[local] Open Scope Z_scope.

Definition SYNC_CHECKPOINT_BATCH_SIZE : Z := 32.
Definition SYNC_RANGE_SIZE : Z := 128.
Definition RECOVERY_NO_PROGRESS_TIMEOUT : Z := 30.

(** Failures and mismatches are their messages without the values in them. *)
Record BranchSyncCursor := {
  cu_tip_hash : Hash256;
  cu_spool_tip_hash : option Hash256;
  cu_tip_height : Z;
  cu_next_hash : Hash256;
  cu_consensus_profile : list byte;
  cu_imported_bodies : Z;
  cu_updated_at : Z;
  cu_ancestor_height : option Z;
  cu_ancestor_hash : option Hash256;
  cu_branch_root_hash : option Hash256;
  cu_next_height : Z;
  cu_expected_parent_hash : option Hash256;
  cu_staged_height : Z;
  cu_state : list byte;
  cu_provider : option (list byte);
  cu_requested_height : option Z;
  cu_requested_at : Z;
  cu_last_progress_at : Z;
  cu_provider_attempts : Z;
  cu_last_failure : option string;
  cu_retry_after : Z;
  cu_primary_identity : option (list byte);
  cu_witness_identity : option (list byte);
  cu_provider_mode : list byte;
  cu_witness_sample_heights : list Z;
  cu_primary_sample_hashes : gmap Z Hash256;
  cu_witness_sample_hashes : gmap Z Hash256;
  cu_witness_mismatch : option string;
  cu_spool_verified : bool;
}.

#[global] Instance cursor_fields : Fields BranchSyncCursor := fun c => {|
  cu_tip_hash := cu_tip_hash c; cu_spool_tip_hash := cu_spool_tip_hash c; cu_tip_height := cu_tip_height c;
  cu_next_hash := cu_next_hash c; cu_consensus_profile := cu_consensus_profile c;
  cu_imported_bodies := cu_imported_bodies c; cu_updated_at := cu_updated_at c;
  cu_ancestor_height := cu_ancestor_height c; cu_ancestor_hash := cu_ancestor_hash c;
  cu_branch_root_hash := cu_branch_root_hash c; cu_next_height := cu_next_height c;
  cu_expected_parent_hash := cu_expected_parent_hash c; cu_staged_height := cu_staged_height c;
  cu_state := cu_state c; cu_provider := cu_provider c; cu_requested_height := cu_requested_height c;
  cu_requested_at := cu_requested_at c; cu_last_progress_at := cu_last_progress_at c;
  cu_provider_attempts := cu_provider_attempts c; cu_last_failure := cu_last_failure c;
  cu_retry_after := cu_retry_after c; cu_primary_identity := cu_primary_identity c;
  cu_witness_identity := cu_witness_identity c; cu_provider_mode := cu_provider_mode c;
  cu_witness_sample_heights := cu_witness_sample_heights c;
  cu_primary_sample_hashes := cu_primary_sample_hashes c;
  cu_witness_sample_hashes := cu_witness_sample_hashes c; cu_witness_mismatch := cu_witness_mismatch c;
  cu_spool_verified := cu_spool_verified c |}.

(** [BTreeMap<String, BranchSyncCursor>]. *)
Abbreviation Cursors := (gmap (list byte) BranchSyncCursor).

Definition default_provider_mode : list byte := B "single-provider".

Definition cursor_spool_tip (c : BranchSyncCursor) : Hash256 := default (cu_tip_hash c) (cu_spool_tip_hash c).

Definition new_branch_sync_cursor (now : Z) (tip_hash : Hash256) (tip_height : Z) (consensus_profile : list byte)
    : BranchSyncCursor := {|
  cu_tip_hash := tip_hash; cu_spool_tip_hash := Some tip_hash; cu_tip_height := tip_height;
  cu_next_hash := tip_hash; cu_consensus_profile := consensus_profile; cu_imported_bodies := 0;
  cu_updated_at := now; cu_ancestor_height := None; cu_ancestor_hash := None; cu_branch_root_hash := None;
  cu_next_height := 0; cu_expected_parent_hash := None; cu_staged_height := 0;
  cu_state := B "pending-ancestor"; cu_provider := None; cu_requested_height := None; cu_requested_at := 0;
  cu_last_progress_at := 0; cu_provider_attempts := 0; cu_last_failure := None; cu_retry_after := 0;
  cu_primary_identity := None; cu_witness_identity := None; cu_provider_mode := default_provider_mode;
  cu_witness_sample_heights := []; cu_primary_sample_hashes := ∅; cu_witness_sample_hashes := ∅;
  cu_witness_mismatch := None; cu_spool_verified := false |}.

(** [matches!(cursor.state.as_str(), ...)]. *)
Definition in_state (c : BranchSyncCursor) (states : list (list byte)) : bool :=
  existsb (fun s => bool_decide (cu_state c = s)) states.

Definition has_ancestor (c : BranchSyncCursor) : bool :=
  match cu_ancestor_height c with Some _ => true | None => false end.

(** Every body through the tip has been consumed. *)
Definition consumed (c : BranchSyncCursor) : bool := cu_tip_height c <? cu_next_height c.

(** ** Choosing the most advanced job *)

(** Tuples of integers, compared field by field. *)
Fixpoint keys_compare (x y : list Z) : comparison :=
  match x, y with
  | [], [] => Eq
  | [], _ => Lt
  | _, [] => Gt
  | a :: x, b :: y => match a ?= b with Eq => keys_compare x y | c => c end
  end.
Definition keys_ltb (x y : list Z) : bool := match keys_compare x y with Lt => true | _ => false end.

(** [Iterator::max_by_key]: the last of the greatest elements. *)
Definition max_by_key {A} (key : A -> list Z) (l : list A) : option A :=
  fold_left (fun best x =>
    match best with
    | Some b => if keys_ltb (key x) (key b) then Some b else Some x
    | None => Some x
    end) l None.

Definition recovery_cursor_progress_key (c : BranchSyncCursor) : list Z :=
  let state :=
    if in_state c [B "replaying"] then 5
    else if in_state c [B "retrieving"] then 4
    else if in_state c [B "complete"] then 3
    else if in_state c [B "waiting-for-provider"] then 2
    else 1 in
  [state; cu_staged_height c; cu_last_progress_at c; cu_tip_height c].

Definition recovery_cursor_requires_provider (c : BranchSyncCursor) : bool :=
  has_ancestor c && (0 <? cu_tip_height c) && (cu_next_height c <=? cu_tip_height c)
  && in_state c [B "retrieving"; B "waiting-for-provider"; B "pending-retrieval"].

(** ** The saved cursors at startup *)

Section keys.
Context {HX : HexCodec}.

Definition recovery_cursor_key (tip_hash : Hash256) : list byte := B "branch:" ++ hash_to_hex tip_hash.

(** [entry(key).and_modify(..).or_insert(cursor)]: the cursor with the greater
    progress stays, the first one of two equals. *)
Definition keep_best (progress : BranchSyncCursor -> list Z) (key : list byte) (m : Cursors) (c : BranchSyncCursor)
    : Cursors :=
  match m !! key with
  | Some current => if keys_ltb (progress current) (progress c) then <[key := c]> m else m
  | None => <[key := c]> m
  end.

Definition saved_progress (c : BranchSyncCursor) : list Z :=
  [Z.b2z (has_ancestor c); cu_staged_height c; cu_updated_at c].

Definition derive_completion (c : BranchSyncCursor) : BranchSyncCursor :=
  if has_ancestor c && (0 <? cu_tip_height c) && consumed c
  then c <|cu_state := B "complete"|> <|cu_requested_height := None|> <|cu_requested_at := 0|>
         <|cu_last_failure := None|> <|cu_retry_after := 0|>
  else c.

(** The tuple of spool tip, ancestor, root and profile; hashes have a fixed
    width, so the order of the tuples is that of the joined bytes. *)
Definition job_identity (c : BranchSyncCursor) : option (list byte) :=
  match cu_ancestor_hash c, cu_branch_root_hash c with
  | Some ancestor, Some root => Some (cursor_spool_tip c ++ ancestor ++ root ++ cu_consensus_profile c)
  | _, _ => None
  end.

Definition job_progress (c : BranchSyncCursor) : list Z :=
  [cu_staged_height c; cu_last_progress_at c; cu_tip_height c].

Definition prune_duplicate_recovery_cursors (cursors : Cursors) : Cursors :=
  let all := map snd (btree_iter cursors) in
  let selected := fold_left (fun m c =>
    match job_identity c with Some identity => keep_best job_progress identity m c | None => m end) all ∅ in
  let ungrouped := List.filter (fun c => match job_identity c with None => true | Some _ => false end) all in
  fold_left (fun (m : Cursors) c => <[recovery_cursor_key (cu_tip_hash c) := c]> m)
    (ungrouped ++ map snd (btree_iter selected)) ∅.

Definition normalize_branch_sync_cursors (saved : Cursors) : Cursors :=
  let normalized := fold_left (fun m c => keep_best saved_progress (recovery_cursor_key (cu_tip_hash c)) m c)
    (map snd (btree_iter saved)) ∅ in
  prune_duplicate_recovery_cursors (derive_completion <$> normalized).
End keys.

(** ** A body arrives *)

Section bodies.
Context {D : Digests}.

(** The cursor after the body, when it is the next one of the job. *)
Definition forward_progress (now : Z) (c : BranchSyncCursor) (block : Block) : option BranchSyncCursor :=
  let h := blk_header block in
  match cu_ancestor_height c with
  | None => None
  | Some ancestor =>
      if negb (cu_next_height c =? 0) && negb (hdr_number h =? cu_next_height c) then None
      else if match cu_expected_parent_hash c with
              | Some expected => negb (bool_decide (hdr_parent_hash h = expected))
              | None => false
              end then None
      else
        let root := match cu_branch_root_hash c with
                    | None => if hdr_number h =? sat_add U64_MAX ancestor 1 then Some (header_hash h) else None
                    | Some root => Some root
                    end in
        let next := sat_add U64_MAX (hdr_number h) 1 in
        let complete := cu_tip_height c <? next in
        Some (c <|cu_branch_root_hash := root|>
                <|cu_imported_bodies := sat_add U64_MAX (cu_imported_bodies c) 1|>
                <|cu_staged_height := hdr_number h|>
                <|cu_next_height := next|>
                <|cu_expected_parent_hash := Some (header_hash h)|>
                <|cu_updated_at := now|>
                <|cu_last_progress_at := now|>
                <|cu_requested_height := Some next|>
                <|cu_last_failure := None|>
                <|cu_retry_after := 0|>
                <|cu_state := if complete then B "complete" else B "retrieving"|>)
  end.

Definition expects_body (c : BranchSyncCursor) (block : Block) : bool :=
  has_ancestor c && in_state c [B "retrieving"; B "waiting-for-provider"]
  && (hdr_number (blk_header block) =? cu_next_height c)
  && bool_decide (cu_expected_parent_hash c = Some (hdr_parent_hash (blk_header block))).

Definition conflicts_with_body (c : BranchSyncCursor) (block : Block) : bool :=
  has_ancestor c && (cu_next_height c =? hdr_number (blk_header block))
  && match cu_expected_parent_hash c with
     | Some expected => negb (bool_decide (expected = hdr_parent_hash (blk_header block)))
     | None => false
     end.
End bodies.

(** ** Witness samples *)

(** [Vec::dedup]. *)
Fixpoint dedup_after (x : Z) (l : list Z) : list Z :=
  match l with
  | [] => []
  | y :: l => if y =? x then dedup_after x l else y :: dedup_after y l
  end.
Definition dedup (l : list Z) : list Z := match l with [] => [] | x :: l => x :: dedup_after x l end.

(** The ends of the next range and two heights chosen by the tip. *)
Definition recovery_witness_sample_heights (tip : Hash256) (from tip_height : Z) : list Z :=
  let stop := Z.min (sat_add U64_MAX from (SYNC_RANGE_SIZE - 1)) tip_height in
  if stop <? from then []
  else
    let span := sat_add U64_MAX (sat_sub stop from) 1 in
    let offset i := u8_val (nth i tip x00) mod span in
    dedup (sort_by_key id [from; stop; sat_add U64_MAX from (offset 0%nat); sat_add U64_MAX from (offset 1%nat)]).

(** The samples of an earlier range are forgotten. *)
Definition clear_samples (c : BranchSyncCursor) : BranchSyncCursor :=
  c <|cu_primary_sample_hashes := ∅|> <|cu_witness_sample_hashes := ∅|> <|cu_witness_mismatch := None|>.

Definition drop_witness (c : BranchSyncCursor) : BranchSyncCursor :=
  clear_samples (c <|cu_witness_identity := None|> <|cu_witness_sample_heights := []|>).

Definition all_samples_match (c : BranchSyncCursor) : bool :=
  forallb (fun height =>
    match cu_primary_sample_hashes c !! height, cu_witness_sample_hashes c !! height with
    | Some primary, Some witness => bool_decide (primary = witness)
    | _, _ => false
    end) (cu_witness_sample_heights c).

Definition conflicting (reason : string) (c : BranchSyncCursor) : BranchSyncCursor :=
  c <|cu_provider_mode := B "conflicting"|> <|cu_witness_mismatch := Some reason|>
    <|cu_state := B "conflicting"|>.

Definition in_mode (c : BranchSyncCursor) (modes : list (list byte)) : bool :=
  existsb (fun m => bool_decide (cu_provider_mode c = m)) modes.

(** [register_recovery_peer_role] on the cursor, and the heights to ask for. *)
Definition register_role (primary : bool) (peer identity : list byte) (c : BranchSyncCursor)
    : BranchSyncCursor * list Z :=
  let c :=
    if primary then
      let c := c <|cu_primary_identity := Some identity|> <|cu_provider := Some peer|> in
      let c := if bool_decide (cu_witness_identity c = Some identity) then drop_witness c else c in
      if bool_decide (cu_witness_identity c = None) then c <|cu_provider_mode := B "single-provider"|> else c
    else if negb (bool_decide (cu_primary_identity c = Some identity))
            && negb (bool_decide (cu_witness_identity c = Some identity))
    then c <|cu_witness_identity := Some identity|> <|cu_provider_mode := B "waiting-for-witness"|>
    else c in
  if bool_decide (cu_witness_identity c = Some identity) then
    if bool_decide (cu_witness_sample_heights c = []) then
      let heights := recovery_witness_sample_heights (cu_tip_hash c) (cu_next_height c) (cu_tip_height c) in
      (c <|cu_witness_sample_heights := heights|>, heights)
    else (c, cu_witness_sample_heights c)
  else (c, []).

(** [remove_stale_recovery_witness] on the cursor. *)
Definition remove_witness (now : Z) (c : BranchSyncCursor) : BranchSyncCursor :=
  let c := (drop_witness c) <|cu_provider_mode := B "single-provider"|> in
  (if consumed c then c <|cu_state := B "complete"|> else c) <|cu_updated_at := now|>.

(** The request of a range. *)
Definition request_range (now : Z) (peer : list byte) (height : Z) (c : BranchSyncCursor) : BranchSyncCursor :=
  let c := c <|cu_provider := Some peer|> <|cu_requested_height := Some height|> <|cu_requested_at := now|>
             <|cu_updated_at := now|> <|cu_state := B "retrieving"|>
             <|cu_witness_sample_heights :=
                 recovery_witness_sample_heights (cu_tip_hash c) height (cu_tip_height c)|> in
  let c := clear_samples c in
  match cu_witness_identity c with
  | Some _ => c <|cu_provider_mode := B "waiting-for-witness"|>
  | None => c
  end.

(** A failure of the provider: the next attempt waits up to 32 seconds. *)
Definition failed_attempt (now : Z) (peer : list byte) (reason : string) (c : BranchSyncCursor) : BranchSyncCursor :=
  let attempts := sat_add U32_MAX (cu_provider_attempts c) 1 in
  c <|cu_provider := Some peer|> <|cu_provider_attempts := attempts|> <|cu_last_failure := Some reason|>
    <|cu_retry_after := sat_add U64_MAX now (Z.shiftl 1 (Z.min attempts 5))|>
    <|cu_requested_height := None|> <|cu_requested_at := 0|> <|cu_updated_at := now|>
    <|cu_state := B "waiting-for-provider"|>.

(** The ancestor of a locator answer. *)
Definition join_ancestor (now height : Z) (hash : Hash256) (c : BranchSyncCursor) : BranchSyncCursor :=
  c <|cu_ancestor_height := Some height|> <|cu_ancestor_hash := Some hash|>
    <|cu_next_height := sat_add U64_MAX height 1|> <|cu_expected_parent_hash := Some hash|>
    <|cu_staged_height := height|> <|cu_state := B "retrieving"|> <|cu_updated_at := now|>.

(** The job moves to a newer tip of its branch; the spool keeps its name. *)
Definition retarget (now : Z) (peer identity : list byte) (tip_hash : Hash256) (tip_height : Z)
    (c : BranchSyncCursor) : BranchSyncCursor :=
  let c := c <|cu_spool_tip_hash := Some (cursor_spool_tip c)|> <|cu_tip_hash := tip_hash|>
             <|cu_tip_height := tip_height|> <|cu_provider := Some peer|>
             <|cu_primary_identity := Some identity|> <|cu_updated_at := now|> <|cu_requested_height := None|>
             <|cu_requested_at := 0|> <|cu_last_failure := None|> <|cu_retry_after := 0|>
             <|cu_witness_sample_heights := []|> in
  let c := clear_samples c in
  if cu_next_height c <=? cu_tip_height c then c <|cu_state := B "retrieving"|> else c.
