(* ===== verification/Recovery.v ===== *)
(** The shared recovery state of [crates/blq-node/src/main.rs] and its
    operations: the map of recovery jobs, the job of each peer route, the
    identities of the peers, and the file the jobs are saved to.

    A failed save that the code only logs leaves the state as it is
    ([logged]).  Operations that also use the node's storage run on the pair
    of both; the code holds one lock at a time, as the steps do here. *)

From Stdlib Require Import ZArith Lia Strings.String Strings.Byte.
From stdpp Require Import sorting gmap fin_maps base list.
From S2P Require Import Prelude Externals Primitives Canonical Rlp RawTx Pow Consensus State StateRoot.
From S2P Require Import Transition Evm Difficulty BlockExec Mempool Admission Replay Network.
From S2P Require Import Sled AccountStore BlockStore Generation Publish CandidateStore NodeStore Snapshots Branch.
From S2P Require Import Cursor.
#[local] Open Scope Z_scope.

(** [rs_file] holds the jobs the saved file describes. *)
Record RecoveryState := {
  rs_cursors : Cursors;
  rs_peer_keys : gmap (list byte) (list byte);
  rs_identities : gmap (list byte) (list byte);
  rs_file : option Cursors;
}.

#[global] Instance recovery_fields : Fields RecoveryState := fun rs => {|
  rs_cursors := rs_cursors rs; rs_peer_keys := rs_peer_keys rs; rs_identities := rs_identities rs;
  rs_file := rs_file rs |}.

(** The failure of a save, if any. *)
Class CursorIo := { save_error : Cursors -> option string }.

Definition RS (A : Type) : Type := StM string RecoveryState A.

Definition modify (f : RecoveryState -> RecoveryState) : RS unit := fun rs => (Ok tt, f rs).

(** [if let Err(err) = m { eprintln!(..) }]. *)
Definition logged {State} (m : StM string State unit) : StM string State unit := fun s =>
  match m s with
  | (Panic, s) => (Panic, s)
  | (_, s) => (Ok tt, s)
  end.

(** [if let Some(cursor) = cursors.get_mut(&key) { .. }]. *)
Definition update_cursor (key : list byte) (f : BranchSyncCursor -> BranchSyncCursor) : RS unit :=
  modify (fun rs => rs <|rs_cursors := alter f key (rs_cursors rs)|>).

(** [retain]. *)
Definition retain {V} (keep : list byte -> V -> bool) (m : gmap (list byte) V) : gmap (list byte) V :=
  filter (fun kv => keep kv.1 kv.2 = true) m.

(** The route bindings of a job. *)
Definition unbind (key : list byte) : RS unit :=
  modify (fun rs => rs <|rs_peer_keys := retain (fun _ k => negb (bool_decide (k = key))) (rs_peer_keys rs)|>).

Section recovery.
Context {HX : HexCodec} {D : Digests} {CI : CursorIo}.

Definition persist_branch_sync_cursors : RS unit := fun rs =>
  match save_error (rs_cursors rs) with
  | Some e => (Err e, rs)
  | None => (Ok tt, rs <|rs_file := Some (rs_cursors rs)|>)
  end.

Definition persist_logged : RS unit := logged persist_branch_sync_cursors.

(** [saved]: the file as it was read, [None] when it is missing or invalid. *)
Definition load_branch_sync_cursors (saved : option Cursors) : RS unit :=
  match saved with
  | None => st_ret tt
  | Some saved =>
      modify (fun rs => rs <|rs_cursors := normalize_branch_sync_cursors saved|>) ;!
      persist_logged
  end.

(** ** The job of a route *)

Definition cursor_key (peer : list byte) (rs : RecoveryState) : list byte :=
  match rs_peer_keys rs !! peer with
  | Some key => key
  | None => default peer (rs_identities rs !! peer)
  end.

Definition set_peer_recovery_key (peer : list byte) (tip_hash : Hash256) : RS unit :=
  modify (fun rs => rs <|rs_peer_keys := <[peer := recovery_cursor_key tip_hash]> (rs_peer_keys rs)|>).

(** The first job of a provider, in key order. *)
Definition provided_key (peer : list byte) (rs : RecoveryState) : option (list byte) :=
  fst <$> List.find (fun kc => bool_decide (cu_provider kc.2 = Some peer)) (btree_iter (rs_cursors rs)).

(** The job of the route, else the first one it provides. *)
Definition route_key (peer : list byte) (rs : RecoveryState) : option (list byte) :=
  match rs_cursors rs !! cursor_key peer rs with
  | Some _ => Some (cursor_key peer rs)
  | None => provided_key peer rs
  end.

Definition durable_forward_cursor_key (peer consensus_profile : list byte) (rs : RecoveryState)
    : option (list byte) :=
  let key := cursor_key peer rs in
  let identity := rs_identities rs !! peer in
  let compatible c := has_ancestor c && bool_decide (cu_consensus_profile c = consensus_profile) in
  let best f := fst <$> max_by_key (fun kc => recovery_cursor_progress_key kc.2)
                          (List.filter (fun kc => f kc.2) (btree_iter (rs_cursors rs))) in
  if match rs_cursors rs !! key with Some c => compatible c | None => false end then Some key
  else
    match best (fun c => compatible c
                  && (bool_decide (cu_provider c = Some peer) || bool_decide (identity = cu_primary_identity c))) with
    | Some key => Some key
    | None => best (fun c => compatible c && (0 <? cu_next_height c)
                      && in_state c [B "retrieving"; B "waiting-for-provider"; B "complete"; B "replaying"])
    end.

(** ** Looking at the jobs *)

Definition completed_recovery_tip (rs : RecoveryState) : option Hash256 :=
  cu_tip_hash <$> max_by_key recovery_cursor_progress_key
    (List.filter (fun c => in_state c [B "complete"] && has_ancestor c && (0 <? cu_tip_height c)
                     && (cu_staged_height c <=? cu_tip_height c) && consumed c)
       (map snd (btree_iter (rs_cursors rs)))).

Definition recovery_tip_is_replaying (tip_hash : Hash256) (rs : RecoveryState) : bool :=
  match rs_cursors rs !! recovery_cursor_key tip_hash with
  | Some c => in_state c [B "replaying"]
  | None => false
  end.

Definition any_recovery_replay_is_active (rs : RecoveryState) : bool :=
  existsb (fun kc => in_state kc.2 [B "replaying"]) (btree_iter (rs_cursors rs)).

(** A tip without a job takes the normal path. *)
Definition recovery_tip_ready_for_publication (tip_hash : Hash256) (rs : RecoveryState) : bool :=
  match rs_cursors rs !! recovery_cursor_key tip_hash with
  | None => true
  | Some c => in_mode c [B "single-provider"; B "cross-checked"]
  end.

Definition has_durable_recovery_job (rs : RecoveryState) : bool :=
  existsb (fun kc => has_ancestor kc.2) (btree_iter (rs_cursors rs)).

Definition is_expected_recovery_body (peer : list byte) (block : Block) (rs : RecoveryState) : bool :=
  match (key ← route_key peer rs; rs_cursors rs !! key) with
  | Some c => expects_body c block
  | None => false
  end.

Definition recovery_body_conflicts_with_cursor (peer : list byte) (block : Block) (rs : RecoveryState) : bool :=
  match rs_cursors rs !! cursor_key peer rs with
  | Some c => conflicts_with_body c block
  | None => false
  end.

Definition branch_cursor_next_height (peer : list byte) (rs : RecoveryState) : option Z :=
  c ← rs_cursors rs !! cursor_key peer rs;
  match cu_ancestor_height c with
  | Some _ => Some (cu_next_height c)
  | None => if cu_tip_height c <? cu_imported_bodies c then None
            else Some (cu_tip_height c - cu_imported_bodies c)
  end.

Definition forward_recovery_context (peer : list byte) (rs : RecoveryState) : option (Hash256 * Z * Hash256) :=
  c ← rs_cursors rs !! cursor_key peer rs;
  expected ← cu_expected_parent_hash c;
  Some (cursor_spool_tip c, cu_next_height c, expected).

Definition branch_cursor_next_hash (peer : list byte) (rs : RecoveryState) : option Hash256 :=
  c ← rs_cursors rs !! cursor_key peer rs;
  if has_ancestor c then None else Some (cu_next_hash c).

Definition branch_cursor_target_height (peer : list byte) (rs : RecoveryState) : Z :=
  default 0 (cu_tip_height <$> rs_cursors rs !! cursor_key peer rs).

(** [elapsed] in seconds. *)
Definition recovery_progress_timed_out (has_recovery_job : bool) (elapsed : Z) : bool :=
  has_recovery_job && (RECOVERY_NO_PROGRESS_TIMEOUT <=? elapsed).

Definition recovery_provider_is_deferred (active_tip peer_tip : Hash256) (holds_provider_lease : bool) : bool :=
  negb holds_provider_lease && negb (bool_decide (peer_tip = active_tip)).

(** ** Changing a job *)

Definition prune_finalized_recovery_cursors : RS unit := fun rs =>
  let cursors := retain (fun _ c => negb (in_state c [B "published"; B "rejected"])) (rs_cursors rs) in
  if Nat.eqb (size cursors) (size (rs_cursors rs)) then (Ok tt, rs)
  else
    persist_logged
      (rs <|rs_cursors := cursors|>
          <|rs_peer_keys := retain (fun _ key => match cursors !! key with Some _ => true | None => false end)
                              (rs_peer_keys rs)|>).

Definition reject_completed_recovery (now : Z) (tip_hash : Hash256) (reason : string) : RS unit :=
  update_cursor (recovery_cursor_key tip_hash) (fun c =>
    c <|cu_state := B "rejected"|> <|cu_last_failure := Some reason|> <|cu_retry_after := 0|>
      <|cu_updated_at := now|>) ;!
  persist_logged ;!
  prune_finalized_recovery_cursors.

Definition set_recovery_state_for_tip (now : Z) (tip_hash : Hash256) (state : list byte) : RS unit :=
  update_cursor (recovery_cursor_key tip_hash) (fun c => c <|cu_state := state|> <|cu_updated_at := now|>) ;!
  persist_logged.

Definition reset_completed_recovery_for_refetch (tip_hash : Hash256) : RS unit := fun rs =>
  let key := recovery_cursor_key tip_hash in
  (modify (fun rs => rs <|rs_cursors := delete key (rs_cursors rs)|>) ;!
   match rs_cursors rs !! key with
   | Some _ => unbind key
   | None => st_ret tt
   end ;!
   persist_logged) rs.

(** The most advanced other job with the same ancestor that [identity] serves,
    or that has the same first block. *)
Definition advancing_job (incoming_key identity : list byte) (tip_height : Z) (consensus_profile : list byte)
    (ancestor_height : Z) (ancestor_hash : Hash256) (branch_root_hash : option Hash256) (cursors : Cursors)
    : option (list byte * BranchSyncCursor) :=
  max_by_key (fun kc => [cu_staged_height kc.2; cu_last_progress_at kc.2])
    (List.filter (fun kc =>
       let c := kc.2 in
       negb (bool_decide (kc.1 = incoming_key))
       && bool_decide (cu_ancestor_height c = Some ancestor_height)
       && bool_decide (cu_ancestor_hash c = Some ancestor_hash)
       && bool_decide (cu_consensus_profile c = consensus_profile)
       && (bool_decide (cu_primary_identity c = Some identity)
           || (negb (bool_decide (branch_root_hash = None)) && bool_decide (cu_branch_root_hash c = branch_root_hash)))
       && (ancestor_height <=? cu_staged_height c)
       && (cu_tip_height c <=? tip_height)
       && negb (in_state c [B "published"; B "rejected"; B "conflicting"]))
     (btree_iter cursors)).

Definition coalesce_advancing_recovery_job (now : Z) (peer identity : list byte) (tip_hash : Hash256)
    (tip_height : Z) (consensus_profile : list byte) (ancestor_height : Z) (ancestor_hash : Hash256)
    (branch_root_hash : option Hash256) : RS (list byte) := fun rs =>
  let incoming_key := cursor_key peer rs in
  let target_key := recovery_cursor_key tip_hash in
  match advancing_job incoming_key identity tip_height consensus_profile ancestor_height ancestor_hash
          branch_root_hash (rs_cursors rs) with
  | None => (Ok incoming_key, rs)
  | Some (existing_key, job) =>
      let cursors := <[target_key := retarget now peer identity tip_hash tip_height job]>
                       (delete incoming_key (delete existing_key (rs_cursors rs))) in
      let redirect key := if bool_decide (key = existing_key) || bool_decide (key = incoming_key)
                          then target_key else key in
      (Ok target_key, rs <|rs_cursors := cursors|>
                         <|rs_peer_keys := <[peer := target_key]> (redirect <$> rs_peer_keys rs)|>)
  end.

Definition coalesce_recovery_job_after_branch_root (now : Z) (peer identity : list byte) : RS bool := fun rs =>
  match rs_cursors rs !! cursor_key peer rs with
  | None => (Ok false, rs)
  | Some incoming =>
      match cu_ancestor_height incoming, cu_ancestor_hash incoming, cu_branch_root_hash incoming with
      | Some ancestor_height, Some ancestor_hash, Some branch_root_hash =>
          (do? target := coalesce_advancing_recovery_job now peer identity (cu_tip_hash incoming)
             (cu_tip_height incoming) (cu_consensus_profile incoming) ancestor_height ancestor_hash
             (Some branch_root_hash) in
           st_read (fun rs => Ok (match rs_cursors rs !! target with
             | Some c => negb (bool_decide (cursor_spool_tip c = cu_tip_hash incoming))
             | None => false
             end))) rs
      | _, _, _ => (Ok false, rs)
      end
  end.

(** A job saved under a route moves to the identity of the peer. *)
Definition migrate_branch_sync_cursor (peer identity : list byte) : RS unit :=
  modify (fun rs =>
    match rs_cursors rs !! peer with
    | None => rs
    | Some c =>
        let cursors := delete peer (rs_cursors rs) in
        rs <|rs_cursors :=
          match cursors !! identity with
          | Some known => if cu_updated_at known <? cu_updated_at c then <[identity := c]> cursors else cursors
          | None => <[identity := c]> cursors
          end|>
    end) ;!
  persist_logged.

Definition clear_branch_sync_cursor (peer : list byte) : RS unit :=
  modify (fun rs =>
    let key := cursor_key peer rs in
    match rs_cursors rs !! key with
    | Some c => if has_ancestor c then rs else rs <|rs_cursors := delete key (rs_cursors rs)|>
    | None => rs
    end) ;!
  persist_logged.

Definition advance_branch_sync_cursor (now : Z) (peer : list byte) (next_hash : Hash256) : RS unit :=
  modify (fun rs =>
    let key := cursor_key peer rs in
    rs <|rs_cursors :=
      match rs_cursors rs !! key with
      | Some c => <[key := c <|cu_next_hash := next_hash|>
                             <|cu_imported_bodies := sat_add U64_MAX (cu_imported_bodies c) 1|>
                             <|cu_updated_at := now|>]> (rs_cursors rs)
      | None => <[key := new_branch_sync_cursor now next_hash 0 []]> (rs_cursors rs)
      end|>) ;!
  persist_logged.

(** Whether the body completed the job. *)
Definition record_forward_recovery_progress (now : Z) (peer : list byte) (block : Block) : RS bool := fun rs =>
  let key := cursor_key peer rs in
  match rs_cursors rs !! key with
  | None => (Ok false, rs)
  | Some c =>
      match forward_progress now c block with
      | None => (Ok false, rs)
      | Some c =>
          let checkpoint := consumed c || (cu_imported_bodies c mod SYNC_CHECKPOINT_BATCH_SIZE =? 0) in
          (modify (fun rs => rs <|rs_cursors := <[key := c]> (rs_cursors rs)|>) ;!
           (if checkpoint then persist_logged else st_ret tt) ;!
           st_ret (consumed c)) rs
      end
  end.

Definition record_recovery_request (now : Z) (peer : list byte) (height : Z) : RS unit := fun rs =>
  let key := cursor_key peer rs in
  match rs_cursors rs !! key with
  | Some c =>
      if consumed c || in_state c [B "complete"] then (Ok tt, rs)
      else (update_cursor key (request_range now peer height) ;! persist_logged) rs
  | None => persist_logged rs
  end.

Definition reset_recovery_cursor_for_fork (now : Z) (peer : list byte) : RS unit := fun rs =>
  match (key ← route_key peer rs; c ← rs_cursors rs !! key; Some (key, c)) with
  | None => (Ok tt, rs)
  | Some (key, c) =>
      if has_ancestor c then
        (update_cursor key (fun c =>
           c <|cu_ancestor_height := None|> <|cu_ancestor_hash := None|> <|cu_expected_parent_hash := None|>
             <|cu_next_height := 0|> <|cu_requested_height := None|> <|cu_state := B "pending-ancestor"|>
             <|cu_last_failure := None|> <|cu_updated_at := now|>) ;!
         unbind key ;!
         persist_logged) rs
      else (Ok tt, rs)
  end.

(** ** Witnesses *)

Definition register_recovery_peer_role (peer identity : list byte) (tip_hash : Hash256) (primary : bool)
    : RS (option (list Z)) := fun rs =>
  let key := recovery_cursor_key tip_hash in
  match rs_cursors rs !! key with
  | None => (Ok None, rs)
  | Some c =>
      let '(c, heights) := register_role primary peer identity c in
      (modify (fun rs => rs <|rs_cursors := <[key := c]> (rs_cursors rs)|>) ;!
       persist_logged ;!
       st_ret (if bool_decide (heights = []) then None else Some heights)) rs
  end.

Definition remove_stale_recovery_witness (now : Z) (tip_hash : Hash256) (identity : list byte) : RS bool := fun rs =>
  let key := recovery_cursor_key tip_hash in
  match rs_cursors rs !! key with
  | None => (Ok false, rs)
  | Some c =>
      if negb (bool_decide (cu_witness_identity c = Some identity)) then (Ok false, rs)
      else (update_cursor key (remove_witness now) ;! persist_logged ;! st_ret true) rs
  end.

(** A change to one job, saved. *)
Definition save_cursor (key : list byte) (c : BranchSyncCursor) : RS unit :=
  modify (fun rs => rs <|rs_cursors := <[key := c]> (rs_cursors rs)|>) ;!
  persist_branch_sync_cursors.

(** The mode and the state of a job after a sample of the primary, and after
    the headers of the witness. *)
Definition primary_checked (c : BranchSyncCursor) : BranchSyncCursor :=
  let c := if all_samples_match c && negb (bool_decide (cu_witness_identity c = None))
           then c <|cu_provider_mode := B "cross-checked"|> else c in
  if consumed c && in_mode c [B "single-provider"; B "cross-checked"] then c <|cu_state := B "complete"|> else c.
Definition witness_checked (c : BranchSyncCursor) : BranchSyncCursor :=
  let c := if all_samples_match c then c <|cu_provider_mode := B "cross-checked"|> else c in
  if consumed c && all_samples_match c then c <|cu_state := B "complete"|> else c.

(** A known sample of the other side differs. *)
Definition contradicts (samples : gmap Z Hash256) (number : Z) (hash : Hash256) : bool :=
  match samples !! number with Some other => negb (bool_decide (other = hash)) | None => false end.

Definition mismatch : string := "witness header mismatch".

Definition record_primary_witness_sample (peer : list byte) (block : Block) : RS bool := fun rs =>
  let key := cursor_key peer rs in
  let number := hdr_number (blk_header block) in
  let hash := header_hash (blk_header block) in
  match rs_cursors rs !! key with
  | None => (Ok false, rs)
  | Some c =>
      if negb (bool_decide (number ∈ cu_witness_sample_heights c)) then (Ok false, rs)
      else
        let c := c <|cu_primary_sample_hashes := <[number := hash]> (cu_primary_sample_hashes c)|> in
        if contradicts (cu_witness_sample_hashes c) number hash
        then (save_cursor key (conflicting mismatch c) ;! st_res (Err mismatch)) rs
        else
          let c := primary_checked c in
          (save_cursor key c ;!
           st_ret (consumed c && in_mode c [B "single-provider"; B "cross-checked"])) rs
  end.

(** The headers of the witness up to the first one that is refused. *)
Fixpoint witness_headers (c : BranchSyncCursor) (headers : list BlockHeader)
    : res string unit * BranchSyncCursor :=
  match headers with
  | [] => (Ok tt, c)
  | header :: headers =>
      let number := hdr_number header in
      let hash := header_hash header in
      if negb (bool_decide (number ∈ cu_witness_sample_heights c))
      then (Err "witness returned an unrequested header height"%string, c)
      else if contradicts (cu_primary_sample_hashes c) number hash
      then (Err mismatch, conflicting mismatch c)
      else witness_headers (c <|cu_witness_sample_hashes := <[number := hash]> (cu_witness_sample_hashes c)|>) headers
  end.

(** A conflict is saved, an unrequested height is not. *)
Definition record_witness_headers (tip_hash : Hash256) (identity : list byte) (headers : list BlockHeader)
    : RS bool := fun rs =>
  let key := recovery_cursor_key tip_hash in
  match rs_cursors rs !! key with
  | None => (Err "witness response has no recovery job"%string, rs)
  | Some c =>
      if negb (bool_decide (cu_witness_identity c = Some identity))
      then (Err "witness response came from an unselected peer identity"%string, rs)
      else
        match witness_headers c headers with
        | (Ok _, c) =>
            let c := witness_checked c in
            (save_cursor key c ;! st_ret (consumed c && all_samples_match c)) rs
        | (Err e, c) =>
            if bool_decide (e = mismatch) then (save_cursor key c ;! st_res (Err e)) rs
            else (Err e, rs <|rs_cursors := <[key := c]> (rs_cursors rs)|>)
        | (Panic, c) => (Panic, rs)
        end
  end.

Definition record_recovery_failure (now : Z) (peer : list byte) (reason : string) : RS unit := fun rs =>
  match (key ← route_key peer rs; c ← rs_cursors rs !! key; Some (key, c)) with
  | None => persist_logged rs
  | Some (key, c) =>
      if consumed c || in_state c [B "complete"; B "replaying"; B "published"] then (Ok tt, rs)
      else (update_cursor key (failed_attempt now peer reason) ;! persist_logged) rs
  end.

Definition mark_recovery_spool_unverified (now : Z) (peer : list byte) (reason : string) : RS unit := fun rs =>
  (update_cursor (cursor_key peer rs) (fun c =>
     c <|cu_spool_verified := false|> <|cu_last_failure := Some reason|> <|cu_updated_at := now|>) ;!
   persist_logged) rs.
End recovery.
