(* ===== verification/Sync.v ===== *)
(** Recovery against the node's storage in [crates/blq-node/src/main.rs]: the
    locator, the repair of a job from its durable bodies, what becomes of a
    job whose branch is canonical, the next request to a peer, and the
    publication of a completed job.

    The steps run on the pair of the storage and the recovery state.  A step
    that the code makes under a lock of its own is a step here; what other
    threads do between two steps is not part of these definitions, except for
    the publication itself, which takes it as [Others]. *)

From Stdlib Require Import ZArith Lia Strings.String Strings.Byte.
From stdpp Require Import sorting gmap fin_maps base list.
From S2P Require Import Prelude Externals Primitives Canonical Rlp RawTx Pow Consensus State StateRoot.
From S2P Require Import Transition Evm Difficulty BlockExec Mempool Admission Replay Network.
From S2P Require Import Sled AccountStore BlockStore Generation Publish CandidateStore NodeStore Snapshots Branch.
From S2P Require Import Import Cursor Recovery.
#[local] Open Scope Z_scope.

(** What the node asks a peer for. *)
Inductive Request :=
  | FindCommonAncestor (locator : list (list byte))
  | GetBlockRange (from limit : Z).

Section sync.
Context {S : Sled} {HX : HexCodec} {D : Digests} {U : U256Ops} {R : Revm} {SE : Secp} {RX : RandomX} {BP : BuildProfile}.
Context {JB : Json Block} {JH : Json BlockHeader} {JT : Json Transaction} {JR : Json StoredReceipt}.
Context {JE : Json (list SerializedEvmSnapshotEntry)}.
Context {IO : FileIo} {JM : Json GenerationManifest} {JC : Json ReplayCheckpoint}.
Context {JP : Json GenerationPublicationRecord} {JS : Json SuffixPublicationRecord} {CM : CompactManifest}.
Context {HO : Host} {CI : CursorIo}.

Definition Job (A : Type) : Type := StM string (NodeStorage * RecoveryState) A.

Definition on_node {A} (m : Node A) : Job A := fun '(n, rs) => let '(r, n) := m n in (r, (n, rs)).
Definition on_jobs {A} (m : RS A) : Job A := fun '(n, rs) => let '(r, rs) := m rs in (r, (n, rs)).
Definition read_node {A} (f : NodeStorage -> res string A) : Job A := on_node (st_read f).
Definition read_jobs {A} (f : RecoveryState -> A) : Job A := on_jobs (st_read (fun rs => Ok (f rs))).

Definition node_recovery_spool_blocks_for_tip (tip_hash : Hash256) : Node (list (Block * Z)) :=
  on_full (any (on_db (recovery_blocks_for_tip tip_hash))) (Err (needs_full "recovery spool requires")).
Definition node_recovery_spool_tips : NodeStorage -> res string (list Hash256) :=
  of_full (fun s => any_res (recovery_spool_tips s)) (fun _ => Ok []).
Definition node_clear_recovery_spool_for_tip (tip_hash : Hash256) : Node unit :=
  on_full (any (on_db (clear_recovery_blocks_for_tip tip_hash))) (Ok tt).
Definition clear_obsolete_candidates : Node unit :=
  on_full (any (on_db clear_candidate_blocks)) (Ok tt).

Definition network_consensus_profile (rc : ReplayConfig) (genesis_hash : Hash256) : list byte :=
  let height o := match o with Some h => dec_string h | None => B "disabled" end in
  consensus_profile_for_genesis genesis_hash
    ++ B "|block_size_activation_height=" ++ height (rp_block_size_activation_height rc)
    ++ B "|block_time_v2_activation_height=" ++ height (rp_block_time_v2_activation_height rc)
    ++ B "|block_time_v2_target=15|block_time_v2_window=16|block_time_v2_fast_median=3|block_time_v2_slow_interval=60".

(** ** The locator *)

(** Dense for the last ten blocks, then with doubling steps. *)
Fixpoint locator_loop (fuel : nat) (height step : Z) (locator : list (list byte)) (n : NodeStorage)
    : res string (list (list byte)) :=
  match fuel with
  | O => Panic
  | Datatypes.S fuel =>
      let? block := any_res (node_block_by_number n height) in
      let locator := locator ++ [hash_to_hex (header_hash (blk_header block))] in
      if height =? 0 then Ok locator
      else
        locator_loop fuel (sat_sub height step)
          (if 10 <=? Z.of_nat (length locator) then sat_mul U64_MAX step 2 else step) locator n
  end.

(** The height falls in every round. *)
Definition recovery_locator (n : NodeStorage) : res string (list (list byte)) :=
  let? best := any_res (node_best_header n) in
  locator_loop (Datatypes.S (Z.to_nat (hdr_number best))) (hdr_number best) 1 [] n.

(** ** Bodies and the canonical chain *)

Definition is_canonical_next_body (n : NodeStorage) (block : Block) : bool :=
  match node_best_header n with
  | Ok parent => (hdr_number (blk_header block) =? sat_add U64_MAX (hdr_number parent) 1)
                 && bool_decide (hdr_parent_hash (blk_header block) = header_hash parent)
  | _ => false
  end.

(** The stored block at [number] has [hash]. *)
Definition canonical_has (n : NodeStorage) (number : Z) (hash : Hash256) : bool :=
  match node_block_by_number n number with
  | Ok canonical => bool_decide (header_hash (blk_header canonical) = hash)
  | _ => false
  end.

Definition is_canonical_body (n : NodeStorage) (block : Block) : bool :=
  canonical_has n (hdr_number (blk_header block)) (header_hash (blk_header block)).

Definition reconcile_recovery_cursor_to_canonical_prefix (now : Z) (peer : list byte) : Job unit := fun '(n, rs) =>
  match node_best_header n, (key ← route_key peer rs; c ← rs_cursors rs !! key; Some (key, c)) with
  | Ok local, Some (key, c) =>
      if has_ancestor c && (cu_next_height c <=? hdr_number local) && (hdr_number local <? cu_tip_height c)
      then on_jobs (update_cursor key (fun c =>
             c <|cu_next_height := sat_add U64_MAX (hdr_number local) 1|>
               <|cu_expected_parent_hash := Some (header_hash local)|> <|cu_requested_height := None|>
               <|cu_last_failure := None|> <|cu_updated_at := now|>) ;! persist_logged) (n, rs)
      else (Ok tt, (n, rs))
  | _, _ => (Ok tt, (n, rs))
  end.

(** The first body of the branch is already canonical. *)
Definition record_canonical_recovery_root (now : Z) (peer : list byte) (block : Block) : Job bool := fun '(n, rs) =>
  let key := cursor_key peer rs in
  match rs_cursors rs !! key with
  | Some c =>
      match cu_ancestor_height c with
      | Some ancestor =>
          if is_canonical_body n block
             && (hdr_number (blk_header block) =? sat_add U64_MAX ancestor 1)
             && bool_decide (cu_ancestor_hash c = Some (hdr_parent_hash (blk_header block)))
          then on_jobs (update_cursor key (fun c =>
                 c <|cu_branch_root_hash := Some (header_hash (blk_header block))|> <|cu_updated_at := now|>) ;!
                 persist_logged ;! st_ret true) (n, rs)
          else (Ok false, (n, rs))
      | None => (Ok false, (n, rs))
      end
  | None => (Ok false, (n, rs))
  end.

(** The answer to a locator ([sync_with_peer]); [identity] is that of the
    session.  The result is the key of the job. *)
Definition accept_common_ancestor (now : Z) (peer : list byte) (identity : option (list byte)) (height : Z)
    (hash : Hash256) : Job (list byte) :=
  do? local_match := read_node (fun n => any_res (node_block_by_number n height)) in
  if negb (bool_decide (header_hash (blk_header local_match) = hash))
  then st_res (Err "peer common ancestor is not local canonical history"%string)
  else
    do? key := read_jobs (cursor_key peer) in
    do? found := read_jobs (fun rs => rs_cursors rs !! key) in
    do? incoming := st_res (ok_or found "common ancestor arrived without recovery cursor"%string) in
    on_jobs (update_cursor key (join_ancestor now height hash)) ;!
    do? key := match identity with
      | Some identity => on_jobs (coalesce_advancing_recovery_job now peer identity (cu_tip_hash incoming)
                           (cu_tip_height incoming) (cu_consensus_profile incoming) height hash None)
      | None => st_ret key
      end in
    on_jobs persist_branch_sync_cursors ;!
    st_ret key.

(** ** The repair of a job from its spool *)

(** The canonical blocks the branch shares above its ancestor. *)
Fixpoint canonical_prefix (n : NodeStorage) (numbers : list Z) (next_height : Z) (expected_parent : Hash256)
    (root : option Hash256) : Z * Hash256 * option Hash256 :=
  match numbers with
  | [] => (next_height, expected_parent, root)
  | number :: numbers =>
      match node_block_by_number n number with
      | Ok block =>
          if negb (bool_decide (hdr_parent_hash (blk_header block) = expected_parent))
          then (next_height, expected_parent, root)
          else
            let hash := header_hash (blk_header block) in
            canonical_prefix n numbers (sat_add U64_MAX next_height 1) hash
              (match root with Some r => Some r | None => Some hash end)
      | _ => (next_height, expected_parent, root)
      end
  end.

(** The bodies that continue the branch; [None] when the spool starts with a
    block that has become canonical. *)
Fixpoint spool_prefix (first : Z) (at_start : bool) (canonical_root : option Hash256) (spool : list (Block * Z))
    (next_height : Z) (expected_parent : Hash256) (root : option Hash256)
    : option (Z * Hash256 * option Hash256) :=
  match spool with
  | [] => Some (next_height, expected_parent, root)
  | (block, _) :: spool =>
      let h := blk_header block in
      if hdr_number h <? next_height
      then spool_prefix first at_start canonical_root spool next_height expected_parent root
      else if (hdr_number h =? first) && at_start && bool_decide (canonical_root = Some (header_hash h)) then None
      else if negb (hdr_number h =? next_height) || negb (bool_decide (hdr_parent_hash h = expected_parent))
      then Some (next_height, expected_parent, root)
      else
        let root := match root with
                    | None => if hdr_number h =? first then Some (header_hash h) else None
                    | Some r => Some r
                    end in
        spool_prefix first at_start canonical_root spool (sat_add U64_MAX next_height 1) (header_hash h) root
  end.

(** Bodies saved under a moved tip join the spool of the job. *)
Definition merge_moved_spool (c : BranchSyncCursor) : Node unit :=
  let spool_tip := cursor_spool_tip c in
  if bool_decide (cu_tip_hash c = spool_tip) then st_ret tt
  else
    do? moved := node_recovery_spool_blocks_for_tip (cu_tip_hash c) in
    if bool_decide (moved = []) then st_ret tt
    else
      st_for moved (fun bw => node_store_recovery_spool_block spool_tip bw.1 bw.2) ;!
      flush_sync_batch.

(** The ancestor is no longer canonical: only the ancestor search remains. *)
Definition forget_ancestor (now : Z) (c : BranchSyncCursor) : BranchSyncCursor :=
  c <|cu_ancestor_height := None|> <|cu_ancestor_hash := None|> <|cu_branch_root_hash := None|>
    <|cu_next_height := 0|> <|cu_expected_parent_hash := None|> <|cu_staged_height := 0|>
    <|cu_imported_bodies := 0|> <|cu_spool_verified := false|> <|cu_state := B "pending-retrieval"|>
    <|cu_requested_height := None|> <|cu_requested_at := 0|>
    <|cu_last_failure := Some "saved recovery ancestor is not retained canonical history; rediscovering locator"%string|>
    <|cu_updated_at := now|>.

(** The job at the end of the bodies that were found. *)
Definition repaired_cursor (now ancestor_height next_height : Z) (expected_parent : Hash256)
    (root : option Hash256) (c : BranchSyncCursor) : BranchSyncCursor :=
  let imported := sat_sub next_height (sat_add U64_MAX ancestor_height 1) in
  let staged_height := sat_sub next_height 1 in
  let target_advanced := cu_tip_height c <? staged_height in
  let repaired := negb (next_height =? cu_next_height c)
    || negb (bool_decide (cu_expected_parent_hash c = Some expected_parent))
    || negb (cu_imported_bodies c =? imported) || target_advanced in
  let c := c <|cu_next_height := next_height|> <|cu_staged_height := staged_height|>
             <|cu_expected_parent_hash := Some expected_parent|> <|cu_imported_bodies := imported|>
             <|cu_branch_root_hash := root|> <|cu_spool_verified := true|> <|cu_updated_at := now|> in
  let c := if target_advanced then c <|cu_tip_hash := expected_parent|> <|cu_tip_height := staged_height|> else c in
  if repaired
  then c <|cu_state := if consumed c then B "complete" else B "retrieving"|> <|cu_requested_height := None|>
         <|cu_requested_at := 0|>
         <|cu_last_failure :=
             Some "recovery spool checkpoint was incomplete; resumed from last contiguous body"%string|>
  else c.

(** The repaired job takes the key of its new target. *)
Definition replace_cursor (key replacement_key : list byte) (c : BranchSyncCursor) : RS unit :=
  modify (fun rs => rs <|rs_cursors := <[replacement_key := c]> (delete key (rs_cursors rs))|>
    <|rs_peer_keys := (fun k => if bool_decide (k = key) then replacement_key else k) <$> rs_peer_keys rs|>).

Definition repair_from_spool (now : Z) (key : list byte) (c : BranchSyncCursor) (ancestor_height : Z)
    (ancestor_hash : Hash256) : Job unit :=
  let spool_tip := cursor_spool_tip c in
  let first := sat_add U64_MAX ancestor_height 1 in
  on_node (merge_moved_spool c) ;!
  do? canonical_ancestor := read_node (fun n => any_res (node_block_by_number n ancestor_height)) in
  do? canonical_root := read_node (fun n => attempt (node_block_by_number n first)) in
  let canonical_root := (fun b => header_hash (blk_header b)) <$> canonical_root in
  do? spool := on_node (node_recovery_spool_blocks_for_tip spool_tip) in
  if negb (bool_decide (header_hash (blk_header canonical_ancestor) = ancestor_hash))
  then st_res (Err "recovery cursor ancestor is no longer canonical"%string)
  else
    do? (next_height, expected_parent, root) :=
      if match cu_branch_root_hash c with Some root => bool_decide (canonical_root = Some root) | None => false end
      then
        do? local := read_node (fun n => any_res (node_best_header n)) in
        read_node (fun n => Ok (canonical_prefix n (range_incl first (Z.min (hdr_number local) (cu_tip_height c)))
                                  first ancestor_hash None))
      else st_ret (first, ancestor_hash, None) in
    do? (next_height, expected_parent, root) :=
      match spool_prefix first (cu_next_height c <=? first) canonical_root spool next_height expected_parent root with
      | Some found => st_ret found
      | None =>
          on_node (node_clear_recovery_spool_for_tip spool_tip) ;!
          st_ret (first, ancestor_hash, None)
      end in
    let repaired := repaired_cursor now ancestor_height next_height expected_parent root c in
    on_jobs (replace_cursor key
      (if cu_tip_height c <? cu_staged_height repaired then recovery_cursor_key expected_parent else key)
      repaired) ;!
    on_jobs persist_branch_sync_cursors.

Definition reconcile_forward_recovery_spool (now : Z) (peer : list byte) : Job unit :=
  do? key := read_jobs (cursor_key peer) in
  do? found := read_jobs (fun rs => rs_cursors rs !! key) in
  match found with
  | None => st_ret tt
  | Some c =>
      match cu_ancestor_height c, cu_ancestor_hash c with
      | Some ancestor_height, Some ancestor_hash =>
          do? usable := read_node (fun n => Ok (canonical_has n ancestor_height ancestor_hash)) in
          if negb usable then
            on_node (node_clear_recovery_spool_for_tip (cursor_spool_tip c)) ;!
            on_jobs (update_cursor key (forget_ancestor now)) ;!
            on_jobs persist_branch_sync_cursors
          else repair_from_spool now key c ancestor_height ancestor_hash
      | _, _ => st_ret tt
      end
  end.
End sync.
