(* ===== verification/Driver.v ===== *)
(** The life of a recovery job in [crates/blq-node/src/main.rs]: what a hello
    of a peer starts ([request_peer_branch_cursor]), what is restored at
    startup, the selection of a completed job, its publication, and the
    removal of jobs whose branch is canonical. *)

From Stdlib Require Import ZArith Lia Strings.String Strings.Byte.
From stdpp Require Import sorting gmap fin_maps base list.
From S2P Require Import Prelude Externals Primitives Canonical Rlp RawTx Pow Consensus State StateRoot.
From S2P Require Import Transition Evm Difficulty BlockExec Mempool Admission Replay Network.
From S2P Require Import Sled AccountStore BlockStore Generation Publish CandidateStore NodeStore Snapshots Branch.
From S2P Require Import Import Cursor Recovery Sync.
#[local] Open Scope Z_scope.

(** What a hello of a peer leads to. *)
Inductive HelloOutcome := Matching | Publish | Ask (request : Request).

(** The state of the publication worker: the storage, [generations/], the name
    there of the directory the open storage is in, and the recovery state. *)
Record Worker {S : Sled} := {
  wk_node : NodeStorage;
  wk_root : GenerationsRoot;
  wk_dir : list byte;
  wk_jobs : RecoveryState;
}.

Section driver.
Context {S : Sled} {HX : HexCodec} {D : Digests} {U : U256Ops} {R : Revm} {SE : Secp} {RX : RandomX} {BP : BuildProfile}.
Context {JB : Json Block} {JH : Json BlockHeader} {JT : Json Transaction} {JR : Json StoredReceipt}.
Context {JE : Json (list SerializedEvmSnapshotEntry)}.
Context {IO : FileIo} {JM : Json GenerationManifest} {JC : Json ReplayCheckpoint}.
Context {JP : Json GenerationPublicationRecord} {JS : Json SuffixPublicationRecord} {CM : CompactManifest}.
Context {HO : Host} {CI : CursorIo}.

Context {SI : SnapshotIo} {JX : Json ExecutionSnapshot} {JG : Json GenerationSnapshot}.

(** [or_else] of a lookup that may repair the spool index. *)
Definition or_else {A} (m1 m2 : Node A) : Node A := fun n =>
  match m1 n with
  | (Err _, n) => m2 n
  | r => r
  end.

Definition spool_body (hash : Hash256) : Node Block :=
  do? bw := node_recovery_spool_block_by_hash hash in st_ret bw.1.
Definition stored_body (hash : Hash256) : Node Block := st_read (fun n => node_block_by_hash n hash).

(** ** Jobs whose branch is canonical *)

(** A job that never started, for a tip below the chain. *)
Definition stale_unstarted (best : Z) (c : BranchSyncCursor) : bool :=
  (cu_tip_height c <? best) && negb (has_ancestor c) && (cu_staged_height c =? 0)
  && (cu_imported_bodies c =? 0) && (cu_next_height c =? 0).

Definition remove_jobs (keys : gset (list byte)) : RS unit :=
  modify (fun rs => rs
    <|rs_cursors := retain (fun key _ => negb (bool_decide (key ∈ keys))) (rs_cursors rs)|>
    <|rs_peer_keys := retain (fun _ key => negb (bool_decide (key ∈ keys))) (rs_peer_keys rs)|>).

Definition clear_canonical_recovery_cursor : Job unit := fun '(n, rs) =>
  let candidates := btree_iter (rs_cursors rs) in
  if bool_decide (candidates = []) then (Ok tt, (n, rs))
  else
    match node_best_header n with
    | Ok best =>
        let is_canonical kc := canonical_has n (cu_tip_height kc.2) (cu_tip_hash kc.2) in
        let canonical := List.filter is_canonical candidates in
        let stale := List.filter (fun kc => negb (is_canonical kc) && stale_unstarted (hdr_number best) kc.2) candidates in
        if bool_decide (canonical = []) && bool_decide (stale = []) then (Ok tt, (n, rs))
        else
          (on_node (st_for canonical (fun kc => logged (node_clear_recovery_spool_for_tip (cursor_spool_tip kc.2)))) ;!
           on_jobs (remove_jobs (list_to_set (map fst (canonical ++ stale))) ;! persist_logged)) (n, rs)
    | Panic => (Panic, (n, rs))
    | Err _ => (Ok tt, (n, rs))
    end.

(** A published branch keeps neither its job nor its spool. *)
Definition finalize_published_recovery (tip_hash : Hash256) : Job unit := fun '(n, rs) =>
  let key := recovery_cursor_key tip_hash in
  match rs_cursors rs !! key with
  | None => (Ok tt, (n, rs))
  | Some c =>
      match node_clear_recovery_spool_for_tip (cursor_spool_tip c) n with
      | (Ok _, n) => on_jobs (remove_jobs {[key]} ;! persist_logged) (n, rs)
      | (Err _, n) => (Ok tt, (n, rs))
      | (Panic, n) => (Panic, (n, rs))
      end
  end.

(** ** Restart *)

(** The bodies of a spool that continue one another, from the first on. *)
Fixpoint linked_bodies (spool : list (Block * Z)) (expected_height : Z) (expected_parent : Hash256) (imported : Z)
    : Z * Hash256 * Z :=
  match spool with
  | [] => (expected_height, expected_parent, imported)
  | (block, _) :: spool =>
      let h := blk_header block in
      if negb (hdr_number h =? expected_height) || negb (bool_decide (hdr_parent_hash h = expected_parent))
      then (expected_height, expected_parent, imported)
      else linked_bodies spool (sat_add U64_MAX expected_height 1) (header_hash h) (sat_add U64_MAX imported 1)
  end.

(** The job of a spool without one, when it rises above the chain. *)
Definition orphaned_job (now : Z) (canonical : list Block) (profile : list byte) (spool_tip : Hash256)
    (spool : list (Block * Z)) : option BranchSyncCursor :=
  first ← head spool;
  let number := hdr_number (blk_header first.1) in
  if number =? 0 then None
  else
    ancestor ← canonical !! Z.to_nat (number - 1);
    let hash := header_hash (blk_header ancestor) in
    if negb (bool_decide (hash = hdr_parent_hash (blk_header first.1))) then None
    else
      let '(expected_height, expected_parent, imported) := linked_bodies spool number hash 0 in
      let staged_height := sat_sub expected_height 1 in
      let canonical_height := match last canonical with Some b => hdr_number (blk_header b) | None => 0 end in
      if (imported =? 0) || (staged_height <=? canonical_height) then None
      else Some ((new_branch_sync_cursor now expected_parent staged_height profile)
        <|cu_spool_tip_hash := Some spool_tip|> <|cu_ancestor_height := Some (number - 1)|>
        <|cu_ancestor_hash := Some hash|> <|cu_branch_root_hash := Some (header_hash (blk_header first.1))|>
        <|cu_imported_bodies := imported|> <|cu_staged_height := staged_height|>
        <|cu_next_height := expected_height|> <|cu_expected_parent_hash := Some expected_parent|>
        <|cu_state := B "complete"|> <|cu_provider_mode := B "single-provider"|> <|cu_spool_verified := true|>
        <|cu_updated_at := now|>).

Fixpoint restore_spools (now : Z) (canonical : list Block) (profile : list byte) (known : list Hash256)
    (tips : list Hash256) (restored : bool) : Job bool :=
  match tips with
  | [] => st_ret restored
  | spool_tip :: tips =>
      if bool_decide (spool_tip ∈ known) then restore_spools now canonical profile known tips restored
      else
        do? spool := on_node (node_recovery_spool_blocks_for_tip spool_tip) in
        match orphaned_job now canonical profile spool_tip spool with
        | None => restore_spools now canonical profile known tips restored
        | Some c =>
            on_jobs (modify (fun rs =>
              rs <|rs_cursors := <[recovery_cursor_key (cu_tip_hash c) := c]> (rs_cursors rs)|>)) ;!
            restore_spools now canonical profile known tips true
        end
  end.

Definition restore_orphaned_recovery_spools (now : Z) (rc : ReplayConfig) : Job unit :=
  do? known := read_jobs (fun rs => map (fun kc => cursor_spool_tip kc.2) (btree_iter (rs_cursors rs))) in
  do? tips := read_node node_recovery_spool_tips in
  do? canonical := read_node node_canonical_blocks in
  do? profile := read_node (fun n => Ok (network_consensus_profile rc (configured_genesis_hash n))) in
  do? restored := restore_spools now canonical profile known tips false in
  if (restored : bool) then on_jobs persist_branch_sync_cursors else st_ret tt.

(** The tip of a completed job, and its work, as a candidate again. *)
Definition restore_completed_candidate (tip_hash : Hash256) : Job (BlockHeader * Z) :=
  do? spool_tip := read_jobs (fun rs =>
    default tip_hash (cursor_spool_tip <$> rs_cursors rs !! recovery_cursor_key tip_hash)) in
  on_node (
    do? tip := or_else (or_else (spool_body tip_hash) (spool_body spool_tip)) (stored_body tip_hash) in
    do? branch := candidate_branch_from_storage tip in
    do? ancestor_work := st_read (fun n => canonical_work_through_node_storage n (cb_common_height branch)) in
    let work := fold_left (fun total b => sat_add U128_MAX total (work_for_target (hdr_difficulty_target (blk_header b))))
                  (cb_suffix branch) ancestor_work in
    node_store_candidate_block tip work ;!
    st_ret (blk_header tip, work)).

(** The job that keeps the node from mining on its own tip. *)
Definition unresolved_branch_cursor (rc : ReplayConfig) (n : NodeStorage) (rs : RecoveryState)
    : option BranchSyncCursor :=
  match node_best_header n, node_canonical_blocks n with
  | Ok local, Ok canonical =>
      let profile := network_consensus_profile rc (configured_genesis_hash n) in
      max_by_key recovery_cursor_progress_key (List.filter (fun c =>
        negb (in_state c [B "published"; B "rejected"; B "conflicting"])
        && negb (existsb (fun b => bool_decide (header_hash (blk_header b) = cu_tip_hash c)) canonical)
        && negb (bool_decide (cu_tip_hash c = header_hash local))
        && ((cu_tip_height c =? 0) || (hdr_number local <=? cu_tip_height c))
        && (bool_decide (cu_consensus_profile c = []) || bool_decide (cu_consensus_profile c = profile)))
        (map snd (btree_iter (rs_cursors rs))))
  | _, _ => None
  end.

(** ** The hello of a peer *)

(** The same primary reports a higher tip of its branch. *)
Definition primary_retarget (peer existing_key : list byte) (peer_best_number : Z) (profile : list byte)
    (rs : RecoveryState) : option (list byte * Z * Hash256 * option Hash256) :=
  c ← rs_cursors rs !! existing_key;
  let identity := rs_identities rs !! peer in
  if has_ancestor c && bool_decide (cu_consensus_profile c = profile) && (0 <? cu_next_height c)
     && (cu_tip_height c <? peer_best_number) && bool_decide (identity = cu_primary_identity c)
  then
    identity ← identity; ancestor_height ← cu_ancestor_height c; ancestor_hash ← cu_ancestor_hash c;
    Some (identity, ancestor_height, ancestor_hash, cu_branch_root_hash c)
  else None.

(** A job for the tip of the peer: whether it needs an ancestor, and its next
    height. *)
Definition tip_job (now : Z) (peer : list byte) (peer_tip : Hash256) (peer_best_number : Z) (profile : list byte)
    : RS (bool * Z) := fun rs =>
  let key := recovery_cursor_key peer_tip in
  let c := default (new_branch_sync_cursor now peer_tip peer_best_number profile) (rs_cursors rs !! key) in
  let c := if cu_tip_height c =? 0
           then c <|cu_tip_height := peer_best_number|> <|cu_consensus_profile := profile|> else c in
  (set_peer_recovery_key peer peer_tip ;!
   modify (fun rs => rs <|rs_cursors := <[key := c]> (rs_cursors rs)|>) ;!
   st_ret (negb (has_ancestor c), cu_next_height c)) rs.

(** The forward job the peer continues, or the job of its tip. *)
Definition select_job (now : Z) (local : BlockHeader) (peer existing_key : list byte) (peer_tip : Hash256)
    (peer_best_number : Z) (profile : list byte) : RS (bool * Z) := fun rs =>
  match rs_cursors rs !! existing_key with
  | Some c =>
      if has_ancestor c && bool_decide (cu_consensus_profile c = profile) && (0 <? cu_next_height c) then
        let c := if cu_next_height c <=? hdr_number local
                 then c <|cu_next_height := sat_add U64_MAX (hdr_number local) 1|>
                        <|cu_expected_parent_hash := Some (header_hash local)|> <|cu_last_failure := None|>
                 else c in
        let c := c <|cu_provider := Some peer|> <|cu_state := B "retrieving"|> <|cu_updated_at := now|> in
        (Ok (false, cu_next_height c),
         rs <|rs_cursors := <[existing_key := c]> (rs_cursors rs)|>
            <|rs_peer_keys := <[peer := existing_key]> (rs_peer_keys rs)|>)
      else tip_job now peer peer_tip peer_best_number profile rs
  | None => tip_job now peer peer_tip peer_best_number profile rs
  end.

Definition ask_range (now : Z) (peer : list byte) (needs_ancestor : bool) (next_height : Z) : Job HelloOutcome :=
  if needs_ancestor then
    on_jobs (record_recovery_request now peer 0) ;!
    do? locator := read_node recovery_locator in
    st_ret (Ask (FindCommonAncestor locator))
  else
    on_jobs (record_recovery_request now peer next_height) ;!
    st_ret (Ask (GetBlockRange next_height SYNC_RANGE_SIZE)).

Definition request_peer_branch_cursor (now : Z) (peer : list byte) (peer_best_number : Z)
    (peer_tip : Hash256) (profile : list byte) : Job HelloOutcome :=
  do? local := read_node (fun n => any_res (node_best_header n)) in
  if negb ((hdr_number local <? peer_best_number)
           || ((peer_best_number =? hdr_number local) && negb (bool_decide (peer_tip = header_hash local))))
  then clear_canonical_recovery_cursor ;! st_ret Matching
  else
    reconcile_forward_recovery_spool now peer ;!
    do? completed := read_jobs completed_recovery_tip in
    if (peer_best_number <=? hdr_number local) && negb (bool_decide (completed = None))
    then st_ret Publish
    else
      read_node (fun n => any_res (node_best_header n)) ;!
      on_jobs prune_finalized_recovery_cursors ;!
      do? existing_key := read_jobs (fun rs => default (cursor_key peer rs) (durable_forward_cursor_key peer profile rs)) in
      do? retargeted := read_jobs (primary_retarget peer existing_key peer_best_number profile) in
      do? existing_key := match retargeted with
        | Some (identity, ancestor_height, ancestor_hash, root) =>
            on_jobs (coalesce_advancing_recovery_job now peer identity peer_tip peer_best_number profile
                       ancestor_height ancestor_hash root)
        | None => st_ret existing_key
        end in
      do? (needs_ancestor, next_height) :=
        on_jobs (select_job now local peer existing_key peer_tip peer_best_number profile) in
      on_jobs persist_logged ;!
      ask_range now peer needs_ancestor next_height.

(** ** Publishing a completed job *)

(** The witness of a completed job is dropped when it is the primary, has
    nothing to check, or has not answered for 30 seconds. *)
Definition witness_obsolete (now : Z) (c : BranchSyncCursor) : bool :=
  (negb (bool_decide (cu_primary_identity c = None)) && bool_decide (cu_primary_identity c = cu_witness_identity c))
  || (negb (bool_decide (cu_witness_identity c = None))
      && (bool_decide (cu_witness_sample_heights c = [])
          || (consumed c && (0 <? cu_last_progress_at c) && (30 <=? sat_sub now (cu_last_progress_at c))))).

Definition repair_witness (now : Z) (tip_hash : Hash256) : RS unit := fun rs =>
  let key := recovery_cursor_key tip_hash in
  match rs_cursors rs !! key with
  | Some c =>
      if witness_obsolete now c
      then (update_cursor key (fun c =>
              (drop_witness c) <|cu_provider_mode := B "single-provider"|> <|cu_updated_at := now|>) ;!
            persist_logged) rs
      else (Ok tt, rs)
  | None => (Ok tt, rs)
  end.

(** The candidate that outranks the chain, with its tip body. *)
Definition preferred_candidate (completed_tip : option Hash256) : Job (option (BlockHeader * Z)) :=
  do? preferred := match completed_tip with
    | None => st_ret None
    | Some hash => fun s =>
        match restore_completed_candidate hash s with
        | (Ok candidate, s) => (Ok (Some candidate), s)
        | (Err _, s) => (on_jobs (reset_completed_recovery_for_refetch hash) ;! st_ret None) s
        | (Panic, s) => (Panic, s)
        end
    end in
  match preferred with
  | Some candidate => st_ret (Some candidate)
  | None => read_node (fun n =>
      let? found := attempt (node_latest_candidate_tip n) in
      Ok (match found with Some candidate => candidate | None => None end))
  end.

Definition outranking_tip (now : Z) (completed_tip : option Hash256) : Job (option Block) :=
  do? candidate := preferred_candidate completed_tip in
  match candidate with
  | None =>
      do? durable := read_jobs has_durable_recovery_job in
      (if (durable : bool) then st_ret tt else on_node (logged clear_obsolete_candidates)) ;!
      st_ret None
  | Some (header, work) =>
      do? canonical_work := read_node (fun n =>
        let? tip := attempt (node_best_header n) in
        match tip with
        | None => Ok None
        | Some tip => attempt (canonical_work_through_node_storage n (hdr_number tip))
        end) in
      match canonical_work with
      | None => st_ret None
      | Some canonical_work =>
          if work <=? canonical_work then
            (if bool_decide (completed_tip = Some (header_hash header))
             then on_jobs (reject_completed_recovery now (header_hash header)
                             "completed recovery no longer outranks canonical work")
             else st_ret tt) ;!
            on_node (logged clear_obsolete_candidates) ;!
            st_ret None
          else fun s =>
            match on_node (or_else (spool_body (header_hash header)) (stored_body (header_hash header))) s with
            | (Ok block, s) => (Ok (Some block), s)
            | (Err _, s) => (Ok None, s)
            | (Panic, s) => (Panic, s)
            end
      end
  end.

(** The part of [start_candidate_recovery] before the worker starts; [busy]
    says that a bootstrap or another publication holds its lease. *)
Definition select_candidate (now : Z) (full busy : bool) : Job (option Block) :=
  do? replaying := read_jobs any_recovery_replay_is_active in
  if negb full || busy || replaying then st_ret None
  else
    do? completed_tip := read_jobs completed_recovery_tip in
    do? ready := match completed_tip with
      | None => st_ret true
      | Some tip_hash =>
          on_jobs (repair_witness now tip_hash) ;!
          read_jobs (recovery_tip_ready_for_publication tip_hash)
      end in
    match ready, completed_tip with
    | false, Some tip_hash => on_jobs (set_recovery_state_for_tip now tip_hash (B "waiting-for-witness")) ;! st_ret None
    | _, _ =>
        do? tip := outranking_tip now completed_tip in
        match tip with
        | None => st_ret None
        | Some tip =>
            on_jobs (set_recovery_state_for_tip now (header_hash (blk_header tip)) (B "replaying")) ;!
            st_ret (Some tip)
        end
    end.

(** *** The worker *)

Definition WM (A : Type) : Type := StM string Worker A.
Definition w_job {A} (m : Job A) : WM A := fun w =>
  let '(r, (n, rs)) := m (wk_node w, wk_jobs w) in
  (r, {| wk_node := n; wk_root := wk_root w; wk_dir := wk_dir w; wk_jobs := rs |}).
Definition w_storage {A} (m : StM string (NodeStorage * GenerationsRoot) A) : WM A := fun w =>
  let '(r, (n, root)) := m (wk_node w, wk_root w) in
  (r, {| wk_node := n; wk_root := root; wk_dir := wk_dir w; wk_jobs := wk_jobs w |}).

(** [match m { Ok(()) => done, Err(err) => failed(err) }]. *)
Definition outcome {State} (m : StM string State unit) (done : StM string State unit)
    (failed : string -> StM string State unit) : StM string State unit := fun s =>
  match m s with
  | (Ok _, s) => done s
  | (Err e, s) => failed e s
  | (Panic, s) => (Panic, s)
  end.

(** [suffix.chunks(32)]. *)
Fixpoint chunks (fuel : nat) (l : list Block) : list (list Block) :=
  match fuel, l with
  | Datatypes.S fuel, _ :: _ => take 32 l :: chunks fuel (drop 32 l)
  | _, _ => []
  end.

Definition extends_tip (n : NodeStorage) (branch : CandidateBranch) : bool :=
  match node_best_header n with
  | Ok tip => (hdr_number tip =? cb_common_height branch) && bool_decide (header_hash tip = cb_common_hash branch)
              && match cb_suffix branch with
                 | block :: _ => bool_decide (hdr_parent_hash (blk_header block) = header_hash tip)
                 | [] => false
                 end
  | _ => false
  end.

Definition superseded : string := "candidate replay superseded by current canonical work".

Definition publish_branch (others : Others) (active_id : res StorageError (option Z)) (config : NodeConfig)
    (now : Z) (tip_hash : Hash256) (branch : CandidateBranch) : WM unit := fun w =>
  let set_state state := w_job (on_jobs (set_recovery_state_for_tip now tip_hash state)) in
  let finalize := w_job (finalize_published_recovery tip_hash) in
  if extends_tip (wk_node w) branch
  then outcome (w_storage (st_for (chunks (length (cb_suffix branch)) (cb_suffix branch))
                   (import_direct_recovery_batch active_id config)))
         finalize (fun _ => set_state (B "complete")) w
  else outcome (w_job (on_node (stage_and_publish_candidate others (folder (wk_root w) (wk_dir w)) config branch)))
         finalize
         (fun e => if contains "candidate recovery bootstrap already in progress" e then st_ret tt
                   else if contains superseded e
                   then w_job (on_jobs (reject_completed_recovery now tip_hash superseded))
                   else set_state (B "complete")) w.

Definition recovery_worker (others : Others) (active_id : res StorageError (option Z)) (config : NodeConfig)
    (now : Z) (tip : Block) : WM unit := fun w =>
  let tip_hash := header_hash (blk_header tip) in
  match w_job (on_node (candidate_branch_from_storage tip)) w with
  | (Ok branch, w) => publish_branch others active_id config now tip_hash branch w
  | (Err e, w) =>
      (w_job (on_jobs (set_recovery_state_for_tip now tip_hash (B "waiting-for-provider"))) ;!
       if contains "candidate rejected" e
       then w_job (on_node (logged (node_quarantine_candidate_tip tip_hash (B e))))
       else st_ret tt) w
  | (Panic, w) => (Panic, w)
  end.
End driver.
