(* ===== verification/Locator.v ===== *)
(** The block locator of recovery: it ends, reaches the genesis, stays short,
    and finds an ancestor at most twice as deep as the real one. *)

From Stdlib Require Import ZArith Lia Strings.String Strings.Byte.
From stdpp Require Import sorting gmap fin_maps base list.
From S2P Require Import Prelude Externals Primitives Consensus Sled BlockStore ChainStore Generation Publish NodeStore.
From S2P Require Import Difficulty Branch Sync.
#[local] Open Scope Z_scope.

(** The distance of the i-th entry from the tip. *)
Definition locator_offset (i : nat) : Z := if (i <? 10)%nat then Z.of_nat i else 8 + 2 ^ (Z.of_nat i - 9).
Definition locator_step (i : nat) : Z := locator_offset (Datatypes.S i) - locator_offset i.

Lemma locator_step_eq i : locator_step i = if (i <? 10)%nat then 1 else 2 ^ (Z.of_nat i - 9).
Proof.
  unfold locator_step, locator_offset. destruct (Nat.ltb_spec i 10) as [Hi|Hi].
  - destruct (Nat.ltb_spec (Datatypes.S i) 10); [lia|]. assert (i = 9%nat) as -> by lia. reflexivity.
  - destruct (Nat.ltb_spec (Datatypes.S i) 10); [lia|].
    replace (Z.of_nat (Datatypes.S i) - 9) with (Z.succ (Z.of_nat i - 9)) by lia. rewrite Z.pow_succ_r by lia. lia.
Qed.

Lemma locator_step_pos i : 1 <= locator_step i.
Proof.
  rewrite locator_step_eq. destruct (Nat.ltb_spec i 10); [lia|].
  pose proof (Z.pow_pos_nonneg 2 (Z.of_nat i - 9)). lia.
Qed.

Lemma locator_offset_next i : locator_offset (Datatypes.S i) = locator_offset i + locator_step i.
Proof. unfold locator_step. lia. Qed.

Lemma locator_offset_nonneg i : 0 <= locator_offset i.
Proof.
  unfold locator_offset. destruct (Nat.ltb_spec i 10); [lia|]. pose proof (Z.pow_pos_nonneg 2 (Z.of_nat i - 9)). lia.
Qed.

(** The steps at most double the distance. *)
Lemma locator_step_bound i : locator_step i <= locator_offset i + 1.
Proof.
  rewrite locator_step_eq. unfold locator_offset. destruct (Nat.ltb_spec i 10); [lia|]. lia.
Qed.

Lemma locator_step_next i :
  locator_step i <= U64_MAX ->
  (if 10 <=? Z.of_nat (Datatypes.S i) then sat_mul U64_MAX (locator_step i) 2 else locator_step i)
  = Z.min (locator_step (Datatypes.S i)) U64_MAX.
Proof.
  rewrite !locator_step_eq. intros Hu. unfold sat_mul. destruct (Nat.ltb_spec i 10), (Nat.ltb_spec (Datatypes.S i) 10); try lia.
  - destruct (Z.leb_spec 10 (Z.of_nat (Datatypes.S i))); [lia|]. reflexivity.
  - assert (i = 9%nat) as -> by lia. reflexivity.
  - destruct (Z.leb_spec 10 (Z.of_nat (Datatypes.S i))); [|lia].
    replace (Z.of_nat (Datatypes.S i) - 9) with (Z.succ (Z.of_nat i - 9)) by lia. rewrite Z.pow_succ_r by lia.
    f_equal. lia.
Qed.

Section locator.
Context {S : Sled} {HX : HexCodec} {D : Digests} {JB : Json Block} {JH : Json BlockHeader}.
Context {JT : Json Transaction} {JR : Json StoredReceipt} {HR : SledReadable}.

Definition entry (b : Block) : list byte := hash_to_hex (header_hash (blk_header b)).

(** The heights of the loop from its i-th entry on. *)
Definition heights (tip : Z) (i k : nat) : list Z := map (fun j => tip - locator_offset j) (seq i k) ++ [0].

Lemma locator_loop_exact g c tip i step acc fuel :
  chain_rep (contents (gn_db g)) c -> 0 <= tip < Z.of_nat (length c) -> length acc = i ->
  let height := Z.max 0 (tip - locator_offset i) in
  (0 < height -> step = locator_step i) -> height < Z.of_nat fuel ->
  exists k, (forall j, (i <= j < i + k)%nat -> locator_offset j < tip) /\ tip <= locator_offset (i + k) /\
    locator_loop fuel height step acc (Full g) =
      Ok (acc ++ map (fun h => default [] (entry <$> c !! Z.to_nat h)) (heights tip i k)).
Proof.
  intros Hc Ht. revert i step acc. induction fuel as [|fuel IH]; intros i step acc Hi height Hs Hf; [unfold height in *; lia|].
  pose proof (cr_fits _ _ Hc) as Hfit. unfold list_fits in Hfit.
  pose proof (locator_offset_nonneg i).
  assert (in_u64 height) as Hu by (split; unfold height; unfold U64_MAX in *; lia).
  cbn [locator_loop node_block_by_number of_full]. rewrite (proj2 (header_by_number_rep _ _ _ Hc Hu)).
  destruct (lookup_lt_is_Some_2 c (Z.to_nat height)) as [b Hb]; [unfold height; lia|].
  rewrite Hb. cbn [ok_or any_res res_map_err res_bind].
  destruct (Z.eqb_spec height 0) as [H0|H0].
  - exists 0%nat. split; [lia|]. split; [rewrite Nat.add_0_r; unfold height in H0; lia|].
    unfold heights. cbn [seq map app]. rewrite H0 in Hb. by rewrite Hb.
  - assert (0 < height) as Hp by (unfold height in *; lia). specialize (Hs Hp). subst step.
    pose proof (locator_step_pos i). pose proof (locator_offset_next i) as Hn.
    assert (locator_step i <= U64_MAX) as Hsu by (pose proof (locator_step_bound i); unfold height in Hp; lia).
    replace (Z.of_nat (length (acc ++ [hash_to_hex (header_hash (blk_header b))]))) with (Z.of_nat (Datatypes.S i))
      by (rewrite length_app; cbn; lia).
    rewrite (locator_step_next _ Hsu).
    replace (sat_sub height (locator_step i)) with (Z.max 0 (tip - locator_offset (Datatypes.S i)))
      by (unfold sat_sub, height; rewrite Hn; lia).
    destruct (IH (Datatypes.S i) (Z.min (locator_step (Datatypes.S i)) U64_MAX) (acc ++ [entry b])) as (k & Hk & Hend & Hrun).
    + rewrite length_app. cbn. lia.
    + intros Hp'. pose proof (locator_step_bound (Datatypes.S i)). lia.
    + unfold height in Hf, Hp. lia.
    + exists (Datatypes.S k). split; [|split].
      * intros j Hj. destruct (decide (j = i)) as [->|]; [unfold height in Hp; lia|apply Hk; lia].
      * replace (i + Datatypes.S k)%nat with (Datatypes.S i + k)%nat by lia. exact Hend.
      * change [hash_to_hex (header_hash (blk_header b))] with [entry b]. rewrite Hrun. f_equal. rewrite <- app_assoc. f_equal.
        unfold heights. cbn [seq map app]. f_equal.
        replace (tip - locator_offset i) with height by (unfold height in *; lia). by rewrite Hb.
Qed.

(** The locator of a recovery ends and says where the chain runs.  It lists
    hashes of stored blocks: the ten highest, then with doubling distances,
    then the genesis, so a peer on the same genesis always finds a common
    block.  It has at most 74 entries for any height the node can have, and for
    every height on the chain it has an entry at or below it that is at most
    as far from it as the tip is, so the search for an ancestor costs at most
    twice the depth of the fork. *)
Theorem recovery_locator_exact g c tip :
  chain_rep (contents (gn_db g)) c -> block_number <$> last c = Some tip ->
  exists k,
    (k <= 73)%nat /\ (forall i, (i < k)%nat -> locator_offset i < tip) /\ tip <= locator_offset k /\
    recovery_locator (Full g) = Ok (map (fun h => default [] (entry <$> c !! Z.to_nat h)) (heights tip 0 k)) /\
    (forall a, 0 <= a <= tip -> exists h, h ∈ heights tip 0 k /\ 0 <= h <= a /\ a - h <= tip - a).
Proof.
  intros Hc Hl. destruct (last c) as [b|] eqn:Eb; [|done]. injection Hl as Hn.
  assert (Z.of_nat (length c) = tip + 1 /\ 0 <= tip) as [Hlen Htip].
  { apply last_Some in Eb as [l ->]. rewrite length_app. cbn. rewrite <- Hn.
    rewrite (block_numbers_lookup (l ++ [b]) (length l) b (cr_numbers _ _ Hc)) by (by apply lookup_snoc_Some; right). lia. }
  pose proof (cr_fits _ _ Hc) as Hfit. unfold list_fits in Hfit.
  destruct (locator_loop_exact g c tip 0 1 [] (Datatypes.S (Z.to_nat tip)) Hc) as (k & Hk & Hend & Hrun).
  { lia. } { done. } { done. } { change (locator_offset 0) with 0. lia. }
  change (locator_offset 0) with 0 in Hrun. rewrite Z.sub_0_r, Z.max_r in Hrun by lia.
  exists k. split; [|split; [|split; [|split]]].
  - destruct (Nat.le_gt_cases k 73) as [|H]; [done|]. specialize (Hk 73%nat ltac:(lia)).
    change (locator_offset 73) with (8 + 2 ^ 64) in Hk. unfold U64_MAX in Hfit. lia.
  - intros i Hi. apply Hk. lia.
  - exact Hend.
  - unfold recovery_locator. cbn [node_best_header of_full]. rewrite (best_header_rep _ _ Hc), Eb.
    cbn [fmap option_fmap option_map ok_or any_res res_map_err res_bind]. change (hdr_number (blk_header b)) with (block_number b).
    rewrite Hn. exact Hrun.
  - intros a Ha. unfold heights.
    destruct (decide (tip - a <= locator_offset 0)) as [H0|H0].
    { change (locator_offset 0) with 0 in H0. assert (a = tip) as -> by lia. destruct k as [|k].
      - exists 0. change (locator_offset (0 + 0)) with 0 in Hend. split; [by left|lia].
      - exists (tip - locator_offset 0). split; [by left|]. change (locator_offset 0) with 0. lia. }
    assert (exists i, (i < k)%nat /\ locator_offset i < tip - a <= locator_offset (Datatypes.S i)
              \/ (i = k /\ tip - a <= locator_offset (Datatypes.S i) /\ False)) as (i & [[Hi Hoff]|(_ & _ & [])]).
    { assert (tip - a <= locator_offset k) as Hk' by (cbn in Hend; lia). clear -Hk' H0.
      induction k as [|k IH]; [lia|]. destruct (Z.le_gt_cases (tip - a) (locator_offset k)).
      - destruct (IH ltac:(lia)) as (i & [[Hi Ho]|(_ & _ & [])]). exists i. left. split; [lia|done].
      - exists k. left. split; [lia|lia]. }
    pose proof (locator_step_bound i). pose proof (locator_offset_next i).
    destruct (decide (Datatypes.S i < k)%nat) as [Hi2|Hi2].
    + exists (tip - locator_offset (Datatypes.S i)). split.
      * apply elem_of_app. left. apply list_elem_of_fmap. exists (Datatypes.S i). split; [done|]. apply elem_of_seq. lia.
      * specialize (Hk (Datatypes.S i) ltac:(lia)). lia.
    + exists 0. split; [apply elem_of_app; right; by left|]. assert (Datatypes.S i = k) as <- by lia. cbn in Hend. lia.
Qed.
End locator.

Section witness.
Import SampleCodecs.
#[local] Existing Instances mem_sled hex_codec toy_digests mem_files.

Lemma recovery_locator_exact_witness :
  let c := sample_old in
  exists k,
    recovery_locator (Full (sample_generation None)) =
      Ok (map (fun h => default [] (entry <$> c !! Z.to_nat h)) (heights 1 0 k)) /\
    (forall a, 0 <= a <= 1 -> exists h, h ∈ heights 1 0 k /\ 0 <= h <= a /\ a - h <= 1 - a).
Proof.
  intros c. destruct (sample_generation_rep None) as [Hc _].
  destruct (@recovery_locator_exact mem_sled hex_codec toy_digests JB JH (@reliable_reads _ mem_sled_reliable)
    (sample_generation None) sample_old 1 Hc) as (k & _ & _ & _ & Hrun & Hcover).
  - vm_compute. reflexivity.
  - exists k. split; [exact Hrun|exact Hcover].
Defined.
End witness.
