(* ===== verification/Witness.v ===== *)
(** The cross-check of a recovery range by a second peer: the sampled heights,
    and what the samples of the two peers decide, in whatever order they
    arrive. *)

From Stdlib Require Import ZArith Lia Strings.String Strings.Byte.
From stdpp Require Import sorting gmap fin_maps base list.
From S2P Require Import Prelude Externals Primitives Consensus Sled BlockStore ChainStore Generation Publish Cursor Recovery.
#[local] Open Scope Z_scope.

(** ** The sampled heights *)

Lemma dedup_after_spec x l :
  StronglySorted (cmp_le (cmp_key id)) (x :: l) ->
  StronglySorted Z.lt (x :: dedup_after x l) /\ (forall y, y ∈ x :: dedup_after x l <-> y ∈ x :: l) /\
  (length (dedup_after x l) <= length l)%nat.
Proof.
  revert x. induction l as [|y l IH]; intros x H; [repeat split; [by repeat constructor|done|done|done]|].
  apply StronglySorted_inv in H as [Hs Hx]. apply List.Forall_cons_iff in Hx as [Hxy Hx].
  unfold cmp_le, cmp_key, id in Hxy. rewrite Z.compare_gt_iff in Hxy. cbn [dedup_after].
  destruct (Z.eqb_spec y x) as [->|Hne].
  - destruct (IH x Hs) as (H1 & H2 & H3). split; [done|]. split; [|cbn; lia].
    intros z. rewrite H2, !elem_of_cons. tauto.
  - destruct (IH y Hs) as (H1 & H2 & H3). split; [|split; [|cbn; lia]].
    + constructor; [done|]. apply StronglySorted_inv in H1 as [_ H1]. constructor; [lia|].
      rewrite List.Forall_forall in H1 |- *. intros z Hz. specialize (H1 z Hz). lia.
    + intros z. rewrite (elem_of_cons _ z x), H2, (elem_of_cons (y :: l)). done.
Qed.

(** The heights a witness is asked for are those of the code's comment: the
    ends of the next range and at most two heights inside it, in ascending
    order without repetition.  They depend on the tip and the range only, so
    the provider cannot choose them; there are none only when nothing is left
    to fetch. *)
Theorem witness_samples_exact tip from tip_height :
  in_u64 from -> in_u64 tip_height ->
  let heights := recovery_witness_sample_heights tip from tip_height in
  let stop := Z.min (from + (SYNC_RANGE_SIZE - 1)) tip_height in
  StronglySorted Z.lt heights /\ (length heights <= 4)%nat /\
  (heights = [] <-> tip_height < from) /\
  (from <= tip_height -> from ∈ heights /\ stop ∈ heights /\ Forall (fun h => from <= h <= stop) heights).
Proof.
  intros Hf Ht heights stop. unfold heights, recovery_witness_sample_heights.
  assert (Z.min (sat_add U64_MAX from (SYNC_RANGE_SIZE - 1)) tip_height = stop) as ->.
  { unfold stop, sat_add. destruct Ht. lia. }
  destruct (Z.ltb_spec stop from) as [Hlt|Hge].
  { assert (tip_height < from) by (unfold stop, SYNC_RANGE_SIZE in Hlt; lia).
    split; [constructor|]. split; [cbn; lia|]. split; [done|]. intros. lia. }
  assert (from <= tip_height) as Hle by (unfold stop in Hge; lia).
  set (span := sat_add U64_MAX (sat_sub stop from) 1).
  assert (1 <= span <= stop - from + 1) as Hspan by (unfold span, sat_add, sat_sub, U64_MAX; lia).
  set (o := fun i => u8_val (nth i tip x00) mod span).
  assert (forall i, 0 <= o i < span) as Ho by (intros i; apply Z.mod_pos_bound; lia).
  change (u8_val (nth 0 tip x00) mod span) with (o 0%nat). change (u8_val (nth 1 tip x00) mod span) with (o 1%nat).
  set (raw := [from; stop; sat_add U64_MAX from (o 0%nat); sat_add U64_MAX from (o 1%nat)]).
  assert (Forall (fun h => from <= h <= stop) raw) as Hraw.
  { pose proof (Ho 0%nat). pose proof (Ho 1%nat). destruct Ht. unfold raw, sat_add. repeat constructor; lia. }
  pose proof (sort_by_perm (cmp_key id) raw) as Hperm.
  pose proof (sort_by_sorted (cmp_key id) (cmp_key_preorder id) raw) as Hsorted.
  unfold sort_by_key. destruct (sort_by (cmp_key id) raw) as [|x l] eqn:E.
  { apply (f_equal length) in E. by rewrite length_sort_by in E. }
  destruct (dedup_after_spec x l Hsorted) as (H1 & H2 & H3). cbn [dedup].
  assert (forall y, y ∈ x :: dedup_after x l <-> y ∈ raw) as Hin by (intros y; by rewrite H2, Hperm).
  split; [done|]. split.
  { apply (f_equal length) in E. rewrite length_sort_by in E. cbn in E |- *. lia. }
  split; [split; [done|lia]|]. intros _. split; [apply Hin; by left|]. split; [apply Hin; right; by left|].
  apply List.Forall_forall. intros y Hy. apply list_elem_of_In, Hin in Hy. rewrite List.Forall_forall in Hraw.
  apply Hraw. by apply list_elem_of_In.
Qed.

(** ** What the samples decide *)

(** The claims of one side: height and hash. *)
Definition Claims : Type := list (Z * Hash256).

(** One side does not contradict itself. *)
Definition one_voice (l : Claims) : Prop := forall n h h', (n, h) ∈ l -> (n, h') ∈ l -> h = h'.
(** The sides do not contradict each other. *)
Definition agree (ps ws : Claims) : Prop := forall n h h', (n, h) ∈ ps -> (n, h') ∈ ws -> h = h'.
(** Both sides have spoken about each height. *)
Definition covered (heights : list Z) (ps ws : Claims) : Prop :=
  forall n, n ∈ heights -> exists h, (n, h) ∈ ps /\ (n, h) ∈ ws.

(** The map holds the claims. *)
Definition recorded (m : gmap Z Hash256) (l : Claims) : Prop := forall n h, m !! n = Some h <-> (n, h) ∈ l.

Lemma recorded_insert m l n h :
  recorded m l -> one_voice (l ++ [(n, h)]) -> recorded (<[n := h]> m) (l ++ [(n, h)]).
Proof.
  intros Hm Hv n' h'. destruct (decide (n' = n)) as [->|Hne].
  - rewrite lookup_insert_eq. split.
    + intros [= ->]. apply elem_of_app. right. by left.
    + intros Hin. f_equal. apply (Hv n); [|done]. apply elem_of_app. right. by left.
  - rewrite lookup_insert_ne by done. rewrite (Hm n' h'), elem_of_app, list_elem_of_singleton. split; [by left|].
    intros [|[= -> ->]]; done.
Qed.

(** A new claim contradicts the other side exactly when the sides disagree. *)
Lemma contradicts_spec m other l n h :
  recorded m other -> (forall n h h', (n, h) ∈ l -> (n, h') ∈ other -> h = h') ->
  (contradicts m n h = false <-> agree (l ++ [(n, h)]) other).
Proof.
  intros Hm Hl. unfold contradicts. split.
  - intros Hc n' h1 h2 [H1|[[= -> ->]|[]%not_elem_of_nil]%elem_of_cons]%elem_of_app H2; [by eapply Hl|].
    apply Hm in H2. rewrite H2 in Hc. apply negb_false_iff, bool_decide_eq_true in Hc. done.
  - intros Ha. destruct (m !! n) as [h'|] eqn:E; [|done]. apply negb_false_iff, bool_decide_eq_true.
    symmetry. apply (Ha n); [apply elem_of_app; right; by left|]. by apply Hm.
Qed.

Lemma one_voice_app l l' : one_voice (l ++ l') -> one_voice l.
Proof. intros H n h h' H1 H2. apply (H n); apply elem_of_app; by left. Qed.
Lemma agree_app ps ps' ws ws' : agree (ps ++ ps') (ws ++ ws') -> agree ps ws.
Proof. intros H n h h' H1 H2. apply (H n); apply elem_of_app; by left. Qed.
Lemma agree_sym ps ws : agree ps ws -> agree ws ps.
Proof. intros H n h h' H1 H2. symmetry. by apply (H n). Qed.

Lemma all_samples_match_spec c ps ws :
  recorded (cu_primary_sample_hashes c) ps -> recorded (cu_witness_sample_hashes c) ws ->
  (all_samples_match c = true <-> covered (cu_witness_sample_heights c) ps ws).
Proof.
  intros Hp Hw. unfold all_samples_match, covered. rewrite forallb_forall. split.
  - intros H n Hn. specialize (H n (proj1 (list_elem_of_In _ _) Hn)).
    destruct (cu_primary_sample_hashes c !! n) as [h|] eqn:E1; [|done].
    destruct (cu_witness_sample_hashes c !! n) as [h'|] eqn:E2; [|done].
    apply bool_decide_eq_true in H as <-. exists h. split; [by apply Hp|by apply Hw].
  - intros H n Hn. destruct (H n (proj2 (list_elem_of_In _ _) Hn)) as (h & H1 & H2).
    apply Hp in H1. apply Hw in H2. rewrite H1, H2. by apply bool_decide_eq_true.
Qed.

Lemma covered_app heights ps ps' ws ws' : covered heights ps ws -> covered heights (ps ++ ps') (ws ++ ws').
Proof. intros H n Hn. destruct (H n Hn) as (h & H1 & H2). exists h. split; apply elem_of_app; by left. Qed.

Section evidence.
Context {HX : HexCodec} {D : Digests} {CI : CursorIo}.

(** What arrives: a body of the primary, or the answer of the witness. *)
Inductive Evidence := PrimaryBody (block : Block) | WitnessAnswer (headers : list BlockHeader).

Definition receive (peer identity : list byte) (tip_hash : Hash256) (e : Evidence) : RS unit :=
  match e with
  | PrimaryBody block => record_primary_witness_sample peer block ;! st_ret tt
  | WitnessAnswer headers => record_witness_headers tip_hash identity headers ;! st_ret tt
  end.
Definition receive_all (peer identity : list byte) (tip_hash : Hash256) (es : list Evidence) : RS unit :=
  st_for es (receive peer identity tip_hash).

Definition header_claim (h : BlockHeader) : Z * Hash256 := (hdr_number h, header_hash h).

Definition primary_claims (heights : list Z) (e : Evidence) : Claims :=
  match e with
  | PrimaryBody block =>
      if bool_decide (hdr_number (blk_header block) ∈ heights) then [header_claim (blk_header block)] else []
  | WitnessAnswer _ => []
  end.
Definition witness_claims (e : Evidence) : Claims :=
  match e with PrimaryBody _ => [] | WitnessAnswer headers => map header_claim headers end.

Definition primary_all (heights : list Z) (es : list Evidence) : Claims := concat (map (primary_claims heights) es).
Definition witness_all (es : list Evidence) : Claims := concat (map witness_claims es).

(** The job after the claims, as long as they agree. *)
Record range_job (c0 : BranchSyncCursor) (ps ws : Claims) (c : BranchSyncCursor) : Prop := {
  rj_primary : recorded (cu_primary_sample_hashes c) ps;
  rj_witness : recorded (cu_witness_sample_hashes c) ws;
  rj_heights : cu_witness_sample_heights c = cu_witness_sample_heights c0;
  rj_identity : cu_witness_identity c = cu_witness_identity c0;
  rj_mode : cu_provider_mode c = B "waiting-for-witness" \/
            (cu_provider_mode c = B "cross-checked" /\ covered (cu_witness_sample_heights c0) ps ws);
}.

(** A job whose mode follows its samples. *)
Definition settled (c0 : BranchSyncCursor) (ps ws : Claims) (c : BranchSyncCursor) : Prop :=
  range_job c0 ps ws c /\
  (covered (cu_witness_sample_heights c0) ps ws -> cu_provider_mode c = B "cross-checked").

Lemma checked_settled c0 ps ws c :
  range_job c0 ps ws c -> cu_witness_identity c0 <> None ->
  settled c0 ps ws (primary_checked c) /\ settled c0 ps ws (witness_checked c).
Proof.
  intros Hr Hi. pose proof (all_samples_match_spec c ps ws (rj_primary _ _ _ _ Hr) (rj_witness _ _ _ _ Hr)) as Hm.
  rewrite (rj_heights _ _ _ _ Hr) in Hm. destruct Hr as [Hp Hw Hh Hid Hmode].
  assert (bool_decide (cu_witness_identity c = None) = false) as Hne by (apply bool_decide_eq_false; congruence).
  unfold primary_checked, witness_checked. rewrite Hne, andb_true_r.
  destruct (all_samples_match c) eqn:Em; cbn [negb].
  - pose proof (proj1 Hm eq_refl) as Hcov. split.
    + case_match; (split; [split; cbn; try done; by right|done]).
    + case_match; (split; [split; cbn; try done; by right|done]).
  - assert (~ covered (cu_witness_sample_heights c0) ps ws) as Hnc by (intros H; apply Hm in H; done).
    split; case_match; (split; [split; cbn; done|done]).
Qed.

(** ** One step *)

Definition saves_reliably : Prop := forall m, save_error m = None.
Hypothesis Hsave : saves_reliably.

Lemma save_cursor_run key c (rs : RecoveryState) :
  save_cursor key c rs =
    (Ok tt, rs <|rs_cursors := <[key := c]> (rs_cursors rs)|> <|rs_file := Some (<[key := c]> (rs_cursors rs))|>).
Proof using Hsave. unfold save_cursor, st_bind, modify, persist_branch_sync_cursors. cbn. by rewrite Hsave. Qed.

(** The job under the key, the route of the peer on it, and where it is saved. *)
Definition holds_job (peer : list byte) (key : list byte) (c : BranchSyncCursor) (rs : RecoveryState) : Prop :=
  rs_cursors rs !! key = Some c /\ cursor_key peer rs = key.

Definition in_conflict (key : list byte) (rs : RecoveryState) : Prop :=
  exists c, rs_cursors rs !! key = Some c /\ cu_provider_mode c = B "conflicting" /\ cu_state c = B "conflicting" /\
    rs_file rs = Some (rs_cursors rs).

Lemma primary_step peer key c0 ps ws c rs block :
  holds_job peer key c rs -> settled c0 ps ws c -> cu_witness_identity c0 <> None ->
  let new := primary_claims (cu_witness_sample_heights c0) (PrimaryBody block) in
  one_voice (ps ++ new) -> agree ps ws ->
  let run := record_primary_witness_sample peer block rs in
  (agree (ps ++ new) ws -> is_ok run.1 = true /\ exists c', holds_job peer key c' run.2 /\ settled c0 (ps ++ new) ws c') /\
  (~ agree (ps ++ new) ws -> run.1 = Err mismatch /\ in_conflict key run.2).
Proof using Hsave.
  intros [Hc Hk] [Hr Hs] Hi new Hv Ha run. subst new. unfold run, record_primary_witness_sample. rewrite Hk, Hc.
  pose proof Hr as [Hp Hw Hh Hid Hm]. cbn [primary_claims] in Hv |- *. rewrite Hh.
  destruct (bool_decide (hdr_number (blk_header block) ∈ cu_witness_sample_heights c0)) eqn:Eb; cbn [negb].
  2: { rewrite app_nil_r. split; [intros _; split; [done|]; by exists c|done]. }
  set (n := hdr_number (blk_header block)) in *. set (h := header_hash (blk_header block)).
  pose proof (contradicts_spec (cu_witness_sample_hashes c) ws ps n h Hw Ha) as Hcon.
  change (header_claim (blk_header block)) with (n, h) in *. cbn [cu_witness_sample_hashes setter].
  destruct (contradicts (cu_witness_sample_hashes c) n h) eqn:Econ.
  - split; [intros H; by apply Hcon in H|]. intros _. unfold st_bind. rewrite save_cursor_run.
    split; [done|]. eexists. cbn. rewrite lookup_insert_eq. done.
  - split; [|intros H; destruct H; by apply Hcon]. intros _. unfold st_bind. rewrite save_cursor_run.
    split; [done|]. eexists. split; [split; [cbn; by rewrite lookup_insert_eq|exact Hk]|].
    apply checked_settled; [|done]. split; cbn; [by apply recorded_insert|done|done|done|].
    destruct Hm as [|[Hm1 Hm2]]; [by left|]. right. split; [done|].
    pose proof (covered_app _ _ [(n, h)] _ [] Hm2) as Hx. by rewrite app_nil_r in Hx.
Qed.

Lemma witness_headers_step c0 ps headers : forall ws c,
  range_job c0 ps ws c -> Forall (fun h => hdr_number h ∈ cu_witness_sample_heights c0) headers ->
  let ws' := ws ++ map header_claim headers in
  one_voice ws' -> agree ps ws ->
  (agree ps ws' -> exists c', witness_headers c headers = (Ok tt, c') /\ range_job c0 ps ws' c') /\
  (~ agree ps ws' -> exists c', witness_headers c headers = (Err mismatch, conflicting mismatch c')).
Proof using.
  induction headers as [|h headers IH]; intros ws c Hr Hin ws' Hv Ha; unfold ws' in *.
  { cbn [map] in *. rewrite app_nil_r in *. cbn [witness_headers]. split; [intros _; by exists c|done]. }
  apply List.Forall_cons_iff in Hin as [Hn Hin]. pose proof Hr as [Hp Hw Hh Hid Hm].
  cbn [witness_headers]. rewrite Hh. rewrite bool_decide_true by done. cbn [negb].
  cbn [map] in *. change (header_claim h :: map header_claim headers) with ([header_claim h] ++ map header_claim headers) in *.
  rewrite app_assoc in *.
  pose proof (contradicts_spec (cu_primary_sample_hashes c) ps ws (hdr_number h) (header_hash h) Hp (agree_sym _ _ Ha)) as Hcon.
  destruct (contradicts (cu_primary_sample_hashes c) (hdr_number h) (header_hash h)) eqn:Econ.
  - assert (~ agree ps ((ws ++ [header_claim h]) ++ map header_claim headers)) as Hno.
    { intros H. rewrite <- (app_nil_r ps) in H. by apply agree_app, agree_sym, Hcon in H. }
    split; [done|]. intros _. by exists c.
  - apply (IH (ws ++ [header_claim h])); [|done|done|].
    + split; cbn; [done| |done|done|].
      * apply recorded_insert; [done|]. by eapply one_voice_app.
      * destruct Hm as [|[Hm1 Hm2]]; [by left|]. right. split; [done|].
        pose proof (covered_app _ _ [] _ [(hdr_number h, header_hash h)] Hm2) as Hx. by rewrite app_nil_r in Hx.
    + apply agree_sym. by apply Hcon.
Qed.

Lemma witness_step peer identity tip_hash c0 ps ws c rs headers :
  let key := recovery_cursor_key tip_hash in
  holds_job peer key c rs -> settled c0 ps ws c -> cu_witness_identity c0 = Some identity ->
  Forall (fun h => hdr_number h ∈ cu_witness_sample_heights c0) headers ->
  let ws' := ws ++ map header_claim headers in
  one_voice ws' -> agree ps ws ->
  let run := record_witness_headers tip_hash identity headers rs in
  (agree ps ws' -> is_ok run.1 = true /\ exists c', holds_job peer key c' run.2 /\ settled c0 ps ws' c') /\
  (~ agree ps ws' -> run.1 = Err mismatch /\ in_conflict key run.2).
Proof using Hsave.
  intros key [Hc Hk] [Hr Hs] Hi Hin ws' Hv Ha run. unfold run, record_witness_headers. fold key. rewrite Hc.
  rewrite bool_decide_true by (rewrite (rj_identity _ _ _ _ Hr); done). cbn [negb].
  destruct (witness_headers_step c0 ps headers ws c Hr Hin Hv Ha) as [Hok Hko]. fold ws' in Hok, Hko. split.
  - intros Hag. destruct (Hok Hag) as (c' & -> & Hr'). unfold st_bind. rewrite save_cursor_run. split; [done|].
    eexists. split; [split; [cbn; by rewrite lookup_insert_eq|exact Hk]|]. apply checked_settled; [done|]. by rewrite Hi.
  - intros Hno. destruct (Hko Hno) as (c' & ->). rewrite bool_decide_true by done. unfold st_bind.
    rewrite save_cursor_run. split; [done|]. eexists. cbn. rewrite lookup_insert_eq. done.
Qed.

(** ** A whole range *)

Lemma agree_dec ps ws : agree ps ws \/ ~ agree ps ws.
Proof using.
  destruct (decide (Forall (fun p => Forall (fun w => p.1 = w.1 -> p.2 = w.2) ws) ps)) as [H|H].
  - left. intros n h h' H1 H2. rewrite Forall_forall in H. specialize (H _ H1). rewrite Forall_forall in H.
    by apply (H (n, h')).
  - right. intros Ha. apply H, Forall_forall. intros [n h] H1. apply Forall_forall. intros [n' h'] H2. cbn.
    intros <-. by apply (Ha n).
Qed.

Lemma receive_all_ok peer identity tip_hash c0 es :
  let key := recovery_cursor_key tip_hash in
  cu_witness_identity c0 = Some identity ->
  forall ps ws c rs, holds_job peer key c rs -> settled c0 ps ws c -> agree ps ws ->
  let ps' := ps ++ primary_all (cu_witness_sample_heights c0) es in
  let ws' := ws ++ witness_all es in
  Forall (fun nh => nh.1 ∈ cu_witness_sample_heights c0) (witness_all es) -> one_voice ps' -> one_voice ws' ->
  let run := receive_all peer identity tip_hash es rs in
  (agree ps' ws' -> is_ok run.1 = true /\ exists c', holds_job peer key c' run.2 /\ settled c0 ps' ws' c') /\
  (~ agree ps' ws' -> run.1 = Err mismatch /\ in_conflict key run.2).
Proof using Hsave.
  intros key Hi. induction es as [|e es IH]; intros ps ws c rs Hj Hs Ha ps' ws' Hin Hvp Hvw run.
  { unfold ps', ws', primary_all, witness_all in *. cbn in *. rewrite !app_nil_r in *. split; [|done].
    intros _. split; [done|]. by exists c. }
  set (hs := cu_witness_sample_heights c0) in *.
  unfold ps', ws', primary_all, witness_all in *. cbn [map concat] in *. fold (primary_all hs es) (witness_all es) in *.
  rewrite !app_assoc in *. apply Forall_app in Hin as [Hin1 Hin2].
  assert (cu_witness_identity c0 <> None) as Hne by (rewrite Hi; done).
  assert (
    (agree (ps ++ primary_claims hs e) (ws ++ witness_claims e) ->
      exists u c' rs', receive peer identity tip_hash e rs = (Ok u, rs') /\ holds_job peer key c' rs' /\
        settled c0 (ps ++ primary_claims hs e) (ws ++ witness_claims e) c') /\
    (~ agree (ps ++ primary_claims hs e) (ws ++ witness_claims e) ->
      exists rs', receive peer identity tip_hash e rs = (Err mismatch, rs') /\ in_conflict key rs')) as [Hok Hko].
  { destruct e as [block|headers]; cbn [receive primary_claims witness_claims] in *; rewrite ?app_nil_r in *.
    - destruct (primary_step peer key c0 ps ws c rs block Hj Hs Hne (one_voice_app _ _ Hvp) Ha) as [H1 H2].
      cbn [primary_claims] in H1, H2. fold hs in H1, H2. unfold st_bind. split; intros H.
      + destruct (H1 H) as (Hr & c' & Hj' & Hs'). destruct (record_primary_witness_sample _ _ rs) as [[b|e|] rs'] eqn:E; [|done..].
        exists tt, c', rs'. done.
      + destruct (H2 H) as (Hr & Hc). destruct (record_primary_witness_sample _ _ rs) as [r rs'] eqn:E. cbn in Hr, Hc. subst r.
        by exists rs'.
    - assert (Forall (fun h => hdr_number h ∈ cu_witness_sample_heights c0) headers) as Hin'.
      { rewrite List.Forall_map in Hin1. exact Hin1. }
      destruct (witness_step peer identity tip_hash c0 ps ws c rs headers Hj Hs Hi Hin' (one_voice_app _ _ Hvw) Ha) as [H1 H2].
      unfold st_bind. split; intros H.
      + destruct (H1 H) as (Hr & c' & Hj' & Hs'). destruct (record_witness_headers _ _ _ rs) as [[b|e|] rs'] eqn:E; [|done..].
        exists tt, c', rs'. done.
      + destruct (H2 H) as (Hr & Hc). destruct (record_witness_headers _ _ _ rs) as [r rs'] eqn:E. cbn in Hr, Hc. subst r.
        by exists rs'. }
  unfold run, receive_all. cbn [st_for]. destruct (agree_dec (ps ++ primary_claims hs e) (ws ++ witness_claims e)) as [Hag|Hno].
  - destruct (Hok Hag) as (u & c' & rs' & Erun & Hj' & Hs'). unfold st_bind. rewrite Erun.
    apply (IH _ _ c' rs' Hj' Hs' Hag Hin2 Hvp Hvw).
  - destruct (Hko Hno) as (rs' & Erun & Hc). unfold st_bind. rewrite Erun. split; [|done].
    intros H. destruct Hno. by apply agree_app in H.
Qed.

(** C14: what two peers say about a range decides, not the order in which they
    say it.  After the request of a range with a witness, let bodies of the
    primary and answers of the witness arrive in any interleaving, each side
    consistent with itself.  If the sides agree on every height both spoke
    about, all of it is accepted, and the job is ready for publication exactly
    when every sampled height was confirmed by both.  If they disagree
    anywhere, the session ends with the mismatch and the job is left, and
    saved, as conflicting. *)
Theorem witness_decides es now peer identity height c0 rs :
  let c := request_range now peer height c0 in
  let key := recovery_cursor_key (cu_tip_hash c0) in
  let hs := cu_witness_sample_heights c in
  let ps := primary_all hs es in
  let ws := witness_all es in
  let run := receive_all peer identity (cu_tip_hash c0) es rs in
  rs_cursors rs !! key = Some c -> cursor_key peer rs = key -> cu_witness_identity c0 = Some identity ->
  in_u64 height -> in_u64 (cu_tip_height c0) -> height <= cu_tip_height c0 ->
  Forall (fun nh => nh.1 ∈ hs) ws -> one_voice ps -> one_voice ws ->
  (agree ps ws ->
     is_ok run.1 = true /\
     (recovery_tip_ready_for_publication (cu_tip_hash c0) run.2 = true <-> covered hs ps ws)) /\
  (~ agree ps ws -> run.1 = Err mismatch /\ in_conflict key run.2).
Proof using Hsave.
  intros c key hs ps ws run Hc Hk Hi Hh Ht Hle Hin Hvp Hvw.
  assert (cu_witness_identity c = Some identity) as Hi' by (unfold c, request_range; cbn; rewrite Hi; done).
  assert (settled c [] [] c) as Hs.
  { unfold c, request_range, clear_samples. cbn. rewrite Hi. split.
    - split; cbn; [intros n h; by rewrite lookup_empty, elem_of_nil..|done|done|by left].
    - cbn. intros Hcov. destruct (recovery_witness_sample_heights (cu_tip_hash c0) height (cu_tip_height c0)) as [|n l] eqn:E.
      + exfalso. assert (recovery_witness_sample_heights (cu_tip_hash c0) height (cu_tip_height c0) <> []) as Hne; [|done].
        unfold recovery_witness_sample_heights. destruct (Z.ltb_spec (Z.min (sat_add U64_MAX height (SYNC_RANGE_SIZE - 1)) (cu_tip_height c0)) height) as [Hlt|].
        * unfold sat_add, SYNC_RANGE_SIZE in Hlt. destruct Hh. lia.
        * unfold sort_by_key. destruct (sort_by _ _) as [|x l] eqn:Es; [|done]. apply (f_equal length) in Es.
          by rewrite length_sort_by in Es.
      + destruct (Hcov n) as (h & Hbad & _); [by left|]. by apply elem_of_nil in Hbad. }
  destruct (receive_all_ok peer identity (cu_tip_hash c0) c es Hi' [] [] c rs (conj Hc Hk) Hs) as [H1 H2];
    [by intros n h h' []%elem_of_nil|done..|]. split; [|exact H2]. intros Ha.
  destruct (H1 Ha) as (Hr & c' & [Hc' _] & [Hrj Hset]). split; [exact Hr|].
  unfold recovery_tip_ready_for_publication. fold key. change (receive_all peer identity (cu_tip_hash c0) es rs) with run in Hc'. fold key in Hc'. rewrite Hc'.
  split.
  - destruct (rj_mode _ _ _ _ Hrj) as [Hm|[_ Hcov]]; [|done]. unfold in_mode. rewrite Hm. done.
  - intros Hcov. unfold in_mode. rewrite (Hset Hcov). done.
Qed.
End evidence.

(** ** Examples *)

Definition reliable_saves : CursorIo := {| save_error _ := None |}.

Lemma witness_samples_exact_witness :
  recovery_witness_sample_heights [x07; x0a] 100 1000 = [100; 107; 110; 227] /\
  StronglySorted Z.lt (recovery_witness_sample_heights [x07; x0a] 100 1000).
Proof.
  split; [reflexivity|].
  apply (witness_samples_exact [x07; x0a] 100 1000); split; vm_compute; discriminate.
Defined.

Section example.
Import SampleCodecs.
#[local] Existing Instances hex_codec toy_digests reliable_saves.

Definition range_tip : BlockHeader := blk_header sample_replacement.
Definition range_cursor : BranchSyncCursor :=
  (new_branch_sync_cursor 0 (header_hash range_tip) 1 []) <|cu_witness_identity := Some (B "w")|>.
Definition range_key : list byte := recovery_cursor_key (header_hash range_tip).
Definition range_state : RecoveryState := {|
  rs_cursors := {[range_key := request_range 0 (B "p") 1 range_cursor]};
  rs_peer_keys := {[B "p" := range_key]};
  rs_identities := ∅;
  rs_file := None |}.

Lemma witness_decides_witness :
  let es := [WitnessAnswer [range_tip]; PrimaryBody sample_replacement] in
  let run := receive_all (B "p") (B "w") (header_hash range_tip) es range_state in
  recovery_tip_ready_for_publication (header_hash range_tip) range_state = false /\
  is_ok run.1 = true /\ recovery_tip_ready_for_publication (header_hash range_tip) run.2 = true.
Proof.
  intros es run. split; [vm_compute; reflexivity|].
  assert (forall (l : Claims) n h, l = [(n, h)] -> one_voice l) as Hsingle.
  { intros l n h -> n' h1 h2 [[= -> ->]|[]%not_elem_of_nil]%elem_of_cons [[= ->]|[]%not_elem_of_nil]%elem_of_cons. done. }
  destruct (@witness_decides hex_codec toy_digests reliable_saves (fun _ => eq_refl) es 0 (B "p") (B "w") 1 range_cursor
    range_state) as [H _].
  - vm_compute. reflexivity.
  - vm_compute. reflexivity.
  - reflexivity.
  - split; vm_compute; discriminate.
  - split; vm_compute; discriminate.
  - vm_compute. discriminate.
  - apply List.Forall_cons; [|apply List.Forall_nil]. apply list_elem_of_In. vm_compute. left. reflexivity.
  - eapply Hsingle. vm_compute. reflexivity.
  - eapply Hsingle. vm_compute. reflexivity.
  - assert (is_ok run.1 = true /\ (recovery_tip_ready_for_publication (header_hash range_tip) run.2 = true <->
      covered (cu_witness_sample_heights (request_range 0 (B "p") 1 range_cursor))
        (primary_all (cu_witness_sample_heights (request_range 0 (B "p") 1 range_cursor)) es) (witness_all es))) as [Hok Hr].
    { apply H. intros n h h' H1%list_elem_of_In H2%list_elem_of_In. vm_compute in H1, H2.
      destruct H1 as [H1|[]], H2 as [H2|[]]. injection H1 as <- <-. injection H2 as <-. reflexivity. }
    split; [exact Hok|]. apply Hr. intros n Hn%list_elem_of_In. exists (header_hash range_tip).
    vm_compute in Hn. destruct Hn as [<-|[]]. split; apply list_elem_of_In; vm_compute; left; reflexivity.
Defined.
End example.
