(* ===== verification/Jobs.v ===== *)
(** What every recovery job satisfies, whatever the node does with it: an
    invariant of the recovery state under every operation, restarts
    included. *)

From Stdlib Require Import ZArith Lia Strings.String Strings.Byte.
From stdpp Require Import sorting gmap fin_maps base list.
From S2P Require Import Prelude Externals Primitives Canonical Rlp RawTx Pow Consensus State StateRoot.
From S2P Require Import Transition Evm Difficulty BlockExec Mempool Admission Replay Network.
From S2P Require Import Sled AccountStore BlockStore ChainStore Generation Publish CandidateStore NodeStore Snapshots Branch.
From S2P Require Import Import Miner Cursor Recovery Sync Driver Reorg Fork Witness.
#[local] Open Scope Z_scope.

Create HintDb keep.

Section lines.
(** The lines of bodies a job may be staging: the height and the hash of the
    ancestor they start at, and the name of their spool. *)
Context (lines : Z -> Hash256 -> option Hash256 -> Prop).

(** A forward job knows its ancestor, the parent its next body must have and
    the name of its spool, and stages one of the [lines]; what it has staged
    lies between its ancestor and the height it asks for next. *)
Record job_ok (c : BranchSyncCursor) : Prop := {
  jo_spool : cu_spool_tip_hash c <> None;
  jo_forward : forall a, cu_ancestor_height c = Some a ->
    cu_ancestor_hash c <> None /\ cu_expected_parent_hash c <> None /\
    0 <= a < U64_MAX /\ a <= cu_staged_height c <= cu_next_height c /\ 0 < cu_next_height c <= U64_MAX;
  jo_line : forall a h, cu_ancestor_height c = Some a -> cu_ancestor_hash c = Some h -> lines a h (cu_spool_tip_hash c);
}.

Definition all_ok (m : Cursors) : Prop := map_Forall (fun _ c => job_ok c) m.

Record jobs_ok (rs : RecoveryState) : Prop := {
  jk_cursors : all_ok (rs_cursors rs);
  jk_file : match rs_file rs with Some m => all_ok m | None => True end;
}.

(** Changes that do not touch what [job_ok] reads. *)
Definition same_progress (c c' : BranchSyncCursor) : Prop :=
  cu_spool_tip_hash c' = cu_spool_tip_hash c /\ cu_ancestor_height c' = cu_ancestor_height c /\
  cu_ancestor_hash c' = cu_ancestor_hash c /\ cu_expected_parent_hash c' = cu_expected_parent_hash c /\
  cu_staged_height c' = cu_staged_height c /\ cu_next_height c' = cu_next_height c.

Lemma job_ok_same c c' : same_progress c c' -> job_ok c -> job_ok c'.
Proof.
  intros (E1 & E2 & E3 & E4 & E5 & E6) [Hs Hf Hl].
  split; [by rewrite E1|rewrite E2, E3, E4, E5, E6; exact Hf|rewrite E1, E2, E3; exact Hl].
Qed.

Ltac same := first [done | repeat (case_match || split); done].

(** ** The operations on one job *)

Lemma new_ok now tip height profile : job_ok (new_branch_sync_cursor now tip height profile).
Proof. by split. Qed.

Lemma forward_progress_ok {D : Digests} now c block c' : job_ok c -> forward_progress now c block = Some c' -> job_ok c'.
Proof.
  intros [Hs Hf Hl] H. unfold forward_progress in H. destruct (cu_ancestor_height c) as [a|] eqn:Ea; [|done].
  destruct (Hf a eq_refl) as (Hh & He & Ha & Hst & Hn). destruct (Z.eqb_spec (cu_next_height c) 0); [lia|].
  destruct (Z.eqb_spec (hdr_number (blk_header block)) (cu_next_height c)) as [En|]; [|done]. cbn [negb andb] in H.
  case_match; [done|]. injection H as <-. split; cbn; [done| |by rewrite Ea]. rewrite Ea. intros a' [= <-].
  split; [done|]. split; [done|]. unfold sat_add. lia.
Qed.

Lemma request_range_ok now peer height c : job_ok c -> job_ok (request_range now peer height c).
Proof. apply job_ok_same. unfold request_range. cbn. by destruct (cu_witness_identity c). Qed.

Lemma failed_attempt_ok now peer reason c : job_ok c -> job_ok (failed_attempt now peer reason c).
Proof. by apply job_ok_same. Qed.

Lemma join_ancestor_ok now height hash c :
  0 <= height < U64_MAX -> lines height hash (cu_spool_tip_hash c) -> job_ok c -> job_ok (join_ancestor now height hash c).
Proof.
  intros Hh Hline [Hs _ _]. split; cbn; [done| |by intros a h [= <-] [= <-]]. intros a [= <-]. unfold sat_add. split; [done|]. split; [done|]. lia.
Qed.

Lemma retarget_ok now peer identity tip height c : job_ok c -> job_ok (retarget now peer identity tip height c).
Proof.
  intros [Hs Hf Hl]. assert (Some (cursor_spool_tip c) = cu_spool_tip_hash c) as E.
  { unfold cursor_spool_tip. by destruct (cu_spool_tip_hash c). }
  unfold retarget. case_match; (split; cbn; [done|exact Hf|rewrite E; exact Hl]).
Qed.

Lemma register_role_ok primary peer identity c : job_ok c -> job_ok (register_role primary peer identity c).1.
Proof.
  apply job_ok_same. unfold register_role, drop_witness, clear_samples. destruct primary.
  - cbn. repeat case_match; done.
  - cbn. repeat case_match; done.
Qed.

Lemma remove_witness_ok now c : job_ok c -> job_ok (remove_witness now c).
Proof. apply job_ok_same. unfold remove_witness. by case_match. Qed.

Lemma checked_ok c : job_ok c -> job_ok (primary_checked c) /\ job_ok (witness_checked c).
Proof. intros H. split; (eapply job_ok_same; [|exact H]); unfold primary_checked, witness_checked; by repeat case_match. Qed.

Lemma witness_headers_ok {D : Digests} headers c : job_ok c -> job_ok (witness_headers c headers).2.
Proof.
  revert c. induction headers as [|h headers IH]; intros c H; [done|]. cbn [witness_headers].
  case_match; [by apply (job_ok_same c)|]. case_match; [by apply (job_ok_same c)|]. apply IH. by apply (job_ok_same c).
Qed.

Lemma derive_completion_ok c : job_ok c -> job_ok (derive_completion c).
Proof. apply job_ok_same. unfold derive_completion. by case_match. Qed.

(** ** The maps *)

Lemma all_ok_insert key c m : all_ok m -> job_ok c -> all_ok (<[key := c]> m).
Proof. intros Hm Hc. by apply map_Forall_insert_2. Qed.
Lemma all_ok_delete key m : all_ok m -> all_ok (delete key m).
Proof. apply map_Forall_delete. Qed.
Lemma all_ok_retain keep m : all_ok m -> all_ok (retain keep m).
Proof. intros Hm k c H. apply map_lookup_filter_Some in H as [H _]. by eapply Hm. Qed.
Lemma all_ok_alter f key m : (forall c, job_ok c -> job_ok (f c)) -> all_ok m -> all_ok (alter f key m).
Proof.
  intros Hf Hm k c H. destruct (decide (k = key)) as [->|Hne].
  - rewrite lookup_alter_eq in H. destruct (m !! key) as [c0|] eqn:E; [|done]. injection H as <-. apply Hf. by eapply Hm.
  - rewrite lookup_alter_ne in H by done. by eapply Hm.
Qed.
Lemma all_ok_iter m c : all_ok m -> c ∈ map snd (btree_iter m) -> job_ok c.
Proof.
  intros Hm H. apply list_elem_of_fmap in H as ([k c'] & -> & H). apply elem_of_btree_iter in H. by eapply Hm.
Qed.

Lemma keep_best_ok progress key m c : all_ok m -> job_ok c -> all_ok (keep_best progress key m c).
Proof. intros Hm Hc. unfold keep_best. repeat case_match; by try apply all_ok_insert. Qed.

Lemma fold_ok (f : Cursors -> BranchSyncCursor -> Cursors) l m :
  (forall m c, all_ok m -> job_ok c -> all_ok (f m c)) -> all_ok m -> (forall c, c ∈ l -> job_ok c) ->
  all_ok (fold_left f l m).
Proof.
  intros Hf. revert m. induction l as [|c l IH]; intros m Hm Hl; [done|]. cbn [fold_left]. apply IH.
  - apply Hf; [done|]. apply Hl. by left.
  - intros c' Hc'. apply Hl. by right.
Qed.

Section jobs.
Context {S : Sled} {HX : HexCodec} {D : Digests} {U : U256Ops} {R : Revm} {SE : Secp} {RX : RandomX} {BP : BuildProfile}.
Context {JB : Json Block} {JH : Json BlockHeader} {JT : Json Transaction} {JR : Json StoredReceipt}.
Context {JE : Json (list SerializedEvmSnapshotEntry)}.
Context {IO : FileIo} {JM : Json GenerationManifest} {JC : Json ReplayCheckpoint}.
Context {JP : Json GenerationPublicationRecord} {JS : Json SuffixPublicationRecord} {CM : CompactManifest}.
Context {HO : Host} {CI : CursorIo}.

Lemma normalize_ok saved : all_ok saved -> all_ok (normalize_branch_sync_cursors saved).
Proof.
  intros H. unfold normalize_branch_sync_cursors, prune_duplicate_recovery_cursors.
  set (n := fold_left _ (map snd (btree_iter saved)) ∅).
  assert (all_ok n) as Hn.
  { apply fold_ok; [intros; by apply keep_best_ok|apply map_Forall_empty|]. intros c. by apply all_ok_iter. }
  assert (all_ok (derive_completion <$> n)) as Hd.
  { intros k c Hc. rewrite lookup_fmap in Hc. destruct (n !! k) as [c0|] eqn:E; [|done]. injection Hc as <-.
    apply derive_completion_ok. by eapply Hn. }
  set (all := map snd (btree_iter (derive_completion <$> n))).
  assert (forall c, c ∈ all -> job_ok c) as Hall by (intros c; by apply all_ok_iter).
  apply fold_ok; [intros; by apply all_ok_insert|apply map_Forall_empty|].
  intros c [Hc|Hc]%elem_of_app.
  - apply elem_of_filter_b in Hc as [Hc _]. by apply Hall.
  - eapply all_ok_iter; [|exact Hc]. apply fold_ok; [|apply map_Forall_empty|done].
    intros m c' Hm Hc'. case_match; [by apply keep_best_ok|done].
Qed.

(** ** Runs that keep the jobs *)

Definition keeps_at {A} (m : RS A) (rs : RecoveryState) : Prop := jobs_ok (m rs).2.
Definition keeps {A} (m : RS A) : Prop := forall rs, jobs_ok rs -> keeps_at m rs.

Lemma keeps_ret {A} (a : A) : keeps (st_ret a).
Proof. by intros rs H. Qed.
Lemma keeps_res {A} (r : res string A) : keeps (st_res r).
Proof. by intros rs H. Qed.
Lemma keeps_read {A} (f : RecoveryState -> res string A) : keeps (st_read f).
Proof. by intros rs H. Qed.
Lemma keeps_bind {A C} (m : RS A) (f : A -> RS C) : keeps m -> (forall a, keeps (f a)) -> keeps (st_bind m f).
Proof.
  intros Hm Hf rs H. specialize (Hm rs H). unfold keeps_at, st_bind in *.
  destruct (m rs) as [[a|e|] rs1]; [by apply Hf|done|done].
Qed.
Lemma keeps_modify f : (forall rs, jobs_ok rs -> jobs_ok (f rs)) -> keeps (modify f).
Proof. intros H rs Hrs. by apply H. Qed.
Lemma keeps_logged m : keeps m -> keeps (logged m).
Proof. intros Hm rs H. specialize (Hm rs H). unfold keeps_at, logged in *. by destruct (m rs) as [[u|e|] rs1]. Qed.

Lemma keeps_persist : keeps persist_branch_sync_cursors.
Proof. intros rs H. pose proof H as [H1 _]. unfold keeps_at, persist_branch_sync_cursors. by case_match. Qed.
Lemma keeps_persist_logged : keeps persist_logged.
Proof. apply keeps_logged, keeps_persist. Qed.

Lemma jobs_ok_cursors rs m : jobs_ok rs -> all_ok m -> jobs_ok (rs <|rs_cursors := m|>).
Proof. by intros [_ H2] H. Qed.
Lemma jobs_ok_keys rs k : jobs_ok rs -> jobs_ok (rs <|rs_peer_keys := k|>).
Proof. by intros [H1 H2]. Qed.

Lemma keeps_update key f : (forall c, job_ok c -> job_ok (f c)) -> keeps (update_cursor key f).
Proof. intros Hf. apply keeps_modify. intros rs H. apply jobs_ok_cursors; [done|]. apply all_ok_alter; [done|apply H]. Qed.
Lemma keeps_same key f : (forall c, same_progress c (f c)) -> keeps (update_cursor key f).
Proof. intros Hf. apply keeps_update. intros c. by apply job_ok_same. Qed.
Lemma keeps_unbind key : keeps (unbind key).
Proof. apply keeps_modify. intros rs. apply jobs_ok_keys. Qed.
Lemma keeps_insert key c : job_ok c -> keeps (modify (fun rs => rs <|rs_cursors := <[key := c]> (rs_cursors rs)|>)).
Proof. intros Hc. apply keeps_modify. intros rs H. apply jobs_ok_cursors; [done|]. apply all_ok_insert; [apply H|done]. Qed.
(** A look-up of a job that satisfies the invariant. *)
Lemma job_lookup rs key c : jobs_ok rs -> rs_cursors rs !! key = Some c -> job_ok c.
Proof. intros H Hc. by apply (jk_cursors _ H key). Qed.

Hint Resolve keeps_ret keeps_res keeps_read keeps_persist keeps_persist_logged keeps_unbind keeps_logged : keep.
Ltac keep :=
  repeat first
    [ apply keeps_bind; [|intros ?]
    | match goal with |- keeps (if ?b then _ else _) => destruct b end
    | solve [auto with keep]
    | solve [apply keeps_same; intros ?; done] ].

(** An operation that looks at the state and then runs. *)
Ltac as_run := match goal with |- jobs_ok (?m ?rs).2 => assert (keeps m) as Hk; [|by apply Hk] end.

(** ** The operations *)

Lemma load_keeps saved : match saved with Some m => all_ok m | None => True end -> keeps (load_branch_sync_cursors saved).
Proof.
  intros Hs. unfold load_branch_sync_cursors. destruct saved as [saved|]; [|apply keeps_ret].
  apply keeps_bind; [|intros _; apply keeps_persist_logged]. apply keeps_modify. intros rs H.
  apply jobs_ok_cursors; [done|]. by apply normalize_ok.
Qed.

Lemma set_key_keeps peer tip : keeps (set_peer_recovery_key peer tip).
Proof. apply keeps_modify. intros rs. apply jobs_ok_keys. Qed.

Lemma prune_finalized_keeps : keeps prune_finalized_recovery_cursors.
Proof.
  intros rs H. unfold keeps_at, prune_finalized_recovery_cursors. case_match; [done|].
  apply keeps_persist_logged, jobs_ok_keys, jobs_ok_cursors; [done|]. apply all_ok_retain, H.
Qed.

Lemma reject_keeps now tip reason : keeps (reject_completed_recovery now tip reason).
Proof. unfold reject_completed_recovery. keep. apply prune_finalized_keeps. Qed.

Lemma set_state_keeps now tip state : keeps (set_recovery_state_for_tip now tip state).
Proof. unfold set_recovery_state_for_tip. keep. Qed.

Lemma reset_completed_keeps tip : keeps (reset_completed_recovery_for_refetch tip).
Proof.
  intros rs H. unfold keeps_at, reset_completed_recovery_for_refetch. revert rs H.
  assert (forall o : option BranchSyncCursor, keeps (modify (fun rs => rs <|rs_cursors := delete (recovery_cursor_key tip) (rs_cursors rs)|>) ;!
    match o with Some _ => unbind (recovery_cursor_key tip) | None => st_ret tt end ;! persist_logged)) as Hk.
  { intros o. apply keeps_bind; [|intros _; destruct o; keep]. apply keeps_modify. intros rs H.
    apply jobs_ok_cursors; [done|]. apply all_ok_delete, H. }
  intros rs H. by apply Hk.
Qed.

Lemma max_by_key_in {A} (key : A -> list Z) (l : list A) a : max_by_key key l = Some a -> a ∈ l.
Proof.
  unfold max_by_key. induction l as [|x l IH] using rev_ind; [done|]. rewrite fold_left_app. cbn [fold_left]. intros H.
  apply elem_of_app. destruct (fold_left _ l None) as [b|]; [|injection H as ->; right; by left].
  destruct (keys_ltb _ _); [left; by apply IH|]. injection H as ->. right. by left.
Qed.

Lemma advancing_job_in incoming identity height profile a h root m k c :
  advancing_job incoming identity height profile a h root m = Some (k, c) -> m !! k = Some c.
Proof. unfold advancing_job. intros H%max_by_key_in. apply elem_of_btree_iter. by apply elem_of_filter_b in H as [H _]. Qed.

Lemma coalesce_keeps now peer identity tip height profile a h root :
  keeps (coalesce_advancing_recovery_job now peer identity tip height profile a h root).
Proof.
  intros rs H. unfold keeps_at, coalesce_advancing_recovery_job. destruct (advancing_job _ _ _ _ _ _ _ _) as [[k c]|] eqn:E; [|done].
  apply advancing_job_in in E. apply jobs_ok_keys, jobs_ok_cursors; [done|]. apply all_ok_insert.
  - apply all_ok_delete, all_ok_delete, H.
  - apply retarget_ok. by eapply job_lookup.
Qed.

Lemma coalesce_root_keeps now peer identity : keeps (coalesce_recovery_job_after_branch_root now peer identity).
Proof.
  intros rs H. unfold keeps_at, coalesce_recovery_job_after_branch_root. repeat (case_match; [|done]).
  as_run. keep. apply coalesce_keeps.
Qed.

Lemma migrate_keeps peer identity : keeps (migrate_branch_sync_cursor peer identity).
Proof.
  unfold migrate_branch_sync_cursor. keep. apply keeps_modify. intros rs H. destruct (rs_cursors rs !! peer) as [c|] eqn:E; [|done].
  apply jobs_ok_cursors; [done|]. assert (job_ok c) by (by eapply job_lookup).
  repeat case_match; try apply all_ok_insert; try done; apply all_ok_delete, H.
Qed.

Lemma clear_keeps peer : keeps (clear_branch_sync_cursor peer).
Proof.
  unfold clear_branch_sync_cursor. keep. apply keeps_modify. intros rs H. repeat case_match; try done.
  apply jobs_ok_cursors; [done|]. apply all_ok_delete, H.
Qed.

Lemma advance_keeps now peer hash : keeps (advance_branch_sync_cursor now peer hash).
Proof.
  unfold advance_branch_sync_cursor. keep. apply keeps_modify. intros rs H.
  apply jobs_ok_cursors; [done|]. case_match; (apply all_ok_insert; [apply H|]); [|apply new_ok].
  eapply job_ok_same; [|by eapply job_lookup]. done.
Qed.

Lemma record_forward_keeps now peer block : keeps (record_forward_recovery_progress now peer block).
Proof.
  intros rs H. unfold keeps_at, record_forward_recovery_progress. destruct (rs_cursors rs !! _) as [c|] eqn:E; [|done].
  destruct (forward_progress now c block) as [c'|] eqn:Ef; [|done]. assert (job_ok c') as Hc'.
  { eapply forward_progress_ok; [|exact Ef]. by eapply job_lookup. }
  as_run. keep. by apply keeps_insert.
Qed.

Lemma record_request_keeps now peer height : keeps (record_recovery_request now peer height).
Proof.
  intros rs H. unfold keeps_at, record_recovery_request. case_match; [case_match; [done|]|by apply keeps_persist_logged].
  as_run. keep.
  apply keeps_update. intros c'. apply request_range_ok.
Qed.

Lemma reset_fork_keeps now peer : keeps (reset_recovery_cursor_for_fork now peer).
Proof.
  intros rs H. unfold keeps_at, reset_recovery_cursor_for_fork. destruct (_ ≫= _) as [[k c]|]; [|done]. case_match; [|done].
  as_run. keep.
  apply keeps_update. intros c' [Hs _ _]. by split.
Qed.

Lemma register_keeps peer identity tip primary : keeps (register_recovery_peer_role peer identity tip primary).
Proof.
  intros rs H. unfold keeps_at, register_recovery_peer_role. destruct (rs_cursors rs !! _) as [c|] eqn:E; [|done].
  pose proof (register_role_ok primary peer identity c (job_lookup _ _ _ H E)) as Hc. destruct (register_role _ _ _ c) as [c' heights].
  as_run. keep. by apply keeps_insert.
Qed.

Lemma remove_witness_keeps now tip identity : keeps (remove_stale_recovery_witness now tip identity).
Proof.
  intros rs H. unfold keeps_at, remove_stale_recovery_witness. case_match; [|done]. case_match; [done|].
  as_run. keep.
  apply keeps_update. intros c'. apply remove_witness_ok.
Qed.

Lemma primary_sample_keeps peer block : keeps (record_primary_witness_sample peer block).
Proof.
  intros rs H. unfold keeps_at, record_primary_witness_sample. destruct (rs_cursors rs !! _) as [c|] eqn:E; [|done].
  case_match; [done|]. set (c1 := c <|cu_primary_sample_hashes := _|>).
  assert (job_ok c1) as H1 by (eapply job_ok_same; [|by eapply job_lookup]; done).
  case_match;
    as_run; keep; apply keeps_insert.
  - by apply (job_ok_same c1).
  - by apply checked_ok.
Qed.

Lemma witness_headers_keeps tip identity headers : keeps (record_witness_headers tip identity headers).
Proof.
  intros rs H. unfold keeps_at, record_witness_headers. destruct (rs_cursors rs !! _) as [c|] eqn:E; [|done].
  case_match; [done|]. pose proof (witness_headers_ok headers c (job_lookup _ _ _ H E)) as Hc.
  destruct (witness_headers c headers) as [[u|e|] c']; cbn in Hc; [|case_match|done].
  - as_run. keep. by apply keeps_insert, checked_ok.
  - as_run. keep. by apply keeps_insert.
  - cbn. apply jobs_ok_cursors; [done|]. apply all_ok_insert; [apply H|done].
Qed.

Lemma record_failure_keeps now peer reason : keeps (record_recovery_failure now peer reason).
Proof.
  intros rs H. unfold keeps_at, record_recovery_failure. destruct (_ ≫= _) as [[k c]|]; [|by apply keeps_persist_logged]. case_match; [done|].
  as_run. keep.
Qed.

Lemma unverified_keeps now peer reason : keeps (mark_recovery_spool_unverified now peer reason).
Proof.
  intros rs H. unfold keeps_at, mark_recovery_spool_unverified.
  as_run. keep.
Qed.

Lemma repair_witness_keeps now tip : keeps (repair_witness now tip).
Proof.
  intros rs H. unfold keeps_at, repair_witness. case_match; [case_match; [|done]|done].
  as_run. keep.
Qed.

Lemma tip_job_keeps now peer tip number profile : keeps (tip_job now peer tip number profile).
Proof.
  intros rs H. unfold keeps_at, tip_job. set (c0 := default _ _). assert (job_ok c0) as H0.
  { unfold c0. destruct (rs_cursors rs !! _) as [c|] eqn:E; [by eapply job_lookup|apply new_ok]. }
  match goal with |- jobs_ok (?m rs).2 => assert (keeps m) as Hk; [|by apply Hk] end. keep; [apply set_key_keeps|].
  apply keeps_insert. case_match; [by apply (job_ok_same c0)|done].
Qed.

Lemma select_job_keeps now local peer key tip number profile :
  keeps (select_job now local peer key tip number profile).
Proof.
  intros rs H. unfold keeps_at, select_job. destruct (rs_cursors rs !! key) as [c|] eqn:E; [|by apply tip_job_keeps].
  case_match; [|by apply tip_job_keeps]. apply jobs_ok_keys, jobs_ok_cursors; [done|]. apply all_ok_insert; [apply H|].
  pose proof (job_lookup _ _ _ H E) as [Hs Hf Hl]. destruct (Z.leb_spec (cu_next_height c) (hdr_number local)); [|by split].
  split; cbn; [done| |exact Hl]. intros a Ha. destruct (Hf a Ha) as (Hh & He & Hr & Hst & Hn). split; [done|]. split; [done|].
  unfold sat_add. lia.
Qed.

Lemma remove_jobs_keeps keys : keeps (remove_jobs keys).
Proof.
  apply keeps_modify. intros rs H. apply jobs_ok_keys, jobs_ok_cursors; [done|]. apply all_ok_retain, H.
Qed.

(** *** With the storage *)

Definition Keeps {A} (m : Job A) : Prop := forall n rs, jobs_ok rs -> jobs_ok (m (n, rs)).2.2.

Lemma Keeps_ret {A} (a : A) : Keeps (st_ret a).
Proof. by intros n rs H. Qed.
Lemma Keeps_res {A} (r : res string A) : Keeps (st_res r).
Proof. by intros n rs H. Qed.
Lemma Keeps_node {A} (m : Node A) : Keeps (on_node m).
Proof. intros n rs H. unfold on_node. by destruct (m n). Qed.
Lemma Keeps_read_node {A} (f : NodeStorage -> res string A) : Keeps (read_node f).
Proof. apply Keeps_node. Qed.
Lemma Keeps_jobs {A} (m : RS A) : keeps m -> Keeps (on_jobs m).
Proof. intros Hm n rs H. specialize (Hm rs H). unfold on_jobs, keeps_at in *. by destruct (m rs). Qed.
Lemma Keeps_read_jobs {A} (f : RecoveryState -> A) : Keeps (read_jobs f).
Proof. apply Keeps_jobs, keeps_read. Qed.
Lemma Keeps_bind {A C} (m : Job A) (f : A -> Job C) : Keeps m -> (forall a, Keeps (f a)) -> Keeps (st_bind m f).
Proof.
  intros Hm Hf n rs H. specialize (Hm n rs H). unfold st_bind. destruct (m (n, rs)) as [[a|e|] [n1 rs1]]; [by apply Hf|done|done].
Qed.

(** The same, with what the first run says of its result. *)
Lemma Keeps_bind_with {A C} (P : A -> Prop) (m : Job A) (f : A -> Job C) :
  Keeps m -> (forall s a s', m s = (Ok a, s') -> P a) -> (forall a, P a -> Keeps (f a)) -> Keeps (st_bind m f).
Proof.
  intros Hm HP Hf n rs H. specialize (Hm n rs H). unfold st_bind. destruct (m (n, rs)) as [[a|e|] [n1 rs1]] eqn:E; [|done|done].
  apply Hf; [by eapply HP|done].
Qed.

(** The value read from the jobs satisfies what the invariant gives. *)
Lemma Keeps_read_then {A C} (f : RecoveryState -> A) (k : A -> Job C) :
  (forall n rs, jobs_ok rs -> jobs_ok (k (f rs) (n, rs)).2.2) -> Keeps (st_bind (read_jobs f) k).
Proof. intros Hk n rs H. unfold st_bind, read_jobs, on_jobs, st_read. by apply Hk. Qed.

Hint Resolve Keeps_ret Keeps_res Keeps_node Keeps_read_node Keeps_read_jobs Keeps_jobs : keep.
Ltac Keep :=
  repeat first
    [ apply Keeps_bind; [|intros ?]
    | match goal with |- Keeps (if ?b then _ else _) => destruct b end
    | solve [auto with keep]
    | apply Keeps_jobs
    | progress keep ].

(** A change of the job that was found, saved. *)
Lemma alter_at_ok (f : BranchSyncCursor -> BranchSyncCursor) (key : list byte) (c : BranchSyncCursor) (m : Cursors) : m !! key = Some c -> job_ok (f c) -> all_ok m -> all_ok (alter f key m).
Proof.
  intros Hc Hf Hm k c' H. destruct (decide (k = key)) as [->|Hne].
  - rewrite lookup_alter_eq, Hc in H. by injection H as <-.
  - rewrite lookup_alter_ne in H by done. by eapply Hm.
Qed.

Lemma update_at_ok key f c rs :
  jobs_ok rs -> rs_cursors rs !! key = Some c -> job_ok (f c) -> jobs_ok (update_cursor key f rs).2.
Proof. intros H Hc Hf. apply jobs_ok_cursors; [done|]. eapply alter_at_ok; [done|done|apply H]. Qed.

Lemma prefix_keeps now peer : Keeps (reconcile_recovery_cursor_to_canonical_prefix now peer).
Proof.
  intros n rs H. unfold reconcile_recovery_cursor_to_canonical_prefix. destruct (node_best_header n) as [local|e|]; [|done..].
  destruct (route_key peer rs) as [key|]; cbn [mbind option_bind]; [|done].
  destruct (rs_cursors rs !! key) as [c|] eqn:E; cbn [mbind option_bind]; [|done]. case_match eqn:Hb; [|done].
  pose proof (job_lookup _ _ _ H E) as [Hs Hf Hl]. unfold on_jobs, st_bind.
  match goal with |- context [update_cursor key ?f rs] => assert (jobs_ok (update_cursor key f rs).2) as Hu end.
  { eapply update_at_ok; [done|done|]. split; cbn; [done| |exact Hl]. intros a Ha. destruct (Hf a Ha) as (Hh & He & Hr & Hst & Hn).
    split; [done|]. split; [done|]. apply andb_prop in Hb as [Hb _]. apply andb_prop in Hb as [_ Hb]. unfold sat_add. lia. }
  pose proof (keeps_persist_logged _ Hu) as Hp. unfold keeps_at in Hp. cbn in Hp |- *. by destruct (persist_logged _).
Qed.

Lemma canonical_root_keeps now peer block : Keeps (record_canonical_recovery_root now peer block).
Proof.
  intros n rs H. unfold record_canonical_recovery_root. repeat (case_match; [|done]).
  match goal with |- jobs_ok (on_jobs ?m _).2.2 => assert (Keeps (on_jobs m)) as Hk; [|by apply Hk] end. Keep.
Qed.

Lemma accept_keeps now peer identity height hash n rs :
  0 <= height < U64_MAX ->
  (forall c, rs_cursors rs !! cursor_key peer rs = Some c -> lines height hash (cu_spool_tip_hash c)) ->
  jobs_ok rs -> jobs_ok (accept_common_ancestor now peer identity height hash (n, rs)).2.2.
Proof.
  intros Hh Hline H. unfold accept_common_ancestor, st_bind at 1, read_node, on_node, st_read.
  destruct (any_res (node_block_by_number n height)) as [b|e|]; [|done..]. destruct (negb _); [done|].
  unfold st_bind at 1, read_jobs, on_jobs at 1, st_read. unfold st_bind at 1, on_jobs at 1.
  destruct (rs_cursors rs !! cursor_key peer rs) as [c|] eqn:E; [|done]. cbn [ok_or].
  unfold st_bind at 1, st_res. unfold st_bind at 1, on_jobs at 1.
  assert (jobs_ok (update_cursor (cursor_key peer rs) (join_ancestor now height hash) rs).2) as Hu.
  { eapply update_at_ok; [done|done|]. apply join_ancestor_ok; [done|by apply Hline|by eapply job_lookup]. }
  change (update_cursor (cursor_key peer rs) (join_ancestor now height hash) rs)
    with (Ok (E := string) tt, (update_cursor (cursor_key peer rs) (join_ancestor now height hash) rs).2).
  revert Hu. generalize (update_cursor (cursor_key peer rs) (join_ancestor now height hash) rs).2. intros rs1 H1.
  match goal with |- jobs_ok (?m (n, rs1)).2.2 => assert (Keeps m) as Hk; [|by apply Hk] end.
  destruct identity; Keep. apply coalesce_keeps.
Qed.

(** The walk over the canonical blocks and the spool only moves upward. *)
Lemma canonical_prefix_up n numbers next parent root :
  0 < next <= U64_MAX -> next <= (canonical_prefix n numbers next parent root).1.1 <= U64_MAX.
Proof.
  revert next parent root. induction numbers as [|number numbers IH]; intros next parent root H; [cbn; lia|].
  cbn [canonical_prefix]. destruct (node_block_by_number n number) as [block|e|]; cbn; try lia.
  destruct (negb _); cbn; [lia|].
  match goal with |- context [canonical_prefix n numbers ?x ?y ?z] => specialize (IH x y z) end. unfold sat_add in *. lia.
Qed.

Lemma spool_prefix_up first start croot spool next parent root r :
  0 < next <= U64_MAX -> spool_prefix first start croot spool next parent root = Some r -> next <= r.1.1 <= U64_MAX.
Proof.
  revert next parent root. induction spool as [|[block w] spool IH]; intros next parent root H E; cbn [spool_prefix] in E.
  - injection E as <-. cbn. lia.
  - case_match; [by eapply IH|]. case_match; [done|]. case_match; [injection E as <-; cbn; lia|].
    apply IH in E; unfold sat_add in *; lia.
Qed.

Lemma repaired_ok now a next parent root c :
  cu_ancestor_height c = Some a -> a + 1 <= next <= U64_MAX -> job_ok c -> job_ok (repaired_cursor now a next parent root c).
Proof.
  intros Ha Hn [Hs Hf Hl]. destruct (Hf a Ha) as (Hh & He & Hr & Hst & Hnx). unfold repaired_cursor.
  repeat (match goal with |- context [if ?b then _ else _] => destruct b end);
    (split; cbn; [done| |exact Hl]; rewrite Ha; intros a' [= <-]; split; [done|]; split; [done|]; unfold sat_sub; lia).
Qed.

Lemma forget_ok now c : job_ok c -> job_ok (forget_ancestor now c).
Proof. intros [Hs _ _]. by split. Qed.

Lemma replace_keeps key replacement c : job_ok c -> keeps (replace_cursor key replacement c).
Proof.
  intros Hc. apply keeps_modify. intros rs H. apply jobs_ok_keys, jobs_ok_cursors; [done|].
  apply all_ok_insert; [apply all_ok_delete, H|done].
Qed.

Lemma repair_keeps now key c a hash : job_ok c -> cu_ancestor_height c = Some a -> Keeps (repair_from_spool now key c a hash).
Proof.
  intros Hc Ha. pose proof (jo_forward _ Hc a Ha) as (_ & _ & Hr & _).
  assert (sat_add U64_MAX a 1 = a + 1) as Hfirst by (unfold sat_add; lia).
  unfold repair_from_spool. rewrite Hfirst.
  do 4 (apply Keeps_bind; [auto with keep|intros ?]). destruct (negb _); [apply Keeps_res|].
  match goal with |- Keeps (st_bind ?m ?k) => set (walk := m); set (rest := k) end.
  assert (forall n rs, jobs_ok rs ->
    match (walk (n, rs)).1 with Ok x => a + 1 <= x.1.1 <= U64_MAX | _ => True end /\ jobs_ok (walk (n, rs)).2.2) as Hwalk.
  { intros n rs H. unfold walk. destruct (match cu_branch_root_hash c with Some _ => _ | None => _ end).
    - unfold st_bind, read_node, on_node, st_read. destruct (any_res (node_best_header n)) as [local|e|]; cbn; [|by split..].
      split; [|done]. apply canonical_prefix_up. lia.
    - cbn. split; [lia|done]. }
  intros n rs H. unfold st_bind. destruct (Hwalk n rs H) as [Hx Hrs]. destruct (walk (n, rs)) as [[[[next parent] root]|e|] [n1 rs1]]; [|done..].
  cbn in Hx, Hrs. subst rest walk. cbn beta iota. revert n1 rs1 Hrs.
  match goal with |- forall n1 rs1, _ -> jobs_ok (st_bind ?m ?k (n1, rs1)).2.2 => set (walk := m); set (rest := k) end.
  intros n1 rs1 Hrs. assert (match (walk (n1, rs1)).1 with Ok x => a + 1 <= x.1.1 <= U64_MAX | _ => True end /\ jobs_ok (walk (n1, rs1)).2.2)
    as [Hy Hrs2].
  { unfold walk. destruct (spool_prefix _ _ _ _ _ _ _) as [found|] eqn:Es.
    - apply spool_prefix_up in Es; [|lia]. split; [cbn; lia|done].
    - unfold st_bind, on_node. destruct (node_clear_recovery_spool_for_tip _ n1) as [[u|e|] n2]; cbn; [|by split..]. split; [lia|done]. }
  unfold st_bind. destruct (walk (n1, rs1)) as [[[[next2 parent2] root2]|e|] [n2 rs2]]; [|done..].
  cbn in Hy, Hrs2. subst rest walk. cbn beta iota.
  match goal with |- jobs_ok (?m (n2, rs2)).2.2 => assert (Keeps m) as Hk; [|by apply Hk] end. Keep.
  apply replace_keeps. by apply repaired_ok.
Qed.

Lemma reconcile_keeps now peer : Keeps (reconcile_forward_recovery_spool now peer).
Proof.
  unfold reconcile_forward_recovery_spool. apply Keeps_bind; [auto with keep|]. intros key.
  apply Keeps_read_then. intros n rs H. destruct (rs_cursors rs !! key) as [c|] eqn:E; [|done].
  pose proof (job_lookup _ _ _ H E) as Hc. destruct (cu_ancestor_height c) as [a|] eqn:Ea; [|done].
  destruct (cu_ancestor_hash c) as [h|]; [|done].
  generalize (repair_keeps now key c a h Hc Ea). generalize (repair_from_spool now key c a h). intros repair Hrepair.
  match goal with |- jobs_ok (?m (n, rs)).2.2 => assert (Keeps m) as Hk; [|by apply Hk] end. Keep.
  apply keeps_update. intros c'. apply forget_ok.
Qed.

(** *** The life of a job *)

Lemma Keeps_for {A} (l : list A) (f : A -> Job unit) : (forall x, Keeps (f x)) -> Keeps (st_for l f).
Proof. intros Hf. induction l as [|x l IH]; [apply Keeps_ret|]. by apply Keeps_bind. Qed.

Lemma clear_canonical_keeps : Keeps clear_canonical_recovery_cursor.
Proof.
  intros n rs H. unfold clear_canonical_recovery_cursor. case_match; [done|]. case_match; [|done..]. case_match; [done|].
  match goal with |- jobs_ok (?m (n, rs)).2.2 => assert (Keeps m) as Hk; [|by apply Hk] end. Keep. apply remove_jobs_keeps.
Qed.

Lemma finalize_keeps tip : Keeps (finalize_published_recovery tip).
Proof.
  intros n rs H. unfold finalize_published_recovery. case_match; [|done].
  destruct (node_clear_recovery_spool_for_tip _ n) as [[u|e|] n1]; [|done..].
  match goal with |- jobs_ok (?m (n1, rs)).2.2 => assert (Keeps m) as Hk; [|by apply Hk] end. Keep. apply remove_jobs_keeps.
Qed.

Lemma linked_bodies_up spool next parent imported :
  0 < next <= U64_MAX -> next <= (linked_bodies spool next parent imported).1.1 <= U64_MAX.
Proof.
  revert next parent imported. induction spool as [|[block w] spool IH]; intros next parent imported H; [cbn; lia|].
  cbn [linked_bodies]. destruct (_ || _); [cbn; lia|].
  match goal with |- context [linked_bodies spool ?x ?y ?z] => specialize (IH x y z) end. unfold sat_add in *. lia.
Qed.

Lemma orphaned_ok now canonical profile tip spool c :
  Forall (fun bw => in_u64 (block_number bw.1)) spool -> (forall a h, lines a h (Some tip)) ->
  orphaned_job now canonical profile tip spool = Some c -> job_ok c.
Proof.
  intros Hu Hline H. unfold orphaned_job in H. destruct spool as [|first spool]; [done|]. cbn [head mbind option_bind] in H.
  apply List.Forall_cons_iff in Hu as [[Hu1 Hu2] _]. unfold block_number in *.
  destruct (Z.eqb_spec (hdr_number (blk_header first.1)) 0); [done|].
  destruct (canonical !! _) as [anc|]; cbn [mbind option_bind] in H; [|done]. destruct (negb _); [done|].
  pose proof (linked_bodies_up (first :: spool) (hdr_number (blk_header first.1)) (header_hash (blk_header anc)) 0 ltac:(lia)) as Hup.
  destruct (linked_bodies _ _ _ _) as [[next parent] imported]. cbn in Hup. destruct (_ || _); [done|]. injection H as <-.
  split; cbn; [done| |intros; apply Hline]. intros a [= <-]. split; [done|]. split; [done|]. unfold sat_sub. lia.
Qed.

Hypothesis HC : block_codec.

(** The bodies a spool holds were decoded. *)
Lemma spool_loop_u64 rows blocks b (s : SledStorage) r s' :
  Forall (fun bw => in_u64 (block_number bw.1)) blocks -> spool_loop rows blocks b s = (Ok r, s') ->
  Forall (fun bw => in_u64 (block_number bw.1)) r.1.
Proof using HC.
  revert blocks b s. induction rows as [|row rows IH]; intros blocks b s Hb H; cbn [spool_loop] in H.
  - by injection H as <- <-.
  - apply st_bind_ok in H as (kv & s1 & _ & H). destruct (negb (ends_with _ _)); [by eapply IH|].
    apply st_bind_ok in H as (block & s2 & Hj & H). destruct (negb _); [done|].
    apply st_bind_ok in H as (u & s3 & _ & H). apply st_bind_ok in H as (w & s4 & _ & H).
    eapply IH; [|exact H]. apply Forall_app. split; [done|]. constructor; [|constructor]. cbn.
    apply st_res_ok in Hj as [Hj _]. unfold json_slice in Hj.
    destruct (from_slice kv.2) as [b'|e|] eqn:E; [|done..]. cbn in Hj. injection Hj as ->. by apply (bc_number HC) in E.
Qed.

Lemma spool_u64 tip n spool n' :
  node_recovery_spool_blocks_for_tip tip n = (Ok spool, n') -> Forall (fun bw => in_u64 (block_number bw.1)) spool.
Proof using HC.
  intros H. unfold node_recovery_spool_blocks_for_tip, on_full in H. destruct n as [g|f]; [|done].
  destruct (any (on_db (recovery_blocks_for_tip tip)) g) as [r g'] eqn:E. injection H as -> <-.
  unfold any, on_db in E. destruct (recovery_blocks_for_tip tip (gn_db g)) as [r s'] eqn:Er.
  assert (r = Ok spool) as -> by (destruct r; cbn in E; congruence).
  unfold recovery_blocks_for_tip in Er. apply st_bind_ok in Er as (r & s1 & Hl & Er). destruct r as [blocks rep].
  apply st_bind_ok in Er as (u & s2 & _ & Er). injection Er as <- _.
  apply spool_loop_u64 in Hl; [|constructor]. cbn in Hl. unfold sort_by_key. by rewrite sort_by_perm.
Qed.

Lemma restore_spools_keeps now canonical profile known tips restored :
  (forall tip a h, tip ∈ tips -> lines a h (Some tip)) -> Keeps (restore_spools now canonical profile known tips restored).
Proof using HC.
  revert restored. induction tips as [|tip tips IH]; intros restored Hlines; [apply Keeps_ret|]. cbn [restore_spools].
  assert (forall r, Keeps (restore_spools now canonical profile known tips r)) as IH'.
  { intros r. apply IH. intros t a h Ht. apply Hlines. by right. }
  destruct (bool_decide _); [apply IH'|].
  apply (Keeps_bind_with (Forall (fun bw => in_u64 (block_number bw.1)))); [apply Keeps_node| |].
  - intros [n rs] spool s' H. unfold on_node in H. destruct (node_recovery_spool_blocks_for_tip tip n) as [r n1] eqn:E.
    injection H as -> _. by apply spool_u64 in E.
  - intros spool Hspool. destruct (orphaned_job _ _ _ _ _) as [c|] eqn:Eo; [|apply IH'].
    apply orphaned_ok in Eo; [|done|intros a h; apply Hlines; by left]. apply Keeps_bind; [by apply Keeps_jobs, keeps_insert|intros _; apply IH'].
Qed.

(** The spools on disk are lines of their own. *)
Definition disk_lines (n : NodeStorage) : Prop :=
  forall tips tip a h, node_recovery_spool_tips n = Ok tips -> tip ∈ tips -> lines a h (Some tip).

Lemma restore_orphaned_keeps now rc n rs :
  disk_lines n -> jobs_ok rs -> jobs_ok (restore_orphaned_recovery_spools now rc (n, rs)).2.2.
Proof using HC.
  intros Hn H. unfold restore_orphaned_recovery_spools, st_bind at 1, read_jobs, on_jobs at 1, st_read.
  unfold st_bind at 1, read_node at 1, on_node at 1, st_read.
  destruct (node_recovery_spool_tips n) as [tips|e|] eqn:E; [|done..].
  match goal with |- jobs_ok (?m (n, rs)).2.2 => assert (Keeps m) as Hk; [|by apply Hk] end.
  do 2 (apply Keeps_bind; [auto with keep|intros ?]). apply Keeps_bind.
  - apply restore_spools_keeps. intros tip anc h. by apply Hn.
  - intros r. Keep.
Qed.

Lemma restore_completed_keeps tip : Keeps (restore_completed_candidate tip).
Proof. unfold restore_completed_candidate. Keep. Qed.

Lemma ask_keeps now peer needs next : Keeps (ask_range now peer needs next).
Proof. unfold ask_range. Keep; apply record_request_keeps. Qed.

Lemma request_keeps now peer number tip profile : Keeps (request_peer_branch_cursor now peer number tip profile).
Proof.
  unfold request_peer_branch_cursor.
  apply Keeps_bind; [auto with keep|]. intros local. destruct (negb _).
  { apply Keeps_bind; [apply clear_canonical_keeps|]. auto with keep. }
  apply Keeps_bind; [apply reconcile_keeps|]. intros _. apply Keeps_bind; [auto with keep|]. intros completed.
  destruct (_ && _); [auto with keep|]. apply Keeps_bind; [auto with keep|]. intros _.
  apply Keeps_bind; [apply Keeps_jobs, prune_finalized_keeps|]. intros _. apply Keeps_bind; [auto with keep|]. intros key. apply Keeps_bind; [auto with keep|]. intros retargeted.
  apply Keeps_bind.
  { destruct retargeted as [[[[identity a] h] root]|]; [apply Keeps_jobs, coalesce_keeps|auto with keep]. }
  intros key'. apply Keeps_bind; [apply Keeps_jobs, select_job_keeps|]. intros [needs next].
  apply Keeps_bind; [auto with keep|]. intros _. apply ask_keeps.
Qed.

Lemma preferred_keeps tip : Keeps (preferred_candidate tip).
Proof.
  unfold preferred_candidate. apply Keeps_bind.
  - destruct tip as [hash|]; [|auto with keep]. intros n rs H. pose proof (restore_completed_keeps hash n rs H) as Hr.
    destruct (restore_completed_candidate hash (n, rs)) as [[c|e|] [n1 rs1]]; [done| |done]. cbn in Hr. revert n1 rs1 Hr.
    match goal with |- forall n1 rs1, _ -> jobs_ok (?m (n1, rs1)).2.2 => change (Keeps m) end.
    apply Keeps_bind; [apply Keeps_jobs, reset_completed_keeps|auto with keep].
  - intros [c|]; auto with keep.
Qed.

Lemma outranking_keeps now tip : Keeps (outranking_tip now tip).
Proof.
  unfold outranking_tip. apply Keeps_bind; [apply preferred_keeps|]. intros [[header work]|].
  - apply Keeps_bind; [auto with keep|]. intros [cw|]; [|auto with keep]. destruct (work <=? cw).
    + apply Keeps_bind; [destruct (bool_decide _); [apply Keeps_jobs, reject_keeps|auto with keep]|]. intros _. Keep.
    + intros n rs H. match goal with |- context [on_node ?m (n, rs)] => pose proof (Keeps_node m n rs H) as Hk;
        destruct (on_node m (n, rs)) as [[b|e|] [n1 rs1]] end; exact Hk.
  - apply Keeps_bind; [auto with keep|]. intros durable. Keep.
Qed.

Lemma select_keeps now full busy : Keeps (select_candidate now full busy).
Proof.
  unfold select_candidate. apply Keeps_bind; [auto with keep|]. intros replaying. destruct (_ || _); [auto with keep|].
  apply Keeps_bind; [auto with keep|]. intros completed. apply Keeps_bind.
  { destruct completed; [|auto with keep]. apply Keeps_bind; [apply Keeps_jobs, repair_witness_keeps|auto with keep]. }
  assert (Keeps (do? tip := outranking_tip now completed in
    match tip with
    | None => st_ret None
    | Some tip => on_jobs (set_recovery_state_for_tip now (header_hash (blk_header tip)) (B "replaying")) ;! st_ret (Some tip)
    end)) as Hrest.
  { apply Keeps_bind; [apply outranking_keeps|]. intros [tip|]; [|auto with keep].
    apply Keeps_bind; [apply Keeps_jobs, set_state_keeps|auto with keep]. }
  intros ready. destruct ready, completed as [tip|]; try exact Hrest.
  apply Keeps_bind; [apply Keeps_jobs, set_state_keeps|auto with keep].
Qed.

(** *** The worker *)

Context {SI : SnapshotIo} {JX : Json ExecutionSnapshot} {JG : Json GenerationSnapshot}.

Definition KeepsW {A} (m : WM A) : Prop := forall w, jobs_ok (wk_jobs w) -> jobs_ok (wk_jobs (m w).2).

Lemma w_job_keeps {A} (m : Job A) : Keeps m -> KeepsW (w_job m).
Proof.
  intros Hm w H. specialize (Hm (wk_node w) _ H). unfold w_job. by destruct (m (wk_node w, wk_jobs w)) as [r [n rs]].
Qed.
Lemma w_storage_keeps {A} (m : StM string (NodeStorage * GenerationsRoot) A) : KeepsW (w_storage m).
Proof. intros w H. unfold w_storage. by destruct (m (wk_node w, wk_root w)) as [r [n root]]. Qed.
Lemma outcome_keeps (m done : WM unit) failed :
  KeepsW m -> KeepsW done -> (forall e, KeepsW (failed e)) -> KeepsW (outcome m done failed).
Proof.
  intros Hm Hd Hf w H. specialize (Hm w H). unfold outcome. destruct (m w) as [[u|e|] w1]; [by apply Hd|by apply Hf|done].
Qed.

Lemma worker_keeps others active_id config now tip : KeepsW (recovery_worker others active_id config now tip).
Proof.
  assert (forall t state, KeepsW (w_job (on_jobs (set_recovery_state_for_tip now t state)))) as Hset.
  { intros t state. apply w_job_keeps, Keeps_jobs, set_state_keeps. }
  intros w H. unfold recovery_worker. pose proof (w_job_keeps _ (Keeps_node (candidate_branch_from_storage tip)) w H) as Hb.
  destruct (w_job (on_node (candidate_branch_from_storage tip)) w) as [[branch|e|] w1]; cbn in Hb; [| |done].
  - unfold publish_branch. destruct (extends_tip _ _); (apply outcome_keeps; [..|exact Hb]).
    + apply w_storage_keeps.
    + apply w_job_keeps, finalize_keeps.
    + intros e. apply Hset.
    + apply w_job_keeps, Keeps_node.
    + apply w_job_keeps, finalize_keeps.
    + intros e. destruct (contains _ e); [by intros w' H'|]. destruct (contains _ e); [|apply Hset].
      apply w_job_keeps, Keeps_jobs, reject_keeps.
  - unfold st_bind. pose proof (Hset (header_hash (blk_header tip)) (B "waiting-for-provider") w1 Hb) as Hs.
    destruct (w_job (on_jobs _) w1) as [[u|e'|] w2]; [|done..]. destruct (contains _ e); [|done].
    apply w_job_keeps; [apply Keeps_node|done].
Qed.

(** ** Every operation, in any order *)

(** What happens to the recovery state: the operations of the node with the
    arguments of their callers, changes of the storage by others, and
    restarts, at which only the saved file is left. *)
Inductive Operation :=
  | Restart (now : Z) (rc : ReplayConfig)
  | Identify (peer identity : list byte)
  | Migrate (peer identity : list byte)
  | StorageChange (f : NodeStorage -> NodeStorage)
  | Hello (now : Z) (peer : list byte) (number : Z) (tip : Hash256) (profile : list byte)
  | Ancestor (now : Z) (peer : list byte) (identity : option (list byte)) (height : Z) (hash : Hash256)
  | Bind (peer : list byte) (tip : Hash256)
  | RangeRequest (now : Z) (peer : list byte) (height : Z)
  | Body (now : Z) (peer : list byte) (block : Block)
  | BranchRoot (now : Z) (peer identity : list byte)
  | CanonicalRoot (now : Z) (peer : list byte) (block : Block)
  | CanonicalPrefix (now : Z) (peer : list byte)
  | ParentBody (now : Z) (peer : list byte) (hash : Hash256)
  | PrimarySample (peer : list byte) (block : Block)
  | WitnessHeaders (tip : Hash256) (identity : list byte) (headers : list BlockHeader)
  | Role (peer identity : list byte) (tip : Hash256) (primary : bool)
  | StaleWitness (now : Z) (tip : Hash256) (identity : list byte)
  | Failure (now : Z) (peer : list byte) (reason : string)
  | Unverified (now : Z) (peer : list byte) (reason : string)
  | ForkReset (now : Z) (peer : list byte)
  | Forget (peer : list byte)
  | Reconcile (now : Z) (peer : list byte)
  | ClearCanonical
  | Select (now : Z) (full busy : bool)
  | Work (others : Others) (active_id : res StorageError (option Z)) (config : NodeConfig) (now : Z) (tip : Block).

(** The state a new process starts from. *)
Definition restarted : RS unit := modify (fun rs =>
  {| rs_cursors := ∅; rs_peer_keys := ∅; rs_identities := ∅; rs_file := rs_file rs |}).

Definition perform (op : Operation) (w : Worker) : Worker :=
  let jobs {A} (m : RS A) := (w_job (on_jobs m) w).2 in
  match op with
  | Restart now rc =>
      (w_job (on_jobs restarted ;!
              do? saved := read_jobs rs_file in
              on_jobs (load_branch_sync_cursors saved) ;!
              restore_orphaned_recovery_spools now rc) w).2
  | Identify peer identity =>
      jobs (modify (fun rs => rs <|rs_identities := <[peer := identity]> (rs_identities rs)|>))
  | Migrate peer identity => jobs (migrate_branch_sync_cursor peer identity)
  | StorageChange f => {| wk_node := f (wk_node w); wk_root := wk_root w; wk_dir := wk_dir w; wk_jobs := wk_jobs w |}
  | Hello now peer number tip profile => (w_job (request_peer_branch_cursor now peer number tip profile) w).2
  | Ancestor now peer identity height hash => (w_job (accept_common_ancestor now peer identity height hash) w).2
  | Bind peer tip => jobs (set_peer_recovery_key peer tip)
  | RangeRequest now peer height => jobs (record_recovery_request now peer height)
  | Body now peer block => jobs (record_forward_recovery_progress now peer block)
  | BranchRoot now peer identity => jobs (coalesce_recovery_job_after_branch_root now peer identity)
  | CanonicalRoot now peer block => (w_job (record_canonical_recovery_root now peer block) w).2
  | CanonicalPrefix now peer => (w_job (reconcile_recovery_cursor_to_canonical_prefix now peer) w).2
  | ParentBody now peer hash => jobs (advance_branch_sync_cursor now peer hash)
  | PrimarySample peer block => jobs (record_primary_witness_sample peer block)
  | WitnessHeaders tip identity headers => jobs (record_witness_headers tip identity headers)
  | Role peer identity tip primary => jobs (register_recovery_peer_role peer identity tip primary)
  | StaleWitness now tip identity => jobs (remove_stale_recovery_witness now tip identity)
  | Failure now peer reason => jobs (record_recovery_failure now peer reason)
  | Unverified now peer reason => jobs (mark_recovery_spool_unverified now peer reason)
  | ForkReset now peer => jobs (reset_recovery_cursor_for_fork now peer)
  | Forget peer => jobs (clear_branch_sync_cursor peer)
  | Reconcile now peer => (w_job (reconcile_forward_recovery_spool now peer) w).2
  | ClearCanonical => (w_job clear_canonical_recovery_cursor w).2
  | Select now full busy => (w_job (select_candidate now full busy) w).2
  | Work others active_id config now tip => (recovery_worker others active_id config now tip w).2
  end.

(** Heights are 64-bit; the last one cannot be an ancestor. *)
Definition op_ok (op : Operation) : Prop :=
  match op with Ancestor _ _ _ height _ => 0 <= height < U64_MAX | _ => True end.

Lemma jobs_perform {A} (m : RS A) w : keeps m -> jobs_ok (wk_jobs w) -> jobs_ok (wk_jobs (w_job (on_jobs m) w).2).
Proof. intros Hm. by apply w_job_keeps, Keeps_jobs. Qed.

Lemma restart_keeps now rc n rs :
  disk_lines n -> jobs_ok rs ->
  jobs_ok ((on_jobs restarted ;! do? saved := read_jobs rs_file in
            on_jobs (load_branch_sync_cursors saved) ;! restore_orphaned_recovery_spools now rc) (n, rs)).2.2.
Proof using HC.
  intros Hn [_ Hf]. unfold st_bind at 1, on_jobs at 1, restarted, modify.
  unfold st_bind at 1, read_jobs, on_jobs at 1, st_read. cbn [rs_file].
  unfold st_bind, on_jobs. set (rs0 := {| rs_cursors := ∅ |}).
  pose proof (load_keeps _ Hf rs0) as Hl. unfold keeps_at in Hl.
  destruct (load_branch_sync_cursors (rs_file rs) rs0) as [[u|e|] rs1]; cbn in Hl |- *.
  - apply restore_orphaned_keeps; [done|]. apply Hl. split; [apply map_Forall_empty|exact Hf].
  - apply Hl. split; [apply map_Forall_empty|exact Hf].
  - apply Hl. split; [apply map_Forall_empty|exact Hf].
Qed.

(** The lines an operation starts: of a job whose ancestor was found, and of
    the spools on disk when the node starts again. *)
Definition gained (op : Operation) (w : Worker) (a : Z) (h : Hash256) (spool : option Hash256) : Prop :=
  match op with
  | Ancestor _ peer _ height hash =>
      a = height /\ h = hash /\
      exists c, rs_cursors (wk_jobs w) !! cursor_key peer (wk_jobs w) = Some c /\ spool = cu_spool_tip_hash c
  | Restart _ _ => exists tips tip, node_recovery_spool_tips (wk_node w) = Ok tips /\ tip ∈ tips /\ spool = Some tip
  | _ => False
  end.

Lemma perform_keeps op w :
  op_ok op -> (forall a h spool, gained op w a h spool -> lines a h spool) ->
  jobs_ok (wk_jobs w) -> jobs_ok (wk_jobs (perform op w)).
Proof using HC.
  intros Hop Hgain H. destruct op; cbn [perform].
  - unfold w_job. match goal with |- context [?m (wk_node w, wk_jobs w)] =>
      assert (jobs_ok (m (wk_node w, wk_jobs w)).2.2) as Hr; [|by destruct (m (wk_node w, wk_jobs w)) as [r [n rs]]] end.
    apply restart_keeps; [|done]. intros tips tip a h E Hin. apply Hgain. by exists tips, tip.
  - apply jobs_perform; [|done]. apply keeps_modify. by intros rs [H1 H2].
  - apply jobs_perform; [apply migrate_keeps|done].
  - done.
  - apply w_job_keeps; [apply request_keeps|done].
  - unfold w_job. pose proof (accept_keeps now peer identity height hash (wk_node w) (wk_jobs w) Hop) as Hk.
    destruct (accept_common_ancestor now peer identity height hash (wk_node w, wk_jobs w)) as [r [n rs]].
    apply Hk; [|done]. intros c Hc. apply Hgain. split; [done|]. split; [done|]. by exists c.
  - apply jobs_perform; [apply set_key_keeps|done].
  - apply jobs_perform; [apply record_request_keeps|done].
  - apply jobs_perform; [apply record_forward_keeps|done].
  - apply jobs_perform; [apply coalesce_root_keeps|done].
  - apply w_job_keeps; [apply canonical_root_keeps|done].
  - apply w_job_keeps; [apply prefix_keeps|done].
  - apply jobs_perform; [apply advance_keeps|done].
  - apply jobs_perform; [apply primary_sample_keeps|done].
  - apply jobs_perform; [apply witness_headers_keeps|done].
  - apply jobs_perform; [apply register_keeps|done].
  - apply jobs_perform; [apply remove_witness_keeps|done].
  - apply jobs_perform; [apply record_failure_keeps|done].
  - apply jobs_perform; [apply unverified_keeps|done].
  - apply jobs_perform; [apply reset_fork_keeps|done].
  - apply jobs_perform; [apply clear_keeps|done].
  - apply w_job_keeps; [apply reconcile_keeps|done].
  - apply w_job_keeps; [apply clear_canonical_keeps|done].
  - apply w_job_keeps; [apply select_keeps|done].
  - by apply worker_keeps.
Qed.

End jobs.
End lines.

(** ** Whole runs *)

Section runs.
Context {S : Sled} {HX : HexCodec} {D : Digests} {U : U256Ops} {R : Revm} {SE : Secp} {RX : RandomX} {BP : BuildProfile}.
Context {JB : Json Block} {JH : Json BlockHeader} {JT : Json Transaction} {JR : Json StoredReceipt}.
Context {JE : Json (list SerializedEvmSnapshotEntry)}.
Context {IO : FileIo} {JM : Json GenerationManifest} {JC : Json ReplayCheckpoint}.
Context {JP : Json GenerationPublicationRecord} {JS : Json SuffixPublicationRecord} {CM : CompactManifest}.
Context {HO : Host} {CI : CursorIo} {SI : SnapshotIo} {JX : Json ExecutionSnapshot} {JG : Json GenerationSnapshot}.
Hypothesis HC : block_codec.

Definition performed (ops : list Operation) (w : Worker) : Worker := fold_left (fun w op => perform op w) ops w.

(** A job, in memory or in the saved file. *)
Definition has_job (rs : RecoveryState) (c : BranchSyncCursor) : Prop :=
  exists key, rs_cursors rs !! key = Some c \/ (rs_file rs ≫= lookup key) = Some c.

(** The lines the jobs stage. *)
Definition staged_lines (rs : RecoveryState) (a : Z) (h : Hash256) (spool : option Hash256) : Prop :=
  exists c, has_job rs c /\ cu_ancestor_height c = Some a /\ cu_ancestor_hash c = Some h /\ spool = cu_spool_tip_hash c.

Definition any_line (_ : Z) (_ : Hash256) (_ : option Hash256) : Prop := True.

Lemma jobs_ok_mono (P Q : Z -> Hash256 -> option Hash256 -> Prop) rs :
  (forall c, has_job rs c -> job_ok P c -> job_ok Q c) -> jobs_ok P rs -> jobs_ok Q rs.
Proof.
  intros HPQ [H1 H2]. split.
  - intros k c Hc. apply HPQ; [exists k; by left|by apply (H1 k)].
  - destruct (rs_file rs) as [m|] eqn:E; [|done]. intros k c Hc. apply HPQ; [|by apply (H2 k)].
    exists k. right. by rewrite E.
Qed.

Lemma jobs_ok_job P rs c : jobs_ok P rs -> has_job rs c -> job_ok P c.
Proof.
  intros [H1 H2] (k & [Hc|Hc]); [by apply (H1 k)|]. destruct (rs_file rs) as [m|]; [|done]. by apply (H2 k).
Qed.

(** One operation: every line staged after it was staged before or is gained. *)
Lemma perform_lines op w :
  op_ok op -> jobs_ok any_line (wk_jobs w) ->
  jobs_ok (fun a h s => staged_lines (wk_jobs w) a h s \/ gained op w a h s) (wk_jobs (perform op w)).
Proof using HC.
  intros Hop H. apply perform_keeps; [exact HC|done|by right|].
  apply (jobs_ok_mono any_line); [|done]. intros c Hc [Hs Hf _]. split; [done|done|].
  intros a h Ha Hh. left. by exists c.
Qed.

(** C11: recovery jobs stay well-formed, whatever happens in whatever order:
    hellos, ancestors, bodies, samples, failures, resets, publications with
    their errors, changes of the storage by other threads, failed saves, and
    restarts from the saved file at any point.  In memory and in the file, a
    job has the name of its spool, and a job with an ancestor knows the hash
    of the ancestor and the parent of its next body, has staged nothing below
    its ancestor and nothing above the height it asks for next.

    A job keeps its spool: after any operation of the run, every job with an
    ancestor, in memory or in the file, stages above an ancestor and into a
    spool that a job, in memory or in the file, had together before the
    operation -- however often its target, its key or its peer changes
    meanwhile.  There are two exceptions: an accepted ancestor, which starts a
    line in the spool its job has, and a restart, which takes up the spools on
    disk. *)
Theorem recovery_jobs_wf ops w :
  Forall op_ok ops -> jobs_ok any_line (wk_jobs w) ->
  jobs_ok any_line (wk_jobs (performed ops w)) /\
  (forall before op after c a h, ops = before ++ op :: after ->
     has_job (wk_jobs (performed (before ++ [op]) w)) c -> cu_ancestor_height c = Some a -> cu_ancestor_hash c = Some h ->
     staged_lines (wk_jobs (performed before w)) a h (cu_spool_tip_hash c) \/
     gained op (performed before w) a h (cu_spool_tip_hash c)).
Proof using HC.
  assert (forall ops w, Forall op_ok ops -> jobs_ok any_line (wk_jobs w) -> jobs_ok any_line (wk_jobs (performed ops w))) as Hwf.
  { clear ops w. intros ops. induction ops as [|op ops IH]; intros w Hops H; [done|].
    apply List.Forall_cons_iff in Hops as [Hop Hops]. apply IH; [done|]. by apply perform_keeps. }
  intros Hops H. split; [by apply Hwf|]. intros before op after c a h -> Hc Ha Hh.
  apply List.Forall_app in Hops as [Hbefore Hops]. apply List.Forall_cons_iff in Hops as [Hop _].
  unfold performed in Hc. rewrite fold_left_app in Hc. cbn [fold_left] in Hc.
  pose proof (perform_lines op _ Hop (Hwf before w Hbefore H)) as Hl.
  exact (jo_line _ _ (jobs_ok_job _ _ _ Hl Hc) a h Ha Hh).
Qed.
End runs.

(** ** Example: a peer on another branch *)

Section example.
Import SampleCodecs.
#[local] Existing Instances mem_sled hex_codec toy_digests mem_files mem_snapshots reliable_saves.
#[local] Existing Instances u256_z toy_secp toy_randomx native_profile fork_host fork_jx fork_jg fork_revm.

Definition jobs_start : Worker := {|
  wk_node := Full (sample_generation None); wk_root := []; wk_dir := generation_dir 1;
  wk_jobs := {| rs_cursors := ∅; rs_peer_keys := ∅; rs_identities := ∅; rs_file := None |} |}.

Definition higher_tip : Hash256 := repeat x01 32.

(** A peer announces a tip, the common ancestor is found, and the first body
    of its branch is staged and counted.  The count is not saved yet when the
    node restarts; the repair from the spool finds it again.  Then the same
    identity announces a higher tip over another connection: the job moves to
    it and keeps its spool. *)
Definition jobs_story : list Operation :=
  [Hello 10 (B "p") 5 sample_next_hash []; Ancestor 11 (B "p") None 0 sample_parent_hash;
   StorageChange (fun n => (node_store_recovery_spool_block sample_next_hash sample_replacement 3 n).2);
   Body 12 (B "p") sample_replacement; Restart 13 replay_config;
   Bind (B "p") sample_next_hash; Reconcile 14 (B "p");
   Role (B "p") (B "id") sample_next_hash true; Identify (B "q") (B "id"); Hello 15 (B "q") 6 higher_tip []].

Definition job_of (w : Worker) (tip : Hash256) : option (option Z * Z * Z) :=
  option_map (fun c => (cu_ancestor_height c, cu_staged_height c, cu_next_height c))
    (rs_cursors (wk_jobs w) !! recovery_cursor_key tip).

Definition jobs_after (n : nat) : Worker := performed (take n jobs_story) jobs_start.

Definition spool_of (w : Worker) (tip : Hash256) : option Hash256 :=
  rs_cursors (wk_jobs w) !! recovery_cursor_key tip ≫= cu_spool_tip_hash.

Lemma recovery_jobs_wf_witness :
  map (fun n => job_of (jobs_after n) sample_next_hash) [3; 4; 5; 7; 10]%nat =
    [Some (Some 0, 0, 1); Some (Some 0, 1, 2); Some (Some 0, 0, 1); Some (Some 0, 1, 2); None] /\
  (job_of (jobs_after 10) higher_tip, spool_of (jobs_after 10) higher_tip) =
    (Some (Some 0, 1, 2), Some sample_next_hash) /\
  jobs_ok any_line (wk_jobs (jobs_after 10)).
Proof.
  split; [vm_compute; reflexivity|]. split; [vm_compute; reflexivity|].
  refine (proj1 (recovery_jobs_wf _ jobs_story jobs_start _ _)).
  - exact sample_codec.
  - cbn. repeat (apply List.Forall_cons; [first [exact I|split; vm_compute; done]|]). apply List.Forall_nil.
  - split; [apply map_Forall_empty|exact I].
Defined.
End example.
