(* ===== verification/Spool.v ===== *)
(** The recovery spool of [SledStorage] as a map of bodies by tip and height
    with an index by hash: every operation on its rows does what the
    corresponding step of that map does, the rows of older versions
    included. *)

From Stdlib Require Import ZArith Lia Strings.String Strings.Byte.
From stdpp Require Import sorting gmap fin_maps list base.
From S2P Require Import Prelude Externals Primitives Canonical Consensus Difficulty Sled AccountStore BlockStore ChainStore.
From S2P Require Import Generation Publish CandidateStore Snapshots.
#[local] Open Scope Z_scope.

(** ** Keys *)

Section keys.
Context {HX : HexCodec}.

Lemma hex_inj a b : hash_to_hex a = hash_to_hex b -> a = b.
Proof.
  unfold hash_to_hex. intros E. pose proof (hex_decode_encode a) as H. rewrite E, hex_decode_encode in H. congruence.
Qed.

Lemma hex_no_colon h : x3a ∉ hash_to_hex h.
Proof. eapply Forall_not_in; [apply hex_encode_digits|]. by vm_compute. Qed.

Lemma dec_no_colon z : 0 <= z -> x3a ∉ dec_string z.
Proof. intros. eapply Forall_not_in; [by apply dec_digits_all|]. cbn beta. change (u8_val x3a) with 58. lia. Qed.

(** The rows of the spool. *)
Inductive SpoolRow := RBlock (tip : Hash256) (n : Z) | RWork (tip : Hash256) (n : Z) | RIndex (h : Hash256).

Definition row_key (q : SpoolRow) : list byte :=
  match q with
  | RBlock tip n => recovery_base tip n ++ B ":block"
  | RWork tip n => recovery_base tip n ++ B ":work"
  | RIndex h => recovery_hash_key h
  end.

Definition wf_row (q : SpoolRow) : Prop :=
  match q with RBlock tip n | RWork tip n => wf_hash tip /\ in_u64 n | RIndex h => wf_hash h end.

Lemma base_split tip n suffix tip' n' suffix' :
  in_u64 n -> in_u64 n' ->
  recovery_base tip n ++ x3a :: suffix = recovery_base tip' n' ++ x3a :: suffix' ->
  tip = tip' /\ n = n' /\ suffix = suffix'.
Proof.
  intros Hn Hn' E. unfold recovery_base, recovery_prefix in E. rewrite <- !app_assoc in E. apply app_inv_head in E.
  cbn [app B] in E. change (B ":") with [x3a] in E. cbn [app] in E.
  apply sep_split in E as [E1 E]; [|apply hex_no_colon..].
  apply sep_split in E as [E2 E3]; [|apply dec_no_colon; apply Hn|apply dec_no_colon; apply Hn'].
  split; [by apply hex_inj|]. split; [by apply dec_string_inj|done].
Qed.

(** A key of the index is not below the rows of a tip. *)
Lemma index_not_below tip h : has_prefix (recovery_prefix tip) (recovery_hash_key h) = false.
Proof.
  destruct (has_prefix _ _) eqn:E; [|done]. apply has_prefix_true in E as [r E]. exfalso.
  unfold recovery_prefix, recovery_hash_key in E. rewrite <- !app_assoc in E. change (B ":") with [x3a] in E. cbn [app] in E.
  change (B "recovery:hash:") with (B "recovery:" ++ B "hash" ++ [x3a]) in E.
  rewrite <- !app_assoc in E. apply app_inv_head in E.
  apply sep_split in E as [E _]; [|by apply (bool_decide_unpack (x3a ∉ B "hash")); vm_compute|apply hex_no_colon].
  pose proof (hex_encode_digits tip) as H. unfold hash_to_hex in E. rewrite <- E in H.
  inversion H as [|? ? Hc _]. by vm_compute in Hc.
Qed.

Lemma base_below tip n r : has_prefix (recovery_prefix tip) (recovery_base tip n ++ r) = true.
Proof. apply has_prefix_true. exists (dec_string n ++ r). unfold recovery_base. by rewrite <- app_assoc. Qed.

Lemma row_below q : has_prefix (B "recovery:") (row_key q) = true.
Proof.
  apply has_prefix_true. destruct q; cbn [row_key]; unfold recovery_base, recovery_prefix, recovery_hash_key;
    rewrite <- ?app_assoc; eexists; [reflexivity..|].
  change (B "recovery:hash:") with (B "recovery:" ++ B "hash:"). by rewrite <- app_assoc.
Qed.

Lemma row_key_inj q1 q2 : wf_row q1 -> wf_row q2 -> row_key q1 = row_key q2 -> q1 = q2.
Proof.
  intros H1 H2 E. destruct q1 as [t1 n1|t1 n1|h1], q2 as [t2 n2|t2 n2|h2]; cbn [row_key wf_row] in *.
  1, 2, 4, 5: destruct H1, H2; change (B ":block") with (x3a :: B "block") in E;
    change (B ":work") with (x3a :: B "work") in E; apply base_split in E as (-> & -> & E); done.
  1, 2: pose proof (index_not_below t1 h2) as H; rewrite <- E, base_below in H; done.
  1, 2: pose proof (index_not_below t2 h1) as H; rewrite E, base_below in H; done.
  f_equal. apply hex_inj. by apply app_inv_head in E.
Qed.
End keys.

(** ** Reading a key back *)

Lemma split_on_none sep a : sep ∉ a -> split_on sep a = [a].
Proof.
  induction a as [|c a IH]; intros H; [done|]. rewrite not_elem_of_cons in H. cbn [split_on].
  rewrite IH by apply H. by rewrite bool_decide_false by (intros ->; by destruct (proj1 H)).
Qed.

Lemma split_on_app sep a r : sep ∉ a -> split_on sep (a ++ sep :: r) = a :: split_on sep r.
Proof.
  induction a as [|c a IH]; intros H; cbn [app split_on].
  - by rewrite bool_decide_true.
  - rewrite not_elem_of_cons in H. rewrite IH by apply H. by rewrite bool_decide_false by (intros ->; by destruct (proj1 H)).
Qed.

Section read_keys.
Context {HX : HexCodec}.

Lemma row_ascii q : wf_row q -> Forall (fun c => u8_val c < 128) (row_key q).
Proof.
  intros Hq.
  assert (forall h, Forall (fun c => u8_val c < 128) (hash_to_hex h)) as Hhex.
  { intros h. eapply List.Forall_impl; [|apply hex_encode_digits]. intros c. unfold is_hex_digit. lia. }
  assert (forall n, in_u64 n -> Forall (fun c => u8_val c < 128) (dec_string n)) as Hdec.
  { intros n Hn. eapply List.Forall_impl; [|apply dec_digits_all, Hn]. cbn. lia. }
  assert (forall s : string, forallb (fun c => u8_val c <? 128) (B s) = true -> Forall (fun c => u8_val c < 128) (B s)) as Hs.
  { intros s H. rewrite List.Forall_forall. rewrite forallb_forall in H. intros c Hc%H. lia. }
  destruct q as [tip n|tip n|h]; cbn [row_key wf_row] in *; unfold recovery_base, recovery_prefix, recovery_hash_key;
    rewrite !Forall_app; repeat split; auto; try (apply Hs; by vm_compute); apply Hdec, Hq.
Qed.

Lemma row_utf8 q : wf_row q -> utf8_valid (row_key q) = true.
Proof. intros. by apply utf8_ascii, row_ascii. Qed.

Lemma base_utf8 tip n : wf_hash tip -> in_u64 n -> utf8_valid (recovery_base tip n) = true.
Proof.
  intros Ht Hn. apply utf8_ascii. pose proof (row_ascii (RBlock tip n) (conj Ht Hn)) as H. cbn [row_key] in H.
  by apply Forall_app in H as [H _].
Qed.

Lemma base_recovery tip n : has_prefix (B "recovery:") (recovery_base tip n) = true.
Proof.
  apply has_prefix_true. unfold recovery_base, recovery_prefix. rewrite <- !app_assoc. eauto.
Qed.

Lemma block_row_ends q : wf_row q -> ends_with (B ":block") (row_key q) = match q with RBlock _ _ => true | _ => false end.
Proof.
  intros Hq. destruct q as [tip n|tip n|h]; cbn [row_key].
  - apply ends_with_app.
  - unfold ends_with. rewrite rev_app_distr. by cbn.
  - unfold ends_with, recovery_hash_key, hash_to_hex. rewrite rev_app_distr. cbn [wf_row] in Hq.
    pose proof (hex_encode_digits h) as Hd. apply Forall_rev in Hd.
    destruct (rev (hex_encode h)) as [|c l] eqn:E.
    + apply (f_equal length) in E. rewrite length_rev, length_hex_encode, Hq in E. done.
    + inversion Hd as [|? ? Hc _]; subst. unfold has_prefix. cbn. case_decide as Ek; [|done]. subst c. by vm_compute in Hc.
Qed.

Lemma dec_digits_last f z : 0 <= z -> (0 < f)%nat -> exists l d, 0 <= d < 10 /\ dec_digits f z = l ++ [dec_digit d].
Proof.
  intros Hz Hf. destruct f as [|f]; [lia|]. cbn [dec_digits]. destruct (Z.ltb_spec z 10).
  - exists [], z. split; [lia|done].
  - exists (dec_digits f (z / 10)), (z mod 10). split; [dlia|done].
Qed.

Lemma trim_block_row tip n : in_u64 n -> trim_end_matches (B ":block") (recovery_base tip n ++ B ":block") = recovery_base tip n.
Proof.
  intros Hn. unfold trim_end_matches. rewrite rev_app_distr, length_app.
  replace (length (recovery_base tip n) + length (B ":block"))%nat with (S (length (recovery_base tip n) + 5)) by (cbn; lia).
  cbn [trim_start]. rewrite strip_prefix_app.
  destruct (dec_digits_last 40 n) as (l & d & Hd & E); [apply Hn|lia|].
  assert (trim_start (length (recovery_base tip n) + 5) (rev (B ":block")) (rev (recovery_base tip n)) = rev (recovery_base tip n)) as ->.
  { unfold recovery_base at 2 3, dec_string. rewrite E, app_assoc, rev_app_distr.
    change (rev (B ":block")) with [x6b; x63; x6f; x6c; x62; x3a].
    replace (length (recovery_base tip n) + 5)%nat with (S (length (recovery_base tip n) + 4)) by lia.
    cbn [trim_start rev app strip_prefix]. case_decide as Ek; [|done].
    exfalso. apply (f_equal u8_val) in Ek. rewrite dec_digit_val in Ek by done. change (u8_val x6b) with 107 in Ek. lia. }
  apply rev_involutive.
Qed.

Lemma spool_tip_row q : wf_row q -> spool_tip (row_key q) = match q with RBlock tip _ => Some tip | _ => None end.
Proof.
  intros Hq. unfold spool_tip. rewrite row_utf8 by done. cbn [negb].
  assert (forall tip n, in_u64 n -> forall x, x3a ∉ x ->
    split_on x3a (recovery_base tip n ++ x3a :: x) = [B "recovery"; hash_to_hex tip; dec_string n; x]) as Hs.
  { intros tip n Hn x Hx. unfold recovery_base, recovery_prefix. rewrite <- !app_assoc.
    change (B "recovery:") with (B "recovery" ++ [x3a]). change (B ":") with [x3a]. rewrite <- !app_assoc. cbn [app].
    rewrite split_on_app by (by apply (bool_decide_unpack (x3a ∉ B "recovery")); vm_compute).
    rewrite split_on_app by apply hex_no_colon. rewrite split_on_app by (apply dec_no_colon, Hn). by rewrite split_on_none. }
  destruct q as [tip n|tip n|h]; cbn [row_key wf_row] in *.
  - change (B ":block") with (x3a :: B "block"). destruct Hq as [Ht Hn].
    rewrite Hs by (done || by apply (bool_decide_unpack (x3a ∉ B "block")); vm_compute).
    cbn [bool_decide]. rewrite !bool_decide_true by done. cbn [andb].
    pose proof (hash_text tip Ht) as P. unfold fixed_from_text in P. rewrite utf8_hex in P.
    unfold hash_to_hex, hash_from_hex. by rewrite fixed_from_hex_encode by (rewrite Ht; done).
  - change (B ":work") with (x3a :: B "work"). destruct Hq as [Ht Hn].
    rewrite Hs by (done || by apply (bool_decide_unpack (x3a ∉ B "work")); vm_compute).
    by rewrite (bool_decide_false (B "work" = B "block")), andb_false_r by done.
  - unfold recovery_hash_key. change (B "recovery:hash:") with (B "recovery" ++ x3a :: B "hash" ++ [x3a]).
    rewrite <- app_assoc. cbn [app]. rewrite <- app_assoc. cbn [app].
    rewrite split_on_app by (by apply (bool_decide_unpack (x3a ∉ B "recovery")); vm_compute).
    rewrite split_on_app by (by apply (bool_decide_unpack (x3a ∉ B "hash")); vm_compute).
    by rewrite split_on_none by apply hex_no_colon.
Qed.
End read_keys.

(** ** The abstract spool *)

(** Where the index of a hash points: a body, or, in rows written by older
    versions, only a tip. *)
Inductive IndexRow := At (tip : list byte) (n : Z) | Legacy (tip : list byte).

Record Spool := {
  sp_bodies : gmap (list byte * Z) (Block * Z);
  sp_index : gmap (list byte) IndexRow;
}.

Definition block_hash `{Digests} (bw : Block * Z) : list byte := header_hash (blk_header bw.1).
Definition block_height (bw : Block * Z) : Z := hdr_number (blk_header bw.1).

#[global] Instance spool_row_eq_dec : EqDecision SpoolRow.
Proof. solve_decision. Defined.

Section spool.
Context {S : Sled} {HX : HexCodec} {D : Digests} {JB : Json Block}.

Definition index_value (r : IndexRow) : list byte :=
  match r with At tip n => recovery_base tip n | Legacy tip => tip end.

Definition block_value (b : Block) : option (list byte) :=
  match to_vec b with Ok v => Some v | _ => None end.

Definition row_value (sp : Spool) (q : SpoolRow) : option (list byte) :=
  match q with
  | RBlock tip n => bw ← sp_bodies sp !! (tip, n); block_value bw.1
  | RWork tip n => bw ← sp_bodies sp !! (tip, n); Some (be_bytes 16 bw.2)
  | RIndex h => r ← sp_index sp !! h; Some (index_value r)
  end.

Definition wf_entry (tn : list byte * Z) (bw : Block * Z) : Prop :=
  wf_hash tn.1 /\ in_u64 tn.2 /\ block_height bw = tn.2 /\ in_u128 bw.2 /\ exists v, to_vec bw.1 = Ok v.

Definition wf_index (h : list byte) (r : IndexRow) : Prop :=
  wf_hash h /\
  match r with
  | At tip n => wf_hash tip /\ in_u64 n
  | Legacy tip => wf_hash tip /\ has_prefix (B "recovery:") tip = false
  end.

(** The [recovery:] rows of the store are those of the spool. *)
Record spool_rep (m : Contents) (sp : Spool) : Prop := {
  sr_value : forall q, wf_row q -> m !! row_key q = row_value sp q;
  sr_keys : forall k, has_prefix (B "recovery:") k = true -> is_Some (m !! k) -> exists q, wf_row q /\ k = row_key q;
  sr_bodies : map_Forall wf_entry (sp_bodies sp);
  sr_index : map_Forall wf_index (sp_index sp);
}.

(** *** What an operation may answer and leave *)

Inductive SpoolCall :=
  | CStore (tip : Hash256) (block : Block) (work : Z)
  | CByHash (hash : Hash256)
  | CForTip (tip : Hash256)
  | CTips
  | CClear (tip : Hash256).

Inductive SpoolAnswer := ADone | ABody (bw : Block * Z) | ABodies (l : list (Block * Z)) | ATips (l : list Hash256).

Definition run_spool (call : SpoolCall) : St SpoolAnswer :=
  match call with
  | CStore tip block work => store_recovery_block_unflushed tip block work ;! st_ret ADone
  | CByHash hash => do? bw := recovery_block_by_hash hash in st_ret (ABody bw)
  | CForTip tip => do? l := recovery_blocks_for_tip tip in st_ret (ABodies l)
  | CTips => do? l := st_read recovery_spool_tips in st_ret (ATips l)
  | CClear tip => clear_recovery_blocks_for_tip tip ;! st_ret ADone
  end.

Definition wf_spool_call (call : SpoolCall) : Prop :=
  match call with
  | CStore tip block work =>
      wf_hash tip /\ in_u64 (hdr_number (blk_header block)) /\ in_u128 work /\ exists v, to_vec block = Ok v
  | CByHash hash => wf_hash hash
  | CForTip tip | CClear tip => wf_hash tip
  | CTips => True
  end.

(** The bodies a lookup by hash looks through when the index does not name
    one. *)
Definition in_scope (sp : Spool) (hash tip : Hash256) : Prop :=
  match sp_index sp !! hash with None => True | Some (Legacy t) => tip = t | Some (At _ _) => False end.

Definition spooled (sp : Spool) (tip hash : Hash256) : Prop :=
  exists n bw, sp_bodies sp !! (tip, n) = Some bw /\ block_hash bw = hash.

Definition bodies_of (sp : Spool) (tip : Hash256) (l : list (Block * Z)) : Prop :=
  StronglySorted (fun a b => block_height a < block_height b) l /\
  forall bw, bw ∈ l <-> sp_bodies sp !! (tip, block_height bw) = Some bw.

Inductive spool_step (sp : Spool) : SpoolCall -> res StorageError SpoolAnswer -> Spool -> Prop :=
  | step_store tip block work :
      spool_step sp (CStore tip block work) (Ok ADone) {|
        sp_bodies := <[(tip, hdr_number (blk_header block)) := (block, work)]> (sp_bodies sp);
        sp_index := <[header_hash (blk_header block) := At tip (hdr_number (blk_header block))]> (sp_index sp) |}
  | step_indexed hash tip n :
      sp_index sp !! hash = Some (At tip n) ->
      spool_step sp (CByHash hash)
        (match sp_bodies sp !! (tip, n) with Some bw => Ok (ABody bw) | None => Err NotFound end) sp
  | step_found hash tip n bw :
      in_scope sp hash tip -> sp_bodies sp !! (tip, n) = Some bw -> block_hash bw = hash ->
      spool_step sp (CByHash hash) (Ok (ABody bw))
        {| sp_bodies := sp_bodies sp; sp_index := <[hash := At tip n]> (sp_index sp) |}
  | step_missing hash :
      (forall tip n, sp_index sp !! hash <> Some (At tip n)) ->
      (forall tip, in_scope sp hash tip -> ~ spooled sp tip hash) ->
      spool_step sp (CByHash hash) (Err NotFound) sp
  | step_for_tip tip l index :
      bodies_of sp tip l ->
      (forall hash, (~ spooled sp tip hash /\ index !! hash = sp_index sp !! hash) \/
         exists n bw, sp_bodies sp !! (tip, n) = Some bw /\ block_hash bw = hash /\ index !! hash = Some (At tip n)) ->
      spool_step sp (CForTip tip) (Ok (ABodies l)) {| sp_bodies := sp_bodies sp; sp_index := index |}
  | step_tips l :
      NoDup l -> StronglySorted (cmp_le bytes_compare) l ->
      (forall tip, tip ∈ l <-> exists n, is_Some (sp_bodies sp !! (tip, n))) ->
      spool_step sp CTips (Ok (ATips l)) sp
  | step_clear tip bodies index :
      (forall t n, bodies !! (t, n) = if bool_decide (t = tip) then None else sp_bodies sp !! (t, n)) ->
      (forall hash, (spooled sp tip hash /\ index !! hash = None) \/
         (~ spooled sp tip hash /\ index !! hash = sp_index sp !! hash)) ->
      spool_step sp (CClear tip) (Ok ADone) {| sp_bodies := bodies; sp_index := index |}.
End spool.

(** ** The rows of a spool *)

Section rows.
Context {S : Sled} {HX : HexCodec} {D : Digests} {JB : Json Block}.

Lemma prefix_below tip k : has_prefix (recovery_prefix tip) k = true -> has_prefix (B "recovery:") k = true.
Proof.
  intros [r ->]%has_prefix_true. apply has_prefix_true. unfold recovery_prefix. rewrite <- !app_assoc. eauto.
Qed.

Lemma row_below_tip tip q :
  wf_row q ->
  has_prefix (recovery_prefix tip) (row_key q) = true <->
  match q with RBlock t _ | RWork t _ => t = tip | RIndex _ => False end.
Proof.
  intros Hq. assert (forall t n r, has_prefix (recovery_prefix tip) (recovery_base t n ++ r) = true -> t = tip) as H.
  { intros t n r [r' E]%has_prefix_true. unfold recovery_base, recovery_prefix in E. rewrite <- !app_assoc in E.
    apply app_inv_head in E. change (B ":") with [x3a] in E. cbn [app] in E.
    apply sep_split in E as [E _]; [|apply hex_no_colon..]. by apply hex_inj. }
  destruct q as [t n|t n|h]; cbn [row_key].
  1, 2: split; [apply H|intros ->; apply base_below].
  rewrite index_not_below. done.
Qed.

(** The entries of a scan are rows of the spool. *)
Lemma scanned_rows p m sp :
  spool_rep m sp -> (forall k, has_prefix p k = true -> has_prefix (B "recovery:") k = true) ->
  exists qs, prefix_entries p m = map (fun q => (row_key q, default [] (row_value sp q))) qs /\ NoDup qs /\
    forall q, q ∈ qs <-> wf_row q /\ is_Some (row_value sp q) /\ has_prefix p (row_key q) = true.
Proof.
  intros Hrep Hp.
  assert (Forall (fun kv => exists q, wf_row q /\ kv = (row_key q, default [] (row_value sp q)) /\
            is_Some (row_value sp q) /\ has_prefix p (row_key q) = true) (prefix_entries p m)) as H.
  { apply Forall_forall. intros [k v] [Hk Hpk]%list_elem_of_In%elem_of_prefix_entries.
    destruct (sr_keys _ _ Hrep k) as (q & Hq & ->); [by apply Hp|done|]. exists q.
    rewrite <- (sr_value _ _ Hrep q Hq), Hk. cbn. eauto. }
  assert (exists qs, prefix_entries p m = map (fun q => (row_key q, default [] (row_value sp q))) qs /\
    Forall (fun q => wf_row q /\ is_Some (row_value sp q) /\ has_prefix p (row_key q) = true) qs) as (qs & E & Hqs).
  { clear Hp. induction H as [|kv l (q & Hq & -> & Hv) _ (qs & -> & Hqs)]; [by exists []|]. exists (q :: qs). split; [done|].
    by constructor. }
  exists qs. split; [done|]. pose proof (NoDup_prefix_keys p m) as Hnd. rewrite E, map_map in Hnd. cbn in Hnd. split.
  - by eapply NoDup_fmap_1.
  - intros q. split.
    + intros Hin. rewrite List.Forall_forall in Hqs. apply Hqs. by apply list_elem_of_In.
    + intros (Hq & [v Hv] & Hk). assert ((row_key q, v) ∈ prefix_entries p m) as Hin.
      { apply elem_of_prefix_entries. split; [|done]. by rewrite (sr_value _ _ Hrep). }
      rewrite E in Hin. apply list_elem_of_fmap in Hin as (q' & [= Ek _] & Hin).
      rewrite List.Forall_forall in Hqs. destruct (Hqs q') as (Hq' & _); [by apply list_elem_of_In|].
      by rewrite (row_key_inj q q' Hq Hq' Ek).
Qed.

Lemma lookup_row_insert (m : Contents) q q' v :
  wf_row q -> wf_row q' -> <[row_key q := v]> m !! row_key q' = if decide (q = q') then Some v else m !! row_key q'.
Proof.
  intros Hq Hq'. case_decide as E; [subst; by rewrite lookup_insert_eq|].
  rewrite lookup_insert_ne; [done|]. intros Ek. apply E. by apply row_key_inj.
Qed.

(** Writing the index of a hash. *)
Lemma rep_index m sp h r :
  spool_rep m sp -> wf_index h r ->
  spool_rep (<[recovery_hash_key h := index_value r]> m) {| sp_bodies := sp_bodies sp; sp_index := <[h := r]> (sp_index sp) |}.
Proof.
  intros Hrep Hr. change (recovery_hash_key h) with (row_key (RIndex h)). split.
  - intros q Hq. rewrite lookup_row_insert by (done || apply Hr). rewrite (sr_value _ _ Hrep q Hq).
    case_decide as E; [subst; cbn; by rewrite lookup_insert_eq|].
    destruct q as [t n|t n|h']; cbn; try done. rewrite lookup_insert_ne; [done|]. by intros ->.
  - intros k Hk [v Hv]. destruct (decide (k = row_key (RIndex h))) as [->|Hne]; [exists (RIndex h); split; [apply Hr|done]|].
    rewrite lookup_insert_ne in Hv by done. eapply sr_keys; eauto.
  - apply Hrep.
  - cbn. apply map_Forall_insert_2; [done|apply Hrep].
Qed.

Lemma block_row_value sp tip n bw v :
  map_Forall wf_entry (sp_bodies sp) -> sp_bodies sp !! (tip, n) = Some bw -> to_vec bw.1 = Ok v ->
  row_value sp (RBlock tip n) = Some v.
Proof. intros Hb E Ev. cbn. rewrite E. cbn. unfold block_value. by rewrite Ev. Qed.

(** A scanned block row decodes to its body. *)
Lemma block_row_slice sp tip n bw :
  map_Forall wf_entry (sp_bodies sp) -> sp_bodies sp !! (tip, n) = Some bw ->
  @json_slice _ JB (default [] (row_value sp (RBlock tip n))) = Ok bw.1.
Proof.
  intros Hb E. destruct (Hb _ _ E) as (_ & _ & _ & _ & v & Ev). rewrite (block_row_value _ _ _ _ _ Hb E Ev). cbn.
  unfold json_slice. by rewrite (json_roundtrip _ _ Ev).
Qed.

Lemma row_body sp q tip n : q = RBlock tip n \/ q = RWork tip n -> is_Some (row_value sp q) -> exists bw, sp_bodies sp !! (tip, n) = Some bw.
Proof. intros [-> | ->] [v H]; cbn in H; destruct (sp_bodies sp !! (tip, n)); [eauto|done|eauto|done]. Qed.

Context {HR : SledReliable}.

Lemma recovery_work_rep s sp tip n bw :
  spool_rep (contents s) sp -> sp_bodies sp !! (tip, n) = Some bw -> recovery_work s (recovery_base tip n) = Ok bw.2.
Proof.
  intros Hrep E. destruct (sr_bodies _ _ Hrep _ _ E) as (Ht & Hn & _ & Hw & _). unfold recovery_work.
  rewrite db_get_reliable. change (recovery_base tip n ++ B ":work") with (row_key (RWork tip n)).
  rewrite (sr_value _ _ Hrep (RWork tip n)) by done. cbn. rewrite E. cbn.
  rewrite length_be_bytes. cbn. by rewrite be_val_u128.
Qed.
End rows.

#[local] Opaque dec_string recovery_base recovery_hash_key.

(** ** The operations *)

Section operations.
Context {S : Sled} {HX : HexCodec} {D : Digests} {JB : Json Block} {HR : SledReliable}.

Definition refines (call : SpoolCall) (s : SledStorage) (sp : Spool) : Prop :=
  exists r c sp', runs (run_spool call) s r c /\ spool_step sp call r sp' /\ spool_rep c sp'.

Lemma refines_store tip block work s sp :
  spool_rep (contents s) sp -> wf_spool_call (CStore tip block work) -> refines (CStore tip block work) s sp.
Proof.
  intros Hrep (Ht & Hn & Hw & v & Ev). set (n := hdr_number (blk_header block)). set (h := header_hash (blk_header block)).
  set (c := <[recovery_hash_key h := recovery_base tip n]>
    (<[recovery_base tip n ++ B ":work" := be_bytes 16 work]> (<[recovery_base tip n ++ B ":block" := v]> (contents s)))).
  eexists (Ok ADone), c, _. split; [|split; [apply step_store|]].
  - unfold run_spool, store_recovery_block_unflushed. fold n h. apply (runs_bind _ _ s tt c).
    + unfold json_vec. rewrite Ev. eapply runs_bind; [apply (runs_res (Ok v))|]. intros s1 E1. unfold c. rewrite <- E1.
      eapply runs_bind; [apply runs_insert|]. intros s2 <-. eapply runs_bind; [apply runs_insert|]. intros s3 <-.
      apply runs_insert.
    + intros s1 <-. apply runs_ret.
  - assert (wf_hash h) by apply length_sha256.
    enough (spool_rep (<[recovery_base tip n ++ B ":work" := be_bytes 16 work]> (<[recovery_base tip n ++ B ":block" := v]> (contents s)))
      {| sp_bodies := <[(tip, n) := (block, work)]> (sp_bodies sp); sp_index := sp_index sp |}) as Hm
      by exact (rep_index _ _ h (At tip n) Hm (conj H (conj Ht Hn))).
    change (recovery_base tip n ++ B ":block") with (row_key (RBlock tip n)).
    change (recovery_base tip n ++ B ":work") with (row_key (RWork tip n)). split.
    + intros q Hq. rewrite !lookup_row_insert, (sr_value _ _ Hrep q Hq) by done. destruct q as [t m|t m|h'].
      * rewrite (decide_False (P := RWork tip n = _)) by done. destruct (decide (_ = _)) as [[= <- <-]|Hne].
        { cbn. rewrite lookup_insert_eq. cbn. unfold block_value. by rewrite Ev. }
        cbn. rewrite lookup_insert_ne; [done|]. intros [= -> ->]. by apply Hne.
      * destruct (decide (RWork tip n = _)) as [[= <- <-]|Hne].
        { cbn. by rewrite lookup_insert_eq. }
        rewrite decide_False by done. cbn. rewrite lookup_insert_ne; [done|]. intros [= -> ->]. by apply Hne.
      * by rewrite !decide_False by done.
    + intros k Hk [x Hx]. destruct (decide (k = row_key (RWork tip n))) as [->|N1]; [by exists (RWork tip n)|].
      destruct (decide (k = row_key (RBlock tip n))) as [->|N2]; [by exists (RBlock tip n)|].
      rewrite !lookup_insert_ne in Hx by done. eapply sr_keys; eauto.
    + cbn. apply map_Forall_insert_2; [|apply Hrep]. repeat split; try done; try apply Hn; try apply Hw. by exists v.
    + apply Hrep.
Qed.

(** The scan for a hash: the first row with it, when there is one. *)
Lemma find_base_rows hash sp qs :
  map_Forall wf_entry (sp_bodies sp) -> Forall (fun q => wf_row q /\ is_Some (row_value sp q)) qs ->
  let r := find_in_rows (fun kv =>
    if negb (ends_with (B ":block") kv.1) then Ok None
    else let? block := json_slice kv.2 in
      if negb (bool_decide (header_hash (blk_header block) = hash)) then Ok None
      else if utf8_valid kv.1 then Ok (Some (trim_end_matches (B ":block") kv.1))
      else Err (Serialization "invalid utf-8 sequence")) (map Ok (map (fun q => (row_key q, default [] (row_value sp q))) qs)) in
  (exists tip n bw, RBlock tip n ∈ qs /\ sp_bodies sp !! (tip, n) = Some bw /\ block_hash bw = hash /\
     r = Ok (Some (recovery_base tip n))) \/
  (r = Ok None /\ forall tip n bw, RBlock tip n ∈ qs -> sp_bodies sp !! (tip, n) = Some bw -> block_hash bw <> hash).
Proof.
  intros Hb Hqs. induction Hqs as [|q qs [Hq Hv] _ IH]; [right; split; [done|]; by intros ? ? ? ?%not_elem_of_nil|].
  cbn [map find_in_rows res_map_err res_bind fst snd]. rewrite (block_row_ends q Hq).
  assert (forall tip n, q <> RBlock tip n -> RBlock tip n ∈ q :: qs -> RBlock tip n ∈ qs) as Htail.
  { intros tip n Hne [E|H]%elem_of_cons; [by destruct Hne|exact H]. }
  destruct q as [t m|t m|h]; cbn [negb res_bind].
  - destruct (row_body sp _ t m ltac:(by left) Hv) as [bw E]. rewrite (block_row_slice sp t m bw Hb E). cbn [res_bind].
    case_bool_decide as Eh; cbn [negb].
    + rewrite (row_utf8 (RBlock t m) Hq). cbn [res_bind row_key]. rewrite trim_block_row by apply Hq.
      left. exists t, m, bw. split; [by left|]. done.
    + destruct IH as [(tip & n & bw' & Hin & IH)|[IHr IH]].
      * left. exists tip, n, bw'. split; [by right|done].
      * right. split; [exact IHr|]. intros tip n bw' [[= -> ->]|Hin]%elem_of_cons E'; [|by eapply IH].
        rewrite E in E'. by injection E' as <-.
  - destruct IH as [(tip & n & bw' & Hin & IH)|[IHr IH]].
    + left. exists tip, n, bw'. split; [by right|done].
    + right. split; [exact IHr|]. intros tip n bw' Hin. apply IH. by apply Htail.
  - destruct IH as [(tip & n & bw' & Hin & IH)|[IHr IH]].
    + left. exists tip, n, bw'. split; [by right|done].
    + right. split; [exact IHr|]. intros tip n bw' Hin. apply IH. by apply Htail.
Qed.

Lemma find_base_ok s sp hash p :
  spool_rep (contents s) sp -> (forall k, has_prefix p k = true -> has_prefix (B "recovery:") k = true) ->
  (exists tip n bw, has_prefix p (row_key (RBlock tip n)) = true /\ sp_bodies sp !! (tip, n) = Some bw /\
     block_hash bw = hash /\ find_recovery_base s hash p = Ok (Some (recovery_base tip n))) \/
  (find_recovery_base s hash p = Ok None /\
   forall tip n bw, has_prefix p (row_key (RBlock tip n)) = true -> sp_bodies sp !! (tip, n) = Some bw -> block_hash bw <> hash).
Proof.
  intros Hrep Hp. destruct (scanned_rows p _ sp Hrep Hp) as (qs & E & _ & Hqs).
  unfold find_recovery_base, find_row. rewrite reliable_scan. fold (contents s). rewrite E.
  destruct (find_base_rows hash sp qs) as [(tip & n & bw & Hin & Hb & Hh & Hr)|[Hr Hno]].
  - apply Hrep.
  - rewrite List.Forall_forall. intros q Hq%list_elem_of_In%Hqs. naive_solver.
  - left. exists tip, n, bw. split; [by apply Hqs|done].
  - right. split; [exact Hr|]. intros tip n bw Hk Hb. apply (Hno tip n bw); [|done]. apply Hqs.
    destruct (sr_bodies _ _ Hrep _ _ Hb) as (Ht & Hn & _ & _ & v & Ev). split; [done|]. split; [|done].
    rewrite (block_row_value _ _ _ _ v (sr_bodies _ _ Hrep) Hb Ev). eauto.
Qed.

(** A base whose rows hold a body, or none. *)
Lemma read_base s sp tip n {B} (k : Block * Z -> St B) r c :
  spool_rep (contents s) sp -> wf_hash tip -> in_u64 n ->
  match sp_bodies sp !! (tip, n) with
  | Some bw => forall s1, contents s1 = contents s -> runs (k bw) s1 r c
  | None => r = Err NotFound /\ c = contents s
  end ->
  runs (do? block := st_read (fun s => db_get s (recovery_base tip n ++ Prelude.B ":block")) in
        do? block := st_res (ok_or block NotFound) in
        do? block := st_res (json_slice block) in
        do? work := st_read (fun s => recovery_work s (recovery_base tip n)) in
        k (block, work)) s r c.
Proof.
  intros Hrep Ht Hn H. pose proof (sr_value _ _ Hrep (RBlock tip n) (conj Ht Hn)) as E. cbn [row_key row_value] in E.
  unfold runs. rewrite (st_bind_read (fun s => db_get s _) _ s _ (db_get_reliable s _)). rewrite E.
  destruct (sp_bodies sp !! (tip, n)) as [bw|] eqn:Eb.
  - destruct (sr_bodies _ _ Hrep _ _ Eb) as (_ & _ & _ & _ & v & Ev). cbn [mbind option_bind]. unfold block_value. rewrite Ev.
    rewrite (st_bind_res _ _ _ v) by done. rewrite (st_bind_res _ _ _ bw.1) by (unfold json_slice; by rewrite (json_roundtrip _ _ Ev)).
    rewrite (st_bind_read _ _ _ bw.2) by (by eapply recovery_work_rep). destruct bw as [b w]. by apply H.
  - destruct H as [-> ->]. cbn. by exists s.
Qed.

Lemma refines_by_hash hash s sp :
  spool_rep (contents s) sp -> wf_hash hash -> refines (CByHash hash) s sp.
Proof.
  intros Hrep Hh. pose proof (sr_value _ _ Hrep (RIndex hash) Hh) as Ei. cbn [row_key row_value] in Ei.
  assert (forall p, (forall k, has_prefix p k = true -> has_prefix (B "recovery:") k = true) ->
    (forall tip n bw, sp_bodies sp !! (tip, n) = Some bw ->
       (in_scope sp hash tip <-> has_prefix p (row_key (RBlock tip n)) = true)) ->
    (forall tip n, sp_index sp !! hash <> Some (At tip n)) ->
    exists r c sp', runs (do? bw := (do? base := find_and_index_recovery_block (recovery_hash_key hash) hash p in
        do? block := st_read (fun s => db_get s (base ++ B ":block")) in
        do? block := st_res (ok_or block NotFound) in
        do? block := st_res (json_slice block) in
        do? work := st_read (fun s => recovery_work s base) in
        st_ret (block, work)) in st_ret (ABody bw)) s r c /\ spool_step sp (CByHash hash) r sp' /\ spool_rep c sp') as Hscan.
  { intros p Hp Hscope Hnone. destruct (find_base_ok s sp hash p Hrep Hp) as [(tip & n & bw & Hk & Eb & Hb & E)|[E Hno]].
    - destruct (sr_bodies _ _ Hrep _ _ Eb) as (Ht & Hn & _).
      set (sp' := {| sp_bodies := sp_bodies sp; sp_index := <[hash := At tip n]> (sp_index sp) |}).
      set (c := <[recovery_hash_key hash := recovery_base tip n]> (contents s)).
      assert (spool_rep c sp') as Hrep' by exact (rep_index _ _ hash (At tip n) Hrep (conj Hh (conj Ht Hn))).
      exists (Ok (ABody bw)), c, sp'. split; [|split; [|done]].
      + apply (runs_bind _ _ s bw c); [apply (runs_bind _ _ s (recovery_base tip n) c)|].
        * unfold find_and_index_recovery_block. eapply runs_bind; [by apply runs_read|]. cbn beta. intros s1 E1.
          unfold c. rewrite <- E1.
          eapply (runs_bind _ _ _ tt); [apply runs_insert|]. intros s2 E2. rewrite <- E2. apply runs_ret.
        * intros s1 E1. rewrite <- E1 in Hrep' |- *.
          apply (read_base s1 sp' tip n st_ret (Ok bw) (contents s1)); [done..|]. cbn [sp' sp_bodies]. rewrite Eb.
          intros s2 <-. apply runs_ret.
        * intros s2 E2. rewrite <- E2. apply runs_ret.
      + apply (step_found sp hash tip n bw); [|done..]. by apply (Hscope tip n bw Eb).
    - exists (Err NotFound), (contents s), sp. split; [|split; [|done]].
      + exists s. split; [|done]. unfold find_and_index_recovery_block, st_bind, st_read. by rewrite E.
      + apply step_missing; [done|]. intros tip Hs (n & bw & Eb & Hb). apply (Hno tip n bw); [|done..].
        by apply (Hscope tip n bw Eb). }
  destruct (sp_index sp !! hash) as [[t n|t]|] eqn:Ex; cbn [mbind option_bind index_value] in Ei.
  - destruct (sr_index _ _ Hrep _ _ Ex) as (_ & Ht & Hn).
    eexists _, (contents s), sp. split; [|split; [by apply step_indexed|done]].
    unfold run_spool, recovery_block_by_hash, runs. unfold st_bind at 1.
    rewrite (st_bind_read (fun s => db_get s _) _ s _ (db_get_reliable s _)). rewrite Ei.
    rewrite base_utf8, base_recovery by done. cbn [andb].
    pose proof (read_base s sp t n st_ret (match sp_bodies sp !! (t, n) with Some bw => Ok bw | None => Err NotFound end)
      (contents s) Hrep Ht Hn) as H.
    destruct H as (s1 & E1 & E2).
    { destruct (sp_bodies sp !! (t, n)); [|done]. intros s1 <-. apply runs_ret. }
    exists s1. split; [|done]. unfold st_bind at 1, st_ret at 1. rewrite E1. by destruct (sp_bodies sp !! (t, n)).
  - destruct (sr_index _ _ Hrep _ _ Ex) as (_ & Ht & Hp).
    destruct (Hscan (recovery_prefix t)) as (r & c & sp' & Hr & Hs).
    + intros k. apply prefix_below.
    + intros tip n bw Eb. destruct (sr_bodies _ _ Hrep _ _ Eb) as (Htip & Hn & _).
      rewrite (row_below_tip t (RBlock tip n)) by done. unfold in_scope. by rewrite Ex.
    + intros tip n. congruence.
    + exists r, c, sp'. split; [|exact Hs]. destruct Hr as (s1 & E1 & E2). exists s1. split; [|done].
      rewrite <- E1. unfold run_spool, recovery_block_by_hash. unfold st_bind at 1 5. f_equal.
      rewrite (st_bind_read (fun s => db_get s _) _ s _ (db_get_reliable s _)). rewrite Ei, Hp, andb_false_r.
      by replace (Z.of_nat (length t) =? 32) with true by (rewrite Ht; done).
  - destruct (Hscan (B "recovery:")) as (r & c & sp' & Hr & Hs); [done| |by intros|].
    + intros tip n bw Eb. unfold in_scope. rewrite Ex. split; [intros _; apply row_below|done].
    + exists r, c, sp'. split; [|exact Hs]. destruct Hr as (s1 & E1 & E2). exists s1. split; [|done].
      rewrite <- E1. unfold run_spool, recovery_block_by_hash. unfold st_bind at 1 5.
      rewrite (st_bind_read (fun s => db_get s _) _ s _ (db_get_reliable s _)). by rewrite Ei.
Qed.

(** *** Listing a spool *)

Definition row_block (sp : Spool) (q : SpoolRow) : option (Block * Z) :=
  match q with RBlock tip n => sp_bodies sp !! (tip, n) | _ => None end.

Definition tip_row (sp : Spool) (tip : Hash256) (q : SpoolRow) : Prop :=
  wf_row q /\ is_Some (row_value sp q) /\ match q with RBlock t _ | RWork t _ => t = tip | RIndex _ => False end.

(** The index after the rows [qs] were visited. *)
Definition indexed_rows (sp sp' : Spool) (tip : Hash256) (qs : list SpoolRow) : Prop :=
  sp_bodies sp' = sp_bodies sp /\
  forall hash,
    ((forall n bw, RBlock tip n ∈ qs -> sp_bodies sp !! (tip, n) = Some bw -> block_hash bw <> hash) /\
     sp_index sp' !! hash = sp_index sp !! hash) \/
    exists n bw, RBlock tip n ∈ qs /\ sp_bodies sp !! (tip, n) = Some bw /\ block_hash bw = hash /\
      sp_index sp' !! hash = Some (At tip n).

Lemma indexed_skip sp sp' tip q qs :
  (forall n, q <> RBlock tip n) -> indexed_rows sp sp' tip qs -> indexed_rows sp sp' tip (q :: qs).
Proof.
  intros Hq [Hb H]. split; [done|]. intros hash. destruct (H hash) as [[Hno E]|(n & bw & Hin & Hx)].
  - left. split; [|done]. intros n bw [Eq|Hin]%elem_of_cons; [by destruct (Hq n)|by apply Hno].
  - right. exists n, bw. split; [by right|done].
Qed.

Lemma indexed_write sp sp' tip n bw qs :
  sp_bodies sp !! (tip, n) = Some bw ->
  indexed_rows {| sp_bodies := sp_bodies sp; sp_index := <[block_hash bw := At tip n]> (sp_index sp) |} sp' tip qs ->
  indexed_rows sp sp' tip (RBlock tip n :: qs).
Proof.
  intros Eb [Hb H]. split; [done|]. intros hash. destruct (H hash) as [[Hno E]|(m & bw' & Hin & Hx)]; cbn in *.
  - destruct (decide (block_hash bw = hash)) as [<-|Hne].
    + right. exists n, bw. rewrite E, lookup_insert_eq. split; [by left|done].
    + left. rewrite E, lookup_insert_ne by done. split; [|done].
      intros m bw' [[= ->]|Hin]%elem_of_cons E'; [congruence|by eapply Hno].
  - right. exists m, bw'. split; [by right|done].
Qed.

Lemma spool_loop_ok tip sp0 qs s sp blocks flag :
  spool_rep (contents s) sp -> sp_bodies sp0 = sp_bodies sp -> Forall (tip_row sp0 tip) qs ->
  exists c sp' flag',
    runs (spool_loop (map Ok (map (fun q => (row_key q, default [] (row_value sp0 q))) qs)) blocks flag) s
      (Ok (blocks ++ omap (row_block sp) qs, flag')) c /\
    spool_rep c sp' /\ indexed_rows sp sp' tip qs.
Proof.
  intros Hrep E0 Hqs. revert s sp blocks flag Hrep E0.
  induction Hqs as [|q qs (Hq & Hv & Ht) _ IH]; intros s sp blocks flag Hrep E0.
  { exists (contents s), sp, flag. cbn. rewrite app_nil_r. split; [apply runs_ret|]. split; [done|]. split; [done|].
    intros hash. left. split; [|done]. by intros n bw ?%not_elem_of_nil. }
  assert (forall n, q <> RBlock tip n -> ends_with (B ":block") (row_key q) = false ->
    exists c sp' flag',
    runs (spool_loop (map Ok (map (fun q => (row_key q, default [] (row_value sp0 q))) (q :: qs))) blocks flag) s
      (Ok (blocks ++ omap (row_block sp) qs, flag')) c /\ spool_rep c sp' /\ indexed_rows sp sp' tip qs) as Hskip.
  { intros n _ He. destruct (IH s sp blocks flag Hrep E0) as (c & sp' & flag' & Hr & H). exists c, sp', flag'.
    split; [|done]. destruct Hr as (s' & Hr & Hc). exists s'. split; [|done]. cbn [map spool_loop].
    rewrite (st_bind_res _ _ _ (row_key q, default [] (row_value sp0 q))) by done. cbn [fst]. by rewrite He. }
  destruct q as [t n|t n|h]; [|clear IH|done]; cbn beta iota in Ht; subst t.
  2: { destruct (Hskip n) as (c & sp' & flag' & Hr & Hr2 & Hi); [done|by apply (block_row_ends (RWork tip n))|].
    exists c, sp', flag'. split; [exact Hr|]. split; [done|]. by apply indexed_skip. }
  clear Hskip. destruct (row_body sp0 _ tip n ltac:(by left) Hv) as [bw Eb]. pose proof Eb as Eb'. rewrite E0 in Eb'.
  destruct (sr_bodies _ _ Hrep _ _ Eb') as (_ & Hn & _ & _ & v & Ev).
  set (sp1 := {| sp_bodies := sp_bodies sp; sp_index := <[block_hash bw := At tip n]> (sp_index sp) |}).
  set (c1 := <[recovery_hash_key (block_hash bw) := recovery_base tip n]> (contents s)).
  assert (spool_rep c1 sp1) as Hrep1.
  { apply (rep_index _ _ (block_hash bw) (At tip n) Hrep). split; [apply length_sha256|exact Hq]. }
  destruct (runs_insert (recovery_hash_key (block_hash bw)) (recovery_base tip n) s) as (s1 & Hi & Hc).
  fold c1 in Hc. rewrite <- Hc in Hrep1. destruct (IH s1 sp1 (blocks ++ [bw]) true Hrep1 E0) as (c & sp' & flag' & Hr & Hrep' & Hx).
  exists c, sp', flag'. split; [|split; [done|by eapply indexed_write]].
  destruct Hr as (s' & Hr & Hc'). exists s'. split; [|done]. rewrite <- app_assoc in Hr. cbn [omap list_omap row_block]. rewrite Eb'.
  cbn [map spool_loop]. rewrite (st_bind_res _ _ _ (row_key (RBlock tip n), default [] (row_value sp0 (RBlock tip n)))) by done.
  cbn [fst snd]. rewrite (block_row_ends (RBlock tip n) Hq). cbn [negb].
  rewrite (st_bind_res _ _ _ bw.1).
  2: { unfold json_slice. cbn [row_value]. rewrite Eb. cbn. unfold block_value. rewrite Ev. cbn. by rewrite (json_roundtrip _ _ Ev). }
  rewrite (row_utf8 (RBlock tip n) Hq). cbn [negb row_key]. rewrite trim_block_row by done.
  unfold st_bind at 1. fold (block_hash bw). rewrite Hi.
  rewrite (st_bind_read _ _ _ bw.2) by (by apply (recovery_work_rep s1 sp1)). destruct bw as [b w]. exact Hr.
Qed.

Lemma row_block_bodies sp tip qs :
  map_Forall wf_entry (sp_bodies sp) -> NoDup qs -> Forall (tip_row sp tip) qs ->
  (forall n, is_Some (sp_bodies sp !! (tip, n)) -> RBlock tip n ∈ qs) ->
  bodies_of sp tip (sort_by_key block_height (omap (row_block sp) qs)).
Proof.
  intros Hb Hnd Hqs Hall. unfold sort_by_key.
  assert (forall bw, bw ∈ omap (row_block sp) qs <-> sp_bodies sp !! (tip, block_height bw) = Some bw) as Hin.
  { intros bw. rewrite list_elem_of_omap. split.
    - intros (q & Hq & E). rewrite List.Forall_forall in Hqs. destruct (Hqs q) as (_ & _ & Ht); [by apply list_elem_of_In|].
      destruct q as [t n|t n|h]; [|done..]. subst t. cbn in E. destruct (Hb _ _ E) as (_ & _ & En & _). cbn in En. by rewrite En.
    - intros E. exists (RBlock tip (block_height bw)). split; [apply Hall; eauto|done]. }
  split.
  - assert (NoDup (map block_height (sort_by (cmp_key block_height) (omap (row_block sp) qs)))) as Hn.
    { rewrite sort_by_perm. clear Hall Hin. induction Hnd as [|q qs Hq Hnd IH]; [constructor|].
      inversion Hqs as [|? ? (Hw & Hv & Ht) Hqs']; subst. cbn [omap list_omap].
      destruct (row_block sp q) as [bw|] eqn:E; [|by apply IH]. cbn [map]. apply list.NoDup_cons. split; [|by apply IH].
      intros (bw' & Eh & Hin)%list_elem_of_fmap. apply list_elem_of_omap in Hin as (q' & Hq' & E'). apply Hq.
      rewrite List.Forall_forall in Hqs'. destruct (Hqs' q') as (_ & _ & Ht'); [by apply list_elem_of_In|].
      destruct q as [t n|t n|h]; [|done..]. destruct q' as [t' n'|t' n'|h']; [|done..]. subst t t'. cbn in E, E'.
      destruct (Hb _ _ E) as (_ & _ & En & _), (Hb _ _ E') as (_ & _ & En' & _). cbn in En, En'. by rewrite <- En, Eh, En'. }
    pose proof (sort_by_sorted _ (cmp_key_preorder block_height) (omap (row_block sp) qs)) as Hs.
    revert Hn. induction Hs as [|bw l Hl IH Hbw]; intros Hn; [constructor|]. cbn [map] in Hn. apply list.NoDup_cons in Hn as [Hn1 Hn2].
    constructor; [by apply IH|]. apply List.Forall_forall. intros bw' Hin'. rewrite List.Forall_forall in Hbw.
    pose proof (Hbw bw' Hin') as Hle. unfold cmp_le, cmp_key in Hle.
    destruct (Z.eq_dec (block_height bw) (block_height bw')) as [E|]; [|by apply Z.le_neq; split; [by apply Z.compare_le_iff|]].
    destruct Hn1. rewrite E. apply list_elem_of_fmap. exists bw'. split; [done|]. by apply list_elem_of_In.
  - intros bw. rewrite sort_by_perm. apply Hin.
Qed.

Lemma tip_rows s sp tip :
  spool_rep (contents s) sp ->
  exists qs, prefix_entries (recovery_prefix tip) (contents s) = map (fun q => (row_key q, default [] (row_value sp q))) qs /\
    NoDup qs /\ Forall (tip_row sp tip) qs /\
    (forall n, is_Some (sp_bodies sp !! (tip, n)) -> RBlock tip n ∈ qs /\ RWork tip n ∈ qs).
Proof.
  intros Hrep. destruct (scanned_rows (recovery_prefix tip) _ sp Hrep) as (qs & E & Hnd & Hqs); [apply prefix_below|].
  exists qs. split; [done|]. split; [done|]. split.
  - apply List.Forall_forall. intros q (Hq & Hv & Hk)%list_elem_of_In%Hqs. split; [done|]. split; [done|].
    by apply (row_below_tip tip q Hq).
  - intros n [bw Eb]. destruct (sr_bodies _ _ Hrep _ _ Eb) as (Ht & Hn & _ & _ & v & Ev). split; apply Hqs.
    + split; [done|]. split; [|apply base_below]. rewrite (block_row_value _ _ _ _ v (sr_bodies _ _ Hrep) Eb Ev). eauto.
    + split; [done|]. split; [|apply base_below]. cbn [row_value]. rewrite Eb. cbn. eauto.
Qed.

Lemma refines_for_tip tip s sp :
  spool_rep (contents s) sp -> wf_hash tip -> refines (CForTip tip) s sp.
Proof.
  intros Hrep Ht. destruct (tip_rows s sp tip Hrep) as (qs & E & Hnd & Hqs & Hall).
  destruct (spool_loop_ok tip sp qs s sp [] false Hrep eq_refl Hqs) as (c & sp' & flag & Hr & Hrep' & Hb & Hi).
  pose proof (row_block_bodies sp tip qs (sr_bodies _ _ Hrep) Hnd Hqs (fun n Hn => proj1 (Hall n Hn))) as Hl.
  exists (Ok (ABodies (sort_by_key block_height (omap (row_block sp) qs)))), c, sp'. split; [|split; [|done]].
  - unfold run_spool, recovery_blocks_for_tip. eapply (runs_bind _ _ s _ c).
    + assert (runs (do? (blocks, repaired_index) := spool_loop (map Ok (map (fun q => (row_key q, default [] (row_value sp q))) qs)) [] false in
        (if repaired_index : bool then db_flush else st_ret tt) ;!
        st_ret (sort_by_key block_height blocks)) s (Ok (sort_by_key block_height (omap (row_block sp) qs))) c) as H.
      { apply (runs_bind _ _ s _ c _ _ Hr). intros s1 E1. apply (runs_bind _ _ s1 tt c).
        - rewrite <- E1. destruct flag; [apply runs_flush|apply runs_ret].
        - intros s2 E2. rewrite <- E2. apply runs_ret. }
      unfold runs. rewrite reliable_scan. fold (contents s). rewrite E. exact H.
    + intros s1 E1. rewrite <- E1. apply runs_ret.
  - destruct sp' as [bodies index]. cbn in Hb, Hi. subst bodies. apply step_for_tip; [done|]. intros hash.
    destruct (Hi hash) as [[Hno Ex]|(n & bw & Hin & Hx)].
    + left. split; [|done]. intros (n & bw & Eb & Eh). by apply (Hno n bw); [apply Hall; eauto|..].
    + right. by exists n, bw.
Qed.

(** *** The tips with a spool *)

Lemma bytes_preorder : cmp_preorder bytes_compare.
Proof.
  destruct (@bytes_cmp_preorder unit) as [H1 H2]. split.
  - intros a b. exact (H1 (a, tt) (b, tt)).
  - intros a b c. exact (H2 (a, tt) (b, tt) (c, tt)).
Qed.

Lemma collect_tips (qs : list SpoolRow) (sp : Spool) (tips : gset (list byte)) :
  Forall wf_row qs ->
  exists X : gset (list byte),
    fold_left (fun acc (kv : list byte * list byte) => let? a := acc in
        Ok (match spool_tip kv.1 with Some tip => {[tip]} ∪ a | None => a end))
      (map (fun q => (row_key q, default [] (row_value sp q))) qs) (Ok (E := StorageError) tips) = Ok X /\
    forall tip, tip ∈ X <-> tip ∈ tips \/ exists n, RBlock tip n ∈ qs.
Proof.
  intros Hqs. revert tips. induction Hqs as [|q qs Hq _ IH]; intros tips.
  - exists tips. split; [done|]. intros tip. split; [by left|]. intros [H|[n H%not_elem_of_nil]]; done.
  - cbn [map fold_left fst res_bind]. rewrite (spool_tip_row q Hq).
    destruct (IH (match q with RBlock tip _ => {[tip]} ∪ tips | _ => tips end)) as (X & E & Hin).
    exists X. split; [by destruct q|]. intros tip. rewrite Hin. setoid_rewrite elem_of_cons. destruct q as [t n|t n|h].
    + rewrite elem_of_union, elem_of_singleton. naive_solver.
    + naive_solver.
    + naive_solver.
Qed.

Lemma refines_tips s sp : spool_rep (contents s) sp -> refines CTips s sp.
Proof.
  intros Hrep. destruct (scanned_rows (B "recovery:") _ sp Hrep) as (qs & E & Hnd & Hqs); [done|].
  destruct (collect_tips qs sp ∅) as (X & EX & Hin).
  { apply List.Forall_forall. intros q Hq%list_elem_of_In. by apply Hqs. }
  exists (Ok (ATips (sort_by bytes_compare (elements X)))), (contents s), sp. split; [|split; [|done]].
  - unfold run_spool. eapply runs_bind.
    + apply runs_read. unfold recovery_spool_tips. rewrite read_rows_reliable, E. rewrite EX. cbn [res_bind]. reflexivity.
    + intros s1 E1. rewrite <- E1. apply runs_ret.
  - apply step_tips.
    + rewrite sort_by_perm. apply NoDup_elements.
    + apply sort_by_sorted, bytes_preorder.
    + intros tip. rewrite sort_by_perm, elem_of_elements, Hin. split.
      * intros [H%not_elem_of_empty|[n Hn']]; [done|]. apply Hqs in Hn' as (_ & Hv & _).
        destruct (row_body sp _ tip n ltac:(by left) Hv) as [bw Eb]. eauto.
      * intros [n [bw Eb]]. right. exists n. apply Hqs.
        destruct (sr_bodies _ _ Hrep _ _ Eb) as (Ht & Hn & _ & _ & v & Ev). split; [done|].
        rewrite (block_row_value _ _ _ _ v (sr_bodies _ _ Hrep) Eb Ev). split; [eauto|apply row_below].
Qed.

(** *** Clearing a spool *)

(** The keys a row takes with it. *)
Definition cleared_keys (sp : Spool) (q : SpoolRow) : list (list byte) :=
  match row_block sp q with
  | Some bw => [recovery_hash_key (block_hash bw); row_key q]
  | None => [row_key q]
  end.

Lemma runs_remove_keys (sp : Spool) tip q s1 :
  map_Forall wf_entry (sp_bodies sp) -> tip_row sp tip q ->
  runs ((if ends_with (B ":block") (row_key q) then
           do? block := st_res (json_slice (default [] (row_value sp q))) in
           db_remove (recovery_hash_key (header_hash (blk_header block)))
         else st_ret tt) ;! db_remove (row_key q)) s1 (Ok tt)
    (fold_left (fun m k => delete k m) (cleared_keys sp q) (contents s1)).
Proof.
  intros Hb (Hq & Hv & Ht). rewrite (block_row_ends q Hq). destruct q as [t n|t n|h]; [| |done]; subst t; cbn [row_block cleared_keys].
  - destruct (row_body sp _ tip n ltac:(by left) Hv) as [bw Eb].
    assert (cleared_keys sp (RBlock tip n) = [recovery_hash_key (block_hash bw); row_key (RBlock tip n)]) as ->
      by (unfold cleared_keys; cbn [row_block]; by rewrite Eb).
    apply (runs_bind _ _ s1 tt (delete (recovery_hash_key (block_hash bw)) (contents s1))).
    + rewrite (block_row_slice sp tip n bw Hb Eb). eapply runs_bind; [apply (runs_res (Ok bw.1))|]. intros s2 E2. rewrite <- E2.
      apply runs_remove.
    + intros s2 E2. cbn [fold_left]. rewrite <- E2. apply runs_remove.
  - eapply runs_bind; [apply runs_ret|]. intros s2 E2. rewrite <- E2. apply runs_remove.
Qed.

Lemma runs_clear_rows (sp : Spool) tip qs s :
  map_Forall wf_entry (sp_bodies sp) -> Forall (tip_row sp tip) qs ->
  runs (st_for (map (fun q => (row_key q, default [] (row_value sp q))) qs) (fun kv =>
      (if ends_with (B ":block") kv.1 then
         do? block := st_res (json_slice kv.2) in
         db_remove (recovery_hash_key (header_hash (blk_header block)))
       else st_ret tt) ;! db_remove kv.1)) s (Ok tt)
    (fold_left (fun m k => delete k m) (concat (map (cleared_keys sp) qs)) (contents s)).
Proof.
  intros Hb Hqs. revert s. induction Hqs as [|q qs Hq _ IH]; intros s; [apply runs_ret|]. cbn [map st_for concat].
  rewrite fold_left_app. eapply runs_bind; [apply (runs_remove_keys sp tip q s Hb Hq)|]. intros s1 E1. rewrite <- E1. apply IH.
Qed.

Lemma elem_of_cleared (sp : Spool) tip (qs : list SpoolRow) q :
  map_Forall wf_entry (sp_bodies sp) -> Forall (tip_row sp tip) qs -> wf_row q ->
  row_key q ∈ concat (map (cleared_keys sp) qs) <->
  q ∈ qs \/ exists n bw, RBlock tip n ∈ qs /\ sp_bodies sp !! (tip, n) = Some bw /\ q = RIndex (block_hash bw).
Proof.
  intros Hb Hqs Hq. rewrite list_elem_of_In, in_concat. setoid_rewrite in_map_iff. split.
  - intros (ks & (q' & <- & Hq') & Hk). rewrite List.Forall_forall in Hqs. destruct (Hqs q' Hq') as (Hw & Hv & Ht).
    apply list_elem_of_In in Hq'.
    assert (forall x, wf_row x -> row_key x = row_key q -> x = q) as Hinj by (intros x Hx E; by apply row_key_inj).
    unfold cleared_keys in Hk. destruct q' as [t n|t n|h]; [|destruct Hk as [E|[]]; left; by rewrite <- (Hinj _ Hw E)|done].
    subst t. cbn [row_block] in Hk. destruct (sp_bodies sp !! (tip, n)) as [bw|] eqn:Eb.
    + destruct Hk as [E|[E|[]]]; [right|left; by rewrite <- (Hinj _ Hw E)]. exists n, bw. split; [done|]. split; [done|].
      symmetry. apply Hinj; [apply length_sha256|exact E].
    + destruct Hk as [E|[]]. left. by rewrite <- (Hinj _ Hw E).
  - intros [Hin|(n & bw & Hin & Eb & ->)].
    + exists (cleared_keys sp q). split; [exists q; split; [done|by apply list_elem_of_In]|].
      unfold cleared_keys. destruct (row_block sp q); [right; by left|by left].
    + exists (cleared_keys sp (RBlock tip n)). split; [exists (RBlock tip n); split; [done|by apply list_elem_of_In]|].
      unfold cleared_keys. cbn [row_block]. rewrite Eb. by left.
Qed.

Definition without_tip (sp : Spool) (tip : list byte) (hashes : list (list byte)) : Spool := {|
  sp_bodies := filter (fun kv => kv.1.1 <> tip) (sp_bodies sp);
  sp_index := filter (fun kv => kv.1 ∉ hashes) (sp_index sp) |}.

Lemma without_bodies sp tip hashes t n :
  sp_bodies (without_tip sp tip hashes) !! (t, n) = if bool_decide (t = tip) then None else sp_bodies sp !! (t, n).
Proof.
  cbn. rewrite map_lookup_filter. destruct (sp_bodies sp !! (t, n)) as [bw|]; cbn; [|by case_bool_decide].
  case_guard as Ht; cbn in *; [by rewrite bool_decide_false|].
  rewrite bool_decide_true; [done|]. by destruct (decide (t = tip)).
Qed.

Lemma without_index sp tip hashes h :
  sp_index (without_tip sp tip hashes) !! h = if decide (h ∈ hashes) then None else sp_index sp !! h.
Proof.
  cbn. rewrite map_lookup_filter. destruct (sp_index sp !! h) as [r|]; cbn; [|by case_decide].
  case_guard as Hh; cbn in *; [by rewrite decide_False|].
  rewrite decide_True; [done|]. by destruct (decide (h ∈ hashes)).
Qed.

Lemma cleared_hash (sp : Spool) tip (qs : list SpoolRow) h :
  Forall (tip_row sp tip) qs ->
  h ∈ map block_hash (omap (row_block sp) qs) <->
  exists n bw, RBlock tip n ∈ qs /\ sp_bodies sp !! (tip, n) = Some bw /\ block_hash bw = h.
Proof.
  intros Hqs. rewrite list_elem_of_fmap. setoid_rewrite list_elem_of_omap. split.
  - intros (bw & -> & q & Hq & E). rewrite List.Forall_forall in Hqs. destruct (Hqs q) as (_ & _ & Ht); [by apply list_elem_of_In|].
    destruct q as [t n|t n|h']; [|done..]. subst t. by exists n, bw.
  - intros (n & bw & Hq & E & <-). exists bw. split; [done|]. by exists (RBlock tip n).
Qed.

Lemma rep_without s sp tip (qs : list SpoolRow) :
  spool_rep (contents s) sp -> Forall (tip_row sp tip) qs ->
  (forall n, is_Some (sp_bodies sp !! (tip, n)) -> RBlock tip n ∈ qs /\ RWork tip n ∈ qs) ->
  spool_rep (fold_left (fun m k => delete k m) (concat (map (cleared_keys sp) qs)) (contents s))
    (without_tip sp tip (map block_hash (omap (row_block sp) qs))).
Proof.
  intros Hrep Hqs Hall. pose proof (sr_bodies _ _ Hrep) as Hb. split.
  - intros q Hq. rewrite fold_delete_lookup, (sr_value _ _ Hrep q Hq).
    assert (forall t n, q = RBlock t n \/ q = RWork t n -> q ∈ qs -> t = tip) as Htip.
    { intros t n E Hin. rewrite List.Forall_forall in Hqs. destruct (Hqs q) as (_ & _ & Ht); [by apply list_elem_of_In|].
      by destruct E as [-> | ->]. }
    destruct (decide (row_key q ∈ _)) as [Hin|Hno]; rewrite (elem_of_cleared sp tip qs q Hb Hqs Hq) in *.
    + destruct Hin as [Hin|(n & bw & Hin & Eb & ->)].
      * destruct q as [t n|t n|h]; cbn [row_value]; rewrite ?without_bodies.
        1, 2: rewrite bool_decide_true by (by eapply Htip; eauto); done.
        exfalso. rewrite List.Forall_forall in Hqs. destruct (Hqs (RIndex h)) as (_ & _ & []). by apply list_elem_of_In.
      * cbn [row_value]. rewrite without_index, decide_True; [done|]. apply (cleared_hash sp tip qs _ Hqs). by exists n, bw.
    + destruct q as [t n|t n|h]; cbn [row_value]; rewrite ?without_bodies.
      1, 2: case_bool_decide as E; [subst t|done]; destruct (sp_bodies sp !! (tip, n)) eqn:Eb; [|done];
        destruct Hno; left; by apply Hall; rewrite Eb.
      rewrite without_index, decide_False; [done|]. intros (n & bw & Hin & Eb & <-)%(cleared_hash sp tip qs _ Hqs).
      apply Hno. right. by exists n, bw.
  - intros k Hk [v Hv]. rewrite fold_delete_lookup in Hv. case_decide; [done|]. eapply sr_keys; eauto.
  - intros k x [Hx _]%map_lookup_filter_Some. by apply Hb.
  - intros k x [Hx _]%map_lookup_filter_Some. by apply Hrep.
Qed.

Lemma refines_clear tip s sp :
  spool_rep (contents s) sp -> wf_hash tip -> refines (CClear tip) s sp.
Proof.
  intros Hrep Ht. destruct (tip_rows s sp tip Hrep) as (qs & E & Hnd & Hqs & Hall).
  pose proof (rep_without s sp tip qs Hrep Hqs Hall) as Hrep'.
  set (c := fold_left (fun m k => delete k m) (concat (map (cleared_keys sp) qs)) (contents s)) in *.
  eexists (Ok ADone), c, _. split; [|split; [|exact Hrep']].
  - unfold run_spool, clear_recovery_blocks_for_tip. apply (runs_bind _ _ s tt c).
    + eapply runs_bind; [apply runs_read, scan_all_reliable|]. intros s1 E1. rewrite E. apply (runs_bind _ _ s1 tt c).
      * unfold c. rewrite <- E1. by apply (runs_clear_rows sp tip); [apply Hrep|].
      * intros s2 E2. rewrite <- E2. apply runs_flush.
    + intros s1 E1. rewrite <- E1. apply runs_ret.
  - apply step_clear.
    + intros t n. apply (without_bodies sp tip (map block_hash (omap (row_block sp) qs)) t n).
    + intros hash. change (filter _ _ !! hash) with (sp_index (without_tip sp tip (map block_hash (omap (row_block sp) qs))) !! hash).
      rewrite without_index. case_decide as Hh; rewrite (cleared_hash sp tip qs hash Hqs) in Hh.
      * left. split; [|done]. destruct Hh as (n & bw & _ & Eb & Eh). by exists n, bw.
      * right. split; [|done]. intros (n & bw & Eb & Eh). apply Hh. exists n, bw. split; [by apply Hall|done].
Qed.

(** The calls, one after the other; a call that fails leaves the store for the
    next one. *)
Fixpoint run_spool_calls (calls : list SpoolCall) (s : SledStorage) : list (res StorageError SpoolAnswer) * SledStorage :=
  match calls with
  | [] => ([], s)
  | call :: calls =>
      let '(r, s) := run_spool call s in
      let '(rs, s) := run_spool_calls calls s in
      (r :: rs, s)
  end.

Inductive spool_steps : Spool -> list SpoolCall -> list (res StorageError SpoolAnswer) -> Spool -> Prop :=
  | steps_nil sp : spool_steps sp [] [] sp
  | steps_cons sp call r sp1 calls rs sp2 :
      spool_step sp call r sp1 -> spool_steps sp1 calls rs sp2 -> spool_steps sp (call :: calls) (r :: rs) sp2.

(** C12: the recovery spool is a map of bodies by tip and height.  Any sequence
    of its operations on the rows answers what the map answers and leaves the
    rows of the map after it: listing a spool gives each of its bodies once, in
    ascending height; the tips are those with a body, each once; clearing takes
    all bodies of a tip and nothing else; a lookup by hash follows the index,
    and where an older version wrote only the tip, or nothing, finds a body
    with that hash and repairs the index, as listing a spool does for all its
    bodies. *)
Theorem recovery_spool_refines calls s sp :
  spool_rep (contents s) sp -> Forall wf_spool_call calls ->
  let run := run_spool_calls calls s in
  exists sp', spool_steps sp calls run.1 sp' /\ spool_rep (contents run.2) sp'.
Proof.
  intros Hrep Hcalls. revert s sp Hrep. induction Hcalls as [|call calls Hc _ IH]; intros s sp Hrep.
  { exists sp. split; [constructor|done]. }
  assert (refines call s sp) as (r & c & sp1 & (s1 & Hr & Hc1) & Hstep & Hrep1).
  { destruct call; [by apply refines_store|by apply refines_by_hash|by apply refines_for_tip|by apply refines_tips|by apply refines_clear]. }
  rewrite <- Hc1 in Hrep1. destruct (IH s1 sp1 Hrep1) as (sp2 & Hs & Hrep2).
  cbn [run_spool_calls]. rewrite Hr. destruct (run_spool_calls calls s1) as [rs s2]. exists sp2.
  split; [by eapply steps_cons|done].
Qed.
End operations.

(** ** Example: two bodies of one height *)

Definition spool_sample (number nonce : Z) : Block := empty_block {|
  hdr_parent_hash := HASH_ZERO; hdr_number := number; hdr_state_root := HASH_ZERO;
  hdr_transactions_root := HASH_ZERO; hdr_receipts_root := HASH_ZERO; hdr_beneficiary := HASH_ZERO;
  hdr_difficulty_target := HASH_ZERO; hdr_base_fee_per_gas := 0; hdr_gas_limit := 0; hdr_gas_used := 0;
  hdr_timestamp_seconds := 0; hdr_pow_algorithm := []; hdr_pow_epoch := 0; hdr_extra_nonce := 0;
  hdr_mix_hash := HASH_ZERO; hdr_nonce := nonce |}.

Definition spool_first : Block := spool_sample 1 11.
Definition spool_second : Block := spool_sample 1 12.
Definition spool_next : Block := spool_sample 2 13.
Definition spool_codec : Json Block := table_json [spool_first; spool_second; spool_next].

Section example.
#[local] Existing Instances mem_sled hex_codec toy_digests mem_sled_reliable spool_codec.

Definition empty_spool : Spool := {| sp_bodies := ∅; sp_index := ∅ |}.
Definition empty_store : SledStorage := {| ss_db := (∅ : @sled_db mem_sled); ss_defer_flush := false |}.

Lemma empty_spool_rep : spool_rep (contents empty_store) empty_spool.
Proof.
  split.
  - intros q _. destruct q; cbn; by rewrite ?lookup_empty.
  - intros k _ [v Hv]. change (contents empty_store) with (∅ : Contents) in Hv. by rewrite lookup_empty in Hv.
  - apply map_Forall_empty.
  - apply map_Forall_empty.
Qed.

(** The second body of a height replaces the first one, but not its index:
    the lookup of the first one answers the second. *)
Definition spool_calls : list SpoolCall :=
  let hash b := header_hash (blk_header b) in
  let tip := hash spool_next in
  [CStore tip spool_next 7; CStore tip spool_first 3; CTips; CStore tip spool_second 4; CForTip tip;
   CByHash (hash spool_first); CClear tip; CForTip tip; CByHash (hash spool_next)].

Lemma recovery_spool_refines_witness :
  (run_spool_calls spool_calls empty_store).1 =
    [Ok ADone; Ok ADone; Ok (ATips [header_hash (blk_header spool_next)]); Ok ADone;
     Ok (ABodies [(spool_second, 4); (spool_next, 7)]); Ok (ABody (spool_second, 4));
     Ok ADone; Ok (ABodies []); Err NotFound] /\
  exists sp', spool_steps empty_spool spool_calls (run_spool_calls spool_calls empty_store).1 sp' /\
    spool_rep (contents (run_spool_calls spool_calls empty_store).2) sp'.
Proof.
  split; [vm_compute; reflexivity|]. apply recovery_spool_refines; [exact empty_spool_rep|].
  unfold spool_calls. repeat (apply List.Forall_cons; [first [exact I|vm_compute; reflexivity|idtac]|]); [..|apply List.Forall_nil].
  all: split; [vm_compute; reflexivity|split; [split; vm_compute; discriminate|split; [split; vm_compute; discriminate|]]].
  all: eexists; vm_compute; reflexivity.
Defined.
End example.
