(* ===== verification/Resume.v ===== *)
(** The repair of a recovery job from its spool
    ([reconcile_forward_recovery_spool]): the progress of the job is a function
    of the bodies on disk, so what a crash loses of the saved file does not
    matter. *)

From Stdlib Require Import ZArith Lia Strings.String Strings.Byte.
From stdpp Require Import sorting gmap fin_maps base list.
From S2P Require Import Prelude Externals Primitives Canonical Rlp RawTx Pow Consensus State StateRoot.
From S2P Require Import Transition Evm Difficulty BlockExec Mempool Admission Replay Network.
From S2P Require Import Sled AccountStore BlockStore ChainStore Generation Publish CandidateStore NodeStore NodeState Snapshots Branch.
From S2P Require Import Supply Import Miner Cursor Recovery Sync Driver Reorg Direct Fork Witness Spool.
#[local] Open Scope Z_scope.

(** ** The branch in a spool *)

Section branch.
Context {D : Digests}.

(** The bodies of a branch from its first height on. *)
Fixpoint linked (first : Z) (parent : Hash256) (l : list (Block * Z)) : Prop :=
  match l with
  | [] => True
  | bw :: l => block_height bw = first /\ hdr_parent_hash (blk_header bw.1) = parent /\ linked (first + 1) (block_hash bw) l
  end.

Definition end_hash (parent : Hash256) (l : list (Block * Z)) : Hash256 := from_option block_hash parent (last l).

(** [l] is what the spool of [tip] holds of the branch: linked bodies, and the
    body of the next height is missing or does not continue them. *)
Definition branch_in (sp : Spool) (tip : Hash256) (first : Z) (parent : Hash256) (l : list (Block * Z)) : Prop :=
  linked first parent l /\ Forall (fun bw => sp_bodies sp !! (tip, block_height bw) = Some bw) l /\
  forall bw, sp_bodies sp !! (tip, first + Z.of_nat (length l)) = Some bw ->
    hdr_parent_hash (blk_header bw.1) <> end_hash parent l.

Lemma end_hash_cons parent bw l : end_hash parent (bw :: l) = end_hash (block_hash bw) l.
Proof.
  unfold end_hash. destruct l as [|bw2 l]; [done|]. rewrite last_cons.
  destruct (last (bw2 :: l)) eqn:El; [done|]. by apply last_None in El.
Qed.

Lemma branch_in_nil sp tip first parent :
  (forall bw, sp_bodies sp !! (tip, first) = Some bw -> hdr_parent_hash (blk_header bw.1) <> parent) ->
  branch_in sp tip first parent [].
Proof. intros H. split; [done|]. split; [constructor|]. intros bw. cbn [length]. rewrite Z.add_0_r. apply H. Qed.

Lemma branch_in_cons sp tip first parent bw l :
  sp_bodies sp !! (tip, first) = Some bw -> block_height bw = first -> hdr_parent_hash (blk_header bw.1) = parent ->
  branch_in sp tip (first + 1) (block_hash bw) l -> branch_in sp tip first parent (bw :: l).
Proof.
  intros Eb Eh Ep (Hl & Hin & Hend). split; [done|]. split; [constructor; [by rewrite Eh|done]|]. intros bw' E.
  rewrite end_hash_cons.
  apply Hend. rewrite <- E. do 2 f_equal. cbn [length]. lia.
Qed.

Lemma branch_in_unique sp tip first parent l1 l2 :
  branch_in sp tip first parent l1 -> branch_in sp tip first parent l2 -> l1 = l2.
Proof.
  revert first parent l2. induction l1 as [|bw1 l1 IH]; intros first parent [|bw2 l2] (Hl1 & Hin1 & He1) (Hl2 & Hin2 & He2); [done|..].
  - exfalso. destruct Hl2 as (Eh & Ep & _). inversion Hin2 as [|? ? E _]; subst. apply (He1 bw2); [|done].
    cbn. by rewrite Z.add_0_r.
  - exfalso. destruct Hl1 as (Eh & Ep & _). inversion Hin1 as [|? ? E _]; subst. apply (He2 bw1); [|done].
    cbn. by rewrite Z.add_0_r.
  - destruct Hl1 as (Eh1 & Ep1 & Hl1), Hl2 as (Eh2 & Ep2 & Hl2). inversion Hin1 as [|? ? E1 Hin1']; subst.
    inversion Hin2 as [|? ? E2 Hin2']; subst. rewrite Eh2, E1 in E2. injection E2 as <-. f_equal.
    apply (IH (block_height bw1 + 1) (block_hash bw1)); (split; [done|]; split; [done|]); intros bw E;
      [rewrite end_hash_cons in He1; apply He1|rewrite end_hash_cons in He2; apply He2]; rewrite <- E; do 2 f_equal; cbn [length]; lia.
Qed.

(** The loop over the bodies in ascending height finds the branch. *)
Lemma spool_prefix_branch sp tip first at_start croot L next parent root :
  0 <= first <= next -> next <= U64_MAX ->
  (forall n, is_Some (sp_bodies sp !! (tip, n)) -> n < U64_MAX) ->
  StronglySorted (fun a b => block_height a < block_height b) L ->
  Forall (fun bw => sp_bodies sp !! (tip, block_height bw) = Some bw) L ->
  (forall n bw, sp_bodies sp !! (tip, n) = Some bw -> block_height bw = n) ->
  (forall bw, sp_bodies sp !! (tip, block_height bw) = Some bw -> next <= block_height bw -> bw ∈ L) ->
  (next = first -> at_start = true -> forall bw, sp_bodies sp !! (tip, first) = Some bw -> croot <> Some (block_hash bw)) ->
  exists l, branch_in sp tip next parent l /\
    spool_prefix first at_start croot L next parent root =
      Some (next + Z.of_nat (length l), end_hash parent l,
            if next =? first then match root with None => block_hash <$> head l | Some r => Some r end else root).
Proof.
  intros Hf Hu Hmax Hs Hin Hheight Hall Hroot. revert next parent root Hf Hu Hall Hroot.
  induction Hs as [|bw L Hs IH Hlt]; intros next parent root Hf Hu Hall Hroot.
  { exists []. split.
    - apply branch_in_nil. intros bw E. pose proof (Hheight _ _ E) as Eh. exfalso.
      apply (not_elem_of_nil bw). apply Hall; [by rewrite Eh|lia].
    - cbn. rewrite Z.add_0_r. by destruct (next =? first), root. }
  inversion Hin as [|? ? Eb Hin']; subst. cbn [spool_prefix]. destruct bw as [block w]. set (bw := (block, w)) in *.
  fold (block_height bw) (block_hash bw). change (hdr_number (blk_header block)) with (block_height bw).
  change (header_hash (blk_header block)) with (block_hash bw).
  destruct (Z.ltb_spec (block_height bw) next) as [Hlow|Hlow].
  { apply IH; [done..| |done]. intros bw' E' Hn. destruct (proj1 (elem_of_cons _ _ _) (Hall bw' E' Hn)) as [->|H]; [lia|done]. }
  assert ((block_height bw =? first) && at_start && bool_decide (croot = Some (block_hash bw)) = false) as ->.
  { destruct (Z.eqb_spec (block_height bw) first) as [E|]; [|done]. cbn [andb]. destruct at_start; [|done].
    rewrite bool_decide_false; [done|]. apply Hroot; [lia|done|]. by rewrite <- E. }
  destruct (Z.eqb_spec (block_height bw) next) as [En|Hne]; cbn [negb orb].
  2: { exists []. split; [|cbn; rewrite Z.add_0_r; by destruct (next =? first), root]. apply branch_in_nil. intros bw' E'.
    pose proof (Hheight _ _ E') as Eh. exfalso. assert (bw' ∈ bw :: L) as H by (apply Hall; [by rewrite Eh|lia]).
    apply elem_of_cons in H as [->|H]; [lia|]. rewrite List.Forall_forall in Hlt. apply list_elem_of_In, Hlt in H. lia. }
  case_bool_decide as Ep; cbn [negb].
  2: { exists []. split; [|cbn; rewrite Z.add_0_r; by destruct (next =? first), root]. apply branch_in_nil. intros bw' E'.
    rewrite <- En, Eb in E'. injection E' as <-. done. }
  assert (next < U64_MAX) as Hn by (apply Hmax; rewrite <- En, Eb; eauto).
  replace (sat_add U64_MAX next 1) with (next + 1) by (unfold sat_add; lia).
  destruct (IH Hin' (next + 1) (block_hash bw)
    (match root with None => if block_height bw =? first then Some (block_hash bw) else None | Some r => Some r end)) as (l & Hl & E).
  - lia.
  - lia.
  - intros bw' E' Hn'. destruct (proj1 (elem_of_cons _ _ _) (Hall bw' E' ltac:(lia))) as [->|H]; [lia|done].
  - lia.
  - exists (bw :: l). split; [apply branch_in_cons; [by rewrite <- En|done..]|]. rewrite E. f_equal. f_equal; [f_equal|].
    + cbn [length]. lia.
    + by rewrite end_hash_cons.
    + replace (next + 1 =? first) with false by lia. rewrite En. by destruct (Z.eqb_spec next first), root.
Qed.

(** A spool that starts with a canonical block. *)
Lemma spool_prefix_canonical first croot L parent root bw :
  StronglySorted (fun a b => block_height a < block_height b) L ->
  bw ∈ L -> block_height bw = first -> croot = Some (block_hash bw) ->
  spool_prefix first true croot L first parent root = None.
Proof.
  intros Hs Hin Eh Ec. induction Hs as [|bw1 L Hs IH Hlt]; [by apply not_elem_of_nil in Hin|].
  cbn [spool_prefix]. destruct bw1 as [block w]. set (bw1 := (block, w)) in *.
  change (hdr_number (blk_header block)) with (block_height bw1). change (header_hash (blk_header block)) with (block_hash bw1).
  apply elem_of_cons in Hin as [->|Hin].
  - rewrite Eh, Z.ltb_irrefl, Z.eqb_refl, Ec. by rewrite bool_decide_true.
  - rewrite List.Forall_forall in Hlt. pose proof (Hlt bw ltac:(by apply list_elem_of_In)) as Hl.
    replace (block_height bw1 <? first) with true by lia. by apply IH.
Qed.

Lemma end_hash_app parent l1 l2 : end_hash parent (l1 ++ l2) = end_hash (end_hash parent l1) l2.
Proof. unfold end_hash. rewrite last_app. by destruct (last l2). Qed.

(** The walk over the canonical blocks: [l] are the blocks of the chain from
    [first] on that link up to [parent], at most to the height [top]. *)
Definition chain_run (c : list Block) (first top : Z) (parent : Hash256) (l : list (Block * Z)) : Prop :=
  linked first parent l /\
  (forall i bw, l !! i = Some bw -> c !! (Z.to_nat first + i)%nat = Some bw.1) /\
  Z.of_nat (length l) <= Z.max 0 (top - first + 1) /\
  (Z.of_nat (length l) < top - first + 1 ->
   forall b, c !! (Z.to_nat first + length l)%nat = Some b -> hdr_parent_hash (blk_header b) <> end_hash parent l).
End branch.

(** ** Reading a spool *)

Section read_spool.
Context {S : Sled} {HX : HexCodec} {D : Digests} {U : U256Ops} {R : Revm} {SE : Secp} {RX : RandomX} {BP : BuildProfile}.
Context {JB : Json Block} {JH : Json BlockHeader} {JT : Json Transaction} {JR : Json StoredReceipt}.
Context {HR : SledReliable}.

Lemma leaves_spool_loop rows blocks flag : leaves recovery_keys (spool_loop rows blocks flag).
Proof.
  revert blocks flag. induction rows as [|row rows IH]; intros blocks flag; cbn [spool_loop]; [apply leaves_ret|].
  apply leaves_bind; [apply leaves_res|]. intros kv. destruct (negb _); [apply IH|].
  apply leaves_bind; [apply leaves_res|]. intros block. destruct (negb _); [apply leaves_res|].
  apply leaves_bind; [apply leaves_insert; apply (row_below (RIndex _))|]. intros _.
  apply leaves_bind; [apply leaves_read|]. intros work. apply IH.
Qed.

Lemma leaves_spool call : match call with CByHash _ => False | _ => True end -> leaves recovery_keys (run_spool call).
Proof.
  destruct call as [tip block work|hash|tip| |tip]; intros Hcall; [|done|..]; cbn [run_spool];
    (apply leaves_bind; [|intros; apply leaves_ret]).
  - apply leaves_bind; [apply leaves_res|]. intros v. apply leaves_bind; [apply leaves_insert, (row_below (RBlock _ _))|].
    intros _. apply leaves_bind; [apply leaves_insert, (row_below (RWork _ _))|]. intros _. apply leaves_insert. apply (row_below (RIndex _)).
  - unfold recovery_blocks_for_tip. intros s r s' k H Hk.
    eapply (leaves_bind recovery_keys (spool_loop _ [] false)); [apply leaves_spool_loop| |exact H|exact Hk].
    intros [blocks []]; (apply leaves_bind; [first [apply leaves_flush|apply leaves_ret]|intros _; apply leaves_ret]).
  - apply leaves_read.
  - apply leaves_bind_read. intros s rows Hrows. apply leaves_bind; [|intros _; apply leaves_flush]. apply leaves_for.
    intros kv Hkv. apply leaves_bind; [|intros _; apply leaves_remove].
    + destruct (ends_with _ _); [|apply leaves_ret]. apply leaves_bind; [apply leaves_res|]. intros block. apply leaves_remove.
      apply (row_below (RIndex _)).
    + apply scan_all_ok in Hrows. subst rows. destruct kv as [k v]. apply elem_of_prefix_entries in Hkv as [_ Hp].
      by eapply prefix_below.
Qed.

(** The store holds the chain and the spool. *)
Definition spools (g : Generation) (c : list Block) (sp : Spool) : Prop :=
  chain_rep (contents (gn_db g)) c /\ spool_rep (contents (gn_db g)) sp.

(** A spool operation leaves the chain alone. *)
Lemma spools_run call g c sp :
  match call with CByHash _ => False | _ => True end -> spools g c sp -> refines call (gn_db g) sp ->
  exists r s' sp', run_spool call (gn_db g) = (r, s') /\ spools {| gn_db := s'; gn_files := gn_files g |} c sp' /\
    spool_step sp call r sp'.
Proof.
  intros Hcall [Hc Hrep] (r & m & sp' & (s' & Hrun & Hm) & Hstep & Hrep'). exists r, s', sp'. split; [done|].
  split; [|done]. split; cbn [gn_db]; rewrite Hm; [|done]. eapply chain_rep_other; [exact Hc|]. intros k Hk. rewrite <- Hm.
  apply (leaves_spool call Hcall _ _ _ k Hrun). destruct (recovery_keys k) eqn:E; [|done]. apply recovery_other in E as [E _]. congruence.
Qed.

(** Listing a spool changes nothing but its index. *)
Lemma spool_listed g c sp tip :
  spools g c sp -> wf_hash tip ->
  exists L g' sp', node_recovery_spool_blocks_for_tip tip (Full g) = (Ok L, Full g') /\
    spools g' c sp' /\ sp_bodies sp' = sp_bodies sp /\ bodies_of sp tip L.
Proof.
  intros Hg Ht. destruct (spools_run (CForTip tip) g c sp I Hg) as (r & s' & sp' & Hrun & Hg' & Hstep).
  { by apply refines_for_tip; [apply Hg|]. }
  inversion Hstep as [| | | |tip' L index Hb Hi E1 E2 E3| |]; subst tip' r sp'. cbn [run_spool] in Hrun.
  apply st_bind_ok in Hrun as (L' & s1 & Hrun & [[= <-] <-]%st_ret_ok).
  eexists L, _, _. unfold node_recovery_spool_blocks_for_tip, on_full, any, on_db. rewrite Hrun. split; [done|]. by split.
Qed.

Lemma spool_stored tip bw g c sp :
  spools g c sp -> wf_hash tip -> (exists n, wf_entry (tip, n) bw) ->
  exists g' sp', node_store_recovery_spool_block tip bw.1 bw.2 (Full g) = (Ok tt, Full g') /\
    spools g' c sp' /\ sp_bodies sp' = <[(tip, block_height bw) := bw]> (sp_bodies sp).
Proof.
  intros Hg Ht (n & _ & Hn & Eh & Hw & Hv). cbn in Hn, Eh.
  destruct (spools_run (CStore tip bw.1 bw.2) g c sp I Hg) as (r & s' & sp' & Hrun & Hg' & Hstep).
  { apply refines_store; [apply Hg|]. split; [done|]. split; [|done]. change (in_u64 (block_height bw)). by rewrite Eh. }
  inversion Hstep; subst. cbn [run_spool] in Hrun. apply st_bind_ok in Hrun as (u & s1 & Hrun & [_ <-]%st_ret_ok).
  eexists _, _. unfold node_store_recovery_spool_block, on_full, any, on_db. destruct u. rewrite Hrun. split; [done|]. split; [exact Hg'|].
  by destruct bw.
Qed.

Lemma spool_cleared g c sp tip :
  spools g c sp -> wf_hash tip ->
  exists g' sp', node_clear_recovery_spool_for_tip tip (Full g) = (Ok tt, Full g') /\ spools g' c sp' /\
    forall t n, sp_bodies sp' !! (t, n) = if bool_decide (t = tip) then None else sp_bodies sp !! (t, n).
Proof.
  intros Hg Ht. destruct (spools_run (CClear tip) g c sp I Hg) as (r & s' & sp' & Hrun & Hg' & Hstep).
  { by apply refines_clear; [apply Hg|]. }
  inversion Hstep as [| | | | | |tip' bodies index Hb Hi]; subst. cbn [run_spool] in Hrun.
  apply st_bind_ok in Hrun as (u & s1 & Hrun & [_ <-]%st_ret_ok). destruct u.
  eexists _, _. unfold node_clear_recovery_spool_for_tip, on_full, any, on_db. rewrite Hrun. split; [done|]. by split.
Qed.

Definition put_all (tip : Hash256) (L : list (Block * Z)) (m : gmap (list byte * Z) (Block * Z)) :=
  fold_left (fun m bw => <[(tip, block_height bw) := bw]> m) L m.

Lemma spool_stored_all tip L g c sp :
  spools g c sp -> wf_hash tip -> Forall (fun bw => exists n, wf_entry (tip, n) bw) L ->
  exists g' sp', st_for L (fun bw => node_store_recovery_spool_block tip bw.1 bw.2) (Full g) = (Ok tt, Full g') /\
    spools g' c sp' /\ sp_bodies sp' = put_all tip L (sp_bodies sp).
Proof.
  intros Hg Ht HL. revert g sp Hg. induction HL as [|bw L Hbw _ IH]; intros g sp Hg; [by exists g, sp|].
  destruct (spool_stored tip bw g c sp Hg Ht Hbw) as (g1 & sp1 & E1 & Hg1 & Eb1).
  destruct (IH g1 sp1 Hg1) as (g2 & sp2 & E2 & Hg2 & Eb2). exists g2, sp2. cbn [st_for].
  unfold st_bind. rewrite E1. split; [exact E2|]. split; [done|]. by rewrite Eb2, Eb1.
Qed.

Lemma put_all_cons tip bw L m : put_all tip (bw :: L) m = put_all tip L (<[(tip, block_height bw) := bw]> m).
Proof. done. Qed.

Lemma put_all_other tip L m t n :
  (t <> tip \/ forall bw, bw ∈ L -> block_height bw <> n) -> put_all tip L m !! (t, n) = m !! (t, n).
Proof.
  revert m. induction L as [|bw L IH]; intros m H; [done|]. rewrite put_all_cons, IH.
  - apply lookup_insert_ne. intros [= <- E]. destruct H as [H|H]; [done|]. by apply (H bw); [left|].
  - destruct H as [H|H]; [by left|]. right. intros bw' Hin. apply H. by right.
Qed.

Lemma put_all_in tip L m bw :
  StronglySorted (fun a b => block_height a < block_height b) L -> bw ∈ L -> put_all tip L m !! (tip, block_height bw) = Some bw.
Proof.
  intros Hs. revert m. induction Hs as [|bw1 L Hs IH Hlt]; intros m Hin; [by apply not_elem_of_nil in Hin|].
  rewrite put_all_cons. apply elem_of_cons in Hin as [->|Hin]; [|by apply IH].
  rewrite put_all_other; [by rewrite lookup_insert_eq|]. right. intros bw Hin. rewrite List.Forall_forall in Hlt.
  apply list_elem_of_In, Hlt in Hin. lia.
Qed.

(** The bodies of a moved tip have joined the spool of the job. *)
Definition merged (cur : BranchSyncCursor) (sp sp' : Spool) : Prop :=
  forall t n, sp_bodies sp' !! (t, n) =
    if bool_decide (t = cursor_spool_tip cur)
    then match sp_bodies sp !! (cu_tip_hash cur, n) with Some bw => Some bw | None => sp_bodies sp !! (t, n) end
    else sp_bodies sp !! (t, n).

Lemma merge_exact g c sp cur :
  spools g c sp -> wf_hash (cu_tip_hash cur) -> wf_hash (cursor_spool_tip cur) ->
  exists g' sp', merge_moved_spool cur (Full g) = (Ok tt, Full g') /\ spools g' c sp' /\ merged cur sp sp'.
Proof.
  intros Hg Ht Ht'. unfold merge_moved_spool. case_bool_decide as E.
  { exists g, sp. split; [done|]. split; [done|]. intros t n. case_bool_decide as Et; [|done]. subst t. rewrite E.
    by destruct (sp_bodies sp !! _). }
  destruct (spool_listed g c sp _ Hg Ht) as (L & g1 & sp1 & Hrun & Hg1 & Eb1 & Hs & HL). unfold st_bind at 1. rewrite Hrun.
  assert (forall sp2, sp_bodies sp2 = put_all (cursor_spool_tip cur) L (sp_bodies sp1) -> merged cur sp sp2) as Hmerged.
  { intros sp2 E2 t n. rewrite E2, Eb1. case_bool_decide as Et; [subst t|apply put_all_other; by left].
    destruct (sp_bodies sp !! (cu_tip_hash cur, n)) as [bw|] eqn:Eb.
    - destruct (sr_bodies _ _ (proj2 Hg) _ _ Eb) as (_ & _ & En & _). cbn in En. rewrite <- En. apply put_all_in; [done|].
      apply HL. by rewrite En.
    - apply put_all_other. right. intros bw Hin En. apply HL in Hin. rewrite En in Hin. congruence. }
  case_bool_decide as EL; [subst L; exists g1, sp1; split; [done|]; split; [done|]; by apply Hmerged|].
  destruct (spool_stored_all (cursor_spool_tip cur) L g1 c sp1 Hg1 Ht') as (g2 & sp2 & E2 & Hg2 & Eb2).
  { apply List.Forall_forall. intros bw Hin%list_elem_of_In%HL. destruct (sr_bodies _ _ (proj2 Hg) _ _ Hin) as (_ & Hw).
    exists (block_height bw). by split. }
  unfold st_bind. rewrite E2. destruct (runs_flush (gn_db g2)) as (s' & Hf & Es). unfold flush_sync_batch, on_full, any, on_db, flush_batch.
  rewrite Hf. eexists _, sp2. split; [done|]. split; [|by apply Hmerged]. destruct Hg2. by split; cbn [gn_db]; rewrite Es.
Qed.

(** The walk over the canonical blocks finds their run. *)
Lemma canonical_prefix_run g c first top parent root :
  chain_rep (contents (gn_db g)) c -> 0 <= first -> top < Z.of_nat (length c) ->
  exists l, chain_run c first top parent l /\
    canonical_prefix (Full g) (range_incl first top) first parent root =
      (first + Z.of_nat (length l), end_hash parent l, match root with Some r => Some r | None => block_hash <$> head l end).
Proof.
  intros Hc. remember (Z.to_nat (top - first + 1)) as k eqn:Ek. revert first parent root Ek.
  pose proof (cr_fits _ _ Hc) as Hfit. unfold list_fits in Hfit.
  induction k as [|k IH]; intros first parent root Ek Hf Htop.
  { exists []. unfold range_incl. rewrite <- Ek. cbn. rewrite Z.add_0_r. split; [|by destruct root].
    split; [done|]. split; [done|]. split; [cbn; lia|]. cbn. lia. }
  rewrite range_incl_cons by lia. cbn [canonical_prefix node_block_by_number of_full].
  destruct (lookup_lt_is_Some_2 c (Z.to_nat first)) as [b Hb]; [lia|].
  rewrite (proj2 (header_by_number_rep _ _ first Hc ltac:(unfold in_u64, U64_MAX in *; lia))), Hb. cbn [ok_or any_res res_map_err].
  case_bool_decide as Ep; cbn [negb].
  - replace (sat_add U64_MAX first 1) with (first + 1) by (unfold sat_add, U64_MAX in *; lia).
    destruct (IH (first + 1) (header_hash (blk_header b)) (match root with Some r => Some r | None => Some (header_hash (blk_header b)) end))
      as (l & (Hl & Hin & Hlen & Hend) & E); [lia..|]. exists ((b, 0) :: l). split.
    + split; [|split; [|split]].
      * split; [|by split]. unfold block_height. cbn.
        pose proof (block_numbers_lookup c _ _ (cr_numbers _ _ Hc) Hb) as En. unfold block_number in En. lia.
      * intros [|i] bw Hi; cbn in Hi; [injection Hi as <-; by rewrite Nat.add_0_r|]. apply Hin in Hi. rewrite <- Hi. f_equal. lia.
      * cbn [length]. lia.
      * intros Hlt b' Hb'. rewrite end_hash_cons. apply Hend; [cbn [length] in Hlt; lia|]. rewrite <- Hb'. f_equal. cbn [length]. lia.
    + rewrite E. f_equal; [f_equal; [cbn [length]; lia|by rewrite end_hash_cons]|]. by destruct root.
  - exists []. cbn. rewrite Z.add_0_r. split; [|by destruct root]. split; [done|]. split; [done|]. split; [cbn; lia|].
    intros _ b'. cbn [length]. rewrite Nat.add_0_r, Hb. by intros [= <-].
Qed.
End read_spool.

(** ** The repair *)

Section resume.
Context {S : Sled} {HX : HexCodec} {D : Digests} {U : U256Ops} {R : Revm} {SE : Secp} {RX : RandomX} {BP : BuildProfile}.
Context {JB : Json Block} {JH : Json BlockHeader} {JT : Json Transaction} {JR : Json StoredReceipt}.
Context {JE : Json (list SerializedEvmSnapshotEntry)}.
Context {IO : FileIo} {JM : Json GenerationManifest} {JC : Json ReplayCheckpoint}.
Context {JP : Json GenerationPublicationRecord} {JS : Json SuffixPublicationRecord} {CM : CompactManifest}.
Context {HO : Host} {CI : CursorIo} {HR : SledReliable}.
Hypothesis Hsave : forall m, save_error m = None.

(** The job [c'] stands at the end of the bodies [l] above the ancestor of [c],
    and is otherwise the job [c]. *)
Record resumed (c : BranchSyncCursor) (a : Z) (ha : Hash256) (l : list (Block * Z)) (c' : BranchSyncCursor) : Prop := {
  re_next : cu_next_height c' = a + 1 + Z.of_nat (length l);
  re_staged : cu_staged_height c' = a + Z.of_nat (length l);
  re_imported : cu_imported_bodies c' = Z.of_nat (length l);
  re_parent : cu_expected_parent_hash c' = Some (end_hash ha l);
  re_root : cu_branch_root_hash c' = block_hash <$> head l;
  re_tip : (cu_tip_height c', cu_tip_hash c') =
    if cu_tip_height c <? a + Z.of_nat (length l) then (a + Z.of_nat (length l), end_hash ha l)
    else (cu_tip_height c, cu_tip_hash c);
  re_verified : cu_spool_verified c' = true;
  re_job : cu_ancestor_height c' = cu_ancestor_height c /\ cu_ancestor_hash c' = cu_ancestor_hash c /\
    cu_spool_tip_hash c' = cu_spool_tip_hash c /\ cu_consensus_profile c' = cu_consensus_profile c /\
    cu_primary_identity c' = cu_primary_identity c;
  re_state : cu_state c' = cu_state c \/ cu_state c' = if consumed c' then B "complete" else B "retrieving";
}.

Lemma repaired_resumed now c a ha l :
  0 <= a -> a + 1 + Z.of_nat (length l) <= U64_MAX ->
  resumed c a ha l (repaired_cursor now a (a + 1 + Z.of_nat (length l)) (end_hash ha l) (block_hash <$> head l) c).
Proof.
  intros Ha Hu. unfold repaired_cursor.
  replace (sat_sub (a + 1 + Z.of_nat (length l)) (sat_add U64_MAX a 1)) with (Z.of_nat (length l)) by (unfold sat_sub, sat_add; lia).
  replace (sat_sub (a + 1 + Z.of_nat (length l)) 1) with (a + Z.of_nat (length l)) by (unfold sat_sub; lia).
  destruct (cu_tip_height c <? a + Z.of_nat (length l)) eqn:Et; rewrite ?orb_true_r; [|destruct (_ || _)];
    (split; cbn; rewrite ?Et; auto; done).
Qed.

Lemma linked_last first parent l bw : linked first parent l -> last l = Some bw -> block_height bw = first + Z.of_nat (length l) - 1.
Proof.
  revert first parent. induction l as [|bw1 l IH]; intros first parent Hl El; [done|]. destruct Hl as (Eh & _ & Hl).
  destruct l as [|bw2 l]; [injection El as ->; cbn; lia|]. rewrite (IH _ _ Hl El). cbn [length]. lia.
Qed.

Lemma branch_bound sp tip a ha l :
  a + 1 <= U64_MAX -> (forall n, is_Some (sp_bodies sp !! (tip, n)) -> n < U64_MAX) -> branch_in sp tip (a + 1) ha l ->
  a + 1 + Z.of_nat (length l) <= U64_MAX.
Proof.
  intros Ha Hmax (Hl & Hin & _). destruct (last l) as [bw|] eqn:El.
  - pose proof (linked_last _ _ _ _ Hl El) as Eh. apply last_Some in El as [l' ->].
    apply Forall_app in Hin as [_ Hin]. inversion Hin as [|? ? E _]; subst. rewrite Eh in E. specialize (Hmax _ ltac:(rewrite E; eauto)). lia.
  - apply last_None in El as ->. cbn. lia.
Qed.

Lemma on_node_run {A} (m : Node A) n rs r n' : m n = (r, n') -> on_node m (n, rs) = (r, (n', rs)).
Proof. unfold on_node. by intros ->. Qed.

Lemma job_bind {A B} (m : Job A) (f : A -> Job B) s a s' : m s = (Ok a, s') -> st_bind m f s = f a s'.
Proof. unfold st_bind. by intros ->. Qed.

(** The end of the repair: the job moves to the key of its target and is saved. *)
Lemma replace_saved key key' c n rs :
  exists rs', (on_jobs (replace_cursor key key' c) ;! on_jobs persist_branch_sync_cursors) (n, rs) = (Ok tt, (n, rs')) /\
    rs_cursors rs' !! key' = Some c /\ rs_file rs' = Some (rs_cursors rs').
Proof using Hsave.
  unfold st_bind, on_jobs, replace_cursor, modify, persist_branch_sync_cursors. rewrite Hsave. eexists. split; [done|].
  cbn. by rewrite lookup_insert_eq.
Qed.

(** What a repair may find.  The root of the chain above the ancestor is
    [croot]; the walk over the chain is made when it is also the root of the
    branch.  A spool that starts with the canonical root of another branch, of
    which nothing was asked for yet, is cleared. *)
Definition canonical_root_at (c : list Block) (a : Z) : option Hash256 :=
  (fun b => header_hash (blk_header b)) <$> c !! Z.to_nat (a + 1).
Definition walked (c : list Block) (cur : BranchSyncCursor) (a : Z) (ha : Hash256) (l0 : list (Block * Z)) : Prop :=
  match cu_branch_root_hash cur with
  | Some root =>
      if bool_decide (canonical_root_at c a = Some root)
      then chain_run c (a + 1) (Z.min (Z.of_nat (length c) - 1) (cu_tip_height cur)) ha l0
      else l0 = []
  | None => l0 = []
  end.
Definition started_over (c : list Block) (cur : BranchSyncCursor) (a : Z) (sp : Spool) (l0 : list (Block * Z)) : Prop :=
  l0 = [] /\ cu_next_height cur <= a + 1 /\
  exists bw, sp_bodies sp !! (cursor_spool_tip cur, a + 1) = Some bw /\ canonical_root_at c a = Some (block_hash bw).

Definition cleared (tip : Hash256) (sp sp' : Spool) : Prop :=
  forall t n, sp_bodies sp' !! (t, n) = if bool_decide (t = tip) then None else sp_bodies sp !! (t, n).

(** From the spool [sp] to [sp'], with the bodies [l] above the ancestor. *)
Inductive repair (c : list Block) (cur : BranchSyncCursor) (a : Z) (ha : Hash256) (sp sp' : Spool)
    : list (Block * Z) -> Prop :=
  | repair_continues l0 l :
      walked c cur a ha l0 -> ~ started_over c cur a sp l0 ->
      branch_in sp (cursor_spool_tip cur) (a + 1 + Z.of_nat (length l0)) (end_hash ha l0) l ->
      sp_bodies sp' = sp_bodies sp -> repair c cur a ha sp sp' (l0 ++ l)
  | repair_starts_over :
      walked c cur a ha [] -> started_over c cur a sp [] -> cleared (cursor_spool_tip cur) sp sp' ->
      repair c cur a ha sp sp' [].

(** Where the repair stands after the bodies [l] above the ancestor. *)
Definition position (a : Z) (ha : Hash256) (l : list (Block * Z)) : Z * Hash256 * option Hash256 :=
  (a + 1 + Z.of_nat (length l), end_hash ha l, block_hash <$> head l).

(** The two walks of the repair. *)
Definition chain_walk (c : list Block) (cur : BranchSyncCursor) (a : Z) (ha : Hash256) : Job (Z * Hash256 * option Hash256) :=
  if match cu_branch_root_hash cur with Some root => bool_decide (canonical_root_at c a = Some root) | None => false end
  then do? local := read_node (fun n => any_res (node_best_header n)) in
       read_node (fun n => Ok (canonical_prefix n (range_incl (a + 1) (Z.min (hdr_number local) (cu_tip_height cur)))
                                 (a + 1) ha None))
  else st_ret (a + 1, ha, None).
Definition spool_walk (c : list Block) (cur : BranchSyncCursor) (a : Z) (ha : Hash256) (L l0 : list (Block * Z))
    : Job (Z * Hash256 * option Hash256) :=
  match spool_prefix (a + 1) (cu_next_height cur <=? a + 1) (canonical_root_at c a) L
          (a + 1 + Z.of_nat (length l0)) (end_hash ha l0) (block_hash <$> head l0) with
  | Some found => st_ret found
  | None => on_node (node_clear_recovery_spool_for_tip (cursor_spool_tip cur)) ;! st_ret (a + 1, ha, None)
  end.

Lemma walked_run g c cur a ha :
  chain_rep (contents (gn_db g)) c -> 0 <= a < Z.of_nat (length c) ->
  exists l0, walked c cur a ha l0 /\ a + 1 + Z.of_nat (length l0) <= Z.of_nat (length c) /\
  forall rs, chain_walk c cur a ha (Full g, rs) = (Ok (position a ha l0), (Full g, rs)).
Proof using HR.
  intros Hc Ha. unfold walked, chain_walk, position. destruct (cu_branch_root_hash cur) as [root|]; [|exists []; rewrite Z.add_0_r; split; [done|]; split; [lia|done]].
  case_bool_decide; [|exists []; rewrite Z.add_0_r; split; [done|]; split; [lia|done]].
  destruct (last c) as [bl|] eqn:El; [|apply last_None in El as ->; cbn in Ha; lia].
  assert (hdr_number (blk_header bl) = Z.of_nat (length c) - 1) as En.
  { pose proof (last_lookup c) as E. rewrite El in E. symmetry in E.
    pose proof (block_numbers_lookup c _ _ (cr_numbers _ _ Hc) E) as En. unfold block_number in En. lia. }
  destruct (canonical_prefix_run g c (a + 1) (Z.min (Z.of_nat (length c) - 1) (cu_tip_height cur)) ha None Hc) as (l0 & Hl0 & E); [lia..|].
  exists l0. split; [done|]. split; [destruct Hl0 as (_ & _ & Hlen & _); lia|]. intros rs.
  rewrite (job_bind (read_node _) _ _ (blk_header bl) (Full g, rs)).
  - unfold read_node, on_node, st_read. by rewrite En, E.
  - unfold read_node, on_node, st_read. cbn [node_best_header of_full]. by rewrite (best_header_rep _ _ Hc), El.
Qed.

(** What the spool walk finds. *)
Lemma spool_walked g c cur a ha sp sp2 L l0 rs :
  let tip := cursor_spool_tip cur in
  spools g c sp2 -> sp_bodies sp2 = sp_bodies sp -> wf_hash tip -> bodies_of sp tip L ->
  (forall n bw, sp_bodies sp !! (tip, n) = Some bw -> block_height bw = n /\ n < U64_MAX) ->
  0 <= a -> a + 1 + Z.of_nat (length l0) <= U64_MAX -> walked c cur a ha l0 ->
  exists l g' sp', spool_walk c cur a ha L l0 (Full g, rs) = (Ok (position a ha l), (Full g', rs)) /\
    repair c cur a ha sp sp' l /\ spools g' c sp' /\ a + 1 + Z.of_nat (length l) <= U64_MAX.
Proof using HR.
  intros tip Hg Eb Htip [HLs HL] Hheight Ha Hu Hl0. unfold spool_walk.
  destruct (decide (l0 = [] /\ cu_next_height cur <= a + 1 /\
    canonical_root_at c a = (block_hash <$> sp_bodies sp !! (tip, a + 1)) /\ is_Some (sp_bodies sp !! (tip, a + 1)))) as [Hover|Hgo].
  - destruct Hover as (-> & Hnext & Ec & [bw Ebw]). rewrite Ebw in Ec. cbn in Ec. destruct (Hheight _ _ Ebw) as [Eh _].
    destruct (spool_cleared g c sp2 tip Hg Htip) as (g3 & sp3 & Eclear & Hg3 & Hcl).
    exists [], g3, sp3. cbn [length head fmap option_fmap option_map]. rewrite Z.add_0_r, (proj2 (Z.leb_le _ _) Hnext).
    rewrite (spool_prefix_canonical (a + 1) _ L _ _ bw); [|done|apply HL; by rewrite Eh|done|done].
    rewrite (job_bind _ _ _ _ _ (on_node_run _ _ rs _ _ Eclear)). unfold position. rewrite Z.add_0_r. split; [done|].
    split; [|split; [done|cbn in Hu; lia]]. apply repair_starts_over; [done| |intros t n; by rewrite Hcl, Eb].
    split; [done|]. split; [done|]. by exists bw.
  - destruct (spool_prefix_branch sp tip (a + 1) (cu_next_height cur <=? a + 1) (canonical_root_at c a) L
      (a + 1 + Z.of_nat (length l0)) (end_hash ha l0) (block_hash <$> head l0)) as (l & Hl & Ep); try done.
    + lia.
    + intros n [bw E]. by apply (Hheight n bw).
    + apply List.Forall_forall. intros bw Hin%list_elem_of_In. by apply HL.
    + intros n bw E. by apply (Hheight n bw).
    + intros bw E _. by apply HL.
    + intros Hstart Hnext bw E Er. apply Hgo. split; [destruct l0; [done|cbn in Hstart; lia]|]. split; [lia|]. rewrite E. split; [done|eauto].
    + exists (l0 ++ l), g, sp2. rewrite Ep. unfold position. rewrite length_app, end_hash_app. split; [|split; [|split; [done|]]].
      * replace (a + 1 + Z.of_nat (length l0) + Z.of_nat (length l)) with (a + 1 + Z.of_nat (length l0 + length l)) by lia.
        destruct l0 as [|x l0]; cbn [length head fmap option_fmap option_map app Nat.add].
        -- by rewrite Z.add_0_r, Z.eqb_refl.
        -- by destruct (Z.eqb_spec (a + 1 + Z.of_nat (Datatypes.S (length l0))) (a + 1)); [lia|].
      * apply repair_continues; [done| |done|by rewrite Eb]. intros (-> & Hn & bw & Ebw & Ec). apply Hgo.
        split; [done|]. split; [done|]. fold tip in Ebw. rewrite Ebw. split; [done|eauto].
      * pose proof (branch_bound sp tip (a + Z.of_nat (length l0)) (end_hash ha l0) l) as Hbd.
        replace (a + Z.of_nat (length l0) + 1) with (a + 1 + Z.of_nat (length l0)) in Hbd by lia.
        specialize (Hbd ltac:(lia) ltac:(intros n [bw E]; by apply (Hheight n bw)) Hl). lia.
Qed.

(** The repair of a job whose ancestor is canonical. *)
Lemma repair_exact g c sp now key rs cur a b :
  let tip := cursor_spool_tip cur in
  let ha := header_hash (blk_header b) in
  spools g c sp -> wf_hash tip -> wf_hash (cu_tip_hash cur) -> 0 <= a -> c !! Z.to_nat a = Some b ->
  (forall t n, t = tip \/ t = cu_tip_hash cur -> is_Some (sp_bodies sp !! (t, n)) -> n < U64_MAX) ->
  exists sp1 l c' g' rs' sp',
    repair_from_spool now key cur a ha (Full g, rs) = (Ok tt, (Full g', rs')) /\
    merged cur sp sp1 /\ repair c cur a ha sp1 sp' l /\ resumed cur a ha l c' /\
    rs_cursors rs' !! (if cu_tip_height cur <? a + Z.of_nat (length l) then recovery_cursor_key (end_hash ha l) else key) = Some c' /\
    rs_file rs' = Some (rs_cursors rs') /\ spools g' c sp'.
Proof using Hsave HR.
  intros tip ha Hg Htip Htip' Ha Hb Hmax0.
  destruct (merge_exact g c sp cur Hg Htip' Htip) as (g1 & sp1 & Em & Hg1 & Hmerged).
  destruct (spool_listed g1 c sp1 tip Hg1 Htip) as (L & g2 & sp2 & El & Hg2 & Eb2 & HL).
  pose proof (cr_fits _ _ (proj1 Hg1)) as Hfit. unfold list_fits in Hfit. pose proof (lookup_lt_Some _ _ _ Hb) as Hlt.
  assert (in_u64 a /\ in_u64 (a + 1)) as [Hau Hau1] by (unfold in_u64, U64_MAX in *; lia).
  destruct (walked_run g2 c cur a ha (proj1 Hg2)) as (l0 & Hl0 & Hlen0 & Ewalk); [lia|].
  destruct (spool_walked g2 c cur a ha sp1 sp2 L l0 rs Hg2 Eb2 Htip HL) as (l & g3 & sp3 & Espool & Hrepair & Hg3 & Hbound); [|done|lia|done|].
  { intros n bw E. destruct (sr_bodies _ _ (proj2 Hg1) _ _ E) as (_ & _ & En & _). split; [exact En|].
    rewrite Hmerged, bool_decide_true in E by done. destruct (sp_bodies sp !! (cu_tip_hash cur, n)) as [bw'|] eqn:E';
      [apply (Hmax0 (cu_tip_hash cur)); [by right|by rewrite E']|apply (Hmax0 tip); [by left|exists bw; exact E]]. }
  pose proof (repaired_resumed now cur a ha l Ha Hbound) as Hres.
  set (c' := repaired_cursor now a (a + 1 + Z.of_nat (length l)) (end_hash ha l) (block_hash <$> head l) cur) in *.
  destruct (replace_saved key (if cu_tip_height cur <? a + Z.of_nat (length l) then recovery_cursor_key (end_hash ha l) else key)
    c' (Full g3) rs) as (rs' & Er & Hrs1 & Hrs2).
  exists sp1, l, c', g3, rs', sp3. split; [|by repeat (split; [assumption|])].
  unfold repair_from_spool. replace (sat_add U64_MAX a 1) with (a + 1) by (unfold sat_add; lia).
  rewrite (job_bind _ _ _ _ _ (on_node_run _ _ rs _ _ Em)).
  assert (forall n, in_u64 n -> block_by_number (gn_db g1) n = ok_or (c !! Z.to_nat n) NotFound) as Hread.
  { intros n Hn. exact (proj2 (header_by_number_rep _ _ _ (proj1 Hg1) Hn)). }
  rewrite (job_bind (read_node _) _ _ b (Full g1, rs)) by (cbn; by rewrite Hread, Hb).
  rewrite (job_bind (read_node _) _ _ (c !! Z.to_nat (a + 1)) (Full g1, rs))
    by (cbn; rewrite Hread by done; by destruct (c !! Z.to_nat (a + 1))).
  fold tip. rewrite (job_bind _ _ _ _ _ (on_node_run _ _ rs _ _ El)).
  rewrite bool_decide_true by done. cbn [negb]. fold (canonical_root_at c a). fold (chain_walk c cur a ha).
  rewrite (job_bind _ _ _ _ _ (Ewalk rs)). unfold position at 1. fold (spool_walk c cur a ha L l0).
  rewrite (job_bind _ _ _ _ _ Espool). unfold position. fold c'. rewrite (re_staged _ _ _ _ _ Hres). exact Er.
Qed.

(** C13: a recovery job resumes from the bodies on disk, whatever the saved
    job says about its progress (a crash may have lost everything since the
    last checkpoint, or the file may be ahead of the spool).  The job is saved,
    the chain is untouched, no other spool is touched, and

    - when the ancestor of the job is on the chain, the bodies spooled under a
      moved target first join the spool of the job.  Then the job stands at
      the end of the bodies that continue the ancestor: first the blocks of
      the chain when the root of the branch has become canonical, then the
      bodies the spool really holds, up to the first one that is missing or
      does not link.  It asks next for the height after them, expects their
      last hash as parent, counts them, and moves its target and its key when
      they go beyond the target.  The spool keeps its bodies, except when it
      starts with a canonical block and the job had asked for nothing yet:
      then it is cleared and the job starts over;
    - when the ancestor is not on the chain, the spool of the job is cleared
      and only the search for an ancestor remains. *)
Theorem reconcile_resumes g c sp now peer rs cur a ha :
  let key := cursor_key peer rs in
  let tip := cursor_spool_tip cur in
  spools g c sp -> rs_cursors rs !! key = Some cur -> cu_ancestor_height cur = Some a -> cu_ancestor_hash cur = Some ha ->
  wf_hash tip -> wf_hash (cu_tip_hash cur) -> in_u64 a ->
  (forall t n, t = tip \/ t = cu_tip_hash cur -> is_Some (sp_bodies sp !! (t, n)) -> n < U64_MAX) ->
  exists g' rs' sp',
    reconcile_forward_recovery_spool now peer (Full g, rs) = (Ok tt, (Full g', rs')) /\
    spools g' c sp' /\ rs_file rs' = Some (rs_cursors rs') /\
    (if bool_decide ((fun b => header_hash (blk_header b)) <$> c !! Z.to_nat a = Some ha)
     then exists sp1 l c', merged cur sp sp1 /\ repair c cur a ha sp1 sp' l /\ resumed cur a ha l c' /\
       rs_cursors rs' !! (if cu_tip_height cur <? a + Z.of_nat (length l) then recovery_cursor_key (end_hash ha l) else key) = Some c'
     else cleared tip sp sp' /\ rs_cursors rs' !! key = Some (forget_ancestor now cur)).
Proof using Hsave HR.
  intros key tip Hg Hcur Ea Eha Htip Htip' Ha Hmax. unfold reconcile_forward_recovery_spool.
  rewrite (job_bind (read_jobs _) _ _ key (Full g, rs)) by done.
  rewrite (job_bind (read_jobs _) _ _ (Some cur) (Full g, rs)) by (cbn; by rewrite Hcur). rewrite Ea, Eha.
  assert (canonical_has (Full g) a ha = bool_decide ((fun b => header_hash (blk_header b)) <$> c !! Z.to_nat a = Some ha)) as Ehas.
  { unfold canonical_has. cbn [node_block_by_number of_full]. rewrite (proj2 (header_by_number_rep _ _ a (proj1 Hg) Ha)).
    destruct (c !! Z.to_nat a) as [b|]; cbn; [|done]. apply bool_decide_ext. split; congruence. }
  rewrite (job_bind (read_node _) _ _ (canonical_has (Full g) a ha) (Full g, rs)) by done. rewrite Ehas.
  case_bool_decide as Ec; cbn [negb].
  - destruct (c !! Z.to_nat a) as [b|] eqn:Eb; [|done]. injection Ec as <-.
    destruct (repair_exact g c sp now key rs cur a b Hg Htip Htip' (proj1 Ha) Eb Hmax)
      as (sp1 & l & c' & g' & rs' & sp' & Hrun & H1 & H2 & H3 & H4 & H5 & H6).
    exists g', rs', sp'. split; [exact Hrun|]. split; [done|]. split; [done|]. by exists sp1, l, c'.
  - destruct (spool_cleared g c sp tip Hg Htip) as (g' & sp' & Eclear & Hg' & Hcl).
    rewrite (job_bind _ _ _ _ _ (on_node_run _ _ rs _ _ Eclear)).
    unfold st_bind, on_jobs, update_cursor, modify, persist_branch_sync_cursors. rewrite Hsave.
    eexists g', _, sp'. split; [done|]. split; [done|]. split; [done|]. split; [done|]. cbn. by rewrite lookup_alter_eq, Hcur.
Qed.
End resume.

(** ** Example: a saved job that is ahead of its spool *)

Lemma spool_rep_none {HX : HexCodec} {JB : Json Block} (m : Contents) :
  forallb (fun kv => negb (has_prefix (B "recovery:") kv.1)) (map_to_list m) = true -> spool_rep m empty_spool.
Proof.
  intros H. rewrite forallb_forall in H.
  assert (forall k, has_prefix (B "recovery:") k = true -> m !! k = None) as Hnone.
  { intros k Hk. destruct (m !! k) as [v|] eqn:E; [|done]. exfalso. apply elem_of_map_to_list in E.
    apply list_elem_of_In, H in E. cbn [fst] in E. by rewrite Hk in E. }
  split.
  - intros q _. rewrite Hnone by apply row_below. by destruct q; cbn; rewrite ?lookup_empty.
  - intros k Hk [v Hv]. by rewrite Hnone in Hv.
  - apply map_Forall_empty.
  - apply map_Forall_empty.
Qed.

Section example.
Import SampleCodecs.
#[local] Existing Instances mem_sled hex_codec toy_digests mem_files mem_snapshots reliable_saves mem_sled_reliable.
#[local] Existing Instances u256_z toy_secp toy_randomx native_profile fork_host fork_jx fork_jg fork_revm.

Definition resume_tip : Hash256 := sample_next_hash.
Definition resume_store : res StorageError SpoolAnswer * SledStorage :=
  run_spool (CStore resume_tip sample_replacement 3) (gn_db (sample_generation None)).
Definition resume_generation : Generation :=
  {| gn_db := resume_store.2; gn_files := gn_files (sample_generation None) |}.
Definition resume_spool : Spool := {|
  sp_bodies := {[(resume_tip, 1) := (sample_replacement, 3)]};
  sp_index := {[sample_new_hash := At resume_tip 1]} |}.

(** The saved job claims forty bodies; the spool has one. *)
Definition resume_cursor : BranchSyncCursor :=
  (join_ancestor 0 0 sample_parent_hash (new_branch_sync_cursor 0 resume_tip 50 []))
    <|cu_next_height := 41|> <|cu_staged_height := 40|> <|cu_imported_bodies := 40|>.
Definition resume_jobs : RecoveryState := {|
  rs_cursors := {[B "p" := resume_cursor]}; rs_peer_keys := ∅; rs_identities := ∅; rs_file := None |}.

Lemma resume_generation_rep :
  chain_rep (contents (gn_db resume_generation)) sample_old /\ spool_rep (contents (gn_db resume_generation)) resume_spool.
Proof.
  destruct (sample_generation_rep None) as [Hc _]. split.
  - eapply chain_rep_other; [exact Hc|]. intros k Hk.
    assert (leaves recovery_keys (run_spool (CStore resume_tip sample_replacement 3))) as Hl.
    { apply leaves_bind; [|intros _; apply leaves_ret]. apply leaves_bind; [apply leaves_res|]. intros v.
      apply leaves_bind; [apply leaves_insert; vm_compute; done|]. intros _.
      apply leaves_bind; [apply leaves_insert; vm_compute; done|]. intros _. apply leaves_insert. vm_compute. done. }
    apply (Hl _ _ _ k (surjective_pairing resume_store)). destruct (recovery_keys k) eqn:E; [|done].
    apply recovery_other in E as [E _]. congruence.
  - destruct (refines_store resume_tip sample_replacement 3 (gn_db (sample_generation None)) empty_spool)
      as (r & c & sp' & (s' & Hrun & <-) & Hstep & Hrep).
    + apply spool_rep_none. vm_compute. reflexivity.
    + split; [reflexivity|]. split; [split; vm_compute; discriminate|]. split; [split; vm_compute; discriminate|].
      eexists. vm_compute. reflexivity.
    + inversion Hstep; subst. unfold resume_generation, resume_store. cbn [gn_db]. rewrite Hrun. exact Hrep.
Qed.

Definition progress (c : BranchSyncCursor) : Z * Z * Z := (cu_staged_height c, cu_next_height c, cu_imported_bodies c).

(** The same body spooled under a moved target, and an ancestor that left the
    chain. *)
Definition moved_cursor : BranchSyncCursor :=
  resume_cursor <|cu_tip_hash := resume_tip|> <|cu_spool_tip_hash := Some sample_new_hash|>.
Definition lost_cursor : BranchSyncCursor := resume_cursor <|cu_ancestor_hash := Some sample_new_hash|>.
Definition resume_with (c : BranchSyncCursor) : RecoveryState :=
  resume_jobs <|rs_cursors := {[B "p" := c]}|>.
Definition resume_run (c : BranchSyncCursor) : res string unit * (NodeStorage * RecoveryState) :=
  reconcile_forward_recovery_spool 9 (B "p") (Full resume_generation, resume_with c).
Definition spooled_at (tip : Hash256) (n : NodeStorage) : res string (list Z) :=
  let? spool := (node_recovery_spool_blocks_for_tip tip n).1 in Ok (map block_height spool).

Lemma reconcile_resumes_witness :
  map (fun c => progress <$> rs_cursors (resume_run c).2.2 !! B "p") [resume_cursor; moved_cursor; lost_cursor] =
    [Some (1, 2, 1); Some (1, 2, 1); Some (0, 0, 0)] /\
  spooled_at sample_new_hash (resume_run moved_cursor).2.1 = Ok [1] /\
  spooled_at resume_tip (resume_run lost_cursor).2.1 = Ok [] /\
  exists sp1 sp' l c', merged moved_cursor resume_spool sp1 /\ repair sample_old moved_cursor 0 sample_parent_hash sp1 sp' l /\
    resumed moved_cursor 0 sample_parent_hash l c' /\
    rs_file (resume_run moved_cursor).2.2 = Some (rs_cursors (resume_run moved_cursor).2.2).
Proof.
  split; [vm_compute; reflexivity|]. split; [vm_compute; reflexivity|]. split; [vm_compute; reflexivity|].
  destruct (reconcile_resumes (CI := reliable_saves) (fun _ => eq_refl) resume_generation sample_old resume_spool 9 (B "p")
    (resume_with moved_cursor) moved_cursor 0 sample_parent_hash) as (g' & rs' & sp' & Hrun & _ & Hfile & Hcases).
  - exact resume_generation_rep.
  - reflexivity.
  - reflexivity.
  - reflexivity.
  - reflexivity.
  - reflexivity.
  - split; vm_compute; discriminate.
  - intros t n _ [bw E]. cbn in E. apply lookup_singleton_Some in E as [[= _ <-] _]. reflexivity.
  - rewrite bool_decide_true in Hcases by (vm_compute; reflexivity). destruct Hcases as (sp1 & l & c' & H1 & H2 & H3 & _).
    exists sp1, sp', l, c'. split; [exact H1|]. split; [exact H2|]. split; [exact H3|]. unfold resume_run. rewrite Hrun. exact Hfile.
Defined.
End example.
