(* ===== verification/Wire.v ===== *)
(** What the nodes say to each other ([crates/blq-node/src/main.rs]): the
    messages of a session, the records of peers, the identities of nodes with
    the signatures over hellos and service requests, and which errors cost the
    sender its score.

    A text of the source is a byte list.  The keys and signatures of
    [secp256k1] and the parser of socket addresses are classes. *)

From Stdlib Require Import ZArith Lia Strings.String Strings.Byte.
From stdpp Require Import sorting gmap fin_maps base list.
From S2P Require Import Prelude Externals Primitives Consensus Network Sled BlockStore ChainStore NodeStore Replay.
From S2P Require Import Miner Recovery Sync.
#[local] Open Scope Z_scope.

(** [secp256k1]: keys in their serialized form, signatures in compact form with
    the id of the recovery.  A signature of a key verifies under its public
    key, whose serialized form is read back. *)
Class PeerKeys := {
  public_key_from_slice : list byte -> option (list byte);
  compact_ok : list byte -> bool;
  verify_ecdsa : list byte -> list byte -> list byte -> bool;
  public_key : list byte -> list byte;
  sign_recoverable : list byte -> list byte -> list byte * Z;
  public_key_parsed : forall sk, public_key_from_slice (public_key sk) = Some (public_key sk);
  sign_verifies : forall sk m c id, sign_recoverable sk m = (c, id) ->
    length c = 64%nat /\ 0 <= id <= 3 /\ compact_ok c = true /\ verify_ecdsa m c (public_key sk) = true;
}.

(** [str::parse::<SocketAddr>] accepts the text. *)
Class SocketAddrs := { socket_addr : list byte -> bool }.

(** ** Messages *)

Inductive StorageMode := Archive | Pruned.

Record PeerRecord := {
  pr_address : list byte;
  pr_route_class : list byte;
  pr_direct : bool;
  pr_relay : bool;
  pr_last_success_epoch : Z;
  pr_last_failure_epoch : option Z;
  pr_expires_at_epoch : Z;
  pr_alternate_addresses : list (list byte);
  pr_identity_public_key : option (list byte);
  pr_consensus_profile : list byte;
  pr_chain_id : Z;
  pr_genesis_hash : list byte;
  pr_protocol_version : list byte;
  pr_node_mode : NodeMode;
  pr_best_number : Z;
  pr_best_hash : list byte;
  pr_storage_mode : StorageMode;
  pr_retained_from_height : Z;
  pr_retained_to_height : Z;
  pr_snapshot_heights : list Z;
  pr_explorer_index : bool;
  pr_explorer_share : bool;
  pr_explorer_relay : bool;
}.

Record RpcTransactionData := {
  rt_receipt : Receipt;
  rt_header : BlockHeader;
  rt_transaction_index : nat;
  rt_transaction : Transaction;
}.

Inductive P2pMessage :=
  | Hello (node_mode : NodeMode) (best_number : Z)
      (best_hash consensus_profile identity_public_key identity_signature tls_certificate_hash : list byte)
  | GetHeaders (from : Z) (limit : nat)
  | Headers (headers : list BlockHeader)
  | FindCommonAncestor (locator : list (list byte))
  | CommonAncestor (height : option Z) (hash : option (list byte))
  | GetBlock (number : Z)
  | GetBlockRange (from : Z) (limit : nat)
  | WitnessHeaders (tip_hash : list byte) (heights : list Z)
  | WitnessHeadersResponse (tip_hash : list byte) (headers : list BlockHeader)
  | GetBlockByHash (hash : list byte)
  | BlockBody (block : Block)
  | BlockNotFound (hash : list byte)
  | GetTransaction (hash : list byte)
  | TransactionData (data : option RpcTransactionData)
  | NewTransaction (transaction : Transaction)
  | NewTransactionHashes (hashes : list Hash256)
  | GetTransactions (hashes : list Hash256)
  | Transactions (items : list Transaction)
  | PeerExchange (peers : list PeerRecord)
  | NewHeader (header : BlockHeader).

Definition is_hello (m : P2pMessage) : bool := match m with Hello _ _ _ _ _ _ _ => true | _ => false end.

(** ** Peer records *)

Definition ascii (s : list byte) : bool := forallb (fun c => u8_val c <? 128) s.

Section records.
Context {HX : HexCodec} {SA : SocketAddrs}.

Definition validate_route (address : list byte) (too_long invalid : string) : res string unit :=
  if (128 <? Z.of_nat (length address)) || negb (ascii address) then Err too_long
  else if socket_addr address then Ok tt else Err invalid.

Definition validate_peer_record (peer : PeerRecord) : res string unit :=
  validate_route (pr_address peer) "discovery peer address is missing or too long"
    "discovery peer address is invalid" ;?
  if negb (bool_decide (pr_route_class peer ∈ [B "unknown"; B "local"; B "wan"; B "relay"]))
  then Err "discovery peer route class is invalid"%string
  else if 3 <? Z.of_nat (length (pr_alternate_addresses peer))
  then Err "discovery peer contains too many alternate routes"%string
  else
    for_each (fun address => validate_route address "discovery peer alternate route is missing or too long"
      "discovery peer alternate route is invalid") (pr_alternate_addresses peer) ;?
    res_map_err (fun _ => "discovery peer hash is invalid"%string) (hash_from_hex (pr_best_hash peer)) ;?
    if negb (pr_retained_to_height peer =? 0)
       && ((pr_retained_to_height peer <? pr_retained_from_height peer)
           || (pr_retained_to_height peer <? pr_best_number peer))
    then Err "discovery peer retained range is invalid"%string else Ok tt.
End records.

Definition peer_route_is_fresh (now : Z) (peer : PeerRecord) : bool :=
  (pr_expires_at_epoch peer =? 0) || (now <=? pr_expires_at_epoch peer).

(** ** Identities *)

Section identities.
Context {HX : HexCodec} {D : Digests} {PK : PeerKeys} {BP : BuildProfile}.

Definition public_key_hex (secret : list byte) : list byte := hex_encode (public_key secret).

Definition sign (secret payload : list byte) : list byte :=
  let '(compact, recovery_id) := sign_recoverable secret (keccak256 payload) in
  hex_encode (compact ++ [as_u8 recovery_id]).

Definition p2p_hello_payload (node_mode : NodeMode) (best_number : Z)
    (best_hash consensus_profile identity_public_key tls_certificate_hash : list byte) : list byte :=
  B "BLQ-P2P-HELLO-v3|" ++ node_mode_as_str node_mode ++ B "|" ++ dec_string best_number ++ B "|" ++ best_hash
    ++ B "|" ++ consensus_profile ++ B "|" ++ identity_public_key ++ B "|" ++ tls_certificate_hash.

(** The key of a text. *)
Definition parse_identity_key (text : list byte) : res string (list byte) :=
  let? slice := ok_or (hex_decode text) "invalid hex"%string in
  ok_or (public_key_from_slice slice) "malformed public key"%string.

(** The signature text over a payload; [wrong_length] is the caller's message. *)
Definition check_identity_signature (wrong_length : string) (key text payload : list byte) : res string unit :=
  let? signature := ok_or (hex_decode text) "invalid hex"%string in
  if negb (Z.of_nat (length signature) =? 65) then Err wrong_length
  else
    let? recovery_id := expect (signature !! 64%nat) in
    if 3 <? u8_val recovery_id then Err "invalid recovery ID"%string
    else if negb (compact_ok (take 64 signature)) then Err "malformed signature"%string
    else if verify_ecdsa (keccak256 payload) (take 64 signature) key then Ok tt
    else Err "signature failed verification"%string.

Definition eq_ignore_ascii_case (a b : list byte) : bool :=
  bool_decide (to_ascii_lowercase a = to_ascii_lowercase b).

Definition verify_p2p_identity_for_profile (node_mode : NodeMode) (best_number : Z)
    (best_hash remote_consensus_profile identity_public_key identity_signature tls_certificate_hash : list byte)
    (expected_tls_certificate_hash : option (list byte)) (trusted_identity_keys : option (list (list byte)))
    (expected_profile : list byte) : res string unit :=
  if negb (bool_decide (remote_consensus_profile = expected_profile))
  then Err "consensus profile mismatch"%string
  else if match expected_tls_certificate_hash with
          | Some expected => negb (bool_decide (tls_certificate_hash = expected))
          | None => false
          end
  then Err "P2P hello certificate fingerprint does not match TLS peer"%string
  else
    let? key := parse_identity_key identity_public_key in
    if match trusted_identity_keys with
       | Some trusted => negb (existsb (fun k => eq_ignore_ascii_case k identity_public_key) trusted)
       | None => false
       end
    then Err "P2P identity key is not trusted by this node"%string
    else
      check_identity_signature "P2P identity signature has invalid length" key identity_signature
        (p2p_hello_payload node_mode best_number best_hash remote_consensus_profile identity_public_key
           tls_certificate_hash).

(** The hello of the node with the secret key [secret]. *)
Definition hello_message_from_best_header_with_genesis (secret : list byte) (mode : NodeMode) (rc : ReplayConfig)
    (best : BlockHeader) (tls_certificate_hash : list byte) (genesis_hash : Hash256) : P2pMessage :=
  let profile := network_consensus_profile rc genesis_hash in
  let best_hash := hash_to_hex (header_hash best) in
  let identity_public_key := public_key_hex secret in
  Hello mode (hdr_number best) best_hash profile identity_public_key
    (sign secret (p2p_hello_payload mode (hdr_number best) best_hash profile identity_public_key tls_certificate_hash))
    tls_certificate_hash.

(** ** Signed service requests *)

Definition service_auth_payload (domain : list byte) (fields : list (list byte)) : list byte :=
  concat (map (fun field => be_bytes 8 (Z.of_nat (length field)) ++ field) (domain :: fields)).

Definition verify_service_identity (domain : list byte) (fields : list (list byte))
    (identity_public_key identity_signature : list byte) : res string unit :=
  let? key := parse_identity_key identity_public_key in
  check_identity_signature "service identity signature has invalid length" key identity_signature
    (service_auth_payload domain fields).
End identities.

(** ** Errors and scores *)

Definition contains (needle message : string) : bool :=
  match String.index 0 needle message with Some _ => true | None => false end.

Definition excused : list string :=
  ["was not found"; "candidate"; "reorganization"; "stale"; "duplicate"; "Broken pipe"; "connection reset";
   "connection refused"; "timed out"; "orphan block pool is full"; "No space left on device";
   "per-connection body request limit"; "Resource temporarily unavailable"; "peer identity is banned";
   "witness header mismatch"]%string.

Definition should_penalize_p2p_error (is_transaction_gossip : bool) (error : string) : bool :=
  if negb is_transaction_gossip then negb (existsb (fun needle => contains needle error) excused)
  else negb (contains "invalid nonce" error || contains "insufficient balance" error).

Definition should_defer_transaction_gossip (is_transaction_gossip : bool) (error : string) : bool :=
  is_transaction_gossip && negb (should_penalize_p2p_error true error).

Definition is_consensus_profile_mismatch (error : string) : bool := contains "consensus profile mismatch" error.

Definition advance_p2p_handshake (message : P2pMessage) (complete : bool) : res string bool :=
  match is_hello message, complete with
  | true, false => Ok true
  | true, true => Err "peer sent duplicate hello"%string
  | false, false => Err "peer must send signed hello before data messages"%string
  | false, true => Ok true
  end.

(** ** What a hello proves *)

(** The text of an activation height. *)
Definition height_text (o : option Z) : list byte := match o with Some h => dec_string h | None => B "disabled" end.

Lemma dec_no_bar z : 0 <= z -> x7c ∉ dec_string z.
Proof. intros. eapply Forall_not_in; [by apply dec_digits_all|]. cbn beta. change (u8_val x7c) with 124. lia. Qed.

Lemma height_no_bar o : (forall h, o = Some h -> in_u64 h) -> x7c ∉ height_text o.
Proof.
  intros H. destruct o as [h|]; cbn [height_text]; [apply dec_no_bar, (H h eq_refl)|by apply (bool_decide_unpack (x7c ∉ B "disabled")); vm_compute].
Qed.

Lemma height_text_inj a b :
  (forall h, a = Some h -> in_u64 h) -> (forall h, b = Some h -> in_u64 h) ->
  height_text a = height_text b -> a = b.
Proof.
  assert (forall h, 0 <= h -> dec_string h <> B "disabled") as Hd.
  { intros h Hh E. pose proof (dec_digits_all 40 h Hh) as F. fold (dec_string h) in F. rewrite E in F.
    inversion F as [|? ? Hc _]. vm_compute in Hc. by destruct Hc. }
  intros Ha Hb E. destruct a as [x|], b as [y|]; cbn [height_text] in E; [|exfalso..|done].
  - f_equal. apply dec_string_inj; auto.
  - destruct (Ha x eq_refl). by eapply Hd.
  - destruct (Hb y eq_refl). by eapply Hd.
Qed.

Section hello.
Context {HX : HexCodec} {D : Digests} {PK : PeerKeys} {BP : BuildProfile}.

Lemma hex_no_bar h : x7c ∉ hash_to_hex h.
Proof. eapply Forall_not_in; [apply hex_encode_digits|]. by vm_compute. Qed.

(** The heights of a configuration are [u64]. *)
Definition schedule_ok (rc : ReplayConfig) : Prop :=
  (forall h, rp_block_size_activation_height rc = Some h -> in_u64 h) /\
  (forall h, rp_block_time_v2_activation_height rc = Some h -> in_u64 h).

Definition same_rules (rc rc' : ReplayConfig) (g g' : Hash256) : Prop :=
  g = g' /\ rp_block_size_activation_height rc = rp_block_size_activation_height rc' /\
  rp_block_time_v2_activation_height rc = rp_block_time_v2_activation_height rc'.

(** The parts of a profile. *)
Lemma profile_eq rc g : network_consensus_profile rc g =
  (B "blq-consensus-v2|chain=" ++ dec_string MAINNET_CHAIN_ID ++ B "|genesis=") ++ hash_to_hex g ++ x7c ::
  (B "pow=" ++ hdr_pow_algorithm genesis_header ++ B "|target_time=" ++ dec_string TARGET_BLOCK_TIME_SECONDS ++
     B "|deadband=15..45|adjustment_cap=25|issuance=elapsed-time-0.1-blq-per-minute" ++
     B "|block_size_activation_height=") ++ height_text (rp_block_size_activation_height rc) ++ x7c ::
  B "block_time_v2_activation_height=" ++ height_text (rp_block_time_v2_activation_height rc) ++ x7c ::
  B "block_time_v2_target=15|block_time_v2_window=16|block_time_v2_fast_median=3|block_time_v2_slow_interval=60".
Proof. unfold network_consensus_profile, consensus_profile_for_genesis. rewrite <- !app_assoc. reflexivity. Qed.

(** The profile determines the genesis and the schedule. *)
Lemma profile_inj rc rc' g g' :
  schedule_ok rc -> schedule_ok rc' ->
  network_consensus_profile rc g = network_consensus_profile rc' g' <-> same_rules rc rc' g g'.
Proof.
  intros [H1 H2] [H1' H2']. split.
  - rewrite !profile_eq. intros E. apply app_inv_head in E.
    apply sep_split in E as [Eg E]; [|apply hex_no_bar..]. apply app_inv_head in E.
    apply sep_split in E as [Es E]; [|by apply height_no_bar..]. apply app_inv_head in E.
    apply sep_split in E as [Et _]; [|by apply height_no_bar..].
    split; [by apply hex_encode_inj|]. split; by apply height_text_inj.
  - intros (-> & E1 & E2). by rewrite !profile_eq, E1, E2.
Qed.

Lemma parse_own_key secret : parse_identity_key (public_key_hex secret) = Ok (public_key secret).
Proof. unfold parse_identity_key, public_key_hex. rewrite hex_decode_encode. cbn. by rewrite public_key_parsed. Qed.

Lemma check_own_signature msg secret payload :
  check_identity_signature msg (public_key secret) (sign secret payload) payload = Ok tt.
Proof.
  unfold check_identity_signature, sign.
  destruct (sign_recoverable secret (keccak256 payload)) as [c id] eqn:E.
  destruct (sign_verifies _ _ _ _ E) as (Hl & Hid & Hok & Hv).
  rewrite hex_decode_encode. cbn [ok_or res_bind]. rewrite length_app, Hl. cbn [length Nat.add].
  cbn [Z.of_nat Z.eqb negb]. change (Z.of_nat (64 + 1) =? 65) with true. cbn [negb].
  rewrite lookup_app_r by lia. rewrite Hl. cbn [Nat.sub lookup list_lookup expect res_bind].
  rewrite u8_val_as_u8_small by lia. replace (3 <? id) with false by lia.
  rewrite take_app_le, take_ge by lia. by rewrite Hok, Hv.
Qed.

(** What the receiver asks of a hello beside the rules. *)
Definition welcome (expected_tls : option (list byte)) (trusted : option (list (list byte))) (tls key : list byte) : Prop :=
  (forall expected, expected_tls = Some expected -> tls = expected) /\
  (forall keys, trusted = Some keys -> exists k, k ∈ keys /\ to_ascii_lowercase k = to_ascii_lowercase key).

(** C16: a node accepts the hello another node signs exactly if both follow the
    same rules, that is, have the same genesis and the same activation heights,
    the certificate in the hello is the one of the connection, and the key is
    trusted where only listed keys are.  In every other case it answers with an
    error.  The profile is a text; two different schedules or genesis blocks
    never have the same one. *)
Theorem hello_accepted_exactly secret mode rc best tls g rc' g' expected_tls trusted :
  schedule_ok rc -> schedule_ok rc' ->
  match hello_message_from_best_header_with_genesis secret mode rc best tls g with
  | Hello node_mode best_number best_hash profile key signature tls_hash =>
      let verdict := verify_p2p_identity_for_profile node_mode best_number best_hash profile key signature tls_hash
                       expected_tls trusted (network_consensus_profile rc' g') in
      (verdict = Ok tt <-> same_rules rc rc' g g' /\ welcome expected_tls trusted tls (public_key_hex secret)) /\
      verdict <> Panic
  | _ => False
  end.
Proof.
  intros Hrc Hrc'. unfold hello_message_from_best_header_with_genesis. cbn zeta. cbv beta iota.
  unfold verify_p2p_identity_for_profile, welcome.
  pose proof (profile_inj rc rc' g g' Hrc Hrc') as Hp.
  destruct (bool_decide_reflect (network_consensus_profile rc g = network_consensus_profile rc' g')) as [E|E];
    cbn [negb]; [|split; [split; [done|]; intros [Hs _]; by apply Hp in Hs|done]].
  apply Hp in E. rewrite parse_own_key. cbn [res_bind]. rewrite check_own_signature.
  assert (match expected_tls with Some expected => negb (bool_decide (tls = expected)) | None => false end = false
          <-> forall expected, expected_tls = Some expected -> tls = expected) as Ht.
  { destruct expected_tls as [e|]; [|split; [done|reflexivity]]. rewrite negb_false_iff, bool_decide_eq_true.
    split; [by intros -> ? [= <-]|intros H; by apply H]. }
  assert (match trusted with Some t => negb (existsb (fun k => eq_ignore_ascii_case k (public_key_hex secret)) t) | None => false end = false
          <-> forall keys, trusted = Some keys ->
                exists k, k ∈ keys /\ to_ascii_lowercase k = to_ascii_lowercase (public_key_hex secret)) as Hk.
  { destruct trusted as [keys|]; [|split; [done|reflexivity]]. rewrite negb_false_iff, existsb_exists.
    setoid_rewrite <- list_elem_of_In. setoid_rewrite bool_decide_eq_true. split; [by intros H ? [= <-]|intros H; by apply H]. }
  destruct (match expected_tls with Some _ => _ | None => _ end);
    [split; [split; [done|intros (_ & H & _); by apply Ht in H]|done]|].
  destruct (match trusted with Some _ => _ | None => _ end);
    [split; [split; [done|intros (_ & _ & H); by apply Hk in H]|done]|].
  split; [|done]. split; [|done]. intros _. split; [done|]. split; [by apply Ht|by apply Hk].
Qed.
End hello.

(** A stand-in for the curve: the signature names the message and the key. *)
Program Definition toy_keys : PeerKeys := {|
  public_key_from_slice := fun key => Some key;
  compact_ok := fun _ => true;
  verify_ecdsa := fun m c key => bool_decide (c = be_bytes 32 (be_val m) ++ key);
  public_key := fun sk => be_bytes 32 (be_val sk);
  sign_recoverable := fun sk m => (be_bytes 32 (be_val m) ++ be_bytes 32 (be_val sk), 1);
|}.
Next Obligation. done. Qed.
Next Obligation.
  intros sk m c id [= <- <-]. rewrite length_app, !length_be_bytes. split; [done|]. split; [lia|]. split; [done|].
  by rewrite bool_decide_true.
Qed.

Section witness.
#[local] Existing Instances toy_digests hex_codec toy_keys native_profile.

Lemma hello_accepted_exactly_witness :
  let rc := replay_config in let best := genesis_header in let g := header_hash genesis_header in
  exists n h p k s t,
    hello_message_from_best_header_with_genesis (B "secret") Primitives.Full rc best (B "tls") g = Hello Primitives.Full n h p k s t /\
    verify_p2p_identity_for_profile Primitives.Full n h p k s t (Some (B "tls")) None (network_consensus_profile rc g) = Ok tt.
Proof.
  intros rc best g. do 6 eexists. split; [reflexivity|].
  apply (@hello_accepted_exactly hex_codec toy_digests toy_keys native_profile (B "secret") Primitives.Full rc best (B "tls") g rc g
    (Some (B "tls")) None).
  - split; [by intros ? [= <-]|done].
  - split; [by intros ? [= <-]|done].
  - split; [done|]. split; [by intros ? [= <-]|done].
Defined.
End witness.
