(* ===== verification/Serve.v ===== *)
(** The handler of one message of a peer
    ([crates/blq-node/src/main.rs], [handle_p2p_message_from]).

    The state is what the handler can change: the messages written to the
    stream, the storage, the pool, the routes learnt from peers, and the gossip
    queues.  A write to the stream can fail ([PeerStream]).  The handler takes
    one lock at a time; what other threads do between two locks is part of the
    model only where an import takes it as [Others]. *)

From Stdlib Require Import ZArith Lia Strings.String Strings.Byte.
From stdpp Require Import sorting gmap fin_maps base list.
From S2P Require Import Prelude Externals Primitives Canonical Rlp RawTx Pow Consensus State StateRoot.
From S2P Require Import Transition Evm Difficulty BlockExec Mempool Admission Replay Network.
From S2P Require Import Sled AccountStore BlockStore Generation Publish CandidateStore NodeStore Snapshots Branch.
From S2P Require Import Import Cursor Recovery Sync Wire.
#[local] Open Scope Z_scope.

Definition MAX_TRANSACTION_GOSSIP_QUEUE : nat := 512.
Definition MAX_BLOCK_GOSSIP_QUEUE : nat := 64.

(** The failure of a write, after the messages already written. *)
Class PeerStream := { send_error : list P2pMessage -> P2pMessage -> option string }.

(** [config.network], as far as the handler reads it. *)
Record NetworkConfig := {
  nw_enabled : bool;
  nw_trusted_peer_keys : list (list byte);
}.

Record BlockGossipJob := {
  bg_genesis_hash : Hash256;
  bg_block : Block;
  bg_source_peer : option (list byte);
}.

(** A queue is absent until its workers are started. *)
Record Handler {S : Sled} := {
  hd_sent : list P2pMessage;
  hd_storage : NodeStorage;
  hd_mempool : Mempool;
  hd_routes : gmap (list byte) PeerRecord;
  hd_transaction_queue : option (list Transaction);
  hd_block_queue : option (list BlockGossipJob);
  hd_transactions_received : Z;
  hd_recovery_started : bool;
}.

#[global] Instance handler_fields {S : Sled} : Fields Handler := fun h => {|
  hd_sent := hd_sent h; hd_storage := hd_storage h; hd_mempool := hd_mempool h; hd_routes := hd_routes h;
  hd_transaction_queue := hd_transaction_queue h; hd_block_queue := hd_block_queue h;
  hd_transactions_received := hd_transactions_received h; hd_recovery_started := hd_recovery_started h |}.

(** [try_send] on a bounded queue. *)
Definition try_send {A} (capacity : nat) (job : A) (queue : option (list A)) : option (list A) :=
  (fun jobs => if (length jobs <? capacity)%nat then jobs ++ [job] else jobs) <$> queue.

Section serve.
Context {S : Sled} {HX : HexCodec} {D : Digests} {U : U256Ops} {R : Revm} {SE : Secp} {RX : RandomX} {BP : BuildProfile}.
Context {JB : Json Block} {JH : Json BlockHeader} {JT : Json Transaction} {JR : Json StoredReceipt}.
Context {JE : Json (list SerializedEvmSnapshotEntry)}.
Context {IO : FileIo} {JM : Json GenerationManifest} {JC : Json ReplayCheckpoint}.
Context {JP : Json GenerationPublicationRecord} {JS : Json SuffixPublicationRecord} {CM : CompactManifest}.
Context {SI : SnapshotIo} {JX : Json ExecutionSnapshot} {JG : Json GenerationSnapshot} {HO : Host} {PK : PeerKeys} {SA : SocketAddrs} {PS : PeerStream}.

Definition Handle (A : Type) : Type := StM string Handler A.

Definition hd_modify (f : Handler -> Handler) : Handle unit := fun h => (Ok tt, f h).
Definition hd_read {A} (f : NodeStorage -> res string A) : Handle A := st_read (fun h => f (hd_storage h)).
Definition on_storage {A} (m : Node A) : Handle A := fun h =>
  let '(r, n) := m (hd_storage h) in (r, h <|hd_storage := n|>).

Definition send_p2p_message (m : P2pMessage) : Handle unit := fun h =>
  match send_error (hd_sent h) m with
  | Some e => (Err e, h)
  | None => (Ok tt, h <|hd_sent := hd_sent h ++ [m]|>)
  end.

Definition state_view (n : NodeStorage) : StateView := {|
  sv_nonce := node_nonce n; sv_balance := node_balance n; sv_best_header := any_res (node_best_header n) |}.

Definition node_transaction_receipt_by_hash (n : NodeStorage) (hash : Hash256)
    : res StorageError (Receipt * BlockHeader * nat * Transaction) :=
  of_full (fun s => transaction_receipt_by_hash s hash) (fun _ => Err NotFound) n.

(** ** Bodies and transactions by hash *)

Definition handle_get_block_by_hash (hash : list byte) : Handle unit :=
  do? hash := st_res (res_map_err (fun _ => "invalid block hash"%string) (hash_from_hex hash)) in
  do? block := hd_read (fun n =>
    match node_sync_block_by_hash n hash with
    | Ok block => Ok (Some block)
    | Err e => if contains "was not found" e then Ok None else Err e
    | Panic => Panic
    end) in
  send_p2p_message
    match block with Some block => BlockBody block | None => BlockNotFound (hash_to_hex hash) end.

Definition handle_get_transaction (hash : list byte) : Handle unit :=
  do? hash := st_res (res_map_err (fun _ => "invalid transaction hash"%string) (hash_from_hex hash)) in
  do? data := hd_read (fun n =>
    match node_transaction_receipt_by_hash n hash with
    | Ok (receipt, header, transaction_index, transaction) =>
        Ok (Some {| rt_receipt := receipt; rt_header := header;
                    rt_transaction_index := transaction_index; rt_transaction := transaction |})
    | Err NotFound => Ok None
    | Err e => Err (storage_message e)
    | Panic => Panic
    end) in
  send_p2p_message (TransactionData data).

Section config.
Variables (config : NodeConfig) (network : NetworkConfig).

Definition enqueue_transaction_gossip (t : Transaction) : Handle unit :=
  if negb (nw_enabled network) then st_ret tt
  else hd_modify (fun h =>
    h <|hd_transaction_queue := try_send MAX_TRANSACTION_GOSSIP_QUEUE t (hd_transaction_queue h)|>).

Definition enqueue_block_gossip (block : Block) (source_peer : option (list byte)) : Handle unit :=
  if negb (nw_enabled network) then st_ret tt
  else hd_modify (fun h =>
    h <|hd_block_queue := try_send MAX_BLOCK_GOSSIP_QUEUE
          {| bg_genesis_hash := configured_genesis_hash (hd_storage h); bg_block := block;
             bg_source_peer := source_peer |} (hd_block_queue h)|>).

(** ** What a request is answered with *)

(** [find_map] over the locator. *)
Fixpoint locate (n : NodeStorage) (locator : list (list byte)) : option (Z * Hash256) :=
  match locator with
  | [] => None
  | encoded :: locator =>
      match hash_from_hex encoded with
      | Ok hash =>
          match node_header_by_hash n hash with
          | Ok header => Some (hdr_number header, hash)
          | _ => locate n locator
          end
      | _ => locate n locator
      end
  end.

(** [for number in from..end] until a block is missing. *)
Fixpoint range_blocks (n : NodeStorage) (numbers : list Z) : res string (list Block) :=
  match numbers with
  | [] => Ok []
  | number :: numbers =>
      match node_block_by_number n number with
      | Ok block => let? blocks := range_blocks n numbers in Ok (block :: blocks)
      | Err NotFound => Ok []
      | Err e => Err (storage_message e)
      | Panic => Panic
      end
  end.

(** [from..from.saturating_add(limit)]. *)
Definition range_numbers (from : Z) (limit : nat) : list Z :=
  map (fun i => from + Z.of_nat i) (seq 0 (Z.to_nat (sat_add U64_MAX from (Z.of_nat limit) - from))).

Fixpoint headers_at (n : NodeStorage) (heights : list Z) : res string (list BlockHeader) :=
  match heights with
  | [] => Ok []
  | height :: heights =>
      let? header := any_res (node_header_by_number n height) in
      let? headers := headers_at n heights in
      Ok (header :: headers)
  end.

Definition witness_headers_at (n : NodeStorage) (tip_hash : Hash256) (heights : list Z) : res string (list BlockHeader) :=
  let? best := any_res (node_best_header n) in
  if negb (bool_decide (header_hash best = tip_hash))
  then Err "witness does not share the requested canonical tip"%string
  else headers_at n heights.

(** The announced hashes the pool does not have. *)
Definition unknown_hashes (p : Mempool) (hashes : list Hash256) : list Hash256 :=
  take 128 (List.filter (fun hash => negb (bool_decide (hash ∈ map tx_rpc_hash (pending p)))) hashes).

(** The transactions of the pool among the wanted ones. *)
Definition wanted_transactions (p : Mempool) (hashes : list Hash256) : list Transaction :=
  take 128 (List.filter (fun t => bool_decide (tx_rpc_hash t ∈ hashes)) (pending p)).

(** ** Transactions *)

Variable pool_now : Z.

Definition best_base_fee (n : NodeStorage) : res string Z :=
  let? best := any_res (node_best_header n) in Ok (hdr_base_fee_per_gas best).

(** The lock on the pool: the pool after a successful [add]. *)
Definition pool_add (t : Transaction) (base_fee : Z) : StM MempoolError Handler unit := fun h =>
  match add (hd_mempool h) pool_now t base_fee with
  | Ok p => (Ok tt, h <|hd_mempool := p|>)
  | Err e => (Err e, h)
  | Panic => (Panic, h)
  end.

Definition accepted (t : Transaction) : Handle unit :=
  hd_modify (fun h => h <|hd_transactions_received := wrap64 (hd_transactions_received h + 1)|>) ;!
  enqueue_transaction_gossip t.

Definition handle_new_transaction (t : Transaction) : Handle unit :=
  st_res (verify_transaction_signature t) ;!
  do? base_fee := hd_read best_base_fee in
  hd_read (fun n => validate_transaction_against_current_state (state_view n) t base_fee) ;!
  (fun h => let '(r, h) := pool_add t base_fee h in (res_map_err mempool_message r, h)) ;!
  accepted t.

(** A transaction the pool refuses is skipped. *)
Definition handle_transaction_item (base_fee : Z) (t : Transaction) : Handle unit :=
  st_res (verify_transaction_signature t) ;!
  hd_read (fun n => validate_transaction_against_current_state (state_view n) t base_fee) ;!
  (fun h =>
     match pool_add t base_fee h with
     | (Ok _, h) => accepted t h
     | (Err _, h) => (Ok tt, h)
     | (Panic, h) => (Panic, h)
     end).

(** ** Routes *)

Definition route_key_of (peer : PeerRecord) : list byte :=
  match pr_identity_public_key peer with
  | Some identity => if bool_decide (identity = []) then pr_address peer else identity
  | None => pr_address peer
  end.

Definition exchange_peer (expected_profile : list byte) (peer : PeerRecord) : Handle unit :=
  st_res (validate_peer_record peer) ;!
  if negb (pr_chain_id peer =? 0) && negb (pr_chain_id peer =? MAINNET_CHAIN_ID) then st_ret tt
  else if negb (bool_decide (pr_consensus_profile peer = []))
          && negb (bool_decide (pr_consensus_profile peer = expected_profile)) then st_ret tt
  else hd_modify (fun h => h <|hd_routes := <[route_key_of peer := peer]> (hd_routes h)|>).

(** ** Blocks and headers *)

Variables (others : Others) (dir : option SnapshotDir) (isolated : res string Generation) (cleanup : res string unit).
Variable (now : option Z).

Definition handle_header (header : BlockHeader) : Handle unit :=
  do? body := on_storage (handle_network_header config header) in
  match body with
  | Some hash => send_p2p_message (GetBlockByHash (hash_to_hex hash))
  | None => st_ret tt
  end.

(** The block with what follows the import: the pool, the gossip, and the
    recovery of a tip that moved. *)
Definition handle_block (source_peer : option (list byte)) (block : Block) : Handle unit :=
  do? outcome := on_storage (import_network_block others dir isolated cleanup config now block) in
  hd_modify (fun h => h <|hd_mempool := mempool_after (hd_mempool h) outcome|>) ;!
  match outcome with
  | Published _ | Imported _ => enqueue_block_gossip block source_peer
  | Recovering => hd_modify (fun h => h <|hd_recovery_started := true|>)
  | _ => st_ret tt
  end.

(** ** The handler *)

Definition handle_p2p_message_from (message : P2pMessage) (expected_tls_certificate_hash source_peer : option (list byte))
    : Handle unit := fun h =>
  let expected_profile := network_consensus_profile (nc_replay config) (configured_genesis_hash (hd_storage h)) in
  match message with
  | Hello node_mode best_number best_hash consensus_profile identity_public_key identity_signature tls_certificate_hash =>
      st_res (verify_p2p_identity_for_profile node_mode best_number best_hash consensus_profile identity_public_key
        identity_signature tls_certificate_hash expected_tls_certificate_hash
        (if bool_decide (nw_trusted_peer_keys network = []) then None else Some (nw_trusted_peer_keys network))
        expected_profile)
  | GetHeaders from limit =>
      do? headers := hd_read (fun n => node_headers_after n from (Nat.min limit MAX_P2P_HEADERS)) in
      send_p2p_message (Headers headers)
  | Headers headers =>
      if (MAX_P2P_HEADERS <? length headers)%nat then st_res (Err "peer sent too many headers"%string)
      else st_for headers handle_header
  | FindCommonAncestor locator =>
      if (MAX_P2P_HEADERS <? length locator)%nat then st_res (Err "peer sent too many locator hashes"%string)
      else
        do? ancestor := hd_read (fun n => Ok (locate n locator)) in
        send_p2p_message (CommonAncestor (fst <$> ancestor) (hash_to_hex <$> (snd <$> ancestor)))
  | CommonAncestor _ _ => st_res (Err "unexpected common ancestor response"%string)
  | GetBlock number =>
      do? block := hd_read (fun n => any_res (node_block_by_number n number)) in
      send_p2p_message (BlockBody block)
  | GetBlockRange from limit =>
      let limit := Nat.min limit (Z.to_nat SYNC_RANGE_SIZE) in
      if (limit =? 0)%nat then st_res (Err "block range limit must be positive"%string)
      else
        do? blocks := hd_read (fun n => range_blocks n (range_numbers from limit)) in
        st_for blocks (fun block => send_p2p_message (BlockBody block))
  | WitnessHeaders tip_hash heights =>
      if bool_decide (heights = []) || (4 <? length heights)%nat
      then st_res (Err "witness header request has an invalid height count"%string)
      else
        do? tip_hash := st_res (res_map_err (fun _ => "invalid witness tip hash"%string) (hash_from_hex tip_hash)) in
        do? headers := hd_read (fun n => witness_headers_at n tip_hash heights) in
        send_p2p_message (WitnessHeadersResponse (hash_to_hex tip_hash) headers)
  | WitnessHeadersResponse _ _ => st_res (Err "unexpected witness header response"%string)
  | GetBlockByHash hash => handle_get_block_by_hash hash
  | GetTransaction hash => handle_get_transaction hash
  | BlockBody block => handle_block source_peer block
  | BlockNotFound _ => st_ret tt
  | TransactionData _ => st_res (Err "unexpected transaction response"%string)
  | NewTransaction transaction => handle_new_transaction transaction
  | NewTransactionHashes hashes =>
      if (256 <? length hashes)%nat then st_res (Err "peer sent too many transaction hashes"%string)
      else fun h => send_p2p_message (GetTransactions (unknown_hashes (hd_mempool h) hashes)) h
  | GetTransactions hashes =>
      if (128 <? length hashes)%nat then st_res (Err "peer requested too many transactions"%string)
      else fun h => send_p2p_message (Transactions (wanted_transactions (hd_mempool h) hashes)) h
  | Transactions items =>
      if (128 <? length items)%nat then st_res (Err "peer sent too many transactions"%string)
      else
        do? base_fee := hd_read best_base_fee in
        st_for items (handle_transaction_item base_fee)
  | PeerExchange peers =>
      if (32 <? length peers)%nat then st_res (Err "peer exchange contains too many routes"%string)
      else st_for peers (exchange_peer expected_profile)
  | NewHeader header => handle_header header
  end h.

(** What the hello of a peer makes the node ask for at once; [durable] tells
    whether a saved recovery job exists. *)
Definition reconcile_peer_tip (durable : bool) (message : P2pMessage) : Handle unit :=
  if durable then st_ret tt
  else
    match message with
    | Hello _ best_number best_hash _ _ _ _ =>
        do? local := hd_read (fun n => any_res (node_best_header n)) in
        let local_hash := hash_to_hex (header_hash local) in
        if ((hdr_number local <? best_number)
            || ((best_number =? hdr_number local) && negb (bool_decide (best_hash = local_hash))))
           && is_ok (hash_from_hex best_hash)
        then send_p2p_message (GetBlockByHash best_hash)
        else st_ret tt
    | _ => st_ret tt
    end.
End config.
End serve.
