(* ===== verification/Ancestor.v ===== *)
(** Two nodes on different branches: the locator of one, answered by the
    handler of the other, finds a common block near the fork, and the bodies
    that follow it are the ones the first node lacks. *)

From Stdlib Require Import ZArith Lia Strings.String Strings.Byte.
From stdpp Require Import sorting gmap fin_maps base list.
From S2P Require Import Prelude Externals Primitives Canonical Rlp RawTx Pow Consensus State StateRoot.
From S2P Require Import Transition Evm Difficulty BlockExec Mempool Admission Replay Network.
From S2P Require Import Sled AccountStore BlockStore ChainStore Generation Publish CandidateStore NodeStore Snapshots Branch.
From S2P Require Import Miner NodeState Reorg Import Fork Cursor Recovery Sync Locator Wire Serve.
#[local] Open Scope Z_scope.

(** A stream whose writes succeed. *)
Class StreamOpen {PS : PeerStream} : Prop := stream_open : forall sent m, send_error sent m = None.

(** The first element of a descending list at or below [f] is at least every
    such element. *)
Lemma first_below (hs : list Z) f h0 :
  StronglySorted Z.gt hs -> h0 ∈ hs -> h0 <= f ->
  exists pre h post, hs = pre ++ h :: post /\ Forall (fun x => f < x) pre /\ h <= f /\ h0 <= h.
Proof.
  intros Hs Hin Hf. induction Hs as [|x hs Hs IH Hx]; [by apply not_elem_of_nil in Hin|].
  destruct (Z.le_gt_cases x f) as [Hle|Hgt].
  - exists [], x, hs. split; [done|]. split; [constructor|]. split; [done|].
    apply elem_of_cons in Hin as [->|Hin]; [lia|]. rewrite List.Forall_forall in Hx. apply list_elem_of_In, Hx in Hin. lia.
  - apply elem_of_cons in Hin as [->|Hin]; [lia|]. destruct (IH Hin) as (pre & h & post & -> & Hp & Hh).
    exists (x :: pre), h, post. split; [done|]. split; [|done]. constructor; [lia|done].
Qed.

Lemma locator_offset_lt i j : (i < j)%nat -> locator_offset i < locator_offset j.
Proof.
  intros H. induction H as [|j H IH]; rewrite locator_offset_next; pose proof (locator_step_pos i) as Hi;
    [lia|pose proof (locator_step_pos j); lia].
Qed.

Lemma heights_descend tip k : 
  (forall i, (i < k)%nat -> locator_offset i < tip) -> StronglySorted Z.gt (heights tip 0 k).
Proof.
  intros Hk. unfold heights. enough (forall n i, (i + n <= k)%nat ->
    StronglySorted Z.gt (map (fun j => tip - locator_offset j) (seq i n) ++ [0])) as H by (apply H; lia).
  intros n. induction n as [|n IH]; intros i Hi; cbn [seq map app]; [by repeat constructor|].
  constructor; [apply IH; lia|]. apply Forall_app. split; [|repeat constructor; specialize (Hk i ltac:(lia)); lia].
  rewrite List.Forall_forall. intros x [j [<- Hj%in_seq]]%in_map_iff. pose proof (locator_offset_lt i j). lia.
Qed.

Lemma heights_range tip k x :
  0 <= tip -> (forall i, (i < k)%nat -> locator_offset i < tip) -> x ∈ heights tip 0 k -> 0 <= x <= tip.
Proof.
  intros Ht Hk Hx. unfold heights in Hx. apply elem_of_app in Hx as [Hx|Hx].
  - apply list_elem_of_In, in_map_iff in Hx as (j & <- & Hj%in_seq). specialize (Hk j ltac:(lia)).
    pose proof (locator_offset_nonneg j). lia.
  - apply list_elem_of_singleton in Hx. lia.
Qed.

Lemma heights_head tip k : 0 <= tip -> tip <= locator_offset k -> exists l, heights tip 0 k = tip :: l.
Proof.
  intros Ht Hk. destruct k as [|k]; unfold heights; cbn [seq map app].
  - change (locator_offset 0) with 0 in Hk. exists []. f_equal. lia.
  - eexists. f_equal. change (locator_offset 0) with 0. lia.
Qed.

Section lookup.
Context {S : Sled} {HX : HexCodec} {D : Digests} {JB : Json Block} {JH : Json BlockHeader} {JT : Json Transaction}.
Context {JR : Json StoredReceipt} {HR : SledReadable}.

Abbreviation hash_of b := (header_hash (blk_header b)).

Lemma length_header_hash h : wf_hash (header_hash h).
Proof. apply length_sha256. Qed.

Lemma find_header_rows hash rows xs :
  Forall2 (fun kv a => json_slice kv.2 = Ok a) rows xs ->
  find_in_rows (fun kv : list byte * list byte =>
    let? header := json_slice kv.2 in Ok (if bool_decide (header_hash header = hash) then Some header else None))
    (map Ok rows) = Ok (List.find (fun h => bool_decide (header_hash h = hash)) xs).
Proof.
  induction 1 as [|kv h rows xs Hkv _ IH]; [done|]. cbn [map find_in_rows res_map_err res_bind List.find].
  rewrite Hkv. cbn [res_bind]. destruct (bool_decide (header_hash h = hash)); [done|]. exact IH.
Qed.

Lemma candidate_by_hash_rep s pool hash :
  candidate_rep (contents s) pool ->
  candidate_block_by_hash s hash = ok_or (fst <$> cp_blocks pool !! hash) NotFound.
Proof.
  intros [Hb _ _]. unfold candidate_block_by_hash. rewrite db_get_reliable. cbn [res_bind].
  pose proof (kr_value _ _ _ _ _ Hb hash) as Hv. destruct (cp_blocks pool !! hash) as [[b w]|].
  - destruct Hv as (v & -> & _ & Hv). cbn. unfold json_slice. by rewrite (json_roundtrip _ _ Hv).
  - by rewrite Hv.
Qed.

(** A hash is looked up in the chain, then among the candidates. *)
Lemma header_by_hash_rep s c pool hash :
  chain_rep (contents s) c -> candidate_rep (contents s) pool ->
  (exists b, b ∈ c /\ hash_of b = hash /\ header_by_hash s hash = Ok (blk_header b)) \/
  ((forall b, b ∈ c -> hash_of b <> hash) /\
   header_by_hash s hash = ok_or ((fun bw => blk_header bw.1) <$> cp_blocks pool !! hash) NotFound).
Proof.
  intros Hc Hp. destruct (numbered_rows _ _ _ hdr_number (cr_headers _ _ Hc)) as (xs & Hxs & Hperm).
  { unfold list_fits. rewrite length_map. apply Hc. } { apply headers_numbered, Hc. }
  unfold header_by_hash, find_row. rewrite reliable_scan. fold (contents s).
  rewrite (find_header_rows hash _ _ Hxs). cbn [res_bind].
  destruct (List.find _ xs) as [h|] eqn:E.
  - left. apply find_some in E as [Hin Eh%bool_decide_eq_true]. apply list_elem_of_In in Hin. rewrite Hperm in Hin.
    apply list_elem_of_fmap in Hin as (b & -> & Hin). by exists b.
  - right. split.
    + intros b Hb Eh. apply (bool_decide_eq_false (hash_of b = hash)); [|done].
      apply (find_none _ _ E). apply list_elem_of_In. rewrite Hperm. by apply list_elem_of_fmap_2.
    + rewrite (candidate_by_hash_rep _ _ _ Hp). by destruct (cp_blocks pool !! hash) as [[b w]|].
Qed.

Lemma hash_hex_roundtrip h : wf_hash h -> hash_from_hex (hash_to_hex h) = Ok h.
Proof. intros Hh. apply fixed_from_hex_raw. by rewrite Hh. Qed.

(** The answer to a locator of blocks: the first block the other node knows. *)
Lemma locate_first n pre b post :
  (forall x, x ∈ pre -> is_ok (node_header_by_hash n (hash_of x)) = false) ->
  forall h, node_header_by_hash n (hash_of b) = Ok h ->
  locate n (map entry (pre ++ b :: post)) = Some (hdr_number h, hash_of b).
Proof.
  intros Hpre h Hh. induction pre as [|x pre IH]; cbn [map app locate]; unfold entry at 1;
    rewrite hash_hex_roundtrip by apply length_header_hash.
  - by rewrite Hh.
  - specialize (Hpre x ltac:(by left)) as Hx. destruct (node_header_by_hash n (hash_of x)); [done| |];
      (apply IH; intros y Hy; apply Hpre; by right).
Qed.

(** The blocks a locator lists. *)
Lemma listed_blocks (c : list Block) (hs : list Z) :
  (forall x, x ∈ hs -> exists b, c !! Z.to_nat x = Some b) ->
  exists bs, map (fun h => default [] (entry <$> c !! Z.to_nat h)) hs = map entry bs /\
    Forall2 (fun x b => c !! Z.to_nat x = Some b) hs bs.
Proof.
  induction hs as [|x hs IH]; intros H; [by exists []|]. destruct IH as (bs & E & F); [intros y Hy; apply H; by right|].
  destruct (H x) as [b Hb]; [by left|]. exists (b :: bs). cbn [map]. rewrite Hb, E. split; [done|by constructor].
Qed.

(** The bodies of a range. *)
Lemma range_blocks_rep g c from k :
  chain_rep (contents (gn_db g)) c -> 0 <= from -> from + Z.of_nat k <= U64_MAX ->
  range_blocks (Full g) (map (fun i => from + Z.of_nat i) (seq 0 k)) = Ok (take k (drop (Z.to_nat from) c)).
Proof.
  intros Hc. revert from. induction k as [|k IH]; intros from Hf Hk; [done|].
  cbn [seq map range_blocks]. rewrite Z.add_0_r. cbn [node_block_by_number of_full].
  rewrite (proj2 (header_by_number_rep _ _ from Hc ltac:(unfold in_u64; lia))).
  destruct (c !! Z.to_nat from) as [b|] eqn:E; cbn [ok_or].
  - rewrite <- seq_shift, map_map. specialize (IH (from + 1) ltac:(lia) ltac:(lia)).
    rewrite (map_ext _ (fun i => from + 1 + Z.of_nat i)) by lia. rewrite IH. cbn [res_bind].
    rewrite (drop_S c b (Z.to_nat from) E). cbn [take]. do 3 f_equal. f_equal. lia.
  - apply lookup_ge_None in E. by rewrite drop_ge.
Qed.

Lemma range_numbers_rep g c from limit :
  chain_rep (contents (gn_db g)) c -> in_u64 from ->
  range_blocks (Full g) (range_numbers from limit) = Ok (take limit (drop (Z.to_nat from) c)).
Proof.
  intros Hc [Hf Hu]. unfold range_numbers. pose proof (cr_fits _ _ Hc) as Hfit. unfold list_fits in Hfit.
  unfold sat_add in *. destruct (Z.le_gt_cases (from + Z.of_nat limit) U64_MAX).
  - rewrite Z.min_l by done. replace (Z.to_nat (from + Z.of_nat limit - from)) with limit by lia. by apply range_blocks_rep.
  - rewrite Z.min_r by lia. rewrite range_blocks_rep with (c := c) by (done || lia).
    rewrite !take_ge; [done|rewrite length_drop; lia..].
Qed.
End lookup.

(** ** Two nodes *)

Section fork.
Context {S : Sled} {HX : HexCodec} {D : Digests} {U : U256Ops} {R : Revm} {SE : Secp} {RX : RandomX} {BP : BuildProfile}.
Context {JB : Json Block} {JH : Json BlockHeader} {JT : Json Transaction} {JR : Json StoredReceipt}.
Context {JE : Json (list SerializedEvmSnapshotEntry)}.
Context {IO : FileIo} {JM : Json GenerationManifest} {JC : Json ReplayCheckpoint}.
Context {JP : Json GenerationPublicationRecord} {JS : Json SuffixPublicationRecord} {CM : CompactManifest}.
Context {SI : SnapshotIo} {JX : Json ExecutionSnapshot} {JG : Json GenerationSnapshot} {HO : Host} {CI : CursorIo}.
Context {PK : PeerKeys} {SA : SocketAddrs} {PS : PeerStream} {HR : SledReadable} {OP : StreamOpen}.
Variables (config : NodeConfig) (network : NetworkConfig) (pool_now : Z).
Variables (others : Others) (dir : option SnapshotDir) (isolated : res string Generation) (cleanup : res string unit).
Variables (now : option Z) (tls source : option (list byte)).

Abbreviation hash_of b := (header_hash (blk_header b)).
Abbreviation handle m :=
  (handle_p2p_message_from config network pool_now others dir isolated cleanup now m tls source).

Lemma send_open m h : send_p2p_message m h = (Ok tt, h <|hd_sent := hd_sent h ++ [m]|>).
Proof using OP. unfold send_p2p_message. by rewrite stream_open. Qed.

Lemma send_all (blocks : list Block) (h : Handler) :
  st_for blocks (fun block => send_p2p_message (BlockBody block)) h =
  (Ok tt, h <|hd_sent := hd_sent h ++ map BlockBody blocks|>).
Proof using OP.
  revert h. induction blocks as [|b blocks IH]; intros h; cbn [st_for map].
  - unfold st_ret. rewrite app_nil_r. by destruct h.
  - unfold st_bind. rewrite send_open, IH. cbn. by rewrite <- app_assoc.
Qed.

(** The answer of the handler to a request for bodies. *)
Lemma range_served g c from limit h :
  chain_rep (contents (gn_db g)) c -> in_u64 from -> hd_storage h = Full g -> (0 < limit <= 128)%nat ->
  handle (GetBlockRange from limit) h =
    (Ok tt, h <|hd_sent := hd_sent h ++ map BlockBody (take limit (drop (Z.to_nat from) c))|>).
Proof using HR OP.
  intros Hc Hf Hh Hl. unfold handle_p2p_message_from. change (Z.to_nat SYNC_RANGE_SIZE) with 128%nat.
  rewrite Nat.min_l by lia. destruct (Nat.eqb_spec limit 0); [lia|]. unfold hd_read.
  erewrite st_bind_read; [apply send_all|]. cbn beta. rewrite Hh. by apply range_numbers_rep.
Qed.

Variables (ga gb : Generation) (common sa sb : list Block) (pool : CandidatePool).
Abbreviation ca := (common ++ sa).
Abbreviation cb := (common ++ sb).
Hypothesis Hca : chain_rep (contents (gn_db ga)) ca.
Hypothesis Hcb : chain_rep (contents (gn_db gb)) cb.
Hypothesis Hpool : candidate_rep (contents (gn_db gb)) pool.
Hypothesis Hdistinct : NoDup (map (fun b => hash_of b) cb).
Hypothesis Hroot : common <> [].

Lemma known_common i b :
  common !! i = Some b -> node_header_by_hash (Full gb) (hash_of b) = Ok (blk_header b) /\ hdr_number (blk_header b) = Z.of_nat i.
Proof using HR Hcb Hdistinct Hpool.
  intros Hb. assert (cb !! i = Some b) as Hcbi by (by apply lookup_app_l_Some).
  split; [|by apply (block_numbers_lookup cb); [apply Hcb|]].
  cbn [node_header_by_hash of_full].
  destruct (header_by_hash_rep _ _ _ (hash_of b) Hcb Hpool) as [(b' & Hin & Eh & Hr)|[Hno _]].
  - rewrite Hr. apply list_elem_of_lookup in Hin as [j Hj].
    assert (i = j) as <-; [|congruence].
    apply (NoDup_lookup _ i j (hash_of b) Hdistinct); rewrite list_lookup_fmap; [by rewrite Hcbi|by rewrite Hj; cbn; rewrite Eh].
  - destruct (Hno b); [|done]. by eapply list_elem_of_lookup_2.
Qed.

Lemma unknown_own b :
  hash_of b ∉ map (fun b => hash_of b) cb -> cp_blocks pool !! hash_of b = None ->
  node_header_by_hash (Full gb) (hash_of b) = Err NotFound.
Proof using HR Hcb Hpool.
  intros Hn Hp. cbn [node_header_by_hash of_full].
  destruct (header_by_hash_rep _ _ _ (hash_of b) Hcb Hpool) as [(b' & Hin & Eh & Hr)|[_ Hr]].
  - destruct Hn. apply list_elem_of_fmap. by exists b'.
  - by rewrite Hr, Hp.
Qed.

(** The job of a node that takes the answer of its peer. *)
Lemma ancestor_accepted g c a b nw peer rs cur :
  chain_rep (contents (gn_db g)) c -> c !! Z.to_nat a = Some b -> in_u64 a ->
  rs_cursors rs !! cursor_key peer rs = Some cur -> (forall cs, save_error cs = None) ->
  exists rs', accept_common_ancestor nw peer None a (hash_of b) (Full g, rs) = (Ok (cursor_key peer rs), (Full g, rs')) /\
    rs_cursors rs' !! cursor_key peer rs = Some (join_ancestor nw a (hash_of b) cur).
Proof using HR.
  intros Hc Hb Ha Hcur Hsave. unfold accept_common_ancestor.
  assert (any_res (node_block_by_number (Full g) a) = Ok b) as E.
  { cbn [node_block_by_number of_full]. by rewrite (proj2 (header_by_number_rep _ _ a Hc Ha)), Hb. }
  unfold read_node, read_jobs, on_node, on_jobs, st_bind, st_read, st_res, st_ret. rewrite E, bool_decide_true by done. cbn [negb].
  rewrite Hcur. cbn [ok_or update_cursor modify]. unfold persist_branch_sync_cursors. rewrite Hsave.
  eexists. split; [done|]. cbn. by rewrite lookup_alter_eq, Hcur.
Qed.

(** What the locator lists: blocks of its own branch, then a common one. *)
Lemma fork_listed :
  let tip := Z.of_nat (length ca) - 1 in
  let fork := Z.of_nat (length common) - 1 in
  exists pre b post a,
    recovery_locator (Full ga) = Ok (map entry (pre ++ b :: post)) /\ (length (map entry (pre ++ b :: post)) <= 74)%nat /\
    0 <= a <= fork /\ fork - a <= tip - fork /\ common !! Z.to_nat a = Some b /\ (forall x, x ∈ pre -> x ∈ sa).
Proof using HR OP Hca Hcb Hpool Hdistinct Hroot.
  intros tip fork.
  assert (0 <= fork <= tip) as Hft by (unfold fork, tip; rewrite length_app; destruct common; [done|cbn; lia]).
  destruct (recovery_locator_exact ga ca tip Hca) as (k & Hk & Hoff & _ & Hrun & Hcover).
  { destruct (last ca) as [b|] eqn:E; [|apply last_None in E; by destruct common].
    apply last_Some in E as [l El]. cbn. f_equal. rewrite (block_numbers_lookup ca (length l) b); [|apply Hca|].
    - unfold tip. rewrite El, length_app. cbn. lia.
    - rewrite El. by apply lookup_snoc_Some; right. }
  destruct (Hcover fork Hft) as (h0 & Hin0 & Hh0 & Hd0).
  destruct (first_below _ fork h0 (heights_descend tip k Hoff) Hin0 ltac:(lia)) as (pre & a & post & Ehs & Hpre & Ha & Hha).
  assert (forall x, x ∈ heights tip 0 k -> exists b, ca !! Z.to_nat x = Some b) as Hall.
  { intros x Hx. apply lookup_lt_is_Some_2. apply heights_range in Hx; [|lia|done]. unfold tip in Hx. lia. }
  rewrite Ehs in Hall. destruct (listed_blocks ca pre) as (bpre & Epre & Fpre); [intros x Hx; apply Hall, elem_of_app; by left|].
  destruct (listed_blocks ca post) as (bpost & Epost & _); [intros x Hx; apply Hall, elem_of_app; right; by right|].
  destruct (lookup_lt_is_Some_2 common (Z.to_nat a)) as [b Hb]; [unfold fork in Ha; lia|].
  assert (ca !! Z.to_nat a = Some b) as Hba by (by apply lookup_app_l_Some).
  exists bpre, b, bpost, a.
  assert (map (fun h => default [] (entry <$> ca !! Z.to_nat h)) (heights tip 0 k) = map entry (bpre ++ b :: bpost)) as Eloc.
  { rewrite Ehs, !map_app. cbn [map]. by rewrite Epre, Epost, Hba. }
  rewrite Hrun, <- Eloc. split; [done|]. split; [|split; [lia|split; [lia|split; [done|]]]].
  - unfold heights. rewrite length_map, length_app, length_map, length_seq. cbn. lia.
  - intros x Hx. apply list_elem_of_lookup in Hx as [i Hi]. destruct (Forall2_lookup_r _ _ _ _ _ Fpre Hi) as (y & Hy & Hxy).
    rewrite List.Forall_forall in Hpre. specialize (Hpre y). rewrite <- list_elem_of_In in Hpre.
    specialize (Hpre ltac:(by eapply list_elem_of_lookup_2)).
    rewrite lookup_app_r in Hxy by (unfold fork in Hpre; lia). by eapply list_elem_of_lookup_2.
Qed.

(** The answer of the handler to a locator. *)
Lemma locator_served pre b post h hd :
  (length (map entry (pre ++ b :: post)) <= 74)%nat -> hd_storage hd = Full gb ->
  (forall x, x ∈ pre -> is_ok (node_header_by_hash (Full gb) (hash_of x)) = false) ->
  node_header_by_hash (Full gb) (hash_of b) = Ok h ->
  handle (FindCommonAncestor (map entry (pre ++ b :: post))) hd =
    (Ok tt, hd <|hd_sent := hd_sent hd ++ [CommonAncestor (Some (hdr_number h)) (Some (hash_to_hex (hash_of b)))]|>).
Proof using OP.
  intros Hlen Hst Hpre Hb. unfold handle_p2p_message_from.
  destruct (Nat.ltb_spec MAX_P2P_HEADERS (length (map entry (pre ++ b :: post)))) as [Hx|_]; [unfold MAX_P2P_HEADERS in Hx; lia|].
  unfold hd_read. erewrite st_bind_read; [|done]. cbn beta.
  rewrite Hst, (locate_first (Full gb) pre b post Hpre h Hb). apply send_open.
Qed.

(** C15: a node on another branch finds the fork.  Its locator, answered by the
    handler of a peer that shares the first blocks and knows none of its own
    ones, comes back with a block both have, at most twice as deep below its
    tip as the fork is.  The node accepts it and expects the block above it;
    the peer then answers a range request with exactly its blocks from there
    on, up to 128.  The locator has at most 74 entries, so the peer never
    refuses it, and neither request changes anything in the peer. *)
Theorem fork_located :
  (forall b, b ∈ sa -> (hash_of b ∉ map (fun b => hash_of b) cb) /\ cp_blocks pool !! hash_of b = None) ->
  let tip := Z.of_nat (length ca) - 1 in
  let fork := Z.of_nat (length common) - 1 in
  exists locator a b,
    recovery_locator (Full ga) = Ok locator /\ (length locator <= 74)%nat /\
    0 <= a <= fork /\ fork - a <= tip - fork /\ common !! Z.to_nat a = Some b /\
    (forall h, hd_storage h = Full gb ->
       handle (FindCommonAncestor locator) h =
         (Ok tt, h <|hd_sent := hd_sent h ++ [CommonAncestor (Some a) (Some (hash_to_hex (hash_of b)))]|>) /\
       handle (GetBlockRange (a + 1) 128) h =
         (Ok tt, h <|hd_sent := hd_sent h ++ map BlockBody (take 128 (drop (Z.to_nat (a + 1)) cb))|>)) /\
    (forall nw peer rs c,
       rs_cursors rs !! cursor_key peer rs = Some c -> (forall cs, save_error cs = None) ->
       exists rs', accept_common_ancestor nw peer None a (hash_of b) (Full ga, rs) =
           (Ok (cursor_key peer rs), (Full ga, rs')) /\
         rs_cursors rs' !! cursor_key peer rs = Some (join_ancestor nw a (hash_of b) c)).
Proof using HR OP Hca Hcb Hpool Hdistinct Hroot.
  intros Hown tip fork. destruct fork_listed as (pre & b & post & a & Hrun & Hlen & Ha & Hd & Hb & Hpre).
  exists (map entry (pre ++ b :: post)), a, b. split; [done|]. split; [done|]. split; [done|]. split; [done|]. split; [done|].
  pose proof (cr_fits _ _ Hca) as Hfit. unfold list_fits in Hfit. rewrite length_app in Hfit. unfold fork in Ha.
  destruct (known_common _ _ Hb) as [Hknown Hnum]. rewrite Z2Nat.id in Hnum by lia. split.
  - intros h Hh. rewrite <- Hnum at 1. split.
    + apply locator_served; [done..| |done].
      intros x Hx%Hpre%Hown. by rewrite unknown_own by apply Hx.
    + apply (range_served gb cb); [done|unfold in_u64; lia|done|lia].
  - intros nw peer rs c Hc Hsave. apply (ancestor_accepted ga ca); [done|by apply lookup_app_l_Some|unfold in_u64; lia|done|done].
Qed.

(** The locator starts at the tip. *)
Lemma locator_tip bt :
  last ca = Some bt -> exists post, recovery_locator (Full ga) = Ok (map entry (bt :: post)) /\
    (length (map entry (bt :: post)) <= 74)%nat.
Proof using HR Hca.
  intros Hl. pose proof (last_lookup ca) as E. rewrite Hl in E. symmetry in E.
  pose proof (block_numbers_lookup ca _ _ (cr_numbers _ _ Hca) E) as Hn.
  destruct (recovery_locator_exact ga ca (block_number bt) Hca) as (k & Hk & Hoff & Hend & Hrun & _); [by rewrite Hl|].
  destruct (listed_blocks ca (heights (block_number bt) 0 k)) as (bs & Ebs & Fbs).
  { intros x Hx. apply lookup_lt_is_Some_2. apply lookup_lt_Some in E. apply heights_range in Hx; [lia|lia|done]. }
  rewrite Hrun, Ebs. assert (length bs = k + 1)%nat as Hlen.
  { rewrite <- (Forall2_length _ _ _ Fbs). unfold heights. rewrite length_app, length_map, length_seq. done. }
  destruct (heights_head (block_number bt) k) as [hs Ehs]; [lia|done|]. rewrite Ehs in Fbs.
  inversion Fbs as [|x b hs' bs' Hx Fbs' E1 E2]. subst. exists bs'. split; [|rewrite length_map; cbn [length] in *; lia].
  rewrite Hn, Nat2Z.id in Hx. congruence.
Qed.

(** C40: the search of the fork can come back with a block that is no common
    one.  A peer answers a locator from its candidates too: when it holds the
    tip of the asking node as a candidate but follows another, higher chain, it
    names that tip as the common block.  The asking node accepts it, since the
    block is on its own chain, and then refuses the first body the peer sends,
    whose parent is another block. *)
Theorem candidate_ancestor_misleads bt w :
  last ca = Some bt -> cp_blocks pool !! hash_of bt = Some (bt, w) ->
  hash_of bt ∉ map (fun b => hash_of b) cb ->
  (forall i x y, cb !! i = Some x -> cb !! Datatypes.S i = Some y -> hdr_parent_hash (blk_header y) = hash_of x) ->
  (length ca < length cb)%nat ->
  let tip := Z.of_nat (length ca) - 1 in
  exists locator next,
    recovery_locator (Full ga) = Ok locator /\ cb !! length ca = Some next /\
    (forall h, hd_storage h = Full gb ->
       handle (FindCommonAncestor locator) h =
         (Ok tt, h <|hd_sent := hd_sent h ++ [CommonAncestor (Some tip) (Some (hash_to_hex (hash_of bt)))]|>) /\
       exists rest, handle (GetBlockRange (tip + 1) 128) h =
         (Ok tt, h <|hd_sent := hd_sent h ++ BlockBody next :: rest|>)) /\
    (forall nw peer rs c,
       rs_cursors rs !! cursor_key peer rs = Some c -> (forall cs, save_error cs = None) ->
       exists rs', accept_common_ancestor nw peer None tip (hash_of bt) (Full ga, rs) =
           (Ok (cursor_key peer rs), (Full ga, rs')) /\
         rs_cursors rs' !! cursor_key peer rs = Some (join_ancestor nw tip (hash_of bt) c)) /\
    (forall nw tip_hash n, is_ok (import_recovery_block config nw tip_hash (tip + 1) (hash_of bt) next n).1 = false).
Proof using HR OP Hca Hcb Hpool Hdistinct Hroot.
  intros Hl Hcand Hno Hlinked Hlen tip. destruct (locator_tip bt Hl) as (post & Hrun & Hmax).
  pose proof (last_lookup ca) as E. rewrite Hl in E. symmetry in E.
  pose proof (block_numbers_lookup ca _ _ (cr_numbers _ _ Hca) E) as Hn.
  assert (0 < length ca)%nat as Hpos by (apply lookup_lt_Some in E; lia).
  pose proof (cr_fits _ _ Hca) as Hfit. unfold list_fits in Hfit. pose proof (cr_fits _ _ Hcb) as Hfb. unfold list_fits in Hfb.
  destruct (lookup_lt_is_Some_2 cb (length ca) Hlen) as [next Hnext].
  destruct (lookup_lt_is_Some_2 cb (pred (length ca))) as [below Hbelow]; [lia|].
  exists (map entry (bt :: post)), next. split; [done|]. split; [done|]. split; [|split].
  - intros h Hh. split.
    + replace tip with (hdr_number (blk_header bt)) by (unfold block_number in Hn; unfold tip; lia).
      apply (locator_served [] bt post); [done|done|by intros x ?%not_elem_of_nil|].
      cbn [node_header_by_hash of_full]. destruct (header_by_hash_rep _ _ _ (hash_of bt) Hcb Hpool) as [(b' & Hin & Eh & _)|[_ Hr]].
      * destruct Hno. apply list_elem_of_fmap. by exists b'.
      * by rewrite Hr, Hcand.
    + replace (tip + 1) with (Z.of_nat (length ca)) by (unfold tip; lia).
      rewrite (range_served gb cb) by (done || (unfold in_u64; lia) || lia). rewrite Nat2Z.id, (drop_S cb next) by done. by eexists.
  - intros nw peer rs c Hc Hsave. apply (ancestor_accepted ga ca); [done| |unfold in_u64, tip; lia|done|done].
    rewrite <- E. f_equal. unfold tip. lia.
  - intros nw tip_hash n. unfold import_recovery_block.
    assert (hdr_parent_hash (blk_header next) <> hash_of bt) as Hp.
    { replace (length ca) with (Datatypes.S (pred (length ca))) in Hnext by lia.
      rewrite (Hlinked _ _ _ Hbelow Hnext). intros Ex. apply Hno. apply list_elem_of_fmap. exists below.
      split; [done|]. by eapply list_elem_of_lookup_2. }
    unfold st_bind, st_res. destruct (validate_live_timestamp_admission _ _); [|done|done].
    destruct (validate_block_transaction_auth _ _); [|done|done].
    destruct (negb _); [done|]. by rewrite bool_decide_false.
Qed.
End fork.

(** ** An example: one block of its own above the genesis, two of the peer *)

Definition fork_block (number nonce : Z) (parent : Hash256) : Block :=
  let h := numbered_sample number in empty_block {|
    hdr_parent_hash := parent; hdr_number := number; hdr_state_root := hdr_state_root h;
    hdr_transactions_root := hdr_transactions_root h; hdr_receipts_root := hdr_receipts_root h;
    hdr_beneficiary := hdr_beneficiary h; hdr_difficulty_target := hdr_difficulty_target h;
    hdr_base_fee_per_gas := hdr_base_fee_per_gas h; hdr_gas_limit := hdr_gas_limit h;
    hdr_gas_used := hdr_gas_used h; hdr_timestamp_seconds := hdr_timestamp_seconds h;
    hdr_pow_algorithm := hdr_pow_algorithm h; hdr_pow_epoch := hdr_pow_epoch h;
    hdr_extra_nonce := hdr_extra_nonce h; hdr_mix_hash := hdr_mix_hash h; hdr_nonce := nonce |}.

Definition shared_block : Block := fork_block 0 10 HASH_ZERO.
Definition shared_hash : Hash256 := Eval vm_compute in @header_hash toy_digests (blk_header shared_block).
Definition own_block : Block := fork_block 1 11 shared_hash.
Definition peer_block : Block := fork_block 1 12 shared_hash.
Definition peer_hash : Hash256 := Eval vm_compute in @header_hash toy_digests (blk_header peer_block).
Definition peer_tip : Block := fork_block 2 13 peer_hash.

Definition fork_jb : Json Block := table_json [shared_block; own_block; peer_block; peer_tip].
Definition fork_jh : Json BlockHeader := table_json (map blk_header [shared_block; own_block; peer_block; peer_tip]).
Definition open_stream : PeerStream := {| send_error := fun _ _ => None |}.
Lemma open_stream_open : @StreamOpen open_stream.
Proof. done. Qed.

Definition no_addresses : SocketAddrs := {| socket_addr := fun _ => false |}.

Definition fork_saves : CursorIo := {| save_error _ := None |}.

Section witness.
#[local] Existing Instances mem_sled hex_codec toy_digests mem_files mem_snapshots fork_saves mem_sled_reliable.
#[local] Existing Instances u256_z toy_secp toy_randomx native_profile fork_host fork_jx fork_jg fork_revm toy_keys.
#[local] Existing Instances fork_jb fork_jh open_stream no_addresses.
#[local] Existing Instances SampleCodecs.JT SampleCodecs.JR SampleCodecs.JE SampleCodecs.JM SampleCodecs.JC SampleCodecs.JP SampleCodecs.JS SampleCodecs.CM.

Definition chain_store (blocks : list Block) : @SledStorage mem_sled :=
  (st_for blocks insert_block {| ss_db := (∅ : @sled_db mem_sled); ss_defer_flush := false |}).2.

Definition generation_with (db : @SledStorage mem_sled) : Generation := {| gn_db := db; gn_files := fun _ => None |}.

Lemma chain_store_rep blocks :
  Forall storable blocks -> numbered_from block_number 0 blocks -> list_fits blocks ->
  chain_rep (contents (chain_store blocks)) blocks.
Proof.
  intros Hs Hn Hf. unfold chain_store. set (s := {| ss_db := (∅ : @sled_db mem_sled); ss_defer_flush := false |}).
  destruct (insert_blocks_succeed (HRel := mem_sled_reliable) blocks s Hs) as ([] & s' & Hrun). rewrite Hrun.
  apply (insert_blocks_rep blocks [] s s'); [by apply chain_rep_empty|done..].
Qed.

Lemma candidate_rep_none (m : Contents) :
  forallb (fun kv => negb (has_prefix (B "candidate:") kv.1)) (map_to_list m) = true ->
  candidate_rep m {| cp_blocks := ∅; cp_quarantined := ∅ |}.
Proof.
  intros H. apply candidate_rep_empty. rewrite forallb_forall in H.
  intros k Hk. destruct (m !! k) as [v|] eqn:E; [|done]. exfalso. apply elem_of_map_to_list in E.
  apply list_elem_of_In, H in E. cbn [fst] in E. by rewrite Hk in E.
Qed.

Definition own_chain : @SledStorage mem_sled := Eval vm_compute in chain_store [shared_block; own_block].
Definition peer_chain : @SledStorage mem_sled := Eval vm_compute in chain_store [shared_block; peer_block; peer_tip].

Definition fork_handler (g : Generation) : Handler := {|
  hd_sent := []; hd_storage := Full g; hd_mempool := mempool_default; hd_routes := ∅;
  hd_transaction_queue := None; hd_block_queue := None; hd_transactions_received := 0; hd_recovery_started := false |}.

Definition ask_peer (g : Generation) (m : P2pMessage) : res string unit * Handler :=
  handle_p2p_message_from fork_config {| nw_enabled := false; nw_trusted_peer_keys := [] |} 0 (fun _ n => n) None
    (Err "isolated"%string) (Ok tt) None m None None (fork_handler g).

Lemma own_chain_rep : chain_rep (contents own_chain) [shared_block; own_block].
Proof.
  change own_chain with (chain_store [shared_block; own_block]). apply chain_store_rep.
  - repeat (apply List.Forall_cons; [by vm_compute|]). apply List.Forall_nil.
  - by intros [|[|i]] b H; [injection H as <-..|destruct i].
  - by vm_compute.
Qed.

Lemma peer_chain_rep : chain_rep (contents peer_chain) [shared_block; peer_block; peer_tip].
Proof.
  change peer_chain with (chain_store [shared_block; peer_block; peer_tip]). apply chain_store_rep.
  - repeat (apply List.Forall_cons; [by vm_compute|]). apply List.Forall_nil.
  - by intros [|[|[|i]]] b H; [injection H as <-..|destruct i].
  - by vm_compute.
Qed.

Lemma peer_hashes_distinct :
  NoDup (map (fun b => header_hash (blk_header b)) [shared_block; peer_block; peer_tip]).
Proof. apply (bool_decide_unpack (NoDup _)). vm_compute. done. Qed.

Lemma own_hash_foreign :
  header_hash (blk_header own_block) ∉ map (fun b => header_hash (blk_header b)) [shared_block; peer_block; peer_tip].
Proof. apply (bool_decide_unpack (_ ∉ _)). vm_compute. done. Qed.

Lemma fork_located_witness :
  exists locator, recovery_locator (Full (generation_with own_chain)) = Ok locator /\
    hd_sent (ask_peer (generation_with peer_chain) (FindCommonAncestor locator)).2 =
      [CommonAncestor (Some 0) (Some (hash_to_hex shared_hash))] /\
    hd_sent (ask_peer (generation_with peer_chain) (GetBlockRange 1 128)).2 = [BlockBody peer_block; BlockBody peer_tip].
Proof.
  destruct (fork_located (OP := open_stream_open) (HR := @reliable_reads _ mem_sled_reliable) fork_config {| nw_enabled := false; nw_trusted_peer_keys := [] |} 0 (fun _ n => n) None
    (Err "isolated"%string) (Ok tt) None None None (generation_with own_chain) (generation_with peer_chain)
    [shared_block] [own_block] [peer_block; peer_tip] {| cp_blocks := ∅; cp_quarantined := ∅ |})
    as (locator & a & b & Hl & _ & Ha & _ & Hb & Hserve & _).
  - exact own_chain_rep.
  - exact peer_chain_rep.
  - apply candidate_rep_none. vm_compute. reflexivity.
  - exact peer_hashes_distinct.
  - discriminate.
  - intros b ->%list_elem_of_singleton. split; [exact own_hash_foreign|reflexivity].
  - exists locator. split; [exact Hl|]. cbn [length Z.of_nat] in Ha. assert (a = 0) as -> by lia.
    injection Hb as <-. destruct (Hserve (fork_handler (generation_with peer_chain)) eq_refl) as [H1 H2].
    unfold ask_peer. rewrite H1. split; [reflexivity|]. change 1 with (0 + 1). rewrite H2. reflexivity.
Defined.

(** The peer with the other node's tip among its candidates. *)
Definition own_hash : Hash256 := header_hash (blk_header own_block).
Definition candidate_store : @SledStorage mem_sled := {|
  ss_db := <[candidate_work_key own_hash := be_bytes 16 5]>
             (<[candidate_block_key own_hash := match to_vec own_block with Ok v => v | _ => [] end]> (ss_db peer_chain));
  ss_defer_flush := false |}.

Lemma candidate_store_rep :
  chain_rep (contents candidate_store) [shared_block; peer_block; peer_tip] /\
  candidate_rep (contents candidate_store)
    {| cp_blocks := {[own_hash := (own_block, 5)]}; cp_quarantined := ∅ |}.
Proof.
  split.
  - apply (chain_rep_other (contents peer_chain)); [exact peer_chain_rep|]. intros k Hk.
    change (contents candidate_store) with (<[candidate_work_key own_hash := be_bytes 16 5]>
      (<[candidate_block_key own_hash := match to_vec own_block with Ok v => v | _ => [] end]> (contents peer_chain))).
    rewrite !lookup_insert_ne; [done|intros <-; by vm_compute in Hk..].
  - refine (candidate_rep_store (contents peer_chain) {| cp_blocks := ∅; cp_quarantined := ∅ |} own_block 5 _ _ _ _).
    + apply candidate_rep_none. vm_compute. reflexivity.
    + vm_compute. reflexivity.
    + split; vm_compute; discriminate.
Qed.

Lemma candidate_ancestor_misleads_witness :
  exists locator, recovery_locator (Full (generation_with own_chain)) = Ok locator /\
    hd_sent (ask_peer (generation_with candidate_store) (FindCommonAncestor locator)).2 =
      [CommonAncestor (Some 1) (Some (hash_to_hex own_hash))] /\
    is_ok (import_recovery_block fork_config None own_hash 2 own_hash peer_tip (Full (generation_with own_chain))).1 = false.
Proof.
  destruct candidate_store_rep as [Hc Hp].
  destruct (candidate_ancestor_misleads (OP := open_stream_open) (HR := @reliable_reads _ mem_sled_reliable) fork_config
    {| nw_enabled := false; nw_trusted_peer_keys := [] |} 0 (fun _ n => n) None
    (Err "isolated"%string) (Ok tt) None None None (generation_with own_chain) (generation_with candidate_store)
    [shared_block] [own_block] [peer_block; peer_tip] {| cp_blocks := {[own_hash := (own_block, 5)]}; cp_quarantined := ∅ |})
    with (bt := own_block) (w := 5) as (locator & next & Hl & Hn & Hserve & _ & Himp).
  - exact own_chain_rep.
  - exact Hc.
  - exact Hp.
  - exact peer_hashes_distinct.
  - discriminate.
  - reflexivity.
  - apply lookup_singleton_eq.
  - exact own_hash_foreign.
  - intros [|[|[|i]]] x y Hx Hy; [injection Hx as <-; injection Hy as <-; vm_compute; reflexivity..|discriminate|discriminate].
  - cbn. lia.
  - exists locator. split; [exact Hl|]. injection Hn as <-.
    destruct (Hserve (fork_handler (generation_with candidate_store)) eq_refl) as [H1 _].
    unfold ask_peer. rewrite H1. split; [reflexivity|]. apply (Himp None own_hash).
Defined.
End witness.
