(* ===== verification/Session.v ===== *)
(** An inbound session ([crates/blq-node/src/main.rs],
    [handle_p2p_connection]): the limits of a connection, the handshake, the
    handler of each message, and the score of the peer; with the tips the peers
    report ([PeerAgreement]) and the routes a node passes on.

    A line of the peer comes with the readings of the clock and the arguments
    the handler takes while it is handled.  A reading of the socket that ends
    the session is the end of the list of lines. *)

From Stdlib Require Import ZArith Lia Strings.String Strings.Byte.
From stdpp Require Import sorting gmap fin_maps base list.
From S2P Require Import Prelude Externals Primitives Canonical Rlp RawTx Pow Consensus State StateRoot.
From S2P Require Import Transition Evm Difficulty BlockExec Mempool Admission Replay Network.
From S2P Require Import Sled AccountStore BlockStore Generation Publish CandidateStore NodeStore Snapshots Branch.
From S2P Require Import Miner Import Fork Cursor Recovery Sync Wire Serve Ancestor.
#[local] Open Scope Z_scope.

Definition MAX_P2P_MESSAGES_PER_CONNECTION : Z := 1024.
Definition MAX_P2P_BODY_REQUESTS_PER_CONNECTION : Z := 256.
Definition PEER_TIP_TTL_SECONDS : Z := 90.

(** ** The tips peers report *)

Record PeerTip := {
  pt_best_number : Z;
  pt_best_hash : list byte;
  pt_consensus_profile : list byte;
  pt_last_seen : Z;
  pt_body_verified : bool;
}.

(** [PeerAgreement]: the tips by identity key. *)
Abbreviation PeerAgreement := (gmap (list byte) PeerTip) (only parsing).

Definition record_peer_tip (now : Z) (identity_public_key : list byte) (best_number : Z)
    (best_hash profile : list byte) (tips : PeerAgreement) : PeerAgreement :=
  <[identity_public_key := {| pt_best_number := best_number; pt_best_hash := best_hash;
      pt_consensus_profile := profile; pt_last_seen := now; pt_body_verified := true |}]> tips.

Definition set_verified (verified : bool) (tip : PeerTip) : PeerTip := {|
  pt_best_number := pt_best_number tip; pt_best_hash := pt_best_hash tip;
  pt_consensus_profile := pt_consensus_profile tip; pt_last_seen := pt_last_seen tip;
  pt_body_verified := verified |}.

Definition record_provisional_peer_tip (now : Z) (identity_public_key : list byte) (best_number : Z)
    (best_hash profile : list byte) (tips : PeerAgreement) : PeerAgreement :=
  alter (set_verified false) identity_public_key
    (record_peer_tip now identity_public_key best_number best_hash profile tips).

Definition mark_peer_body_verified (now : Z) (identity_public_key : list byte) (tips : PeerAgreement) : PeerAgreement :=
  alter (fun tip => {|
    pt_best_number := pt_best_number tip; pt_best_hash := pt_best_hash tip;
    pt_consensus_profile := pt_consensus_profile tip; pt_last_seen := now; pt_body_verified := true |})
    identity_public_key tips.

Definition record_verified_peer_tip (now : Z) (message : P2pMessage) (tips : PeerAgreement) : PeerAgreement :=
  match message with
  | Hello _ best_number best_hash consensus_profile identity_public_key _ _ =>
      record_provisional_peer_tip now identity_public_key best_number best_hash consensus_profile tips
  | _ => tips
  end.

Section agreement.
Context {HX : HexCodec} {D : Digests} {BP : BuildProfile}.

(** Whether mining is safe, the reports that count, and how many name the local
    tip. *)
Definition trusted_peer_quorum (trusted : list (list byte)) (rc : ReplayConfig) (now : Z) (local : BlockHeader)
    (genesis_hash : Hash256) (tips : PeerAgreement) : bool * nat * nat :=
  if bool_decide (trusted = []) then (true, 0%nat, 0%nat)
  else
    let profile := network_consensus_profile rc genesis_hash in
    let reports := List.filter (fun tip => pt_body_verified tip && (sat_sub now (pt_last_seen tip) <=? PEER_TIP_TTL_SECONDS))
                     (omap (fun key => tips !! key) trusted) in
    let matching := List.filter (fun tip => (pt_best_number tip =? hdr_number local)
                      && bool_decide (pt_best_hash tip = hash_to_hex (header_hash local))
                      && bool_decide (pt_consensus_profile tip = profile)) reports in
    (true, length reports, length matching).

(** The status of one trusted key, with the height and hash it reported. *)
Definition trusted_peer_status_of (rc : ReplayConfig) (now : Z) (local : BlockHeader) (genesis_hash : Hash256)
    (tips : PeerAgreement) (key : list byte) : list byte * option (Z * list byte) :=
  match tips !! key with
  | None => (B "offline", None)
  | Some tip =>
      (if PEER_TIP_TTL_SECONDS <? sat_sub now (pt_last_seen tip) then B "offline"
       else if negb (bool_decide (pt_consensus_profile tip = network_consensus_profile rc genesis_hash)) then B "incompatible"
       else if negb (pt_body_verified tip) then B "body-unavailable"
       else if pt_best_number tip <? hdr_number local then B "lagging"
       else if (pt_best_number tip =? hdr_number local) && bool_decide (pt_best_hash tip = hash_to_hex (header_hash local))
       then B "matching"
       else B "conflicting",
       Some (pt_best_number tip, pt_best_hash tip))
  end.
End agreement.

(** ** The routes a node passes on *)

(** [dedup_by]: an element equal to the last one kept is dropped. *)
Fixpoint dedup_from {A} (same : A -> A -> bool) (last : A) (l : list A) : list A :=
  match l with
  | [] => []
  | x :: l => if same x last then dedup_from same last l else x :: dedup_from same x l
  end.
Definition dedup_by {A} (same : A -> A -> bool) (l : list A) : list A :=
  match l with [] => [] | x :: l => x :: dedup_from same x l end.

Definition same_identity (left right : PeerRecord) : bool :=
  negb (bool_decide (pr_identity_public_key left = None))
  && bool_decide (pr_identity_public_key left = pr_identity_public_key right).

(** [discovered]: the answers of the discovery servers. *)
Definition peer_exchange_records {HX : HexCodec} {SA : SocketAddrs} (discovered : list PeerRecord) (now : Z)
    (routes : gmap (list byte) PeerRecord) : list PeerRecord :=
  take 32 (dedup_by same_identity
    (sort_by (fun a b => bytes_compare (pr_address a) (pr_address b))
       (List.filter (fun peer => is_ok (validate_peer_record peer) && peer_route_is_fresh now peer)
          (discovered ++ map snd (btree_iter routes))))).

(** ** The session *)

Section session.
Context {S : Sled} {HX : HexCodec} {D : Digests} {U : U256Ops} {R : Revm} {SE : Secp} {RX : RandomX} {BP : BuildProfile}.
Context {JB : Json Block} {JH : Json BlockHeader} {JT : Json Transaction} {JR : Json StoredReceipt}.
Context {JE : Json (list SerializedEvmSnapshotEntry)}.
Context {IO : FileIo} {JM : Json GenerationManifest} {JC : Json ReplayCheckpoint}.
Context {JP : Json GenerationPublicationRecord} {JS : Json SuffixPublicationRecord} {CM : CompactManifest}.
Context {SI : SnapshotIo} {JX : Json ExecutionSnapshot} {JG : Json GenerationSnapshot} {HO : Host}.
Context {PK : PeerKeys} {SA : SocketAddrs} {PS : PeerStream}.

(** A line as it was parsed, whether the time of the session is over, and what
    its handling reads. *)
Record Line := {
  ln_message : res string P2pMessage;
  ln_expired : bool;
  ln_now : Z;
  ln_pool_now : Z;
  ln_others : Others;
  ln_dir : option SnapshotDir;
  ln_isolated : res string Generation;
  ln_cleanup : res string unit;
  ln_admission_now : option Z;
  ln_discovered : list PeerRecord;
  ln_durable : bool;
}.

(** [se_handled] is a ghost: the messages given to the handler so far.  The code
    keeps no such list, and nothing here reads it. *)
Record Session := {
  se_messages_seen : Z;
  se_transactions_seen : Z;
  se_body_requests_seen : Z;
  se_handshake_complete : bool;
  se_identity : option Hash256;
  se_handler : Handler;
  se_scores : PeerScoreBook;
  se_tips : PeerAgreement;
  se_handled : list P2pMessage;
}.

#[global] Instance session_fields : Fields Session := fun s => {|
  se_messages_seen := se_messages_seen s; se_transactions_seen := se_transactions_seen s;
  se_body_requests_seen := se_body_requests_seen s; se_handshake_complete := se_handshake_complete s;
  se_identity := se_identity s; se_handler := se_handler s; se_scores := se_scores s; se_tips := se_tips s;
  se_handled := se_handled s |}.

Definition new_session (h : Handler) (scores : PeerScoreBook) (tips : PeerAgreement) : Session := {|
  se_messages_seen := 0; se_transactions_seen := 0; se_body_requests_seen := 0; se_handshake_complete := false;
  se_identity := None; se_handler := h; se_scores := scores; se_tips := tips; se_handled := [] |}.

Inductive Outcome := Continue | Closed | Failed (error : string) | Crashed.

Definition is_new_transaction (m : P2pMessage) : bool := match m with NewTransaction _ => true | _ => false end.
Definition is_get_headers (m : P2pMessage) : bool := match m with GetHeaders _ _ => true | _ => false end.
Definition is_body_request (m : P2pMessage) : bool :=
  match m with GetBlock _ | GetBlockRange _ _ | GetBlockByHash _ | GetTransaction _ => true | _ => false end.
Definition is_transaction_gossip (m : P2pMessage) : bool :=
  match m with NewTransaction _ | NewTransactionHashes _ | GetTransactions _ | Transactions _ => true | _ => false end.

Definition USIZE_MAX : Z := U64_MAX.

(** The banned identity of the session, if it has one. *)
Definition identity_banned (now : Z) (s : Session) : bool :=
  match se_identity s with Some peer => is_banned (se_scores s) peer now | None => false end.

Section peer.
Variables (config : NodeConfig) (network : NetworkConfig) (peer_address : list byte).
Variable expected_tls_certificate_hash : option (list byte).

(** The peer a score goes to. *)
Definition scored_peer (s : Session) : Hash256 :=
  default (from_advertised_address peer_address) (se_identity s).

Definition penalize_session (now penalty : Z) (s : Session) : Session :=
  s <|se_scores := penalize (se_scores s) (scored_peer s) penalty now now|>.

(** A counter with its limit. *)
Definition count_up (counts : bool) (limit : Z) (get : Session -> Z) (set : Z -> Session -> Session) (error : string)
    : StM string Session unit := fun s =>
  if negb counts then (Ok tt, s)
  else
    let n := sat_add USIZE_MAX (get s) 1 in
    (if limit <? n then Err error else Ok tt, set n s).

Definition note_identity (message : P2pMessage) (s : Session) : Session :=
  match message with
  | Hello _ _ _ _ identity_public_key _ _ => s <|se_identity := Some (from_identity_public_key identity_public_key)|>
  | _ => s
  end.

(** The checks before a message reaches the handler. *)
Definition session_gate (now : Z) (message : P2pMessage) : StM string Session unit :=
  count_up (is_new_transaction message) 256 se_transactions_seen (fun n s => s <|se_transactions_seen := n|>)
    "peer exceeded per-connection transaction gossip limit" ;!
  (fun s => (Ok tt, if is_get_headers message then s <|se_body_requests_seen := 0|> else s)) ;!
  count_up (is_body_request message) MAX_P2P_BODY_REQUESTS_PER_CONNECTION se_body_requests_seen
    (fun n s => s <|se_body_requests_seen := n|>) "peer exceeded per-connection body request limit" ;!
  (fun s => (Ok tt, note_identity message s)) ;!
  st_read (fun s => ensure (negb (negb (is_hello message) && identity_banned now s)) "peer identity is banned"%string) ;!
  do? complete := st_read (fun s => advance_p2p_handshake message (se_handshake_complete s)) in
  (fun s => (Ok tt, s <|se_handshake_complete := complete|>)).

Definition run_handler (line : Line) (message : P2pMessage) : Handle unit :=
  handle_p2p_message_from config network (ln_pool_now line) (ln_others line) (ln_dir line) (ln_isolated line)
    (ln_cleanup line) (ln_admission_now line) message expected_tls_certificate_hash (Some peer_address).

Definition on_handler {A} (m : Handle A) : StM string Session A := fun s =>
  let '(r, h) := m (se_handler s) in (r, s <|se_handler := h|>).

(** The call of the handler, with its note in the ghost. *)
Definition handle_line (line : Line) (message : P2pMessage) : StM string Session unit := fun s =>
  on_handler (run_handler line message) (s <|se_handled := se_handled s ++ [message]|>).

(** After a message was handled: the routes go to a new peer, its tip is asked
    for and noted, and its score rises. *)
Definition session_accept (line : Line) (message : P2pMessage) (s : Session) : Outcome * Session :=
  let now := ln_now line in
  let s :=
    if is_hello message
    then (on_handler (fun h => send_p2p_message
            (PeerExchange (peer_exchange_records (ln_discovered line) now (hd_routes h))) h) s).2
    else s in
  let s := (on_handler (reconcile_peer_tip (ln_durable line) message) s).2 in
  let s := s <|se_tips := record_verified_peer_tip now message (se_tips s)|> in
  if identity_banned now s then (Failed "peer identity is banned", s)
  else (Continue, s <|se_scores := observe_valid (se_scores s) (scored_peer s)|>).

(** After the handler failed. *)
Definition session_reject (now : Z) (message : P2pMessage) (error : string) (s : Session) : Outcome * Session :=
  let gossip := is_transaction_gossip message in
  if is_consensus_profile_mismatch error || should_defer_transaction_gossip gossip error then (Continue, s)
  else
    (Failed error, if should_penalize_p2p_error gossip error then penalize_session now 10 s else s).

Definition count_line (s : Session) : Session :=
  s <|se_messages_seen := sat_add USIZE_MAX (se_messages_seen s) 1|>.

(** One line of the peer. *)
Definition session_step (line : Line) (s : Session) : Outcome * Session :=
  if ln_expired line then (Closed, s)
  else
    let s := count_line s in
    if MAX_P2P_MESSAGES_PER_CONNECTION <? se_messages_seen s
    then (Failed "peer exceeded per-connection message limit", s)
    else
      match ln_message line with
      | Err e => (Failed e, penalize_session (ln_now line) 20 s)
      | Panic => (Crashed, s)
      | Ok message =>
          match session_gate (ln_now line) message s with
          | (Err e, s) => (Failed e, s)
          | (Panic, s) => (Crashed, s)
          | (Ok _, s) =>
              match handle_line line message s with
              | (Ok _, s) => session_accept line message s
              | (Err e, s) => session_reject (ln_now line) message e s
              | (Panic, s) => (Crashed, s)
              end
          end
      end.

Fixpoint session_run (lines : list Line) (s : Session) : Outcome * Session :=
  match lines with
  | [] => (Closed, s)
  | line :: lines =>
      match session_step line s with
      | (Continue, s) => session_run lines s
      | stop => stop
      end
  end.

(** ** What reaches the handler *)

(** The counters of a session. *)
Record counted (s : Session) (messages transactions bodies : Z) (handshake : bool) (trace : list P2pMessage) : Prop := {
  ct_messages : se_messages_seen s = messages;
  ct_transactions : se_transactions_seen s = transactions;
  ct_bodies : se_body_requests_seen s = bodies;
  ct_handshake : se_handshake_complete s = handshake;
  ct_trace : se_handled s = trace;
}.

Definition bodies_after (m : P2pMessage) (bodies : Z) : Z :=
  (if is_get_headers m then 0 else bodies) + Z.b2z (is_body_request m).

Lemma count_up_ok c limit get set e s u s' :
  count_up c limit get set e s = (Ok u, s') -> limit < USIZE_MAX ->
  (c = true -> get s < limit) /\ s' = if c then set (get s + 1) s else s.
Proof.
  unfold count_up, sat_add. destruct c; cbn [negb]; [|by intros [= _ <-]]. intros H Hl.
  destruct (Z.ltb_spec limit (Z.min (get s + 1) USIZE_MAX)); [done|]. injection H as _ <-.
  rewrite Z.min_l by lia. split; [lia|done].
Qed.

Lemma advance_ok m c c' : advance_p2p_handshake m c = Ok c' -> c = negb (is_hello m) /\ c' = true.
Proof. unfold advance_p2p_handshake. destruct (is_hello m), c; by intros [= <-]. Qed.

(** What passing the checks says. *)
Lemma gate_ok now m s u s' :
  session_gate now m s = (Ok u, s') ->
  let s1 := if is_new_transaction m then s <|se_transactions_seen := se_transactions_seen s + 1|> else s in
  let s2 := if is_get_headers m then s1 <|se_body_requests_seen := 0|> else s1 in
  let s3 := if is_body_request m then s2 <|se_body_requests_seen := se_body_requests_seen s2 + 1|> else s2 in
  (is_new_transaction m = true -> se_transactions_seen s < 256) /\
  (is_body_request m = true -> se_body_requests_seen s2 < 256) /\
  se_handshake_complete s3 = negb (is_hello m) /\
  s' = (note_identity m s3) <|se_handshake_complete := true|>.
Proof.
  unfold session_gate. intros H. apply st_bind_ok in H as ([] & s1 & H1 & H). apply st_bind_ok in H as ([] & s2 & H2 & H).
  apply st_bind_ok in H as ([] & s3 & H3 & H). apply st_bind_ok in H as ([] & s4 & H4 & H).
  apply st_bind_ok in H as ([] & s5 & H5 & H). apply st_bind_ok in H as (c & s6 & H6 & H).
  injection H2 as <-. injection H4 as <-. apply st_read_ok in H5 as [_ ->]. apply st_read_ok in H6 as [H6 ->].
  apply advance_ok in H6 as [Eh ->]. injection H as _ <-.
  apply count_up_ok in H1 as [Ht ->]; [|done]. apply count_up_ok in H3 as [Hb ->]; [|done].
  split; [done|]. split; [done|]. split; [|done]. rewrite <- Eh. by destruct m.
Qed.

Lemma gate_counted now m s u s' k t b hs l :
  session_gate now m s = (Ok u, s') -> counted s k t b hs l ->
  counted s' k (t + Z.b2z (is_new_transaction m)) (bodies_after m b) true l /\ hs = negb (is_hello m) /\
  (is_new_transaction m = true -> t < 256) /\ (is_body_request m = true -> bodies_after m b <= 256).
Proof.
  intros H [<- <- <- <- <-]. apply gate_ok in H as (Ht & Hb & Eh & ->). unfold bodies_after.
  destruct (is_new_transaction m), (is_get_headers m), (is_body_request m); cbn in Eh, Ht, Hb |- *;
    (split; [split; destruct m; cbn; rewrite ?Z.add_0_r; reflexivity|]); (split; [exact Eh|]);
    (split; [exact Ht|intros E; specialize (Hb E); lia]).
Qed.

(** Checks that fail do not touch the trace. *)
Lemma gate_handled now m s : se_handled (session_gate now m s).2 = se_handled s.
Proof.
  unfold session_gate, st_bind, count_up, st_read.
  repeat (case_match; simplify_eq/=; try done); by destruct m.
Qed.

(** Handling a message leaves the counters. *)
Lemma accept_counted line m s o s' k t b hs l :
  session_accept line m s = (o, s') -> counted s k t b hs l -> counted s' k t b hs l.
Proof.
  unfold session_accept. intros H Hc.
  assert (forall (A : Type) (f : Handle A) s, counted s k t b hs l -> counted (on_handler f s).2 k t b hs l) as Hon.
  { intros A f s0 [? ? ? ? ?]. unfold on_handler. destruct (f (se_handler s0)). by split. }
  assert (counted (if is_hello m then (on_handler (fun h => send_p2p_message
            (PeerExchange (peer_exchange_records (ln_discovered line) (ln_now line) (hd_routes h))) h) s).2 else s) k t b hs l) as H1
    by (destruct (is_hello m); [by apply Hon|done]).
  apply (Hon _ (reconcile_peer_tip (ln_durable line) m)) in H1. destruct H1 as [? ? ? ? ?].
  destruct (identity_banned _ _); injection H as _ <-; by split.
Qed.

Lemma reject_counted now m e s o s' k t b hs l :
  session_reject now m e s = (o, s') -> counted s k t b hs l -> counted s' k t b hs l.
Proof.
  unfold session_reject. intros H [? ? ? ? ?]. destruct (_ || _); [by injection H as _ <-|].
  destruct (should_penalize_p2p_error _ _); injection H as _ <-; by split.
Qed.

Lemma handle_counted line m s k t b hs l :
  counted s k t b hs l -> counted (handle_line line m s).2 k t b hs (l ++ [m]).
Proof. intros [? ? ? ? <-]. unfold handle_line, on_handler. destruct (run_handler line m _). by split. Qed.

Lemma count_line_ok s k t b hs l :
  (MAX_P2P_MESSAGES_PER_CONNECTION <? se_messages_seen (count_line s)) = false -> counted s k t b hs l ->
  k < 1024 /\ counted (count_line s) (k + 1) t b hs l.
Proof.
  intros H [<- <- <- <- <-]. apply Z.ltb_ge in H.
  assert (se_messages_seen (count_line s) = sat_add USIZE_MAX (se_messages_seen s) 1) as E by reflexivity.
  rewrite E in H. assert (MAX_P2P_MESSAGES_PER_CONNECTION < USIZE_MAX) as Hu by reflexivity.
  pose proof (sat_add_below USIZE_MAX (se_messages_seen s) 1 (Z.le_lt_trans _ _ _ H Hu)) as E1. rewrite E1 in E, H.
  split; [unfold MAX_P2P_MESSAGES_PER_CONNECTION in H; lia|]. split; [exact E|reflexivity..].
Qed.

(** A line ends the session without a call of the handler, or its message is
    handled. *)
Lemma step_traced line s o s' k t b hs l :
  session_step line s = (o, s') -> counted s k t b hs l ->
  (o <> Continue /\ se_handled s' = l) \/
  exists m, ln_message line = Ok m /\ se_handled s' = l ++ [m] /\
    k < 1024 /\ hs = negb (is_hello m) /\ (is_new_transaction m = true -> t < 256) /\
    (is_body_request m = true -> bodies_after m b <= 256) /\
    counted s' (k + 1) (t + Z.b2z (is_new_transaction m)) (bodies_after m b) true (l ++ [m]).
Proof.
  unfold session_step. intros H Hc. destruct (ln_expired line); [injection H as <- <-; left; split; [done|apply Hc]|].
  cbn zeta in H. destruct (MAX_P2P_MESSAGES_PER_CONNECTION <? _) eqn:Hk.
  { injection H as <- <-. left. split; [done|]. exact (ct_trace _ _ _ _ _ _ Hc). }
  apply count_line_ok with (1 := Hk) in Hc as [Hk' Hc]. revert H Hc. generalize (count_line s). intros s1 H Hc.
  destruct (ln_message line) as [m| |]; [|injection H as <- <-; left; split; [done|exact (ct_trace _ _ _ _ _ _ Hc)]..].
  pose proof (gate_handled (ln_now line) m s1) as Hg. rewrite (ct_trace _ _ _ _ _ _ Hc) in Hg.
  destruct (session_gate (ln_now line) m s1) as [[u| |] s2] eqn:E; [|injection H as <- <-; by left..].
  destruct (gate_counted _ _ _ _ _ _ _ _ _ _ E Hc) as (Hc2 & ? & ? & ?). apply (handle_counted line m) in Hc2.
  assert (counted s' (k + 1) (t + Z.b2z (is_new_transaction m)) (bodies_after m b) true (l ++ [m])) as Hc3.
  { destruct (handle_line line m s2) as [[v|e|] s3]; [by eapply accept_counted|by eapply reject_counted|by injection H as _ <-]. }
  right. exists m. split; [done|]. split; [exact (ct_trace _ _ _ _ _ _ Hc3)|done].
Qed.

(** A run of messages in which no headers are asked for. *)
Definition no_headers (l : list P2pMessage) : Prop := Forall (fun m => is_get_headers m = false) l.
Definition count_of (f : P2pMessage -> bool) (l : list P2pMessage) : Z := sumZ (map (fun m => Z.b2z (f m)) l).

Lemma count_of_cons f m l : count_of f (m :: l) = Z.b2z (f m) + count_of f l.
Proof. reflexivity. Qed.

Lemma count_of_app f l l' : count_of f (l ++ l') = count_of f l + count_of f l'.
Proof. unfold count_of. rewrite map_app. apply sumZ_app. Qed.

(** What a session lets through from counters [k], [t] and [b] on. *)
Record within (k t b : Z) (hs : bool) (trace : list P2pMessage) : Prop := {
  wi_messages : Z.of_nat (length trace) <= 1024 - k;
  wi_transactions : count_of is_new_transaction trace <= 256 - t;
  wi_first : forall seg post, trace = seg ++ post -> no_headers seg -> count_of is_body_request seg <= 256 - b;
  wi_bodies : forall pre m seg post, trace = pre ++ m :: seg ++ post -> is_get_headers m = true -> no_headers seg ->
    count_of is_body_request seg <= 256;
  wi_hello : match trace with
             | [] => True
             | m :: rest => hs = negb (is_hello m) /\ Forall (fun m => is_hello m = false) rest
             end;
}.

Lemma within_nil k t b hs : k <= 1024 -> t <= 256 -> b <= 256 -> within k t b hs [].
Proof.
  intros. split; [cbn [length]; lia|change (count_of is_new_transaction []) with 0; lia| |by intros [|]|done].
  intros [|] post E _; [change (count_of is_body_request []) with 0; lia|discriminate E].
Qed.

Lemma within_cons k t b hs m trace :
  b <= 256 -> hs = negb (is_hello m) ->
  within (k + 1) (t + Z.b2z (is_new_transaction m)) (bodies_after m b) true trace -> within k t b hs (m :: trace).
Proof.
  intros Hb Hhs [H1 H2 H3 H4 H5]. split.
  - cbn [length]. lia.
  - rewrite count_of_cons. lia.
  - intros [|x seg] post E Hseg; [change (count_of is_body_request []) with 0; lia|]. injection E as <- E.
    apply List.Forall_cons_iff in Hseg as [Hm Hseg]. rewrite count_of_cons. specialize (H3 _ _ E Hseg).
    unfold bodies_after in H3. rewrite Hm in H3. lia.
  - intros [|x pre] m' seg post E Hm' Hseg; injection E as <- E; [|by eapply H4]. specialize (H3 _ _ E Hseg).
    unfold bodies_after in H3. rewrite Hm' in H3. pose proof (Z.b2z_bit0 (is_body_request m)). destruct (is_body_request m); cbn in H3; lia.
  - split; [done|]. destruct trace as [|x rest]; [constructor|]. destruct H5 as [Hx Hr]. constructor; [|done].
    by destruct (is_hello x).
Qed.

Lemma run_within lines s k t b hs l :
  counted s k t b hs l -> k <= 1024 -> t <= 256 -> 0 <= b <= 256 ->
  exists trace, se_handled (session_run lines s).2 = l ++ trace /\ within k t b hs trace /\
    map Ok trace = take (length trace) (map ln_message lines).
Proof.
  revert s k t b hs l. induction lines as [|line lines IH]; intros s k t b hs l Hc Hk Ht Hb; cbn [session_run].
  { exists []. rewrite app_nil_r. split; [apply Hc|]. split; [apply within_nil; lia|done]. }
  destruct (session_step line s) as [o s1] eqn:E. apply step_traced with (2 := Hc) in E as [[Ho E]|(m & Em & E & Hk' & Hhs & Ht' & Hb' & Hc1)].
  { exists []. rewrite app_nil_r. split; [by destruct o|]. split; [apply within_nil; lia|done]. }
  assert (t + Z.b2z (is_new_transaction m) <= 256) by (destruct (is_new_transaction m); cbn; [specialize (Ht' eq_refl)|]; lia).
  assert (0 <= bodies_after m b <= 256).
  { unfold bodies_after in *. destruct (is_get_headers m), (is_body_request m); cbn in *; try specialize (Hb' eq_refl); lia. }
  assert (exists trace, se_handled (match o with Continue => session_run lines s1 | stop => (stop, s1) end).2 = (l ++ [m]) ++ trace /\
    within (k + 1) (t + Z.b2z (is_new_transaction m)) (bodies_after m b) true trace /\
    map Ok trace = take (length trace) (map ln_message lines)) as (trace & E1 & H1 & H2).
  { destruct o; [apply (IH s1); [done|lia..]|..]; (exists []; rewrite app_nil_r; split; [done|]; split; [apply within_nil; lia|done]). }
  exists (m :: trace). split; [rewrite <- app_assoc in E1; by destruct o|]. split; [by apply within_cons; [lia|..]|].
  cbn. by rewrite Em, H2.
Qed.

(** C21: whatever a peer sends in a session, the messages given to the handler
    are those of its first lines, in their order; at most 1024 of them, at most
    256 of them single transactions, and at most 256 requests for bodies or
    transactions between two requests for headers; the first one is a hello,
    and no other is. *)
Theorem session_limits lines h scores tips :
  let trace := se_handled (session_run lines (new_session h scores tips)).2 in
  map Ok trace = take (length trace) (map ln_message lines) /\
  Z.of_nat (length trace) <= 1024 /\ count_of is_new_transaction trace <= 256 /\
  (forall pre seg post, trace = pre ++ seg ++ post -> no_headers seg -> count_of is_body_request seg <= 256) /\
  match trace with
  | [] => True
  | m :: rest => is_hello m = true /\ Forall (fun m => is_hello m = false) rest
  end.
Proof.
  intros trace. destruct (run_within lines (new_session h scores tips) 0 0 0 false []) as (trace' & E & [H1 H2 H3 H4 H5] & H6);
    [by split|lia..|]. change (trace = trace') in E. rewrite <- E in *. clearbody trace. clear trace' E.
  split; [done|]. split; [lia|]. split; [lia|]. split.
  - intros pre. induction pre as [|m pre IH] using rev_ind; intros seg post E Hseg; [by eapply (H3 seg post)|].
    rewrite <- app_assoc in E. cbn [app] in E. destruct (is_get_headers m) eqn:Em; [by eapply H4|].
    assert (no_headers (m :: seg)) as Hseg' by (by constructor). specialize (IH (m :: seg) post E Hseg'). rewrite count_of_cons in IH.
    destruct (is_body_request m); cbn in IH; lia.
  - destruct trace as [|m rest]; [done|]. destruct H5 as [Hm Hr]. split; [by destruct (is_hello m)|done].
Qed.

(** ** A hello with another profile *)

(** The session after the checks. *)
Definition gated (m : P2pMessage) (s : Session) : Session :=
  let s := if is_new_transaction m then s <|se_transactions_seen := se_transactions_seen s + 1|> else s in
  let s := if is_get_headers m then s <|se_body_requests_seen := 0|> else s in
  let s := if is_body_request m then s <|se_body_requests_seen := se_body_requests_seen s + 1|> else s in
  (note_identity m s) <|se_handshake_complete := true|>.

Lemma count_up_passes c limit get set e s :
  (c = true -> get s < limit) -> limit < USIZE_MAX ->
  count_up c limit get set e s = (Ok tt, if c then set (get s + 1) s else s).
Proof.
  intros Hl Hu. unfold count_up. destruct c; cbn [negb]; [|done]. specialize (Hl eq_refl).
  rewrite sat_add_exact by lia. by destruct (Z.ltb_spec limit (get s + 1)); [lia|].
Qed.

Record may_pass (now : Z) (m : P2pMessage) (s : Session) : Prop := {
  mp_transactions : se_transactions_seen s < 256;
  mp_bodies : 0 <= se_body_requests_seen s < 256;
  mp_handshake : se_handshake_complete s = negb (is_hello m);
  mp_banned : is_hello m = false -> identity_banned now s = false;
}.

Lemma gate_passes now m s : may_pass now m s -> session_gate now m s = (Ok tt, gated m s).
Proof.
  intros [Ht Hb Hh Hn]. unfold session_gate, st_bind at 1. rewrite count_up_passes by done. unfold st_bind at 1.
  unfold st_bind at 1. rewrite count_up_passes;
    [|intros _; destruct (is_get_headers m), (is_new_transaction m); cbn; unfold MAX_P2P_BODY_REQUESTS_PER_CONNECTION; lia|done].
  unfold st_bind, st_read, advance_p2p_handshake, gated. 
  destruct m; cbn in Hh, Hn |- *; rewrite ?Hh; try (unfold identity_banned in *; cbn; rewrite Hn by done); reflexivity.
Qed.

Lemma gated_fields m s :
  se_handler (gated m s) = se_handler s /\ se_scores (gated m s) = se_scores s /\
  se_identity (gated m s) = se_identity (note_identity m s) /\ se_handshake_complete (gated m s) = true /\
  (is_new_transaction m = false -> se_transactions_seen (gated m s) = se_transactions_seen s) /\
  (is_body_request m = false -> is_get_headers m = false -> se_body_requests_seen (gated m s) = se_body_requests_seen s) /\
  se_messages_seen (gated m s) = se_messages_seen s.
Proof. by destruct m. Qed.

(** A line that passes goes to the handler. *)
Lemma step_handles line m s :
  ln_expired line = false -> ln_message line = Ok m -> se_messages_seen s < 1024 -> may_pass (ln_now line) m s ->
  session_step line s =
    match handle_line line m (gated m (count_line s)) with
    | (Ok _, s) => session_accept line m s
    | (Err e, s) => session_reject (ln_now line) m e s
    | (Panic, s) => (Crashed, s)
    end.
Proof.
  intros He Hm Hk [Ht Hb Hh Hn]. unfold session_step. rewrite He. cbn zeta.
  assert ((MAX_P2P_MESSAGES_PER_CONNECTION <? se_messages_seen (count_line s)) = false) as ->.
  { assert (se_messages_seen (count_line s) = sat_add USIZE_MAX (se_messages_seen s) 1) as -> by reflexivity.
    assert (1024 < USIZE_MAX) by reflexivity. rewrite sat_add_exact by lia. apply Z.ltb_ge. unfold MAX_P2P_MESSAGES_PER_CONNECTION. lia. }
  rewrite Hm, gate_passes; [reflexivity|]. by split.
Qed.

Lemma handle_line_run line m s r h :
  run_handler line m (se_handler s) = (r, h) ->
  handle_line line m s = (r, (s <|se_handled := se_handled s ++ [m]|>) <|se_handler := h|>).
Proof.
  intros E. unfold handle_line, on_handler. change (se_handler (s <|se_handled := se_handled s ++ [m]|>)) with (se_handler s).
  by rewrite E.
Qed.

(** ** A hello with another profile *)

Lemma fresh_passes now m h scores tips : is_hello m = true -> may_pass now m (new_session h scores tips).
Proof. intros Hm. split; [done|done|by rewrite Hm|by rewrite Hm]. Qed.

(** What a line of a message other than a hello leaves in the handler. *)
Lemma data_handler line m s :
  is_hello m = false -> ln_expired line = false -> ln_message line = Ok m -> se_messages_seen s < 1024 ->
  may_pass (ln_now line) m s -> se_handler (session_run [line] s).2 = (run_handler line m (se_handler s)).2.
Proof.
  intros Hm He Hl Hk Hp. cbn [session_run]. rewrite (step_handles line m s He Hl Hk Hp).
  assert (se_handler (gated m (count_line s)) = se_handler s) as Eh by (by destruct m).
  destruct (run_handler line m (se_handler s)) as [r h'] eqn:Er. rewrite <- Eh in Er. rewrite (handle_line_run _ _ _ _ _ Er).
  destruct r as [u|e|].
  - unfold session_accept. rewrite Hm. cbn zeta.
    assert (forall s0, on_handler (reconcile_peer_tip (ln_durable line) m) s0 = (Ok tt, s0 <|se_handler := se_handler s0|>)) as ->.
    { intros s0. unfold on_handler, reconcile_peer_tip. destruct (ln_durable line); [done|]. by destruct m. }
    cbn [snd]. destruct (identity_banned _ _); reflexivity.
  - unfold session_reject. destruct (_ || _); [reflexivity|]. by destruct (should_penalize_p2p_error _ _).
  - reflexivity.
Qed.

(** C39: the handshake does not keep strangers out.  A hello whose profile is not
    the one of the node fails before its key and its signature are looked at;
    the session goes on, as after a verified hello, and the next message of the
    peer is handled in full. *)
Theorem handshake_bypassed hello data h scores tips mode number hash profile key signature certificate m :
  ln_expired hello = false -> ln_expired data = false ->
  ln_message hello = Ok (Hello mode number hash profile key signature certificate) ->
  profile <> network_consensus_profile (nc_replay config) (configured_genesis_hash (hd_storage h)) ->
  ln_message data = Ok m -> is_hello m = false ->
  is_banned scores (from_identity_public_key key) (ln_now data) = false ->
  se_handler (session_run [hello; data] (new_session h scores tips)).2 = (run_handler data m h).2.
Proof.
  intros He1 He2 Hl1 Hp Hl2 Hm Hban. set (hm := Hello mode number hash profile key signature certificate) in *.
  set (s0 := new_session h scores tips).
  assert (run_handler hello hm (se_handler (gated hm (count_line s0))) = (Err "consensus profile mismatch"%string, h)) as Ehandle.
  { change (se_handler (gated hm (count_line s0))) with h. unfold run_handler, handle_p2p_message_from, hm.
    unfold st_res, verify_p2p_identity_for_profile. by rewrite bool_decide_false. }
  cbn [session_run]. rewrite (step_handles hello hm s0 He1 Hl1); [|reflexivity|by apply fresh_passes]. rewrite (handle_line_run _ _ _ _ _ Ehandle).
  unfold session_reject. change (is_consensus_profile_mismatch _) with true. cbn [orb].
  apply (data_handler data m); [done|done|done|reflexivity|]. split; [reflexivity|done|by rewrite Hm|].
  intros _. exact Hban.
Qed.

(** ** Scores of others *)

(** A hello in the name of the key of [secret], without a signature. *)
Definition forged_hello (secret : list byte) (mode : NodeMode) (number : Z) (hash certificate : list byte) (h : Handler)
    : P2pMessage :=
  Hello mode number hash (network_consensus_profile (nc_replay config) (configured_genesis_hash (hd_storage h)))
    (public_key_hex secret) [] certificate.

Lemma forged_handled secret mode number hash certificate h line :
  (forall expected, expected_tls_certificate_hash = Some expected -> certificate = expected) ->
  nw_trusted_peer_keys network = [] ->
  run_handler line (forged_hello secret mode number hash certificate h) h =
    (Err "P2P identity signature has invalid length"%string, h).
Proof.
  intros Hc Ht. unfold run_handler, handle_p2p_message_from, forged_hello, st_res. f_equal.
  rewrite Ht, bool_decide_true by done. unfold verify_p2p_identity_for_profile. rewrite bool_decide_true by done. cbn [negb].
  assert (match expected_tls_certificate_hash with
          | Some expected => negb (bool_decide (certificate = expected)) | None => false end = false) as ->.
  { destruct expected_tls_certificate_hash as [e|]; [|done]. rewrite (Hc e eq_refl). by rewrite bool_decide_true. }
  rewrite parse_own_key. cbn [res_bind]. unfold check_identity_signature.
  assert (hex_encode [] = []) as E by (apply nil_length_inv; by rewrite length_hex_encode).
  pose proof (hex_decode_encode []) as Hd. rewrite E in Hd. by rewrite Hd.
Qed.

(** A session that only carries it costs the owner of the key ten points. *)
Lemma forged_session secret mode number hash certificate h scores tips line :
  (forall expected, expected_tls_certificate_hash = Some expected -> certificate = expected) ->
  nw_trusted_peer_keys network = [] -> ln_expired line = false ->
  ln_message line = Ok (forged_hello secret mode number hash certificate h) ->
  se_scores (session_run [line] (new_session h scores tips)).2 =
    penalize scores (from_identity_public_key (public_key_hex secret)) 10 (ln_now line) (ln_now line).
Proof.
  intros Hc Ht He Hl. cbn [session_run]. set (m := forged_hello secret mode number hash certificate h) in *.
  rewrite (step_handles line m _ He Hl); [|reflexivity|by apply fresh_passes].
  rewrite (handle_line_run line m (gated m (count_line (new_session h scores tips))) _ h
    (forged_handled secret mode number hash certificate h line Hc Ht)). reflexivity.
Qed.

Lemma penalized_ten (k : nat) b peer now :
  (k <= 9)%nat -> ps_score (book_get b peer) <= 0 ->
  ps_score (book_get (Nat.iter k (fun b => penalize b peer 10 now now) b) peer) <= - 10 * Z.of_nat k.
Proof.
  intros Hk Hs. induction k as [|k IH]; [cbn; lia|]. rewrite Nat.iter_succ. specialize (IH ltac:(lia)).
  revert IH. generalize (Nat.iter k (fun b => penalize b peer 10 now now) b). intros b' IH.
  assert (book_get (penalize b' peer 10 now now) peer = penalize_score (book_get b' peer) 10 now now) as ->
    by (unfold penalize, book_get at 1; by rewrite lookup_insert_eq).
  unfold penalize_score. set (x := ps_score (book_get b' peer)) in *.
  assert (i32_sat_sub x (i32_abs 10) <= - 10 * Z.of_nat (Datatypes.S k)) as Hx.
  { change (i32_abs 10) with 10. unfold i32_sat_sub, I32_MIN, I32_MAX. lia. }
  destruct (_ <=? _); exact Hx.
Qed.

Lemma banned_after_ten b peer now now' :
  ps_score (book_get b peer) <= 0 -> now' < sat_add U64_MAX now PEER_BAN_COOLDOWN_SECS ->
  is_banned (Nat.iter 10 (fun b => penalize b peer 10 now now) b) peer now' = true.
Proof.
  intros Hs Hn. pose proof (penalized_ten 9 b peer now ltac:(lia) Hs) as H9. rewrite Nat.iter_succ. revert H9.
  generalize (Nat.iter 9 (fun b => penalize b peer 10 now now) b). intros b' H9.
  unfold is_banned, penalize. rewrite lookup_insert_eq. unfold penalize_score.
  assert ((i32_sat_sub (ps_score (book_get b' peer)) (i32_abs 10) <=? PEER_BAN_THRESHOLD) = true) as ->.
  { apply Z.leb_le. change (i32_abs 10) with 10. unfold i32_sat_sub, I32_MIN, I32_MAX, PEER_BAN_THRESHOLD. lia. }
  cbn [ps_banned ps_ban_until_epoch andb]. by apply Z.ltb_lt.
Qed.

Lemma accept_banned line m s :
  identity_banned (ln_now line) s = true -> (session_accept line m s).1 = Failed "peer identity is banned".
Proof.
  intros Hb. unfold session_accept. cbn zeta.
  assert (forall A (f : Handle A) s0, identity_banned (ln_now line) (on_handler f s0).2 = identity_banned (ln_now line) s0) as Hon.
  { intros A f s0. unfold on_handler. by destruct (f (se_handler s0)). }
  match goal with |- context [if identity_banned _ ?s1 then _ else _] =>
    assert (identity_banned (ln_now line) s1 = true) as -> end; [|done].
  match goal with |- identity_banned _ (?s1 <|se_tips := ?t|>) = _ =>
    change (identity_banned (ln_now line) s1 = true) end.
  rewrite Hon. destruct (is_hello m); [by rewrite Hon|done].
Qed.

(** A peer can have another one banned.  The identity a penalty goes to is
    taken from the hello before the hello is verified, so ten sessions with
    nothing but an unsigned hello in the name of a key, whose score is not
    positive, ban that key for the cooldown: its owner's session, with a correct
    hello, ends as the one of a banned peer. *)
Theorem forged_hello_bans secret mode number hash certificate h scores tips line :
  (forall expected, expected_tls_certificate_hash = Some expected -> certificate = expected) ->
  nw_trusted_peer_keys network = [] -> ln_expired line = false ->
  ln_message line = Ok (forged_hello secret mode number hash certificate h) ->
  let victim := from_identity_public_key (public_key_hex secret) in
  ps_score (book_get scores victim) <= 0 ->
  let banned := Nat.iter 10 (fun scores => se_scores (session_run [line] (new_session h scores tips)).2) scores in
  forall h' tips' line' mode' number' hash' profile' signature' certificate',
    let genuine := Hello mode' number' hash' profile' (public_key_hex secret) signature' certificate' in
    ln_expired line' = false -> ln_message line' = Ok genuine -> (run_handler line' genuine h').1 = Ok tt ->
    ln_now line' < sat_add U64_MAX (ln_now line) PEER_BAN_COOLDOWN_SECS ->
    (session_run [line'] (new_session h' banned tips')).1 = Failed "peer identity is banned".
Proof.
  intros Hc Ht He Hl victim Hs banned h' tips' line' mode' number' hash' profile' signature' certificate' genuine He' Hl' Hrun Hn.
  assert (banned = Nat.iter 10 (fun b => penalize b victim 10 (ln_now line) (ln_now line)) scores) as Eb.
  { unfold banned. generalize 10%nat. intros k. induction k as [|k IH]; [done|].
    rewrite !Nat.iter_succ, IH. by apply (forged_session secret mode number hash certificate). }
  clearbody banned. cbn [session_run]. rewrite (step_handles line' genuine _ He' Hl'); [|reflexivity|by apply fresh_passes].
  destruct (run_handler line' genuine h') as [[[]|e|] h2] eqn:Er; [|discriminate Hrun..]. 
  rewrite (handle_line_run line' genuine (gated genuine (count_line (new_session h' banned tips'))) _ _ Er).
  match goal with |- (match session_accept _ _ ?s with _ => _ end).1 = _ => pose proof (accept_banned line' genuine s) as Ha end.
  revert Ha. match goal with |- context [session_accept ?l ?m ?s] => destruct (session_accept l m s) as [o s1] end.
  intros Ha. cbn [fst] in Ha. rewrite Ha; [done|].
  change (identity_banned (ln_now line') _) with (is_banned banned victim (ln_now line')). rewrite Eb. by apply banned_after_ten.
Qed.
End peer.
End session.

Section witness.
#[local] Existing Instances mem_sled hex_codec toy_digests mem_files mem_snapshots mem_sled_reliable.
#[local] Existing Instances u256_z toy_secp toy_randomx native_profile fork_host fork_jx fork_jg fork_revm toy_keys.
#[local] Existing Instances fork_jb fork_jh open_stream no_addresses.
#[local] Existing Instances SampleCodecs.JT SampleCodecs.JR SampleCodecs.JE SampleCodecs.JM SampleCodecs.JC SampleCodecs.JP SampleCodecs.JS SampleCodecs.CM.

Definition line_of (now : Z) (m : P2pMessage) : Line := {|
  ln_message := Ok m; ln_expired := false; ln_now := now; ln_pool_now := now; ln_others := fun _ n => n; ln_dir := None;
  ln_isolated := Err "isolated"%string; ln_cleanup := Ok tt; ln_admission_now := None; ln_discovered := [];
  ln_durable := false |}.

Definition closed_network : NetworkConfig := {| nw_enabled := false; nw_trusted_peer_keys := [] |}.
Definition sample_run (lines : list Line) (h : Handler) (scores : PeerScoreBook) : Outcome * Session :=
  session_run fork_config closed_network (B "peer") None lines (new_session h scores ∅).

Lemma handshake_bypassed_witness :
  let stranger := Hello Primitives.Full 7 (B "hash") (B "profile") (B "key") (B "signature") (B "certificate") in
  hd_sent (se_handler (sample_run [line_of 1 stranger; line_of 2 (GetBlockRange 1 128)]
    (fork_handler (generation_with peer_chain)) ∅).2) = [BlockBody peer_block; BlockBody peer_tip].
Proof.
  intros stranger. unfold sample_run.
  rewrite (handshake_bypassed fork_config closed_network (B "peer") None (line_of 1 stranger) (line_of 2 (GetBlockRange 1 128))
    (fork_handler (generation_with peer_chain)) ∅ ∅ Primitives.Full 7 (B "hash") (B "profile") (B "key") (B "signature")
    (B "certificate") (GetBlockRange 1 128)); [vm_compute; reflexivity|reflexivity|reflexivity|reflexivity| |reflexivity..].
  intros E. vm_compute in E. discriminate E.
Defined.

Definition victim_hello (h : Handler) : P2pMessage :=
  hello_message_from_best_header_with_genesis (B "victim") Primitives.Full (nc_replay fork_config) (blk_header peer_tip)
    (B "tls") (configured_genesis_hash (hd_storage h)).

Lemma forged_hello_bans_witness :
  let h := fork_handler (generation_with peer_chain) in
  let forged := line_of 1 (forged_hello fork_config (B "victim") Primitives.Full 2 (B "hash") [] h) in
  let scores := Nat.iter 10 (fun scores => se_scores (sample_run [forged] h scores).2) ∅ in
  (sample_run [line_of 5 (victim_hello h)] h scores).1 = Failed "peer identity is banned".
Proof.
  intros h forged scores.
  apply (forged_hello_bans fork_config closed_network (B "peer") None (B "victim") Primitives.Full 2 (B "hash") [] h ∅ ∅ forged)
    with (mode' := Primitives.Full) (number' := 2) (hash' := hash_to_hex (header_hash (blk_header peer_tip)))
      (profile' := network_consensus_profile (nc_replay fork_config) (configured_genesis_hash (hd_storage h)))
      (signature' := sign (B "victim") (p2p_hello_payload Primitives.Full 2 (hash_to_hex (header_hash (blk_header peer_tip)))
         (network_consensus_profile (nc_replay fork_config) (configured_genesis_hash (hd_storage h)))
         (public_key_hex (B "victim")) (B "tls"))) (certificate' := B "tls").
  - discriminate.
  - reflexivity.
  - reflexivity.
  - reflexivity.
  - vm_compute. discriminate.
  - reflexivity.
  - reflexivity.
  - vm_compute. reflexivity.
  - vm_compute. reflexivity.
Defined.
End witness.
