(* ===== verification/Services.v ===== *)
(** The optional services of [crates/blq-node/src/main.rs]: the discovery
    server, which keeps the records of peers, and the relay, which keeps an
    inbox of block announcements per node.

    Several connections share the registry or the inboxes; a message is handled
    under one lock of them, so a run of the service is a sequence of messages,
    each of some connection.  A step gives the answer that is sent. *)

From Stdlib Require Import ZArith Lia Strings.String Strings.Byte.
From stdpp Require Import sorting gmap fin_maps base list.
From S2P Require Import Prelude Externals Primitives Consensus Network Sled Wire Ancestor Session.
#[local] Open Scope Z_scope.

Definition MAX_DISCOVERY_PEERS : nat := 1024.
Definition MAX_RELAY_NODES : nat := 1024.
Definition MAX_RELAY_MESSAGES_PER_NODE : nat := 256.

(** ** Messages *)

Inductive DiscoveryMessage :=
  | DiscoveryRegister (peer : PeerRecord) (identity_public_key identity_signature : list byte)
  | GetPeers (identity_public_key identity_signature : list byte)
  | Peers (peers : list PeerRecord).

Inductive RelayMessage :=
  | RelayRegister (node_id identity_public_key identity_signature : list byte)
  | RelaySend (target_id : list byte) (payload : P2pMessage) (identity_public_key identity_signature : list byte)
  | RelayBroadcast (payload : P2pMessage) (identity_public_key identity_signature : list byte)
  | RelayPoll (node_id identity_public_key identity_signature : list byte)
  | RelayMessages (messages : list P2pMessage).

(** The debug form of a storage mode. *)
Definition storage_mode_debug (m : StorageMode) : list byte :=
  match m with Archive => B "Archive" | Pruned => B "Pruned" end.

Definition valid_relay_node_id (node_id : list byte) : bool :=
  negb (bool_decide (node_id = [])) && (length node_id <=? 256)%nat && ascii node_id.

Definition validate_relay_payload (payload : P2pMessage) : res string unit :=
  match payload with
  | NewHeader _ | BlockBody _ => Ok tt
  | PeerExchange _ => Err "peer exchange is not accepted through the relay service"%string
  | _ => Err "relay payload must be a new block or header notification"%string
  end.

(** The messages a connection has sent, with the limit. *)
Definition count_message (seen : Z) (error : string) : res string Z :=
  let seen := sat_add USIZE_MAX seen 1 in
  if MAX_P2P_MESSAGES_PER_CONNECTION <? seen then Err error else Ok seen.

Section services.
Context {HX : HexCodec} {D : Digests} {PK : PeerKeys} {SA : SocketAddrs}.

(** ** Discovery *)

Definition register_fields (peer : PeerRecord) (identity_public_key : list byte) : list (list byte) :=
  [pr_address peer; node_mode_as_str (pr_node_mode peer); dec_string (pr_best_number peer); pr_best_hash peer;
   storage_mode_debug (pr_storage_mode peer); dec_string (pr_retained_from_height peer);
   dec_string (pr_retained_to_height peer); identity_public_key].

(** The registry after a record was taken in. *)
Definition register_peer (peer : PeerRecord) (peers : list PeerRecord) : list PeerRecord :=
  let peers := List.filter (fun existing => negb (bool_decide (pr_address existing = pr_address peer))) peers in
  if (length peers <? MAX_DISCOVERY_PEERS)%nat then peers ++ [peer] else peers.

Definition discovery_step (message : DiscoveryMessage) : StM string (list PeerRecord) (option DiscoveryMessage) :=
  match message with
  | DiscoveryRegister peer identity_public_key identity_signature =>
      st_res (validate_peer_record peer) ;!
      st_res (verify_service_identity (B "BLQ-DISCOVERY-REGISTER-v1") (register_fields peer identity_public_key)
        identity_public_key identity_signature) ;!
      (fun peers => let peers := register_peer peer peers in (Ok (Some (Peers peers)), peers))
  | GetPeers identity_public_key identity_signature =>
      st_res (verify_service_identity (B "BLQ-DISCOVERY-GET-v1") [identity_public_key]
        identity_public_key identity_signature) ;!
      (fun peers => (Ok (Some (Peers peers)), peers))
  | Peers _ => st_ret None
  end.

(** ** The relay *)

(** [Vec] of a node, and the connection: the messages seen and the node it
    registered with its key. *)
Abbreviation Inboxes := (gmap (list byte) (list P2pMessage)) (only parsing).

Record RelayConnection := {
  rc_messages_seen : Z;
  rc_registered : option (list byte * list byte);
}.

Definition new_connection : RelayConnection := {| rc_messages_seen := 0; rc_registered := None |}.

Definition push_inbox (payload : P2pMessage) (inbox : list P2pMessage) : list P2pMessage :=
  if (length inbox <? MAX_RELAY_MESSAGES_PER_NODE)%nat then inbox ++ [payload] else inbox.

Definition relay_register (node_id key signature : list byte) (registered : option (list byte * list byte))
    (inboxes : Inboxes) : res string (option (list byte * list byte) * Inboxes) :=
  if negb (valid_relay_node_id node_id) then Err "relay node id is missing or too long"%string
  else
    verify_service_identity (B "BLQ-RELAY-REGISTER-v1") [node_id; key] key signature ;?
    match registered with
    | Some existing =>
        if negb (bool_decide (existing = (node_id, key)))
        then Err "relay connection cannot register a second node id"%string else Ok (registered, inboxes)
    | None =>
        if bool_decide (inboxes !! node_id = None) && (MAX_RELAY_NODES <=? size inboxes)%nat
        then Err "relay node registry is full"%string
        else
          Ok (Some (node_id, key),
              match inboxes !! node_id with Some _ => inboxes | None => <[node_id := []]> inboxes end)
    end.

Definition relay_send (target_id : list byte) (payload : P2pMessage) (key signature : list byte)
    (registered : option (list byte * list byte)) (inboxes : Inboxes) : res string Inboxes :=
  match registered with
  | None => Err "relay send requires registration"%string
  | Some (sender, registered_key) =>
      if negb (bool_decide (registered_key = key)) then Err "relay identity key does not match registration"%string
      else
        verify_service_identity (B "BLQ-RELAY-SEND-v1") [sender; target_id; key] key signature ;?
        if negb (valid_relay_node_id target_id) then Err "relay target id is missing or too long"%string
        else
          validate_relay_payload payload ;?
          Ok (alter (push_inbox payload) target_id inboxes)
  end.

Definition relay_broadcast (payload : P2pMessage) (key signature : list byte)
    (registered : option (list byte * list byte)) (inboxes : Inboxes) : res string Inboxes :=
  match registered with
  | None => Err "relay broadcast requires registration"%string
  | Some (sender, registered_key) =>
      if negb (bool_decide (registered_key = key)) then Err "relay identity key does not match registration"%string
      else
        verify_service_identity (B "BLQ-RELAY-BROADCAST-v1") [sender; key] key signature ;?
        validate_relay_payload payload ;?
        Ok (map_imap (fun target_id inbox =>
              Some (if bool_decide (target_id = sender) then inbox else push_inbox payload inbox)) inboxes)
  end.

(** The messages taken from the inbox. *)
Definition relay_poll (node_id key signature : list byte) (registered : option (list byte * list byte))
    (inboxes : Inboxes) : res string (list P2pMessage * Inboxes) :=
  match registered with
  | None => Err "relay poll requires registration for the same node id"%string
  | Some existing =>
      if negb (bool_decide (existing = (node_id, key)))
      then Err "relay poll requires registration for the same node id"%string
      else
        verify_service_identity (B "BLQ-RELAY-POLL-v1") [node_id; key] key signature ;?
        Ok (default [] (inboxes !! node_id), alter (fun _ => []) node_id inboxes)
  end.

(** One message of a connection, with the answer. *)
Definition relay_step (message : RelayMessage) (c : RelayConnection) (inboxes : Inboxes)
    : res string (option RelayMessage * RelayConnection * Inboxes) :=
  let? seen := count_message (rc_messages_seen c) "relay peer exceeded message limit" in
  let c := {| rc_messages_seen := seen; rc_registered := rc_registered c |} in
  match message with
  | RelayRegister node_id key signature =>
      let? (registered, inboxes) := relay_register node_id key signature (rc_registered c) inboxes in
      Ok (None, {| rc_messages_seen := seen; rc_registered := registered |}, inboxes)
  | RelaySend target_id payload key signature =>
      let? inboxes := relay_send target_id payload key signature (rc_registered c) inboxes in
      Ok (None, c, inboxes)
  | RelayBroadcast payload key signature =>
      let? inboxes := relay_broadcast payload key signature (rc_registered c) inboxes in
      Ok (None, c, inboxes)
  | RelayPoll node_id key signature =>
      let? (messages, inboxes) := relay_poll node_id key signature (rc_registered c) inboxes in
      Ok (Some (RelayMessages messages), c, inboxes)
  | RelayMessages _ => Ok (None, c, inboxes)
  end.

(** ** Runs of the relay *)

Record Relay := {
  rl_connections : gmap nat RelayConnection;
  rl_inboxes : Inboxes;
}.

(** A connection opens, sends a message that is handled, or ends. *)
Inductive relay_event : Relay -> Relay -> Prop :=
  | relay_opens r i :
      rl_connections r !! i = None ->
      relay_event r {| rl_connections := <[i := new_connection]> (rl_connections r); rl_inboxes := rl_inboxes r |}
  | relay_handles r i c message answer c' inboxes :
      rl_connections r !! i = Some c -> relay_step message c (rl_inboxes r) = Ok (answer, c', inboxes) ->
      relay_event r {| rl_connections := <[i := c']> (rl_connections r); rl_inboxes := inboxes |}
  | relay_ends r i :
      relay_event r {| rl_connections := delete i (rl_connections r); rl_inboxes := rl_inboxes r |}.

Definition empty_relay : Relay := {| rl_connections := ∅; rl_inboxes := ∅ |}.

Inductive relay_reachable : Relay -> Prop :=
  | relay_start : relay_reachable empty_relay
  | relay_next r r' : relay_reachable r -> relay_event r r' -> relay_reachable r'.

(** ** The registry *)

Record registry_ok (peers : list PeerRecord) : Prop := {
  ro_addresses : NoDup (map pr_address peers);
  ro_count : (length peers <= MAX_DISCOVERY_PEERS)%nat;
  ro_valid : Forall (fun peer => validate_peer_record peer = Ok tt) peers;
}.

Lemma register_ok peer peers :
  registry_ok peers -> validate_peer_record peer = Ok tt -> registry_ok (register_peer peer peers).
Proof.
  intros [Hn Hc Hv] Hp. unfold register_peer.
  set (f := fun existing => negb (bool_decide (pr_address existing = pr_address peer))).
  assert (registry_ok (List.filter f peers)) as [Hn' Hc' Hv'].
  { split; [by apply NoDup_map_filter|pose proof (length_filter_b f peers); lia|by apply Forall_filter_b]. }
  destruct (Nat.ltb_spec (length (List.filter f peers)) MAX_DISCOVERY_PEERS); [|by split].
  split.
  - rewrite map_app. apply NoDup_app. split; [done|]. split; [|apply NoDup_singleton].
    intros a Ha ->%list_elem_of_singleton. apply list_elem_of_fmap in Ha as (x & Ea & Hx).
    apply list_elem_of_In, filter_In in Hx as [_ Hx]. unfold f in Hx. by rewrite bool_decide_true in Hx.
  - rewrite length_app. cbn. lia.
  - apply Forall_app. split; [done|by constructor].
Qed.

(** Whatever is registered, the registry has one valid record per address and at
    most 1024 of them. *)
Lemma discovery_bounded messages peers :
  registry_ok peers -> registry_ok (fold_left (fun peers m => (discovery_step m peers).2) messages peers).
Proof.
  revert peers. induction messages as [|m messages IH]; intros peers H; [done|]. cbn [fold_left]. apply IH.
  destruct m as [peer key sig|key sig|ps]; cbn [discovery_step]; [| |done]; unfold st_bind, st_res.
  - destruct (validate_peer_record peer) as [[]|e|] eqn:Ev; [|done..]. destruct (verify_service_identity _ _ _ _); [|done..].
    by apply register_ok.
  - by destruct (verify_service_identity _ _ _ _).
Qed.

(** ** The inboxes *)

Definition inbox_ok (node_id : list byte) (inbox : list P2pMessage) : Prop :=
  valid_relay_node_id node_id = true /\ (length inbox <= MAX_RELAY_MESSAGES_PER_NODE)%nat /\
  Forall (fun m => validate_relay_payload m = Ok tt) inbox.

Record inboxes_ok (inboxes : Inboxes) : Prop := {
  io_nodes : (size inboxes <= MAX_RELAY_NODES)%nat;
  io_inboxes : map_Forall inbox_ok inboxes;
}.

Lemma push_ok id payload inbox :
  validate_relay_payload payload = Ok tt -> inbox_ok id inbox -> inbox_ok id (push_inbox payload inbox).
Proof.
  intros Hp (Hi & Hl & Hf). unfold push_inbox. destruct (Nat.ltb_spec (length inbox) MAX_RELAY_MESSAGES_PER_NODE); [|by split].
  split; [done|]. split; [rewrite length_app; cbn; lia|]. apply Forall_app. split; [done|by constructor].
Qed.

Lemma alter_ok (f : list P2pMessage -> list P2pMessage) id inboxes :
  (forall inbox, inbox_ok id inbox -> inbox_ok id (f inbox)) -> inboxes_ok inboxes -> inboxes_ok (alter f id inboxes).
Proof.
  intros Hf [Hs Hm]. split.
  - by rewrite <- size_dom, dom_alter_L, size_dom.
  - intros k inbox Hk. destruct (decide (k = id)) as [->|Hne].
    + rewrite lookup_alter_eq in Hk. destruct (inboxes !! id) as [l|] eqn:E; [|done]. injection Hk as <-. by apply Hf, Hm.
    + rewrite lookup_alter_ne in Hk by done. by apply Hm.
Qed.

Lemma relay_register_ok id key sig registered inboxes r :
  relay_register id key sig registered inboxes = Ok r -> inboxes_ok inboxes -> inboxes_ok r.2.
Proof.
  unfold relay_register. intros H Hok. destruct (valid_relay_node_id id) eqn:Hid; [|done]. cbn [negb] in H.
  apply res_bind_ok in H as (u & _ & H). destruct registered as [existing|].
  - destruct (negb _); [done|]. by injection H as <-.
  - destruct (inboxes !! id) as [l|] eqn:E; [by injection H as <-|]. rewrite bool_decide_true in H by done. cbn [andb] in H.
    destruct (Nat.leb_spec MAX_RELAY_NODES (size inboxes)); [done|]. injection H as <-. cbn [snd]. split.
    + rewrite map_size_insert_None by done. lia.
    + apply map_Forall_insert; [done|]. split; [|apply Hok]. split; [done|]. split; [cbn; lia|constructor].
Qed.

Lemma relay_send_ok target payload key sig registered inboxes inboxes' :
  relay_send target payload key sig registered inboxes = Ok inboxes' -> inboxes_ok inboxes -> inboxes_ok inboxes'.
Proof.
  unfold relay_send. intros H Hok. destruct registered as [[sender k]|]; [|done]. destruct (negb _); [done|].
  apply res_bind_ok in H as (u & _ & H). destruct (negb _); [done|]. apply res_bind_ok in H as ([] & Hp & [= <-]).
  apply alter_ok; [|done]. intros inbox. by apply push_ok.
Qed.

Lemma relay_broadcast_ok payload key sig registered inboxes inboxes' :
  relay_broadcast payload key sig registered inboxes = Ok inboxes' -> inboxes_ok inboxes -> inboxes_ok inboxes'.
Proof.
  unfold relay_broadcast. intros H Hok. destruct registered as [[sender k]|]; [|done]. destruct (negb _); [done|].
  apply res_bind_ok in H as (u & _ & H). apply res_bind_ok in H as ([] & Hp & [= <-]). destruct Hok as [Hs Hm]. split.
  - etransitivity; [|exact Hs]. rewrite <- !size_dom. apply subseteq_size, dom_imap_subseteq.
  - intros k' inbox Hk. rewrite map_lookup_imap in Hk. destruct (inboxes !! k') as [l|] eqn:E; [|done].
    injection Hk as <-. specialize (Hm _ _ E). destruct (bool_decide (k' = sender)); [done|by apply push_ok].
Qed.

Lemma relay_poll_ok id key sig registered inboxes r :
  relay_poll id key sig registered inboxes = Ok r -> inboxes_ok inboxes -> inboxes_ok r.2.
Proof.
  unfold relay_poll. intros H Hok. destruct registered as [existing|]; [|done]. destruct (negb _); [done|].
  apply res_bind_ok in H as (u & _ & [= <-]). apply alter_ok; [|done]. intros inbox (Hi & _). split; [done|].
  split; [cbn; lia|constructor].
Qed.

Lemma relay_step_ok message c inboxes answer c' inboxes' :
  relay_step message c inboxes = Ok (answer, c', inboxes') -> inboxes_ok inboxes -> inboxes_ok inboxes'.
Proof.
  intros H Hok. unfold relay_step in H. apply res_bind_ok in H as (seen & _ & H).
  destruct message as [id key sig|target payload key sig|payload key sig|id key sig|ms]; cbn zeta in H.
  - apply res_bind_ok in H as ([registered inboxes1] & H & [= _ _ <-]). by apply (relay_register_ok _ _ _ _ _ _ H).
  - apply res_bind_ok in H as (inboxes1 & H & [= _ _ <-]). by apply (relay_send_ok _ _ _ _ _ _ _ H).
  - apply res_bind_ok in H as (inboxes1 & H & [= _ _ <-]). by apply (relay_broadcast_ok _ _ _ _ _ _ H).
  - apply res_bind_ok in H as ([messages inboxes1] & H & [= _ _ <-]). by apply (relay_poll_ok _ _ _ _ _ _ H).
  - by injection H as _ _ <-.
Qed.

(** The relay stays within its bounds whatever its connections send and
    however their messages interleave: at most 1024 nodes with valid names, at
    most 256 messages for each, and nothing but announcements of blocks. *)
Theorem relay_bounded r : relay_reachable r -> inboxes_ok (rl_inboxes r).
Proof.
  induction 1 as [|r r' _ IH Hev]; [split; [apply Nat.le_0_l|apply map_Forall_empty]|].
  destruct Hev as [r i|r i c message answer c' inboxes _ Hstep|r i]; [exact IH| |exact IH].
  by eapply relay_step_ok.
Qed.

Lemma own_service_signature secret domain fields :
  verify_service_identity domain fields (public_key_hex secret) (sign secret (service_auth_payload domain fields)) = Ok tt.
Proof. unfold verify_service_identity. rewrite parse_own_key. apply check_own_signature. Qed.

(** An inbox belongs to whoever names it.  A new connection that registers
    the name of another node with a key of its own is handed all messages that
    wait for that node, and the inbox is empty afterwards. *)
Theorem relay_inbox_taken node waiting inboxes secret :
  valid_relay_node_id node = true -> inboxes !! node = Some waiting ->
  let key := public_key_hex secret in
  let signed domain := sign secret (service_auth_payload domain [node; key]) in
  exists c c',
    relay_step (RelayRegister node key (signed (B "BLQ-RELAY-REGISTER-v1"))) new_connection inboxes = Ok (None, c, inboxes) /\
    relay_step (RelayPoll node key (signed (B "BLQ-RELAY-POLL-v1"))) c inboxes =
      Ok (Some (RelayMessages waiting), c', <[node := []]> inboxes).
Proof.
  intros Hid Hin key signed.
  exists {| rc_messages_seen := 1; rc_registered := Some (node, key) |}, {| rc_messages_seen := 2; rc_registered := Some (node, key) |}.
  unfold relay_step, signed. change (count_message (rc_messages_seen new_connection) _) with (Ok (E:=string) 1).
  change (count_message (rc_messages_seen {| rc_messages_seen := 1; rc_registered := Some (node, key) |}) _) with (Ok (E:=string) 2).
  cbn [res_bind rc_registered new_connection]. unfold relay_register, relay_poll.
  unfold key. rewrite Hid, !own_service_signature, Hin, (bool_decide_false (Some waiting = None)) by done.
  rewrite (bool_decide_true ((node, public_key_hex secret) = (node, public_key_hex secret))) by done. cbn. split; [done|].
  do 2 f_equal. apply map_eq. intros k. destruct (decide (k = node)) as [->|Hne].
  - by rewrite lookup_alter_eq, lookup_insert_eq, Hin.
  - by rewrite lookup_alter_ne, lookup_insert_ne.
Qed.
End services.

Section witness.
#[local] Existing Instances toy_digests hex_codec toy_keys.

(** A node polls once; a stranger takes what came after. *)
Definition one_node : Relay := {|
  rl_connections := {[0%nat := {| rc_messages_seen := 1; rc_registered := Some (B "node", public_key_hex (B "owner")) |}]};
  rl_inboxes := {[B "node" := []]} |}.

Lemma relay_bounded_witness : inboxes_ok (rl_inboxes one_node).
Proof.
  set (key := public_key_hex (B "owner")).
  set (m := RelayRegister (B "node") key (sign (B "owner") (service_auth_payload (B "BLQ-RELAY-REGISTER-v1") [B "node"; key]))).
  set (opened := {| rl_connections := {[0%nat := new_connection]}; rl_inboxes := ∅ |}).
  refine (relay_bounded one_node (relay_next opened one_node (relay_next empty_relay opened relay_start _) _)).
  - apply (relay_opens empty_relay 0%nat). reflexivity.
  - refine (relay_handles opened 0%nat new_connection m None _ _ _ _); [reflexivity|vm_compute; reflexivity].
Defined.

Lemma relay_inbox_taken_witness :
  let waiting := [NewHeader (blk_header peer_tip)] in
  exists c c', let key := public_key_hex (B "stranger") in
    relay_step (RelayPoll (B "node") key (sign (B "stranger") (service_auth_payload (B "BLQ-RELAY-POLL-v1") [B "node"; key]))) c
      {[B "node" := waiting]} = Ok (Some (RelayMessages waiting), c', {[B "node" := []]}).
Proof.
  intros waiting. destruct (relay_inbox_taken (B "node") waiting {[B "node" := waiting]} (B "stranger")) as (c & c' & _ & H).
  - reflexivity.
  - reflexivity.
  - exists c, c'. cbn zeta. rewrite H. reflexivity.
Defined.
End witness.
