(* ===== verification/History.v ===== *)
(** Questions about the state ([crates/blq-node/src/main.rs]): the values of
    JSON requests, quantities and block tags, the bodies of blocks a pruned node
    fetches from its peers, and the state of the accounts at a past height.

    A query takes the lock of the storage for each of its steps; the definitions
    describe a query during which no other thread writes.  The connection to a
    peer is the list of the lines it sends ([Conversation]). *)

From Stdlib Require Import ZArith Lia Strings.String Strings.Byte.
From stdpp Require Import sorting gmap fin_maps base list.
From S2P Require Import Prelude Externals Primitives Canonical Rlp RawTx Pow Consensus State StateRoot.
From S2P Require Import Transition Evm BlockExec Mempool Admission Replay Network.
From S2P Require Import Sled AccountStore BlockStore ChainStore Generation Publish CandidateStore NodeStore NodeState.
From S2P Require Import Supply Miner Import Fork Cursor Recovery Sync Wire Serve Ancestor.
#[local] Open Scope Z_scope.

(** ** Values of requests and answers *)

(** [serde_json::Value]; a number is its text, an object the list of its
    members. *)
Inductive Value :=
  | Null
  | Bool (b : bool)
  | Number (text : list byte)
  | Text (text : list byte)
  | Array (values : list Value)
  | Object (members : list (list byte * Value)).

Definition as_str (v : Value) : option (list byte) := match v with Text s => Some s | _ => None end.
Definition as_array (v : Value) : option (list Value) := match v with Array l => Some l | _ => None end.
Definition as_object (v : Value) : option (list (list byte * Value)) := match v with Object m => Some m | _ => None end.
Definition is_null (v : Value) : bool := match v with Null => true | _ => false end.

Definition member (m : list (list byte * Value)) (k : list byte) : option Value :=
  snd <$> List.find (fun kv => bool_decide (kv.1 = k)) m.

(** The member [params] of a request, when it is an array. *)
Abbreviation Params := (option (list Value)) (only parsing).

Definition param (params : Params) (i : nat) : option Value := params ≫= (fun l => l !! i).

(** [o.map(f).transpose()]. *)
Definition transpose {E A B} (f : A -> res E B) (o : option A) : res E (option B) :=
  match o with Some a => let? b := f a in Ok (Some b) | None => Ok None end.

(** ** Quantities *)

Definition hex_digit (d : Z) : byte := as_u8 (if d <? 10 then 48 + d else 87 + d).

Fixpoint hex_digits (fuel : nat) (z : Z) : list byte :=
  match fuel with
  | O => []
  | Datatypes.S f => if z <? 16 then [hex_digit z] else hex_digits f (z / 16) ++ [hex_digit (z mod 16)]
  end.

(** [format!("0x{:x}")]; a [u128] has at most 32 digits. *)
Definition quantity (z : Z) : list byte := B "0x" ++ hex_digits 32 z.

Definition hex_value (c : byte) : option Z :=
  let c := u8_val c in
  if (48 <=? c) && (c <=? 57) then Some (c - 48)
  else if (97 <=? c) && (c <=? 102) then Some (c - 87)
  else if (65 <=? c) && (c <=? 70) then Some (c - 55)
  else None.

Definition hex_step (max : Z) (acc : res string Z) (c : byte) : res string Z :=
  let? a := acc in
  let? x := ok_or (hex_value c) "invalid digit found in string"%string in
  let? m := ok_or (checked_mul max a 16) "number too large to fit in target type"%string in
  ok_or (checked_add max m x) "number too large to fit in target type"%string.

(** [from_str_radix(_, 16)] of an unsigned type: one plus sign may come first. *)
Definition from_str_radix_16 (max : Z) (s : list byte) : res string Z :=
  match s with
  | [] => Err "cannot parse integer from empty string"%string
  | c :: rest =>
      let digits := if u8_val c =? 43 then rest else s in
      match digits with
      | [] => Err "invalid digit found in string"%string
      | _ => fold_left (hex_step max) digits (Ok 0)
      end
  end.

Definition parse_hex_quantity (max : Z) (value : list byte) : res string Z :=
  let? trimmed := ok_or (strip_prefix (B "0x") value) "hex quantity must start with 0x"%string in
  from_str_radix_16 max trimmed.

Definition parse_hex_u64 : list byte -> res string Z := parse_hex_quantity U64_MAX.
Definition parse_hex_u128 : list byte -> res string Z := parse_hex_quantity U128_MAX.

(** The tags that name the tip. *)
Definition tip_tags : list (list byte) := [B "latest"; B "safe"; B "finalized"; B "pending"].

(** ** Bodies from peers *)

Definition MAX_RPC_BODY_FETCH_PEERS : nat := 2.
Definition MAX_RPC_BODY_FETCH_MESSAGES : nat := 8.
Definition MAX_HISTORICAL_EVM_REPLAY_BLOCKS : Z := 4096.

(** A connection: the certificate of the peer once it is connected and greeted,
    the lines it sends, read and parsed, and the failure of the request. *)
Record Conversation := {
  cv_connection : res string (list byte);
  cv_lines : list (res string P2pMessage);
  cv_request_error : option string;
}.

Section history.
Context {S : Sled} {HX : HexCodec} {D : Digests} {U : U256Ops} {R : Revm} {BP : BuildProfile} {PK : PeerKeys}.
Context {JB : Json Block} {JH : Json BlockHeader} {JT : Json Transaction} {JR : Json StoredReceipt}.
Context {JE : Json (list SerializedEvmSnapshotEntry)}.
Context {IO : FileIo} {JM : Json GenerationManifest} {JC : Json ReplayCheckpoint}.
Context {JP : Json GenerationPublicationRecord} {JS : Json SuffixPublicationRecord} {CM : CompactManifest}.

(** The answer to the request for a body, among the lines after the hello. *)
Fixpoint await_body (number : Z) (expected_hash : Hash256) (lines : list (res string P2pMessage)) : res string Block :=
  match lines with
  | [] => Err "P2P peer did not return the requested block body"%string
  | line :: lines =>
      let? message := line in
      match message with
      | BlockBody block =>
          if (hdr_number (blk_header block) =? number) && bool_decide (header_hash (blk_header block) = expected_hash)
          then Ok block else Err "P2P peer returned an unexpected block"%string
      | BlockNotFound hash =>
          if bool_decide (hash = hash_to_hex expected_hash) then Err "block was not found"%string
          else await_body number expected_hash lines
      | Hello _ _ _ _ _ _ _ => Err "P2P peer sent duplicate hello"%string
      | _ => await_body number expected_hash lines
      end
  end.

Section node.
Context (rc : ReplayConfig) (network : NetworkConfig) (n : NodeStorage).

(** The check of the first line of a peer. *)
Definition verify_greeting (certificate : list byte) (hello : P2pMessage) : res string unit :=
  match hello with
  | Hello node_mode best_number best_hash profile key signature tls_certificate_hash =>
      verify_p2p_identity_for_profile node_mode best_number best_hash profile key signature tls_certificate_hash
        (Some certificate)
        (if bool_decide (nw_trusted_peer_keys network = []) then None else Some (nw_trusted_peer_keys network))
        (network_consensus_profile rc (configured_genesis_hash n))
  | _ => Err "P2P peer did not send hello first"%string
  end.

Definition fetch_rpc_block_body (peer : Conversation) (number : Z) (expected_hash : Hash256) : res string Block :=
  let? certificate := cv_connection peer in
  match cv_lines peer with
  | [] => Err "P2P peer closed before hello"%string
  | line :: lines =>
      let? hello := line in
      verify_greeting certificate hello ;?
      match cv_request_error peer with
      | Some e => Err e
      | None => await_body number expected_hash (take MAX_RPC_BODY_FETCH_MESSAGES lines)
      end
  end.

(** [historical_peers]: what each of them answers to the request for a hash. *)
Context (historical_peers : list (Hash256 -> Conversation)).

Fixpoint first_body (number : Z) (expected_hash : Hash256) (peers : list (Hash256 -> Conversation))
    : res string (option Block) :=
  match peers with
  | [] => Ok None
  | peer :: peers =>
      match fetch_rpc_block_body (peer expected_hash) number expected_hash with
      | Ok block => Ok (Some block)
      | Err _ => first_body number expected_hash peers
      | Panic => Panic
      end
  end.

Definition load_rpc_block (number : Z) : res string (option Block) :=
  match node_block_by_number n number with
  | Ok block => Ok (Some block)
  | Err NotFound =>
      match node_header_by_number n number with
      | Ok header => first_body number (header_hash header) (take MAX_RPC_BODY_FETCH_PEERS historical_peers)
      | Err NotFound => Ok None
      | Err e => Err (storage_message e)
      | Panic => Panic
      end
  | Err e => Err (storage_message e)
  | Panic => Panic
  end.

(** ** The state at a height *)

Definition revm_state_from_snapshot (snapshot : EvmStateSnapshot) : RevmState := revm_state_of_accounts snapshot.

(** What one block does to the state, given the timestamp below it. *)
Definition replay_state (state : RevmState) (block : Block) (parent_timestamp : Z) : res string RevmState :=
  if existsb is_evm_transaction (blk_transactions block) then
    let? simulation := simulate_evm_state_transition_from_state state block parent_timestamp in
    Ok (sim_state simulation)
  else
    let? accounts := accounts_from_revm_state state in
    let? (next_accounts, _, _) := simulate_state_transition_from_accounts accounts block parent_timestamp in
    Ok (apply_accounts_to_revm_state state next_accounts).

Definition replay_height (state : RevmState) (height : Z) : res string RevmState :=
  let? block := load_rpc_block height in
  let? block := ok_or block "historical block body unavailable"%string in
  let? parent_timestamp :=
    if height =? 0 then Ok 0
    else
      let? parent := load_rpc_block (height - 1) in
      Ok (from_option (fun b => hdr_timestamp_seconds (blk_header b)) 0 parent) in
  replay_state state block parent_timestamp.

Definition load_historical_evm_state (number : Z) : res string RevmState :=
  let? snapshot := of_full (fun s => any_res (evm_state_snapshot_at_or_before s number))
    (fun _ => Err "historical EVM state is unavailable on partial storage"%string) n in
  let? (start, state) :=
    match snapshot with
    | Some (height, snapshot) => Ok (height, revm_state_from_snapshot snapshot)
    | None =>
        if number <=? MAX_HISTORICAL_EVM_REPLAY_BLOCKS then Ok (0, ∅)
        else Err "historical EVM snapshot is unavailable"%string
    end in
  fold_left (fun acc height => let? state := acc in replay_height state height)
    (range_incl (sat_add U64_MAX start 1) number) (Ok state).

(** ** Queries of the state *)

Definition resolve_state_block_tag (params : Params) (index : nat) : res string (option Z) :=
  let tag := default (B "latest") (param params index ≫= as_str) in
  let? best := any_res (node_best_header n) in
  let latest := hdr_number best in
  if bool_decide (tag ∈ tip_tags) then Ok None
  else if bool_decide (tag = B "earliest") then Ok (Some 0)
  else
    let? number := parse_hex_u64 tag in
    if number =? latest then Ok None
    else if number <? latest then Ok (Some number)
    else Err "requested EVM state block is ahead of the chain tip"%string.

Definition rpc_evm_state_at (historical_number : option Z) : res string (BlockHeader * RevmState) :=
  match historical_number with
  | Some number =>
      let? header := any_res (node_header_by_number n number) in
      let? state := load_historical_evm_state number in
      Ok (header, state)
  | None =>
      let? header := any_res (node_best_header n) in
      let? state := node_evm_state n in
      Ok (header, state)
  end.

Definition address_param (params : Params) : res RpcError Address :=
  ok_or ((param params 0 ≫= as_str) ≫= (fun text => found (address_from_hex text)))
    (rpc_error (-32602) "missing or invalid address parameter").

Definition server_error {A} (r : res string A) : res RpcError A := res_map_err (rpc_error (-32000)) r.

(** The state of a past height, or the current value. *)
Definition at_height {A} (historical_number : option Z) (past : RevmState -> res string A) (current : res string A)
    : res RpcError A :=
  server_error
    match historical_number with
    | Some number => let? state := load_historical_evm_state number in past state
    | None => current
    end.

Definition rpc_get_balance (params : Params) : res RpcError Value :=
  let? historical_number := server_error (resolve_state_block_tag params 1) in
  let? address := address_param params in
  let? balance := at_height historical_number
    (fun state =>
       let balance := u256_val (ra_balance (revm_account state address)) in
       if U128_MAX <? balance then Err "historical EVM balance exceeds BLQ range"%string else Ok balance)
    (node_balance n address) in
  Ok (Text (quantity balance)).

Definition rpc_get_transaction_count (params : Params) : res RpcError Value :=
  let? historical_number := server_error (resolve_state_block_tag params 1) in
  let? address := address_param params in
  let? nonce := at_height historical_number (fun state => Ok (ra_nonce (revm_account state address)))
    (node_nonce n address) in
  Ok (Text (quantity nonce)).

Definition rpc_get_code (params : Params) : res RpcError Value :=
  let? historical_number := server_error (resolve_state_block_tag params 1) in
  ok_or params (rpc_error (-32602) "eth_getCode requires address and block tag") ;?
  let? address := address_param params in
  let? code := at_height historical_number (fun state => Ok (ra_code (revm_account state address)))
    (node_evm_code n address) in
  Ok (Text (B "0x" ++ hex_encode code)).

Definition rpc_get_storage_at (params : Params) : res RpcError Value :=
  let? historical_number := server_error (resolve_state_block_tag params 2) in
  ok_or params (rpc_error (-32602) "eth_getStorageAt requires address, position, and block tag") ;?
  let? address := address_param params in
  let? slot := ok_or ((param params 1 ≫= as_str) ≫= (fun text => found (hash_from_hex text)))
    (rpc_error (-32602) "missing or invalid storage position") in
  let? value := at_height historical_number
    (fun state => Ok (from_option u256_to_be HASH_ZERO (ra_storage (revm_account state address) !! u256_from_be slot)))
    (node_evm_storage_at n address slot) in
  Ok (Text (B "0x" ++ hash_to_hex value)).
End node.
End history.

(** ** Quantities read back *)

Lemma hex_value_digit d : 0 <= d < 16 -> hex_value (hex_digit d) = Some d.
Proof.
  intros Hd. unfold hex_value, hex_digit. rewrite u8_val_as_u8.
  destruct (Z.ltb_spec d 10); rewrite Z.mod_small by lia; repeat if_false; repeat if_true; f_equal; lia.
Qed.

Lemma hex_digits_parse max f : forall z, 0 <= z <= max -> z < 16 ^ Z.of_nat f ->
  fold_left (hex_step max) (hex_digits f z) (Ok 0) = Ok z.
Proof.
  assert (forall a d, 0 <= a -> 0 <= d < 16 -> a * 16 + d <= max -> hex_step max (Ok a) (hex_digit d) = Ok (a * 16 + d)) as Hstep.
  { intros a d Ha Hd Hm. unfold hex_step, checked_mul, checked_add. rewrite hex_value_digit by done. cbn [res_bind ok_or].
    replace (a * 16 <=? max) with true by lia. cbn [res_bind ok_or]. by replace (a * 16 + d <=? max) with true by lia. }
  induction f as [|f IH]; intros z Hz Hf; [cbn in *; f_equal; lia|]. cbn [hex_digits]. destruct (Z.ltb_spec z 16).
  - cbn [fold_left]. rewrite (Hstep 0 z) by lia. done.
  - rewrite fold_left_app, IH; [|dlia|].
    + cbn [fold_left]. rewrite Hstep by dlia. f_equal. dlia.
    + rewrite Nat2Z.inj_succ, Z.pow_succ_r in Hf by lia. dlia.
Qed.

Lemma hex_digits_head f z : 0 <= z -> exists d rest, 0 <= d < 16 /\ hex_digits (Datatypes.S f) z = hex_digit d :: rest.
Proof.
  revert z. induction f as [|f IH]; intros z Hz; cbn [hex_digits].
  - destruct (Z.ltb_spec z 16); [by exists z, []|]. exists (z mod 16), []. split; [dlia|done].
  - destruct (Z.ltb_spec z 16); [by exists z, []|]. destruct (IH (z / 16)) as (d & rest & Hd & E); [dlia|].
    cbn [hex_digits] in E. rewrite E. exists d, (rest ++ [hex_digit (z mod 16)]). by split.
Qed.

(** What the node prints as a quantity it reads back as the same number. *)
Lemma parse_quantity max z : 0 <= z <= max -> z < 16 ^ 32 -> parse_hex_quantity max (quantity z) = Ok z.
Proof.
  intros Hz Hf. unfold parse_hex_quantity, quantity. rewrite strip_prefix_app. cbn [ok_or res_bind].
  destruct (hex_digits_head 31 z) as (d & rest & Hd & E); [lia|]. unfold from_str_radix_16. rewrite E.
  assert (u8_val (hex_digit d) <> 43) as Hne.
  { unfold hex_digit. rewrite u8_val_as_u8. destruct (Z.ltb_spec d 10); rewrite Z.mod_small; lia. }
  destruct (Z.eqb_spec (u8_val (hex_digit d)) 43); [done|]. rewrite <- E. by apply hex_digits_parse.
Qed.

Lemma parse_quantity_u64 z : in_u64 z -> parse_hex_u64 (quantity z) = Ok z.
Proof.
  intros Hz. apply parse_quantity; [done|]. unfold in_u64, U64_MAX in Hz. change (16 ^ 32) with (2 ^ 128). lia.
Qed.

(** A quantity is none of the names of blocks. *)
Lemma quantity_no_tag z : (quantity z ∉ tip_tags) /\ quantity z <> B "earliest".
Proof.
  split; [|discriminate]. intros Hin. unfold tip_tags in Hin. rewrite !elem_of_cons in Hin.
  by destruct Hin as [?|[?|[?|[?|?%not_elem_of_nil]]]].
Qed.

(** ** What the snapshot rows hold *)

(** The accounts before the block at index [i]. *)
Definition before (hist : list EvmStateSnapshot) (i : nat) : EvmStateSnapshot := default ∅ (last (take i hist)).

Section rows.
Context {S : Sled} {HX : HexCodec} {D : Digests} {U : U256Ops} {R : Revm}.
Context {JB : Json Block} {JH : Json BlockHeader} {JT : Json Transaction} {JR : Json StoredReceipt}.
Context {JE : Json (list SerializedEvmSnapshotEntry)}.
Context {IO : FileIo} {JM : Json GenerationManifest} {JC : Json ReplayCheckpoint}.
Context {JP : Json GenerationPublicationRecord} {JS : Json SuffixPublicationRecord} {CM : CompactManifest}.

(** One row for every height of the history that is a multiple of the
    interval, and no other. *)
Record snapshot_rows (m : Contents) (hist : list EvmStateSnapshot) : Prop := {
  sr_row : forall k v, m !! k = Some v -> has_prefix EVM_SNAPSHOT_PREFIX k = true ->
    exists i accts, k = evm_snapshot_key (Z.of_nat i) /\ Z.of_nat i mod EVM_STATE_SNAPSHOT_INTERVAL = 0 /\
      hist !! i = Some accts /\ json_slice v = Ok (snapshot_entries accts);
  sr_stored : forall i, (i < length hist)%nat -> Z.of_nat i mod EVM_STATE_SNAPSHOT_INTERVAL = 0 ->
    is_Some (m !! evm_snapshot_key (Z.of_nat i));
}.

Lemma snapshot_rows_other m m' hist :
  snapshot_rows m hist -> (forall k, has_prefix EVM_SNAPSHOT_PREFIX k = true -> m' !! k = m !! k) -> snapshot_rows m' hist.
Proof.
  intros [H1 H2] E. split.
  - intros k v Hk Hp. apply H1; [by rewrite <- E|done].
  - intros i Hi Hm. rewrite E; [by apply H2|]. apply prefix_app.
Qed.

Lemma snapshot_key_inj i j : in_u64 i -> in_u64 j -> evm_snapshot_key i = evm_snapshot_key j -> i = j.
Proof. intros Hi Hj E. apply app_inv_head in E. by apply pad20_inj in E. Qed.

(** The last stored snapshot at or before a height of the history. *)
Lemma newest_snapshot {HR : SledReadable} s hist n :
  snapshot_rows (contents s) hist -> in_u64 (Z.of_nat (length hist)) -> (n < length hist)%nat ->
  exists i accts, (i <= n)%nat /\ hist !! i = Some accts /\
    evm_state_snapshot_at_or_before s (Z.of_nat n) = Ok (Some (Z.of_nat i, accts)).
Proof.
  intros [Hrow Hstored] Hfit Hn. unfold evm_state_snapshot_at_or_before. rewrite read_rows_reliable.
  assert (forall i, (i < length hist)%nat -> in_u64 (Z.of_nat i)) as Hu by (unfold in_u64 in *; lia).
  assert (Forall (fun kv => exists i accts, (i < length hist)%nat /\ snapshot_number kv.1 = Ok (Z.of_nat i) /\
    hist !! i = Some accts /\ json_slice kv.2 = Ok (snapshot_entries accts)) (prefix_entries EVM_SNAPSHOT_PREFIX (contents s))) as Hall.
  { apply List.Forall_forall. intros [k v] Hin%list_elem_of_In. apply elem_of_prefix_entries in Hin as [Hk Hp].
    destruct (Hrow k v Hk Hp) as (i & accts & -> & _ & Hi & Hv). exists i, accts.
    pose proof (lookup_lt_Some _ _ _ Hi). split; [done|]. split; [|done]. by apply snapshot_number_key, Hu. }
  assert (exists r, fold_left (fun acc kv => let? b := acc in snapshot_step (Z.of_nat n) b kv)
    (prefix_entries EVM_SNAPSHOT_PREFIX (contents s)) (Ok None) = Ok r) as [r Hr].
  { clear Hrow Hstored. generalize (@None (Z * EvmStateSnapshot)).
    induction Hall as [|[k v] rows (i & accts & _ & Hk & _ & Hv) _ IH]; intros best; [by exists best|].
    cbn [fold_left res_bind]. unfold snapshot_step at 2. cbn [fst snd] in *. rewrite Hk. cbn [res_bind].
    destruct (_ <? _); [apply IH|]. rewrite Hv. cbn [res_bind]. apply IH. }
  rewrite Hr. apply at_or_before_fold in Hr as (H1 & _ & H3).
  destruct (Hstored 0%nat) as [v0 Hv0]; [lia|done|].
  destruct (H1 (evm_snapshot_key (Z.of_nat 0), v0)) as (n0 & Hn0 & Hex).
  { apply elem_of_prefix_entries. split; [done|]. apply prefix_app. }
  cbn [fst] in Hn0. rewrite snapshot_number_key in Hn0 by (apply Hu; lia). injection Hn0 as <-.
  destruct Hex as (n' & m' & -> & _); [lia|].
  destruct (H3 n' m' eq_refl) as [?|(Hle & [k v] & es & Hin & Hk & Hes & ->)]; [done|].
  rewrite List.Forall_forall in Hall. destruct (Hall (k, v)) as (i & accts & Hi & Hk' & Hl & Hv); [by apply list_elem_of_In|].
  cbn [fst snd] in *. rewrite Hk in Hk'. injection Hk' as ->. rewrite Hes in Hv. injection Hv as ->.
  rewrite snapshot_entries_inv. exists i, accts. split; [lia|]. by split.
Qed.

(** The snapshot after a block adds a row when its height is due. *)
Lemma persist_snapshot_rows s u s' hist accts :
  account_rep (contents s) accts -> snapshot_rows (contents s) hist -> in_u64 (Z.of_nat (length hist)) ->
  persist_historical_evm_snapshot (Z.of_nat (length hist)) s = (Ok u, s') ->
  snapshot_rows (contents s') (hist ++ [accts]).
Proof.
  intros Ha [Hrow Hstored] Hfit H. unfold persist_historical_evm_snapshot in H.
  assert (forall i x, hist !! i = Some x -> (hist ++ [accts]) !! i = Some x) as Hold.
  { intros i x Hi. by apply lookup_app_l_Some. }
  destruct (Z.eqb_spec (Z.of_nat (length hist) mod EVM_STATE_SNAPSHOT_INTERVAL) 0) as [Hm|Hm]; cbn [negb] in H.
  - apply st_bind_ok in H as (snapshot & s1 & [Hs ->]%st_read_ok & H).
    apply (account_snapshot_rep _ _ Ha) in Hs as ->. unfold put_evm_state_snapshot in H. st_inv.
    rename H0 into Hvec, a into value.
    assert (json_slice value = Ok (snapshot_entries accts)) as Hval by (apply map_err_ok; by apply json_roundtrip).
    rewrite H1 in H. rewrite H. split.
    + intros k v Hk Hp. destruct (decide (k = evm_snapshot_key (Z.of_nat (length hist)))) as [->|Hne].
      * rewrite lookup_insert_eq in Hk. injection Hk as <-. exists (length hist), accts. split; [done|]. split; [done|].
        split; [|done]. apply lookup_snoc_Some. by right.
      * rewrite lookup_insert_ne in Hk by done. destruct (Hrow k v Hk Hp) as (i & x & -> & Hi & Hx & Hv). eauto 10.
    + intros i Hi Hm'. rewrite length_app in Hi. cbn [length] in Hi. destruct (decide (i = length hist)) as [->|Hne].
      * rewrite lookup_insert_eq. by eexists.
      * rewrite lookup_insert_ne; [apply Hstored; [lia|done]|]. intros E. apply snapshot_key_inj in E; unfold in_u64 in *; lia.
  - apply st_ret_ok in H as [_ ->]. split.
    + intros k v Hk Hp. destruct (Hrow k v Hk Hp) as (i & x & -> & Hi & Hx & Hv). eauto 10.
    + intros i Hi Hm'. rewrite length_app in Hi. cbn [length] in Hi. apply Hstored; [|done].
      destruct (decide (i = length hist)) as [->|Hne]; [done|lia].
Qed.
End rows.

(** ** The state of the past is what it was *)

(** The rows outside the accounts and the derived rows other than snapshots. *)
Definition beside_snapshots (k : list byte) : bool := negb (has_prefix EVM_SNAPSHOT_PREFIX k).

Section exact.
Context {S : Sled} {HX : HexCodec} {D : Digests} {U : U256Ops} {R : Revm}.
Context {JB : Json Block} {JH : Json BlockHeader} {JT : Json Transaction} {JR : Json StoredReceipt}.
Context {JE : Json (list SerializedEvmSnapshotEntry)}.
Context {IO : FileIo} {JM : Json GenerationManifest} {JC : Json ReplayCheckpoint}.
Context {JP : Json GenerationPublicationRecord} {JS : Json SuffixPublicationRecord} {CM : CompactManifest}.
Context {HR : SledReliable}.

Lemma account_key_beside k : account_keys k = true -> beside_snapshots k = true.
Proof. intros Hk. unfold beside_snapshots. rewrite (other_prefix (B "account:") EVM_SNAPSHOT_PREFIX k); done. Qed.

Lemma touches_weaken {A} (P Q : list byte -> bool) (m : St A) :
  (forall k, P k = true -> Q k = true) -> touches P m -> touches Q m.
Proof.
  intros HPQ H s a s' k Hm Hk. apply (H s a s' k Hm). destruct (P k) eqn:E; [|done]. apply HPQ in E. congruence.
Qed.

Lemma block_rows_beside b s u s' k :
  insert_block b s = (Ok u, s') -> has_prefix EVM_SNAPSHOT_PREFIX k = true -> contents s' !! k = contents s !! k.
Proof.
  intros (bv & hv & ops & _ & _ & Hops & ->)%insert_block_written Hk.
  destruct (block_written_families (contents s) b bv hv _ ops Hops) as (_ & _ & _ & Hk1).
  rewrite <- (app_nil_r (B "best:number")). other_family (B "best:number") EVM_SNAPSHOT_PREFIX.
  apply (Hk1 EVM_SNAPSHOT_PREFIX); [by repeat constructor|done].
Qed.

(** An insertion writes the snapshot last, from the accounts it leaves. *)
Lemma insert_full_snapshot block g g' :
  insert_full_block block g = (Ok tt, g') ->
  exists s, (forall k, has_prefix EVM_SNAPSHOT_PREFIX k = true -> contents s !! k = contents (gn_db g) !! k) /\
    persist_historical_evm_snapshot (block_number block) s = (Ok tt, gn_db g').
Proof.
  intros H. unfold insert_full_block in H. fold (block_number block) in H.
  apply st_bind_ok in H as ([] & g1 & H1 & H). apply st_bind_ok in H as ([] & g2 & [H2 _]%on_db_ok & H).
  apply refresh_db in H. rewrite H. exists (gn_db g1). split; [|done]. clear H H2 g2 g'.
  assert (forall s s', set_reward_indexed_to (block_number block) s = (Ok tt, s') ->
    forall k, has_prefix EVM_SNAPSHOT_PREFIX k = true -> contents s' !! k = contents s !! k) as Hreward.
  { intros s s' Hs k Hk. assert (touches beside_snapshots (set_reward_indexed_to (block_number block))) as Ht.
    { unfold set_reward_indexed_to. frame. }
    apply (Ht _ _ _ _ Hs). unfold beside_snapshots. by rewrite Hk. }
  assert (forall (m : St unit) s s', touches account_keys m -> m s = (Ok tt, s') ->
    forall k, has_prefix EVM_SNAPSHOT_PREFIX k = true -> contents s' !! k = contents s !! k) as Haccounts.
  { intros m s s' Hm Hs k Hk. apply (touches_weaken _ _ _ account_key_beside Hm _ _ _ _ Hs).
    unfold beside_snapshots. by rewrite Hk. }
  intros k Hk. destruct (existsb is_evm_transaction (blk_transactions block)).
  - apply st_bind_ok in H1 as (pt & g0 & [_ ->]%st_read_ok & H1). apply st_bind_ok in H1 as (st & g0 & [_ ->]%st_read_ok & H1).
    apply st_bind_ok in H1 as (sim & g0 & [_ ->]%st_res_ok & H1).
    apply st_bind_ok in H1 as ([] & g2 & [H2 _]%on_db_ok & H1). apply st_bind_ok in H1 as ([] & g3 & [H3 _]%on_db_ok & [H1 _]%on_db_ok).
    rewrite (Hreward _ _ H1 k Hk), (Haccounts _ _ _ (touches_persist _) H3 k Hk). by apply (block_rows_beside _ _ _ _ _ H2).
  - apply st_bind_ok in H1 as (pt & g0 & [_ ->]%st_read_ok & H1). apply st_bind_ok in H1 as (st & g0 & [_ ->]%st_read_ok & H1).
    apply st_bind_ok in H1 as ([[m rs] gas] & g0 & [_ ->]%st_res_ok & H1).
    apply st_bind_ok in H1 as ([] & g2 & [H2 _]%on_db_ok & H1). apply st_bind_ok in H1 as ([] & g3 & [H3 _]%on_db_ok & [H1 _]%on_db_ok).
    rewrite (Hreward _ _ H1 k Hk), (Haccounts _ _ _ (touches_put_accounts _) H3 k Hk). by apply (block_rows_beside _ _ _ _ _ H2).
Qed.

Lemma insert_full_rows block g g' hist accts :
  snapshot_rows (contents (gn_db g)) hist -> account_rep (contents (gn_db g')) accts ->
  block_number block = Z.of_nat (length hist) -> in_u64 (Z.of_nat (length hist)) ->
  insert_full_block block g = (Ok tt, g') -> snapshot_rows (contents (gn_db g')) (hist ++ [accts]).
Proof.
  intros Hrows Ha Hn Hu H. apply insert_full_snapshot in H as (s & Hs & H). rewrite Hn in H.
  apply (persist_snapshot_rows s tt _ hist accts); [|by eapply snapshot_rows_other|done|done].
  eapply account_rep_other; [exact Ha|]. intros k Hk. symmetry.
  apply (touches_snapshot _ _ _ _ _ H). by apply account_key_state.
Qed.

(** What is asked of a block: its fields fit their types, and executing it
    keeps every account there was. *)
Record keeps_accounts (b : Block) : Prop := {
  ka_header : wf_header (blk_header b);
  ka_transactions : Forall wf_tx (blk_transactions b);
  ka_execution : existsb is_evm_transaction (blk_transactions b) = true -> forall state pt evm r,
    typed_state state -> execute_evm_state_transition_in_place state b pt = (evm, Ok r) ->
    typed_state evm /\ forall a, is_Some (state !! a) -> is_Some (evm !! a);
}.

(** A store that holds the chain [c], the accounts the last block led to, and
    the snapshots of the heights that were due; [hist] lists the accounts after
    each block. *)
Record historic (g : Generation) (c : list Block) (hist : list EvmStateSnapshot) : Prop := {
  hc_chain : chain_rep (contents (gn_db g)) c;
  hc_accounts : account_rep (contents (gn_db g)) (default ∅ (last hist));
  hc_zero : no_zero_slots (revm_state_of_accounts (default ∅ (last hist)));
  hc_length : length hist = length c;
  hc_steps : forall i b accts, c !! i = Some b -> hist !! i = Some accts ->
    replay_state (revm_state_of_accounts (before hist i)) b (tip_timestamp (take i c)) = Ok (revm_state_of_accounts accts);
  hc_snapshots : snapshot_rows (contents (gn_db g)) hist;
}.

Lemma own_accounts accts :
  wf_evm_accounts accts -> accounts_from_revm_state (revm_state_of_accounts accts) = Ok (native_of accts).
Proof.
  intros Hwf. unfold accounts_from_revm_state. apply try_map_ok. intros a. rewrite revm_state_lookup.
  unfold native_of. rewrite lookup_fmap. destruct (accts !! a) as [[[[b n] c] st]|] eqn:E; [|done]. cbn.
  destruct (Hwf _ _ E) as (_ & Hb & _). cbn in Hb. unfold native_account. cbn.
  assert (U128_MAX < U256_MAX) as Hmax by (by vm_compute). rewrite u256_of_val by (unfold in_u128 in *; lia).
  destruct (Z.ltb_spec U128_MAX b); [unfold in_u128 in Hb; lia|done].
Qed.

Lemma own_state_typed accts : wf_evm_accounts accts -> typed_state (revm_state_of_accounts accts).
Proof.
  intros Hwf a acc Ha. rewrite revm_state_lookup in Ha. destruct (accts !! a) as [x|] eqn:E; [|done].
  injection Ha as <-. destruct (Hwf _ _ E) as (Hwa & _ & Hn & _). destruct x as [[[b n] c] st]. by split.
Qed.

(** The accounts an insertion leaves are those of the replay of its block. *)
Lemma insert_replays block g g' c accts :
  chain_rep (contents (gn_db g)) c -> account_rep (contents (gn_db g)) accts ->
  no_zero_slots (revm_state_of_accounts accts) ->
  block_number block = Z.of_nat (length c) -> list_fits (c ++ [block]) -> keeps_accounts block ->
  insert_full_block block g = (Ok tt, g') ->
  chain_rep (contents (gn_db g')) (c ++ [block]) /\
  exists accts', account_rep (contents (gn_db g')) accts' /\ no_zero_slots (revm_state_of_accounts accts') /\
    replay_state (revm_state_of_accounts accts) block (tip_timestamp c) = Ok (revm_state_of_accounts accts').
Proof.
  intros Hc Ha Hz Hn Hf [Hh Hts Hkeep] H. pose proof (rep_wf _ _ Ha) as Hwf. unfold replay_state.
  destruct (existsb is_evm_transaction (blk_transactions block)) eqn:Hev.
  - assert (forall evm r, execute_evm_state_transition_in_place (revm_state_of_accounts accts) block (tip_timestamp c) = (evm, Ok r) ->
      typed_state evm /\ forall a, is_Some (revm_state_of_accounts accts !! a) -> is_Some (evm !! a)) as Hk.
    { intros evm r. apply (Hkeep eq_refl). by apply own_state_typed. }
    destruct (insert_evm_rep block g g' c accts Hc Ha Hn Hf Hev) as (Hc' & evm & rs & gas & new & Hx & Hnew & Ha'); [|done|].
    { intros sim Hsim. unfold simulate_evm_state_transition_from_state in Hsim.
      destruct (execute_evm_state_transition_in_place _ _ _) as [evm [[rs gas]|e|]]; [|done..].
      injection Hsim as <-. by destruct (Hk evm (rs, gas)). }
    destruct (Hk _ _ Hx) as [_ Hgrow]. pose proof (evm_transition_no_zero _ _ _ _ _ Hz Hx) as Hze.
    destruct (persisted_state evm accts new Hze Hnew) as [Hload _].
    assert (evm ∪ revm_state_of_accounts accts = evm) as Hun.
    { apply map_eq. intros a. rewrite lookup_union.
      destruct (evm !! a) as [x|] eqn:E; [by destruct (revm_state_of_accounts accts !! a)|].
      destruct (revm_state_of_accounts accts !! a) as [y|] eqn:E0; [|done].
      destruct (Hgrow a) as [x Hx']; [by rewrite E0|congruence]. }
    split; [done|]. exists ((stored_account <$> evm) ∪ accts). rewrite Hload, Hun. split; [done|]. split; [done|].
    unfold simulate_evm_state_transition_from_state. by rewrite Hx.
  - destruct (insert_plain_rep block g g' c accts Hc Ha Hn Hf Hh Hts Hev H) as (Hc' & m & rs & gas & Hsim & Ha').
    split; [done|]. exists (put_over m accts). rewrite loaded_put_over. split; [done|].
    split; [by apply apply_accounts_no_zero|]. rewrite own_accounts by done. cbn [res_bind]. by rewrite Hsim.
Qed.

Lemma historic_step block g g' c hist :
  historic g c hist -> block_number block = Z.of_nat (length c) -> list_fits (c ++ [block]) -> keeps_accounts block ->
  insert_full_block block g = (Ok tt, g') ->
  exists accts, historic g' (c ++ [block]) (hist ++ [accts]).
Proof.
  intros [Hc Ha Hz Hl Hst Hsn] Hn Hf Hk H.
  destruct (insert_replays block g g' c _ Hc Ha Hz Hn Hf Hk H) as (Hc' & accts & Ha' & Hz' & Hr).
  exists accts. split; [done| | | | |].
  - by rewrite last_snoc.
  - by rewrite last_snoc.
  - rewrite !length_app. cbn. lia.
  - intros i b x Hb Hx. pose proof (lookup_lt_Some _ _ _ Hb) as Hi. rewrite length_app in Hi. cbn in Hi.
    unfold before. destruct (decide (i = length c)) as [->|Hne].
    + rewrite lookup_app_r, Nat.sub_diag in Hb by done. injection Hb as <-.
      rewrite <- Hl in Hx. rewrite lookup_app_r, Nat.sub_diag in Hx by done. injection Hx as <-.
      rewrite take_app_length, <- Hl, take_app_length. exact Hr.
    + rewrite lookup_app_l in Hb by lia. rewrite lookup_app_l in Hx by lia.
      rewrite !take_app_le by lia. by apply Hst.
  - eapply insert_full_rows; [exact Hsn|exact Ha'|by rewrite Hl| |exact H].
    rewrite Hl. unfold list_fits in Hf. rewrite length_app in Hf. unfold in_u64. cbn in Hf. lia.
Qed.

Lemma historic_run blocks g g' c hist :
  historic g c hist -> numbered_from block_number 0 (c ++ blocks) -> list_fits (c ++ blocks) -> Forall keeps_accounts blocks ->
  st_for blocks insert_full_block g = (Ok tt, g') ->
  exists more, historic g' (c ++ blocks) (hist ++ more).
Proof.
  revert g c hist. induction blocks as [|b blocks IH]; intros g c hist Hh Hnum Hf Hk H.
  - apply st_ret_ok in H as [_ ->]. exists []. by rewrite !app_nil_r.
  - apply st_for_cons in H as (g1 & H1 & H). apply List.Forall_cons_iff in Hk as [Hb Hk].
    replace (c ++ b :: blocks) with ((c ++ [b]) ++ blocks) in * by (by rewrite <- app_assoc).
    destruct (historic_step b g g1 c hist Hh) as [accts Hh1]; [| |done..|].
    + rewrite (Hnum (length c) b); [lia|]. rewrite lookup_app_l by (rewrite length_app; cbn; lia).
      apply lookup_snoc_Some. by right.
    + unfold list_fits in *. rewrite !length_app in *. lia.
    + destruct (IH g1 (c ++ [b]) (hist ++ [accts]) Hh1 Hnum Hf Hk H) as [more Hm].
      exists (accts :: more). by rewrite <- (app_assoc hist) in Hm.
Qed.

(** ** Reading the past *)

Section reading.
Context {BP : BuildProfile} {PK : PeerKeys}.
Context (rc : ReplayConfig) (network : NetworkConfig) (peers : list (Hash256 -> Conversation)).

Lemma stored_body g c i b :
  chain_rep (contents (gn_db g)) c -> c !! i = Some b -> load_rpc_block rc network (Full g) peers (Z.of_nat i) = Ok (Some b).
Proof.
  intros Hc Hb. unfold load_rpc_block, node_block_by_number, of_full.
  destruct (header_by_number_rep (gn_db g) c (Z.of_nat i) Hc) as [_ ->].
  - eapply index_u64; [apply Hc|]. by eapply lookup_lt_Some.
  - by rewrite Nat2Z.id, Hb.
Qed.

Lemma tip_timestamp_take c i b : c !! i = Some b -> tip_timestamp (take (Datatypes.S i) c) = hdr_timestamp_seconds (blk_header b).
Proof. intros Hb. unfold tip_timestamp. by rewrite (take_S_r _ _ _ Hb), last_snoc. Qed.

(** One step of the replay. *)
Lemma replay_height_exact g c hist i x y :
  historic g c hist -> hist !! i = Some x -> hist !! Datatypes.S i = Some y ->
  replay_height rc network (Full g) peers (revm_state_of_accounts x) (Z.of_nat i + 1) = Ok (revm_state_of_accounts y).
Proof.
  intros Hh Hx Hy. pose proof (hc_chain _ _ _ Hh) as Hc.
  destruct (lookup_lt_is_Some_2 c i) as [p Hp]; [rewrite <- (hc_length _ _ _ Hh); by eapply lookup_lt_Some|].
  destruct (lookup_lt_is_Some_2 c (Datatypes.S i)) as [b Hb]; [rewrite <- (hc_length _ _ _ Hh); by eapply lookup_lt_Some|].
  unfold replay_height. replace (Z.of_nat i + 1) with (Z.of_nat (Datatypes.S i)) by lia.
  rewrite (stored_body g c _ b Hc Hb). cbn [res_bind ok_or]. destruct (Z.eqb_spec (Z.of_nat (Datatypes.S i)) 0); [lia|].
  replace (Z.of_nat (Datatypes.S i) - 1) with (Z.of_nat i) by lia. rewrite (stored_body g c _ p Hc Hp). cbn [res_bind from_option].
  rewrite <- (tip_timestamp_take c i p Hp). pose proof (hc_steps _ _ _ Hh _ _ _ Hb Hy) as Hs.
  unfold before in Hs. by rewrite (take_S_r _ _ _ Hx), last_snoc in Hs.
Qed.

Lemma replay_range_exact g c hist k : forall i x y,
  historic g c hist -> hist !! i = Some x -> hist !! (i + k)%nat = Some y ->
  fold_left (fun acc height => let? state := acc in replay_height rc network (Full g) peers state height)
    (range_incl (Z.of_nat i + 1) (Z.of_nat (i + k))) (Ok (revm_state_of_accounts x)) = Ok (revm_state_of_accounts y).
Proof.
  induction k as [|k IH]; intros i x y Hh Hx Hy.
  - rewrite Nat.add_0_r in *. rewrite range_incl_nil by lia. cbn. congruence.
  - destruct (lookup_lt_is_Some_2 hist (Datatypes.S i)) as [z Hz]; [apply lookup_lt_Some in Hy; lia|].
    rewrite range_incl_cons by lia. cbn [fold_left res_bind]. rewrite (replay_height_exact g c hist i x z Hh Hx Hz).
    replace (Z.of_nat i + 1 + 1) with (Z.of_nat (Datatypes.S i) + 1) by lia.
    replace (i + Datatypes.S k)%nat with (Datatypes.S i + k)%nat in * by lia. by apply IH.
Qed.

Lemma load_exact g c hist n accts :
  historic g c hist -> hist !! n = Some accts ->
  load_historical_evm_state rc network (Full g) peers (Z.of_nat n) = Ok (revm_state_of_accounts accts).
Proof.
  intros Hh Hn. pose proof (lookup_lt_Some _ _ _ Hn) as Hlt.
  assert (in_u64 (Z.of_nat (length hist))) as Hu.
  { unfold in_u64. rewrite (hc_length _ _ _ Hh). pose proof (cr_fits _ _ (hc_chain _ _ _ Hh)) as F. unfold list_fits in F. lia. }
  destruct (newest_snapshot (gn_db g) hist n (hc_snapshots _ _ _ Hh) Hu Hlt) as (i & x & Hi & Hx & Hs).
  unfold load_historical_evm_state. cbn [of_full]. rewrite Hs. cbn [any_res res_map_err res_bind].
  rewrite sat_add_exact by (unfold in_u64 in *; lia).
  replace n with (i + (n - i))%nat in Hn |- * by lia. by apply (replay_range_exact g c hist (n - i) i x accts).
Qed.

(** *** The tags *)

Lemma tag_now n params index best :
  node_best_header n = Ok best -> param params index = None -> resolve_state_block_tag n params index = Ok None.
Proof. intros Hb Hp. unfold resolve_state_block_tag. by rewrite Hp, Hb. Qed.

Lemma tag_past n params index best number :
  node_best_header n = Ok best -> in_u64 number -> number < hdr_number best ->
  param params index = Some (Text (quantity number)) -> resolve_state_block_tag n params index = Ok (Some number).
Proof.
  intros Hb Hu Hlt Hp. unfold resolve_state_block_tag. rewrite Hp. cbn [mbind option_bind as_str default]. rewrite Hb.
  cbn [any_res res_map_err res_bind]. cbn [from_option]. change (id (quantity number)) with (quantity number).
  destruct (quantity_no_tag number) as [Htag Hne].
  rewrite !bool_decide_false by done.
  rewrite parse_quantity_u64 by done.
  cbn [res_bind]. repeat if_false. by if_true.
Qed.

Lemma own_address address rest :
  wf_address address -> address_param (Some (Text (address_to_hex address) :: rest)) = Ok address.
Proof.
  intros Ha. unfold address_param, param. cbn [mbind option_bind lookup list_lookup as_str].
  unfold address_from_hex, address_to_hex. rewrite fixed_from_hex_0x by (by rewrite Ha). done.
Qed.

(** *** The fields of one account *)

Lemma account_of accts a :
  revm_account (revm_state_of_accounts accts) a = revm_account_of (default entry_default (accts !! a)).
Proof. unfold revm_account. rewrite revm_state_lookup. by destruct (accts !! a). Qed.

Lemma current_balance g accts a :
  account_rep (contents (gn_db g)) accts -> wf_address a ->
  node_balance (Full g) a = Ok (u256_val (ra_balance (revm_account (revm_state_of_accounts accts) a))) /\
  u256_val (ra_balance (revm_account (revm_state_of_accounts accts) a)) <= U128_MAX /\
  node_nonce (Full g) a = Ok (ra_nonce (revm_account (revm_state_of_accounts accts) a)).
Proof.
  intros Hrep Ha. pose proof (balance_rep (gn_db g) accts a Hrep Ha) as (_ & _ & H). destruct (H HR) as [Hb Hn].
  rewrite account_of. unfold node_balance, node_nonce, of_full. rewrite Hb, Hn. cbn [any_res res_map_err].
  assert (in_u128 (default entry_default (accts !! a)).1.1.1) as Hu.
  { destruct (accts !! a) as [x|] eqn:E; [apply (rep_wf _ _ Hrep _ _ E)|by (vm_compute; split; discriminate)]. }
  assert (U128_MAX < U256_MAX) as Hmax by (by vm_compute).
  destruct (default entry_default (accts !! a)) as [[[b n] c] st]. cbn in *. unfold in_u128 in Hu.
  rewrite u256_of_val by lia. split; [done|]. split; [lia|done].
Qed.

Lemma current_code g accts a :
  account_rep (contents (gn_db g)) accts -> wf_address a ->
  node_evm_code (Full g) a = Ok (ra_code (revm_account (revm_state_of_accounts accts) a)).
Proof.
  intros Hrep Ha. rewrite account_of. unfold node_evm_code, of_full, evm_code. rewrite db_get_reliable.
  change (code_key a) with (acct_key (KCode a)). rewrite (rep_value _ _ Hrep (KCode a) Ha). cbn [acct_value].
  destruct (accts !! a) as [[[[b n] c] st]|]; cbn; [|done]. case_bool_decide as E; [by subst c|done].
Qed.

Lemma current_slot g accts a slot :
  account_rep (contents (gn_db g)) accts -> wf_address a -> wf_hash slot ->
  node_evm_storage_at (Full g) a slot =
    Ok (from_option u256_to_be HASH_ZERO (ra_storage (revm_account (revm_state_of_accounts accts) a) !! u256_from_be slot)).
Proof.
  intros Hrep Ha Hs. rewrite account_of. unfold node_evm_storage_at, of_full, evm_storage_at. rewrite db_get_reliable.
  change (storage_key a slot) with (acct_key (KSlot a slot)). rewrite (rep_value _ _ Hrep (KSlot a slot) (conj Ha Hs)).
  cbn [acct_value]. destruct (accts !! a) as [[[[b n] c] st]|] eqn:E; cbn [mbind option_bind res_bind default snd].
  - destruct (rep_wf _ _ Hrep _ _ E) as (_ & _ & _ & Hst). cbn in Hst |- *. fold (loaded_slots st).
    destruct (st !! slot) as [v|] eqn:Ev.
    + destruct (Hst _ _ Ev) as [_ Hv]. rewrite hash_slice by done. cbn.
      assert (loaded_slots st !! u256_from_be slot = Some (u256_from_be v)) as ->.
      { apply (loaded_slots_lookup st _ _ Hst). by rewrite !u256_of_bytes. }
      cbn. by rewrite u256_of_bytes.
    + destruct (loaded_slots st !! u256_from_be slot) as [y|] eqn:Ey; [|done].
      apply (loaded_slots_lookup st _ _ Hst) in Ey. rewrite u256_of_bytes in Ey by done. congruence.
  - done.
Qed.

(** *** The theorem *)

(** A store without blocks, accounts and snapshots. *)
Record fresh_store (g : Generation) : Prop := {
  fr_chain : chain_rep (contents (gn_db g)) [];
  fr_accounts : account_rep (contents (gn_db g)) ∅;
  fr_snapshots : forall k, has_prefix EVM_SNAPSHOT_PREFIX k = true -> contents (gn_db g) !! k = None;
}.

Lemma fresh_historic g : fresh_store g -> historic g [] [].
Proof.
  intros [Hc Ha Hs]. split; [done|done|apply map_Forall_empty|done|done|]. split.
  - intros k v Hk Hp. rewrite Hs in Hk; done.
  - intros i Hi. cbn in Hi. lia.
Qed.

(** The answers to a question about the state now and, on the later node, about
    the same account at a height. *)
Definition same_answer (past now : res RpcError Value) : Prop := is_ok now = true /\ past = now.

Section past.
Context (gn g' : Generation) (c : list Block) (blocks : list Block) (hist more : list EvmStateSnapshot).
Context (Hn : historic gn c hist) (Hg : historic g' (c ++ blocks) (hist ++ more)).
Context (Hc : c <> []) (Hblocks : blocks <> []).

Let n := Z.of_nat (length c) - 1.
Let accts := default ∅ (last hist).

Lemma past_state : load_historical_evm_state rc network (Full g') peers n = Ok (revm_state_of_accounts accts).
Proof using Hn Hg Hc HR.
  unfold n, accts. destruct hist as [|x l _] using rev_ind.
  - pose proof (hc_length _ _ _ Hn) as Hl. by destruct c.
  - rewrite last_snoc. cbn [default]. replace (Z.of_nat (length c) - 1) with (Z.of_nat (length l)).
    + apply (load_exact g' _ _ _ _ Hg). apply lookup_app_l_Some. apply lookup_snoc_Some. by right.
    + rewrite <- (hc_length _ _ _ Hn), length_app. cbn. lia.
Qed.

Lemma past_tip : exists best, node_best_header (Full g') = Ok best /\ n < hdr_number best /\ in_u64 n.
Proof using Hn Hg Hc Hblocks HR.
  pose proof (hc_chain _ _ _ Hg) as Hr. destruct (last blocks) as [b|] eqn:Hl; [|by apply last_None in Hl].
  exists (blk_header b). apply last_Some in Hl as [l ->]. unfold node_best_header, of_full.
  rewrite (best_header_rep _ _ Hr), app_assoc, last_snoc. split; [done|].
  pose proof (cr_fits _ _ Hr) as Hf. unfold list_fits in Hf. rewrite !length_app in Hf. cbn in Hf.
  assert (hdr_number (blk_header b) = Z.of_nat (length (c ++ l))) as ->.
  { apply (block_numbers_lookup _ _ _ (cr_numbers _ _ Hr)). rewrite app_assoc. apply lookup_snoc_Some. by right. }
  rewrite length_app. destruct c; [done|]. unfold n, in_u64. cbn [length] in *. lia.
Qed.

Lemma present_tip : exists best, node_best_header (Full gn) = Ok best.
Proof using Hn Hc HR.
  pose proof (hc_chain _ _ _ Hn) as Hr. destruct (last c) as [b|] eqn:Hl; [|by apply last_None in Hl].
  exists (blk_header b). unfold node_best_header, of_full. by rewrite (best_header_rep _ _ Hr), Hl.
Qed.

Lemma same_queries address slot :
  wf_address address -> wf_hash slot ->
  let now := Some [Text (address_to_hex address)] in
  let past := Some [Text (address_to_hex address); Text (quantity n)] in
  let slot_now := Some [Text (address_to_hex address); Text (hash_to_hex slot)] in
  let slot_past := Some [Text (address_to_hex address); Text (hash_to_hex slot); Text (quantity n)] in
  same_answer (rpc_get_balance rc network (Full g') peers past) (rpc_get_balance rc network (Full gn) peers now) /\
  same_answer (rpc_get_transaction_count rc network (Full g') peers past) (rpc_get_transaction_count rc network (Full gn) peers now) /\
  same_answer (rpc_get_code rc network (Full g') peers past) (rpc_get_code rc network (Full gn) peers now) /\
  same_answer (rpc_get_storage_at rc network (Full g') peers slot_past) (rpc_get_storage_at rc network (Full gn) peers slot_now).
Proof using Hn Hg Hc Hblocks HR.
  intros Ha Hs now past slot_now slot_past. destruct past_tip as (best & Hbest & Hlt & Hu). destruct present_tip as [tip Htip].
  pose proof (hc_accounts _ _ _ Hn) as Hrep. fold accts in Hrep.
  assert (resolve_state_block_tag (Full gn) now 1 = Ok None) as Hnow by (by apply (tag_now _ _ _ tip)).
  assert (resolve_state_block_tag (Full gn) slot_now 2 = Ok None) as Hnow2 by (by apply (tag_now _ _ _ tip)).
  assert (resolve_state_block_tag (Full g') past 1 = Ok (Some n)) as Hpast by (by apply (tag_past _ _ _ best)).
  assert (resolve_state_block_tag (Full g') slot_past 2 = Ok (Some n)) as Hpast2 by (by apply (tag_past _ _ _ best)).
  destruct (current_balance gn accts address Hrep Ha) as (Eb & Hmax & En).
  pose proof (current_code gn accts address Hrep Ha) as Ec. pose proof (current_slot gn accts address slot Hrep Ha Hs) as Es.
  assert (forall rest, param (Some (Text (address_to_hex address) :: Text (hash_to_hex slot) :: rest)) 1 = Some (Text (hash_to_hex slot))) as Hp by done.
  assert (param slot_past 1 = Some (Text (hash_to_hex slot)) /\ param slot_now 1 = Some (Text (hash_to_hex slot))) as [Hp1 Hp2] by done.
  assert (found (hash_from_hex (hash_to_hex slot)) = Some slot) as Hslot by (by rewrite hash_hex_roundtrip).
  assert (forall A (f : RevmState -> res string A) current v, f (revm_state_of_accounts accts) = Ok v ->
    at_height rc network (Full g') peers (Some n) f current = Ok v) as Hat.
  { intros A f current v Hv. unfold at_height. rewrite past_state. cbn [res_bind]. by rewrite Hv. }
  unfold rpc_get_balance, rpc_get_transaction_count, rpc_get_code, rpc_get_storage_at.
  rewrite Hnow, Hnow2, Hpast, Hpast2, Hp1, Hp2. unfold now, past, slot_now, slot_past.
  cbn [server_error res_map_err res_bind ok_or mbind option_bind as_str].
  rewrite !own_address, Hslot by done. cbn [res_bind ok_or]. split; [|split; [|split]].
  - rewrite (Hat _ _ _ (u256_val (ra_balance (revm_account (revm_state_of_accounts accts) address)))) by (by if_false).
    unfold at_height. rewrite Eb. by split.
  - rewrite (Hat _ (fun state => Ok (ra_nonce (revm_account state address))) _ _ eq_refl).
    unfold at_height. rewrite En. by split.
  - rewrite (Hat _ (fun state => Ok (ra_code (revm_account state address))) _ _ eq_refl).
    unfold at_height. rewrite Ec. by split.
  - rewrite (Hat _ (fun state => Ok (from_option u256_to_be HASH_ZERO (ra_storage (revm_account state address) !! u256_from_be slot))) _ _ eq_refl).
    unfold at_height. rewrite Es. by split.
Qed.
End past.

(** C17: a question about the past is answered as it would have been then.  On a
    full node whose chain was built block by block, the state of a height that
    is asked for, replayed from the last snapshot at or below it, is the state
    the node had when that height was its tip; so balances, nonces, code and
    storage slots at the height are what the node answered for the latest block
    at that time.  The blocks are assumed to remove no account: one the EVM
    removes keeps its rows. *)
Theorem history_exact blocks later g gn g' address slot :
  fresh_store g -> blocks <> [] -> later <> [] ->
  numbered_from block_number 0 (blocks ++ later) -> list_fits (blocks ++ later) -> Forall keeps_accounts (blocks ++ later) ->
  st_for blocks insert_full_block g = (Ok tt, gn) -> st_for later insert_full_block gn = (Ok tt, g') ->
  wf_address address -> wf_hash slot ->
  let n := Z.of_nat (length blocks) - 1 in
  (exists state, node_evm_state (Full gn) = Ok state /\
    load_historical_evm_state rc network (Full g') peers n = Ok state) /\
  let now := Some [Text (address_to_hex address)] in
  let past := Some [Text (address_to_hex address); Text (quantity n)] in
  let slot_now := Some [Text (address_to_hex address); Text (hash_to_hex slot)] in
  let slot_past := Some [Text (address_to_hex address); Text (hash_to_hex slot); Text (quantity n)] in
  same_answer (rpc_get_balance rc network (Full g') peers past) (rpc_get_balance rc network (Full gn) peers now) /\
  same_answer (rpc_get_transaction_count rc network (Full g') peers past)
    (rpc_get_transaction_count rc network (Full gn) peers now) /\
  same_answer (rpc_get_code rc network (Full g') peers past) (rpc_get_code rc network (Full gn) peers now) /\
  same_answer (rpc_get_storage_at rc network (Full g') peers slot_past)
    (rpc_get_storage_at rc network (Full gn) peers slot_now).
Proof using HR.
  intros Hfresh Hb Hl Hnum Hfit Hk H1 H2 Ha Hs n. apply List.Forall_app in Hk as [Hk1 Hk2].
  destruct (historic_run blocks g gn [] [] (fresh_historic g Hfresh)) as [hist Hh]; [| |done..|].
  { intros i b Hi. apply Hnum. by apply lookup_app_l_Some. }
  { unfold list_fits in *. rewrite length_app in Hfit. cbn. lia. }
  destruct (historic_run later gn g' blocks hist Hh Hnum Hfit Hk2 H2) as [more Hm]. cbn [app] in Hh. split.
  - exists (revm_state_of_accounts (default ∅ (last hist))). split; [|by eapply past_state].
    unfold node_evm_state, of_full. rewrite (revm_state_from_sled_reads (gn_db gn) _ (hc_accounts _ _ _ Hh)). done.
  - by eapply same_queries.
Qed.
End reading.
End exact.

(** ** Example: two blocks, a third one, and the state of the second *)

Section witness.
Import SampleCodecs.
#[local] Existing Instances mem_sled hex_codec toy_digests mem_files u256_z native_profile toy_keys mem_sled_reliable.
#[local] Instance past_revm : Revm := toy_revm u256_z.

Definition accounts_after (block : Block) (parent_timestamp : Z) : Accounts :=
  match simulate_state_transition_from_accounts ∅ block parent_timestamp with Ok (m, _, _) => m | _ => ∅ end.

(** The snapshot written at height zero. *)
Definition genesis_entries : list SerializedEvmSnapshotEntry :=
  snapshot_entries (put_over (accounts_after (empty_block (numbered_sample 0)) 0) ∅).

#[local] Instance past_entries : Json (list SerializedEvmSnapshotEntry) := table_json [genesis_entries].

Definition empty_generation : Generation :=
  {| gn_db := {| ss_db := (∅ : @sled_db mem_sled); ss_defer_flush := false |}; gn_files := fun _ => None |}.

Definition past_config : ReplayConfig := {|
  rp_require_signed_transactions := true; rp_block_size_activation_height := None;
  rp_block_time_v2_activation_height := None |}.
Definition past_network : NetworkConfig := {| nw_enabled := false; nw_trusted_peer_keys := [] |}.

Definition run_past : Generation := (st_for sample_old insert_full_block empty_generation).2.
Definition run_later : Generation := (st_for [sample_next] insert_full_block run_past).2.

Definition beneficiary_now : option (list Value) := Some [Text (address_to_hex (beneficiary_address (numbered_sample 0)))].
Definition beneficiary_past : option (list Value) :=
  Some [Text (address_to_hex (beneficiary_address (numbered_sample 0))); Text (quantity 1)].

Lemma plain_keeps n : in_u64 n -> keeps_accounts (empty_block (numbered_sample n)).
Proof. intros Hn. split; [by apply numbered_sample_wf|apply List.Forall_nil|done]. Qed.

Lemma history_exact_witness :
  st_for sample_old insert_full_block empty_generation = (Ok tt, run_past) /\
  st_for [sample_next] insert_full_block run_past = (Ok tt, run_later) /\
  same_answer (rpc_get_balance past_config past_network (Full run_later) [] beneficiary_past)
    (rpc_get_balance past_config past_network (Full run_past) [] beneficiary_now) /\
  exists text, rpc_get_balance past_config past_network (Full run_past) [] beneficiary_now = Ok (Text text) /\
    text <> quantity 0.
Proof.
  assert (st_for sample_old insert_full_block empty_generation = (Ok tt, run_past)) as H1.
  { unfold run_past. assert ((st_for sample_old insert_full_block empty_generation).1 = Ok tt) as E by (vm_compute; reflexivity).
    rewrite <- E. apply surjective_pairing. }
  assert (st_for [sample_next] insert_full_block run_past = (Ok tt, run_later)) as H2.
  { unfold run_later. assert ((st_for [sample_next] insert_full_block run_past).1 = Ok tt) as E by (vm_compute; reflexivity).
    rewrite <- E. apply surjective_pairing. }
  split; [exact H1|]. split; [exact H2|].
  destruct (history_exact past_config past_network [] sample_old [sample_next] empty_generation run_past run_later
    (beneficiary_address (numbered_sample 0)) HASH_ZERO) as (_ & Hsame & _);
    [|discriminate|discriminate| |vm_compute; discriminate| |exact H1|exact H2|vm_compute; reflexivity|vm_compute; reflexivity|].
  - split; [by apply chain_rep_empty|apply rep_empty|done].
  - intros [|[|[|i]]] b Hb; [by injection Hb as <-..|by destruct i].
  - repeat (apply List.Forall_cons; [apply plain_keeps; vm_compute; split; discriminate|]). apply List.Forall_nil.
  - split; [exact Hsame|]. eexists. split; [vm_compute; reflexivity|vm_compute; discriminate].
Defined.
End witness.
