(* ===== verification/Calls.v ===== *)
(** Calls that change nothing ([crates/blq-node/src/main.rs]): the estimate of
    the gas a transaction needs, a binary search over executions, and
    [eth_call]. *)

From Stdlib Require Import ZArith Lia Strings.String Strings.Ascii Strings.Byte.
From stdpp Require Import sorting gmap fin_maps base list.
From S2P Require Import Prelude Externals Primitives Canonical Rlp RawTx Pow Consensus State StateRoot.
From S2P Require Import Transition Evm BlockExec Mempool Admission Replay Network.
From S2P Require Import Sled AccountStore BlockStore ChainStore Generation Publish CandidateStore NodeStore NodeState.
From S2P Require Import Miner Sync Wire Serve History.
#[local] Open Scope Z_scope.

Definition MAX_EVM_CALL_GAS : Z := 16777216.

(** The call object of a request, decoded. *)
Record CallFields := {
  cf_to : option Address;
  cf_from : Address;
  cf_data : list byte;
  cf_value : Z;
  cf_gas : option Z;
}.

(** [Display for EvmError]. *)
Definition evm_message (e : EvmError) : string :=
  match e with
  | Execution m => "transaction execution failed: " ++ m
  | InvalidAddress => "invalid EVM address"
  end.

Definition lower_ascii (c : Ascii.ascii) : Ascii.ascii :=
  let n := nat_of_ascii c in if (65 <=? n)%nat && (n <=? 90)%nat then ascii_of_nat (n + 32) else c.

Fixpoint to_lowercase (s : string) : string :=
  match s with EmptyString => EmptyString | String c s => String (lower_ascii c) (to_lowercase s) end.

Definition is_gas_limit_failure (error : EvmError) : bool :=
  let message := to_lowercase (evm_message error) in
  contains "gas floor" message || contains "out of gas" message || contains "gas limit" message.

(** What one execution says about its gas limit. *)
Inductive Attempt := Sufficient | Starved | Fails (error : RpcError) | Crashes.

(** The rounds of [while low <= high], with the least limit that succeeded so
    far.  Every round at least halves the range. *)
Fixpoint gas_search (fuel : nat) (attempt : Z -> Attempt) (low high : Z) (successful_gas : option Z)
    : res RpcError (option Z) :=
  if high <? low then Ok successful_gas
  else
    match fuel with
    | O => Panic
    | Datatypes.S fuel =>
        let candidate := sat_add U64_MAX low high / 2 in
        match attempt candidate with
        | Sufficient => gas_search fuel attempt low (sat_sub candidate 1) (Some candidate)
        | Starved => gas_search fuel attempt (sat_add U64_MAX candidate 1) high successful_gas
        | Fails e => Err e
        | Crashes => Panic
        end
    end.

Definition search_fuel (low high : Z) : nat := Z.to_nat (Z.log2 (high - low + 1) + 1).

Section calls.
Context {S : Sled} {HX : HexCodec} {D : Digests} {U : U256Ops} {R : Revm} {BP : BuildProfile} {PK : PeerKeys}.
Context {SE : Secp}.
Context {JB : Json Block} {JH : Json BlockHeader} {JT : Json Transaction} {JR : Json StoredReceipt}.
Context {JE : Json (list SerializedEvmSnapshotEntry)}.
Context {IO : FileIo} {JM : Json GenerationManifest} {JC : Json ReplayCheckpoint}.
Context {JP : Json GenerationPublicationRecord} {JS : Json SuffixPublicationRecord} {CM : CompactManifest}.

Definition call_object (params : option (list Value)) : res RpcError (list (list byte * Value)) :=
  ok_or (param params 0 ≫= as_object) (rpc_error (-32602) "missing call object").

Definition text_member (m : list (list byte * Value)) (k : list byte) : option (list byte) := member m k ≫= as_str.

Definition parsed {E A} (message : string) (f : list byte -> res E A) (text : option (list byte)) : res RpcError (option A) :=
  res_map_err (fun _ => rpc_error (-32602) message) (transpose f text).

(** [call.get("data").or_else(|| call.get("input"))]. *)
Definition call_data (m : list (list byte * Value)) : res RpcError (list byte) :=
  let value := match member m (B "data") with Some v => Some v | None => member m (B "input") end in
  let? data := parsed "invalid call data" decode_hex (value ≫= as_str) in
  Ok (default [] data).

Definition zero_address : Address := replicate 20 x00.

(** The transaction a call stands for. *)
Definition call_transaction (f : CallFields) (nonce base_fee gas_limit : Z) : Transaction := {|
  tx_chain_id := MAINNET_CHAIN_ID; tx_transaction_type := 2; tx_nonce := nonce; tx_from := cf_from f; tx_to := cf_to f;
  tx_value := cf_value f; tx_gas_limit := gas_limit; tx_max_fee_per_gas := base_fee; tx_max_priority_fee_per_gas := 0;
  tx_payload := cf_data f; tx_access_list := []; tx_signature := None; tx_external_hash := None |}.

(** ** The estimate *)

Definition estimate_fields (m : list (list byte * Value)) : res RpcError CallFields :=
  let? to := parsed "invalid to address" address_from_hex (text_member m (B "to")) in
  let? from := parsed "invalid from address" address_from_hex (text_member m (B "from")) in
  let? data := call_data m in
  let? value := parsed "invalid call value" parse_hex_u128 (text_member m (B "value")) in
  let? gas := parsed "invalid gas" parse_hex_u64 (text_member m (B "gas")) in
  Ok {| cf_to := to; cf_from := default zero_address from; cf_data := data; cf_value := default 0 value; cf_gas := gas |}.

(** One execution on a copy of the state. *)
Definition gas_attempt (header : BlockHeader) (state : RevmState) (f : CallFields) (candidate : Z) : Attempt :=
  let nonce := ra_nonce (revm_account state (cf_from f)) in
  match execute_transaction state header (call_transaction f nonce (hdr_base_fee_per_gas header) candidate) with
  | Ok (output, _) =>
      if eo_success output then Sufficient
      else if candidate <=? eo_gas_used output then Starved
      else Fails (rpc_error (-32000) "EVM execution reverted")
  | Err e => if is_gas_limit_failure e then Starved else Fails (rpc_error (-32000) (evm_message e))
  | Panic => Crashes
  end.

(** The upper end of the search: the limit asked for, within the block's. *)
Definition max_estimate (header : BlockHeader) (f : CallFields) : Z :=
  Z.min (default (Z.min (hdr_gas_limit header) MAX_EVM_CALL_GAS) (cf_gas f)) (hdr_gas_limit header).

Definition estimate_gas (header : BlockHeader) (state : RevmState) (f : CallFields) : res RpcError Z :=
  let plain_transfer :=
    match cf_to f with
    | Some to => bool_decide (cf_data f = []) && (cf_value f =? 0) && bool_decide (ra_code (revm_account state to) = [])
    | None => false
    end in
  if plain_transfer then Ok TRANSFER_GAS
  else
    let max_gas := max_estimate header f in
    if MAX_EVM_CALL_GAS <? max_gas then Err (rpc_error (-32602) "gas exceeds the EVM execution cap")
    else if max_gas <? TRANSFER_GAS then Err (rpc_error (-32000) "gas limit is below the intrinsic transfer gas")
    else
      let? successful_gas :=
        gas_search (search_fuel TRANSFER_GAS max_gas) (gas_attempt header state f) TRANSFER_GAS max_gas None in
      ok_or successful_gas (rpc_error (-32000) "gas required exceeds allowance or always fails").

(** ** [eth_call] *)

Definition eth_call_fields (m : list (list byte * Value)) : res RpcError CallFields :=
  let? to :=
    match member m (B "to") with
    | None => Ok None
    | Some value =>
        let? text := ok_or (as_str value) (rpc_error (-32602) "eth_call to must be a hex address") in
        let? to := res_map_err (fun _ => rpc_error (-32602) "invalid eth_call to address") (address_from_hex text) in
        Ok (Some to)
    end in
  let from := text_member m (B "from") ≫= (fun text => found (address_from_hex text)) in
  let? data := call_data m in
  let? value := parsed "invalid call value" parse_hex_u128 (text_member m (B "value")) in
  let? gas := parsed "invalid call gas" parse_hex_u64 (text_member m (B "gas")) in
  Ok {| cf_to := to; cf_from := default zero_address from; cf_data := data; cf_value := default 0 value;
        cf_gas := Some (default MAX_EVM_CALL_GAS gas) |}.

(** [U256::saturating_mul]. *)
Definition u256_saturating_mul (x y : u256) : u256 := u256_of (Z.min (u256_val x * u256_val y) U256_MAX).

(** The caller is given what the call may cost. *)
Definition fund_caller (state : RevmState) (caller : Address) (required : u256) : RevmState :=
  let account := revm_account state caller in
  if u256_val (ra_balance account) <? u256_val required
  then revm_put_account state caller {|
         ra_nonce := ra_nonce account; ra_balance := required; ra_code := ra_code account; ra_storage := ra_storage account |}
  else state.

Definition call_state (header : BlockHeader) (state : RevmState) (f : CallFields) : res RpcError (list byte) :=
  let gas_limit := default MAX_EVM_CALL_GAS (cf_gas f) in
  if (MAX_EVM_CALL_GAS <? gas_limit) || (hdr_gas_limit header <? gas_limit)
  then Err (rpc_error (-32602) "gas exceeds the EVM execution cap or block limit")
  else
    let nonce := ra_nonce (revm_account state (cf_from f)) in
    let required := u256_saturating_add (u256_of (cf_value f))
      (u256_saturating_mul (u256_of gas_limit) (u256_of (hdr_base_fee_per_gas header))) in
    let state := fund_caller state (cf_from f) required in
    match execute_transaction state header (call_transaction f nonce (hdr_base_fee_per_gas header) gas_limit) with
    | Ok (output, _) =>
        if eo_success output then Ok (eo_output output) else Err (rpc_error (-32000) "EVM call failed")
    | Err e => Err (rpc_error (-32000) (evm_message e))
    | Panic => Panic
    end.

Section node.
Context (rc : ReplayConfig) (network : NetworkConfig) (n : NodeStorage) (historical_peers : list (Hash256 -> Conversation)).

Definition rpc_estimate_gas (params : option (list Value)) : res RpcError Value :=
  let? m := call_object params in
  let? f := estimate_fields m in
  let? historical_number := server_error (resolve_state_block_tag n params 1) in
  let? (header, state) := server_error (rpc_evm_state_at rc network n historical_peers historical_number) in
  let? gas := estimate_gas header state f in
  Ok (Text (quantity gas)).

Definition rpc_eth_call (params : option (list Value)) : res RpcError Value :=
  let? m := call_object params in
  let? f := eth_call_fields m in
  let? historical_number := server_error (resolve_state_block_tag n params 1) in
  let? (header, state) := server_error (rpc_evm_state_at rc network n historical_peers historical_number) in
  let? output := call_state header state f in
  Ok (Text (B "0x" ++ hex_encode output)).
End node.
End calls.

(** ** The search *)

(** What a search between [lo] and [hi] comes back with. *)
Definition search_result (attempt : Z -> Attempt) (lo hi : Z) (r : res RpcError (option Z)) : Prop :=
  match r with
  | Ok (Some gas) => lo <= gas <= hi /\ attempt gas = Sufficient /\ (gas = lo \/ attempt (gas - 1) = Starved)
  | Ok None => hi < lo \/ attempt hi = Starved
  | Err e => exists candidate, lo <= candidate <= hi /\ attempt candidate = Fails e
  | Panic => exists candidate, lo <= candidate <= hi /\ attempt candidate = Crashes
  end.

Lemma gas_search_spec attempt lo hi fuel : forall low high best,
  0 < lo <= low -> high <= hi -> hi < U64_MAX / 2 -> low <= high + 1 -> high - low + 1 < 2 ^ Z.of_nat fuel ->
  low = lo \/ attempt (low - 1) = Starved ->
  match best with None => high = hi | Some gas => gas = high + 1 /\ gas <= hi /\ attempt gas = Sufficient end ->
  search_result attempt lo hi (gas_search fuel attempt low high best).
Proof.
  change (U64_MAX / 2) with 9223372036854775807. change 9223372036854775807 with (2 ^ 63 - 1).
  induction fuel as [|fuel IH]; intros low high best Hlo Hhi Hmax Hle Hf Hlow Hbest.
  all: cbn [gas_search]; destruct (Z.ltb_spec high low) as [Hlt|Hge].
  1,3: destruct best as [gas|]; cbn; [destruct Hbest as (-> & Hg & Hs)|].
  1,3: replace (high + 1) with low in * by lia; (split; [lia|]); by split.
  1,2: subst high; destruct Hlow as [->|Hs]; [by left|right; by replace hi with (low - 1) by lia].
  - cbn in Hf. lia.
  - rewrite Nat2Z.inj_succ, Z.pow_succ_r in Hf by lia.
    rewrite sat_add_exact by (unfold U64_MAX; lia). set (candidate := (low + high) / 2).
    assert (low <= candidate <= high) as Hc by (unfold candidate; dlia).
    assert (candidate - low < 2 ^ Z.of_nat fuel /\ high - candidate < 2 ^ Z.of_nat fuel) as [Hf1 Hf2] by (unfold candidate; dlia).
    destruct (attempt candidate) as [| |e|] eqn:Ea.
    + assert (sat_sub candidate 1 = candidate - 1) as -> by (unfold sat_sub; lia).
      apply IH; [lia..|done|]. split; [lia|]. split; [lia|done].
    + rewrite sat_add_exact by (unfold U64_MAX; lia). apply IH; [lia..| |done].
      right. by replace (candidate + 1 - 1) with candidate by lia.
    + exists candidate. split; [lia|done].
    + exists candidate. split; [lia|done].
Qed.

Lemma search_fuel_enough low high : low <= high + 1 -> high - low + 1 < 2 ^ Z.of_nat (search_fuel low high).
Proof.
  intros Hle. unfold search_fuel. pose proof (Z.log2_nonneg (high - low + 1)). rewrite Z2Nat.id by lia.
  destruct (Z.le_gt_cases (high - low + 1) 0).
  - apply Z.le_lt_trans with 0; [lia|]. apply Z.pow_pos_nonneg; lia.
  - rewrite Z.add_1_r. by apply Z.log2_spec.
Qed.

(** ** What an estimate says *)

Section estimates.
Context {S : Sled} {HX : HexCodec} {D : Digests} {U : U256Ops} {R : Revm}.

Lemma attempt_total header state f candidate : gas_attempt header state f candidate <> Crashes.
Proof.
  unfold gas_attempt, execute_transaction. destruct (U64_MAX <? _); [by case_match|].
  destruct (revm_build _); [by case_match|].
  destruct (revm_transact _ _ _ _) as [[result changes]|e|] eqn:E; cbn [res_map_err res_bind].
  - by repeat case_match.
  - by case_match.
  - by apply revm_total in E.
Qed.

(** C20: the estimate of the gas is the outcome of executions, the plain transfer
    apart: without data and value, to an account without code, it is the fixed
    cost, and nothing is executed.  Any other estimate lies between that cost and
    the limit, an execution with it succeeds, and one with a unit less lacks gas,
    unless it is the least possible; if too little gas for a limit is too little
    for every smaller one, the estimate is the least limit that suffices.  A
    failure has its reason: the limit is beyond the cap or below the cost of a
    transfer, an execution within the limits failed for that reason, or the whole
    limit does not suffice.  The search always ends. *)
Theorem estimate_gas_exact header state f :
  let attempt := gas_attempt header state f in
  let limit := max_estimate header f in
  match estimate_gas header state f with
  | Ok gas =>
      (gas = TRANSFER_GAS /\ cf_data f = [] /\ cf_value f = 0 /\
         exists to, cf_to f = Some to /\ ra_code (revm_account state to) = []) \/
      TRANSFER_GAS <= gas <= limit /\ limit <= MAX_EVM_CALL_GAS /\ attempt gas = Sufficient /\
      (gas = TRANSFER_GAS \/ attempt (gas - 1) = Starved) /\
      ((forall a b, TRANSFER_GAS <= a <= b -> attempt b = Starved -> attempt a = Starved) ->
         forall less, TRANSFER_GAS <= less < gas -> attempt less = Starved)
  | Err e =>
      MAX_EVM_CALL_GAS < limit \/ limit < TRANSFER_GAS \/ attempt limit = Starved \/
      exists candidate, TRANSFER_GAS <= candidate <= limit /\ attempt candidate = Fails e
  | Panic => False
  end.
Proof.
  intros attempt limit. unfold estimate_gas. fold limit attempt.
  destruct (match cf_to f with Some to => _ | None => false end) eqn:Eplain.
  - left. destruct (cf_to f) as [to|]; [|done]. apply andb_prop in Eplain as [Ep Ec]. apply andb_prop in Ep as [Ed Ev].
    apply bool_decide_eq_true in Ed, Ec. apply Z.eqb_eq in Ev. by eauto 6.
  - destruct (Z.ltb_spec MAX_EVM_CALL_GAS limit) as [Hcap|Hcap]; [by left|].
    destruct (Z.ltb_spec limit TRANSFER_GAS) as [Hlow|Hlow]; [by right; left|].
    assert (search_result attempt TRANSFER_GAS limit
      (gas_search (search_fuel TRANSFER_GAS limit) attempt TRANSFER_GAS limit None)) as Hr.
    { apply gas_search_spec; [by vm_compute|lia| |lia|apply search_fuel_enough; lia|by left|done].
      eapply Z.le_lt_trans; [exact Hcap|by vm_compute]. }
    destruct (gas_search _ _ _ _ _) as [[gas|]|e|]; cbn [res_bind ok_or]; cbn [search_result] in Hr.
    + right. destruct Hr as (Hg & Hs & Hless). do 4 (split; [done|]). intros Hmono less Hl.
      destruct Hless as [->|Hst]; [lia|]. apply (Hmono less (gas - 1)); [lia|done].
    + right. right. left. destruct Hr as [?|?]; [lia|done].
    + right. right. right. exact Hr.
    + destruct Hr as (candidate & _ & Hc). by apply (attempt_total header state f) in Hc.
Qed.
End estimates.

(** ** Example: the search runs *)

Definition sample_call : CallFields := {|
  cf_to := Some (be_bytes 20 2); cf_from := be_bytes 20 1; cf_data := [x01]; cf_value := 0; cf_gas := None |}.

Example estimate_runs :
  @estimate_gas toy_digests u256_z (toy_revm u256_z) (numbered_sample 1) sample_revm_state sample_call = Ok 21000.
Proof. vm_compute. reflexivity. Qed.
