(* ===== verification/Logs.v ===== *)
(** Queries of logs and the filters of the JSON-RPC interface
    ([crates/blq-node/src/main.rs]): [eth_getLogs] with the log index, and the
    filters a client installs and polls.

    As in [History], nothing else writes to the storage during a query.  A
    request comes with the readings of the clock it makes. *)

From Stdlib Require Import ZArith Lia Strings.String Strings.Byte.
From stdpp Require Import sorting gmap fin_maps base list.
From S2P Require Import Prelude Externals Primitives Canonical Rlp RawTx Pow Consensus State StateRoot.
From S2P Require Import Transition Evm BlockExec Mempool Admission Replay Network.
From S2P Require Import Sled AccountStore BlockStore ChainStore Generation Publish CandidateStore NodeStore NodeState.
From S2P Require Import Supply Miner Sync Wire Serve Ancestor History.
#[local] Open Scope Z_scope.

Definition MAX_LOG_BLOCK_RANGE : Z := 2000.
Definition MAX_RPC_REMOTE_LOG_BLOCKS : Z := 64.
Definition MAX_RPC_FILTERS : nat := 256.
Definition RPC_FILTER_TTL_SECONDS : Z := 300.

(** ** Matching a log *)

Definition parse_block_tag (tag : list byte) (latest : Z) : res string Z :=
  if bool_decide (tag ∈ tip_tags) then Ok latest
  else if bool_decide (tag = B "earliest") then Ok 0
  else parse_hex_u64 tag.

Definition parse_log_block_tag (value : option Value) (latest : Z) : res string Z :=
  parse_block_tag (default (B "latest") (value ≫= as_str)) latest.

(** The texts of a list of values that [f] accepts. *)
Definition parsed_texts {E A} (f : list byte -> res E A) (values : list Value) : list A :=
  omap (fun v => as_str v ≫= (fun text => found (f text))) values.

(** [f(text).map(|candidate| candidate == actual).unwrap_or(false)]. *)
Definition text_matches {E} (f : list byte -> res E (list byte)) (actual text : list byte) : bool :=
  match f text with Ok candidate => bool_decide (candidate = actual) | _ => false end.

(** A value that is a text, or a list with one, that names [actual]. *)
Definition value_matches {E} (f : list byte -> res E (list byte)) (v : Value) (actual : list byte) : bool :=
  match v with
  | Text text => text_matches f actual text
  | Array values =>
      existsb (fun v => match as_str v with Some text => text_matches f actual text | None => false end) values
  | _ => false
  end.

(** The candidates a value names. *)
Definition value_candidates {E} (f : list byte -> res E (list byte)) (v : Value) : list (list byte) :=
  match v with
  | Text text => option_list (found (f text))
  | Array values => parsed_texts f values
  | _ => []
  end.

Section logs.
Context {S : Sled} {HX : HexCodec} {D : Digests} {U : U256Ops} {R : Revm} {BP : BuildProfile} {PK : PeerKeys}.
Context {JB : Json Block} {JH : Json BlockHeader} {JT : Json Transaction} {JR : Json StoredReceipt}.
Context {JE : Json (list SerializedEvmSnapshotEntry)}.
Context {IO : FileIo} {JM : Json GenerationManifest} {JC : Json ReplayCheckpoint}.
Context {JP : Json GenerationPublicationRecord} {JS : Json SuffixPublicationRecord} {CM : CompactManifest}.

Definition log_address_matches (filter : option Value) (address : Address) : bool :=
  match filter with None => true | Some v => value_matches address_from_hex v address end.

Definition indexed_log_addresses (filter : option Value) : option (list Address) :=
  value_candidates address_from_hex <$> filter.

(** The candidates of the first topic that is not null. *)
Definition indexed_log_topics (filter : option (list Value)) : option (list Hash256) :=
  filter ≫= (fun values => value_candidates hash_from_hex <$> List.find (fun v => negb (is_null v)) values).

Definition topic_matches (expected : Value) (actual : option Hash256) : bool :=
  match actual with
  | None => false
  | Some actual => is_null expected || value_matches hash_from_hex expected actual
  end.

Definition log_topics_match (filter : option (list Value)) (topics : list Hash256) : bool :=
  match filter with
  | None => true
  | Some values => forallb id (imap (fun index expected => topic_matches expected (topics !! index)) values)
  end.

(** ** Logs as values *)

Definition hex_text (bytes : list byte) : Value := Text (B "0x" ++ hex_encode bytes).

Definition log_to_rpc_json (log : LogEntry) (receipt : Receipt) (header : BlockHeader) (transaction_index log_index : nat)
    : list (list byte * Value) :=
  [(B "address", Text (address_to_hex (log_address log)));
   (B "topics", Array (map hex_text (log_topics log)));
   (B "data", hex_text (log_data log));
   (B "blockNumber", Text (quantity (hdr_number header)));
   (B "transactionHash", hex_text (rc_transaction_hash receipt));
   (B "transactionIndex", Text (quantity (Z.of_nat transaction_index)));
   (B "blockHash", hex_text (header_hash header));
   (B "logIndex", Text (quantity (Z.of_nat log_index)));
   (B "removed", Bool false)].

(** [Map::insert]: the value of a member that is there is replaced. *)
Definition set_member (k : list byte) (v : Value) (m : list (list byte * Value)) : list (list byte * Value) :=
  if existsb (fun kv => bool_decide (kv.1 = k)) m
  then map (fun kv => if bool_decide (kv.1 = k) then (k, v) else kv) m
  else m ++ [(k, v)].

Section filter.
Context (addresses : option Value) (topics : option (list Value)).

Definition log_passes (log : LogEntry) : bool :=
  log_address_matches addresses (log_address log) && log_topics_match topics (log_topics log).

(** The logs of one transaction that pass. *)
Definition transaction_logs (header : BlockHeader) (transaction_index : nat) (tr : Transaction * Receipt) : list Value :=
  concat (imap (fun log_index log =>
    if log_passes log
    then [Object (set_member (B "transactionHash") (hex_text (tx_rpc_hash tr.1))
            (log_to_rpc_json log tr.2 header transaction_index log_index))]
    else []) (rc_logs tr.2)).

Definition block_logs (block : Block) : list Value :=
  concat (imap (transaction_logs (blk_header block)) (zip (blk_transactions block) (blk_receipts block))).
End filter.

(** ** [eth_getLogs] *)

Definition node_indexed_log_block_numbers (n : NodeStorage) (from to : Z) (addresses : option (list Address))
    (topics : option (list Hash256)) : res string (gset Z) :=
  of_full (fun s => any_res (indexed_log_block_numbers s from to addresses topics))
    (fun _ => Err "log indexes require full storage"%string) n.

Section node.
Context (rc : ReplayConfig) (network : NetworkConfig) (n : NodeStorage) (historical_peers : list (Hash256 -> Conversation)).

(** The heights a filter asks for. *)
Definition log_block_numbers (filter : list (list byte * Value)) (latest : Z) : res RpcError (list Z) :=
  match member filter (B "blockHash") with
  | Some block_hash =>
      if bool_decide (is_Some (member filter (B "fromBlock"))) || bool_decide (is_Some (member filter (B "toBlock")))
      then Err (rpc_error (-32602) "eth_getLogs blockHash cannot be combined with a block range")
      else
        let? text := ok_or (as_str block_hash) (rpc_error (-32602) "eth_getLogs blockHash must be a hex hash") in
        let? hash := res_map_err (fun _ => rpc_error (-32602) "invalid blockHash") (hash_from_hex text) in
        match node_header_by_hash n hash with
        | Ok header => Ok [hdr_number header]
        | Err NotFound => Ok []
        | Err e => Err (rpc_error (-32000) (storage_message e))
        | Panic => Panic
        end
  | None =>
      let? from := res_map_err (rpc_error (-32602)) (parse_log_block_tag (member filter (B "fromBlock")) latest) in
      let? to := res_map_err (rpc_error (-32602)) (parse_log_block_tag (member filter (B "toBlock")) latest) in
      if (to <? from) || (MAX_LOG_BLOCK_RANGE <? sat_sub to from)
      then Err (rpc_error (-32602) "eth_getLogs block range is invalid or too large")
      else Ok (range_incl from to)
  end.

Section scan.
Context (addresses : option Value) (topics : option (list Value)) (indexed_numbers : gset Z).

(** The loop over the heights; blocks without a body here are fetched. *)
Fixpoint scan_logs (numbers : list Z) (remote_fetches : Z) : res RpcError (list Value) :=
  match numbers with
  | [] => Ok []
  | number :: numbers =>
      match node_block_by_number n number with
      | Ok block =>
          if bool_decide (number ∈ indexed_numbers)
          then let? logs := scan_logs numbers remote_fetches in Ok (block_logs addresses topics block ++ logs)
          else scan_logs numbers remote_fetches
      | Err NotFound =>
          let remote_fetches := remote_fetches + 1 in
          if MAX_RPC_REMOTE_LOG_BLOCKS <? remote_fetches
          then Err (rpc_error (-32000) "historical log query exceeds the remote body fetch limit")
          else
            let? block := server_error (load_rpc_block rc network n historical_peers number) in
            let? block := ok_or block (rpc_error (-32000) "historical log block body unavailable") in
            let? logs := scan_logs numbers remote_fetches in
            Ok (block_logs addresses topics block ++ logs)
      | Err e => Err (rpc_error (-32000) (storage_message e))
      | Panic => Panic
      end
  end.
End scan.

Definition rpc_get_logs (params : option (list Value)) : res RpcError Value :=
  let? filter := ok_or (param params 0 ≫= as_object) (rpc_error (-32602) "eth_getLogs requires a filter object") in
  let? best := server_error (any_res (node_best_header n)) in
  let? block_numbers := log_block_numbers filter (hdr_number best) in
  let address_filter := member filter (B "address") in
  let topic_filter := member filter (B "topics") ≫= as_array in
  let? indexed_numbers := server_error
    (node_indexed_log_block_numbers n (default 0 (head block_numbers)) (default 0 (last block_numbers))
       (indexed_log_addresses address_filter) (indexed_log_topics topic_filter)) in
  let? logs := scan_logs address_filter topic_filter indexed_numbers block_numbers 0 in
  Ok (Array logs).

(** The answer is rendered and read back; an error becomes its text. *)
Definition log_filter_result (filter : Value) (from to : Z) : res string Value :=
  let? object := ok_or (as_object filter) "log filter must be an object"%string in
  let object := set_member (B "toBlock") (Text (quantity to)) (set_member (B "fromBlock") (Text (quantity from)) object) in
  res_map_err re_message (rpc_get_logs (Some [Object object])).
End node.
End logs.

(** ** Filters *)

Inductive RpcFilterKind := LogFilter (filter : Value) | BlockFilter | PendingTransactions.

Record RpcFilter := {
  rf_kind : RpcFilterKind;
  rf_last_block : Z;
  rf_last_accessed_at : Z;
}.

(** The filters by their id, and the next id ([NEXT_RPC_FILTER_ID]). *)
Record Filters := {
  fi_filters : gmap Z RpcFilter;
  fi_next_id : Z;
}.

Definition no_filters : Filters := {| fi_filters := ∅; fi_next_id := 1 |}.

Definition prune_expired_rpc_filters (now : Z) (filters : gmap Z RpcFilter) : gmap Z RpcFilter :=
  filter (fun kv => sat_sub now (rf_last_accessed_at kv.2) <= RPC_FILTER_TTL_SECONDS) filters.

Definition pruned (now : Z) (f : Filters) : Filters :=
  {| fi_filters := prune_expired_rpc_filters now (fi_filters f); fi_next_id := fi_next_id f |}.

Definition new_rpc_filter (kind : RpcFilterKind) (last_block now : Z) : StM string Filters (list byte) := fun f =>
  let f := pruned now f in
  if (MAX_RPC_FILTERS <=? size (fi_filters f))%nat
  then (Err "RPC filter limit reached; uninstall an existing filter or retry later"%string, f)
  else
    let id := fi_next_id f in
    (Ok (quantity id),
     {| fi_filters := <[id := {| rf_kind := kind; rf_last_block := last_block; rf_last_accessed_at := now |}]> (fi_filters f);
        fi_next_id := wrap64 (id + 1) |}).

Definition touch (now : Z) (filter : RpcFilter) : RpcFilter := {|
  rf_kind := rf_kind filter; rf_last_block := rf_last_block filter; rf_last_accessed_at := now |}.

Definition rpc_filter_by_id (filter_id now : Z) : StM string Filters RpcFilter := fun f =>
  let f := pruned now f in
  match fi_filters f !! filter_id with
  | None => (Err "filter not found or expired"%string, f)
  | Some filter =>
      (Ok (touch now filter),
       {| fi_filters := <[filter_id := touch now filter]> (fi_filters f); fi_next_id := fi_next_id f |})
  end.

(** A filter after a poll that answered up to [latest]. *)
Definition advance_filter (filter_id latest now : Z) (f : Filters) : Filters :=
  let f := pruned now f in
  {| fi_filters := alter (fun filter => {| rf_kind := rf_kind filter; rf_last_block := latest; rf_last_accessed_at := now |})
                     filter_id (fi_filters f);
     fi_next_id := fi_next_id f |}.

(** [trim_start_matches("0x")]. *)
Fixpoint trim_0x (s : list byte) : list byte :=
  match s with
  | c :: ((d :: rest) as s') => if bool_decide ([c; d] = B "0x") then trim_0x rest else s
  | _ => s
  end.

Definition filter_id_from_params (params : option (list Value)) : res RpcError Z :=
  let? value := ok_or (param params 0 ≫= as_str) (rpc_error (-32602) "missing filter id") in
  res_map_err (fun _ => rpc_error (-32602) "invalid filter id") (from_str_radix_16 U64_MAX (trim_0x value)).

Section filters.
Context {S : Sled} {HX : HexCodec} {D : Digests} {U : U256Ops} {R : Revm} {BP : BuildProfile} {PK : PeerKeys}.
Context {JB : Json Block} {JH : Json BlockHeader} {JT : Json Transaction} {JR : Json StoredReceipt}.
Context {JE : Json (list SerializedEvmSnapshotEntry)}.
Context {IO : FileIo} {JM : Json GenerationManifest} {JC : Json ReplayCheckpoint}.
Context {JP : Json GenerationPublicationRecord} {JS : Json SuffixPublicationRecord} {CM : CompactManifest}.
Context (rc : ReplayConfig) (network : NetworkConfig) (n : NodeStorage) (historical_peers : list (Hash256 -> Conversation)).

Definition current_block_number : res string Z :=
  let? best := any_res (node_best_header n) in Ok (hdr_number best).

(** [rpc_new_filter], [rpc_new_block_filter] and [rpc_new_pending_filter]. *)
Definition install_filter (kind : RpcFilterKind) (now : Z) : StM RpcError Filters Value := fun f =>
  match server_error current_block_number with
  | Ok latest =>
      let '(r, f) := new_rpc_filter kind latest now f in
      (res_map_err (rpc_error (-32005)) (let? text := r in Ok (Text text)), f)
  | Err e => (Err e, f)
  | Panic => (Panic, f)
  end.

(** The filter object of the request, an empty one when it is missing. *)
Definition requested_filter (params : option (list Value)) : Value :=
  match param params 0 with Some (Object m) => Object m | _ => Object [] end.

Definition rpc_new_filter (params : option (list Value)) : Z -> StM RpcError Filters Value :=
  install_filter (LogFilter (requested_filter params)).
Definition rpc_new_block_filter : Z -> StM RpcError Filters Value := install_filter BlockFilter.
Definition rpc_new_pending_filter : Z -> StM RpcError Filters Value := install_filter PendingTransactions.

(** What a filter has to say about the blocks [from] to [latest]. *)
Definition filter_result (kind : RpcFilterKind) (pool : Mempool) (from latest : Z) : res string Value :=
  match kind with
  | BlockFilter =>
      Ok (Array (omap (fun number =>
        (fun header => hex_text (header_hash header)) <$> found (node_header_by_number n number)) (range_incl from latest)))
  | PendingTransactions => Ok (Array (map (fun t => hex_text (tx_rpc_hash t)) (pending pool)))
  | LogFilter filter => log_filter_result rc network n historical_peers filter from latest
  end.

(** [read] and [answered] are the readings of the clock. *)
Definition rpc_get_filter_changes (pool : Mempool) (params : option (list Value)) (read answered : Z)
    : StM RpcError Filters Value :=
  do? filter_id := st_res (filter_id_from_params params) in
  do? latest := st_res (server_error current_block_number) in
  fun f =>
    let '(r, f) := rpc_filter_by_id filter_id read f in
    match server_error r with
    | Ok filter =>
        let from := sat_add U64_MAX (rf_last_block filter) 1 in
        if latest <? from then (Ok (Array []), f)
        else
          match server_error (filter_result (rf_kind filter) pool from latest) with
          | Ok result => (Ok result, advance_filter filter_id latest answered f)
          | Err e => (Err e, f)
          | Panic => (Panic, f)
          end
    | Err e => (Err e, f)
    | Panic => (Panic, f)
    end.

Definition rpc_get_filter_logs (params : option (list Value)) (now : Z) : StM RpcError Filters Value :=
  do? filter_id := st_res (filter_id_from_params params) in
  fun f =>
    let '(r, f) := rpc_filter_by_id filter_id now f in
    (let? filter := server_error r in
     match rf_kind filter with
     | LogFilter filter =>
         let? latest := server_error current_block_number in
         server_error (log_filter_result rc network n historical_peers filter 0 latest)
     | _ => Err (rpc_error (-32602) "filter is not a log filter")
     end, f).

Definition rpc_uninstall_filter (params : option (list Value)) (now : Z) : StM RpcError Filters Value :=
  do? filter_id := st_res (filter_id_from_params params) in
  fun f =>
    let f := pruned now f in
    (Ok (Bool (bool_decide (is_Some (fi_filters f !! filter_id)))),
     {| fi_filters := delete filter_id (fi_filters f); fi_next_id := fi_next_id f |}).
End filters.

(** ** The index hides nothing *)

Lemma concat_imap_nil {A B} (f : nat -> A -> list B) (l : list A) :
  (forall i x, l !! i = Some x -> f i x = []) -> concat (imap f l) = [].
Proof.
  revert f. induction l as [|x l IH]; intros f H; [done|]. rewrite imap_cons. cbn.
  rewrite (H 0%nat x eq_refl). apply IH. intros i y Hi. by apply (H (Datatypes.S i)).
Qed.

Section candidates.
Context {E : Type} (f : list byte -> res E (list byte)).

Lemma text_candidate actual text : text_matches f actual text = true -> found (f text) = Some actual.
Proof. unfold text_matches. destruct (f text); [|done..]. by intros ->%bool_decide_eq_true. Qed.

Lemma value_candidate v actual : value_matches f v actual = true -> actual ∈ value_candidates f v.
Proof.
  destruct v as [| | |text|values|]; cbn; [done..| | |done].
  - intros ->%text_candidate. cbn. by left.
  - intros (v & Hin & Hv)%existsb_exists. unfold parsed_texts. apply list_elem_of_omap. exists v.
    split; [by apply list_elem_of_In|]. destruct v as [| | |text| |]; [done..| |done|done]. by apply text_candidate.
Qed.

Lemma candidates_parsed v x : x ∈ value_candidates f v -> exists text, f text = Ok x.
Proof.
  assert (forall text, found (f text) = Some x -> f text = Ok x) as Hf by (intros text; by destruct (f text); intros [= ->]).
  destruct v as [| | |text|values|]; cbn; [by intros ?%not_elem_of_nil..| | |by intros ?%not_elem_of_nil].
  - destruct (found (f text)) as [y|] eqn:Ey; cbn; [|by intros ?%not_elem_of_nil].
    intros ->%list_elem_of_singleton. exists text. by apply Hf.
  - intros (v & _ & Hv)%list_elem_of_omap. destruct (as_str v) as [text|]; [|done]. exists text. by apply Hf.
Qed.
End candidates.

Lemma fixed_from_hex_length `{HexCodec} n text b : fixed_from_hex n text = Ok b -> Z.of_nat (length b) = n.
Proof.
  unfold fixed_from_hex. intros (bs & _ & Hb)%res_bind_ok.
  destruct (Z.eqb_spec (Z.of_nat (length bs)) n); [by injection Hb as <-|done].
Qed.

Section index.
Context {S : Sled} {HX : HexCodec} {D : Digests} {U : U256Ops} {R : Revm} {BP : BuildProfile} {PK : PeerKeys}.
Context {JB : Json Block} {JH : Json BlockHeader} {JT : Json Transaction} {JR : Json StoredReceipt}.
Context {JE : Json (list SerializedEvmSnapshotEntry)}.
Context {IO : FileIo} {JM : Json GenerationManifest} {JC : Json ReplayCheckpoint}.
Context {JP : Json GenerationPublicationRecord} {JS : Json SuffixPublicationRecord} {CM : CompactManifest}.
Context {HR : SledReadable}.
Context (rc : ReplayConfig) (network : NetworkConfig) (peers : list (Hash256 -> Conversation)).

Lemma indexed_wf addresses topics : wf_filter (indexed_log_addresses addresses) (indexed_log_topics topics).
Proof.
  split; apply List.Forall_forall; intros x Hx%list_elem_of_In.
  - destruct addresses as [v|]; cbn in Hx; [|by apply not_elem_of_nil in Hx].
    apply candidates_parsed in Hx as [text Hx]. unfold wf_address. apply fixed_from_hex_length in Hx. lia.
  - unfold indexed_log_topics in Hx. destruct topics as [values|]; cbn in Hx; [|by apply not_elem_of_nil in Hx].
    destruct (List.find _ values) as [v|]; cbn in Hx; [|by apply not_elem_of_nil in Hx].
    apply candidates_parsed in Hx as [text Hx]. unfold wf_hash. apply fixed_from_hex_length in Hx. lia.
Qed.

Lemma passing_log addresses topics log :
  log_passes addresses topics log = true ->
  log_matches (indexed_log_addresses addresses) (indexed_log_topics topics) log.
Proof.
  unfold log_passes. intros [Ha Ht]%andb_prop. destruct addresses as [v|]; cbn; [by apply value_candidate|].
  unfold indexed_log_topics. destruct topics as [values|]; cbn; [|done].
  destruct (List.find _ values) as [v|] eqn:Ef; cbn; [|done].
  apply find_some in Ef as [Hin Hnull]. apply list_elem_of_In in Hin. apply list_elem_of_lookup in Hin as [i Hi].
  cbn in Ht. rewrite forallb_forall in Ht. specialize (Ht (topic_matches v (log_topics log !! i))).
  assert (topic_matches v (log_topics log !! i) = true) as Hm.
  { apply Ht. apply list_elem_of_In, list_elem_of_lookup. exists i. by rewrite list_lookup_imap, Hi. }
  destruct (log_topics log !! i) as [topic|] eqn:El; [|done]. cbn in Hm.
  destruct (is_null v); [done|]. cbn in Hm. exists topic. split; [by apply value_candidate|].
  by eapply list_elem_of_lookup_2.
Qed.

(** A block without a log the index looks for has none that passes. *)
Lemma unindexed_block addresses topics b :
  ~ has_log b (log_matches (indexed_log_addresses addresses) (indexed_log_topics topics)) -> block_logs addresses topics b = [].
Proof.
  intros Hno. apply concat_imap_nil. intros i [t r] Hi. apply concat_imap_nil. intros j log Hj.
  destruct (log_passes addresses topics log) eqn:Hp; [|done]. exfalso. apply Hno. exists r, log. split; [|split].
  - apply list_elem_of_lookup_2 in Hi. by apply elem_of_zip_r in Hi.
  - by apply list_elem_of_lookup_2 in Hj.
  - by apply passing_log.
Qed.

Lemma scan_stored g c addresses topics indexed numbers blocks k :
  chain_rep (contents (gn_db g)) c ->
  Forall2 (fun number b => c !! Z.to_nat number = Some b /\ 0 <= number) numbers blocks ->
  (forall number b, number ∈ numbers -> c !! Z.to_nat number = Some b -> number ∉ indexed -> block_logs addresses topics b = []) ->
  scan_logs rc network (Full g) peers addresses topics indexed numbers k =
    Ok (concat (map (block_logs addresses topics) blocks)).
Proof.
  intros Hc Hall Hout. induction Hall as [|number b numbers blocks [Hb Hpos] _ IH]; [done|]. cbn [scan_logs map concat].
  unfold node_block_by_number, of_full.
  destruct (header_by_number_rep (gn_db g) c number Hc) as [_ ->].
  { rewrite <- (Z2Nat.id number) by done. eapply index_u64; [apply Hc|]. by eapply lookup_lt_Some. }
  rewrite Hb. cbn [ok_or]. rewrite IH by (intros; eapply Hout; [by right|done..]).
  case_bool_decide as Hin; [done|]. by rewrite (Hout number b) by (done || by left).
Qed.

Lemma range_blocks_stored (c : list Block) from to :
  0 <= from -> from <= to -> to < Z.of_nat (length c) ->
  Forall2 (fun number b => c !! Z.to_nat number = Some b /\ 0 <= number) (range_incl from to)
    (take (Z.to_nat (to - from + 1)) (drop (Z.to_nat from) c)).
Proof.
  intros H0 Hle Hlt. apply Forall2_same_length_lookup_2.
  - unfold range_incl. rewrite length_map, length_seq, length_take, length_drop. lia.
  - intros i number b Hn Hb. unfold range_incl in Hn. apply list_lookup_fmap_Some in Hn as (j & -> & Hj).
    apply lookup_seq in Hj as [-> Hi]. rewrite lookup_take_lt in Hb by done. rewrite lookup_drop in Hb. split; [|lia].
    rewrite <- Hb. f_equal. lia.
Qed.

(** The logs of the blocks from one height to another that a filter object asks
    for, read off the blocks alone. *)
Definition matching_logs (filter : list (list byte * Value)) (c : list Block) (from to : Z) : list Value :=
  concat (map (block_logs (member filter (B "address")) (member filter (B "topics") ≫= as_array))
    (take (Z.to_nat (to - from + 1)) (drop (Z.to_nat from) c))).

Lemma first_in_range from to : from <= to -> head (range_incl from to) = Some from /\ last (range_incl from to) = Some to.
Proof.
  intros Hle. split; [by rewrite range_incl_cons|]. unfold range_incl.
  replace (Z.to_nat (to - from + 1)) with (Datatypes.S (Z.to_nat (to - from))) by lia.
  rewrite seq_S, map_app. cbn [map]. rewrite last_snoc. f_equal. lia.
Qed.

(** The tip of a stored chain. *)
Lemma chain_tip g c :
  chain_rep (contents (gn_db g)) c -> c <> [] ->
  (exists best, node_best_header (Full g) = Ok best /\ hdr_number best = Z.of_nat (length c) - 1) /\
  in_u64 (Z.of_nat (length c) - 1).
Proof.
  intros Hc Hne. destruct (last c) as [b|] eqn:El; [|by apply last_None in El]. apply last_Some in El as [l ->].
  pose proof (cr_fits _ _ Hc) as Hf. unfold list_fits in Hf. rewrite length_app in *. cbn [length] in *. split; [|unfold in_u64; lia].
  exists (blk_header b). unfold node_best_header, of_full. rewrite (best_header_rep _ _ Hc), last_snoc. split; [done|].
  fold (block_number b). rewrite (block_numbers_lookup _ (length l) b (cr_numbers _ _ Hc)); [lia|].
  apply lookup_snoc_Some. by right.
Qed.

Lemma stored_logs g c filter from to :
  chain_rep (contents (gn_db g)) c -> Forall wf_logs c -> member filter (B "blockHash") = None ->
  let latest := Z.of_nat (length c) - 1 in
  parse_log_block_tag (member filter (B "fromBlock")) latest = Ok from ->
  parse_log_block_tag (member filter (B "toBlock")) latest = Ok to ->
  0 <= from <= to -> to <= latest -> to - from <= MAX_LOG_BLOCK_RANGE ->
  rpc_get_logs rc network (Full g) peers (Some [Object filter]) = Ok (Array (matching_logs filter c from to)).
Proof.
  intros Hc Hwf Hhash latest Hfrom Hto Hle Hlast Hrange. unfold rpc_get_logs. cbn [param mbind option_bind as_object lookup list_lookup ok_or res_bind].
  destruct (chain_tip g c Hc) as [(best & -> & Hnum) _]; [intros ->; cbn in latest; lia|].
  cbn [any_res server_error res_map_err res_bind]. rewrite Hnum. fold latest. unfold log_block_numbers. rewrite Hhash, Hfrom, Hto. cbn [res_map_err res_bind].
  replace (to <? from) with false by lia. assert (sat_sub to from = to - from) as -> by (unfold sat_sub; lia).
  replace (MAX_LOG_BLOCK_RANGE <? to - from) with false by lia. cbn [orb res_bind].
  destruct (first_in_range from to) as [-> ->]; [lia|]. cbn [default from_option].
  destruct (indexed_rep (gn_db g) c from to (indexed_log_addresses (member filter (B "address")))
    (indexed_log_topics (member filter (B "topics") ≫= as_array)) Hc Hwf (indexed_wf _ _)) as (numbers & Hidx & Hin).
  unfold node_indexed_log_block_numbers, of_full. change (id from) with from. change (id to) with to. rewrite Hidx.
  cbn [any_res server_error res_map_err res_bind].
  rewrite (scan_stored g c _ _ numbers _ _ 0 Hc (range_blocks_stored c from to ltac:(lia) ltac:(lia) ltac:(unfold latest in Hlast; lia))); [done|].
  intros number x Hn Hx Hout. apply unindexed_block. intros Hlog. apply Hout, Hin.
  unfold range_incl in Hn. apply list_elem_of_fmap in Hn as (j & -> & Hj%elem_of_seq). split; [lia|].
  exists x. split; [by eapply list_elem_of_lookup_2|]. split; [|done].
  rewrite (block_numbers_lookup _ _ _ (cr_numbers _ _ Hc) Hx). lia.
Qed.

(** A height above the tip has no header either, so the scan fails there. *)
Lemma scan_missing g c addresses topics indexed pre number rest :
  chain_rep (contents (gn_db g)) c -> (forall k, k ∈ pre -> 0 <= k < Z.of_nat (length c)) ->
  in_u64 number -> Z.of_nat (length c) <= number ->
  scan_logs rc network (Full g) peers addresses topics indexed (pre ++ number :: rest) 0 =
    Err (rpc_error (-32000) "historical log block body unavailable").
Proof.
  intros Hc Hpre Hu Hge. induction pre as [|k pre IH]; cbn [app scan_logs]; unfold node_block_by_number, of_full.
  - destruct (header_by_number_rep (gn_db g) c number Hc Hu) as [Hh Hb]. rewrite lookup_ge_None_2 in Hh, Hb by lia.
    rewrite Hb. cbn [ok_or]. change (MAX_RPC_REMOTE_LOG_BLOCKS <? 0 + 1) with false. cbn iota.
    unfold load_rpc_block, node_block_by_number, node_header_by_number, of_full. by rewrite Hb, Hh.
  - destruct (Hpre k) as [H0 Hlt]; [by left|].
    destruct (header_by_number_rep (gn_db g) c k Hc) as [_ Hb]; [unfold in_u64 in *; lia|].
    destruct (lookup_lt_is_Some_2 c (Z.to_nat k)) as [b E]; [lia|]. rewrite Hb, E. cbn [ok_or].
    rewrite IH by (intros; apply Hpre; by right). by case_bool_decide.
Qed.

Lemma range_incl_app a m z : a <= m <= z + 1 -> range_incl a z = range_incl a (m - 1) ++ range_incl m z.
Proof.
  intros H. remember (Z.to_nat (m - a)) as k eqn:Hk. revert a H Hk. induction k as [|k IH]; intros a H Hk.
  - replace m with a by lia. by rewrite (range_incl_nil a (a - 1)) by lia.
  - rewrite (range_incl_cons a z), (range_incl_cons a (m - 1)) by lia. cbn. f_equal. apply IH; lia.
Qed.

(** Where a range leaves the chain. *)
Lemma range_leaves from to len :
  0 <= from <= to -> 0 <= len -> len <= to ->
  exists pre number rest, range_incl from to = pre ++ number :: rest /\ len <= number <= to /\ forall k, k ∈ pre -> 0 <= k < len.
Proof.
  intros Hle Hlen Hto. destruct (Z.le_gt_cases len from).
  - exists [], from, (range_incl (from + 1) to). split; [apply range_incl_cons; lia|]. split; [lia|]. by intros k ?%not_elem_of_nil.
  - exists (range_incl from (len - 1)), len, (range_incl (len + 1) to). split; [|split; [lia|]].
    + rewrite (range_incl_app from len to) by lia. f_equal. apply range_incl_cons. lia.
    + intros k (j & -> & Hj%elem_of_seq)%list_elem_of_fmap. lia.
Qed.

Lemma hex_parse_total max s : 0 <= max -> match from_str_radix_16 max s with Ok z => 0 <= z <= max | Err _ => True | Panic => False end.
Proof.
  intros Hmax. assert (forall digits acc, match acc with Ok z => 0 <= z <= max | Err _ => True | Panic => False end ->
    match fold_left (hex_step max) digits acc with Ok z => 0 <= z <= max | Err _ => True | Panic => False end) as Hfold.
  { induction digits as [|c digits IH]; intros acc Hacc; [done|]. cbn. apply IH. destruct acc as [a|e|]; cbn; [|done..].
    destruct (hex_value c) as [x|] eqn:Ex; cbn; [|done].
    assert (0 <= x < 16) as Hx by (unfold hex_value in Ex; repeat case_match; simplify_eq; lia).
    unfold checked_mul, checked_add. destruct (Z.leb_spec (a * 16) max); cbn; [|done].
    destruct (Z.leb_spec (a * 16 + x) max); cbn; [lia|done]. }
  unfold from_str_radix_16. destruct s as [|c rest]; [done|]. destruct (_ =? _); [|apply Hfold; lia].
  destruct rest; [done|]. apply Hfold. lia.
Qed.

Lemma block_tag_total value latest : in_u64 latest ->
  match parse_log_block_tag value latest with Ok z => in_u64 z | Err _ => True | Panic => False end.
Proof.
  intros Hu. unfold parse_log_block_tag, parse_block_tag. case_bool_decide; [done|].
  case_bool_decide; [by vm_compute|]. unfold parse_hex_u64, parse_hex_quantity.
  destruct (strip_prefix _ _) as [s|]; cbn; [|done]. by apply hex_parse_total.
Qed.

(** C18: a query of logs answers exactly the logs of the blocks in the range that
    pass the filter, in the order of the chain: the index, which looks at one
    address or topic only, leaves out no block with a log that passes, whatever
    the filter object a client sends.  Everything else is an error with its
    cause: a tag that is no height, a range that is empty or longer than 2001
    blocks, and a range that ends above the tip. *)
Theorem logs_exact g c filter :
  chain_rep (contents (gn_db g)) c -> c <> [] -> Forall wf_logs c -> member filter (B "blockHash") = None ->
  let latest := Z.of_nat (length c) - 1 in
  let answer := rpc_get_logs rc network (Full g) peers (Some [Object filter]) in
  match parse_log_block_tag (member filter (B "fromBlock")) latest, parse_log_block_tag (member filter (B "toBlock")) latest with
  | Ok from, Ok to =>
      (to < from \/ MAX_LOG_BLOCK_RANGE < to - from ->
         answer = Err (rpc_error (-32602) "eth_getLogs block range is invalid or too large")) /\
      (from <= to <= latest -> to - from <= MAX_LOG_BLOCK_RANGE -> answer = Ok (Array (matching_logs filter c from to))) /\
      (from <= to -> latest < to -> to - from <= MAX_LOG_BLOCK_RANGE ->
         answer = Err (rpc_error (-32000) "historical log block body unavailable"))
  | Err e, _ | Ok _, Err e => answer = Err (rpc_error (-32602) e)
  | _, _ => False
  end.
Proof using HR.
  intros Hc Hne Hwf Hhash latest answer. destruct (chain_tip g c Hc Hne) as [Hbest Hlatest]. fold latest in Hbest, Hlatest.
  pose proof (block_tag_total (member filter (B "fromBlock")) latest Hlatest) as Tf.
  pose proof (block_tag_total (member filter (B "toBlock")) latest Hlatest) as Tt.
  assert (answer = (let? block_numbers := log_block_numbers (Full g) filter latest in
    let? indexed := server_error (node_indexed_log_block_numbers (Full g) (default 0 (head block_numbers)) (default 0 (last block_numbers))
      (indexed_log_addresses (member filter (B "address"))) (indexed_log_topics (member filter (B "topics") ≫= as_array))) in
    let? logs := scan_logs rc network (Full g) peers (member filter (B "address")) (member filter (B "topics") ≫= as_array) indexed block_numbers 0 in
    Ok (Array logs))) as Ea.
  { unfold answer, rpc_get_logs. cbn [param mbind option_bind as_object lookup list_lookup ok_or res_bind].
    destruct Hbest as (best & -> & E). cbn [any_res server_error res_map_err res_bind]. by rewrite E. }
  destruct (parse_log_block_tag (member filter (B "fromBlock")) latest) as [from|e|] eqn:Ef; [|by rewrite Ea; unfold log_block_numbers; rewrite Hhash, Ef|done].
  destruct (parse_log_block_tag (member filter (B "toBlock")) latest) as [to|e|] eqn:Et; [|by rewrite Ea; unfold log_block_numbers; rewrite Hhash, Ef, Et|done].
  assert (0 <= from /\ in_u64 to) as [H0 Hu] by (unfold in_u64 in *; lia).
  split; [|split].
  - intros Hr. rewrite Ea. unfold log_block_numbers. rewrite Hhash, Ef, Et. cbn [res_map_err res_bind].
    replace ((to <? from) || (MAX_LOG_BLOCK_RANGE <? sat_sub to from)) with true; [done|]. symmetry. unfold sat_sub.
    destruct (Z.ltb_spec to from); [done|]. apply Z.ltb_lt. lia.
  - intros Hle Hr. apply stored_logs; [done|done|done|done|done|lia|lia|lia].
  - intros Hle Hlast Hr. rewrite Ea. unfold log_block_numbers. rewrite Hhash, Ef, Et. cbn [res_map_err res_bind].
    replace ((to <? from) || (MAX_LOG_BLOCK_RANGE <? sat_sub to from)) with false by (symmetry; unfold sat_sub; lia). cbn [res_bind].
    destruct (indexed_rep (gn_db g) c (default 0 (head (range_incl from to))) (default 0 (last (range_incl from to)))
      (indexed_log_addresses (member filter (B "address")))
      (indexed_log_topics (member filter (B "topics") ≫= as_array)) Hc Hwf (indexed_wf _ _)) as (numbers & Hidx & _).
    unfold node_indexed_log_block_numbers, of_full. rewrite Hidx. cbn [any_res server_error res_map_err res_bind].
    destruct (range_leaves from to (Z.of_nat (length c))) as (pre & number & rest & -> & Hn & Hpre); [lia..|].
    rewrite (scan_missing g c); [done|done|done|unfold in_u64 in *; lia|lia].
Qed.
End index.

(** ** Polling a filter *)

Lemma member_set_same k v m : member (set_member k v m) k = Some v.
Proof.
  unfold set_member. destruct (existsb _ m) eqn:E.
  - induction m as [|[k' v'] m IH]; [done|]. cbn in E |- *. unfold member. cbn. case_bool_decide as Hk; cbn.
    + by rewrite bool_decide_true.
    + rewrite bool_decide_false by done. by apply IH.
  - induction m as [|[k' v'] m IH]; cbn in E |- *; unfold member; cbn; [by rewrite bool_decide_true|].
    apply orb_false_iff in E as [Ek Em]. rewrite Ek. by apply IH.
Qed.

Lemma member_set_other k v m k' : k <> k' -> member (set_member k v m) k' = member m k'.
Proof.
  intros Hne. unfold set_member, member. f_equal. destruct (existsb _ m).
  - induction m as [|[x y] m IH]; [done|]. cbn [map List.find fst]. destruct (decide (x = k)) as [->|Hx].
    + rewrite (bool_decide_true (k = k)) by done. cbn [fst]. rewrite !(bool_decide_false (k = k')) by done. apply IH.
    + rewrite (bool_decide_false (x = k)) by done. cbn [fst]. case_bool_decide; [done|]. apply IH.
  - induction m as [|[x y] m IH]; cbn [app List.find fst]; [by rewrite bool_decide_false|]. case_bool_decide; [done|]. apply IH.
Qed.

Lemma parse_log_quantity z latest : in_u64 z -> parse_log_block_tag (Some (Text (quantity z))) latest = Ok z.
Proof.
  intros Hz. unfold parse_log_block_tag, parse_block_tag. cbn [mbind option_bind as_str default from_option].
  change (id (quantity z)) with (quantity z). destruct (quantity_no_tag z) as [H1 H2].
  rewrite !bool_decide_false by done. by apply parse_quantity_u64.
Qed.

(** No digit reads as the [x] of a second prefix. *)
Lemma trim_quantity z : 0 <= z -> trim_0x (quantity z) = hex_digits 32 z.
Proof.
  intros Hz. assert (forall f z, 0 <= z -> Forall (fun c => c <> x78) (hex_digits f z)) as Hx.
  { assert (forall d, 0 <= d < 16 -> hex_digit d <> x78) as Hd.
    { intros d Hd E. apply (f_equal u8_val) in E. unfold hex_digit in E. rewrite u8_val_as_u8 in E.
      change (u8_val x78) with 120 in E. destruct (Z.ltb_spec d 10); rewrite Z.mod_small in E; lia. }
    induction f as [|f IH]; intros y Hy; [constructor|]. cbn. destruct (Z.ltb_spec y 16).
    - repeat constructor. apply Hd. lia.
    - apply List.Forall_app. split; [apply IH; dlia|]. repeat constructor. apply Hd. dlia. }
  specialize (Hx 32%nat z Hz). unfold quantity. cbn [app trim_0x].
  change (trim_0x (B "0x" ++ hex_digits 32 z)) with (trim_0x (hex_digits 32 z)).
  destruct (hex_digits 32 z) as [|c [|d rest]]; [done..|]. cbn. rewrite bool_decide_false; [done|].
  intros [= _ ->]. apply List.Forall_cons_iff in Hx as [_ Hx]. by apply List.Forall_cons_iff in Hx as [Hx _].
Qed.

Lemma own_filter_id id : in_u64 id -> filter_id_from_params (Some [Text (quantity id)]) = Ok id.
Proof.
  intros Hid. unfold filter_id_from_params. cbn [param mbind option_bind as_str lookup list_lookup ok_or res_bind].
  rewrite trim_quantity by (unfold in_u64 in Hid; lia). pose proof (parse_quantity_u64 id Hid) as H.
  unfold parse_hex_u64, parse_hex_quantity, quantity in H. rewrite strip_prefix_app in H. cbn [ok_or res_bind] in H. by rewrite H.
Qed.

(** One poll of a client: the node as it is then, and the readings of the clock. *)
Record Poll {S : Sled} := {
  po_generation : Generation;
  po_pool : Mempool;
  po_read : Z;
  po_answered : Z;
}.

Section polling.
Context {S : Sled} {HX : HexCodec} {D : Digests} {U : U256Ops} {R : Revm} {BP : BuildProfile} {PK : PeerKeys}.
Context {JB : Json Block} {JH : Json BlockHeader} {JT : Json Transaction} {JR : Json StoredReceipt}.
Context {JE : Json (list SerializedEvmSnapshotEntry)}.
Context {IO : FileIo} {JM : Json GenerationManifest} {JC : Json ReplayCheckpoint}.
Context {JP : Json GenerationPublicationRecord} {JS : Json SuffixPublicationRecord} {CM : CompactManifest}.
Context {HR : SledReadable}.
Context (rc : ReplayConfig) (network : NetworkConfig) (peers : list (Hash256 -> Conversation)).

Fixpoint poll_all (params : option (list Value)) (polls : list Poll) : StM RpcError Filters (list Value) :=
  match polls with
  | [] => st_ret []
  | p :: polls =>
      do? answer := rpc_get_filter_changes rc network (Full (po_generation p)) peers (po_pool p) params (po_read p) (po_answered p) in
      do? answers := poll_all params polls in
      st_ret (answer :: answers)
  end.

(** Polls of a node whose chain only grows, by at most 2001 blocks from one to
    the next, each within the lifetime of the filter.  A poll is paired with the
    blocks that are new. *)
Fixpoint steady (c : list Block) (accessed : Z) (polls : list (Poll * list Block)) : Prop :=
  match polls with
  | [] => True
  | (p, new) :: polls =>
      chain_rep (contents (gn_db (po_generation p))) (c ++ new) /\ Forall wf_logs (c ++ new) /\
      Z.of_nat (length new) <= MAX_LOG_BLOCK_RANGE + 1 /\
      sat_sub (po_read p) accessed <= RPC_FILTER_TTL_SECONDS /\
      sat_sub (po_answered p) (po_read p) <= RPC_FILTER_TTL_SECONDS /\
      steady (c ++ new) (if bool_decide (new = []) then po_read p else po_answered p) polls
  end.

Lemma range_answer g c filter (from : nat) :
  chain_rep (contents (gn_db g)) c -> Forall wf_logs c -> member filter (B "blockHash") = None ->
  (from < length c)%nat -> Z.of_nat (length c) - 1 - Z.of_nat from <= MAX_LOG_BLOCK_RANGE ->
  log_filter_result rc network (Full g) peers (Object filter) (Z.of_nat from) (Z.of_nat (length c) - 1) =
    Ok (Array (concat (map (block_logs (member filter (B "address")) (member filter (B "topics") ≫= as_array)) (drop from c)))).
Proof.
  intros Hc Hwf Hhash Hlt Hr. unfold log_filter_result. cbn [as_object ok_or res_bind].
  pose proof (cr_fits _ _ Hc) as Hf. unfold list_fits in Hf.
  erewrite (stored_logs rc network peers g c _ (Z.of_nat from) (Z.of_nat (length c) - 1)); [| |done|..|lia|lia|done]; [|done|..].
  - cbn [res_map_err]. unfold matching_logs. rewrite !member_set_other by discriminate. rewrite Nat2Z.id, take_ge; [done|].
    rewrite length_drop. lia.
  - by rewrite !member_set_other by discriminate.
  - rewrite member_set_other, member_set_same by discriminate. apply parse_log_quantity. unfold in_u64. lia.
  - rewrite member_set_same. apply parse_log_quantity. unfold in_u64. lia.
Qed.

(** The filter of a client among the filters. *)
Definition holds_filter (id : Z) (kind : RpcFilterKind) (c : list Block) (accessed : Z) (f : Filters) : Prop :=
  fi_filters f !! id =
    Some {| rf_kind := kind; rf_last_block := Z.of_nat (length c) - 1; rf_last_accessed_at := accessed |}.

Lemma pruned_keeps id kind c accessed now f :
  holds_filter id kind c accessed f -> sat_sub now accessed <= RPC_FILTER_TTL_SECONDS ->
  holds_filter id kind c accessed (pruned now f).
Proof. intros H Hage. unfold holds_filter, pruned. cbn. by apply map_lookup_filter_Some. Qed.

(** One poll of a log filter. *)
Lemma poll_step id filter c new accessed p f :
  in_u64 id -> holds_filter id (LogFilter (Object filter)) c accessed f -> member filter (B "blockHash") = None ->
  c <> [] -> steady c accessed [(p, new)] ->
  exists f', rpc_get_filter_changes rc network (Full (po_generation p)) peers (po_pool p) (Some [Text (quantity id)])
      (po_read p) (po_answered p) f =
    (Ok (Array (concat (map (block_logs (member filter (B "address")) (member filter (B "topics") ≫= as_array)) new))), f') /\
    holds_filter id (LogFilter (Object filter)) (c ++ new) (if bool_decide (new = []) then po_read p else po_answered p) f'.
Proof.
  intros Hid Hf Hhash Hne (Hc & Hwf & Hlen & Hread & Hans & _). unfold rpc_get_filter_changes.
  destruct (chain_tip (po_generation p) (c ++ new) Hc) as [(best & Hbest & Hnum) Hu]; [by destruct c|].
  unfold current_block_number. rewrite (own_filter_id id Hid), Hbest. cbn. rewrite Hnum.
  unfold rpc_filter_by_id. pose proof (pruned_keeps _ _ _ _ _ _ Hf Hread) as Hp.
  unfold holds_filter in Hp. rewrite Hp. cbn [server_error res_map_err touch rf_kind rf_last_block].
  set (f1 := {| fi_filters := _; fi_next_id := _ |}).
  assert (holds_filter id (LogFilter (Object filter)) c (po_read p) f1) as Hf1 by apply lookup_insert_eq.
  pose proof (cr_fits _ _ Hc) as Hfit. unfold list_fits in Hfit. rewrite length_app in *.
  assert (length c <> 0)%nat as Hc0 by (by destruct c). rewrite sat_add_exact by lia. destruct new as [|b new].
  - cbn [length] in *. replace (_ <? _) with true by lia. rewrite app_nil_r. by exists f1.
  - cbn [length] in *. replace (_ <? _) with false by lia. cbn [filter_result].
    replace (Z.of_nat (length c) - 1 + 1) with (Z.of_nat (length c)) by lia.
    pose proof (range_answer (po_generation p) (c ++ b :: new) filter (length c) Hc Hwf Hhash) as Ha.
    rewrite length_app, drop_app_length in Ha. cbn [length] in Ha. rewrite Ha by (unfold MAX_LOG_BLOCK_RANGE in *; lia).
    cbn [server_error res_map_err]. eexists. split; [reflexivity|].
    pose proof (pruned_keeps _ _ _ _ _ _ Hf1 Hans) as Hp2. unfold holds_filter, advance_filter in *. cbn [fi_filters].
    rewrite lookup_alter_eq, Hp2, length_app. done.
Qed.

(** A filter that lags more than 2001 blocks behind fails at every further poll:
    the failed poll leaves it where it is. *)
Lemma lagging_filter id filter c chain accessed p f :
  in_u64 id -> holds_filter id (LogFilter (Object filter)) c accessed f -> member filter (B "blockHash") = None ->
  chain_rep (contents (gn_db (po_generation p))) chain -> sat_sub (po_read p) accessed <= RPC_FILTER_TTL_SECONDS ->
  MAX_LOG_BLOCK_RANGE < Z.of_nat (length chain) - 1 - Z.of_nat (length c) ->
  exists f', rpc_get_filter_changes rc network (Full (po_generation p)) peers (po_pool p) (Some [Text (quantity id)])
      (po_read p) (po_answered p) f =
    (Err (rpc_error (-32000) "eth_getLogs block range is invalid or too large"), f') /\
    holds_filter id (LogFilter (Object filter)) c (po_read p) f'.
Proof.
  intros Hid Hf Hhash Hc Hread Hlag. pose proof (cr_fits _ _ Hc) as Hfit. unfold list_fits in Hfit.
  unfold MAX_LOG_BLOCK_RANGE in Hlag.
  destruct (chain_tip (po_generation p) chain Hc) as [(best & Hbest & Hnum) _]; [intros ->; cbn in Hlag; lia|].
  unfold rpc_get_filter_changes, current_block_number. rewrite (own_filter_id id Hid), Hbest. cbn. rewrite Hnum.
  unfold rpc_filter_by_id. pose proof (pruned_keeps _ _ _ _ _ _ Hf Hread) as Hp.
  unfold holds_filter in Hp. rewrite Hp. cbn [server_error res_map_err touch rf_kind rf_last_block].
  replace (sat_add U64_MAX (Z.of_nat (length c) - 1) 1) with (Z.of_nat (length c)) by (unfold sat_add; lia).
  replace (_ <? _) with false by lia. cbn [filter_result]. unfold log_filter_result. cbn [as_object ok_or res_bind].
  unfold rpc_get_logs. cbn [param mbind option_bind as_object lookup list_lookup ok_or res_bind]. rewrite Hbest.
  cbn [any_res server_error res_map_err res_bind]. unfold log_block_numbers.
  rewrite !member_set_other, Hhash by discriminate. rewrite member_set_same, member_set_same.
  rewrite !parse_log_quantity by (unfold in_u64; lia). cbn [res_map_err res_bind].
  replace (_ || _) with true by (symmetry; unfold sat_sub, MAX_LOG_BLOCK_RANGE; lia). cbn [res_map_err re_message rpc_error].
  eexists. split; [reflexivity|]. apply lookup_insert_eq.
Qed.

Lemma poll_run id filter polls : forall c accessed f,
  in_u64 id -> holds_filter id (LogFilter (Object filter)) c accessed f -> member filter (B "blockHash") = None ->
  c <> [] -> steady c accessed polls ->
  exists f', poll_all (Some [Text (quantity id)]) (map fst polls) f =
    (Ok (map (fun x => Array (concat (map (block_logs (member filter (B "address")) (member filter (B "topics") ≫= as_array)) x.2)))
           polls), f').
Proof.
  induction polls as [|[p new] polls IH]; intros c accessed f Hid Hf Hhash Hne Hs; [by exists f|].
  destruct (poll_step id filter c new accessed p f Hid Hf Hhash Hne) as (f1 & H1 & Hf1).
  { cbn in Hs |- *. tauto. }
  destruct (IH (c ++ new) _ f1 Hid Hf1 Hhash) as (f2 & H2); [by destruct c|apply Hs|].
  exists f2. cbn [map poll_all fst]. unfold st_bind at 1. rewrite H1. unfold st_bind. rewrite H2. reflexivity.
Qed.

(** C19: a client that installs a log filter and polls it is told of every log
    that passes, once, and in the order of the chain, whatever filters other
    clients have: the answers of its polls, put together, are the logs of the
    blocks that came after the filter was installed.  The chain is assumed to
    grow by at most 2001 blocks between two polls and to replace none, and the
    client to poll within the lifetime of the filter. *)
Theorem filter_tells_all g c pool_now f polls params filter :
  chain_rep (contents (gn_db g)) c -> c <> [] -> requested_filter params = Object filter ->
  member filter (B "blockHash") = None -> in_u64 (fi_next_id f) ->
  (size (fi_filters (pruned pool_now f)) < MAX_RPC_FILTERS)%nat -> steady c pool_now polls ->
  exists id f1 answers f2,
    rpc_new_filter (Full g) params pool_now f = (Ok (Text id), f1) /\
    poll_all (Some [Text id]) (map fst polls) f1 = (Ok answers, f2) /\
    Forall2 (fun answer new => exists logs, answer = Array logs) answers polls /\
    concat (omap as_array answers) =
      concat (map (block_logs (member filter (B "address")) (member filter (B "topics") ≫= as_array)) (concat (map snd polls))).
Proof using HR.
  intros Hc Hne Hreq Hhash Hid Hroom Hs. set (id := fi_next_id f).
  destruct (chain_tip g c Hc Hne) as [(best & Hbest & Hnum) _].
  set (f1 := {| fi_filters := <[id := {| rf_kind := LogFilter (Object filter); rf_last_block := Z.of_nat (length c) - 1;
                  rf_last_accessed_at := pool_now |}]> (fi_filters (pruned pool_now f)); fi_next_id := wrap64 (id + 1) |}).
  assert (rpc_new_filter (Full g) params pool_now f = (Ok (Text (quantity id)), f1)) as H1.
  { unfold rpc_new_filter, install_filter, current_block_number. rewrite Hbest, Hreq. cbn. rewrite Hnum. unfold new_rpc_filter.
    destruct (Nat.leb_spec MAX_RPC_FILTERS (size (fi_filters (pruned pool_now f)))); [lia|]. reflexivity. }
  destruct (poll_run id filter polls c pool_now f1 Hid) as (f2 & H2); [apply lookup_insert_eq|done..|].
  exists (quantity id), f1. do 2 eexists. split; [exact H1|]. split; [exact H2|]. clear.
  generalize (block_logs (member filter (B "address")) (member filter (B "topics") ≫= as_array)). intros logs_of. split.
  - induction polls as [|x polls IH]; [constructor|]. cbn. constructor; [by eexists|exact IH].
  - induction polls as [|x polls IH]; [done|]. cbn. rewrite map_app, concat_app. f_equal. exact IH.
Qed.
End polling.

(** ** Example: a chain with one log *)

Section witness.
#[local] Existing Instances mem_sled hex_codec toy_digests mem_files u256_z native_profile toy_keys mem_sled_reliable.
#[local] Existing Instances SampleCodecs.JE SampleCodecs.JM SampleCodecs.CM SampleCodecs.JC SampleCodecs.JP.
#[local] Instance logs_jb : Json Block := table_json sample_chain.
#[local] Instance logs_jh : Json BlockHeader := table_json (map blk_header sample_chain).
#[local] Instance logs_jt : Json Transaction := table_json [sample_plain_tx 2].
#[local] Instance logs_jr : Json StoredReceipt := table_json sample_stored.
#[local] Instance logs_revm : Revm := toy_revm u256_z.

Definition stored_chain (blocks : list Block) : Generation :=
  {| gn_db := (st_for blocks insert_block {| ss_db := (∅ : @sled_db mem_sled); ss_defer_flush := false |}).2;
     gn_files := fun _ => None |}.

Lemma stored_chain_rep k : chain_rep (contents (gn_db (stored_chain (take k sample_chain)))) (take k sample_chain).
Proof.
  unfold stored_chain. cbn [gn_db]. set (s := {| ss_db := _; ss_defer_flush := _ |}).
  destruct (insert_blocks_succeed (HRel := mem_sled_reliable) (take k sample_chain) s) as ([] & s' & Hrun).
  { apply Forall_take. repeat (apply List.Forall_cons; [by vm_compute|]). apply List.Forall_nil. }
  rewrite Hrun. destruct (insert_blocks_rep (take k sample_chain) [] s s') as [Hc _]; [by apply chain_rep_empty| | |done|exact Hc].
  - intros i b Hb. apply sample_chain_numbers. cbn [app] in Hb. by apply lookup_take_Some in Hb as [? _].
  - unfold list_fits. cbn [app]. rewrite length_take. unfold U64_MAX. cbn [length sample_chain]. lia.
Qed.

Lemma sample_logs_wf k : Forall wf_logs (take k sample_chain).
Proof.
  apply Forall_take. repeat (apply List.Forall_cons || apply List.Forall_nil); try apply List.Forall_nil;
    (split; [apply length_be_bytes|]); repeat (apply List.Forall_cons; [apply length_be_bytes|]); apply List.Forall_nil.
Qed.

(** The logs of one contract, from the genesis on. *)
Definition contract_logs : list (list byte * Value) :=
  [(B "address", Text (address_to_hex (be_bytes 20 9))); (B "fromBlock", Text (B "earliest"))].

Lemma logs_exact_witness :
  exists log, rpc_get_logs past_config past_network (Full (stored_chain sample_chain)) [] (Some [Object contract_logs]) =
    Ok (Array [log]).
Proof.
  pose proof (logs_exact past_config past_network [] (stored_chain sample_chain) sample_chain contract_logs
    (stored_chain_rep 2) ltac:(discriminate) (sample_logs_wf 2) eq_refl) as H.
  cbn zeta in H. change (parse_log_block_tag _ _) with (Ok (E:=string) 0) in H at 1.
  change (parse_log_block_tag _ _) with (Ok (E:=string) 1) in H. destruct H as (_ & H & _).
  eexists. rewrite H; [|cbn; lia|done]. vm_compute. reflexivity.
Defined.

Definition sample_polls : list (Poll * list Block) :=
  [({| po_generation := stored_chain sample_chain; po_pool := mempool_default; po_read := 110; po_answered := 111 |},
    drop 1 sample_chain);
   ({| po_generation := stored_chain sample_chain; po_pool := mempool_default; po_read := 200; po_answered := 201 |}, [])].

Lemma filter_tells_all_witness :
  exists id f1 first second f2 log,
    rpc_new_filter (Full (stored_chain (take 1 sample_chain))) (Some [Object contract_logs]) 100 no_filters = (Ok (Text id), f1) /\
    poll_all past_config past_network [] (Some [Text id]) (map fst sample_polls) f1 = (Ok [Array first; Array second], f2) /\
    first ++ second = [log].
Proof.
  destruct (filter_tells_all past_config past_network [] (stored_chain (take 1 sample_chain)) (take 1 sample_chain) 100 no_filters
    sample_polls (Some [Object contract_logs]) contract_logs) as (id & f1 & answers & f2 & H1 & H2 & H3 & H4);
    [apply (stored_chain_rep 1)|discriminate|reflexivity|reflexivity|by vm_compute|vm_compute; lia| |].
  - cbn [steady sample_polls]. split; [exact (stored_chain_rep 2)|]. split; [exact (sample_logs_wf 2)|].
    split; [by vm_compute|]. split; [by vm_compute|]. split; [by vm_compute|].
    split; [exact (stored_chain_rep 2)|]. split; [exact (sample_logs_wf 2)|].
    split; [by vm_compute|]. split; [by vm_compute|]. split; [by vm_compute|exact I].
  - apply Forall2_cons_inv_r in H3 as (first & rest & [a ->] & H3 & ->).
    apply Forall2_cons_inv_r in H3 as (second & rest2 & [b ->] & H3 & ->). apply Forall2_nil_inv_r in H3 as ->.
    exists id, f1, a, b, f2. eexists. split; [exact H1|]. split; [exact H2|].
    cbn [omap list_omap as_array concat] in H4. rewrite app_nil_r in H4. rewrite H4. vm_compute. reflexivity.
Defined.
End witness.
