(* ===== verification/Upstream.v ===== *)
(** Mining work and answers from other nodes ([crates/blq-node/src/main.rs]):
    when a node that knows of a stronger branch hands its miners the templates
    of an upstream, which of them it chooses, and where it sends the block that
    is mined on one.

    A request to an upstream is the argument [post]: what the endpoint answers
    to a method with its parameters, as a JSON value.  One operation reads the
    clock once. *)

From Stdlib Require Import ZArith Lia Strings.String Strings.Byte.
From stdpp Require Import sorting gmap fin_maps base list.
From S2P Require Import Prelude Externals Primitives Canonical Rlp RawTx Pow Consensus State StateRoot.
From S2P Require Import Transition Evm Difficulty BlockExec Mempool Admission Replay Network.
From S2P Require Import Sled AccountStore BlockStore ChainStore Generation Publish CandidateStore NodeStore Snapshots Branch.
From S2P Require Import Supply Miner Import Fork Cursor Recovery Sync Jobs Driver Wire Serve Ancestor Session History Logs.
#[local] Open Scope Z_scope.

Definition MINING_UPSTREAM_TEMPLATE_TTL_SECONDS : Z := 120.

Record MiningUpstreamTemplate := {
  mu_endpoint : list byte;
  mu_updated_at : Z;
}.

(** [validated_mining_upstreams], by endpoint the time until which it is
    trusted, and [upstream_template_sources], by parent hash. *)
Record Upstreams := {
  up_validated : gmap (list byte) Z;
  up_sources : gmap Hash256 MiningUpstreamTemplate;
}.

#[global] Instance upstreams_fields : Fields Upstreams := fun u => {|
  up_validated := up_validated u; up_sources := up_sources u |}.

Definition no_upstreams : Upstreams := {| up_validated := ∅; up_sources := ∅ |}.

(** [Value::get] of a member, and [Value::as_u64]. *)
Definition get (v : Value) (k : list byte) : option Value := as_object v ≫= (fun m => member m k).
Definition as_u64 (v : Value) : option Z := match v with Number text => parse_uint U64_MAX text | _ => None end.

Definition is_upstream_read_method (method : list byte) : bool :=
  bool_decide (method ∈ [B "blq_supply"; B "eth_blockNumber"; B "eth_getBalance"; B "eth_getBlockByNumber";
    B "eth_getBlockByHash"; B "eth_getBlockTransactionCountByNumber"; B "eth_getBlockTransactionCountByHash";
    B "eth_getTransactionByBlockNumberAndIndex"; B "eth_getTransactionByBlockHashAndIndex"; B "eth_getBlockReceipts";
    B "eth_getTransactionCount"; B "eth_getTransactionByHash"; B "eth_getTransactionReceipt"; B "eth_getCode";
    B "eth_getStorageAt"; B "eth_estimateGas"; B "eth_call"; B "eth_getLogs"; B "eth_feeHistory"]).

(** A usable template: its height, endpoint, parent and text. *)
Record Selected := {
  sl_height : Z;
  sl_endpoint : list byte;
  sl_parent : Hash256;
  sl_template : Value;
}.

Section upstream.
Context {S : Sled} {HX : HexCodec} {D : Digests} {U : U256Ops} {R : Revm} {RX : RandomX} {BP : BuildProfile}.
Context {JB : Json Block} {JH : Json BlockHeader} {JT : Json Transaction} {JR : Json StoredReceipt}.
Context {JE : Json (list SerializedEvmSnapshotEntry)}.
Context {IO : FileIo} {JM : Json GenerationManifest} {JC : Json ReplayCheckpoint}.
Context {JP : Json GenerationPublicationRecord} {JS : Json SuffixPublicationRecord} {CM : CompactManifest}.
Context (rc : ReplayConfig) (mining_upstreams : list (list byte)).
Context (post : list byte -> list byte -> Value -> res string Value) (now : Z).

Definition rpc_call_upstream (endpoint method : list byte) (params : Value) : res string Value :=
  let? value := post endpoint method params in
  match get value (B "error") with
  | Some _ => Err "upstream failed"%string
  | None => ok_or (get value (B "result")) "upstream response missing result"%string
  end.

Definition validate_mining_upstream (endpoint : list byte) (genesis_hash : Hash256) : res string unit :=
  let? info := rpc_call_upstream endpoint (B "blq_nodeInfo") (Array []) in
  if negb (bool_decide ((get info (B "chainId") ≫= as_u64) = Some MAINNET_CHAIN_ID))
  then Err "upstream reported the wrong chain ID"%string
  else if negb (bool_decide ((get info (B "genesisHash") ≫= as_str) = Some (hash_to_hex genesis_hash)))
  then Err "upstream reported a different genesis hash"%string
  else if negb (bool_decide (default [] (get info (B "consensusProfile") ≫= as_str) = network_consensus_profile rc genesis_hash))
  then Err "upstream reported an incompatible consensus profile"%string
  else Ok tt.

Section node.
Context (n : NodeStorage) (rs : RecoveryState).

Definition mining_upstream_required (tips : gmap (list byte) PeerTip) : bool :=
  if bool_decide (mining_upstreams = []) then false
  else if existsb recovery_cursor_requires_provider (map snd (btree_iter (rs_cursors rs))) then true
  else if bool_decide (is_Some (unresolved_branch_cursor rc n rs)) then true
  else
    match node_best_header n with
    | Ok local =>
        let profile := network_consensus_profile rc (configured_genesis_hash n) in
        let verified_peer_ahead := existsb (fun tip =>
          pt_body_verified tip && (sat_sub now (pt_last_seen tip) <=? PEER_TIP_TTL_SECONDS)
          && bool_decide (pt_consensus_profile tip = profile)
          && ((hdr_number local <? pt_best_number tip)
              || ((pt_best_number tip =? hdr_number local)
                  && negb (bool_decide (pt_best_hash tip = hash_to_hex (header_hash local))))))
          (map snd (btree_iter tips)) in
        let local_work := default 0 (found (canonical_work_through_node_storage n (hdr_number local))) in
        let winning_candidate :=
          match found (node_latest_candidate_tip n) with
          | Some (Some (_, work)) => local_work <=? work
          | _ => false
          end in
        verified_peer_ahead || winning_candidate
    | _ => false
    end.

Definition minimum_upstream_template_height : res string Z :=
  let? best := any_res (node_best_header n) in
  let height := (fun c => sat_add U64_MAX (cu_tip_height c) 1) <$> unresolved_branch_cursor rc n rs in
  Ok (default (sat_add U64_MAX (hdr_number best) 1)
        (height ≫= (fun height => if 0 <? height then Some height else None))).

(** The check of an endpoint that is not trusted at the moment. *)
Definition check_upstream (endpoint : list byte) : StM string Upstreams unit := fun u =>
  if match up_validated u !! endpoint with Some expires_at => now <? expires_at | None => false end
  then (Ok tt, u)
  else
    match validate_mining_upstream endpoint (configured_genesis_hash n) with
    | Ok _ => (Ok tt, u <|up_validated := <[endpoint := sat_add U64_MAX now MINING_UPSTREAM_TEMPLATE_TTL_SECONDS]> (up_validated u)|>)
    | Err e => (Err e, u)
    | Panic => (Panic, u)
    end.

(** What makes a template usable; [None] when it is stale. *)
Definition usable_template (minimum_height : Z) (endpoint : list byte) (template : Value) : res string (option Selected) :=
  let? height := ok_or (get template (B "height") ≫= as_u64) "upstream template missing height"%string in
  if height <? minimum_height then Ok None
  else
    let? text := ok_or (get template (B "parentHash") ≫= as_str) "upstream template missing parent hash"%string in
    let? parent := res_map_err (fun _ => "invalid upstream parent hash"%string) (hash_from_hex text) in
    Ok (Some {| sl_height := height; sl_endpoint := endpoint; sl_parent := parent; sl_template := template |}).

Definition better_template (selected new : option Selected) : option Selected :=
  match selected, new with
  | Some s, Some x => if sl_height s <? sl_height x then Some x else Some s
  | None, _ => new
  | _, None => selected
  end.

(** The loop over the upstreams; a failed one loses its trust. *)
Fixpoint select_template (minimum_height : Z) (params : Value) (endpoints : list (list byte)) (selected : option Selected)
    : StM string Upstreams (option Selected) := fun u =>
  match endpoints with
  | [] => (Ok selected, u)
  | endpoint :: endpoints =>
      match (check_upstream endpoint ;! st_res (rpc_call_upstream endpoint (B "blq_getBlockTemplate") params)) u with
      | (Ok template, u) =>
          match usable_template minimum_height endpoint template with
          | Ok new => select_template minimum_height params endpoints (better_template selected new) u
          | Err e => (Err e, u)
          | Panic => (Panic, u)
          end
      | (Err _, u) =>
          select_template minimum_height params endpoints selected (u <|up_validated := delete endpoint (up_validated u)|>)
      | (Panic, u) => (Panic, u)
      end
  end.

(** The template that is passed on names where it comes from. *)
Definition marked_template (s : Selected) : Value :=
  match sl_template s with
  | Object m => Object (set_member (B "miningUpstream") (Text (sl_endpoint s)) (set_member (B "templateSource") (Text (B "upstream")) m))
  | v => v
  end.

(** [params]: the parameters of the request, an empty list when there are none. *)
Definition proxy_mining_template (params : Value) : StM string Upstreams Value :=
  do? minimum_height := st_res minimum_upstream_template_height in
  do? selected := select_template minimum_height params mining_upstreams None in
  match selected with
  | Some s => fun u =>
      (Ok (marked_template s),
       u <|up_sources := <[sl_parent s := {| mu_endpoint := sl_endpoint s; mu_updated_at := now |}]> (up_sources u)|>)
  | None => st_res (Err "no compatible mining upstream is available"%string)
  end.

Fixpoint first_answer (genesis : Hash256) (method : list byte) (params : Value) (endpoints : list (list byte)) : res string Value :=
  match endpoints with
  | [] => Err "no compatible read RPC upstream is available"%string
  | endpoint :: endpoints =>
      match (validate_mining_upstream endpoint genesis ;? rpc_call_upstream endpoint method params) with
      | Ok result => Ok result
      | Err _ => first_answer genesis method params endpoints
      | Panic => Panic
      end
  end.

Definition proxy_read_rpc (method : list byte) (params : Value) : res string Value :=
  first_answer (configured_genesis_hash n) method params mining_upstreams.
End node.

(** A block mined on a recent upstream template goes to the node the template
    came from, whatever the state of this node. *)
Definition proxy_mined_block (block : Block) (params : Value) : StM string Upstreams (option Value) := fun u =>
  let parent_hash := hdr_parent_hash (blk_header block) in
  match up_sources u !! parent_hash with
  | None => (Ok None, u)
  | Some source =>
      if MINING_UPSTREAM_TEMPLATE_TTL_SECONDS <? sat_sub now (mu_updated_at source)
      then (Ok None, u <|up_sources := delete parent_hash (up_sources u)|>)
      else (let? result := rpc_call_upstream (mu_endpoint source) (B "blq_submitBlock") params in Ok (Some result), u)
  end.
End upstream.

(** ** Which template is passed on *)

Section choice.
Context {S : Sled} {HX : HexCodec} {D : Digests} {U : U256Ops} {R : Revm} {RX : RandomX} {BP : BuildProfile}.
Context {JB : Json Block} {JH : Json BlockHeader} {JT : Json Transaction} {JR : Json StoredReceipt}.
Context {JE : Json (list SerializedEvmSnapshotEntry)}.
Context {IO : FileIo} {JM : Json GenerationManifest} {JC : Json ReplayCheckpoint}.
Context {JP : Json GenerationPublicationRecord} {JS : Json SuffixPublicationRecord} {CM : CompactManifest}.
Context (rc : ReplayConfig) (post : list byte -> list byte -> Value -> res string Value) (now : Z) (n : NodeStorage).

Abbreviation valid_entry u e := (exists expires_at, up_validated u !! e = Some expires_at /\ now < expires_at).
Abbreviation follows_rules e := (validate_mining_upstream rc post e (configured_genesis_hash n) = Ok tt).

(** An endpoint whose identity was checked before and has not expired, or that
    passes the check now. *)
Definition trusted_upstream (u : Upstreams) (e : list byte) : Prop := valid_entry u e \/ follows_rules e.

(** What an endpoint offers: it is trusted, answers the request, and its
    template is high enough. *)
Record offers (u : Upstreams) (minimum_height : Z) (params : Value) (s : Selected) : Prop := {
  of_trusted : trusted_upstream u (sl_endpoint s);
  of_answer : rpc_call_upstream post (sl_endpoint s) (B "blq_getBlockTemplate") params = Ok (sl_template s);
  of_usable : usable_template minimum_height (sl_endpoint s) (sl_template s) = Ok (Some s);
}.

Lemma usable_height minimum e t s : usable_template minimum e t = Ok (Some s) -> minimum <= sl_height s /\ sl_endpoint s = e /\ sl_template s = t.
Proof.
  unfold usable_template. intros (h & _ & H)%res_bind_ok. destruct (Z.ltb_spec h minimum); [done|].
  apply res_bind_ok in H as (text & _ & H). apply res_bind_ok in H as (p & _ & [= <-]). by cbn.
Qed.

(** The trust during the loop, against the trust before it. *)
Record trust_inv (params : Value) (u0 u : Upstreams) : Prop := {
  ti_sources : up_sources u = up_sources u0;
  ti_sound : forall e, valid_entry u e -> trusted_upstream u0 e;
  ti_kept : forall e t, trusted_upstream u0 e -> rpc_call_upstream post e (B "blq_getBlockTemplate") params = Ok t ->
    valid_entry u e \/ follows_rules e;
}.

Lemma trust_inv_refl params u : trust_inv params u u.
Proof. split; [done| |]; intros e; [by left|by intros t Ht _]. Qed.

Lemma check_upstream_ok params u0 u e r u' :
  trust_inv params u0 u -> check_upstream rc post now n e u = (r, u') ->
  trust_inv params u0 u' /\ (r = Ok tt -> trusted_upstream u0 e) /\
  (r <> Ok tt -> u' = u /\ ~ valid_entry u e /\ ~ follows_rules e).
Proof.
  intros Hinv H. unfold check_upstream in H.
  destruct (match up_validated u !! e with Some _ => _ | None => _ end) eqn:Ev.
  { injection H as <- <-. split; [done|]. split; [|done]. intros _. apply (ti_sound _ _ _ Hinv).
    destruct (up_validated u !! e) as [x|]; [|done]. exists x. split; [done|lia]. }
  assert (~ valid_entry u e) as Hno.
  { intros (x & Hx & Hlt). rewrite Hx in Ev. lia. }
  destruct (validate_mining_upstream _ _ _ _) as [[]|er|] eqn:Em; injection H as <- <-.
  2,3: split; [done|]; split; [done|]; intros _; split; [done|]; split; [done|congruence].
  split; [|split; [by right|done]]. destruct Hinv as [H1 H2 H3]. split; [exact H1| |].
  - intros e' (x & Hx & Hlt). cbn in Hx. destruct (decide (e' = e)) as [->|Hne]; [by right|].
    rewrite lookup_insert_ne in Hx by done. apply H2. by exists x.
  - intros e' t Ht Hc. destruct (H3 e' t Ht Hc) as [(x & Hx & Hlt)|?]; [|by right].
    destruct (decide (e' = e)) as [->|Hne]; [by right|]. left. exists x. cbn. by rewrite lookup_insert_ne.
Qed.

Lemma drop_upstream_ok params u0 u e :
  trust_inv params u0 u ->
  ((forall t, rpc_call_upstream post e (B "blq_getBlockTemplate") params <> Ok t) \/ ~ valid_entry u e) ->
  trust_inv params u0 (u <|up_validated := delete e (up_validated u)|>).
Proof.
  intros [H1 H2 H3] Hno. split; [exact H1| |].
  - intros e' (x & Hx & Hlt). cbn in Hx. apply lookup_delete_Some in Hx as [_ Hx]. apply H2. by exists x.
  - intros e' t Ht Hc. destruct (H3 e' t Ht Hc) as [(x & Hx & Hlt)|?]; [|by right].
    destruct (decide (e = e')) as [<-|Hne].
    + destruct Hno as [Hno|Hno]; [by apply Hno in Hc|]. exfalso. apply Hno. by exists x.
    + left. exists x. cbn. by rewrite lookup_delete_ne.
Qed.

(** [a] is nothing, or at most as high as [b]. *)
Definition at_most (a b : option Selected) : Prop := forall s, a = Some s -> exists x, b = Some x /\ sl_height s <= sl_height x.

Lemma at_most_trans a b c : at_most a b -> at_most b c -> at_most a c.
Proof. intros H1 H2 s Hs. destruct (H1 s Hs) as (x & Hx & Hle). destruct (H2 x Hx) as (y & Hy & Hle'). exists y. split; [done|lia]. Qed.

Lemma better_template_ok a b :
  at_most a (better_template a b) /\ at_most b (better_template a b) /\ (better_template a b = a \/ better_template a b = b).
Proof.
  destruct a as [x|], b as [y|]; cbn [better_template].
  - destruct (Z.ltb_spec (sl_height x) (sl_height y)).
    + split; [|split; [|by right]]; intros s [= <-]; exists y; split; (done || lia).
    + split; [|split; [|by left]]; intros s [= <-]; exists x; split; (done || lia).
  - split; [|split; [done|by left]]. intros s [= <-]. by exists x.
  - split; [done|]. split; [|by right]. intros s [= <-]. by exists y.
  - split; [done|]. split; [done|by left].
Qed.

Lemma select_template_ok minimum params u0 endpoints : forall selected u r u',
  trust_inv params u0 u -> select_template rc post now n minimum params endpoints selected u = (Ok r, u') ->
  up_sources u' = up_sources u0 /\ at_most selected r /\
  (r = selected \/ exists s, r = Some s /\ sl_endpoint s ∈ endpoints /\ offers u0 minimum params s) /\
  (forall s, sl_endpoint s ∈ endpoints -> offers u0 minimum params s -> at_most (Some s) r).
Proof.
  induction endpoints as [|e endpoints IH]; intros selected u r u' Hinv H; cbn [select_template] in H.
  { injection H as <- <-. split; [apply Hinv|]. split; [intros s Hs; exists s; split; [done|lia]|].
    split; [by left|]. by intros s ?%not_elem_of_nil. }
  unfold st_bind at 1 in H. destruct (check_upstream rc post now n e u) as [q u1] eqn:Ec.
  destruct (check_upstream_ok _ _ _ _ _ _ Hinv Ec) as (Hinv1 & Hok & Hbad).
  assert (forall s, sl_endpoint s = e -> offers u0 minimum params s ->
    q = Ok tt /\ rpc_call_upstream post e (B "blq_getBlockTemplate") params = Ok (sl_template s) /\
    usable_template minimum e (sl_template s) = Ok (Some s)) as Hme.
  { intros s <- [H1 H2 H3]. split; [|done]. destruct q as [[]| |]; [done|exfalso..];
      destruct (Hbad ltac:(done)) as (_ & Hn1 & Hn2); by destruct (ti_kept _ _ _ Hinv _ _ H1 H2). }
  destruct q as [[]|er|]; [|clear Hok|discriminate H].
  - specialize (Hok eq_refl). unfold st_res in H. destruct (rpc_call_upstream post e _ params) as [t|er|] eqn:Et; [| |discriminate H].
    + destruct (usable_template minimum e t) as [new|er|] eqn:Eu; [|discriminate H..].
      destruct (IH _ _ _ _ Hinv1 H) as (Hs & Hat & Hfrom & Hall).
      destruct (better_template_ok selected new) as (Hb1 & Hb2 & Hb3).
      split; [done|]. split; [by eapply at_most_trans|]. split.
      * destruct Hfrom as [->|(s & -> & Hin & Ho)]; [|right; exists s; split; [done|]; split; [by right|done]].
        destruct new as [s|]; [|left; by destruct selected]. destruct Hb3 as [->| ->]; [by left|].
        right. exists s. split; [done|]. destruct (usable_height _ _ _ _ Eu) as (_ & <- & <-). split; [by left|]. by split.
      * intros s [Heq|Hin]%elem_of_cons Ho; [|by apply Hall]. destruct (Hme s Heq Ho) as (_ & E1 & E2).
        injection E1 as ->. rewrite E2 in Eu. injection Eu as <-. by eapply at_most_trans.
    + assert (trust_inv params u0 (u1 <|up_validated := delete e (up_validated u1)|>)) as Hinv2.
      { apply drop_upstream_ok; [done|]. left. intros t. rewrite Et. discriminate. }
      destruct (IH _ _ _ _ Hinv2 H) as (Hs & Hat & Hfrom & Hall). split; [done|]. split; [done|]. split.
      * destruct Hfrom as [?|(s & ? & Hin & Ho)]; [by left|]. right. exists s. split; [done|]. split; [by right|done].
      * intros s [Heq|Hin]%elem_of_cons Ho; [|by apply Hall]. destruct (Hme s Heq Ho) as (_ & E1 & _). congruence.
  - destruct (Hbad ltac:(done)) as (-> & Hn1 & Hn2).
    assert (trust_inv params u0 (u <|up_validated := delete e (up_validated u)|>)) as Hinv2.
    { apply drop_upstream_ok; [done|]. by right. }
    destruct (IH _ _ _ _ Hinv2 H) as (Hs & Hat & Hfrom & Hall). split; [done|]. split; [done|]. split.
    + destruct Hfrom as [?|(s & ? & Hin & Ho)]; [by left|]. right. exists s. split; [done|]. split; [by right|done].
    + intros s [Heq|Hin]%elem_of_cons Ho; [|by apply Hall]. by destruct (Hme s Heq Ho) as (? & _).
Qed.

Section minimum.
Context (rs : RecoveryState).

(** The height above the tip that is being recovered, or else above the local
    tip. *)
Definition minimum_for (best : BlockHeader) : Z :=
  match unresolved_branch_cursor rc n rs with
  | Some cursor => sat_add U64_MAX (cu_tip_height cursor) 1
  | None => sat_add U64_MAX (hdr_number best) 1
  end.

Lemma unresolved_height best c :
  any_res (node_best_header n) = Ok best -> 0 <= hdr_number best -> unresolved_branch_cursor rc n rs = Some c -> 0 <= cu_tip_height c.
Proof.
  unfold unresolved_branch_cursor. intros Hb H0 H. destruct (node_best_header n) as [local| |]; [|done..]. injection Hb as ->.
  destruct (node_canonical_blocks n) as [canonical| |]; [|done..]. apply max_by_key_in in H.
  apply list_elem_of_In, filter_In in H as [_ H]. rewrite !andb_true_iff in H. lia.
Qed.
End minimum.

(** The template a recovering node passes on is the best one its upstreams
    offer.  It comes from an endpoint whose chain, genesis and rules were
    checked, at the latest two minutes ago, its height is above the tip
    the node is recovering, or else above the local tip, and no other trusted endpoint
    offers a higher one.  The block that is mined on it, which names the parent
    of the template, is sent to that endpoint as long as the template is not
    older than two minutes. *)
Theorem upstream_template_best mining_upstreams rs params u t u' :
  proxy_mining_template rc mining_upstreams post now n rs params u = (Ok t, u') ->
  exists minimum best s,
    any_res (node_best_header n) = Ok best /\ minimum_upstream_template_height rc n rs = Ok minimum /\
    (0 <= hdr_number best -> minimum = minimum_for rs best) /\
    sl_endpoint s ∈ mining_upstreams /\ offers u minimum params s /\ minimum <= sl_height s /\ t = marked_template s /\
    (forall x, sl_endpoint x ∈ mining_upstreams -> offers u minimum params x -> sl_height x <= sl_height s) /\
    forall post' now' block params',
      hdr_parent_hash (blk_header block) = sl_parent s -> sat_sub now' now <= MINING_UPSTREAM_TEMPLATE_TTL_SECONDS ->
      proxy_mined_block post' now' block params' u' =
        ((let? result := rpc_call_upstream post' (sl_endpoint s) (B "blq_submitBlock") params' in Ok (Some result)), u').
Proof.
  unfold proxy_mining_template. intros H. apply st_bind_ok in H as (minimum & u1 & [Hmin ->]%st_res_ok & H).
  apply st_bind_ok in H as (selected & u2 & Hsel & H). destruct selected as [s|]; [|discriminate H]. injection H as <- <-.
  destruct (select_template_ok _ _ _ _ _ _ _ _ (trust_inv_refl params u) Hsel) as (Hs & _ & Hfrom & Hall).
  destruct Hfrom as [?|(x & [= <-] & Hin & Ho)]; [done|].
  assert (exists best, any_res (node_best_header n) = Ok best /\ (0 <= hdr_number best -> minimum = minimum_for rs best)) as (best & Hb & Hm).
  { pose proof Hmin as Hmin'. unfold minimum_upstream_template_height in Hmin'. apply res_bind_ok in Hmin' as (best & Hb & Hm).
    exists best. split; [done|]. injection Hm as <-. intros H0. unfold minimum_for.
    destruct (unresolved_branch_cursor rc n rs) as [c|] eqn:Ec; [|done]. cbn [fmap option_fmap option_map mbind option_bind].
    pose proof (unresolved_height _ _ _ Hb H0 Ec). assert ((0 <? sat_add U64_MAX (cu_tip_height c) 1) = true) as ->; [|done].
    unfold sat_add, U64_MAX. lia. }
  exists minimum, best, s. do 5 (split; [done|]). pose proof (usable_height _ _ _ _ (of_usable _ _ _ _ Ho)) as (Hh & _).
  split; [done|]. split; [done|]. split.
  - intros y Hy Hoy. destruct (Hall y Hy Hoy y eq_refl) as (z & [= <-] & Hle). done.
  - intros post' now' block params' Hp Hage. unfold proxy_mined_block. rewrite Hp. cbn [up_sources]. rewrite lookup_insert_eq.
    cbn [mu_endpoint mu_updated_at]. by destruct (Z.ltb_spec MINING_UPSTREAM_TEMPLATE_TTL_SECONDS (sat_sub now' now)); [lia|].
Qed.
End choice.

(** ** Example: two upstreams *)

Section witness.
#[local] Existing Instances mem_sled hex_codec toy_digests mem_files u256_z native_profile toy_keys mem_sled_reliable.
#[local] Existing Instances toy_randomx SampleCodecs.JE SampleCodecs.JM SampleCodecs.CM SampleCodecs.JC SampleCodecs.JP.
#[local] Instance upstream_jb : Json Block := table_json sample_chain.
#[local] Instance upstream_jh : Json BlockHeader := table_json (map blk_header sample_chain).
#[local] Instance upstream_jt : Json Transaction := table_json [sample_plain_tx 2].
#[local] Instance upstream_jr : Json StoredReceipt := table_json sample_stored.
#[local] Instance upstream_revm : Revm := toy_revm u256_z.

Definition local_chain : NodeStorage := Full (stored_chain sample_chain).

Definition node_info : Value := Object [
  (B "chainId", Number (dec_string MAINNET_CHAIN_ID));
  (B "genesisHash", Text (hash_to_hex (configured_genesis_hash local_chain)));
  (B "consensusProfile", Text (network_consensus_profile past_config (configured_genesis_hash local_chain)))].

Definition upstream_block : Block :=
  {| blk_header := numbered_sample 5; blk_transactions := []; blk_receipts := [] |}.
Definition upstream_parent (height : Z) : Hash256 := if height =? 5 then hdr_parent_hash (numbered_sample 5) else HASH_ZERO.

(** The second endpoint is ahead of the first. *)
Definition two_upstreams (endpoint method : list byte) (params : Value) : res string Value :=
  let height := if bool_decide (endpoint = B "http://one") then 2 else 5 in
  Ok (Object [(B "result",
    if bool_decide (method = B "blq_nodeInfo") then node_info
    else if bool_decide (method = B "blq_getBlockTemplate")
    then Object [(B "height", Number (dec_string height)); (B "parentHash", Text (hash_to_hex (upstream_parent height)))]
    else Text endpoint)]).

Definition no_jobs : RecoveryState := {| rs_cursors := ∅; rs_peer_keys := ∅; rs_identities := ∅; rs_file := None |}.
Lemma upstream_template_best_witness :
  exists t u, proxy_mining_template past_config [B "http://one"; B "http://two"] two_upstreams 100 local_chain no_jobs (Array []) no_upstreams
      = (Ok t, u) /\
    (proxy_mined_block two_upstreams 150 upstream_block (Array []) u).1 = Ok (Some (Text (B "http://two"))).
Proof.
  pose proof (upstream_template_best past_config two_upstreams 100 local_chain [B "http://one"; B "http://two"] no_jobs (Array []) no_upstreams) as H.
  match type of H with context [?p = _] => assert (is_ok p.1 = true) as Hrun by (vm_compute; reflexivity); destruct p as [[t|e|] u]; [|discriminate Hrun..] end.
  exists t, u. split; [reflexivity|].
  destruct (H t u eq_refl) as (minimum & best & s & _ & Hmin & _ & Hin & Ho & _ & _ & Hbest & Hroute).
  assert (minimum = 2) as ->.
  { assert (minimum_upstream_template_height past_config local_chain no_jobs = Ok 2) as E by (vm_compute; reflexivity). congruence. }
  set (best_offer := {| sl_height := 5; sl_endpoint := B "http://two"; sl_parent := upstream_parent 5;
    sl_template := Object [(B "height", Number (dec_string 5)); (B "parentHash", Text (hash_to_hex (upstream_parent 5)))] |}).
  assert (offers past_config two_upstreams 100 local_chain no_upstreams 2 (Array []) best_offer) as Hx.
  { split; [right| |]; vm_compute; reflexivity. }
  specialize (Hbest best_offer ltac:(right; by left) Hx). cbn [sl_height best_offer] in Hbest.
  destruct Ho as [_ Ha Hu]. apply elem_of_cons in Hin as [E|E%list_elem_of_singleton]; rewrite E in Ha, Hu.
  { exfalso. assert (rpc_call_upstream two_upstreams (B "http://one") (B "blq_getBlockTemplate") (Array []) =
      Ok (Object [(B "height", Number (dec_string 2)); (B "parentHash", Text (hash_to_hex (upstream_parent 2)))])) as Ea by (vm_compute; reflexivity).
    rewrite Ea in Ha. assert (usable_template 2 (B "http://one") (sl_template s) = usable_template 2 (B "http://one")
      (Object [(B "height", Number (dec_string 2)); (B "parentHash", Text (hash_to_hex (upstream_parent 2)))])) as Es by congruence.
    rewrite Es in Hu. assert (sl_height s = 2) as Eh; [|lia]. vm_compute in Hu. injection Hu as Hu. by rewrite <- Hu. }
  assert (s = best_offer) as ->.
  { destruct Hx as [_ Hxa Hxu]. cbn [sl_endpoint best_offer] in Hxa, Hxu. 
    pose proof (f_equal (fun r => match r with Ok v => v | _ => Null end) (eq_trans (eq_sym Hxa) Ha)) as Et. cbv beta iota in Et.
    rewrite <- Et in Hu. pose proof (eq_trans (eq_sym Hxu) Hu) as Es. by injection Es. }
  rewrite (Hroute two_upstreams 150 upstream_block (Array [])); [vm_compute; reflexivity|vm_compute; reflexivity|vm_compute; discriminate].
Defined.
End witness.
