(* ===== verification/Mining.v ===== *)
(** Block production ([crates/blq-node/src/main.rs]): the template a miner asks
    for, with the transactions of the pool executed on the tip, and the
    submission of the block it mines.

    The state is the handler's, with the table of the upstreams and the cached
    template.  An operation holds the lock of the storage while it reads and
    changes it; what other threads do enters a submission only where the
    publication of a fork takes [Others]. *)

From Stdlib Require Import ZArith Lia Strings.String Strings.Byte.
From stdpp Require Import sorting gmap fin_maps base list.
From S2P Require Import Prelude Externals Primitives Canonical Rlp RawTx Pow Consensus State StateRoot.
From S2P Require Import Transition Evm Difficulty BlockExec Mempool Admission Replay Network.
From S2P Require Import Sled AccountStore BlockStore ChainStore Generation Publish CandidateStore NodeStore NodeState Snapshots Branch.
From S2P Require Import Supply Miner Import Reorg Direct Fork Rebuild Cursor Recovery Sync Driver Wire Serve Ancestor Session History Logs Upstream.
#[local] Open Scope Z_scope.

Definition MEMPOOL_TRANSACTION_EXPIRY_SECONDS : Z := 7200.
Definition LOCAL_TEMPLATE_CACHE_TTL_MILLISECONDS : Z := 5000.

(** The answer to a request for a template. *)
Record TemplatePayload := {
  tp_generation_id : option Z;
  tp_pending_transactions_included : nat;
  tp_height : Z;
  tp_parent_hash : Hash256;
  tp_target : Hash256;
  tp_pow_algorithm : list byte;
  tp_pow_epoch : Z;
  tp_epoch_seed : Hash256;
  tp_genesis_hash : Hash256;
  tp_template_timestamp : Z;
  tp_beneficiary_address : Address;
  tp_beneficiary_word : Hash256;
  tp_block : Block;
}.

(** [created_at] is the reading of the monotonic clock, in milliseconds. *)
Record LocalTemplateCache := {
  lt_parent_hash : Hash256;
  lt_beneficiary : Hash256;
  lt_created_at : Z;
  lt_payload : TemplatePayload;
}.

Inductive TemplateAnswer := FromUpstream (template : Value) | FromTip (payload : TemplatePayload).

(** The answers to a submission; [current] is the tip at its end. *)
Inductive Submission :=
  | ToUpstream (answer : Value)
  | Duplicate (canonical : bool) (current : BlockHeader)
  | Queued (canonical pending stale : bool) (current : BlockHeader)
  | Stored.

Record Mining {S : Sled} := {
  mi_handler : Handler;
  mi_upstreams : Upstreams;
  mi_cache : option LocalTemplateCache;
}.

#[global] Instance mining_fields {S : Sled} : Fields Mining := fun m => {|
  mi_handler := mi_handler m; mi_upstreams := mi_upstreams m; mi_cache := mi_cache m |}.

(** The readings of both clocks. *)
Record Readings := { rd_instant : Z; rd_now : option Z }.
Definition unix_now (ck : Readings) : Z := default 0 (rd_now ck).

Definition with_target (t : BlockTemplate) (target : Hash256) : BlockTemplate :=
  let h := tpl_header t in {|
  tpl_header := {|
    hdr_parent_hash := hdr_parent_hash h; hdr_number := hdr_number h; hdr_state_root := hdr_state_root h;
    hdr_transactions_root := hdr_transactions_root h; hdr_receipts_root := hdr_receipts_root h;
    hdr_beneficiary := hdr_beneficiary h; hdr_difficulty_target := target;
    hdr_base_fee_per_gas := hdr_base_fee_per_gas h; hdr_gas_limit := hdr_gas_limit h; hdr_gas_used := hdr_gas_used h;
    hdr_timestamp_seconds := hdr_timestamp_seconds h; hdr_pow_algorithm := hdr_pow_algorithm h;
    hdr_pow_epoch := hdr_pow_epoch h; hdr_extra_nonce := hdr_extra_nonce h; hdr_mix_hash := hdr_mix_hash h;
    hdr_nonce := hdr_nonce h |};
  tpl_transactions := tpl_transactions t; tpl_target := target; tpl_pow_algorithm := tpl_pow_algorithm t;
  tpl_pow_epoch := tpl_pow_epoch t; tpl_epoch_seed := tpl_epoch_seed t |}.

(** What a miner does to the block of a template. *)
Definition seal_block (b : Block) (nonce : Z) (mix : Hash256) : Block := {|
  blk_header := with_mix_hash (with_nonce (blk_header b) nonce) mix;
  blk_transactions := blk_transactions b; blk_receipts := blk_receipts b |}.

Definition paused (e : string) : string :=
  if contains "was not found" e then "node is re-synchronizing canonical chain"%string else e.

Definition paused_error {A} (r : res string A) : res RpcError A := res_map_err (fun e => rpc_error (-32000) (paused e)) r.

Definition param_at (params : option Value) (i : nat) : option Value := (params ≫= as_array) ≫= (fun l => l !! i).

Section mining.
Context {S : Sled} {HX : HexCodec} {D : Digests} {U : U256Ops} {R : Revm} {SE : Secp} {RX : RandomX} {BP : BuildProfile}.
Context {JB : Json Block} {JH : Json BlockHeader} {JT : Json Transaction} {JR : Json StoredReceipt}.
Context {JE : Json (list SerializedEvmSnapshotEntry)}.
Context {IO : FileIo} {JM : Json GenerationManifest} {JC : Json ReplayCheckpoint}.
Context {JP : Json GenerationPublicationRecord} {JS : Json SuffixPublicationRecord} {CM : CompactManifest}.
Context {SI : SnapshotIo} {JX : Json ExecutionSnapshot} {JG : Json GenerationSnapshot} {HO : Host} {PK : PeerKeys} {SA : SocketAddrs} {PS : PeerStream}.

Definition Mine (A : Type) : Type := StM RpcError Mining A.

Definition mi_storage (m : Mining) : NodeStorage := hd_storage (mi_handler m).
Definition mi_modify (f : Mining -> Mining) : Mine unit := fun m => (Ok tt, f m).
Definition mi_read {A} (f : NodeStorage -> res RpcError A) : Mine A := st_read (fun m => f (mi_storage m)).

(** A step on the storage, and one of the handler; [f] gives the error its
    code. *)
Definition on_node {A} (f : string -> RpcError) (step : Node A) : Mine A := fun m =>
  let '(r, n) := step (mi_storage m) in
  (res_map_err f r, m <|mi_handler := (mi_handler m) <|hd_storage := n|>|>).
Definition on_handler (step : Handle unit) : Mine unit := fun m =>
  let '(r, h) := step (mi_handler m) in (res_map_err (rpc_error (-32000)) r, m <|mi_handler := h|>).

(** ** The blocks of a template *)

Fixpoint bounded_loop (fuel : nat) (view : ChainView) (template : Block) (ts : list Transaction) : res string Block :=
  let? block := build_stateful_block view template ts in
  if Z.of_nat (length (block_canonical_bytes block)) <=? MAX_BLOCK_BYTES then Ok block
  else
    match fuel with
    | O => Err "block template cannot fit within the 2 MiB consensus limit"%string
    | Datatypes.S fuel => bounded_loop fuel view template (removelast ts)
    end.

(** Each round drops the last transaction. *)
Definition build_bounded_stateful_block (view : ChainView) (template : Block) (ts : list Transaction) : res string Block :=
  bounded_loop (length ts) view template ts.

Definition build_native_block (view : ChainView) (template : Block) (ts : list Transaction) (parent_timestamp : Z) : res string Block :=
  let? accounts := cv_account_snapshot view in
  let? block := build_stateful_block_from_accounts accounts template ts parent_timestamp in
  if MAX_BLOCK_BYTES <? Z.of_nat (length (block_canonical_bytes block))
  then Err "block template cannot fit within the 2 MiB consensus limit"%string else Ok block.

Definition build_template_block (n : NodeStorage) (template : BlockTemplate) (ts : list Transaction) (parent : BlockHeader)
    : res string Block :=
  if forallb (fun t => negb (is_evm_transaction t)) ts
  then build_native_block (node_view n) (into_unsealed_block template) ts (hdr_timestamp_seconds parent)
  else build_bounded_stateful_block (node_view n) (into_unsealed_block template) ts.

Definition pool_nonce (n : NodeStorage) (a : Address) : Z := default 0 (found (node_nonce n a)).

Definition cleaned_pool (n : NodeStorage) (now : Z) (p : Mempool) : Mempool :=
  remove_stale_nonces (snd (remove_expired p now MEMPOOL_TRANSACTION_EXPIRY_SECONDS)) (pool_nonce n).

(** The member [activeId] of the status, nothing when it cannot be read. *)
Definition template_generation_id (n : NodeStorage) (active_id : res StorageError (option Z)) : option Z :=
  match status_finalized_height n with Ok _ => found active_id ≫= id | _ => None end.

Definition template_payload (n : NodeStorage) (active_id : res StorageError (option Z)) (template : BlockTemplate) (block : Block)
    : TemplatePayload := {|
  tp_generation_id := template_generation_id n active_id;
  tp_pending_transactions_included := length (blk_transactions block);
  tp_height := hdr_number (blk_header block); tp_parent_hash := hdr_parent_hash (blk_header block);
  tp_target := tpl_target template; tp_pow_algorithm := tpl_pow_algorithm template; tp_pow_epoch := tpl_pow_epoch template;
  tp_epoch_seed := tpl_epoch_seed template; tp_genesis_hash := configured_genesis_hash n;
  tp_template_timestamp := hdr_timestamp_seconds (blk_header block);
  tp_beneficiary_address := beneficiary_address (blk_header block);
  tp_beneficiary_word := hdr_beneficiary (blk_header block); tp_block := block |}.

Section config.
Context (config : NodeConfig) (network : NetworkConfig) (mining_upstreams : list (list byte)).
Context (rs : RecoveryState) (tips : gmap (list byte) PeerTip).
Context (post : list byte -> list byte -> Value -> res string Value) (ck : Readings).
Context (sort : (Transaction -> Transaction -> comparison) -> list Transaction -> list Transaction).
Context (active_id : res StorageError (option Z)).

Definition template_timestamp (parent : BlockHeader) : Z :=
  let next := sat_add U64_MAX (hdr_timestamp_seconds parent) 1 in Z.max (default next (rd_now ck)) next.

Definition make_template (parent : BlockHeader) (beneficiary : Hash256) : Mine TemplatePayload :=
  do? genesis_hash := st_read (fun m => Ok (configured_genesis_hash (mi_storage m))) in
  let template := build_empty_template_with_genesis parent beneficiary (template_timestamp parent) genesis_hash in
  do? target := on_node (fun e => rpc_error (-32000) (paused e))
    (expected_difficulty_target parent (tpl_header template) (rp_block_time_v2_activation_height (nc_replay config))) in
  let template := with_target template target in
  mi_modify (fun m => m <|mi_handler := (mi_handler m)
    <|hd_mempool := cleaned_pool (mi_storage m) (unix_now ck) (hd_mempool (mi_handler m))|>|>) ;!
  do? block := st_read (fun m => paused_error (build_template_block (mi_storage m) template
    (drain_for_block sort (hd_mempool (mi_handler m)) (hdr_gas_limit (tpl_header template))) parent)) in
  do? payload := st_read (fun m => Ok (template_payload (mi_storage m) active_id template block)) in
  mi_modify (fun m => m <|mi_cache := Some {|
    lt_parent_hash := header_hash parent; lt_beneficiary := beneficiary; lt_created_at := rd_instant ck; lt_payload := payload |}|>) ;!
  st_ret payload.

Definition cached_template (parent : BlockHeader) (beneficiary : Hash256) (cache : option LocalTemplateCache) : option TemplatePayload :=
  cache ≫= fun cached =>
    if bool_decide (lt_parent_hash cached = header_hash parent) && bool_decide (lt_beneficiary cached = beneficiary)
       && (rd_instant ck - lt_created_at cached <? LOCAL_TEMPLATE_CACHE_TTL_MILLISECONDS)
    then Some (lt_payload cached) else None.

Definition request_params (params : option Value) : Value := default (Array []) params.

Definition requested_beneficiary (params : option Value) : Hash256 :=
  default HASH_ZERO ((param_at params 0 ≫= as_str) ≫= (fun text => found (parse_beneficiary text))).

Definition rpc_block_template (params : option Value) : Mine TemplateAnswer := fun m =>
  if mining_upstream_required (nc_replay config) mining_upstreams (unix_now ck) (mi_storage m) rs tips then
    let '(r, u) := proxy_mining_template (nc_replay config) mining_upstreams post (unix_now ck) (mi_storage m) rs
                     (request_params params) (mi_upstreams m) in
    (res_map_err (fun _ => rpc_error (-32002) "mining upstream unavailable; retrying") (let? t := r in Ok (FromUpstream t)),
     m <|mi_upstreams := u|>)
  else
    (let beneficiary := requested_beneficiary params in
     do? parent := mi_read (fun n => paused_error (any_res (node_best_header n))) in
     do? cached := st_read (fun m => Ok (cached_template parent beneficiary (mi_cache m))) in
     match cached with
     | Some payload => st_ret (FromTip payload)
     | None =>
         do? safe := mi_read (fun n => Ok (trusted_peer_quorum (nw_trusted_peer_keys network) (nc_replay config) (unix_now ck) parent
                                             (configured_genesis_hash n) tips).1.1) in
         if negb safe then st_res (Err (rpc_error (-32001) "mining is unsafe: competing peer tip detected"))
         else do? payload := make_template parent beneficiary in st_ret (FromTip payload)
     end) m.

(** ** Submissions *)

(** The changes of a block that extends the tip. *)
Definition store_mined (block : Block) : Mine Submission :=
  on_node (rpc_error (-32000)) (ensure_storage_cap config) ;!
  on_node (rpc_error (-32000)) (any (node_insert_block append_block block)) ;!
  mi_modify (fun m => m <|mi_cache := None|>) ;!
  mi_modify (fun m => m <|mi_handler := (mi_handler m)
    <|hd_mempool := remove_included (hd_mempool (mi_handler m)) (map tx_hash (blk_transactions block))|>|>) ;!
  on_handler (enqueue_block_gossip network block None) ;!
  st_ret Stored.

Section publication.
Context (others : Others) (dir : option SnapshotDir) (isolated : res string Generation) (cleanup : res string unit).

(** A block that does not extend the tip. *)
Definition submit_competing (block : Block) : Mine Submission :=
  do? replacement := on_node (rpc_error (-32000))
    (queue_competing_block_pending (rp_require_signed_transactions (nc_replay config)) block) in
  on_node (rpc_error (-32000)) (drain_orphan_blocks isolated cleanup config) ;!
  match replacement with
  | Some branch => on_node (rpc_error (-32000)) (stage_and_publish_candidate others dir config branch)
  | None => st_ret tt
  end ;!
  on_handler (enqueue_block_gossip network block None) ;!
  do? current := mi_read (fun n => paused_error (any_res (node_best_header n))) in
  let canonical := bool_decide (header_hash current = header_hash (blk_header block)) in
  let stale := negb canonical && (hdr_number (blk_header block) <=? hdr_number current) in
  st_ret (Queued canonical (bool_decide (is_Some replacement) && negb stale) stale current).

Definition submit_local (block : Block) : Mine Submission :=
  do? parent := mi_read (fun n => paused_error (any_res (node_best_header n))) in
  do? known := mi_read (fun n => attempt (node_header_by_hash n (header_hash (blk_header block)))) in
  match known with
  | Some _ => st_ret (Duplicate (bool_decide (header_hash (blk_header block) = header_hash parent)) parent)
  | None =>
      if negb (extends parent (blk_header block)) then submit_competing block
      else on_node (rpc_error (-32000)) (validate_block_live (nc_replay config) parent block) ;! store_mined block
  end.

(** [parameter]: the first parameter of the request read as a block. *)
Definition rpc_submit_block (parameter : option (res string Block)) (params : option Value) : Mine Submission :=
  if negb (nc_full config) then st_res (Err (rpc_error (-32000) "only full nodes accept blocks"))
  else
    do? value := st_res (ok_or parameter (rpc_error (-32602) "missing block parameter")) in
    do? block := st_res (res_map_err (rpc_error (-32602)) value) in
    st_res (server_error (validate_live_timestamp_admission (rd_now ck) (blk_header block))) ;!
    st_res (server_error (validate_block_transaction_auth (rp_require_signed_transactions (nc_replay config)) block)) ;!
    do? proxied := (fun m =>
      let '(r, u) := proxy_mined_block post (unix_now ck) block (request_params params) (mi_upstreams m) in
      (res_map_err (fun _ => rpc_error (-32002) "mining upstream submission failed; retrying") r, m <|mi_upstreams := u|>)) in
    match proxied with
    | Some (Object answer) => st_ret (ToUpstream (Object (set_member (B "templateSource") (Text (B "upstream")) answer)))
    | Some answer => st_ret (ToUpstream answer)
    | None => submit_local block
    end.
End publication.
End config.

(** [reconcile_mempool_with_canonical_state]: the number of transactions
    removed. *)
Definition reconcile_mempool_with_canonical_state : Handle Z := fun h =>
  let senders := map tx_from (transactions (hd_mempool h)) in
  let confirmed_nonces : gmap Address Z := list_to_map (map (fun sender => (sender, pool_nonce (hd_storage h) sender)) senders) in
  let pool := remove_stale_nonces (hd_mempool h) (fun sender => default 0 (confirmed_nonces !! sender)) in
  (Ok (sat_sub (Z.of_nat (length (transactions (hd_mempool h)))) (Z.of_nat (length (transactions pool)))),
   h <|hd_mempool := pool|>).
End mining.

(** ** The difficulty of a child on a stored chain *)

(** Every block names the one below it. *)
Definition linked_chain {D : Digests} (c : list Block) : Prop :=
  forall i below b, c !! i = Some below -> c !! Datatypes.S i = Some b ->
    hdr_parent_hash (blk_header b) = header_hash (blk_header below).

Section difficulty.
Context {S : Sled} {HX : HexCodec} {D : Digests} {U : U256Ops} {R : Revm} {BP : BuildProfile}.
Context {JB : Json Block} {JH : Json BlockHeader} {JT : Json Transaction} {JR : Json StoredReceipt}.
Context {JE : Json (list SerializedEvmSnapshotEntry)}.
Context {IO : FileIo} {JM : Json GenerationManifest} {JC : Json ReplayCheckpoint}.
Context {JP : Json GenerationPublicationRecord} {JS : Json SuffixPublicationRecord} {CM : CompactManifest}.
Context {HR : SledReadable}.

Lemma canonical_header_found s c b :
  chain_rep (contents s) c -> b ∈ c ->
  exists b', b' ∈ c /\ header_by_hash s (header_hash (blk_header b)) = Ok (blk_header b').
Proof.
  intros Hc Hb. destruct (numbered_rows _ _ _ hdr_number (cr_headers _ _ Hc)) as (xs & Hxs & Hperm).
  { unfold list_fits. rewrite length_map. apply Hc. } { apply headers_numbered, Hc. }
  unfold header_by_hash, find_row. rewrite reliable_scan. fold (contents s).
  rewrite (find_header_rows _ _ _ Hxs). cbn [res_bind]. destruct (List.find _ xs) as [h|] eqn:E.
  - apply find_some in E as [Hin _]. apply list_elem_of_In in Hin. rewrite Hperm in Hin.
    apply list_elem_of_fmap in Hin as (b' & -> & Hin). by exists b'.
  - exfalso. assert (blk_header b ∈ xs) as Hin by (rewrite Hperm; by apply list_elem_of_fmap_2).
    apply list_elem_of_In in Hin. apply (find_none _ _ E) in Hin. by rewrite bool_decide_eq_true_2 in Hin.
Qed.

Lemma ancestor_lookup g c b :
  chain_rep (contents (gn_db g)) c -> linked_chain c -> b ∈ c -> hdr_number (blk_header b) <> 0 ->
  exists b', b' ∈ c /\ node_difficulty_header_by_hash (hdr_parent_hash (blk_header b)) (Full g) = (Ok (blk_header b'), Full g).
Proof.
  intros Hc Hl [i Hi]%list_elem_of_lookup Hne. pose proof (block_numbers_lookup _ _ _ (cr_numbers _ _ Hc) Hi) as Hn.
  unfold block_number in Hn. destruct i as [|i]; [by rewrite Hn in Hne|].
  destruct (c !! i) as [below|] eqn:Ei; [|apply lookup_ge_None in Ei; apply lookup_lt_Some in Hi; lia].
  rewrite (Hl _ _ _ Ei Hi). destruct (canonical_header_found (gn_db g) c below Hc) as (b' & Hin & Hh); [by eapply list_elem_of_lookup_2|].
  exists b'. split; [done|]. unfold node_difficulty_header_by_hash, node_header_by_hash, of_full. by rewrite Hh.
Qed.

Lemma history_stays g c m : forall b acc,
  chain_rep (contents (gn_db g)) c -> linked_chain c -> b ∈ c ->
  exists l, st_history_loop m (blk_header b) acc (Full g) = (Ok l, Full g).
Proof.
  induction m as [|m IH]; intros b acc Hc Hl Hb; [by exists acc|]. cbn [st_history_loop].
  destruct (Z.eqb_spec (hdr_number (blk_header b)) 0); [by exists acc|].
  destruct (ancestor_lookup g c b) as (b' & Hb' & E); [done..|]. unfold st_bind. rewrite E. by apply IH.
Qed.

(** On a stored chain the rule reads nothing but the chain, and nothing of the
    child but its height and its time. *)
Lemma expected_stays g c b child act :
  chain_rep (contents (gn_db g)) c -> linked_chain c -> b ∈ c ->
  (expected_difficulty_target (blk_header b) child act (Full g)).2 = Full g.
Proof.
  intros Hc Hl Hb. unfold expected_difficulty_target. destruct (_ =? 0); [done|]. destruct (v2_active child act); [|done].
  unfold st_bind. destruct (history_stays g c BLOCK_TIME_V2_MEDIAN_WINDOW b [blk_header b] Hc Hl Hb) as [l ->].
  unfold st_res. by destruct (intervals_of_headers (rev l)) as [[? ?]| |].
Qed.

Lemma expected_same parent child child' act :
  hdr_number child' = hdr_number child -> hdr_timestamp_seconds child' = hdr_timestamp_seconds child ->
  expected_difficulty_target parent child' act = expected_difficulty_target parent child act.
Proof. intros H1 H2. unfold expected_difficulty_target, v2_active, interval. by rewrite H1, H2. Qed.
End difficulty.

(** ** What a built block keeps to *)

Lemma fold_put_length {A} (f : A -> list byte) l : forall a b,
  length a = length b -> length (fold_left (fun out x => put_bytes out (f x)) l a) = length (fold_left (fun out x => put_bytes out (f x)) l b).
Proof.
  induction l as [|x l IH]; intros a b H; [done|]. cbn [fold_left]. apply IH. unfold put_bytes, put_u64. rewrite !length_app. lia.
Qed.

Lemma seal_size b nonce mix :
  wf_hash mix -> wf_hash (hdr_mix_hash (blk_header b)) ->
  length (block_canonical_bytes (seal_block b nonce mix)) = length (block_canonical_bytes b).
Proof.
  intros H1 H2. unfold block_canonical_bytes, seal_block. cbn [blk_header blk_transactions blk_receipts].
  apply fold_put_length. unfold put_u64. rewrite !length_app. f_equal. apply fold_put_length. rewrite !length_app. f_equal.
  unfold header_canonical_bytes, put_u64, put_u128, put_hash, put_bytes. cbn. unfold wf_hash in *.
  rewrite !length_app, !length_be_bytes. lia.
Qed.

Section built.
Context {D : Digests} {U : U256Ops} {R : Revm}.

Lemma run_transactions_fees split base ts : forall m fees rs m' fees' rs',
  run_transactions split base ts (m, fees, rs) = Ok (m', fees', rs') ->
  length rs' = (length rs + length ts)%nat /\ Forall (fun t => validate_transaction_fee t base = Ok tt) ts.
Proof.
  induction ts as [|t ts IH]; intros m fees rs m' fees' rs' H.
  - injection H as <- <- <-. split; [cbn; lia|constructor].
  - apply run_transactions_cons in H as (m1 & fees1 & rs1 & to & Hr & H). apply IH in H as [Hl Hf].
    pose proof (ro_receipts _ _ _ _ _ _ _ _ _ _ Hr) as E. split; [rewrite Hl, E, length_app; cbn; lia|].
    constructor; [by destruct Hr|done].
Qed.

(** What every block that execution filled in satisfies. *)
Record built (view : ChainView) (template : Block) (ts : list Transaction) (b : Block) : Prop := {
  bu_build : build_stateful_block view template ts = Ok b;
  bu_transactions : blk_transactions b = ts;
  bu_receipts : length (blk_receipts b) = length ts;
  bu_gas : hdr_gas_used (blk_header b) <= hdr_gas_limit (blk_header template);
  bu_fees : Forall (fun t => validate_transaction_fee t (hdr_base_fee_per_gas (blk_header template)) = Ok tt) ts;
  bu_results : exists rs g sr, b = set_block_results (set_block_transactions template ts) rs g (transactions_root ts) (receipts_root rs) sr;
}.

Lemma build_built view template ts b : build_stateful_block view template ts = Ok b -> built view template ts b.
Proof.
  intros H. pose proof H as E. unfold build_stateful_block in E. cbn [blk_transactions set_block_transactions] in E.
  destruct (existsb is_evm_transaction ts).
  - apply res_bind_ok in E as (sim & Hsim & E). apply res_bind_ok in E as (root & _ & [= Eb]).
    unfold simulate_evm_state_transition in Hsim. apply res_bind_ok in Hsim as (pt & _ & Hsim).
    apply res_bind_ok in Hsim as (state & _ & Hsim). unfold simulate_evm_state_transition_from_state in Hsim.
    destruct (execute_evm_state_transition_in_place state _ pt) as [st [[rs g]| |]] eqn:Ex; try discriminate Hsim.
    injection Hsim as Es. apply execute_in_place_inv in Ex as (run & Hrun & -> & Hg & _). rewrite <- Es in Eb. cbn in Eb.
    pose proof (rs_each _ _ _ _ _ Hrun) as Heach. cbn [blk_transactions set_block_transactions] in Heach.
    split; [exact H|by rewrite <- Eb|rewrite <- Eb; cbn; symmetry; by eapply Forall2_length|by rewrite <- Eb| |].
    + eapply Forall2_Forall_l; [exact Heach|]. apply List.Forall_forall. intros r _ t Ht. by destruct Ht.
    + rewrite <- Eb. by do 3 eexists.
  - apply res_bind_ok in E as ([[m rs] g] & Hsim & [= Eb]). unfold simulate_state_transition in Hsim.
    apply res_bind_ok in Hsim as (pt & _ & Hsim). apply res_bind_ok in Hsim as (accounts & _ & Hsim).
    apply simulate_inv in Hsim as (Hgas & Hg & m1 & fees & Hrun & _). apply run_transactions_fees in Hrun as [Hl Hf].
    split; [exact H|by rewrite <- Eb|by rewrite <- Eb|by rewrite <- Eb|exact Hf|]. rewrite <- Eb. by do 3 eexists.
Qed.
End built.

(** ** A mined template *)

Section mined.
Context {S : Sled} {HX : HexCodec} {D : Digests} {U : U256Ops} {R : Revm} {SE : Secp} {RX : RandomX} {BP : BuildProfile}.
Context {JB : Json Block} {JH : Json BlockHeader} {JT : Json Transaction} {JR : Json StoredReceipt}.
Context {JE : Json (list SerializedEvmSnapshotEntry)}.
Context {IO : FileIo} {JM : Json GenerationManifest} {JC : Json ReplayCheckpoint}.
Context {JP : Json GenerationPublicationRecord} {JS : Json SuffixPublicationRecord} {CM : CompactManifest}.
Context {SI : SnapshotIo} {JX : Json ExecutionSnapshot} {JG : Json GenerationSnapshot} {HO : Host} {PK : PeerKeys} {SA : SocketAddrs} {PS : PeerStream}.
Context {HR : SledReadable}.
Context (config : NodeConfig) (network : NetworkConfig) (mining_upstreams : list (list byte)).
Context (rs : RecoveryState) (tips : gmap (list byte) PeerTip).
Context (post : list byte -> list byte -> Value -> res string Value) (ck : Readings).
Context (sort : (Transaction -> Transaction -> comparison) -> list Transaction -> list Transaction).
Context (active_id : res StorageError (option Z)).

(** What the EVM makes of a block on the stored state. *)
Definition evm_outcome (view : ChainView) (b : Block) : res string (list Receipt * Z * Hash256) :=
  let? simulation := simulate_evm_state_transition view b in
  let? root := evm_state_root_from_revm_state (sim_state simulation) in
  Ok (sim_receipts simulation, sim_gas_used simulation, root).

(** The results the header and the body of a block record. *)
Definition recorded (b : Block) : list Receipt * Z * Hash256 :=
  (blk_receipts b, hdr_gas_used (blk_header b), hdr_state_root (blk_header b)).

Lemma bounded_loop_ok view template fuel : forall ts b,
  bounded_loop fuel view template ts = Ok b ->
  (exists b0, build_stateful_block view template ts = Ok b0) /\
  exists kept dropped, ts = kept ++ dropped /\ build_stateful_block view template kept = Ok b /\
    Z.of_nat (length (block_canonical_bytes b)) <= MAX_BLOCK_BYTES.
Proof.
  induction fuel as [|fuel IH]; intros ts b H; cbn [bounded_loop] in H; apply res_bind_ok in H as (b0 & Hb & H);
    (split; [by exists b0|]); destruct (Z.leb_spec (Z.of_nat (length (block_canonical_bytes b0))) MAX_BLOCK_BYTES); try discriminate H.
  1,2: injection H as <-; exists ts, []; by rewrite app_nil_r.
  destruct (IH _ _ H) as (_ & kept & dropped & E & Hk). destruct ts as [|t ts] using rev_ind.
  - exists [], []. cbn in E. symmetry in E. by apply app_eq_nil in E as [-> ->].
  - rewrite removelast_last in E. exists kept, (dropped ++ [t]). by rewrite E, <- app_assoc.
Qed.

Lemma existsb_forallb (ts : list Transaction) :
  forallb (fun t => negb (is_evm_transaction t)) ts = negb (existsb is_evm_transaction ts).
Proof. induction ts as [|t ts IH]; [done|]. cbn. by rewrite IH, negb_orb. Qed.

(** A template block is built by the general builder on a prefix of what was
    drained, all of it when the transactions are plain, and within the size
    limit; the whole of it executes. *)
Lemma template_block_built n template ts parent b :
  parent_timestamp_of (node_view n) (into_unsealed_block template) = Ok (hdr_timestamp_seconds parent) ->
  build_template_block n template ts parent = Ok b ->
  (exists b0, build_stateful_block (node_view n) (into_unsealed_block template) ts = Ok b0) /\
  exists kept dropped, ts = kept ++ dropped /\ built (node_view n) (into_unsealed_block template) kept b /\
    Z.of_nat (length (block_canonical_bytes b)) <= MAX_BLOCK_BYTES.
Proof.
  intros Hpt H. unfold build_template_block in H. rewrite existsb_forallb in H. destruct (existsb is_evm_transaction ts) eqn:Ev; cbn [negb] in H.
  - apply bounded_loop_ok in H as (Hall & kept & dropped & E & Hk & Hs). split; [done|]. exists kept, dropped.
    split; [done|]. split; [by apply build_built|done].
  - unfold build_native_block in H. apply res_bind_ok in H as (accounts & Ha & H). apply res_bind_ok in H as (b0 & Hb & H).
    destruct (Z.ltb_spec MAX_BLOCK_BYTES (Z.of_nat (length (block_canonical_bytes b0)))); [discriminate H|]. injection H as <-.
    assert (build_stateful_block (node_view n) (into_unsealed_block template) ts = Ok b0) as Hbuild.
    { unfold build_stateful_block. cbn [blk_transactions set_block_transactions]. rewrite Ev.
      unfold simulate_state_transition. change (parent_timestamp_of (node_view n) (set_block_transactions (into_unsealed_block template) ts))
        with (parent_timestamp_of (node_view n) (into_unsealed_block template)). rewrite Hpt. cbn [res_bind]. rewrite Ha. cbn [res_bind].
      exact Hb. }
    split; [by exists b0|]. exists ts, []. rewrite app_nil_r. split; [done|]. split; [by apply build_built|done].
Qed.

(** The template a payload is made from. *)
Definition payload_template (g : Generation) (parent : BlockHeader) (beneficiary target : Hash256) : BlockTemplate :=
  with_target (build_empty_template_with_genesis parent beneficiary (template_timestamp ck parent) (configured_genesis_hash (Full g))) target.

(** The transactions drained for it. *)
Definition drained (g : Generation) (parent : BlockHeader) (pool : Mempool) : list Transaction :=
  drain_for_block sort (cleaned_pool (Full g) (unix_now ck) pool) (hdr_gas_limit parent).

Record made (g : Generation) (parent : BlockHeader) (beneficiary : Hash256) (m m' : Mining) (payload : TemplatePayload) : Prop := {
  md_target : expected_difficulty_target parent
      (tpl_header (payload_template g parent beneficiary (tp_target payload)))
      (rp_block_time_v2_activation_height (nc_replay config)) (Full g) = (Ok (tp_target payload), Full g);
  md_block : build_template_block (Full g) (payload_template g parent beneficiary (tp_target payload))
      (drained g parent (hd_mempool (mi_handler m))) parent = Ok (tp_block payload);
  md_genesis : tp_genesis_hash payload = configured_genesis_hash (Full g);
  md_storage : mi_storage m' = Full g;
  md_pool : hd_mempool (mi_handler m') = cleaned_pool (Full g) (unix_now ck) (hd_mempool (mi_handler m));
  md_upstreams : mi_upstreams m' = mi_upstreams m;
}.

Lemma make_template_made g c b beneficiary m payload m' :
  chain_rep (contents (gn_db g)) c -> linked_chain c -> b ∈ c -> mi_storage m = Full g ->
  make_template config ck sort active_id (blk_header b) beneficiary m = (Ok payload, m') ->
  made g (blk_header b) beneficiary m m' payload.
Proof.
  intros Hc Hl Hb Hm H. unfold make_template in H. apply st_bind_ok in H as (genesis & m1 & [[= <-] ->]%st_read_ok & H).
  rewrite Hm in H. apply st_bind_ok in H as (target & m1 & H1 & H). unfold on_node in H1. rewrite Hm in H1.
  destruct (expected_difficulty_target _ _ _ (Full g)) as [r n1] eqn:Et.
  assert (n1 = Full g) as ->.
  { pose proof (expected_stays g c b (tpl_header (build_empty_template_with_genesis (blk_header b) beneficiary
      (template_timestamp ck (blk_header b)) (configured_genesis_hash (Full g)))) (rp_block_time_v2_activation_height (nc_replay config)) Hc Hl Hb) as E.
    by rewrite Et in E. }
  injection H1 as Hr <-. destruct r as [x|e|]; try discriminate Hr. injection Hr as ->.
  apply st_bind_ok in H as ([] & m2 & [= <-] & H). apply st_bind_ok in H as (block & m2 & [Hb0 ->]%st_read_ok & H).
  apply st_bind_ok in H as (payload0 & m2 & [[= <-] ->]%st_read_ok & H). apply st_bind_ok in H as ([] & m2 & [= <-] & H).
  injection H as <- <-. unfold paused_error in Hb0. apply map_err_ok in Hb0.
  split; cbn [tp_target template_payload tp_block]; [|exact Hb0|done..].
  refine (eq_trans _ Et). by erewrite expected_same.
Qed.

Section chain.
Context (g : Generation) (c : list Block) (b : Block).
Context (Hc : chain_rep (contents (gn_db g)) c) (Hl : linked_chain c) (Hlast : last c = Some b).
Context (Hfit : Z.of_nat (length c) + 1 <= U64_MAX) (Htime : hdr_timestamp_seconds (blk_header b) < U64_MAX).

Abbreviation parent := (blk_header b).

Lemma tip_number : hdr_number parent = Z.of_nat (length c) - 1 /\ 0 < Z.of_nat (length c).
Proof.
  pose proof Hlast as E. apply last_Some in E as [l E].
  assert (c !! length l = Some b) as Hi by (rewrite E; apply lookup_snoc_Some; by right).
  pose proof (block_numbers_lookup _ _ _ (cr_numbers _ _ Hc) Hi) as Hn. unfold block_number in Hn.
  rewrite E, length_app. cbn [length]. lia.
Qed.

Lemma tip_in : b ∈ c.
Proof. apply last_Some in Hlast as [l ->]. apply elem_of_app. right. by left. Qed.

Lemma best_tip_header : node_best_header (Full g) = Ok parent.
Proof. unfold node_best_header, of_full. by rewrite (best_header_rep _ _ Hc), Hlast. Qed.

Lemma template_parent template :
  hdr_number (tpl_header template) = wrap64 (hdr_number parent + 1) ->
  parent_timestamp_of (node_view (Full g)) (into_unsealed_block template) = Ok (hdr_timestamp_seconds parent).
Proof.
  intros En. destruct tip_number as [Hn Hpos]. unfold parent_timestamp_of. cbn [blk_header into_unsealed_block]. rewrite En, wrap64_small by (ints; lia).
  destruct (Z.eqb_spec (hdr_number parent + 1) 0); [lia|]. cbn [cv_header_by_number node_view].
  unfold node_header_by_number, of_full. replace (hdr_number parent + 1 - 1) with (hdr_number parent) by lia.
  destruct (header_by_number_rep (gn_db g) c (hdr_number parent) Hc) as [-> _]; [rewrite Hn; unfold in_u64; lia|].
  rewrite Hn. replace (Z.to_nat (Z.of_nat (length c) - 1)) with (pred (length c)) by lia. by rewrite <- last_lookup, Hlast.
Qed.

(** A local answer that is not the cached one was made on the tip. *)
Lemma local_template params m payload m' :
  mi_storage m = Full g -> mi_cache m = None ->
  rpc_block_template config network mining_upstreams rs tips post ck sort active_id params m = (Ok (FromTip payload), m') ->
  made g parent (requested_beneficiary params) m m' payload.
Proof.
  intros Hm Hnone H. unfold rpc_block_template in H. destruct (mining_upstream_required _ _ _ _ _ _).
  { destruct (proxy_mining_template _ _ _ _ _ _ _ _) as [[t|e|] u]; discriminate H. }
  apply st_bind_ok in H as (p & m1 & [Hp ->]%st_read_ok & H). rewrite Hm, best_tip_header in Hp. injection Hp as <-.
  apply st_bind_ok in H as (cached & m1 & [[= <-] ->]%st_read_ok & H). rewrite Hnone in H. cbn [cached_template mbind option_bind] in H.
  apply st_bind_ok in H as (safe & m1 & [_ ->]%st_read_ok & H). destruct safe; cbn [negb] in H; [|discriminate H].
  apply st_bind_ok in H as (payload0 & m1 & H & [= <- <-]). eapply make_template_made; [exact Hc|exact Hl|apply tip_in|exact Hm|exact H].
Qed.

Section sealed.
Context (beneficiary : Hash256) (m m' : Mining) (payload : TemplatePayload) (nonce : Z) (r : PowResult).
Context (Hmade : made g parent beneficiary m m' payload).

Abbreviation mined := (seal_block (tp_block payload) nonce (mix_hash r)).

Context (Hhash : blq_rx_hash (blk_header mined) (configured_genesis_hash (Full g)) = Ok r).
Context (Hwork : satisfies_pow (final_hash r) (tp_target payload) = true).

Lemma template_built :
  (exists b0, build_stateful_block (node_view (Full g)) (into_unsealed_block (payload_template g parent beneficiary (tp_target payload)))
     (drained g parent (hd_mempool (mi_handler m))) = Ok b0) /\
  exists kept dropped, drained g parent (hd_mempool (mi_handler m)) = kept ++ dropped /\
    built (node_view (Full g)) (into_unsealed_block (payload_template g parent beneficiary (tp_target payload))) kept (tp_block payload) /\
    Z.of_nat (length (block_canonical_bytes (tp_block payload))) <= MAX_BLOCK_BYTES.
Proof. eapply template_block_built; [by apply template_parent|exact (md_block _ _ _ _ _ _ Hmade)]. Qed.

Lemma timestamp_later : hdr_timestamp_seconds parent < template_timestamp ck parent.
Proof. unfold template_timestamp, sat_add. lia. Qed.

Lemma mined_valid act : valid_block parent mined (configured_genesis_hash (Full g)) act.
Proof.
  destruct template_built as (_ & kept & dropped & _ & Hb & Hsize).
  destruct (blq_rx_hash_ok (blk_header mined) (configured_genesis_hash (Full g))) as (r' & Hr' & Hmix & _).
  rewrite Hhash in Hr'. injection Hr' as <-. pose proof (seal_size (tp_block payload) nonce (mix_hash r) Hmix) as Hlen.
  pose proof timestamp_later as Hlater.
  destruct Hb as [_ Ht Hrec Hgas Hfees (rs0 & g0 & sr & E)]. clear Hmade. rewrite E in *.
  split; cbn [blk_transactions blk_receipts seal_block]; try done.
  - split; try done. exists r. by split.
  - intros _ _ _. rewrite Hlen; [exact Hsize|reflexivity].
Qed.

(** The results the template records are what the EVM makes of the unsealed
    block. *)
Lemma template_recorded :
  existsb is_evm_transaction (blk_transactions (tp_block payload)) = true ->
  evm_outcome (node_view (Full g)) (tp_block payload) = Ok (recorded (tp_block payload)).
Proof.
  destruct template_built as (_ & kept & dropped & _ & Hb & _). intros Hev.
  destruct Hb as [H Ht _ _ _ _]. rewrite Ht in Hev. unfold build_stateful_block in H.
  cbn [blk_transactions set_block_transactions] in H. rewrite Hev in H.
  apply res_bind_ok in H as (sim & Hsim & H). apply res_bind_ok in H as (root & Hroot & [= E]).
  unfold evm_outcome. rewrite <- E at 1. rewrite simulate_evm_set_results, Hsim. cbn [res_bind]. rewrite Hroot. cbn [res_bind].
  by rewrite <- E.
Qed.

(** Replaying the mined block: plain blocks pass, and EVM blocks pass exactly
    when the mix hash changes nothing of what was executed without it. *)
Lemma mined_replay :
  (existsb is_evm_transaction (blk_transactions (tp_block payload)) = false ->
   validate_state_root (node_view (Full g)) mined = Ok tt) /\
  (existsb is_evm_transaction (blk_transactions (tp_block payload)) = true ->
   validate_state_root (node_view (Full g)) mined = Ok tt <->
   evm_outcome (node_view (Full g)) mined = evm_outcome (node_view (Full g)) (tp_block payload)).
Proof.
  destruct template_built as (_ & kept & dropped & _ & Hb & _). destruct Hb as [H Ht _ _ _ (rs0 & g0 & sr & E)]. split; intros Hev.
  - rewrite Ht in Hev. unfold build_stateful_block in H. cbn [blk_transactions set_block_transactions] in H. rewrite Hev in H.
    apply res_bind_ok in H as ([[accounts rs1] g1] & Hsim & [= Eb]). apply validate_state_root_ok.
    cbn [blk_transactions seal_block]. rewrite Ht, Hev. exists accounts, rs1, g1. rewrite <- Eb. split; [exact Hsim|]. by split.
  - rewrite (template_recorded Hev), validate_state_root_ok. cbn [blk_transactions seal_block]. rewrite Hev.
    unfold evm_outcome, recorded. split.
    + intros (sim & root & Hsim & Hroot & [H1 H2 _ _ H5]). rewrite Hsim. cbn [res_bind]. rewrite Hroot. cbn [res_bind].
      cbn [blk_receipts blk_header seal_block] in H1, H2, H5. by rewrite <- H1, <- H2, <- H5.
    + intros (sim & Hsim & Ho)%res_bind_ok. apply res_bind_ok in Ho as (root & Hroot & [= H1 H2 H3]). exists sim, root.
      split; [done|]. split; [done|]. split; cbn [blk_receipts blk_transactions blk_header seal_block]; try done; by rewrite E.
Qed.
End sealed.
End chain.
End mined.

(** ** What is drained for a template *)

Lemma drain_loop_elem gas_limit l : forall gas t, t ∈ drain_loop gas_limit gas l -> t ∈ l.
Proof.
  induction l as [|x l IH]; intros gas t Ht; [done|]. cbn [drain_loop] in Ht. destruct (_ <? _); [right; by eapply IH|].
  apply elem_of_cons in Ht as [->|Ht]; [by left|right; by eapply IH].
Qed.

Section accepted.
Context {S : Sled} {HX : HexCodec} {D : Digests} {U : U256Ops} {R : Revm} {SE : Secp} {RX : RandomX} {BP : BuildProfile}.
Context {JB : Json Block} {JH : Json BlockHeader} {JT : Json Transaction} {JR : Json StoredReceipt}.
Context {JE : Json (list SerializedEvmSnapshotEntry)}.
Context {IO : FileIo} {JM : Json GenerationManifest} {JC : Json ReplayCheckpoint}.
Context {JP : Json GenerationPublicationRecord} {JS : Json SuffixPublicationRecord} {CM : CompactManifest}.
Context {SI : SnapshotIo} {JX : Json ExecutionSnapshot} {JG : Json GenerationSnapshot} {HO : Host} {PK : PeerKeys} {SA : SocketAddrs} {PS : PeerStream}.
Context {HR : SledReliable}.
Context (config : NodeConfig) (network : NetworkConfig) (mining_upstreams : list (list byte)).
Context (rs : RecoveryState) (tips : gmap (list byte) PeerTip).
Context (post : list byte -> list byte -> Value -> res string Value) (ck : Readings).
Context (sort : (Transaction -> Transaction -> comparison) -> list Transaction -> list Transaction).
Context (active_id : res StorageError (option Z)) (sort_perm : forall cmp l, sort cmp l ≡ₚ l).

Lemma drained_pool g parent p t : t ∈ drained ck sort g parent p -> t ∈ transactions p.
Proof.
  unfold drained, drain_for_block. intros Ht%drain_loop_elem. rewrite sort_perm in Ht.
  unfold cleaned_pool, remove_stale_nonces, remove_expired in Ht. cbn [transactions snd] in Ht.
  by apply elem_of_filter_b in Ht as [[Ht _]%elem_of_filter_b _].
Qed.

(** The check of the signatures, for a single transaction. *)
Definition signed_as_required (t : Transaction) : Prop :=
  validate_transactions_auth (rp_require_signed_transactions (nc_replay config)) [t] = Ok tt.

Lemma auth_each ts : Forall signed_as_required ts -> validate_transactions_auth (rp_require_signed_transactions (nc_replay config)) ts = Ok tt.
Proof.
  induction 1 as [|t ts Ht _ IH]; [done|]. unfold signed_as_required in Ht. cbn [validate_transactions_auth] in *.
  apply res_bind_ok in Ht as ([] & Ht & _). rewrite Ht. exact IH.
Qed.

Lemma on_node_same {A} (f : string -> RpcError) (step : Node A) (m : Mining) (r : res string A) : step (mi_storage m) = (r, mi_storage m) -> on_node f step m = (res_map_err f r, m).
Proof. intros H. unfold on_node. rewrite H. by destruct m as [[] ? ?]. Qed.

Lemma auth_live (block : Block) (now now' : Z) parent :
  rd_now ck = Some now -> now <= now' -> in_u64 now' ->
  hdr_timestamp_seconds parent + 1 <= now' + MAX_LIVE_TIMESTAMP_FUTURE_DRIFT_SECONDS -> hdr_timestamp_seconds parent < U64_MAX ->
  hdr_timestamp_seconds (blk_header block) = template_timestamp ck parent ->
  validate_live_timestamp_admission (Some now') (blk_header block) = Ok tt.
Proof.
  intros Hn Hle Hu Hp Hm E. unfold validate_live_timestamp_admission. cbn [from_option]. unfold id. rewrite E. unfold template_timestamp. rewrite Hn.
  cbn [from_option]. unfold in_u64, sat_add, id in *. pose proof (eq_refl : MAX_LIVE_TIMESTAMP_FUTURE_DRIFT_SECONDS = 30).
  match goal with |- context [?x <? ?y] => destruct (Z.ltb_spec x y) end; [lia|done].
Qed.

Lemma live_check g parent block child target :
  (forall act, valid_block parent block (configured_genesis_hash (Full g)) act) ->
  hdr_number (blk_header block) = hdr_number child /\ hdr_timestamp_seconds (blk_header block) = hdr_timestamp_seconds child /\
    hdr_difficulty_target (blk_header block) = target ->
  expected_difficulty_target parent child (rp_block_time_v2_activation_height (nc_replay config)) (Full g) = (Ok target, Full g) ->
  validate_block_live (nc_replay config) parent block (Full g) = (validate_state_root (node_view (Full g)) block, Full g).
Proof.
  intros Hv (H1 & H2 & H3) Ht. unfold validate_block_live, st_bind, st_read, validate_block_for_storage.
  rewrite (proj2 (validate_block_ok _ _ _ _) (Hv _)). cbn [res_map_err]. unfold validate_difficulty, st_bind.
  rewrite (expected_same parent child (blk_header block)) by done. rewrite Ht. unfold st_res. by rewrite bool_decide_eq_true_2.
Qed.

(** A submission on the tip that passes the first checks. *)
Lemma submit_on_tip post' ck' others dir isolated cleanup params' g parent block m e replay :
  nc_full config = true ->
  validate_live_timestamp_admission (rd_now ck') (blk_header block) = Ok tt ->
  validate_block_transaction_auth (rp_require_signed_transactions (nc_replay config)) block = Ok tt ->
  hdr_parent_hash (blk_header block) = header_hash parent -> hdr_number (blk_header block) = wrap64 (hdr_number parent + 1) ->
  up_sources (mi_upstreams m) !! header_hash parent = None ->
  mi_storage m = Full g -> node_best_header (Full g) = Ok parent -> node_header_by_hash (Full g) (header_hash (blk_header block)) = Err e ->
  validate_block_live (nc_replay config) parent block (Full g) = (replay, Full g) ->
  rpc_submit_block config network post' ck' others dir isolated cleanup (Some (Ok block)) params' m =
    match replay with
    | Ok _ => store_mined config network block m
    | Err message => (Err (rpc_error (-32000) message), m)
    | Panic => (Panic, m)
    end.
Proof.
  intros Hfull Hlive Hauth Hph Hn Hup Hm Hbest Hnew Hcheck. unfold rpc_submit_block. rewrite Hfull. cbn [negb ok_or res_map_err].
  unfold st_bind, st_res. cbn [ok_or res_map_err]. rewrite Hlive, Hauth. cbn [server_error res_map_err]. unfold proxy_mined_block. rewrite Hph, Hup. cbn [res_map_err].
  assert (m <|mi_upstreams := mi_upstreams m|> = m) as -> by (by destruct m).
  unfold submit_local, st_bind, mi_read, st_read. rewrite Hm, Hbest, Hnew. cbn [any_res res_map_err paused_error attempt].
  assert (extends parent (blk_header block) = true) as -> by (unfold extends; by rewrite Hn, Z.eqb_refl, bool_decide_eq_true_2).
  cbn [negb]. rewrite (on_node_same _ _ m replay) by (by rewrite Hm). by destruct replay as [[]| |].
Qed.

Lemma cap_keeps n r n' : nc_pruning_enabled config = false -> ensure_storage_cap config n = (r, n') -> n' = n.
Proof.
  intros Hp H. unfold ensure_storage_cap, prune_if_enabled in H. rewrite Hp in H. cbn [andb] in H.
  unfold st_bind, st_ret, st_res, st_read in H. repeat case_match; by simplify_eq.
Qed.

(** A block that is stored is the new tip, and its transactions leave the
    pool. *)
Lemma store_mined_extends c block m s m' :
  nc_pruning_enabled config = false -> holds c (mi_storage m) -> block_number block = Z.of_nat (length c) -> list_fits (c ++ [block]) ->
  store_mined config network block m = (Ok s, m') ->
  s = Stored /\ holds (c ++ [block]) (mi_storage m') /\ mi_cache m' = None /\
  hd_mempool (mi_handler m') = remove_included (hd_mempool (mi_handler m)) (map tx_hash (blk_transactions block)).
Proof.
  intros Hp Hc Hn Hf H. unfold store_mined in H. apply st_bind_ok in H as ([] & m1 & H1 & H). unfold on_node in H1.
  destruct (ensure_storage_cap config (mi_storage m)) as [r1 n1] eqn:E1. apply cap_keeps in E1 as ->; [|done]. injection H1 as _ <-.
  apply st_bind_ok in H as ([] & m2 & H2 & H). unfold on_node in H2.
  destruct (any (node_insert_block append_block block) _) as [r2 n2] eqn:E2. injection H2 as Hr2 <-. apply map_err_ok in Hr2 as ->.
  eapply node_insert_chain in E2; [|exact Hc|done..].
  apply st_bind_ok in H as ([] & m3 & [= <-] & H). apply st_bind_ok in H as ([] & m4 & [= <-] & H).
  apply st_bind_ok in H as ([] & m5 & H5 & [= <- <-]). unfold on_handler, enqueue_block_gossip in H5.
  destruct (nw_enabled network); injection H5 as <-; by repeat split.
Qed.


Section stuck.
Context (g : Generation) (c : list Block) (b : Block).
Context (Hc : chain_rep (contents (gn_db g)) c) (Hl : linked_chain c) (Hlast : last c = Some b).

Abbreviation cleaned m := (cleaned_pool (Full g) (unix_now ck) (hd_mempool (mi_handler m))).
Abbreviation pool_of m := (hd_mempool (mi_handler m)).

Lemma make_template_pool beneficiary m r m' :
  mi_storage m = Full g -> make_template config ck sort active_id (blk_header b) beneficiary m = (r, m') ->
  pool_of m' = pool_of m \/ pool_of m' = cleaned m.
Proof.
  intros Hm H. unfold make_template, st_bind at 1, st_read at 1 in H. rewrite Hm in H.
  unfold st_bind at 1, on_node in H. rewrite Hm in H.
  destruct (expected_difficulty_target _ _ _ (Full g)) as [q n1] eqn:Et.
  assert (n1 = Full g) as ->.
  { pose proof (expected_stays g c b (tpl_header (build_empty_template_with_genesis (blk_header b) beneficiary
      (template_timestamp ck (blk_header b)) (configured_genesis_hash (Full g)))) (rp_block_time_v2_activation_height (nc_replay config)) Hc Hl
      (last_Some_elem_of _ _ Hlast)) as E. by rewrite Et in E. }
  destruct q as [x|e|]; cbn [res_map_err] in H; [|injection H as _ <-; by left..].
  right. unfold st_bind, mi_modify, st_read, st_ret in H. destruct (paused_error _) as [y|e|]; injection H as _ <-; reflexivity.
Qed.

Lemma template_pool params m r m' :
  mi_storage m = Full g -> rpc_block_template config network mining_upstreams rs tips post ck sort active_id params m = (r, m') ->
  pool_of m' = pool_of m \/ pool_of m' = cleaned m.
Proof.
  intros Hm H. unfold rpc_block_template in H. destruct (mining_upstream_required _ _ _ _ _ _).
  { destruct (proxy_mining_template _ _ _ _ _ _ _ _) as [q u]. injection H as _ <-. by left. }
  unfold st_bind at 1, mi_read, st_read at 1 in H. rewrite Hm, (best_tip_header g c b Hc Hlast) in H. cbn [any_res res_map_err paused_error] in H.
  unfold st_bind at 1, st_read at 1 in H. destruct (cached_template _ _ _ _) as [p|]; [injection H as _ <-; by left|].
  unfold st_bind at 1, st_read at 1 in H. destruct (negb _); [injection H as _ <-; by left|]. unfold st_bind in H.
  destruct (make_template _ _ _ _ _ _ m) as [q m1] eqn:Em. apply make_template_pool in Em; [|done].
  by destruct q; injection H as _ <-.
Qed.

Lemma drained_cleaned m t : t ∈ drained ck sort g (blk_header b) (pool_of m) -> t ∈ transactions (cleaned m).
Proof. unfold drained, drain_for_block. intros Ht%drain_loop_elem. by rewrite sort_perm in Ht. Qed.

(** A transaction whose fee cap is below the next base fee stops local
    templates.  Admission compares the cap with the base fee of the tip, while
    the template executes the transaction at the base fee of the next block, and
    one transaction that fails fails the whole template.  The transaction stays
    in the pool, so the next request fails as well, until it expires or the tip
    changes. *)
Theorem underpaid_transaction_stops_templates params m t r m' :
  Z.of_nat (length c) + 1 <= U64_MAX -> mi_storage m = Full g -> mi_cache m = None ->
  t ∈ drained ck sort g (blk_header b) (pool_of m) -> tx_max_fee_per_gas t < next_base_fee_per_gas (blk_header b) ->
  rpc_block_template config network mining_upstreams rs tips post ck sort active_id params m = (r, m') ->
  (forall payload, r <> Ok (FromTip payload)) /\ t ∈ transactions (pool_of m').
Proof.
  intros Hfit Hm Hcache Ht Hfee H. split.
  - intros payload ->. pose proof (local_template config network mining_upstreams rs tips post ck sort active_id
      g c b Hc Hl Hlast Hfit params m payload m' Hm Hcache H) as Hmade.
    destruct (template_built config ck sort g c b Hc Hlast Hfit _ m m' payload Hmade) as ([b0 Hb] & _).
    apply build_built, bu_fees in Hb. rewrite List.Forall_forall in Hb. apply list_elem_of_In, Hb, validate_transaction_fee_ok in Ht as (_ & Ht & _).
    cbn in Ht. lia.
  - destruct (template_pool _ _ _ _ Hm H) as [->| ->]; [by eapply drained_pool|by apply drained_cleaned].
Qed.
End stuck.
End accepted.

(** ** Example: one block, a transfer, and a transaction that reads the mix hash *)

(** An interpreter in which every transaction logs the random value of its
    block. *)
Program Definition logging_revm : @Revm u256_z := {|
  revm_build := fun _ => None;
  revm_transact := fun _ _ block t =>
    if te_gas_limit t <? 21000 then Err "intrinsic gas too low"%string
    else Ok ({| er_success := true; er_tx_gas_used := 21000; er_output := None;
                er_logs := [{| log_address := te_caller t; log_topics := []; log_data := be_prevrandao block |}] |}, []) |}.
Next Obligation. intros db c b t r ch. cbn. destruct (Z.ltb_spec (te_gas_limit t) 21000); [done|]. intros [= <- _]. cbn. lia. Qed.
Next Obligation. intros db c b t. cbn. by destruct (_ <? _). Qed.

(** The genesis block: full of gas, so that the base fee rises. *)
Definition mining_genesis : Block := empty_block {|
  hdr_parent_hash := HASH_ZERO; hdr_number := 0; hdr_state_root := HASH_ZERO; hdr_transactions_root := HASH_ZERO;
  hdr_receipts_root := HASH_ZERO; hdr_beneficiary := be_bytes 32 5; hdr_difficulty_target := HASH_MAX;
  hdr_base_fee_per_gas := 1000000000; hdr_gas_limit := GENESIS_GAS_LIMIT; hdr_gas_used := GENESIS_GAS_LIMIT;
  hdr_timestamp_seconds := 1000; hdr_pow_algorithm := B "BLQ-RX/1"; hdr_pow_epoch := 0; hdr_extra_nonce := 0;
  hdr_mix_hash := HASH_ZERO; hdr_nonce := 0 |}.

Definition mining_transfer (max_fee : Z) (payload : list byte) : Transaction := {|
  tx_chain_id := MAINNET_CHAIN_ID; tx_transaction_type := 2; tx_nonce := 0; tx_from := be_bytes 20 5; tx_to := Some (be_bytes 20 9);
  tx_value := 1; tx_gas_limit := 21000; tx_max_fee_per_gas := max_fee; tx_max_priority_fee_per_gas := 1; tx_payload := payload;
  tx_access_list := []; tx_signature := None; tx_external_hash := None |}.

Definition pool_with (t : Transaction) : Mempool := {| transactions := [t]; first_seen := {[ @tx_rpc_hash toy_digests t := 1000 ]} |}.

Section witness.
#[local] Existing Instances mem_sled hex_codec toy_digests mem_files mem_snapshots mem_sled_reliable.
#[local] Existing Instances u256_z toy_secp toy_randomx native_profile fork_host fork_jx fork_jg toy_keys open_stream no_addresses logging_revm.
#[local] Existing Instances SampleCodecs.JM SampleCodecs.JC SampleCodecs.JP SampleCodecs.JS SampleCodecs.CM.

Definition genesis_accounts : list SerializedEvmSnapshotEntry :=
  snapshot_entries (put_over (accounts_after mining_genesis 0) ∅).

Definition mining_config : NodeConfig := {|
  nc_full := true;
  nc_replay := {| rp_require_signed_transactions := false; rp_block_size_activation_height := Some 0; rp_block_time_v2_activation_height := None |};
  nc_pruning_enabled := false; nc_retain_finalized_checkpoints := false; nc_retain_snapshots := true; nc_max_storage_bytes := 0;
  nc_prune_trigger_percent := 90; nc_filesystem_reserve_bytes := 0 |}.

Definition template_clock : Readings := {| rd_instant := 0; rd_now := Some 1015 |}.
Definition submit_clock : Readings := {| rd_instant := 20; rd_now := Some 1020 |}.
Definition no_answer (endpoint method : list byte) (params : Value) : res string Value := Err "unreachable"%string.

#[local] Instance mining_je : Json (list SerializedEvmSnapshotEntry) := table_json [genesis_accounts].

Section runs.
Context {JB : Json Block} {JH : Json BlockHeader} {JT : Json Transaction} {JR : Json StoredReceipt}.

Definition mining_generation : Generation := (insert_full_block mining_genesis empty_generation).2.

Definition mining_state (t : Transaction) : Mining := {|
  mi_handler := {| hd_sent := []; hd_storage := Full mining_generation; hd_mempool := pool_with t; hd_routes := ∅;
                   hd_transaction_queue := None; hd_block_queue := None; hd_transactions_received := 0; hd_recovery_started := false |};
  mi_upstreams := no_upstreams; mi_cache := None |}.

Definition template_for (t : Transaction) : res RpcError TemplateAnswer * Mining :=
  rpc_block_template mining_config past_network [] no_jobs ∅ no_answer template_clock (@sort_by Transaction) (Ok None) None (mining_state t).

Definition payload_for (t : Transaction) : TemplatePayload :=
  match (template_for t).1 with Ok (FromTip p) => p | _ => template_payload (Full mining_generation) (Ok None)
    (build_empty_template (blk_header mining_genesis) HASH_ZERO 0) mining_genesis end.

(** The first nonce will do: every hash meets the target. *)
Definition work_for (t : Transaction) : PowResult :=
  match blq_rx_hash (blk_header (seal_block (tp_block (payload_for t)) 0 HASH_ZERO)) (tp_genesis_hash (payload_for t)) with
  | Ok r => r | _ => {| mix_hash := HASH_ZERO; final_hash := HASH_ZERO |} end.

Definition mined_for (t : Transaction) : Block := seal_block (tp_block (payload_for t)) 0 (mix_hash (work_for t)).

Definition submitted (t : Transaction) : res RpcError Submission * Mining :=
  rpc_submit_block mining_config past_network no_answer submit_clock (fun _ n => n) None (Err "none"%string) (Ok tt)
    (Some (Ok (mined_for t))) None (template_for t).2.
End runs.

Definition plain_transfer : Transaction := mining_transfer 2000000000 [].
Definition logging_call : Transaction := mining_transfer 2000000000 [x01].

Section first.
#[local] Instance first_jb : Json Block := table_json [mining_genesis].
#[local] Instance first_jh : Json BlockHeader := table_json [blk_header mining_genesis].
#[local] Instance first_jt : Json Transaction := table_json [].
#[local] Instance first_jr : Json StoredReceipt := table_json [].

Definition first_mined : Block := Eval vm_compute in mined_for plain_transfer.
End first.

#[local] Instance mining_jb : Json Block := table_json [mining_genesis; first_mined].
#[local] Instance mining_jh : Json BlockHeader := table_json [blk_header mining_genesis; blk_header first_mined].
#[local] Instance mining_jt : Json Transaction := table_json [plain_transfer].
#[local] Instance mining_jr : Json StoredReceipt :=
  table_json (match stored_receipt first_mined 0 plain_transfer with Ok r => [r] | _ => [] end).

Lemma mining_generation_rep : chain_rep (contents (gn_db mining_generation)) [mining_genesis].
Proof.
  apply (insert_full_chain mining_genesis empty_generation tt mining_generation []); [by apply chain_rep_empty|done|vm_compute; discriminate|].
  assert ((insert_full_block mining_genesis empty_generation).1 = Ok tt) as E by (vm_compute; reflexivity).
  unfold mining_generation. rewrite <- E. apply surjective_pairing.
Qed.

Lemma mining_linked : linked_chain [mining_genesis].
Proof. by intros [|i] below b H1 H2. Qed.

Lemma template_answered t : is_ok (template_for t).1 = true ->
  match (template_for t).1 with Ok (FromTip _) => true | _ => false end = true ->
  template_for t = (Ok (FromTip (payload_for t)), (template_for t).2).
Proof. unfold payload_for. destruct (template_for t) as [[[v|p]| |] m]; done. Qed.


(** A transfer whose fee cap is just above the base fee of the tip, and the
    state of its sender. *)
Definition cheap_transfer : Transaction := mining_transfer 1000000001 [].
Definition mining_view : StateView := state_view (Full mining_generation).

Lemma underpaid_transaction_stops_templates_witness :
  is_ok (submit mining_view mining_view mempool_default mempool_default 1000 cheap_transfer) = true /\
  (forall payload, (template_for cheap_transfer).1 <> Ok (FromTip payload)) /\
  cheap_transfer ∈ transactions (hd_mempool (mi_handler (template_for cheap_transfer).2)).
Proof.
  split; [vm_compute; reflexivity|].
  apply (underpaid_transaction_stops_templates mining_config past_network [] no_jobs ∅ no_answer template_clock (@sort_by Transaction) (Ok None)
    (fun cmp l => sort_by_perm cmp l) mining_generation [mining_genesis] mining_genesis mining_generation_rep mining_linked eq_refl None
    (mining_state cheap_transfer)); [vm_compute; discriminate|reflexivity|reflexivity| |vm_compute; reflexivity|apply surjective_pairing].
  assert (drained template_clock (@sort_by Transaction) mining_generation (blk_header mining_genesis)
    (hd_mempool (mi_handler (mining_state cheap_transfer))) = [cheap_transfer]) as -> by (vm_compute; reflexivity).
  by left.
Defined.
End witness.
